(* ===== verification/_CoqProject ===== *)
-Q . S2P
Prelude.v
Index.v
Cells.v
Rows.v
Storages.v
Grids.v
Resizes.v
TermData.v
Selections.v
Terms.v
Handlers.v
TermSafety.v
HandlerSafety.v
TermProps.v
Effects.v
States.v
Searches.v
SearchProps.v
RegexProps.v
ViModes.v
ViProps.v
Keys.v
Bindings.v
DefaultBindings.v
BindingProps.v
Keyboards.v
KeyProps.v
EventLoops.v
EventLoopProps.v
Schedulers.v
FrameDamages.v
FrameDamageProps.v
Hints.v
HintProps.v
HintMatchProps.v
Messages.v
MessageProps.v
Shorteners.v
ShortenerProps.v
Mice.v
MouseProps.v
Contexts.v
Actions.v
Inputs.v
Touches.v
WindowEvents.v
ContextProps.v
InputProps.v
TouchProps.v
ColorLists.v
ColorProps.v
Contents.v
ContentProps.v
Texts.v
TextProps.v
Rects.v
RectProps.v
Paints.v
PaintProps.v
Displays.v
SearchInputProps.v
PasteProps.v
WindowProps.v
DisplayProps.v
Draws.v
FontSizes.v
Windows.v
Applications.v
ApplicationProps.v
Configs.v
ConfigProps.v
FairMutexes.v
