(* ===== verification/Prelude.v ===== *)
(** * A verification of CuTTY

    CuTTY is a terminal emulator: a program runs behind a pseudoterminal, its output is parsed into
    calls of a handler that update a grid of cells, and windows show the grid and turn keys, mouse and
    touch into bytes for the program.  This library models the crate [cutty_terminal] and the parts of
    the crate [cutty] between the window system and the renderer, and proves what makes them correct.

    ** The parts and how they interact

    The event loop ([EventLoops]) reads the pseudoterminal, parses what it read under the lock of the
    terminal, and writes the queue of bytes of the user's input.  The parser calls the handler
    ([Handlers]) of the terminal ([Terms]), which owns two grids ([Grids]) over a ring of rows
    ([Storages], [Rows], [Cells]) that is reflowed when the size changes ([Resizes]).  Selections,
    searches, the vi mode and hints ([Selections], [Searches], [ViModes], [Hints]) work on points of
    that grid ([Index]).

    The application ([Applications]) receives the events of the window system, of the terminals and of
    the timers ([Schedulers]) and queues them at their window ([Windows]).  A window processes its queue
    with [WindowEvents], [Inputs], [Touches] and [Keyboards], whose actions ([Actions]) change the
    shared state [Contexts].  Then it updates its display ([Displays]) and draws a frame ([Draws]) from
    the content of the terminal ([Contents]): texts, rectangles, backgrounds and glyphs ([Texts],
    [Rects], [Paints]), the messages ([Messages]), and the damage for the compositor ([FrameDamages]).
    The configuration ([Configs], [Bindings]) says what keys, hints and colours mean.

    ** Files and the code they model

    A file whose name ends in [Props] or [Safety], and [Effects] and [States], has theorems about
    another; the others have definitions, most with their lemmas.  Definitions keep the names of the
    code; an operation on a struct is in the Module with the struct's name.

    Under [src/cutty_terminal/src/]:
    - [Index]: [index.rs].  [Cells]: [term/cell.rs] and the traits of cells in [grid/mod.rs].
    - [Rows]: [grid/row.rs].  [Storages]: [grid/storage.rs].  [Grids]: [grid/mod.rs].
      [Resizes]: [grid/resize.rs].
    - [TermData], [Terms], [Handlers]: [term/mod.rs], [term/color.rs], [event.rs].
    - [Selections]: [selection.rs].  [Searches]: [term/search.rs], and what of [selection.rs] and
      [term/mod.rs] needs it.  [ViModes]: [vi_mode.rs].  [EventLoops]: [event_loop.rs].
      [FairMutexes]: [sync.rs].

    Under [src/cutty/src/]:
    - [Keys], [Bindings], [DefaultBindings]: [config/bindings.rs], [config/ui_config.rs], and the
      derived readers of enumerations.  [Configs]: [config/mod.rs], [config/serde_utils.rs],
      [config/monitor.rs] and the options in [cli.rs].  [FontSizes]: [config/font.rs].
    - [Keyboards]: [input/keyboard.rs].  [Mice], [Contexts], [Actions], [Inputs], [Touches],
      [WindowEvents]: [input/mod.rs], the action context and the handler of window events of
      [event.rs], [display/window.rs], [config/cursor.rs].
    - [Schedulers]: [scheduler.rs].  [Messages]: [message_bar.rs].  [Shorteners]: [string.rs].
    - [Hints]: [display/hint.rs] and the expressions of [config/ui_config.rs].  [FrameDamages]:
      [display/damage.rs].  [ColorLists]: [display/color.rs], [config/color.rs].  [Contents]:
      [display/content.rs].  [Texts]: [display/text.rs].  [Rects]: [display/rects.rs],
      [display/cursor.rs], the sizes of [display/mod.rs].  [Paints], [Displays], [Draws]:
      [display/mod.rs], with the timers of frames and the bell's part in a frame.
    - [Windows]: [window_context.rs].  [Applications]: the processor of [event.rs].

    ** What the theorems show

    - The terminal: any sequence of handler calls, of any length, keeps the invariant [term_ok] and does
      not panic, but for one call with a full stack of keyboard modes ([TermProps]); resizing ends with a valid
      grid of the new size ([Resizes], [TermProps]); scrolling, input, erasing, tabs, screens and modes
      do what they are meant to ([Grids], [Effects], [States]).
    - Selections and searches: ranges lie in the grid; the bracket, semantic, line and inline searches
      find what a reference definition says; the loop for regular expressions ends, but for one kind
      of search that is shown to go on forever ([SearchProps], [RegexProps]).  Vi motions end inside the grid ([ViProps]).
    - The event loop refines a queue of bytes, reads are parsed in order, and the interest in writing
      follows the queue, unless it cannot be registered, which panics ([EventLoopProps]).  The fair lock of the terminal is exclusive, goes to whom it
      is reserved for, and cannot deadlock ([FairMutexes]).
    - Input: key sequences and mouse reports can be decoded ([KeyProps], [MouseProps]); bindings are
      read exactly as documented, and the default ones send nothing in vi mode ([BindingProps],
      [InputProps], [WindowProps]); touches are tracked ([TouchProps]); pasting is contained
      ([PasteProps]); a cancelled search restores the view it began with, once the display
      has made room for its line ([SearchInputProps]).
    - Hints: labels are prefix-free, typing one selects its match, the heuristics for the end of a match
      agree with a description by nesting ([HintProps], [HintMatchProps]).
    - The display: the cells of a frame are those of a description of what is visible and what covers a
      cell ([ContentProps]); caching
      of layouts, joining of backgrounds and batching of glyphs do not show ([TextProps], [PaintProps]);
      lines cover their cells and the grid fits ([RectProps]); the damage covers what changed
      ([FrameDamageProps]); an update leaves terminal, damage and window with one size, which is
      the one that fits ([DisplayProps]).
    - The application: whatever happens in whatever order, a visible window whose content changed is
      redrawn or has a timer that lets it ([ApplicationProps]); timers fire in order ([Schedulers]).
    - Messages, shortened strings and the notation of colours ([MessageProps], [ShortenerProps],
      [ColorProps]); loading of configuration files ends, the file wins over its imports, and settings
      of older versions are moved ([ConfigProps]).

    Where the code does not do this, a theorem has the condition under which it does, and an Example
    next to it shows what happens without.

    ** Conventions

    - The panic monad is [option]: [None] is a panic of the checked profile of Rust (an overflow, an
      index out of range, a failed assertion), or too little fuel where a loop has fuel.  Errors of the
      code are values of [result].  State is passed explicitly; the handlers of the terminal and the
      input are in state monads over [option] with a weakest precondition or a Hoare triple of their own.
    - [usize] is [nat], [i32] is [Z] with its checks, smaller unsigned integers and bit flags are [N].
      Characters are their code points, bytes are numbers.
    - Wheel, touches and the sizes used by the damage are whole pixels; lengths of the display are
      multiples of 1/65536 of a pixel, computed without rounding; alpha and contrast are the bits of
      their [f32] or [f64]; sizes of fonts are exact [f32] of [SpecFloat].  Instants are nanoseconds.
    - Code of other crates is a parameter: classes such as [External], [Winit], [Pty], [Emulator] and
      [Hybrid] hold its types, functions and documented laws.  Theorems with hypotheses have a witness,
      an Example that applies them to concrete parameters and input.
    - What leaves the model is a list of effects in order.

    ** Bounds and fuel

    Loops that are not structural have fuel, and a theorem that it is enough:
    - clearing scans at most [lines * columns + 2] cells; [shrink_row] is called once for each cell of
      the row and the cursor's column; tabs move at most [columns] times; cell loops of the searches and
      the vi mode have [total_lines * columns + 1] steps, line loops [total_lines + 1];
    - the regular expression search has the number of its iterations as fuel, of which twice the number
      of cells and two suffice where it ends; [rfuel] is the fuel that operations hand to it;
    - [write_fuel] is the pending bytes, the inputs and two; reading needs the attempts until the lock is
      free and the buffer, plus two; the scheduler the timers and one; collecting damage its length and
      one; the shortener twice the text and four; a touch motion two; a row of content its cells and one;
      the options of the configuration their number and one; imports are nested at most five deep;
    - a budget bounds how far handlers may move the lines of a selection, which nothing in the code
      bounds; it is a parameter of the safety theorems, and matters only for a terminal that has a
      selection: without one it is replenished, so that runs of any length are safe.

    ** Not modelled

    Creating pseudoterminals and child processes ([tty/]), which is system calls; the surface, the
    scene and the rasterizer behind the renderer, the shaping of text and the intensity of the bell,
    which are third-party code or clocks; the generated deserialisation of the configuration, the
    watcher of files and the parsing of the command line; creating windows and reloading their
    configuration; the socket for remote control, the daemon, logging and the panic handler; the
    benchmarks of the display.  The event loop takes the lock of the terminal as a parameter; its model
    in [FairMutexes] stands on its own. *)
From stdpp Require Export prelude vector.
From Stdlib Require Export ZArith Lia ZifyBool.

#[export] Set Default Goal Selector "!".

(** * Machine integers

    [usize] is [nat], [i32] is [Z].  The arithmetic follows the checked profile of Rust: an
    operation whose result does not fit panics. *)

Abbreviation usize := nat (only parsing).
Abbreviation i32 := Z (only parsing).
Abbreviation I32_MAX := 2147483647%Z.
Abbreviation I32_MIN := (-2147483648)%Z.

Definition in_i32 (z : Z) : bool := (I32_MIN <=? z)%Z && (z <=? I32_MAX)%Z.

(** [x as i32] for a [usize] keeps the low 32 bits, read in two's complement. *)
Definition as_i32 (n : nat) : Z :=
  ((Z.of_nat n + 2147483648) mod 4294967296 - 2147483648)%Z.

(** [x as usize] for an [i32] or an [isize] sign-extends to 64 bits. *)
Definition as_usize (z : Z) : nat := Z.to_nat (z mod 18446744073709551616)%Z.

(** * The panic monad: [None] is a panic (an index out of range, a failed assertion, an
    overflow), [Some] a normal return. *)

Definition panic {A} : option A := None.

Definition ensure (b : bool) : option unit := if b then Some tt else None.

Definition i32_chk (z : Z) : option Z := if in_i32 z then Some z else None.
Definition i32_add (a b : Z) : option Z := i32_chk (a + b)%Z.
Definition i32_sub (a b : Z) : option Z := i32_chk (a - b)%Z.
Definition usize_sub (a b : nat) : option nat := if b <=? a then Some (a - b) else None.

(** [Result]: an error is a value, not a panic. *)
Inductive result (E A : Type) := Ok (a : A) | Err (e : E).
Arguments Ok {E A} a.
Arguments Err {E A} e.
#[export] Instance result_ret E : MRet (result E) := λ A, Ok.
#[export] Instance result_bind E : MBind (result E) := λ A B f m,
  match m with Ok a => f a | Err e => Err e end.
(** [ok_or]. *)
Definition ok_or {E A} (e : E) (m : option A) : result E A :=
  match m with Some a => Ok a | None => Err e end.

(** [Iterator::fold] for a loop [for a in l] whose body may panic. *)
Fixpoint foldM {A St} (f : A → St → option St) (l : list A) (s : St) : option St :=
  match l with
  | [] => Some s
  | a :: l => s ← f a s; foldM f l s
  end.

(** The range [a..b] over [i32]. *)
Definition zrange (a b : Z) : list Z := seqZ a (b - a)%Z.

(** ** Slices and vectors *)

(** [v[i] = f(v[i])]: panics out of range. *)
Definition update_at {A} (i : nat) (f : A → A) (l : list A) : option (list A) :=
  x ← l !! i; Some (<[i := f x]> l).

(** A [for] loop over the mutable slice [v[a..b]] that updates each element by [f]. *)
Definition update_slice {A} (a b : nat) (f : A → A) (l : list A) : option (list A) :=
  if (a <=? b) && (b <=? length l)
  then Some (take a l ++ (f <$> take (b - a) (drop a l)) ++ drop b l)
  else None.

(** [v.swap(i, j)]. *)
Definition swap_at {A} (i j : nat) (l : list A) : option (list A) :=
  x ← l !! i; y ← l !! j; Some (<[j := x]> (<[i := y]> l)).

(** [Vec::truncate]. *)
Definition truncate {A} (n : nat) (l : list A) : list A := take n l.

(** [Vec::resize_with(n, || x)]. *)
Definition resize_with {A} (n : nat) (x : A) (l : list A) : list A :=
  take n l ++ replicate (n - length l) x.

(** [Vec::resize_with(n, f)] where [f] may panic; it is not called when the vector shrinks. *)
Definition resize_withM {A} (n : nat) (x : option A) (l : list A) : option (list A) :=
  if n <=? length l then Some (take n l)
  else x ← x; Some (l ++ replicate (n - length l) x).

(** [Iterator::position] and [Iterator::rposition]. *)
Fixpoint position {A} (p : A → bool) (l : list A) : option nat :=
  match l with
  | [] => None
  | x :: l => if p x then Some 0 else S <$> position p l
  end.
Definition rposition {A} (p : A → bool) (l : list A) : option nat :=
  (λ i, length l - 1 - i) <$> position p (reverse l).

(** [Vec::insert(i, x)]. *)
Definition insert_at {A} (i : nat) (x : A) (l : list A) : option (list A) :=
  if i <=? length l then Some (take i l ++ x :: drop i l) else None.

#[global] Arguments Nat.leb : simpl never.
#[global] Arguments Nat.ltb : simpl never.
#[global] Arguments Nat.eqb : simpl never.
#[global] Arguments in_i32 : simpl never.
#[global] Arguments as_i32 : simpl never.
#[global] Arguments as_usize : simpl never.
#[global] Arguments ensure : simpl never.
#[global] Arguments i32_chk : simpl never.
#[global] Arguments i32_add : simpl never.
#[global] Arguments i32_sub : simpl never.
#[global] Arguments usize_sub : simpl never.
#[global] Arguments update_at {_} _ _ _ : simpl never.
#[global] Arguments update_slice {_} _ _ _ _ : simpl never.
#[global] Arguments swap_at {_} _ _ _ : simpl never.
#[global] Arguments resize_with {_} _ _ _ : simpl never.
#[global] Arguments truncate {_} _ _ : simpl never.

(** * Weakest preconditions: [wp m Q] says that [m] returns and its result satisfies [Q]. *)

Definition wp {A} (m : option A) (Q : A → Prop) : Prop :=
  match m with Some a => Q a | None => False end.

Section wp.
Context {A B : Type}.
Implicit Types (m : option A) (Q : A → Prop).

Lemma wp_some m Q : wp m Q ↔ ∃ a, m = Some a ∧ Q a.
Proof. destruct m; simpl; (split; [intros H|intros (x & E & H)]); [by eauto|by injection E as ->|done|done]. Qed.

Lemma wp_bind m (k : A → option B) (Q : B → Prop) :
  wp m (λ a, wp (k a) Q) → wp (m ≫= k) Q.
Proof. by destruct m. Qed.

Lemma wp_fmap m (f : A → B) (Q : B → Prop) : wp m (λ a, Q (f a)) → wp (f <$> m) Q.
Proof. by destruct m. Qed.

Lemma wp_mono m Q Q' : wp m Q → (∀ a, Q a → Q' a) → wp m Q'.
Proof. destruct m; simpl; auto. Qed.

Lemma wp_conj m Q Q' : wp m Q → wp m Q' → wp m (λ a, Q a ∧ Q' a).
Proof. destruct m; simpl; auto. Qed.

Lemma wp_eq m a Q : m = Some a → Q a → wp m Q.
Proof. by intros ->. Qed.

Lemma wp_use m a Q : wp m Q → m = Some a → Q a.
Proof. by intros H ->. Qed.
End wp.

(** * Arithmetic facts *)

Lemma in_i32_true z : in_i32 z = true ↔ (I32_MIN ≤ z ≤ I32_MAX)%Z.
Proof. unfold in_i32. rewrite andb_true_iff, !Z.leb_le. lia. Qed.

Lemma as_i32_small n : (Z.of_nat n ≤ I32_MAX)%Z → as_i32 n = Z.of_nat n.
Proof. intros H. unfold as_i32. rewrite Z.mod_small by lia. lia. Qed.

Lemma as_usize_small z : (0 ≤ z < 18446744073709551616)%Z → as_usize z = Z.to_nat z.
Proof. intros H. unfold as_usize. by rewrite Z.mod_small by lia. Qed.

Lemma as_i32_range n : (I32_MIN ≤ as_i32 n ≤ I32_MAX)%Z.
Proof.
  unfold as_i32. pose proof (Z.mod_pos_bound (Z.of_nat n + 2147483648) 4294967296). lia.
Qed.

Lemma i32_chk_ok z : (I32_MIN ≤ z ≤ I32_MAX)%Z → i32_chk z = Some z.
Proof. intros H. unfold i32_chk. by rewrite (proj2 (in_i32_true z) H). Qed.

(** A checked operation that returns gives the exact result, in range. *)
Lemma i32_chk_inv z r : i32_chk z = Some r → r = z ∧ (I32_MIN ≤ r ≤ I32_MAX)%Z.
Proof.
  unfold i32_chk. destruct (in_i32 z) eqn:E; [|done]. intros [= <-].
  by apply in_i32_true in E.
Qed.

Lemma i32_add_ok a b : (I32_MIN ≤ a + b ≤ I32_MAX)%Z → i32_add a b = Some (a + b)%Z.
Proof. apply i32_chk_ok. Qed.

Lemma i32_sub_ok a b : (I32_MIN ≤ a - b ≤ I32_MAX)%Z → i32_sub a b = Some (a - b)%Z.
Proof. apply i32_chk_ok. Qed.

Lemma usize_sub_ok a b : b ≤ a → usize_sub a b = Some (a - b).
Proof. intros H. unfold usize_sub. by rewrite (proj2 (Nat.leb_le b a) H). Qed.

Lemma ensure_ok b : b = true → ensure b = Some tt.
Proof. by intros ->. Qed.

(** The primitives as [wp] rules: the range obligation, then the rest. *)
Lemma wp_i32_add a b (Q : Z → Prop) :
  (I32_MIN ≤ a + b ≤ I32_MAX)%Z → Q (a + b)%Z → wp (i32_add a b) Q.
Proof. intros H. by rewrite (i32_add_ok _ _ H). Qed.

Lemma wp_i32_sub a b (Q : Z → Prop) :
  (I32_MIN ≤ a - b ≤ I32_MAX)%Z → Q (a - b)%Z → wp (i32_sub a b) Q.
Proof. intros H. by rewrite (i32_sub_ok _ _ H). Qed.

Lemma wp_usize_sub a b (Q : nat → Prop) : b ≤ a → Q (a - b) → wp (usize_sub a b) Q.
Proof. intros H. by rewrite (usize_sub_ok _ _ H). Qed.

Lemma wp_ensure b (Q : unit → Prop) : b = true → Q tt → wp (ensure b) Q.
Proof. by intros ->. Qed.

(** * Loops *)

(** Rule for [for] loops: an invariant indexed by the number of iterations done. *)
Lemma wp_foldM {A St} (f : A → St → option St) (l : list A) (I : nat → St → Prop) (s : St) :
  I 0 s →
  (∀ i a s, l !! i = Some a → I i s → wp (f a s) (I (S i))) →
  wp (foldM f l s) (I (length l)).
Proof.
  revert I s. induction l as [|a l IH]; intros I s H0 Hstep; simpl; [done|].
  apply wp_bind. eapply wp_mono; [by apply (Hstep 0)|].
  intros s' Hs'. apply (IH (λ i, I (S i)) s' Hs').
  intros i b s'' Hb. by apply (Hstep (S i)).
Qed.

(** The plain form: a property every iteration preserves. *)
Lemma wp_foldM_inv {A St} (f : A → St → option St) (l : list A) (I : St → Prop) (s : St) :
  I s → (∀ a s, a ∈ l → I s → wp (f a s) I) → wp (foldM f l s) I.
Proof.
  intros H0 Hstep. apply (wp_foldM f l (λ _, I)); [done|].
  intros i a s' Ha. apply Hstep. apply list_elem_of_lookup. eauto.
Qed.

Lemma foldM_app {A St} (f : A → St → option St) (l1 l2 : list A) (s : St) :
  foldM f (l1 ++ l2) s = foldM f l1 s ≫= foldM f l2.
Proof.
  revert s. induction l1 as [|a l1 IH]; intros s; simpl; [done|].
  destruct (f a s); simpl; [apply IH|done].
Qed.

(** ** Ranges *)

Lemma length_zrange a b : length (zrange a b) = Z.to_nat (b - a).
Proof. apply length_seqZ. Qed.

Lemma lookup_zrange a b i z :
  zrange a b !! i = Some z ↔ (z = a + Z.of_nat i ∧ z < b)%Z.
Proof. unfold zrange. rewrite lookup_seqZ. lia. Qed.

Lemma elem_of_zrange a b z : z ∈ zrange a b ↔ (a ≤ z < b)%Z.
Proof. unfold zrange. rewrite elem_of_seqZ. lia. Qed.

Lemma lookup_reverse_zrange a b i z :
  reverse (zrange a b) !! i = Some z ↔ (z = b - 1 - Z.of_nat i ∧ a ≤ z)%Z.
Proof.
  destruct (decide (i < length (zrange a b))) as [Hi|Hi].
  - rewrite reverse_lookup by done. rewrite lookup_zrange.
    rewrite length_zrange in *. lia.
  - rewrite lookup_ge_None_2 by (rewrite length_reverse; lia).
    rewrite length_zrange in Hi. split; [done|lia].
Qed.

(** ** Lists *)

Lemma update_at_ok {A} i (f : A → A) (l : list A) x :
  l !! i = Some x → update_at i f l = Some (<[i := f x]> l).
Proof. intros H. unfold update_at. by rewrite H. Qed.

Lemma swap_at_ok {A} i j (l : list A) x y :
  l !! i = Some x → l !! j = Some y → swap_at i j l = Some (<[j := x]> (<[i := y]> l)).
Proof. intros Hi Hj. unfold swap_at. by rewrite Hi, Hj. Qed.

Lemma length_resize_with {A} n (x : A) l : length (resize_with n x l) = n.
Proof. unfold resize_with. rewrite length_app, length_take, length_replicate. lia. Qed.

Lemma length_update_slice {A} a b (f : A → A) l l' :
  update_slice a b f l = Some l' → length l' = length l.
Proof.
  unfold update_slice. case_match eqn:E; [|done]. intros [= <-].
  apply andb_true_iff in E as [?%Nat.leb_le ?%Nat.leb_le].
  rewrite !length_app, length_fmap, !length_take, !length_drop. lia.
Qed.

Lemma update_slice_ok {A} a b (f : A → A) l :
  a ≤ b → b ≤ length l →
  update_slice a b f l = Some (take a l ++ (f <$> take (b - a) (drop a l)) ++ drop b l).
Proof.
  intros H1 H2. unfold update_slice.
  by rewrite (proj2 (Nat.leb_le a b) H1), (proj2 (Nat.leb_le b (length l)) H2).
Qed.

Lemma lookup_update_slice {A} a b (f : A → A) l l' i :
  update_slice a b f l = Some l' →
  l' !! i = if (a <=? i) && (i <? b) then f <$> l !! i else l !! i.
Proof.
  unfold update_slice. case_match eqn:E; [|done]. intros [= <-].
  apply andb_true_iff in E as [Ha%Nat.leb_le Hb%Nat.leb_le].
  destruct (decide (i < a)) as [Hi|Hi].
  { rewrite lookup_app_l by (rewrite length_take; lia).
    rewrite lookup_take_lt by done. by rewrite (proj2 (Nat.leb_gt a i) Hi). }
  rewrite (proj2 (Nat.leb_le a i)) by lia. simpl.
  rewrite lookup_app_r by (rewrite length_take; lia).
  rewrite length_take, Nat.min_l by lia.
  destruct (Nat.ltb_spec i b) as [Hib|Hib].
  - rewrite lookup_app_l by (rewrite length_fmap, length_take, length_drop; lia).
    rewrite list_lookup_fmap, lookup_take_lt by lia. rewrite lookup_drop.
    by replace (a + (i - a)) with i by lia.
  - rewrite lookup_app_r by (rewrite length_fmap, length_take, length_drop; lia).
    rewrite length_fmap, length_take, length_drop, lookup_drop. f_equal. lia.
Qed.

Lemma resize_withM_ok {A} n (x : A) l :
  length l ≤ n → resize_withM n (Some x) l = Some (l ++ replicate (n - length l) x).
Proof.
  intros Hn. unfold resize_withM. destruct (n <=? length l) eqn:E; [|done].
  apply Nat.leb_le in E. assert (n = length l) as -> by lia.
  by rewrite take_ge, Nat.sub_diag, app_nil_r by lia.
Qed.

Lemma position_Some {A} (p : A → bool) l i :
  position p l = Some i →
  (∃ x, l !! i = Some x ∧ p x = true) ∧ ∀ j x, j < i → l !! j = Some x → p x = false.
Proof.
  revert i. induction l as [|y l IH]; intros i; simpl; [done|].
  destruct (p y) eqn:E.
  { intros [= <-]. split; [by exists y|]. lia. }
  destruct (position p l) as [k|]; [|done]. intros [= <-].
  destruct (IH k eq_refl) as [Hx Hlt]. split; [done|].
  intros [|j] x Hj; simpl; [by intros [= <-]|]. apply Hlt. lia.
Qed.

Lemma position_None {A} (p : A → bool) l :
  position p l = None ↔ ∀ x, x ∈ l → p x = false.
Proof.
  induction l as [|y l IH]; simpl.
  { split; [|done]. intros _ x Hx. by apply elem_of_nil in Hx. }
  destruct (p y) eqn:E.
  { split; [done|]. intros H. rewrite (H y) in E by (by left). done. }
  destruct (position p l) as [k|]; simpl.
  - split; [done|]. intros H. exfalso. cut (Some k = None); [done|].
    apply IH. intros x Hx. apply H. by right.
  - split; [|done]. intros _ x Hx. apply elem_of_cons in Hx as [->|Hx]; [done|].
    by apply (proj1 IH).
Qed.

Lemma rposition_Some {A} (p : A → bool) l i :
  rposition p l = Some i →
  (∃ x, l !! i = Some x ∧ p x = true) ∧ ∀ j x, i < j → l !! j = Some x → p x = false.
Proof.
  unfold rposition. destruct (position p (reverse l)) as [k|] eqn:E; [|done].
  intros [= <-]. apply position_Some in E as [(x & Hx & Hp) Hlt].
  assert (k < length l) as Hk.
  { apply lookup_lt_Some in Hx. by rewrite length_reverse in Hx. }
  rewrite reverse_lookup in Hx by done. split.
  - exists x. split; [|done]. by replace (length l - 1 - k) with (length l - S k) by lia.
  - intros j y Hj Hy. pose proof (lookup_lt_Some _ _ _ Hy).
    apply (Hlt (length l - S j)); [lia|]. rewrite reverse_lookup by lia.
    by replace (length l - S (length l - S j)) with j by lia.
Qed.

Lemma rposition_None {A} (p : A → bool) l :
  rposition p l = None ↔ ∀ x, x ∈ l → p x = false.
Proof.
  unfold rposition. rewrite fmap_None, position_None.
  split; intros H x Hx; apply H; by apply elem_of_reverse.
Qed.

(** * Automation *)

Create HintDb cutty discriminated.
#[export] Hint Resolve as_i32_range : cutty.
Create Rewrite HintDb lens.
#[export] Hint Rewrite @length_insert @length_fmap @length_app @length_take @length_drop
  @length_replicate @length_reverse @length_resize_with length_zrange : lens.

(** [casts] replaces the casts of small numbers by their values. *)
Ltac casts :=
  repeat match goal with
  | |- context [as_i32 ?n] => rewrite (as_i32_small n) by lia
  | |- context [as_usize ?z] => rewrite (as_usize_small z) by lia
  | H : context [as_i32 ?n] |- _ => rewrite (as_i32_small n) in H by lia
  | H : context [as_usize ?z] |- _ => rewrite (as_usize_small z) in H by lia
  end.

(** [bools] turns boolean tests in the context into propositions. *)
Ltac bools :=
  repeat match goal with
  | H : (_ && _) = true |- _ => apply andb_true_iff in H as [? ?]
  | H : (_ || _) = false |- _ => apply orb_false_iff in H as [? ?]
  | H : negb _ = true |- _ => apply negb_true_iff in H
  | H : negb _ = false |- _ => apply negb_false_iff in H
  | H : (_ <? _) = true |- _ => apply Nat.ltb_lt in H
  | H : (_ <? _) = false |- _ => apply Nat.ltb_ge in H
  | H : (_ <=? _) = true |- _ => apply Nat.leb_le in H
  | H : (_ <=? _) = false |- _ => apply Nat.leb_gt in H
  | H : (_ =? _) = true |- _ => apply Nat.eqb_eq in H
  | H : (_ =? _) = false |- _ => apply Nat.eqb_neq in H
  | H : (_ <? _)%Z = true |- _ => apply Z.ltb_lt in H
  | H : (_ <? _)%Z = false |- _ => apply Z.ltb_ge in H
  | H : (_ <=? _)%Z = true |- _ => apply Z.leb_le in H
  | H : (_ <=? _)%Z = false |- _ => apply Z.leb_gt in H
  | H : (_ =? _)%Z = true |- _ => apply Z.eqb_eq in H
  | H : (_ =? _)%Z = false |- _ => apply Z.eqb_neq in H
  | H : bool_decide _ = true |- _ => apply bool_decide_eq_true in H
  | H : bool_decide _ = false |- _ => apply bool_decide_eq_false in H
  end.

(** [wp_step] runs the next primitive of a monadic program, leaving the obligations [lia]
    cannot discharge; [wp_call lem] runs a call by its specification. *)
Ltac wp_prim :=
  first
    [ apply wp_i32_add; [lia|]
    | apply wp_i32_sub; [lia|]
    | apply wp_usize_sub; [lia|]
    | apply wp_ensure; [first [reflexivity | lia]|] ].

Ltac wp_step :=
  lazymatch goal with
  | |- wp (mbind _ _) _ => apply wp_bind
  | |- wp (Some _) _ => change (wp (Some ?x) ?Q) with (Q x); cbv beta match
  | |- wp (i32_add _ _) _ => apply wp_i32_add; [lia|]
  | |- wp (i32_sub _ _) _ => apply wp_i32_sub; [lia|]
  | |- wp (usize_sub _ _) _ => apply wp_usize_sub; [lia|]
  | |- wp (ensure _) _ => apply wp_ensure; [try first [reflexivity | lia]|]
  end.

(** [mrun] reduces the binds of computations that have become [Some _], and nothing else. *)
Ltac mrun := cbn [mbind option_bind wp]; cbv beta.

Ltac wp_steps := repeat (wp_step; cbv beta zeta).

Tactic Notation "wp_call" uconstr(lem) := eapply wp_mono; [eapply lem|cbv beta].

(** Closed, decidable goals by evaluation. *)
Ltac by_compute := lazy zeta; apply (bool_decide_unpack _); vm_compute; exact I.
