(* ===== verification/Index.v ===== *)
(** Lines, columns and points of the grid ([cutty_terminal/src/index.rs]).

    A [Line] is an [i32] (history lines are negative), a [Column] a [usize].  The interface
    [Dimensions] is the trait of the same name in [grid/mod.rs].  The theorems read a point as
    its position in reading order ([lin]) and show that [add] and [sub] are saturating addition
    and subtraction inside the grid, and cyclic ones with [Boundary::None]. *)
From S2P Require Import Prelude.
#[local] Open Scope Z_scope.

Inductive Direction := Left | Right.
Abbreviation Side := Direction.
#[export] Instance Direction_eq_dec : EqDecision Direction.
Proof. solve_decision. Defined.

Inductive Boundary := BoundaryCursor | BoundaryGrid | BoundaryNone.

(** [Point<L, Column>]: the line type is [Line] by default, [usize] for viewport points. *)
Record GPoint (L : Type) := Pt { line : L; column : nat }.
Arguments Pt {L} line column.
Arguments line {L} _.
Arguments column {L} _.
Abbreviation Point := (GPoint Z).

#[export] Instance GPoint_eq_dec {L} `{EqDecision L} : EqDecision (GPoint L).
Proof. solve_decision. Defined.

(** The trait [Dimensions]: three accessors, the rest is derived. *)
Class Dimensions (D : Type) := {
  total_lines : D → nat;
  screen_lines : D → nat;
  columns : D → nat;
}.

Section Dims.
Context {D} `{Dimensions D}.

(** The checks of the three subtractions can only fail without columns or with 2^31 lines. *)
Definition last_column (d : D) : nat := (columns d - 1)%nat.
Definition history_size (d : D) : nat := (total_lines d - screen_lines d)%nat.
Definition topmost_line (d : D) : Z := - as_i32 (history_size d).
Definition bottommost_line (d : D) : Z := as_i32 (screen_lines d) - 1.

(** The sizes a terminal has: at least one cell, and line numbers far from the [i32] bounds. *)
Record dims_ok (d : D) : Prop := {
  dims_columns : (1 <= columns d)%nat;
  dims_screen : (1 <= screen_lines d)%nat;
  dims_total : (screen_lines d <= total_lines d)%nat;
  dims_small : Z.of_nat (total_lines d) <= 268435455;
}.
End Dims.

(** Plain sizes, as the tests of the repository use them: [(lines, columns)]. *)
#[export] Instance size_Dimensions : Dimensions (nat * nat) := {
  total_lines := fst; screen_lines := fst; columns := snd;
}.

Module Direction.
Definition opposite (d : Direction) : Direction :=
  match d with Right => Left | Left => Right end.
End Direction.

Module Line.
(** [impl From<usize> for Line], [Add<usize>], [Sub<usize>] and [PartialOrd<usize>]. *)
Definition from (n : nat) : Z := as_i32 n.
Definition add_usize (l : Z) (n : nat) : option Z := i32_add l (as_i32 n).
Definition sub_usize (l : Z) (n : nat) : option Z := i32_sub l (as_i32 n).
Definition ltb_usize (l : Z) (n : nat) : bool := l <? as_i32 n.

(** Rust's [%] truncates towards zero and panics for a zero divisor. *)
Definition rem (a b : Z) : option Z := if b =? 0 then None else Some (Z.rem a b).

Definition grid_clamp {D} `{Dimensions D} (d : D) (b : Boundary) (l : Z) : option Z :=
  match b with
  | BoundaryCursor => Some (Z.max 0 (Z.min (bottommost_line d) l))
  | BoundaryGrid => Some (Z.max (topmost_line d) (Z.min (bottommost_line d) l))
  | BoundaryNone =>
      let screen := as_i32 (screen_lines d) in
      let total := as_i32 (total_lines d) in
      if screen <=? l then
        x ← i32_sub l screen;
        extra ← rem x total;
        i32_add (topmost_line d) extra
      else
        x ← i32_sub l screen;
        y ← i32_add x 1;
        extra ← rem y total;
        i32_add (bottommost_line d) extra
  end.
End Line.

Module Point.
Definition new {L} (l : L) (c : nat) : GPoint L := Pt l c.

(** [Point::default()]. *)
Definition default : Point := Pt 0 0%nat.

(** [impl Ord for Point]: lines first, then columns. *)
Definition cmp (p q : Point) : comparison :=
  match line p ?= line q with
  | Eq => (column p ?= column q)%nat
  | ord => ord
  end.
Definition ltb (p q : Point) : bool := match cmp p q with Lt => true | _ => false end.
Definition leb (p q : Point) : bool := match cmp p q with Gt => false | _ => true end.

Definition grid_clamp {D} `{Dimensions D} (d : D) (b : Boundary) (p : Point) : option Point :=
  let p := Pt (line p) (Nat.min (column p) (last_column d)) in
  match b with
  | BoundaryCursor =>
      if line p <? 0 then Some (Pt 0 0%nat)
      else if bottommost_line d <? line p then Some (Pt (bottommost_line d) (last_column d))
      else Some p
  | BoundaryGrid =>
      if line p <? topmost_line d then Some (Pt (topmost_line d) 0%nat)
      else if bottommost_line d <? line p then Some (Pt (bottommost_line d) (last_column d))
      else Some p
  | BoundaryNone => l ← Line.grid_clamp d b (line p); Some (Pt l (column p))
  end.

Definition sub {D} `{Dimensions D} (d : D) (b : Boundary) (rhs : nat) (p : Point) :
    option Point :=
  let cols := columns d in
  _ ← ensure (0 <? cols)%nat;
  let line_changes := ((rhs + cols - 1 - column p) / cols)%nat in
  l ← Line.sub_usize (line p) line_changes;
  grid_clamp d b (Pt l ((cols + column p - rhs mod cols) mod cols)%nat).

Definition add {D} `{Dimensions D} (d : D) (b : Boundary) (rhs : nat) (p : Point) :
    option Point :=
  let cols := columns d in
  _ ← ensure (0 <? cols)%nat;
  l ← Line.add_usize (line p) ((rhs + column p) / cols)%nat;
  grid_clamp d b (Pt l ((column p + rhs) mod cols)%nat).
End Point.

#[global] Arguments Line.add_usize : simpl never.
#[global] Arguments Line.sub_usize : simpl never.
#[global] Arguments Line.ltb_usize : simpl never.
#[global] Arguments Line.grid_clamp {_ _} _ _ _ : simpl never.
#[global] Arguments Point.grid_clamp {_ _} _ _ _ : simpl never.
#[global] Arguments Point.add {_ _} _ _ _ _ : simpl never.
#[global] Arguments Point.sub {_ _} _ _ _ _ : simpl never.

(** * Reading order *)

Section Reading.
Context {D} `{Dimensions D} (d : D) (Hd : dims_ok d).

(** The position of a point in reading order, line 0 column 0 being position 0. *)
Definition lin (p : Point) : Z := line p * Z.of_nat (columns d) + Z.of_nat (column p).

Definition in_grid (p : Point) : Prop :=
  topmost_line d <= line p <= bottommost_line d ∧ (column p < columns d)%nat.

Definition first_point : Point := Pt (topmost_line d) 0%nat.
Definition last_point : Point := Pt (bottommost_line d) (last_column d).
(** The number of cells of the grid. *)
Definition cells : Z := Z.of_nat (total_lines d) * Z.of_nat (columns d).

Lemma dims_casts :
  bottommost_line d = Z.of_nat (screen_lines d) - 1 ∧
  topmost_line d = Z.of_nat (screen_lines d) - Z.of_nat (total_lines d) ∧
  as_i32 (screen_lines d) = Z.of_nat (screen_lines d) ∧
  as_i32 (total_lines d) = Z.of_nat (total_lines d).
Proof using Hd.
  destruct Hd. unfold bottommost_line, topmost_line, history_size. casts. lia.
Qed.
End Reading.

(** [dims] brings the sizes of [d] and its extreme lines into the context as plain numbers. *)
Ltac dims Hd :=
  let H := fresh in
  pose proof (dims_casts _ Hd) as H; destruct H as (? & ? & ? & ?);
  pose proof (dims_columns _ Hd); pose proof (dims_screen _ Hd);
  pose proof (dims_total _ Hd); pose proof (dims_small _ Hd).

Section ReadingFacts.
Context {D} `{Dimensions D} (d : D) (Hd : dims_ok d).

Lemma lin_inj p q :
  (column p < columns d)%nat → (column q < columns d)%nat → lin d p = lin d q → p = q.
Proof.
  destruct p as [l c], q as [l' c']. unfold lin; simpl. intros Hc Hc' E.
  assert (l = l') as -> by nia. f_equal. lia.
Qed.

Lemma lin_in_grid p :
  in_grid d p ↔
  (column p < columns d)%nat ∧ lin d (first_point d) <= lin d p <= lin d (last_point d).
Proof using Hd.
  dims Hd. unfold in_grid, lin, first_point, last_point, last_column; simpl. split.
  - intros [[? ?] ?]. split; [done|]. nia.
  - intros [? [? ?]]. split; [|done]. nia.
Qed.

(** The order of points is reading order. *)
Lemma ltb_lin p q :
  (column p < columns d)%nat → (column q < columns d)%nat →
  Point.ltb p q = (lin d p <? lin d q).
Proof.
  unfold Point.ltb, Point.cmp, lin. intros Hp Hq. symmetry.
  destruct (Z.compare_spec (line p) (line q)) as [E|E|E];
    [destruct (Nat.compare_spec (column p) (column q))|..];
    first [apply Z.ltb_lt; nia | apply Z.ltb_ge; nia].
Qed.
End ReadingFacts.

(** * Moving points *)

Section Moving.
Context {D} `{Dimensions D} (d : D) (Hd : dims_ok d).
Implicit Types (p q : Point) (n : nat).

(** Distances for which no line number overflows. *)
Definition MAX_MOVE : Z := 268435455.

(** Division of a column distance into lines and columns. *)
Lemma add_split p n :
  (column p < columns d)%nat →
  lin d (Pt (line p + Z.of_nat ((n + column p) / columns d)) ((column p + n) mod columns d)%nat)
    = lin d p + Z.of_nat n ∧ ((column p + n) mod columns d < columns d)%nat.
Proof.
  intros Hc. unfold lin; simpl. rewrite (Nat.add_comm n).
  pose proof (Nat.div_mod_eq (column p + n) (columns d)).
  pose proof (Nat.mod_upper_bound (column p + n) (columns d)).
  split; [nia|lia].
Qed.

Lemma sub_split p n :
  (column p < columns d)%nat →
  let c := ((columns d + column p - n mod columns d) mod columns d)%nat in
  lin d (Pt (line p - Z.of_nat ((n + columns d - 1 - column p) / columns d)) c)
    = lin d p - Z.of_nat n ∧ (c < columns d)%nat.
Proof.
  intros Hc c. subst c. unfold lin; simpl.
  set (C := columns d) in *. set (k := column p) in *.
  pose proof (Nat.div_mod_eq n C) as En. pose proof (Nat.mod_upper_bound n C) as Hr.
  set (q := (n / C)%nat) in *. set (r := (n mod C)%nat) in *.
  split; [|apply Nat.mod_upper_bound; lia].
  destruct (decide (r <= k)%nat) as [Hrk|Hrk].
  - replace (n + C - 1 - k)%nat with (q * C + (r + C - 1 - k))%nat by nia.
    rewrite Nat.div_add_l, (Nat.div_small (r + C - 1 - k)) by lia.
    replace (C + k - r)%nat with (k - r + 1 * C)%nat by lia.
    rewrite Nat.Div0.mod_add, Nat.mod_small by lia. nia.
  - replace (n + C - 1 - k)%nat with ((q + 1) * C + (r - 1 - k))%nat by nia.
    rewrite Nat.div_add_l, (Nat.div_small (r - 1 - k)) by lia.
    rewrite Nat.mod_small by lia. nia.
Qed.

Lemma add_lines_small p n :
  in_grid d p → Z.of_nat n <= MAX_MOVE →
  Line.add_usize (line p) ((n + column p) / columns d)
    = Some (line p + Z.of_nat ((n + column p) / columns d)).
Proof using Hd.
  intros [Hl Hc] Hn. dims Hd. unfold MAX_MOVE in Hn. unfold Line.add_usize.
  assert ((n + column p) / columns d <= n + 1)%nat.
  { apply Nat.Div0.div_le_upper_bound. nia. }
  casts. apply i32_add_ok. lia.
Qed.

Lemma sub_lines_small p n :
  in_grid d p → Z.of_nat n <= MAX_MOVE →
  Line.sub_usize (line p) ((n + columns d - 1 - column p) / columns d)
    = Some (line p - Z.of_nat ((n + columns d - 1 - column p) / columns d)).
Proof using Hd.
  intros [Hl Hc] Hn. dims Hd. unfold MAX_MOVE in Hn. unfold Line.sub_usize.
  assert ((n + columns d - 1 - column p) / columns d <= n + 1)%nat.
  { apply Nat.Div0.div_le_upper_bound. nia. }
  casts. apply i32_sub_ok. lia.
Qed.

(** Clamping to the grid is clamping in reading order. *)
Lemma grid_clamp_lin p :
  (column p < columns d)%nat →
  ∃ q, Point.grid_clamp d BoundaryGrid p = Some q ∧ in_grid d q ∧
    lin d q = Z.max (lin d (first_point d)) (Z.min (lin d p) (lin d (last_point d))).
Proof using Hd.
  intros Hc. dims Hd. unfold Point.grid_clamp.
  assert (Nat.min (column p) (last_column d) = column p) as ->
    by (unfold last_column; lia).
  unfold in_grid, lin, first_point, last_point, last_column. simpl.
  destruct (line p <? topmost_line d) eqn:E1; bools;
    [|destruct (bottommost_line d <? line p) eqn:E2; bools];
    eexists; (split; [reflexivity|]); simpl; (split; [lia|]); nia.
Qed.

(** Clamping a line with [Boundary::None] is cyclic over the lines of the grid. *)
Lemma line_clamp_none l :
  -1073741823 <= l <= 2147483647 →
  Line.grid_clamp d BoundaryNone l
    = Some (topmost_line d + (l - topmost_line d) mod Z.of_nat (total_lines d)).
Proof using Hd.
  intros Hl. dims Hd. unfold Line.grid_clamp, Line.rem.
  set (T := Z.of_nat (total_lines d)) in *. set (S := Z.of_nat (screen_lines d)) in *.
  assert (as_i32 (screen_lines d) = S) as -> by done.
  assert (as_i32 (total_lines d) = T) as -> by done.
  assert (0 < T) as HT by lia. rewrite (proj2 (Z.eqb_neq T 0)) by lia.
  destruct (S <=? l) eqn:E; bools.
  - rewrite i32_sub_ok by lia. simpl. rewrite Z.rem_mod_nonneg by lia.
    pose proof (Z.mod_pos_bound (l - S) T). rewrite i32_add_ok by lia.
    do 2 f_equal. replace (l - topmost_line d) with ((l - S) + 1 * T) by lia.
    by rewrite Z.mod_add by lia.
  - rewrite i32_sub_ok by lia. simpl. rewrite i32_add_ok by lia. simpl.
    set (x := S - l - 1). replace (l - S + 1) with (- x) by lia.
    rewrite Z.rem_opp_l, Z.rem_mod_nonneg by lia.
    pose proof (Z.mod_pos_bound x T ltac:(lia)). rewrite i32_add_ok by lia. f_equal.
    replace (l - topmost_line d) with (T - 1 - x mod T + (- (x / T)) * T)
      by (pose proof (Z.div_mod x T ltac:(lia)); lia).
    rewrite Z.mod_add, (Z.mod_small (T - 1 - x mod T)) by lia. lia.
Qed.

Lemma point_clamp_none p :
  -1073741823 <= line p <= 2147483647 → (column p < columns d)%nat →
  ∃ q, Point.grid_clamp d BoundaryNone p = Some q ∧ in_grid d q ∧
    lin d q = lin d (first_point d) + (lin d p - lin d (first_point d)) mod cells d.
Proof using Hd.
  intros Hl Hc. dims Hd. unfold Point.grid_clamp. simpl.
  assert (Nat.min (column p) (last_column d) = column p) as ->
    by (unfold last_column; lia).
  rewrite line_clamp_none by done. simpl.
  eexists; split; [reflexivity|].
  set (T := Z.of_nat (total_lines d)) in *. set (x := line p - topmost_line d).
  pose proof (Z.mod_pos_bound x T ltac:(lia)).
  split; [unfold in_grid; simpl; lia|].
  unfold lin, first_point, cells; simpl. fold T. set (C := Z.of_nat (columns d)).
  replace (line p * C + Z.of_nat (column p) - (topmost_line d * C + 0))
    with (x mod T * C + Z.of_nat (column p) + x / T * (T * C)).
  2: { pose proof (Z.div_mod x T ltac:(lia)) as Ex.
       assert (line p = topmost_line d + (T * (x / T) + x mod T)) as ->
         by (rewrite <- Ex; unfold x; lia). ring. }
  rewrite Z.mod_add by nia.
  assert (0 <= x mod T * C <= (T - 1) * C) by
    (split; [apply Z.mul_nonneg_nonneg|apply Z.mul_le_mono_nonneg_r]; lia).
  assert (Z.of_nat (column p) < C) by (unfold C; lia).
  rewrite (Z.mod_small (x mod T * C + _)) by lia. simpl. ring.
Qed.

(** [add] inside the grid is saturating addition in reading order. *)
Theorem add_saturates p n :
  in_grid d p → Z.of_nat n <= MAX_MOVE →
  ∃ q, Point.add d BoundaryGrid n p = Some q ∧ in_grid d q ∧
    lin d q = Z.min (lin d p + Z.of_nat n) (lin d (last_point d)).
Proof using Hd.
  intros Hp Hn. pose proof (lin_in_grid d Hd p) as [Hlin _].
  destruct (Hlin Hp) as [Hc Hr]. unfold Point.add.
  rewrite ensure_ok by (apply Nat.ltb_lt; lia). simpl.
  rewrite add_lines_small by done. simpl.
  destruct (add_split p n Hc) as [E Hc'].
  match goal with |- context [Point.grid_clamp d _ ?p'] =>
    destruct (grid_clamp_lin p' Hc') as (q & -> & Hq & Eq) end.
  exists q. split; [done|]. split; [done|]. rewrite Eq, E. lia.
Qed.

(** [sub] inside the grid is saturating subtraction in reading order. *)
Theorem sub_saturates p n :
  in_grid d p → Z.of_nat n <= MAX_MOVE →
  ∃ q, Point.sub d BoundaryGrid n p = Some q ∧ in_grid d q ∧
    lin d q = Z.max (lin d p - Z.of_nat n) (lin d (first_point d)).
Proof using Hd.
  intros Hp Hn. pose proof (lin_in_grid d Hd p) as [Hlin _].
  destruct (Hlin Hp) as [Hc Hr]. unfold Point.sub.
  rewrite ensure_ok by (apply Nat.ltb_lt; lia). simpl.
  rewrite sub_lines_small by done. simpl.
  destruct (sub_split p n Hc) as [E Hc'].
  match goal with |- context [Point.grid_clamp d _ ?p'] =>
    destruct (grid_clamp_lin p' Hc') as (q & -> & Hq & Eq) end.
  exists q. split; [done|]. split; [done|]. rewrite Eq, E. lia.
Qed.

Lemma add_none_cyclic p n :
  in_grid d p → Z.of_nat n <= MAX_MOVE →
  ∃ q, Point.add d BoundaryNone n p = Some q ∧ in_grid d q ∧
    lin d q = lin d (first_point d)
      + (lin d p + Z.of_nat n - lin d (first_point d)) mod cells d.
Proof using Hd.
  intros Hp Hn. dims Hd. pose proof Hp as [Hl Hc]. unfold Point.add.
  rewrite ensure_ok by (apply Nat.ltb_lt; lia). simpl.
  pose proof (add_lines_small p n Hp Hn) as E. rewrite E. simpl.
  apply i32_chk_inv in E as [_ E].
  destruct (add_split p n Hc) as [E' Hc'].
  match goal with |- context [Point.grid_clamp d _ ?p'] =>
    destruct (point_clamp_none p') as (q & -> & Hq & Eq); [simpl; lia|exact Hc'|] end.
  exists q. split; [done|]. split; [done|]. by rewrite Eq, E'.
Qed.

Lemma sub_none_cyclic p n :
  in_grid d p → Z.of_nat n <= MAX_MOVE →
  ∃ q, Point.sub d BoundaryNone n p = Some q ∧ in_grid d q ∧
    lin d q = lin d (first_point d)
      + (lin d p - Z.of_nat n - lin d (first_point d)) mod cells d.
Proof using Hd.
  intros Hp Hn. dims Hd. pose proof Hp as [Hl Hc]. unfold Point.sub.
  rewrite ensure_ok by (apply Nat.ltb_lt; lia). simpl.
  rewrite (sub_lines_small p n Hp Hn). simpl. unfold MAX_MOVE in Hn.
  assert ((n + columns d - 1 - column p) / columns d <= n + 1)%nat.
  { apply Nat.Div0.div_le_upper_bound. nia. }
  destruct (sub_split p n Hc) as [E' Hc'].
  match goal with |- context [Point.grid_clamp d _ ?p'] =>
    destruct (point_clamp_none p') as (q & -> & Hq & Eq); [simpl; lia|exact Hc'|] end.
  exists q. split; [done|]. split; [done|]. by rewrite Eq, E'.
Qed.

(** Moving forward and back by the same distance around the whole buffer is the identity. *)
Theorem add_sub_none p n :
  in_grid d p → Z.of_nat n <= MAX_MOVE →
  (Point.add d BoundaryNone n p ≫= Point.sub d BoundaryNone n) = Some p.
Proof using Hd.
  intros Hp Hn. destruct (add_none_cyclic p n Hp Hn) as (q & -> & Hq & Eq). simpl.
  destruct (sub_none_cyclic q n Hq Hn) as (r & -> & Hr & Er). f_equal.
  apply (lin_inj d); [apply Hr|apply Hp|]. rewrite Er, Eq.
  pose proof (proj1 (lin_in_grid d Hd p) Hp) as [_ Hb].
  assert (lin d (last_point d) = lin d (first_point d) + cells d - 1) as Hlast.
  { dims Hd. unfold lin, last_point, first_point, cells, last_column. simpl. nia. }
  set (f := lin d (first_point d)) in *. set (N := cells d) in *. set (a := lin d p) in *.
  replace (f + (a + Z.of_nat n - f) mod N - Z.of_nat n - f)
    with ((a + Z.of_nat n - f) mod N - Z.of_nat n) by ring.
  rewrite Zminus_mod_idemp_l. rewrite (Z.mod_small (_ - _ - _)) by lia. lia.
Qed.
End Moving.

Lemma add_saturates_witness :
  ∃ q, Point.add (3, 4)%nat BoundaryGrid 5 (Pt 0 2%nat) = Some q ∧ lin (3, 4)%nat q = 7.
Proof.
  destruct (add_saturates (3, 4)%nat ltac:(split; simpl; lia) (Pt 0 2%nat) 5
    ltac:(split; vm_compute; intuition congruence || lia) ltac:(unfold MAX_MOVE; lia))
    as (q & E & _ & El).
  exists q. split; [exact E|]. rewrite El. reflexivity.
Defined.

Lemma add_sub_none_witness :
  (Point.add (3, 4)%nat BoundaryNone 21 (Pt 1 2%nat) ≫= Point.sub (3, 4)%nat BoundaryNone 21)
    = Some (Pt 1 2%nat).
Proof.
  apply (add_sub_none (3, 4)%nat); [split; simpl; lia| |unfold MAX_MOVE; lia].
  split; vm_compute; intuition congruence || lia.
Defined.
