(* ===== verification/Cells.v ===== *)
(** Cells ([cutty_terminal/src/term/cell.rs]) and the trait [GridCell] ([grid/mod.rs]).

    [External] collects what the repository takes from other crates ([vte], [unicode-width],
    [base64]): types, constants and functions, with the documented facts the proofs rely on.
    [GridCell] is the interface the grid is generic over, [GridCellLaws] what the grid needs of
    it, and [Cell] the instance the terminal uses. *)
From S2P Require Import Prelude.
#[local] Open Scope N_scope.

(** Rust's [char]: a Unicode scalar value. Text is a list of them. *)
Abbreviation char := N.
Abbreviation text := (list N).

Class External := {
(** [vte::ansi]: colours. *)
Color : Type;
Color_eq_dec :: EqDecision Color;
NamedBackground : Color;
NamedForeground : Color;
Rgb : Type;
Rgb_eq_dec :: EqDecision Rgb;
rgb_r : Rgb → N;
rgb_g : Rgb → N;
rgb_b : Rgb → N;
(** [vte::ansi]: character sets; the four slots are indexed by [CharsetIndex as usize]. *)
CharsetIndex : Type;
CharsetIndex_default : CharsetIndex;
charset_pos : CharsetIndex → fin 4;
StandardCharset : Type;
StandardCharset_default : StandardCharset;
charset_map : StandardCharset → char → char;
(** [vte::ansi]: cursor shapes and keyboard modes. *)
CursorShape : Type;
CursorShape_eq_dec :: EqDecision CursorShape;
CursorShape_default : CursorShape;
CursorShape_Hidden : CursorShape;
CursorShape_Block : CursorShape;
KeyboardModes : Type;
KeyboardModes_NO_MODE : KeyboardModes;
KeyboardModes_bits : KeyboardModes → N;
km_DISAMBIGUATE_ESC_CODES : KeyboardModes → bool;
km_REPORT_EVENT_TYPES : KeyboardModes → bool;
km_REPORT_ALTERNATE_KEYS : KeyboardModes → bool;
km_REPORT_ALL_KEYS_AS_ESC : KeyboardModes → bool;
km_REPORT_ASSOCIATED_TEXT : KeyboardModes → bool;
(** [unicode-width]: a character takes no, one or two columns; control characters have no
    width. *)
char_width : char → option nat;
char_width_le : ∀ c w, char_width c = Some w → (w ≤ 2)%nat;
(** [base64] and the UTF-8 decoding of its result. *)
base64_decode : list N → option (list N);
base64_encode : list N → list N;
from_utf8 : list N → option text;
to_utf8 : text → list N;
}.

(** The struct [vte::ansi::CursorStyle]. *)
Record CursorStyle `{External} := mkCursorStyle { shape : CursorShape; blinking : bool }.
Arguments mkCursorStyle {_} shape blinking.
Arguments shape {_} _.
Arguments blinking {_} _.
#[export] Instance CursorStyle_eq_dec `{External} : EqDecision CursorStyle.
Proof. solve_decision. Defined.

(** * Flags *)

(** A [bitflags] set over [u16]: [contains], [intersects], [insert] and [remove] are the
    operations the macro generates. *)
Abbreviation Flags := N.

Module Flags.
Definition INVERSE : Flags := 1.
Definition BOLD : Flags := 2.
Definition ITALIC : Flags := 4.
Definition BOLD_ITALIC : Flags := 6.
Definition UNDERLINE : Flags := 8.
Definition WRAPLINE : Flags := 16.
Definition WIDE_CHAR : Flags := 32.
Definition WIDE_CHAR_SPACER : Flags := 64.
Definition DIM : Flags := 128.
Definition DIM_BOLD : Flags := 130.
Definition HIDDEN : Flags := 256.
Definition STRIKEOUT : Flags := 512.
Definition LEADING_WIDE_CHAR_SPACER : Flags := 1024.
Definition DOUBLE_UNDERLINE : Flags := 2048.
Definition UNDERCURL : Flags := 4096.
Definition DOTTED_UNDERLINE : Flags := 8192.
Definition DASHED_UNDERLINE : Flags := 16384.
Definition ALL_UNDERLINES : Flags :=
  N.lor UNDERLINE (N.lor DOUBLE_UNDERLINE
    (N.lor UNDERCURL (N.lor DOTTED_UNDERLINE DASHED_UNDERLINE))).

Definition empty : Flags := 0.
Definition contains (f g : Flags) : bool := N.land f g =? g.
Definition intersects (f g : Flags) : bool := negb (N.land f g =? 0).
Definition insert (f g : Flags) : Flags := N.lor f g.
Definition remove (f g : Flags) : Flags := N.ldiff f g.
End Flags.

Lemma contains_insert f g : Flags.contains (Flags.insert f g) g = true.
Proof.
  unfold Flags.contains, Flags.insert. apply N.eqb_eq. apply N.bits_inj. intros i.
  rewrite N.land_spec, N.lor_spec. by destruct (N.testbit f i), (N.testbit g i).
Qed.

Lemma contains_remove f g : g ≠ 0 → Flags.contains (Flags.remove f g) g = false.
Proof.
  unfold Flags.contains, Flags.remove. intros Hg. apply N.eqb_neq.
  intros E. apply Hg. rewrite <- E. apply N.bits_inj. intros i.
  rewrite N.bits_0, ?N.land_spec, ?N.ldiff_spec.
  by destruct (N.testbit f i), (N.testbit g i).
Qed.

(** * The trait [GridCell] *)

(** [is_empty], [reset], the accessors of the flags, [Default], and the value of
    [ResetDiscriminant] two rows of cells are compared by. *)
Class GridCell (T : Type) := {
  Discriminant : Type;
  Discriminant_eq_dec :: EqDecision Discriminant;
  cell_is_empty : T → bool;
  cell_reset : T → T → T;
  cell_flags : T → Flags;
  cell_set_flags : Flags → T → T;
  cell_default : T;
  discriminant : T → Discriminant;
}.

(** What the grid relies on: a reset forgets the old cell and depends on the template only
    through its discriminant, which the reset cell inherits. *)
Class GridCellLaws (T : Type) `{GridCell T} := {
  cell_reset_forgets : ∀ t c c', cell_reset c t = cell_reset c' t;
  cell_reset_discriminant : ∀ t c, discriminant (cell_reset c t) = discriminant t;
  cell_reset_by_discriminant : ∀ t t' c,
    discriminant t = discriminant t' → cell_reset c t = cell_reset c t';
  cell_reset_default : ∀ c, cell_reset c cell_default = cell_default;
  cell_flags_set : ∀ f c, cell_flags (cell_set_flags f c) = f;
  cell_discriminant_set : ∀ f c, discriminant (cell_set_flags f c) = discriminant c;
}.

(** [cell.flags_mut().insert(f)] and [cell.flags_mut().remove(f)]. *)
Definition flags_insert {T} `{GridCell T} (f : Flags) (c : T) : T :=
  cell_set_flags (Flags.insert (cell_flags c) f) c.
Definition flags_remove {T} `{GridCell T} (f : Flags) (c : T) : T :=
  cell_set_flags (Flags.remove (cell_flags c) f) c.

(** * Cells of the terminal *)

Record Hyperlink := mkHyperlink { hl_id : text; hl_uri : text }.
#[export] Instance Hyperlink_eq_dec : EqDecision Hyperlink.
Proof. solve_decision. Defined.

(** [vte::ansi::Hyperlink], whose identifier may be missing. *)
Record VteHyperlink := mkVteHyperlink { vte_id : option text; vte_uri : text }.

Section Cell.
Context `{External}.

Record CellExtra := mkCellExtra {
  extra_zerowidth : list char;
  extra_underline_color : option Color;
  extra_hyperlink : option Hyperlink;
}.

Record Cell := mkCell {
  c : char;
  fg : Color;
  bg : Color;
  flags : Flags;
  extra : option CellExtra;
}.

#[export] Instance CellExtra_eq_dec : EqDecision CellExtra.
Proof. solve_decision. Defined.
#[export] Instance Cell_eq_dec : EqDecision Cell.
Proof. solve_decision. Defined.

Definition extra_default : CellExtra := mkCellExtra [] None None.

(** Field updates. *)
Definition set_c (x : char) (s : Cell) : Cell := mkCell x (fg s) (bg s) (flags s) (extra s).
Definition set_fg (x : Color) (s : Cell) : Cell := mkCell (c s) x (bg s) (flags s) (extra s).
Definition set_bg (x : Color) (s : Cell) : Cell := mkCell (c s) (fg s) x (flags s) (extra s).
Definition set_flags (x : Flags) (s : Cell) : Cell := mkCell (c s) (fg s) (bg s) x (extra s).
Definition set_extra (x : option CellExtra) (s : Cell) : Cell :=
  mkCell (c s) (fg s) (bg s) (flags s) x.
End Cell.

(** Decimal digits of a number, as [to_string] prints it. *)
Fixpoint digits_aux (fuel : nat) (n : N) (acc : text) : text :=
  match fuel with
  | O => acc
  | S fuel =>
      let acc := (48 + n mod 10) :: acc in
      if n / 10 =? 0 then acc else digits_aux fuel (n / 10) acc
  end.
Definition digits (n : N) : text := digits_aux (S (N.to_nat (N.log2 n))) n [].

Module Hyperlink.
(** [HyperlinkInner::new]: a link without identifier gets a fresh one from the global counter
    [HYPERLINK_ID_SUFFIX], a wrapping [u32] that is threaded here as [suffix]. *)
Definition new (id : option text) (uri : text) (suffix : N) : Hyperlink * N :=
  match id with
  | Some id => (mkHyperlink id uri, suffix)
  | None =>
      (mkHyperlink (digits suffix ++ [95; 99; 117; 116; 116; 121]) uri,
       (suffix + 1) mod 4294967296)
  end.

(** [impl From<VteHyperlink> for Hyperlink] and back. *)
Definition from_vte (v : VteHyperlink) (suffix : N) : Hyperlink * N :=
  new (vte_id v) (vte_uri v) suffix.
Definition to_vte (h : Hyperlink) : VteHyperlink :=
  mkVteHyperlink (Some (hl_id h)) (hl_uri h).
End Hyperlink.

Module Cell.
Section Cell.
Context `{External}.
Implicit Types s : Cell.

Definition default : Cell := mkCell 32 NamedForeground NamedBackground Flags.empty None.

Definition zerowidth (s : Cell) : option (list char) := extra_zerowidth <$> extra s.

(** [self.extra.get_or_insert(Default::default())]. *)
Definition get_extra (s : Cell) : CellExtra := from_option id extra_default (extra s).

Definition push_zerowidth (character : char) (s : Cell) : Cell :=
  let e := get_extra s in
  set_extra (Some (mkCellExtra (extra_zerowidth e ++ [character])
                     (extra_underline_color e) (extra_hyperlink e))) s.

Definition clear_wide (s : Cell) : Cell :=
  let s := set_flags (Flags.remove (flags s) Flags.WIDE_CHAR) s in
  let s :=
    match extra s with
    | Some e =>
        set_extra (Some (mkCellExtra [] (extra_underline_color e) (extra_hyperlink e))) s
    | None => s
    end in
  set_c 32 s.

Definition is_nil {A} (l : list A) : bool := match l with [] => true | _ => false end.
Definition is_none {A} (o : option A) : bool := match o with None => true | _ => false end.

Definition set_underline_color (color : option Color) (s : Cell) : Cell :=
  if is_none color &&
     match extra s with
     | None => true
     | Some e => is_nil (extra_zerowidth e) && is_none (extra_hyperlink e)
     end
  then set_extra None s
  else
    let e := get_extra s in
    set_extra (Some (mkCellExtra (extra_zerowidth e) color (extra_hyperlink e))) s.

Definition underline_color (s : Cell) : option Color :=
  e ← extra s; extra_underline_color e.

Definition set_hyperlink (hyperlink : option Hyperlink) (s : Cell) : Cell :=
  let should_drop :=
    is_none hyperlink &&
    match extra s with
    | None => true
    | Some e => is_nil (extra_zerowidth e) && is_none (extra_underline_color e)
    end in
  if should_drop then set_extra None s
  else
    let e := get_extra s in
    set_extra (Some (mkCellExtra (extra_zerowidth e) (extra_underline_color e) hyperlink)) s.

Definition hyperlink (s : Cell) : option Hyperlink := e ← extra s; extra_hyperlink e.

(** [extra.as_ref().map(|extra| extra.zerowidth.is_empty())]. *)
Definition zerowidth_is_empty (s : Cell) : option bool :=
  (λ e, is_nil (extra_zerowidth e)) <$> extra s.

Definition is_empty (s : Cell) : bool :=
  ((c s =? 32) || (c s =? 9))
  && bool_decide (bg s = NamedBackground)
  && bool_decide (fg s = NamedForeground)
  && negb (Flags.intersects (flags s)
       (N.lor Flags.INVERSE (N.lor Flags.ALL_UNDERLINES (N.lor Flags.STRIKEOUT
         (N.lor Flags.WRAPLINE (N.lor Flags.WIDE_CHAR_SPACER
           Flags.LEADING_WIDE_CHAR_SPACER))))))
  && bool_decide (zerowidth_is_empty s ≠ Some false).

Definition reset (s template : Cell) : Cell := set_bg (bg template) default.

(** [impl From<Color> for Cell]. *)
Definition from_color (color : Color) : Cell := set_bg color default.

(** [impl GridCell for Cell], [impl ResetDiscriminant<Color> for Cell]. *)
#[export] Instance Cell_GridCell : GridCell Cell := {
  Discriminant := Color;
  cell_is_empty := is_empty;
  cell_reset := reset;
  cell_flags := flags;
  cell_set_flags := set_flags;
  cell_default := default;
  discriminant := bg;
}.

#[export] Instance Cell_GridCellLaws : GridCellLaws Cell.
Proof.
  split; try done; simpl; intros; unfold reset; simpl in *; congruence.
Qed.

(** Setting an attribute of the rarely used storage is read back and leaves the others. *)
Theorem set_hyperlink_get hl s :
  hyperlink (set_hyperlink hl s) = hl ∧
  underline_color (set_hyperlink hl s) = underline_color s ∧
  from_option id [] (zerowidth (set_hyperlink hl s)) = from_option id [] (zerowidth s).
Proof.
  unfold set_hyperlink, hyperlink, underline_color, zerowidth, get_extra.
  destruct s as [ch f b fl [[[|z zs] u h]|]], hl as [hl|]; simpl;
    try destruct u as [u|]; simpl; auto.
Qed.

Theorem set_underline_color_get u s :
  underline_color (set_underline_color u s) = u ∧
  hyperlink (set_underline_color u s) = hyperlink s ∧
  from_option id [] (zerowidth (set_underline_color u s)) = from_option id [] (zerowidth s).
Proof.
  unfold set_underline_color, hyperlink, underline_color, zerowidth, get_extra.
  destruct s as [ch f b fl [[[|z zs] u' h]|]], u as [u|]; simpl;
    try destruct h as [h|]; simpl; auto.
Qed.

(** The extra storage is dropped as soon as an attribute is cleared and nothing else needs it. *)
Theorem cleared_attributes_drop_extra s :
  from_option id [] (zerowidth s) = [] →
  extra (set_underline_color None (set_hyperlink None s)) = None.
Proof.
  unfold set_underline_color, set_hyperlink, zerowidth, get_extra.
  destruct s as [ch f b fl [[[|z zs] [u|] h]|]]; simpl; done.
Qed.
End Cell.
End Cell.
Export (hints) Cell.

(** * A concrete instance of the external interfaces, to run the model on examples. *)
Module Sample.
Definition width (ch : char) : option nat :=
  if ch <? 32 then None
  else if (768 <=? ch) && (ch <? 880) then Some 0%nat
  else if (4352 <=? ch) && (ch <? 65500) then Some 2%nat
  else Some 1%nat.

Lemma width_le ch w : width ch = Some w → (w ≤ 2)%nat.
Proof. unfold width. repeat case_match; intros [= <-]; lia. Qed.

Definition slot (i : N) : fin 4 :=
  match i with 0 => 0%fin | 1 => 1%fin | 2 => 2%fin | _ => 3%fin end.

Definition ascii (bytes : list N) : option text :=
  if forallb (λ b, b <? 128) bytes then Some bytes else None.

(** Colours, shapes and keyboard modes are numbers: background 0, foreground 1. *)
Definition external : External := {|
  Color := N; NamedBackground := 0; NamedForeground := 1;
  Rgb := N * N * N; rgb_r := λ c, c.1.1; rgb_g := λ c, c.1.2; rgb_b := λ c, c.2;
  CharsetIndex := N; CharsetIndex_default := 0; charset_pos := slot;
  StandardCharset := bool; StandardCharset_default := false;
  charset_map := λ special ch, if special && (ch =? 113) then 9472 else ch;
  CursorShape := N; CursorShape_default := 0; CursorShape_Hidden := 1; CursorShape_Block := 2;
  KeyboardModes := N; KeyboardModes_NO_MODE := 0; KeyboardModes_bits := λ m, m;
  km_DISAMBIGUATE_ESC_CODES := λ m, N.testbit m 0;
  km_REPORT_EVENT_TYPES := λ m, N.testbit m 1;
  km_REPORT_ALTERNATE_KEYS := λ m, N.testbit m 2;
  km_REPORT_ALL_KEYS_AS_ESC := λ m, N.testbit m 3;
  km_REPORT_ASSOCIATED_TEXT := λ m, N.testbit m 4;
  char_width := width; char_width_le := width_le;
  base64_decode := λ bytes, Some bytes; base64_encode := λ bytes, bytes;
  from_utf8 := ascii; to_utf8 := λ t, t;
|}.
End Sample.
