(* ===== verification/Rows.v ===== *)
(** Rows of the grid ([cutty_terminal/src/grid/row.rs]) and the length of the text in a row
    ([LineLength] in [term/cell.rs]).

    A row keeps an upper bound [occ] of its modified cells, so that [reset] only touches those.
    [row_ok] is the invariant that makes this sound; [reset_correct] shows that [reset] is then
    the plain reset of every cell.  [grow] is the operation that does not maintain it, see
    [grow_breaks_reset]. *)
From S2P Require Import Prelude Index Cells.
#[local] Open Scope nat_scope.

Module Row.
(** [struct Row<T>]. *)
Record t (T : Type) := mk { inner : list T; occ : nat }.
Arguments mk {T} inner occ.
Arguments inner {T} _.
Arguments occ {T} _.

#[export] Instance t_eq_dec {T} `{EqDecision T} : EqDecision (t T).
Proof. solve_decision. Defined.

Section ops.
Context {T : Type} `{GridCell T}.
Implicit Types (r : t T) (columns : nat).

(** The writes of uninitialized memory fill the vector with default cells. *)
Definition new columns : option (t T) :=
  _ ← ensure (1 <=? columns); Some (mk (replicate columns cell_default) 0).

Definition len r : nat := length (inner r).

Definition grow columns r : t T :=
  if columns <=? len r then r
  else mk (resize_with columns cell_default (inner r)) (occ r).

(** Returns the non-empty part of the removed cells with the shortened row. *)
Definition shrink columns r : option (list T) * t T :=
  if len r <=? columns then (None, r)
  else
    let new_row := drop columns (inner r) in
    let index := from_option S 0 (rposition (λ c, negb (cell_is_empty c)) new_row) in
    let new_row := truncate index new_row in
    ((if new_row is [] then None else Some new_row),
     mk (take columns (inner r)) (Nat.min (occ r) columns)).

Definition reset (template : T) r : option (t T) :=
  last ← inner r !! (len r - 1);
  let occ := if bool_decide (discriminant last = discriminant template)
             then occ r else len r in
  cells ← update_slice 0 occ (λ item, cell_reset item template) (inner r);
  Some (mk cells 0).

Definition from_vec (vec : list T) (occ : nat) : t T := mk vec occ.

Definition last r : option T := list.last (inner r).

(** [if let Some(cell) = row.last_mut() { f(cell) }]. *)
Definition last_mut (f : T → T) r : t T :=
  mk (alter f (len r - 1) (inner r)) (len r).

Definition append (vec : list T) r : t T := mk (inner r ++ vec) (occ r + length vec).

Definition append_front (vec : list T) r : t T := mk (vec ++ inner r) (occ r + length vec).

Definition is_clear r : bool := forallb cell_is_empty (inner r).

(** [Vec::split_off] panics past the end. Returns the removed front. *)
Definition front_split_off (at_ : nat) r : option (list T * t T) :=
  _ ← ensure (at_ <=? len r);
  Some (take at_ (inner r), mk (drop at_ (inner r)) (occ r - at_)).

(** [impl Index<Column>]. *)
Definition index (col : nat) r : option T := inner r !! col.

(** [impl IndexMut<Column>], applied to an update of the cell. *)
Definition index_mut (col : nat) (f : T → T) r : option (t T) :=
  cells ← update_at col f (inner r);
  Some (mk cells (Nat.max (occ r) (col + 1))).

(** [impl IndexMut<Range<Column>>], [RangeTo], [RangeFrom] and [RangeFull], applied to an
    update of every cell of the slice. *)
Definition index_mut_range (a b : nat) (f : T → T) r : option (t T) :=
  cells ← update_slice a b f (inner r);
  Some (mk cells (Nat.max (occ r) b)).
Definition index_mut_range_to (b : nat) (f : T → T) r : option (t T) :=
  cells ← update_slice 0 b f (inner r);
  Some (mk cells (Nat.max (occ r) b)).
Definition index_mut_range_from (a : nat) (f : T → T) r : option (t T) :=
  cells ← update_slice a (len r) f (inner r);
  Some (mk cells (len r)).

(** [&mut row[..]], applied to an update of the slice of all cells. *)
Definition index_mut_full (f : list T → option (list T)) r : option (t T) :=
  cells ← f (inner r);
  Some (mk cells (len r)).
End ops.
End Row.
Export (hints) Row.

(** [impl LineLength for Row<Cell>]. *)
Definition line_length `{External} (r : Row.t Cell) : option nat :=
  n ← usize_sub (Row.len r) 1;
  last ← Row.index n r;
  if Flags.contains (flags last) Flags.WRAPLINE then Some (Row.len r)
  else
    match position (λ cell, negb (c cell =? 32)%N
                   || bool_decide (Cell.zerowidth_is_empty cell = Some false))
                   (reverse (Row.inner r)) with
    | Some index => usize_sub (Row.len r) index
    | None => Some 0
    end.

(** * The invariant of rows *)

Section Invariant.
Context {T : Type} `{GL : GridCellLaws T}.
Implicit Types (r : Row.t T) (x z : T).

(** Cells past [occ] are blank, with the background of the last cell. *)
Definition row_clean r : Prop :=
  ∀ i x z, Row.occ r ≤ i → Row.inner r !! i = Some x →
    Row.inner r !! (Row.len r - 1) = Some z → x = cell_reset x z.

Record row_ok (columns : nat) r : Prop := {
  row_len : Row.len r = columns;
  row_pos : 1 ≤ columns;
  row_occ : Row.occ r ≤ columns;
  row_blank : row_clean r;
}.

Lemma blank_of x y z : x = cell_reset x z → discriminant y = discriminant z →
  x = cell_reset x y.
Proof using GL. intros E D. rewrite E at 1. symmetry. by apply cell_reset_by_discriminant. Qed.

Lemma row_full_clean r : Row.len r ≤ Row.occ r → row_clean r.
Proof.
  intros Ho i x z Hi Hx. apply lookup_lt_Some in Hx. unfold Row.len in *. lia.
Qed.

Lemma row_last columns r : row_ok columns r → ∃ z, Row.inner r !! (columns - 1) = Some z.
Proof.
  intros [Hl Hp _ _]. apply lookup_lt_is_Some_2. unfold Row.len in Hl. lia.
Qed.

Lemma new_ok columns : 1 ≤ columns → wp (Row.new columns) (λ r,
  row_ok columns r ∧ Row.inner r = replicate columns cell_default).
Proof using GL.
  intros Hc. unfold Row.new. rewrite ensure_ok by (by apply Nat.leb_le). simpl.
  split; [|done]. split; unfold Row.len; simpl; [by rewrite length_replicate|done|lia|].
  intros i x z _ Hx Hz. simpl in *.
  apply lookup_replicate in Hx as [-> _]. apply lookup_replicate in Hz as [-> _].
  by rewrite cell_reset_default.
Qed.

(** Writing through [IndexMut] keeps the invariant. *)
Lemma index_mut_ok columns col f r :
  row_ok columns r → col < columns →
  wp (Row.index_mut col f r) (λ r', row_ok columns r' ∧
    ∃ x, Row.inner r !! col = Some x ∧ Row.inner r' = <[col := f x]> (Row.inner r)).
Proof.
  intros Hr Hcol. pose proof Hr as [Hl Hp Ho Hb]. unfold Row.index_mut, Row.len in *.
  destruct (lookup_lt_is_Some_2 (Row.inner r) col) as [x Hx]; [lia|].
  rewrite (update_at_ok _ _ _ _ Hx). simpl. split; [|by exists x].
  split; unfold Row.len; simpl; rewrite ?length_insert; [done|done|lia|].
  intros i y z Hi Hy Hz. simpl in *. unfold Row.len in Hz. simpl in Hz.
  rewrite length_insert in Hz.
  destruct (decide (col = length (Row.inner r) - 1)) as [->|Hne].
  { apply lookup_lt_Some in Hy. rewrite length_insert in Hy. lia. }
  rewrite list_lookup_insert_ne in Hy, Hz by lia.
  apply (Hb i y z); [lia|done|]. by unfold Row.len.
Qed.

Lemma index_mut_range_ok columns a b f r :
  row_ok columns r → a ≤ b → b ≤ columns →
  wp (Row.index_mut_range a b f r) (λ r', row_ok columns r' ∧
    ∀ i, Row.inner r' !! i =
      if (a <=? i) && (i <? b) then f <$> Row.inner r !! i else Row.inner r !! i).
Proof.
  intros [Hl Hp Ho Hb] Hab Hbc. unfold Row.index_mut_range, Row.len in *.
  destruct (update_slice a b f (Row.inner r)) as [l|] eqn:E.
  2: { rewrite update_slice_ok in E by lia. done. }
  simpl. pose proof (length_update_slice _ _ _ _ _ E) as El.
  pose proof (λ i, lookup_update_slice _ _ _ _ _ i E) as Lk. split; [|exact Lk].
  split; unfold Row.len; simpl; [by rewrite El|done|lia|].
  intros i y z Hi Hy Hz. unfold Row.len in Hz. simpl in *. rewrite El in Hz.
  pose proof (lookup_lt_Some _ _ _ Hy). rewrite El in *. rewrite Lk in Hy, Hz.
  rewrite (proj2 (Nat.ltb_ge i b)), andb_false_r in Hy by lia.
  rewrite (proj2 (Nat.ltb_ge (_ - 1) b)), andb_false_r in Hz by lia.
  apply (Hb i y z); [lia|done|]. by unfold Row.len.
Qed.

Lemma last_mut_ok columns f r : row_ok columns r → row_ok columns (Row.last_mut f r).
Proof.
  intros [Hl Hp Ho Hb]. unfold Row.last_mut, Row.len in *.
  split; unfold Row.len; simpl; rewrite ?length_alter; [done|done|lia|].
  apply row_full_clean. unfold Row.len. simpl. by rewrite length_alter.
Qed.

(** [reset] is the reset of every cell, however few of them it visits. *)
Lemma reset_spec columns template r :
  row_ok columns r →
  Row.reset template r =
    Some (Row.mk ((λ x, cell_reset x template) <$> Row.inner r) 0) ∧
  row_ok columns (Row.mk ((λ x, cell_reset x template) <$> Row.inner r) 0).
Proof using GL.
  intros Hr. destruct (row_last _ _ Hr) as [z Hz]. destruct Hr as [Hl Hp Ho Hb]. split.
  - unfold Row.reset. rewrite Hl, Hz. simpl. unfold Row.len in *.
    destruct (bool_decide _) eqn:E; bools.
    + rewrite update_slice_ok by lia. simpl. do 2 f_equal.
      rewrite drop_0, Nat.sub_0_r.
      rewrite <- (take_drop (Row.occ r) (Row.inner r)) at 3. rewrite fmap_app. f_equal.
      apply list_eq. intros i. rewrite list_lookup_fmap, lookup_drop.
      destruct (Row.inner r !! (Row.occ r + i)) as [x|] eqn:Hx; [|done]. simpl. f_equal.
      eapply blank_of; [|by rewrite E].
      eapply (Hb _ x z); [|exact Hx|unfold Row.len; by rewrite Hl]. lia.
    + rewrite update_slice_ok by lia. simpl. do 2 f_equal.
      rewrite drop_0, Nat.sub_0_r, take_ge, drop_ge, app_nil_r by lia. done.
  - unfold Row.len in *. split; unfold Row.len; simpl; rewrite ?length_fmap; [done|done|lia|].
    intros i x z' _ Hx Hz'. unfold Row.len in Hz'. simpl in *.
    rewrite list_lookup_fmap in Hx, Hz'.
    apply fmap_Some in Hx as (x0 & _ & ->). apply fmap_Some in Hz' as (z0 & _ & ->).
    rewrite (cell_reset_by_discriminant (cell_reset z0 template) template)
      by apply cell_reset_discriminant.
    apply cell_reset_forgets.
Qed.
End Invariant.

(** * Interfaces for the users of rows

    The grid is verified for any property of rows that its row operations maintain: the sizes
    ([row_safe]), which every operation of the terminal keeps, or the full invariant ([row_ok]),
    which [grow] may lose. *)

Record row_safe {T} (columns : nat) (r : Row.t T) : Prop := {
  safe_len : Row.len r = columns;
  safe_pos : 1 ≤ columns;
  safe_occ : Row.occ r ≤ columns;
}.

Class RowInv {T} `{GridCell T} (columns : nat) (P : Row.t T → Prop) : Prop := {
  inv_safe : ∀ r, P r → row_safe columns r;
  inv_new : 1 ≤ columns → wp (Row.new columns) P;
  inv_reset : ∀ template r, P r → wp (Row.reset template r) P;
  inv_index_mut : ∀ col f r, P r → col < columns → wp (Row.index_mut col f r) P;
  inv_range : ∀ a b f r, P r → a ≤ b → b ≤ columns → wp (Row.index_mut_range a b f r) P;
  inv_full : ∀ (f : list T → option (list T)) r, P r →
    wp (f (Row.inner r)) (λ l, length l = columns) → wp (Row.index_mut_full f r) P;
  inv_last_mut : ∀ f r, P r → P (Row.last_mut f r);
}.

Section Instances.
Context {T : Type} `{GL : GridCellLaws T}.
Implicit Types (r : Row.t T).

#[export] Instance row_safe_inv columns : RowInv columns (row_safe (T:=T) columns).
Proof.
  split.
  - done.
  - intros Hc. unfold Row.new. wp_steps. split; unfold Row.len; simpl;
      rewrite ?length_replicate; lia.
  - intros t r [Hl Hp Ho]. unfold Row.reset, Row.len in *.
    destruct (lookup_lt_is_Some_2 (Row.inner r) (length (Row.inner r) - 1)) as [z Hz]; [lia|].
    rewrite Hz. mrun. rewrite update_slice_ok by (case_match; lia). mrun.
    split; unfold Row.len; simpl; [|done|lia].
    rewrite length_app, length_fmap, length_take, !length_drop. case_match; lia.
  - intros col f r [Hl Hp Ho] Hc. unfold Row.index_mut, Row.len in *.
    destruct (lookup_lt_is_Some_2 (Row.inner r) col) as [x Hx]; [lia|].
    rewrite (update_at_ok _ _ _ _ Hx). mrun.
    split; unfold Row.len; simpl; rewrite ?length_insert; lia.
  - intros a b f r [Hl Hp Ho] Hab Hb. unfold Row.index_mut_range, Row.len in *.
    rewrite update_slice_ok by lia. mrun.
    split; unfold Row.len; simpl; [|done|lia].
    rewrite !length_app, length_fmap, !length_take, !length_drop. lia.
  - intros f r [Hl Hp Ho] Hf. unfold Row.index_mut_full.
    destruct (f (Row.inner r)); [|done]. mrun. unfold wp in Hf.
    split; unfold Row.len in *; simpl; lia.
  - intros f r [Hl Hp Ho]. unfold Row.last_mut, Row.len in *.
    split; unfold Row.len; simpl; rewrite ?length_alter; lia.
Qed.

#[export] Instance row_ok_inv columns : RowInv columns (row_ok (T:=T) columns).
Proof using GL.
  split.
  - intros r [? ? ? _]. by split.
  - intros Hc. eapply wp_mono; [by apply new_ok|]. by intros r [? _].
  - intros t r Hr. destruct (reset_spec columns t r Hr) as [-> ?]. done.
  - intros col f r Hr Hc. eapply wp_mono; [by apply index_mut_ok|]. by intros r' [? _].
  - intros a b f r Hr Hab Hb. eapply wp_mono; [by apply index_mut_range_ok|].
    by intros r' [? _].
  - intros f r [Hl Hp Ho Hb] Hf. unfold Row.index_mut_full.
    destruct (f (Row.inner r)); [|done]. mrun. unfold wp in Hf.
    split; unfold Row.len in *; simpl; [lia|lia|lia|].
    apply row_full_clean. unfold Row.len. simpl. lia.
  - intros f r. apply last_mut_ok.
Qed.
End Instances.

Section MoreInvariant.
Context {T : Type} `{GL : GridCellLaws T}.
Implicit Types (r : Row.t T) (x z : T).

(** [shrink] cuts the row at [columns] and returns the removed cells up to the last non-empty
    one: nothing but empty cells is lost. *)
Lemma shrink_spec columns n r :
  row_ok n r → 1 ≤ columns →
  let '(removed, r') := Row.shrink columns r in
  row_ok (Nat.min n columns) r' ∧
  Row.inner r' = take columns (Row.inner r) ∧
  ∃ tail, drop columns (Row.inner r) = from_option id [] removed ++ tail ∧
    Forall (λ x, cell_is_empty x = true) tail ∧
    (removed = None ∨ ∃ front x, removed = Some (front ++ [x]) ∧ cell_is_empty x = false) .
Proof.
  intros [Hl Hp Ho Hb] Hc. unfold Row.shrink. destruct (Row.len r <=? columns) eqn:E; bools.
  { rewrite Nat.min_l by lia. unfold Row.len in *.
    rewrite (drop_ge (Row.inner r)), (take_ge (Row.inner r)) by lia.
    split; [by split|]. split; [done|]. exists []. auto using Forall_nil. }
  set (new_row := drop columns (Row.inner r)). unfold Row.len in *.
  split; [|split; [done|]].
  - split; unfold Row.len; simpl; rewrite ?length_take; [lia|lia|lia|].
    intros i x z Hi Hx Hz. unfold Row.len in Hz. simpl in *.
    rewrite length_take in Hz. pose proof (lookup_lt_Some _ _ _ Hx) as Hlt.
    rewrite length_take in Hlt. rewrite lookup_take_lt in Hx, Hz by lia.
    destruct (lookup_lt_is_Some_2 (Row.inner r) (length (Row.inner r) - 1)) as [w Hw]; [lia|].
    assert (x = cell_reset x w) by (apply (Hb i); [lia|done|done]).
    assert (z = cell_reset z w) as Ez
      by (apply (Hb (Nat.min columns (length (Row.inner r)) - 1)); [lia|done|done]).
    eapply blank_of; [done|]. rewrite Ez. apply cell_reset_discriminant.
  - destruct (rposition _ new_row) as [k|] eqn:Ek; simpl.
    + apply rposition_Some in Ek as [(x & Hx & Hpx) Hlast]. apply negb_true_iff in Hpx.
      exists (drop (S k) new_row).
      assert (truncate (S k) new_row = take k new_row ++ [x]) as Et by by apply take_S_r.
      rewrite Et. split; [|split; [|right; exists (take k new_row), x]].
      * replace (match take k new_row ++ [x] with [] => None | _ => Some (take k new_row ++ [x]) end)
          with (Some (take k new_row ++ [x])) by by destruct (take k new_row).
        simpl. rewrite <- Et. unfold truncate. by rewrite take_drop.
      * apply Forall_lookup. intros j y Hy. rewrite lookup_drop in Hy.
        apply negb_false_iff. apply (Hlast (S k + j) y); [lia|done].
      * split; [|done]. by destruct (take k new_row).
    + exists new_row. split; [done|]. split; [|by left].
      apply Forall_forall. intros x Hx. apply negb_false_iff. revert x Hx.
      by apply rposition_None.
Qed.

Lemma append_front_ok n vec r :
  row_ok n r → row_ok (length vec + n) (Row.append_front vec r).
Proof.
  intros [Hl Hp Ho Hb]. unfold Row.append_front, Row.len in *.
  split; unfold Row.len; simpl; rewrite ?length_app; [lia|lia|lia|].
  intros i x z Hi Hx Hz. unfold Row.len in Hz. simpl in *. rewrite length_app in Hz.
  rewrite lookup_app_r in Hx, Hz by lia.
  apply (Hb (i - length vec)); [lia|done|]. unfold Row.len. rewrite <- Hz. f_equal. lia.
Qed.

Lemma front_split_off_ok n k r :
  row_ok n r → k < n →
  wp (Row.front_split_off k r) (λ '(front, r'),
    row_ok (n - k) r' ∧ Row.inner r = front ++ Row.inner r' ∧ length front = k).
Proof.
  intros [Hl Hp Ho Hb] Hk. unfold Row.front_split_off.
  rewrite ensure_ok by (apply Nat.leb_le; lia). simpl. unfold Row.len in *.
  rewrite take_drop, length_take. split; [|split; [done|lia]].
  split; unfold Row.len; simpl; rewrite ?length_drop; [lia|lia|lia|].
  intros i x z Hi Hx Hz. unfold Row.len in Hz. simpl in *. rewrite length_drop in Hz.
  rewrite lookup_drop in Hx, Hz.
  apply (Hb (k + i)); [lia|done|]. unfold Row.len. rewrite <- Hz. f_equal. lia.
Qed.

(** [grow] keeps the invariant when the row has no clean part, or when its last cell has the
    background of the new default cells. *)
Lemma grow_ok n columns r :
  row_ok n r → n ≤ columns →
  (∀ z, Row.inner r !! (n - 1) = Some z →
    Row.occ r = n ∨ discriminant z = discriminant (cell_default (T:=T))) →
  row_ok columns (Row.grow columns r).
Proof using GL.
  intros Hr Hc Hd. destruct (row_last _ _ Hr) as [z Hz]. specialize (Hd z Hz).
  destruct Hr as [Hl Hp Ho Hb]. unfold Row.grow, Row.len in *.
  destruct (columns <=? length (Row.inner r)) eqn:E; bools.
  { assert (columns = n) as -> by lia. by split. }
  unfold resize_with. rewrite take_ge by lia.
  assert (∀ x i, Row.occ r ≤ i →
    (Row.inner r ++ replicate (columns - length (Row.inner r)) cell_default) !! i = Some x →
    x = cell_reset x cell_default) as Hx.
  { intros x i Hi Hx. apply lookup_app_Some in Hx as [Hx|[Hge Hx]].
    - pose proof (lookup_lt_Some _ _ _ Hx). destruct Hd as [Hd|Hd]; [lia|].
      eapply blank_of; [|symmetry; exact Hd].
      apply (Hb i); [done|done|]. unfold Row.len. by rewrite Hl.
    - apply lookup_replicate in Hx as [-> _]. by rewrite cell_reset_default. }
  split; unfold Row.len; simpl; rewrite ?length_app, ?length_replicate; [lia|lia|lia|].
  intros i x w Hi Hxi Hw. simpl in *. unfold Row.len in Hw; simpl in Hw.
  rewrite length_app, length_replicate in Hw.
  eapply blank_of; [exact (Hx _ _ Hi Hxi)|].
  assert (w = cell_reset w cell_default) as -> by (eapply Hx; [|exact Hw]; lia).
  apply cell_reset_discriminant.
Qed.
End MoreInvariant.

(** * The properties of rows *)

Section RowProperties.
Context {T : Type} `{GL : GridCellLaws T}.
Implicit Types (r : Row.t T).

(** [reset] makes every cell of the row the blank cell of the template, although it only
    visits the cells below [occ] when the backgrounds agree. *)
Theorem reset_correct columns template r :
  row_ok columns r →
  Row.reset template r
    = Some (Row.mk (replicate columns (cell_reset cell_default template)) 0).
Proof.
  intros Hr. destruct (reset_spec columns template r Hr) as [-> _]. do 2 f_equal.
  destruct Hr as [Hl _ _ _]. unfold Row.len in Hl. rewrite <- Hl.
  apply const_fmap. intros. apply cell_reset_forgets.
Qed.

(** [shrink] cuts the row at [columns] and returns the removed cells up to the last one that
    is not empty: nothing but trailing empty cells is lost, and the row keeps its invariant. *)
Theorem shrink_correct columns n r :
  row_ok n r → 1 ≤ columns →
  let '(removed, r') := Row.shrink columns r in
  row_ok (Nat.min n columns) r' ∧
  ∃ tail, Row.inner r = Row.inner r' ++ from_option id [] removed ++ tail ∧
    Forall (λ x, cell_is_empty x = true) tail ∧
    (removed = None ∨ ∃ front x, removed = Some (front ++ [x]) ∧ cell_is_empty x = false).
Proof.
  intros Hr Hc. pose proof (shrink_spec columns n r Hr Hc) as Hs.
  destruct (Row.shrink columns r) as [removed r'].
  destruct Hs as (Hr' & Ei & tail & Ed & Ht & Hlast). split; [done|]. exists tail.
  rewrite Ei, <- Ed, take_drop. done.
Qed.
End RowProperties.

Lemma sample_row_ok :
  let E := Sample.external in
  row_ok 3 (Row.mk [set_c 97 Cell.default; Cell.default; set_c 98 Cell.default] 3).
Proof. intros E. split; [reflexivity|lia|simpl; lia|]. apply row_full_clean. unfold Row.len. simpl. lia. Qed.

Lemma reset_correct_witness :
  let E := Sample.external in
  Row.reset Cell.default
    (Row.mk [set_c 97 Cell.default; Cell.default; set_c 98 Cell.default] 3)
  = Some (Row.mk (replicate 3 (cell_reset cell_default Cell.default)) 0).
Proof. intros E. apply (reset_correct 3). apply sample_row_ok. Defined.

Lemma shrink_correct_witness :
  let E := Sample.external in
  let r := Row.mk [set_c 97 Cell.default; Cell.default; set_c 98 Cell.default] 3 in
  row_ok (Nat.min 3 2) (Row.shrink 2 r).2.
Proof.
  intros E r. pose proof (shrink_correct 2 3 r sample_row_ok ltac:(lia)) as Hs.
  destruct (Row.shrink 2 r) as [removed r']. apply Hs.
Defined.

(** After a reset with a coloured background, [grow] adds default cells behind coloured ones but
    leaves [occ] alone, so that the next reset with the default background skips the coloured
    cells: the comment on [occ] ("all cells after this point are guaranteed to be equal") does
    not survive [grow]. *)
Example grow_breaks_reset :
  let E := Sample.external in
  let red : Cell := set_bg (2%N : Color) Cell.default in
  (r ← Row.new 2; r ← Row.reset red r; Row.reset Cell.default (Row.grow 4 r))
    = Some (Row.mk [red; red; Cell.default; Cell.default] 0).
Proof. by_compute. Qed.
