(* ===== verification/Storages.v ===== *)
(** The ring buffer of rows ([cutty_terminal/src/grid/storage.rs]).

    The abstract state is [rows]: the rows from the bottommost line upwards.  Each operation is
    shown to act on [rows] as the corresponding list operation, and every access, the unchecked
    pointer accesses of [swap] included, to stay inside the allocation. *)
From S2P Require Import Prelude Index Cells Rows.
#[local] Open Scope nat_scope.

Module Storage.
Definition MAX_CACHE_SIZE : nat := 1000.

(** [struct Storage<T>]. *)
Record t (T : Type) := mk {
  inner : list (Row.t T);
  zero : nat;
  visible_lines : nat;
  len : nat;
}.
Arguments mk {T} inner zero visible_lines len.
Arguments inner {T} _.
Arguments zero {T} _.
Arguments visible_lines {T} _.
Arguments len {T} _.

Section ops.
Context {T : Type} `{GridCell T}.
Implicit Types (s : t T).

Definition with_capacity (visible_lines columns : nat) : option (t T) :=
  inner ← resize_withM visible_lines (Row.new columns) [];
  Some (mk inner 0 visible_lines visible_lines).

Definition rezero s : t T :=
  if zero s =? 0 then s
  else mk (rotate (zero s) (inner s)) 0 (visible_lines s) (len s).

Definition truncate s : t T :=
  let s := rezero s in
  mk (Prelude.truncate (len s) (inner s)) (zero s) (visible_lines s) (len s).

Definition shrink_lines (shrinkage : nat) s : option (t T) :=
  len ← usize_sub (len s) shrinkage;
  let s := mk (inner s) (zero s) (visible_lines s) len in
  Some (if len + MAX_CACHE_SIZE <? length (inner s) then truncate s else s).

Definition shrink_visible_lines (next : nat) s : option (t T) :=
  shrinkage ← usize_sub (visible_lines s) next;
  s ← shrink_lines shrinkage s;
  Some (mk (inner s) (zero s) next (len s)).

Definition initialize (additional_rows columns : nat) s : option (t T) :=
  s ← (if length (inner s) <? len s + additional_rows then
         let s := rezero s in
         let realloc_size := length (inner s) + Nat.max additional_rows MAX_CACHE_SIZE in
         inner ← resize_withM realloc_size (Row.new columns) (inner s);
         Some (mk inner (zero s) (visible_lines s) (len s))
       else Some s);
  Some (mk (inner s) (zero s) (visible_lines s) (len s + additional_rows)).

Definition compute_index (requested : Z) s : option nat :=
  _ ← ensure (requested <? as_i32 (visible_lines s))%Z;
  x ← Line.sub_usize requested (visible_lines s);
  y ← i32_sub 0 x;
  positive ← usize_sub (as_usize y) 1;
  _ ← ensure (positive <? len s);
  let zeroed := zero s + positive in
  if length (inner s) <=? zeroed then usize_sub zeroed (length (inner s)) else Some zeroed.

(** [impl Index<Line>] and [impl IndexMut<Line>], the latter applied to an update. *)
Definition index (l : Z) s : option (Row.t T) :=
  i ← compute_index l s; inner s !! i.
Definition index_mut (l : Z) (f : Row.t T → option (Row.t T)) s : option (t T) :=
  i ← compute_index l s;
  r ← inner s !! i;
  r ← f r;
  Some (mk (<[i := r]> (inner s)) (zero s) (visible_lines s) (len s)).

Definition grow_visible_lines (next : nat) s : option (t T) :=
  additional_lines ← usize_sub next (visible_lines s);
  row ← index 0 s;
  s ← initialize additional_lines (Row.len row) s;
  Some (mk (inner s) (zero s) next (len s)).

(** The exchange of four machine words through raw pointers, which nothing bounds: an access
    outside of the allocation is undefined behaviour, [None] here. *)
Definition swap (a b : Z) s : option (t T) :=
  a ← compute_index a s;
  b ← compute_index b s;
  inner ← swap_at a b (inner s);
  Some (mk inner (zero s) (visible_lines s) (len s)).

(** [count] is an [isize]; the remainder by an empty buffer panics. *)
Definition rotate (count : Z) s : option (t T) :=
  _ ← ensure (Z.abs count <=? Z.of_nat (length (inner s)))%Z;
  let len_ := length (inner s) in
  _ ← ensure (0 <? len_);
  let zero := as_usize (Z.of_nat (zero s) + count + Z.of_nat len_) mod len_ in
  Some (mk (inner s) zero (visible_lines s) (len s)).

Definition rotate_down (count : nat) s : option (t T) :=
  _ ← ensure (0 <? length (inner s));
  Some (mk (inner s) ((zero s + count) mod length (inner s)) (visible_lines s) (len s)).

Definition replace_inner (vec : list (Row.t T)) s : t T :=
  mk vec 0 (visible_lines s) (length vec).

Definition take_all s : list (Row.t T) * t T :=
  let s := truncate s in
  (inner s, mk [] (zero s) (visible_lines s) 0).
End ops.
End Storage.

#[global] Arguments Storage.rezero {_} _ : simpl never.
#[global] Arguments Storage.truncate {_} _ : simpl never.
#[global] Arguments Storage.shrink_lines {_} _ _ : simpl never.
#[global] Arguments Storage.shrink_visible_lines {_} _ _ : simpl never.
#[global] Arguments Storage.initialize {_ _} _ _ _ : simpl never.
#[global] Arguments Storage.grow_visible_lines {_ _} _ _ : simpl never.
#[global] Arguments Storage.compute_index {_} _ _ : simpl never.
#[global] Arguments Storage.index {_} _ _ : simpl never.
#[global] Arguments Storage.index_mut {_} _ _ _ : simpl never.
#[global] Arguments Storage.swap {_} _ _ _ : simpl never.
#[global] Arguments Storage.rotate {_} _ _ : simpl never.
#[global] Arguments Storage.rotate_down {_} _ _ : simpl never.

(** * The abstract content *)

Section View.
Context {T : Type}.
Implicit Types (s : Storage.t T) (r : Row.t T).

(** Slot [k] of the ring, counted from [zero]. *)
Definition slot s (k : nat) : option (Row.t T) :=
  Storage.inner s !! ((Storage.zero s + k) mod length (Storage.inner s)).

Definition rows s : list (Row.t T) :=
  take (Storage.len s) (rotate (Storage.zero s) (Storage.inner s)).

(** The position of a line in [rows]. *)
Definition pos s (l : Z) : nat := Z.to_nat (Z.of_nat (Storage.visible_lines s) - 1 - l).

(** The lines of the buffer: history lines are negative. *)
Definition has_line s (l : Z) : Prop :=
  (Z.of_nat (Storage.visible_lines s) - Z.of_nat (Storage.len s) <= l
    < Z.of_nat (Storage.visible_lines s))%Z.

Record storage_ok s : Prop := {
  st_zero : Storage.zero s < length (Storage.inner s);
  st_len : Storage.len s ≤ length (Storage.inner s);
  st_visible : Storage.visible_lines s ≤ Storage.len s;
  st_small : (Z.of_nat (Storage.len s) <= 268435455)%Z;
  st_cap : (Z.of_nat (length (Storage.inner s)) <= 1073741823)%Z;
}.
End View.

Ltac storage_cases H := destruct H as [?Hzero ?Hlen ?Hvis ?Hsmall ?Hcap].

Section ViewFacts.
Context {T : Type}.
Implicit Types (s : Storage.t T) (r : Row.t T).

Lemma length_rotate {A} n (l : list A) : length (rotate n l) = length l.
Proof. unfold rotate. rewrite length_app, length_drop, length_take. lia. Qed.

Lemma lookup_rotate {A} n (l : list A) k :
  k < length l → rotate n l !! k = l !! ((n + k) mod length l).
Proof.
  intros Hk. unfold rotate. rewrite <- Nat.Div0.add_mod_idemp_l.
  pose proof (Nat.mod_upper_bound n (length l)).
  set (m := n mod length l) in *.
  destruct (decide (k < length l - m)) as [Hlt|Hge].
  - rewrite lookup_app_l by (rewrite length_drop; lia).
    by rewrite lookup_drop, Nat.mod_small by lia.
  - rewrite lookup_app_r by (rewrite length_drop; lia).
    rewrite length_drop. replace (m + k) with (k - (length l - m) + 1 * length l) by lia.
    rewrite Nat.Div0.mod_add, Nat.mod_small by lia. rewrite lookup_take_lt by lia. done.
Qed.

Lemma lookup_rows s k :
  storage_ok s → rows s !! k = if k <? Storage.len s then slot s k else None.
Proof.
  intros Hs. storage_cases Hs. unfold rows, slot.
  destruct (k <? Storage.len s) eqn:E; bools.
  - rewrite lookup_take_lt by done. by rewrite lookup_rotate by lia.
  - apply lookup_ge_None. rewrite length_take, length_rotate. lia.
Qed.

Lemma length_rows s : storage_ok s → length (rows s) = Storage.len s.
Proof.
  intros Hs. storage_cases Hs. unfold rows. rewrite length_take, length_rotate. lia.
Qed.

Lemma slot_is_Some s k : storage_ok s → is_Some (slot s k).
Proof.
  intros Hs. storage_cases Hs. apply lookup_lt_is_Some_2. apply Nat.mod_upper_bound. lia.
Qed.

Lemma pos_lt s l : storage_ok s → has_line s l → pos s l < Storage.len s.
Proof. intros Hs Hl. storage_cases Hs. unfold has_line, pos in *. lia. Qed.

Lemma pos_inj s a b : has_line s a → has_line s b → pos s a = pos s b → a = b.
Proof. unfold has_line, pos. lia. Qed.

(** The index computation of the code is the ring position of the line, inside the
    allocation. *)
Lemma compute_index_ok s l :
  storage_ok s → has_line s l →
  Storage.compute_index l s
    = Some ((Storage.zero s + pos s l) mod length (Storage.inner s)) ∧
  (Storage.zero s + pos s l) mod length (Storage.inner s) < length (Storage.inner s).
Proof.
  intros Hs Hl. pose proof (pos_lt _ _ Hs Hl) as Hp. storage_cases Hs.
  split; [|apply Nat.mod_upper_bound; lia].
  unfold Storage.compute_index, has_line, Line.sub_usize in *. casts.
  rewrite ensure_ok by (apply Z.ltb_lt; lia). simpl.
  rewrite i32_sub_ok by lia. simpl. rewrite i32_sub_ok by lia. simpl. casts.
  assert (Z.to_nat (0 - (l - Z.of_nat (Storage.visible_lines s))) = S (pos s l)) as ->
    by (unfold pos; lia).
  rewrite usize_sub_ok by lia. simpl. rewrite Nat.sub_0_r.
  rewrite ensure_ok by (by apply Nat.ltb_lt). simpl.
  destruct (_ <=? _) eqn:E; bools.
  - rewrite usize_sub_ok by lia. f_equal.
    rewrite <- (Nat.mod_small (_ - _) (length (Storage.inner s))) by lia.
    rewrite <- (Nat.Div0.mod_add _ 1). f_equal. lia.
  - by rewrite Nat.mod_small.
Qed.

(** Reading a line reads the abstract row. *)
Lemma index_rows s l :
  storage_ok s → has_line s l →
  ∃ r, Storage.index l s = Some r ∧ rows s !! pos s l = Some r.
Proof.
  intros Hs Hl. destruct (compute_index_ok s l Hs Hl) as [E _].
  pose proof (pos_lt _ _ Hs Hl). destruct (slot_is_Some s (pos s l) Hs) as [r Hr].
  exists r. unfold Storage.index. rewrite E. simpl. split; [exact Hr|].
  rewrite lookup_rows by done. by rewrite (proj2 (Nat.ltb_lt _ _)) by done.
Qed.
End ViewFacts.

(** * Every operation on the abstract content *)

Section Refinement.
Context {T : Type}.
Implicit Types (s : Storage.t T) (r : Row.t T).

Lemma ring_inj L z j k : z < L → j < L → k < L → (z + j) mod L = (z + k) mod L → j = k.
Proof.
  intros Hz Hj Hk E. destruct (decide (z + j < L)), (decide (z + k < L)).
  - rewrite !Nat.mod_small in E by lia. lia.
  - rewrite (Nat.mod_small (z + j)) in E by lia.
    replace (z + k) with (z + k - L + 1 * L) in E by lia.
    rewrite Nat.Div0.mod_add, Nat.mod_small in E by lia. lia.
  - rewrite (Nat.mod_small (z + k)) in E by lia.
    replace (z + j) with (z + j - L + 1 * L) in E by lia.
    rewrite Nat.Div0.mod_add, Nat.mod_small in E by lia. lia.
  - replace (z + j) with (z + j - L + 1 * L) in E by lia.
    replace (z + k) with (z + k - L + 1 * L) in E by lia.
    rewrite !Nat.Div0.mod_add, !Nat.mod_small in E by lia. lia.
Qed.

(** Writing a slot of the ring writes the abstract row. *)
Lemma rows_insert s k r :
  storage_ok s → k < Storage.len s →
  let s' := Storage.mk
    (<[(Storage.zero s + k) mod length (Storage.inner s) := r]> (Storage.inner s))
    (Storage.zero s) (Storage.visible_lines s) (Storage.len s) in
  storage_ok s' ∧ rows s' = <[k := r]> (rows s).
Proof.
  intros Hs Hk s'. assert (storage_ok s') as Hs'.
  { storage_cases Hs. split; simpl; rewrite ?length_insert; done. }
  split; [done|]. apply list_eq. intros i. pose proof (length_rows s Hs).
  rewrite list_lookup_insert, !lookup_rows by done. simpl.
  destruct (i <? Storage.len s) eqn:E; bools.
  2: { rewrite decide_False by lia. done. }
  unfold slot. simpl. rewrite length_insert. storage_cases Hs.
  destruct (decide (k = i ∧ k < length (rows s))) as [[-> _]|Hne].
  - rewrite list_lookup_insert_eq; [done|]. apply Nat.mod_upper_bound. lia.
  - rewrite list_lookup_insert_ne; [done|]. intros Heq. apply Hne. split; [|lia].
    apply (ring_inj _ _ _ _ Hzero) in Heq; lia.
Qed.

Lemma index_mut_rows s l (f : Row.t T → option (Row.t T)) r r' :
  storage_ok s → has_line s l → rows s !! pos s l = Some r → f r = Some r' →
  wp (Storage.index_mut l f s) (λ s', storage_ok s' ∧
    rows s' = <[pos s l := r']> (rows s) ∧
    Storage.visible_lines s' = Storage.visible_lines s ∧
    Storage.len s' = Storage.len s ∧
    Storage.inner s' = <[(Storage.zero s + pos s l) mod length (Storage.inner s) := r']>
                         (Storage.inner s)).
Proof.
  intros Hs Hl Hr Hf. destruct (compute_index_ok s l Hs Hl) as [E _].
  pose proof (pos_lt _ _ Hs Hl) as Hp.
  rewrite lookup_rows, (proj2 (Nat.ltb_lt _ _) Hp) in Hr by done.
  unfold Storage.index_mut. rewrite E. simpl. unfold slot in Hr. rewrite Hr. simpl.
  rewrite Hf. simpl. destruct (rows_insert s (pos s l) r' Hs Hp). done.
Qed.

(** [swap] exchanges two rows and never touches memory outside of the buffer. *)
Lemma swap_rows s a b :
  storage_ok s → has_line s a → has_line s b →
  wp (Storage.swap a b s) (λ s', storage_ok s' ∧
    swap_at (pos s a) (pos s b) (rows s) = Some (rows s') ∧
    Storage.visible_lines s' = Storage.visible_lines s ∧
    Storage.len s' = Storage.len s ∧
    length (Storage.inner s') = length (Storage.inner s) ∧
    ∀ P, Forall P (Storage.inner s) → Forall P (Storage.inner s')).
Proof.
  intros Hs Ha Hb. destruct (compute_index_ok s a Hs Ha) as [Ea La].
  destruct (compute_index_ok s b Hs Hb) as [Eb Lb].
  pose proof (pos_lt _ _ Hs Ha) as Pa. pose proof (pos_lt _ _ Hs Hb) as Pb.
  unfold Storage.swap. rewrite Ea, Eb. simpl.
  destruct (lookup_lt_is_Some_2 _ _ La) as [x Hx].
  destruct (lookup_lt_is_Some_2 _ _ Lb) as [y Hy].
  rewrite (swap_at_ok _ _ _ x y Hx Hy). simpl.
  destruct (rows_insert s (pos s a) y Hs Pa) as [H1 R1].
  set (s1 := Storage.mk _ _ _ _) in H1, R1.
  destruct (rows_insert s1 (pos s b) x H1 Pb) as [H2 R2].
  simpl in H2, R2. rewrite length_insert in H2, R2.
  split; [exact H2|]. split.
  - rewrite (swap_at_ok _ _ _ x y).
    + by rewrite R2, R1.
    + by rewrite lookup_rows, (proj2 (Nat.ltb_lt _ _) Pa).
    + by rewrite lookup_rows, (proj2 (Nat.ltb_lt _ _) Pb).
  - split; [done|]. split; [done|]. split; [simpl; by rewrite !length_insert|].
    intros P HP. simpl. apply Forall_insert; [apply Forall_insert; [done|]|];
      eapply Forall_lookup_1; eauto.
Qed.
End Refinement.

Section Resizing.
Context {T : Type} `{GL : GridCellLaws T}.
Implicit Types (s : Storage.t T) (r : Row.t T).

(** A property of every row of the allocation, the cached ones included. *)
Definition rows_all (P : Row.t T → Prop) s : Prop := Forall P (Storage.inner s).

Context {columns : nat} {P : Row.t T → Prop} {HP : RowInv columns P}.

Lemma rezero_rows s :
  storage_ok s →
  storage_ok (Storage.rezero s) ∧ rows (Storage.rezero s) = rows s ∧
  Storage.zero (Storage.rezero s) = 0 ∧
  Permutation (Storage.inner (Storage.rezero s)) (Storage.inner s).
Proof.
  intros Hs. storage_cases Hs. unfold Storage.rezero.
  destruct (Storage.zero s =? 0) eqn:E; bools; [done|].
  split; [split; simpl; rewrite ?length_rotate; try lia; done|].
  split; [|split; [done|]].
  - unfold rows. simpl. f_equal. unfold rotate at 1.
    by rewrite Nat.Div0.mod_0_l, drop_0, take_0, app_nil_r.
  - simpl. unfold rotate. rewrite Permutation_app_comm. by rewrite take_drop.
Qed.

Lemma rows_zero s : Storage.zero s = 0 → rows s = take (Storage.len s) (Storage.inner s).
Proof.
  intros E. unfold rows, rotate. rewrite E.
  by rewrite Nat.Div0.mod_0_l, drop_0, take_0, app_nil_r.
Qed.

Lemma truncate_rows s :
  storage_ok s → 1 ≤ Storage.len s →
  storage_ok (Storage.truncate s) ∧ rows (Storage.truncate s) = rows s ∧
  Storage.inner (Storage.truncate s) = rows s.
Proof.
  intros Hs Hpos. destruct (rezero_rows s Hs) as (Hr & Er & Ez & _).
  rewrite <- Er. rewrite (rows_zero _ Ez). unfold Storage.truncate, truncate.
  set (s0 := Storage.rezero s) in *.
  assert (Storage.len s0 = Storage.len s) as El.
  { unfold s0, Storage.rezero. by destruct (_ =? _). }
  storage_cases Hr. split; [|split; [|done]].
  - split; simpl; rewrite ?length_take; lia.
  - rewrite rows_zero by done. simpl. by rewrite take_take, Nat.min_id.
Qed.

(** Shrinking drops rows at the top of the history. *)
Lemma shrink_lines_rows s n :
  storage_ok s → 1 ≤ Storage.visible_lines s →
  Storage.visible_lines s + n ≤ Storage.len s →
  wp (Storage.shrink_lines n s) (λ s', storage_ok s' ∧
    rows s' = take (Storage.len s - n) (rows s) ∧
    Storage.len s' = Storage.len s - n ∧
    Storage.visible_lines s' = Storage.visible_lines s ∧
    (rows_all P s → rows_all P s')).
Proof.
  intros Hs Hv Hn. unfold Storage.shrink_lines. wp_step. wp_step. cbv zeta.
  set (s1 := Storage.mk _ _ _ _).
  assert (storage_ok s1) as Hs1 by (storage_cases Hs; split; simpl; lia).
  assert (rows s1 = take (Storage.len s - n) (rows s)) as E1.
  { unfold rows, s1. simpl. by rewrite take_take, Nat.min_l by lia. }
  wp_step. destruct (_ <? _).
  - destruct (truncate_rows s1 Hs1 ltac:(simpl; lia)) as (Ht & Er & Ei).
    split; [done|]. split; [by rewrite Er|].
    assert (Storage.len (Storage.truncate s1) = Storage.len s - n ∧
            Storage.visible_lines (Storage.truncate s1) = Storage.visible_lines s) as [-> ->].
    { unfold Storage.truncate, Storage.rezero. simpl. by destruct (_ =? _). }
    split; [done|]. split; [done|]. intros HPs. unfold rows_all. rewrite Ei. unfold rows.
    apply Forall_take.
    unfold rotate. rewrite Permutation_app_comm, take_drop. exact HPs.
  - auto.
Qed.

(** Initializing makes the buffer longer at the top of the history. The new rows are cached
    rows or default ones. *)
Lemma initialize_rows s n :
  storage_ok s → rows_all P s → 1 ≤ columns →
  (Z.of_nat (Storage.len s + n) <= 268435455)%Z →
  wp (Storage.initialize n columns s) (λ s', storage_ok s' ∧
    (∃ new, rows s' = rows s ++ new ∧ length new = n) ∧
    rows_all P s' ∧
    Storage.len s' = Storage.len s + n ∧
    Storage.visible_lines s' = Storage.visible_lines s).
Proof using HP.
  intros Hs Hw Hc Hn. unfold Storage.initialize.
  assert (∀ s', storage_ok s' → rows_all P s' → Storage.len s' = Storage.len s →
    Storage.visible_lines s' = Storage.visible_lines s → rows s' = rows s →
    Storage.len s + n ≤ length (Storage.inner s') →
    let s'' := Storage.mk (Storage.inner s') (Storage.zero s') (Storage.visible_lines s')
                 (Storage.len s' + n) in
    storage_ok s'' ∧ (∃ new, rows s'' = rows s ++ new ∧ length new = n) ∧
    rows_all P s'' ∧
    Storage.len s'' = Storage.len s + n ∧
    Storage.visible_lines s'' = Storage.visible_lines s) as Hdone.
  { intros s' Hs' Hw' El Ev Er Hin s''.
    assert (storage_ok s'') as Hs'' by (storage_cases Hs'; split; simpl; lia).
    split; [done|]. split; [|unfold rows_all in *; simpl; rewrite El, Ev; done].
    exists (drop (Storage.len s) (rows s'')). split.
    - rewrite <- Er. rewrite <- (take_drop (Storage.len s) (rows s'')) at 1. f_equal.
      unfold rows. simpl. rewrite take_take, El. by rewrite Nat.min_l by lia.
    - rewrite length_drop, length_rows by done. simpl. lia. }
  destruct (_ <? _) eqn:E; bools.
  - destruct (rezero_rows s Hs) as (Hr & Er & Ez & Hp). cbv zeta.
    set (s0 := Storage.rezero s) in *.
    assert (Storage.len s0 = Storage.len s ∧
            Storage.visible_lines s0 = Storage.visible_lines s) as [El Ev].
    { unfold s0, Storage.rezero. by destruct (_ =? _). }
    assert (length (Storage.inner s0) = length (Storage.inner s)) as Ei
      by by rewrite Hp.
    pose proof (inv_new (P:=P) Hc) as Hrow.
    destruct (Row.new columns) as [row|]; [|done].
    rewrite resize_withM_ok by (unfold Storage.MAX_CACHE_SIZE; lia). mrun.
    match goal with |- context [Storage.inner ?s' ++ ?new] =>
      apply (Hdone (Storage.mk (Storage.inner s' ++ new) (Storage.zero s')
                      (Storage.visible_lines s') (Storage.len s'))) end; simpl; rewrite ?length_app, ?length_replicate;
      pose proof (st_len _ Hs); unfold Storage.MAX_CACHE_SIZE; [..|lia].
    + storage_cases Hr. split; simpl; rewrite ?length_app, ?length_replicate; lia.
    + unfold rows_all. simpl. apply Forall_app. split; [by rewrite Hp|].
      by apply Forall_replicate.
    + done.
    + done.
    + rewrite rows_zero by done. simpl. storage_cases Hr.
      rewrite take_app_le by lia. rewrite <- Er. by rewrite rows_zero.
  - mrun. by apply (Hdone s).
Qed.
End Resizing.

Section Rotating.
Context {T : Type} `{GL : GridCellLaws T}.
Context {columns : nat} {P : Row.t T → Prop} {HP : RowInv columns P}.
Implicit Types (s : Storage.t T) (r : Row.t T).

Lemma slot_shift s z k n :
  Storage.zero s + n = z ∨ Storage.zero s + n = z + length (Storage.inner s)
    ∨ z mod length (Storage.inner s) = (Storage.zero s + n) mod length (Storage.inner s) →
  slot (Storage.mk (Storage.inner s) (z mod length (Storage.inner s))
          (Storage.visible_lines s) (Storage.len s)) k
    = slot s (n + k).
Proof.
  intros Hz. unfold slot. simpl. f_equal.
  rewrite Nat.Div0.add_mod_idemp_l, Nat.add_assoc.
  destruct Hz as [E|[E|E]].
  - by rewrite E.
  - rewrite E. by rewrite <- (Nat.Div0.mod_add (z + k) 1), Nat.mul_1_l; f_equal; lia.
  - rewrite <- Nat.Div0.add_mod_idemp_l, E. by rewrite Nat.Div0.add_mod_idemp_l.
Qed.

(** [rotate_down n] moves every line down by [n]: position [k] shows what was at [n + k]. *)
Lemma rotate_down_rows s n :
  storage_ok s →
  wp (Storage.rotate_down n s) (λ s', storage_ok s' ∧
    Storage.inner s' = Storage.inner s ∧
    Storage.visible_lines s' = Storage.visible_lines s ∧ Storage.len s' = Storage.len s ∧
    ∀ k, n + k < Storage.len s → rows s' !! k = rows s !! (n + k)).
Proof.
  intros Hs. unfold Storage.rotate_down. pose proof (st_zero _ Hs).
  rewrite ensure_ok by (apply Nat.ltb_lt; lia). mrun.
  set (s' := Storage.mk _ _ _ _).
  assert (storage_ok s') as Hs'.
  { storage_cases Hs. split; simpl; [apply Nat.mod_upper_bound; lia|done..]. }
  split; [done|]. split; [done|]. split; [done|]. split; [done|].
  intros k Hk. rewrite !lookup_rows by done. simpl.
  rewrite !(proj2 (Nat.ltb_lt _ _)) by lia. apply slot_shift. by left.
Qed.

(** [rotate (-n)] moves every line up by [n]. *)
Lemma rotate_up_rows s n :
  storage_ok s → n ≤ Storage.len s →
  wp (Storage.rotate (- Z.of_nat n) s) (λ s', storage_ok s' ∧
    Storage.inner s' = Storage.inner s ∧
    Storage.visible_lines s' = Storage.visible_lines s ∧ Storage.len s' = Storage.len s ∧
    ∀ k, n ≤ k → k < Storage.len s → rows s' !! k = rows s !! (k - n)).
Proof.
  intros Hs Hn. unfold Storage.rotate. pose proof Hs as Hs0. storage_cases Hs0.
  wp_step. wp_step. wp_step. wp_step. wp_step.
  rewrite as_usize_small by lia.
  set (z := Z.to_nat _). set (s' := Storage.mk _ _ _ _).
  assert (storage_ok s') as Hs' by (split; simpl; [apply Nat.mod_upper_bound; lia|done..]).
  split; [done|]. split; [done|]. split; [done|]. split; [done|].
  intros k Hk Hkl. rewrite !lookup_rows by done. simpl.
  rewrite !(proj2 (Nat.ltb_lt _ _)) by lia.
  assert (slot s (k - n) = slot s (length (Storage.inner s) - n + k)) as ->.
  { unfold slot. f_equal. rewrite <- (Nat.Div0.mod_add (_ + (k - n)) 1). f_equal. lia. }
  apply slot_shift. left. unfold z. lia.
Qed.

(** [rotate n] for a positive [n] is [rotate_down n]. *)
Lemma rotate_pos s n :
  storage_ok s → n ≤ length (Storage.inner s) →
  Storage.rotate (Z.of_nat n) s = Storage.rotate_down n s.
Proof.
  intros Hs Hn. unfold Storage.rotate, Storage.rotate_down. storage_cases Hs.
  rewrite (ensure_ok (_ <=? _)%Z) by lia. mrun.
  rewrite (ensure_ok (_ <? _)) by lia. mrun.
  rewrite as_usize_small by lia. do 2 f_equal.
  rewrite <- (Nat.Div0.mod_add (_ + n) 1). f_equal. lia.
Qed.

Lemma with_capacity_ok visible :
  1 ≤ visible → 1 ≤ columns → (Z.of_nat visible <= 268435455)%Z →
  wp (Storage.with_capacity visible columns) (λ s, storage_ok s ∧
    Storage.len s = visible ∧ Storage.visible_lines s = visible ∧
    Storage.inner s = replicate visible (Row.mk (replicate columns cell_default) 0) ∧
    rows_all P s).
Proof using HP.
  intros Hv Hc Hs. unfold Storage.with_capacity, Row.new.
  rewrite ensure_ok by (by apply Nat.leb_le). mrun.
  rewrite resize_withM_ok by (simpl; lia). mrun.
  split; [split; simpl; rewrite ?length_replicate; lia|].
  split; [done|]. split; [done|]. simpl. rewrite Nat.sub_0_r. split; [done|].
  unfold rows_all. simpl. apply Forall_replicate.
  pose proof (inv_new (P:=P) Hc) as Hnew. unfold Row.new in Hnew.
  by rewrite ensure_ok in Hnew by (by apply Nat.leb_le).
Qed.

(** Shrinking the viewport drops history lines and renumbers the others. *)
Lemma shrink_visible_lines_rows s next :
  storage_ok s → 1 ≤ next → next ≤ Storage.visible_lines s →
  wp (Storage.shrink_visible_lines next s) (λ s', storage_ok s' ∧
    rows s' = take (Storage.len s - (Storage.visible_lines s - next)) (rows s) ∧
    Storage.len s' = Storage.len s - (Storage.visible_lines s - next) ∧
    Storage.visible_lines s' = next ∧
    (rows_all P s → rows_all P s')).
Proof.
  intros Hs Hn Hv. unfold Storage.shrink_visible_lines, Storage.shrink_lines.
  pose proof (st_visible _ Hs) as Hvl. pose proof (st_len _ Hs). pose proof (st_small _ Hs).
  set (n := Storage.visible_lines s - next). wp_step. wp_step. fold n.
  assert (storage_ok (Storage.mk (Storage.inner s) (Storage.zero s) next (Storage.len s)))
    as Hs0 by (storage_cases Hs; split; simpl; lia).
  pose proof (shrink_lines_rows (P:=P) _ n Hs0 Hn ltac:(simpl; lia)) as Hspec.
  unfold Storage.shrink_lines in Hspec. simpl in Hspec. revert Hspec.
  rewrite usize_sub_ok by lia. mrun. cbv zeta.
  destruct (_ <? _); mrun; intros (? & H2 & ? & ? & ?).
  - unfold Storage.truncate, Storage.rezero in *. simpl in *.
    destruct (_ =? _); simpl in *; (split; [done|]); (split; [exact H2|]); auto.
  - simpl in *. split; [done|]. split; [exact H2|]. auto.
Qed.

Lemma grow_visible_lines_rows s next :
  storage_ok s → rows_all P s → 1 ≤ columns →
  1 ≤ Storage.visible_lines s → Storage.visible_lines s ≤ next →
  (Z.of_nat (Storage.len s + next) <= 268435455)%Z →
  wp (Storage.grow_visible_lines next s) (λ s', storage_ok s' ∧
    (∃ new, rows s' = rows s ++ new ∧ length new = next - Storage.visible_lines s) ∧
    rows_all P s' ∧
    Storage.len s' = Storage.len s + (next - Storage.visible_lines s) ∧
    Storage.visible_lines s' = next).
Proof using HP.
  intros Hs Hw Hc Hv Hn Hsz. unfold Storage.grow_visible_lines. wp_step. wp_step. wp_step.
  pose proof (st_visible _ Hs).
  destruct (index_rows s 0 Hs) as (r & Er & _); [unfold has_line; lia|].
  rewrite Er. mrun.
  assert (Row.len r = columns) as ->.
  { unfold Storage.index in Er. destruct (Storage.compute_index 0 s); [|done].
    apply (safe_len _ r), inv_safe. eapply (Forall_lookup_1 P); [exact Hw|exact Er]. }
  wp_step. wp_call (initialize_rows s _ Hs Hw Hc); [lia|].
  intros s' (Hs' & (new & Er' & En) & Hw' & El & Ev). wp_step.
  split; [storage_cases Hs'; split; simpl; lia|].
  split; [exists new; split; [exact Er'|done]|]. split; [done|]. simpl. lia.
Qed.
End Rotating.

(** * The rows by line number *)

Section Lines.
Context {T : Type} {P : Row.t T → Prop}.
Implicit Types (s : Storage.t T) (r : Row.t T) (l a b : Z) (n : nat).
#[local] Open Scope Z_scope.

Definition line_row s l : option (Row.t T) := rows s !! pos s l.

(** A state with the same lines as [s], and [P] for all of its rows. *)
Record same_lines s s' : Prop := {
  same_ok : storage_ok s';
  same_all : rows_all P s';
  same_visible : Storage.visible_lines s' = Storage.visible_lines s;
  same_len : Storage.len s' = Storage.len s;
}.

Lemma same_refl s : storage_ok s → rows_all P s → same_lines s s.
Proof. by split. Qed.

Lemma same_trans s1 s2 s3 : same_lines s1 s2 → same_lines s2 s3 → same_lines s1 s3.
Proof. intros [] []. split; congruence. Qed.

Lemma same_has s s' l : same_lines s s' → has_line s' l ↔ has_line s l.
Proof. intros []. unfold has_line. by rewrite same_visible0, same_len0. Qed.

Lemma same_pos s s' l : same_lines s s' → pos s' l = pos s l.
Proof. intros []. unfold pos. by rewrite same_visible0. Qed.

Lemma line_row_is_Some s l : storage_ok s → has_line s l → is_Some (line_row s l).
Proof. intros Hs Hl. destruct (index_rows s l Hs Hl) as (r & _ & E). unfold line_row. eauto. Qed.

Lemma index_line s l : storage_ok s → has_line s l → Storage.index l s = line_row s l.
Proof.
  intros Hs Hl. destruct (index_rows s l Hs Hl) as (r & E1 & E2). unfold line_row. congruence.
Qed.

Lemma line_row_all s l r : storage_ok s → rows_all P s → line_row s l = Some r → P r.
Proof.
  intros Hs HP Hr. unfold line_row in Hr. rewrite lookup_rows in Hr by done.
  destruct (_ <? _)%nat; [|done]. eapply Forall_lookup_1; [exact HP|exact Hr].
Qed.

Lemma swap_line s a b :
  storage_ok s → rows_all P s → has_line s a → has_line s b →
  wp (Storage.swap a b s) (λ s', same_lines s s' ∧
    ∀ l, has_line s l → line_row s' l =
      if l =? a then line_row s b else if l =? b then line_row s a else line_row s l).
Proof.
  intros Hs HP Ha Hb. wp_call (swap_rows s a b Hs Ha Hb).
  intros s' (Hs' & Hsw & Hv & Hl & _ & HF).
  assert (same_lines s s') as Hsame by (split; auto; by apply HF).
  split; [done|]. intros l Hhl. unfold line_row. rewrite (same_pos _ _ _ Hsame).
  destruct (line_row_is_Some s a Hs Ha) as [x Hx].
  destruct (line_row_is_Some s b Hs Hb) as [y Hy]. unfold line_row in Hx, Hy.
  rewrite (swap_at_ok _ _ _ x y Hx Hy) in Hsw. injection Hsw as <-.
  pose proof (pos_inj s). rewrite !list_lookup_insert, length_insert.
  pose proof (lookup_lt_Some _ _ _ Hx). pose proof (lookup_lt_Some _ _ _ Hy).
  destruct (l =? b) eqn:Eb; bools.
  - subst l. rewrite decide_True by done. destruct (b =? a) eqn:Ea; bools; [|done].
    subst b. congruence.
  - rewrite decide_False by (intros [E _]; apply Eb; symmetry; eauto).
    destruct (l =? a) eqn:Ea; bools.
    + subst l. rewrite decide_True by done. by rewrite Hy.
    + rewrite decide_False by (intros [E _]; apply Ea; symmetry; eauto). done.
Qed.

Lemma index_mut_line s l (f : Row.t T → option (Row.t T)) (Q : Row.t T → Row.t T → Prop) :
  storage_ok s → rows_all P s → has_line s l →
  (∀ r, P r → wp (f r) (λ r', P r' ∧ Q r r')) →
  wp (Storage.index_mut l f s) (λ s', same_lines s s' ∧
    (∃ r r', line_row s l = Some r ∧ line_row s' l = Some r' ∧ P r ∧ Q r r') ∧
    ∀ l', has_line s l' → l' ≠ l → line_row s' l' = line_row s l').
Proof.
  intros Hs HP Hl Hf. destruct (line_row_is_Some s l Hs Hl) as [r Hr].
  pose proof (line_row_all _ _ _ Hs HP Hr) as HPr. pose proof (Hf r HPr) as Hfr.
  destruct (f r) as [r'|] eqn:E; [|done]. destruct Hfr as [HPr' HQ].
  wp_call (index_mut_rows s l f r r' Hs Hl Hr E).
  intros s' (Hs' & Er & Hv & Hlen & Hin).
  assert (same_lines s s') as Hsame.
  { split; [done| |done|done]. unfold rows_all. rewrite Hin. by apply Forall_insert. }
  split; [done|]. unfold line_row in *. rewrite Er. split.
  - exists r, r'. rewrite (same_pos _ _ _ Hsame).
    rewrite list_lookup_insert_eq by (eapply lookup_lt_Some; eauto). done.
  - intros l' Hl' Hne. rewrite (same_pos _ _ _ Hsame).
    rewrite list_lookup_insert_ne; [done|]. intros Epos. apply Hne. symmetry.
    by apply (pos_inj s).
Qed.
End Lines.
Arguments same_lines {T} P s s'.

(** Facts about a state with the same lines, as numbers. *)
Ltac same H :=
  pose proof (same_visible _ _ H); pose proof (same_len _ _ H);
  pose proof (same_ok _ _ H); pose proof (same_all _ _ H).

(** * Loops of swaps: moving a range of lines over a gap *)

Section Shifts.
Context {T : Type} {P : Row.t T → Prop}.
Implicit Types (s : Storage.t T) (l a b : Z) (n : nat).
#[local] Open Scope Z_scope.

(** Swapping [i] with [i + n], upwards: the lines [a..b] receive the lines [n] below, the
    displaced ones end up in [b..b+n]. *)
Lemma swap_up_loop s a b n :
  storage_ok s → rows_all P s → a <= b →
  (∀ l, a <= l < b + Z.of_nat n → has_line s l) →
  wp (foldM (λ i raw, j ← Line.add_usize i n; Storage.swap i j raw) (zrange a b) s)
    (λ s', same_lines P s s' ∧ ∀ l, has_line s l →
      (a <= l < b → line_row s' l = line_row s (l + Z.of_nat n)) ∧
      (l < a ∨ b + Z.of_nat n <= l → line_row s' l = line_row s l) ∧
      (b <= l < b + Z.of_nat n → ∃ l0, a <= l0 < a + Z.of_nat n ∧
        line_row s' l = line_row s l0)).
Proof.
  intros Hs HP Hab Hlines.
  set (I := λ (k : nat) s', same_lines P s s' ∧ ∀ l, has_line s l →
      (a <= l < a + Z.of_nat k → line_row s' l = line_row s (l + Z.of_nat n)) ∧
      (l < a ∨ a + Z.of_nat k + Z.of_nat n <= l → line_row s' l = line_row s l) ∧
      (a + Z.of_nat k <= l < a + Z.of_nat k + Z.of_nat n →
        ∃ l0, a <= l0 < a + Z.of_nat n ∧ line_row s' l = line_row s l0)).
  eapply wp_mono; [apply (wp_foldM _ _ I)|].
  - split; [by apply same_refl|]. intros l Hl. split; [lia|]. split; [done|].
    intros ?. exists l. split; [lia|done].
  - intros k i s1 Hi [Hsame Hrows]. apply lookup_zrange in Hi as [-> Hlt].
    same Hsame. pose proof (st_small s Hs). pose proof (st_visible s Hs).
    assert (has_line s (a + Z.of_nat k)) as Hi by (apply Hlines; lia).
    assert (has_line s (a + Z.of_nat k + Z.of_nat n)) as Hj by (apply Hlines; lia).
    pose proof Hi as Hi'. pose proof Hj as Hj'. unfold has_line in Hi', Hj'.
    unfold Line.add_usize. wp_step. casts. wp_step.
    apply (same_has _ _ _ Hsame) in Hi. apply (same_has _ _ _ Hsame) in Hj.
    wp_call (swap_line s1 _ _ ltac:(done) ltac:(done) Hi Hj).
    intros s2 [Hsame2 Hsw]. split; [by eapply same_trans|].
    intros l Hl. rewrite (Hsw l (proj2 (same_has _ _ _ Hsame) Hl)).
    apply (same_has _ _ _ Hsame) in Hi. apply (same_has _ _ _ Hsame) in Hj.
    pose proof (Hrows _ Hi) as (Ri1 & Ri2 & Ri3).
    pose proof (Hrows _ Hj) as (Rj1 & Rj2 & Rj3).
    pose proof (Hrows _ Hl) as (Rl1 & Rl2 & Rl3).
    destruct (l =? a + Z.of_nat k) eqn:E1; bools.
    { subst l. split; [intros; apply Rj2; lia|]. split; [intros; rewrite Rj2 by lia|].
      - f_equal. lia.
      - intros. lia. }
    destruct (l =? a + Z.of_nat k + Z.of_nat n) eqn:E2; bools.
    { subst l. split; [lia|]. split; [lia|]. intros _. apply Ri3. lia. }
    split; [intros; apply Rl1; lia|]. split; [intros; apply Rl2; lia|].
    intros. apply Rl3. lia.
  - intros s' [Hsame Hrows]. split; [done|]. intros l Hl.
    destruct (Hrows l Hl) as (R1 & R2 & R3). rewrite length_zrange in *.
    replace (a + Z.of_nat (Z.to_nat (b - a))) with b in * by lia. done.
Qed.

(** Swapping [i] with [i - n], downwards: the mirror image. *)
Lemma swap_down_loop s a b n :
  storage_ok s → rows_all P s → a <= b →
  (∀ l, a - Z.of_nat n <= l < b → has_line s l) →
  wp (foldM (λ i raw, j ← Line.sub_usize i n; Storage.swap i j raw) (reverse (zrange a b)) s)
    (λ s', same_lines P s s' ∧ ∀ l, has_line s l →
      (a <= l < b → line_row s' l = line_row s (l - Z.of_nat n)) ∧
      (l < a - Z.of_nat n ∨ b <= l → line_row s' l = line_row s l) ∧
      (a - Z.of_nat n <= l < a → ∃ l0, b - Z.of_nat n <= l0 < b ∧
        line_row s' l = line_row s l0)).
Proof.
  intros Hs HP Hab Hlines.
  set (I := λ (k : nat) s', same_lines P s s' ∧ ∀ l, has_line s l →
      (b - Z.of_nat k <= l < b → line_row s' l = line_row s (l - Z.of_nat n)) ∧
      (l < b - Z.of_nat k - Z.of_nat n ∨ b <= l → line_row s' l = line_row s l) ∧
      (b - Z.of_nat k - Z.of_nat n <= l < b - Z.of_nat k →
        ∃ l0, b - Z.of_nat n <= l0 < b ∧ line_row s' l = line_row s l0)).
  eapply wp_mono; [apply (wp_foldM _ _ I)|].
  - split; [by apply same_refl|]. intros l Hl. split; [lia|]. split; [done|].
    intros ?. exists l. split; [lia|done].
  - intros k i s1 Hi [Hsame Hrows]. apply lookup_reverse_zrange in Hi as [-> Hlt].
    same Hsame. pose proof (st_small s Hs). pose proof (st_visible s Hs).
    assert (has_line s (b - 1 - Z.of_nat k)) as Hi by (apply Hlines; lia).
    assert (has_line s (b - 1 - Z.of_nat k - Z.of_nat n)) as Hj by (apply Hlines; lia).
    pose proof Hi as Hi'. pose proof Hj as Hj'. unfold has_line in Hi', Hj'.
    unfold Line.sub_usize. wp_step. casts. wp_step.
    apply (same_has _ _ _ Hsame) in Hi. apply (same_has _ _ _ Hsame) in Hj.
    wp_call (swap_line s1 _ _ ltac:(done) ltac:(done) Hi Hj).
    intros s2 [Hsame2 Hsw]. split; [by eapply same_trans|].
    intros l Hl. rewrite (Hsw l (proj2 (same_has _ _ _ Hsame) Hl)).
    apply (same_has _ _ _ Hsame) in Hi. apply (same_has _ _ _ Hsame) in Hj.
    pose proof (Hrows _ Hi) as (Ri1 & Ri2 & Ri3).
    pose proof (Hrows _ Hj) as (Rj1 & Rj2 & Rj3).
    pose proof (Hrows _ Hl) as (Rl1 & Rl2 & Rl3).
    destruct (l =? b - 1 - Z.of_nat k) eqn:E1; bools.
    { subst l. split; [intros; apply Rj2; lia|]. split; [intros; rewrite Rj2 by lia|].
      - f_equal. lia.
      - intros. lia. }
    destruct (l =? b - 1 - Z.of_nat k - Z.of_nat n) eqn:E2; bools.
    { subst l. split; [lia|]. split; [lia|]. intros _. apply Ri3. lia. }
    split; [intros; apply Rl1; lia|]. split; [intros; apply Rl2; lia|].
    intros. apply Rl3. lia.
  - intros s' [Hsame Hrows]. split; [done|]. intros l Hl.
    destruct (Hrows l Hl) as (R1 & R2 & R3).
    rewrite length_reverse, length_zrange in *.
    replace (b - Z.of_nat (Z.to_nat (b - a))) with a in * by lia. done.
Qed.

(** Swapping [i] with [i - n], upwards: the lines [a..b] move [n] lines up, in order. *)
Lemma swap_fixed_loop s a b n :
  storage_ok s → rows_all P s → a <= b →
  (∀ l, a - Z.of_nat n <= l < b → has_line s l) →
  wp (foldM (λ i raw, j ← i32_sub i (Z.of_nat n); Storage.swap i j raw) (zrange a b) s)
    (λ s', same_lines P s s' ∧ ∀ l, has_line s l →
      (a - Z.of_nat n <= l < b - Z.of_nat n → line_row s' l = line_row s (l + Z.of_nat n)) ∧
      (l < a - Z.of_nat n → line_row s' l = line_row s l)).
Proof.
  intros Hs HP Hab Hlines.
  set (I := λ (k : nat) s', same_lines P s s' ∧ ∀ l, has_line s l →
      (a - Z.of_nat n <= l < a + Z.of_nat k - Z.of_nat n →
        line_row s' l = line_row s (l + Z.of_nat n)) ∧
      (l < a - Z.of_nat n ∨ a + Z.of_nat k <= l → line_row s' l = line_row s l)).
  eapply wp_mono; [apply (wp_foldM _ _ I)|].
  - split; [by apply same_refl|]. intros l Hl. split; [lia|done].
  - intros k i s1 Hi [Hsame Hrows]. apply lookup_zrange in Hi as [-> Hlt].
    same Hsame. pose proof (st_small s Hs). pose proof (st_visible s Hs).
    assert (has_line s (a + Z.of_nat k)) as Hi by (apply Hlines; lia).
    assert (has_line s (a + Z.of_nat k - Z.of_nat n)) as Hj by (apply Hlines; lia).
    pose proof Hi as Hi'. pose proof Hj as Hj'. unfold has_line in Hi', Hj'.
    wp_step. casts. wp_step.
    apply (same_has _ _ _ Hsame) in Hi. apply (same_has _ _ _ Hsame) in Hj.
    wp_call (swap_line s1 _ _ ltac:(done) ltac:(done) Hi Hj).
    intros s2 [Hsame2 Hsw]. split; [by eapply same_trans|].
    intros l Hl. rewrite (Hsw l (proj2 (same_has _ _ _ Hsame) Hl)).
    apply (same_has _ _ _ Hsame) in Hi. apply (same_has _ _ _ Hsame) in Hj.
    pose proof (Hrows _ Hi) as (Ri1 & Ri2). pose proof (Hrows _ Hj) as (Rj1 & Rj2).
    pose proof (Hrows _ Hl) as (Rl1 & Rl2).
    destruct (l =? a + Z.of_nat k) eqn:E1; bools.
    { subst l. split; [|lia]. intros ?. assert (n = 0%nat) as -> by lia.
      by rewrite Rj2 by lia. }
    destruct (l =? a + Z.of_nat k - Z.of_nat n) eqn:E2; bools.
    { subst l. split; [|lia]. intros _. rewrite Ri2 by lia. f_equal. lia. }
    split; [intros; apply Rl1; lia|]. intros; apply Rl2; lia.
  - intros s' [Hsame Hrows]. split; [done|]. intros l Hl.
    destruct (Hrows l Hl) as (R1 & R2). rewrite length_zrange in *.
    split; [intros; apply R1; lia|]. intros; apply R2; lia.
Qed.
End Shifts.

(** * The properties of the buffer, in terms of its lines *)

Section StorageProperties.
Context {T : Type} `{GL : GridCellLaws T}.
Implicit Types (s : Storage.t T) (l a b : Z) (n : nat).
#[local] Open Scope Z_scope.

(** Swapping two lines exchanges them and no others, and the raw pointer accesses stay inside
    the allocation. *)
Theorem swap_refines s a b :
  storage_ok s → has_line s a → has_line s b →
  wp (Storage.swap a b s) (λ s', storage_ok s' ∧
    ∀ l, has_line s l → Storage.index l s' =
      if l =? a then Storage.index b s
      else if l =? b then Storage.index a s else Storage.index l s).
Proof.
  intros Hs Ha Hb.
  assert (rows_all (λ _, True) s) as HT by (by apply Forall_true).
  wp_call (swap_line s a b Hs HT Ha Hb). intros s' [Hsame Hl].
  split; [by apply same_ok in Hsame|]. intros l Hhl. same Hsame.
  rewrite index_line; [|done|by apply (same_has _ _ _ Hsame)].
  rewrite (Hl l Hhl), !index_line by done. done.
Qed.

(** Rotating the ring by [n] in the other direction undoes a rotation, and a rotation moves
    every line it keeps by exactly [n]. *)
Theorem rotate_refines s n :
  storage_ok s → (n <= Storage.len s)%nat →
  wp (Storage.rotate (- Z.of_nat n) s) (λ s1, storage_ok s1 ∧
    (∀ l, has_line s l → has_line s (l + Z.of_nat n) →
      Storage.index l s1 = Storage.index (l + Z.of_nat n) s) ∧
    wp (Storage.rotate_down n s1) (λ s2, ∀ l, has_line s (l - Z.of_nat n) → has_line s l →
      Storage.index l s2 = Storage.index l s)).
Proof.
  intros Hs Hn. wp_call (rotate_up_rows s n Hs Hn). intros s1 (Hs1 & _ & Ev1 & El1 & R1).
  assert (∀ l, has_line s l → has_line s (l + Z.of_nat n) →
      Storage.index l s1 = Storage.index (l + Z.of_nat n) s) as Hup.
  { intros l Hl Hl'. unfold has_line in *. rewrite !index_line by (done || unfold has_line; lia).
    unfold line_row. rewrite R1 by (unfold pos; lia). f_equal. unfold pos. lia. }
  split; [done|]. split; [done|]. wp_call (rotate_down_rows s1 n Hs1).
  intros s2 (Hs2 & _ & Ev2 & El2 & R2) l Hl Hl'.
  replace (Storage.index l s) with (Storage.index (l - Z.of_nat n) s1).
  2: { rewrite Hup by (unfold has_line in *; lia). f_equal. lia. }
  unfold has_line in *. rewrite !index_line by (done || unfold has_line; lia).
  unfold line_row. rewrite R2 by (unfold pos; lia). f_equal. unfold pos. lia.
Qed.

(** Growing the buffer by [n] lines and shrinking it again gives back every line, even when
    the allocation is extended in between, or its cache dropped. *)
Theorem initialize_shrink_roundtrip columns s n :
  storage_ok s → rows_all (row_safe columns) s → (1 <= columns)%nat →
  (1 <= Storage.visible_lines s)%nat → Z.of_nat (Storage.len s + n) <= 268435455 →
  wp (s1 ← Storage.initialize n columns s; Storage.shrink_lines n s1) (λ s2, storage_ok s2 ∧
    Storage.len s2 = Storage.len s ∧ ∀ l, has_line s l → Storage.index l s2 = Storage.index l s).
Proof.
  intros Hs Hr Hc Hv Hn. pose proof (st_visible _ Hs). wp_step.
  wp_call (initialize_rows (columns:=columns) (P:=row_safe columns) s n Hs Hr Hc Hn).
  intros s1 (Hs1 & (new & Er & En) & _ & El & Ev).
  wp_call (shrink_lines_rows (P:=row_safe columns) s1 n Hs1); [lia|lia|].
  intros s2 (Hs2 & Er2 & El2 & Ev2 & _). split; [done|]. split; [lia|].
  intros l Hl. unfold has_line in Hl. rewrite !index_line by (done || unfold has_line; lia).
  unfold line_row. rewrite Er2, Er, El, <- (length_rows s Hs), take_app_length'.
  - f_equal. unfold pos. lia.
  - lia.
Qed.
End StorageProperties.

(** A ring of three rows that starts in the middle of its allocation. *)
Module StorageSample.
#[local] Existing Instance Sample.external.
Definition row (ch : char) : Row.t Cell := Row.mk [set_c ch Cell.default] 1.
Definition ring : Storage.t Cell := Storage.mk [row 97; row 98; row 99] 2 2 3.

Lemma ring_ok : storage_ok ring.
Proof. split; simpl; lia. Qed.
End StorageSample.

#[local] Existing Instance Sample.external.

Lemma swap_refines_witness :
  wp (Storage.swap (-1) 1 StorageSample.ring)
    (λ s, Storage.index (-1) s = Storage.index 1 StorageSample.ring).
Proof.
  eapply wp_mono; [apply (swap_refines StorageSample.ring (-1) 1)|].
  - apply StorageSample.ring_ok.
  - unfold has_line. simpl. lia.
  - unfold has_line. simpl. lia.
  - intros s [_ Hl]. rewrite (Hl (-1)%Z) by (unfold has_line; simpl; lia). reflexivity.
Defined.

Lemma rotate_refines_witness :
  wp (Storage.rotate (-1) StorageSample.ring)
    (λ s, Storage.index 0 s = Storage.index 1 StorageSample.ring).
Proof.
  eapply wp_mono; [apply (rotate_refines StorageSample.ring 1)|].
  - apply StorageSample.ring_ok.
  - simpl. lia.
  - intros s (_ & Hl & _). apply (Hl 0%Z); unfold has_line; simpl; lia.
Defined.

Lemma initialize_shrink_roundtrip_witness :
  wp (s ← Storage.initialize 2 1 StorageSample.ring; Storage.shrink_lines 2 s)
    (λ s, Storage.index 0 s = Storage.index 0 StorageSample.ring).
Proof.
  eapply wp_mono; [apply (initialize_shrink_roundtrip 1 StorageSample.ring 2)|].
  - apply StorageSample.ring_ok.
  - repeat constructor; simpl; lia.
  - lia.
  - simpl. lia.
  - simpl. lia.
  - intros s (_ & _ & Hl). apply Hl. unfold has_line. simpl. lia.
Defined.
