(* ===== verification/Grids.v ===== *)
(** The grid ([cutty_terminal/src/grid/mod.rs]): cursors, scrolling, clearing and iterators.

    A grid is a ring of rows of which the lowest [lines] are the viewport and the others the
    history, with two cursors and the offset of the displayed part.  The theorems describe each
    scroll by the rows it leaves at every line. *)
From S2P Require Import Prelude Index Cells Rows Storages.
#[local] Open Scope Z_scope.

(** [std::ops::Bound<Line>]. *)
Inductive Bound := Included (l : Z) | Excluded (l : Z) | Unbounded.

Inductive Scroll := ScrollDelta (count : Z) | PageUp | PageDown | Top | Bottom.

(** [struct Charsets]: an array of four character sets. *)
Module Charsets.
Section ops.
Context `{External}.
Definition t : Type := vec StandardCharset 4.
Definition default : t := vreplicate 4 StandardCharset_default.
Definition index (i : CharsetIndex) (s : t) : StandardCharset := s !!! charset_pos i.
Definition index_mut (i : CharsetIndex) (v : StandardCharset) (s : t) : t :=
  vinsert (charset_pos i) v s.
End ops.
End Charsets.

(** [struct Cursor<T>]. *)
Module Cursor.
Record t `{External} (T : Type) := mk {
  point : Point;
  template : T;
  charsets : Charsets.t;
  input_needs_wrap : bool;
}.
Arguments mk {_ T} _ _ _ _.
Arguments point {_ T} _.
Arguments template {_ T} _.
Arguments charsets {_ T} _.
Arguments input_needs_wrap {_ T} _.

Section ops.
Context `{External} {T : Type} `{GridCell T}.
Definition default : t T := mk Point.default cell_default Charsets.default false.
Definition set_point (p : Point) (s : t T) : t T :=
  mk p (template s) (charsets s) (input_needs_wrap s).
Definition set_line (l : Z) (s : t T) : t T := set_point (Pt l (column (point s))) s.
Definition set_column (c : nat) (s : t T) : t T := set_point (Pt (line (point s)) c) s.
Definition set_template (x : T) (s : t T) : t T :=
  mk (point s) x (charsets s) (input_needs_wrap s).
Definition set_charsets (x : Charsets.t) (s : t T) : t T :=
  mk (point s) (template s) x (input_needs_wrap s).
Definition set_input_needs_wrap (x : bool) (s : t T) : t T :=
  mk (point s) (template s) (charsets s) x.
End ops.
End Cursor.

Module Grid.
(** [struct Grid<T>]. *)
Record t `{External} (T : Type) := mk {
  cursor : Cursor.t T;
  saved_cursor : Cursor.t T;
  raw : Storage.t T;
  columns : nat;
  lines : nat;
  display_offset : nat;
  max_scroll_limit : nat;
}.
Arguments mk {_ T} _ _ _ _ _ _ _.
Arguments cursor {_ T} _.
Arguments saved_cursor {_ T} _.
Arguments raw {_ T} _.
Arguments columns {_ T} _.
Arguments lines {_ T} _.
Arguments display_offset {_ T} _.
Arguments max_scroll_limit {_ T} _.

(** [impl Dimensions for Grid<G>]. *)
#[export] Instance dimensions `{External} {T} : Dimensions (t T) := {
  total_lines g := Storage.len (raw g);
  screen_lines := lines;
  columns := columns;
}.

Section ops.
Context `{External} {T : Type} `{GridCell T}.
Implicit Types g : t T.

(** Field updates. *)
Definition set_cursor (x : Cursor.t T) g : t T :=
  mk x (saved_cursor g) (raw g) (columns g) (lines g) (display_offset g) (max_scroll_limit g).
Definition set_saved_cursor (x : Cursor.t T) g : t T :=
  mk (cursor g) x (raw g) (columns g) (lines g) (display_offset g) (max_scroll_limit g).
Definition set_raw (x : Storage.t T) g : t T :=
  mk (cursor g) (saved_cursor g) x (columns g) (lines g) (display_offset g)
    (max_scroll_limit g).
Definition set_columns (x : nat) g : t T :=
  mk (cursor g) (saved_cursor g) (raw g) x (lines g) (display_offset g) (max_scroll_limit g).
Definition set_lines (x : nat) g : t T :=
  mk (cursor g) (saved_cursor g) (raw g) (columns g) x (display_offset g)
    (max_scroll_limit g).
Definition set_display_offset (x : nat) g : t T :=
  mk (cursor g) (saved_cursor g) (raw g) (columns g) (lines g) x (max_scroll_limit g).
Definition set_max_scroll_limit (x : nat) g : t T :=
  mk (cursor g) (saved_cursor g) (raw g) (columns g) (lines g) (display_offset g) x.

Definition new (lines columns max_scroll_limit : nat) : option (t T) :=
  raw ← Storage.with_capacity lines columns;
  Some (mk Cursor.default Cursor.default raw columns lines 0 max_scroll_limit).

(** [self.raw[l].reset(&self.cursor.template)] and the loop over some lines. *)
Definition reset_line (template : T) (l : Z) (raw : Storage.t T) : option (Storage.t T) :=
  Storage.index_mut l (Row.reset template) raw.
Definition reset_lines (template : T) (ls : list Z) (raw : Storage.t T) :
    option (Storage.t T) :=
  foldM (reset_line template) ls raw.

Definition update_history (history : nat) g : option (t T) :=
  let current_history_size := history_size g in
  raw ← (if (history <? current_history_size)%nat
         then Storage.shrink_lines (current_history_size - history) (raw g)
         else Some (raw g));
  Some (set_max_scroll_limit history
          (set_display_offset (Nat.min (display_offset g) history) (set_raw raw g))).

Definition scroll_display (scroll : Scroll) g : option (t T) :=
  offset ← match scroll with
    | ScrollDelta count =>
        x ← i32_add (as_i32 (display_offset g)) count;
        Some (Nat.min (as_usize (Z.max x 0)) (history_size g))
    | PageUp => Some (Nat.min (display_offset g + lines g) (history_size g))
    | PageDown => Some (display_offset g - lines g)%nat
    | Top => Some (history_size g)
    | Bottom => Some 0%nat
    end;
  Some (set_display_offset offset g).

Definition increase_scroll_limit (count : nat) g : option (t T) :=
  room ← usize_sub (max_scroll_limit g) (history_size g);
  let count := Nat.min count room in
  if (count =? 0)%nat then Some g
  else raw ← Storage.initialize count (columns g) (raw g); Some (set_raw raw g).

Definition decrease_scroll_limit (count : nat) g : option (t T) :=
  let count := Nat.min count (history_size g) in
  if (count =? 0)%nat then Some g
  else
    raw ← Storage.shrink_lines (Nat.min count (history_size g)) (raw g);
    let g := set_raw raw g in
    Some (set_display_offset (Nat.min (display_offset g) (history_size g)) g).

(** The region is a pair [start..end]. *)
Definition scroll_down (region : Z * Z) (positions : nat) g : option (t T) :=
  let '(start, end_) := region in
  let template := Cursor.template (cursor g) in
  size ← i32_sub end_ start;
  if size <=? as_i32 positions then
    raw ← reset_lines template (zrange start end_) (raw g);
    Some (set_raw raw g)
  else if (max_scroll_limit g =? 0)%nat then
    let screen_lines := as_i32 (lines g) in
    raw ← foldM (λ i raw, j ← i32_sub i (as_i32 positions); Storage.swap i j raw)
            (zrange end_ screen_lines) (raw g);
    raw ← Storage.rotate_down positions raw;
    raw ← reset_lines template (Line.from <$> seq 0 positions) raw;
    raw ← foldM (λ i raw, j ← Line.add_usize i positions; Storage.swap i j raw)
            (zrange 0 start) raw;
    Some (set_raw raw g)
  else
    from ← Line.add_usize start positions;
    raw ← foldM (λ i raw, j ← Line.sub_usize i positions; Storage.swap i j raw)
            (reverse (zrange from end_)) (raw g);
    raw ← reset_lines template (reverse (zrange start from)) raw;
    Some (set_raw raw g).

Definition scroll_up (region : Z * Z) (positions : nat) g : option (t T) :=
  let '(start, end_) := region in
  let template := Cursor.template (cursor g) in
  size ← i32_sub end_ start;
  if (size <=? as_i32 positions) && negb (start =? 0) then
    raw ← reset_lines template (zrange start end_) (raw g);
    Some (set_raw raw g)
  else
    let g := if (display_offset g =? 0)%nat then g
             else set_display_offset
                    (Nat.min (display_offset g + positions) (max_scroll_limit g)) g in
    g ← (if start =? 0 then
           g ← increase_scroll_limit positions g;
           raw ← foldM (λ i raw, j ← Line.add_usize i positions; Storage.swap i j raw)
                   (reverse (zrange 0 start)) (raw g);
           raw ← Storage.rotate (- Z.of_nat positions) raw;
           let screen_lines := as_i32 (lines g) in
           raw ← foldM (λ i raw, j ← Line.sub_usize i positions; Storage.swap i j raw)
                   (reverse (zrange end_ screen_lines)) raw;
           Some (set_raw raw g)
         else
           last ← i32_sub end_ (as_i32 positions);
           raw ← foldM (λ i raw, j ← Line.add_usize i positions; Storage.swap i j raw)
                   (zrange start last) (raw g);
           Some (set_raw raw g));
    first ← i32_sub end_ (as_i32 positions);
    raw ← reset_lines template (zrange first end_) (raw g);
    Some (set_raw raw g).

(** [impl Index<Line>] and [impl Index<Point>] with their mutable versions. *)
Definition index (l : Z) g : option (Row.t T) := Storage.index l (raw g).
Definition index_mut (l : Z) (f : Row.t T → option (Row.t T)) g : option (t T) :=
  raw ← Storage.index_mut l f (raw g); Some (set_raw raw g).
Definition index_point (p : Point) g : option T :=
  r ← index (line p) g; Row.index (column p) r.
Definition index_mut_point (p : Point) (f : T → T) g : option (t T) :=
  index_mut (line p) (Row.index_mut (column p) f) g.

(** [*self.cursor_cell() = f(..)]. *)
Definition cursor_cell (f : T → T) g : option (t T) :=
  index_mut_point (Cursor.point (cursor g)) f g.
End ops.
(** [struct GridIterator], without its reference to the grid, which is an argument. *)
Module GridIterator.
Record t := mk { point : Point; end_ : Point }.

Section ops.
Context `{External} {T : Type} `{GridCell T}.
Implicit Types (g : Grid.t T) (it : t).

Definition cell g it : option T := Grid.index_point (point it) g.

(** The result is the item, [None] at the end, and the advanced iterator. *)
Definition next g it : option (option (Point * T) * t) :=
  if Point.leb (end_ it) (point it) then Some (None, it)
  else
    p ← (if (last_column g <=? column (point it))%nat
         then l ← i32_add (line (point it)) 1; Some (Pt l 0%nat)
         else Some (Pt (line (point it)) (column (point it) + 1)%nat));
    c ← Grid.index_point p g;
    Some (Some (p, c), mk p (end_ it)).

Definition prev g it : option (option (Point * T) * t) :=
  if Point.leb (point it) (Pt (topmost_line g) 0%nat) then Some (None, it)
  else
    p ← (if (column (point it) =? 0)%nat
         then l ← i32_sub (line (point it)) 1; Some (Pt l (last_column g))
         else Some (Pt (line (point it)) (column (point it) - 1)%nat));
    c ← Grid.index_point p g;
    Some (Some (p, c), mk p (end_ it)).

(** The lower and upper bound are equal. *)
Definition size_hint g it : option nat :=
  if Point.leb (end_ it) (point it) then Some 0%nat
  else if line (point it) =? line (end_ it) then
    usize_sub (column (end_ it)) (column (point it))
  else
    let cols_on_first_line := (Grid.columns g - (column (point it) + 1))%nat in
    delta ← i32_sub (line (end_ it)) (line (point it));
    middle_lines ← usize_sub (as_usize delta) 1;
    let cols_on_last_line := (column (end_ it) + 1)%nat in
    Some (cols_on_first_line + middle_lines * Grid.columns g + cols_on_last_line)%nat.
End ops.
End GridIterator.

Section more.
Context `{External} {T : Type} `{GridCell T}.
Implicit Types (g : Grid.t T).

Definition iter_from (p : Point) g : GridIterator.t :=
  GridIterator.mk p (Pt (bottommost_line g) (last_column g)).

Definition display_iter g : option GridIterator.t :=
  let last_column := last_column g in
  l ← i32_sub (- as_i32 (Grid.display_offset g)) 1;
  end_line ← Line.add_usize l (screen_lines g);
  let end_line := Z.min end_line (bottommost_line g) in
  Some (GridIterator.mk (Pt l last_column) (Pt end_line last_column)).

(** The scan of [clear_viewport]: backwards over empty cells of the viewport. The loop visits
    at most every cell once. *)
Fixpoint clear_scan (fuel : nat) g (it : GridIterator.t) : option GridIterator.t :=
  match fuel with
  | O => None
  | S fuel =>
      '(item, it) ← GridIterator.prev g it;
      match item with
      | None => Some it
      | Some (p, c) =>
          if negb (cell_is_empty c) || (line p <? 0) then Some it
          else clear_scan fuel g it
      end
  end.

Definition clear_viewport g : option (Grid.t T) :=
  l ← i32_sub (as_i32 (Grid.lines g)) 1;
  let end_ := Pt l (Grid.columns g) in
  it ← clear_scan (Grid.lines g * Grid.columns g + 2) g (iter_from end_ g);
  let p := GridIterator.point it in
  _ ← ensure (-1 <=? line p);
  x ← i32_add (line p) 1;
  let positions := as_usize x in
  g ← Grid.scroll_up (0, as_i32 (Grid.lines g)) positions g;
  rest ← usize_sub (Grid.lines g) positions;
  raw ← Grid.reset_lines (Cursor.template (Grid.cursor g)) (Line.from <$> seq 0 rest)
          (Grid.raw g);
  Some (Grid.set_raw raw g).

Definition clear_history g : option (Grid.t T) :=
  raw ← Storage.shrink_lines (history_size g) (Grid.raw g);
  Some (Grid.set_display_offset 0 (Grid.set_raw raw g)).

Definition reset g : option (Grid.t T) :=
  g ← clear_history g;
  let g := Grid.set_display_offset 0
             (Grid.set_cursor Cursor.default (Grid.set_saved_cursor Cursor.default g)) in
  raw ← Grid.reset_lines (Cursor.template (Grid.cursor g))
          (zrange (topmost_line g) (as_i32 (screen_lines g))) (Grid.raw g);
  Some (Grid.set_raw raw g).

Definition reset_region (from to : Bound) g : option (Grid.t T) :=
  start ← match from with
    | Included l => Some l
    | Excluded l => i32_add l 1
    | Unbounded => Some 0
    end;
  end_ ← match to with
    | Included l => i32_add l 1
    | Excluded l => Some l
    | Unbounded => Some (as_i32 (screen_lines g))
    end;
  _ ← ensure (start <? as_i32 (screen_lines g));
  _ ← ensure (end_ <=? as_i32 (screen_lines g));
  raw ← Grid.reset_lines (Cursor.template (Grid.cursor g)) (zrange start end_) (Grid.raw g);
  Some (Grid.set_raw raw g).

Definition truncate g : Grid.t T := Grid.set_raw (Storage.truncate (Grid.raw g)) g.

Definition initialize_all g : option (Grid.t T) :=
  let g := truncate g in
  n ← usize_sub (Grid.max_scroll_limit g) (history_size g);
  raw ← Storage.initialize n (Grid.columns g) (Grid.raw g);
  Some (Grid.set_raw raw g).
End more.
End Grid.
Export (hints) Grid.

#[global] Arguments Grid.scroll_up {_ _ _} _ _ _ : simpl never.
#[global] Arguments Grid.scroll_down {_ _ _} _ _ _ : simpl never.
#[global] Arguments Grid.reset_lines {_ _} _ _ _ : simpl never.
#[global] Arguments Grid.increase_scroll_limit {_ _ _} _ _ : simpl never.
#[global] Arguments Grid.decrease_scroll_limit {_ _} _ _ : simpl never.
#[global] Arguments Grid.update_history {_ _} _ _ : simpl never.
#[global] Arguments Grid.scroll_display {_ _} _ _ : simpl never.
#[global] Arguments Grid.index {_ _} _ _ : simpl never.
#[global] Arguments Grid.index_mut {_ _} _ _ _ : simpl never.
#[global] Arguments Grid.index_point {_ _} _ _ : simpl never.
#[global] Arguments Grid.index_mut_point {_ _} _ _ _ : simpl never.
#[global] Arguments Grid.cursor_cell {_ _} _ _ : simpl never.
#[global] Arguments Grid.clear_viewport {_ _ _} _ : simpl never.
#[global] Arguments Grid.clear_history {_ _} _ : simpl never.
#[global] Arguments Grid.reset {_ _ _} _ : simpl never.
#[global] Arguments Grid.reset_region {_ _ _} _ _ _ : simpl never.

(** * The invariant of grids *)

Definition point_in (lines columns : nat) (p : Point) : Prop :=
  0 <= line p < Z.of_nat lines ∧ (column p < columns)%nat.

Section GridInv.
Context `{External} {T : Type} `{GL : GridCellLaws T}.
Context {P : nat → Row.t T → Prop} {HP : ∀ n, RowInv n (P n)}.
Implicit Types (g : Grid.t T) (l : Z).

(** [P n] is the property kept for rows of width [n]. The offset of the displayed part is
    bounded by the limit of the history. *)
Record grid_ok g : Prop := {
  g_storage : storage_ok (Grid.raw g);
  g_rows : rows_all (P (Grid.columns g)) (Grid.raw g);
  g_visible : Storage.visible_lines (Grid.raw g) = Grid.lines g;
  g_lines : (1 <= Grid.lines g)%nat;
  g_columns : (1 <= Grid.columns g)%nat;
  g_history : (Storage.len (Grid.raw g) <= Grid.lines g + Grid.max_scroll_limit g)%nat;
  g_small : Z.of_nat (Grid.lines g + Grid.max_scroll_limit g) <= 268435455;
  g_offset : (Grid.display_offset g <= Grid.max_scroll_limit g)%nat;
  g_cursor : point_in (Grid.lines g) (Grid.columns g) (Cursor.point (Grid.cursor g));
  g_saved : point_in (Grid.lines g) (Grid.columns g) (Cursor.point (Grid.saved_cursor g));
}.

Definition grid_row g l : option (Row.t T) := line_row (Grid.raw g) l.

(** A row that has just been reset. *)
Definition is_blank (columns : nat) (template : T) (r : Row.t T) : Prop :=
  ∃ r0, P columns r0 ∧ Row.reset template r0 = Some r.

Lemma grid_dims g : grid_ok g → dims_ok g.
Proof.
  intros Hg. destruct Hg as [Hs Hr Hv Hl Hc Hh Hsm _ _ _]. storage_cases Hs.
  split; simpl; lia.
Qed.

Lemma grid_has_line g l :
  grid_ok g → has_line (Grid.raw g) l ↔ topmost_line g <= l <= bottommost_line g.
Proof.
  intros Hg. dims (grid_dims g Hg). destruct Hg. unfold has_line. simpl in *. lia.
Qed.

Lemma in_view_has_line g l : grid_ok g → 0 <= l < Z.of_nat (Grid.lines g) →
  has_line (Grid.raw g) l.
Proof.
  intros [Hs _ Hv _ _ _ _ _ _ _] Hl. storage_cases Hs. unfold has_line. lia.
Qed.

Lemma reset_lines_spec columns template ls (s : Storage.t T) :
  storage_ok s → rows_all (P columns) s → (∀ l, l ∈ ls → has_line s l) →
  wp (Grid.reset_lines template ls s) (λ s', same_lines (P columns) s s' ∧
    ∀ l, has_line s l →
      (l ∈ ls → ∃ r, line_row s' l = Some r ∧ is_blank columns template r) ∧
      (l ∉ ls → line_row s' l = line_row s l)).
Proof using HP.
  revert s. induction ls as [|i ls IH]; intros s Hs Hr Hls; unfold Grid.reset_lines; simpl.
  { split; [by apply same_refl|]. intros l Hl. split; [by intros ?%elem_of_nil|done]. }
  wp_step. unfold Grid.reset_line.
  wp_call (index_mut_line s i _ (λ r r', Row.reset template r = Some r') Hs Hr).
  { apply Hls. by left. }
  { intros r HPr. pose proof (inv_reset template r HPr) as Hres.
    by destruct (Row.reset template r). }
  intros s1 (Hsame & (r & r' & Er & Er' & HPr & Eres) & Hother). same Hsame.
  wp_call (IH s1); [done|done| |].
  { intros l Hl. apply (same_has _ _ _ Hsame). apply Hls. by right. }
  intros s2 [Hsame2 Hrows]. split; [by eapply same_trans|].
  intros l Hl. destruct (Hrows l) as [Hin Hout]; [by apply (same_has _ _ _ Hsame)|].
  destruct (decide (l ∈ ls)) as [Hmem|Hmem].
  { split; [auto|]. intros Hn. exfalso. apply Hn. by right. }
  rewrite (Hout Hmem). split.
  - intros [->|?]%elem_of_cons; [|done]. exists r'. split; [done|]. by exists r.
  - intros Hn. apply Hother; [done|]. intros ->. apply Hn. by left.
Qed.

(** With the full invariant of rows a blank row has only blank cells. *)
Lemma set_raw_ok g s :
  grid_ok g → same_lines (P (Grid.columns g)) (Grid.raw g) s →
  grid_ok (Grid.set_raw s g).
Proof. intros [] Hsame. same Hsame. split; simpl; auto; lia. Qed.

Lemma set_display_offset_ok g n :
  grid_ok g → (n <= Grid.max_scroll_limit g)%nat → grid_ok (Grid.set_display_offset n g).
Proof. intros [] Hn. split; simpl; auto. Qed.

Lemma set_cursor_ok g x :
  grid_ok g → point_in (Grid.lines g) (Grid.columns g) (Cursor.point x) →
  grid_ok (Grid.set_cursor x g).
Proof. intros [] Hn. split; simpl; auto. Qed.

Lemma set_saved_cursor_ok g x :
  grid_ok g → point_in (Grid.lines g) (Grid.columns g) (Cursor.point x) →
  grid_ok (Grid.set_saved_cursor x g).
Proof. intros [] Hn. split; simpl; auto. Qed.
End GridInv.
Arguments grid_ok {_ _} P g.
Arguments is_blank {_ _} P columns template r.

(** * Scrolling *)

Section Scrolling.
Context `{External} {T : Type} `{GL : GridCellLaws T}.
Context {P : nat → Row.t T → Prop} {HP : ∀ n, RowInv n (P n)}.
Implicit Types (g : Grid.t T) (l start : Z) (n : nat).

(** The fields a scroll leaves alone. *)
Record same_frame g g' : Prop := {
  sf_cursor : Grid.cursor g' = Grid.cursor g;
  sf_saved : Grid.saved_cursor g' = Grid.saved_cursor g;
  sf_columns : Grid.columns g' = Grid.columns g;
  sf_lines : Grid.lines g' = Grid.lines g;
  sf_limit : Grid.max_scroll_limit g' = Grid.max_scroll_limit g;
}.

Lemma same_frame_refl g : same_frame g g.
Proof. done. Qed.

Lemma same_frame_trans g1 g2 g3 : same_frame g1 g2 → same_frame g2 g3 → same_frame g1 g3.
Proof. intros [] []. split; congruence. Qed.

(** The offset of the display follows the text while the display is scrolled back. *)
Definition scrolled_offset g n : nat :=
  if (Grid.display_offset g =? 0)%nat then 0%nat
  else Nat.min (Grid.display_offset g + n) (Grid.max_scroll_limit g).

Lemma increase_scroll_limit_ok g n :
  grid_ok P g →
  wp (Grid.increase_scroll_limit n g) (λ g', grid_ok P g' ∧ same_frame g g' ∧
    Grid.display_offset g' = Grid.display_offset g ∧
    Storage.len (Grid.raw g') = Nat.min (Storage.len (Grid.raw g) + n)
                                  (Grid.lines g + Grid.max_scroll_limit g) ∧
    ∀ l, has_line (Grid.raw g) l → grid_row g' l = grid_row g l).
Proof using HP.
  intros Hg. pose proof Hg as [Hs Hr Hv Hl Hc Hh Hsm Ho Hcu Hsa].
  unfold Grid.increase_scroll_limit, history_size. simpl. storage_cases Hs.
  wp_step. wp_step. cbv zeta. destruct (_ =? 0)%nat eqn:E; bools.
  { wp_step. split; [done|]. split; [done|]. split; [done|]. split; [lia|done]. }
  wp_step. pose proof (g_storage g Hg) as Hs.
  wp_call (initialize_rows (Grid.raw g) _ Hs Hr Hc); [lia|].
  intros s (Hs' & (new & Er & En) & Hr' & El & Ev). wp_step.
  split; [split; simpl; auto; lia|]. split; [done|]. split; [done|]. split; [simpl; lia|].
  intros l Hhl. unfold grid_row, line_row. simpl. rewrite Er.
  assert (pos s l = pos (Grid.raw g) l) as -> by (unfold pos; by rewrite Ev).
  apply lookup_app_l. rewrite length_rows by done. by apply pos_lt.
Qed.

(** What scrolling does to the lines of a grid. The lines of the region move, the uncovered ones
    are blank, and the lines outside of the region stay; a region that starts at the top of the
    screen moves into the history. *)
Definition blank_line g g' l : Prop :=
  ∃ r, grid_row g' l = Some r ∧
    is_blank P (Grid.columns g) (Cursor.template (Grid.cursor g)) r.

Definition scrolled_up g (start end_ : Z) n g' : Prop :=
  ∀ l, topmost_line g' <= l <= bottommost_line g' →
    (start = 0 ∨ start <= l → l < end_ - Z.of_nat n →
      grid_row g' l = grid_row g (l + Z.of_nat n)) ∧
    (Z.max start (end_ - Z.of_nat n) <= l < end_ → blank_line g g' l) ∧
    (end_ <= l ∨ start ≠ 0 ∧ l < start → grid_row g' l = grid_row g l).

Definition scrolled_down g (start end_ : Z) n g' : Prop :=
  ∀ l, topmost_line g' <= l <= bottommost_line g' →
    (start + Z.of_nat n <= l < end_ → grid_row g' l = grid_row g (l - Z.of_nat n)) ∧
    (start <= l < Z.min end_ (start + Z.of_nat n) → blank_line g g' l) ∧
    (end_ <= l ∨ l < start → grid_row g' l = grid_row g l).

Lemma scroll_up_top_spec g (end_ : Z) n :
  grid_ok P g → Z.of_nat n <= end_ <= Z.of_nat (Grid.lines g) →
  wp (Grid.scroll_up (0, end_) n g) (λ g', grid_ok P g' ∧ same_frame g g' ∧
    Grid.display_offset g' = scrolled_offset g n ∧
    history_size g' = Nat.min (history_size g + n) (Grid.max_scroll_limit g) ∧
    scrolled_up g 0 end_ n g').
Proof using HP.
  intros Hg Hn. unfold Grid.scroll_up. pose proof (g_small _ Hg).
  wp_step. wp_step. cbn [Z.eqb negb]. rewrite andb_false_r.
  match goal with |- context [if (Grid.display_offset g =? 0)%nat then g else ?x] =>
    set (g0 := if (Grid.display_offset g =? 0)%nat then g else x) end.
  assert (grid_ok P g0 ∧ same_frame g g0 ∧ Grid.raw g0 = Grid.raw g ∧
          Grid.display_offset g0 = scrolled_offset g n) as (Hg0 & Hf0 & Eraw & Eoff).
  { unfold g0, scrolled_offset. destruct (_ =? 0)%nat eqn:E; bools; [done|].
    split; [apply set_display_offset_ok; [done|lia]|done]. }
  clearbody g0. wp_step. wp_step.
  wp_call (increase_scroll_limit_ok g0 n Hg0).
  intros g1 (Hg1 & Hf1 & Eo1 & El1 & Erow1).
  pose proof (same_frame_trans _ _ _ Hf0 Hf1) as Hf. rewrite Eraw in El1.
  destruct Hf as [Fcu Fsa Fco Fli Fmax]. destruct Hf0 as [_ _ _ Fli0 Fmax0].
  pose proof (g_storage _ Hg1) as Hs1. pose proof (g_rows _ Hg1) as Hr1.
  pose proof (g_visible _ Hg1) as Hv1. pose proof (g_visible _ Hg) as Hv.
  pose proof (g_history _ Hg) as Hh. pose proof (g_storage _ Hg) as Hs.
  pose proof (st_visible _ Hs).
  change (zrange 0 0) with (@nil Z). simpl reverse. simpl foldM. wp_step. wp_step. wp_step.
  wp_call (rotate_up_rows (Grid.raw g1) n Hs1); [lia|].
  intros s2 (Hs2 & Ei2 & Ev2 & El2 & Erow2). cbv zeta. wp_step. casts.
  assert (rows_all (P (Grid.columns g1)) s2) as Hr2 by (unfold rows_all; by rewrite Ei2).
  wp_call (swap_down_loop s2 end_ (Z.of_nat (Grid.lines g1)) n Hs2 Hr2); [lia| |].
  { intros l Hl. unfold has_line. lia. }
  intros s3 [Hsame3 Erow3]. wp_step. wp_step. wp_step. wp_step. same Hsame3.
  simpl Grid.raw.
  wp_call (reset_lines_spec (Grid.columns g1) _ _ s3); [done|done| |].
  { intros l Hl%elem_of_zrange. unfold has_line. lia. }
  intros s4 [Hsame4 Erow4]. wp_step. same Hsame4.
  assert (grid_ok P (Grid.set_raw s4 (Grid.set_raw s3 g1))) as Hg'.
  { destruct Hg1. split; simpl; auto; lia. }
  split; [done|]. split; [by split|]. split; [simpl; congruence|].
  split; [unfold history_size; simpl; lia|].
  intros l Hl. apply (grid_has_line _ _ Hg') in Hl. simpl in Hl.
  assert (∀ l', has_line s4 l' ↔ has_line s3 l') as E43 by (intros; unfold has_line; lia).
  assert (∀ l', has_line s3 l' ↔ has_line s2 l') as E32 by (intros; unfold has_line; lia).
  pose proof (proj1 (E43 _) Hl) as Hl3. pose proof (proj1 (E32 _) Hl3) as Hl2.
  destruct (Erow4 l Hl3) as [R4in R4out]. destruct (Erow3 l Hl2) as (R3a & R3b & _).
  unfold grid_row. simpl. setoid_rewrite elem_of_zrange in R4in.
  setoid_rewrite elem_of_zrange in R4out.
  assert (∀ l', has_line s2 l' → l' < Z.of_nat (Grid.lines g) - Z.of_nat n →
    line_row s2 l' = line_row (Grid.raw g) (l' + Z.of_nat n)) as Hshift.
  { intros l' Hl' Hlt. unfold line_row at 1. rewrite Erow2.
    - assert (pos s2 l' - n = pos (Grid.raw g1) (l' + Z.of_nat n))%nat as ->
        by (unfold pos; lia).
      specialize (Erow1 (l' + Z.of_nat n)). unfold grid_row in Erow1. rewrite Eraw in Erow1.
      apply Erow1. unfold has_line in *. lia.
    - unfold pos. lia.
    - rewrite <- El2. by apply pos_lt. }
  split; [|split].
  - intros _ Hlt. rewrite R4out by lia. rewrite R3b by lia. apply Hshift; [done|lia].
  - intros Hlt. unfold blank_line. rewrite <- Fco. destruct R4in as (r & Er & Hb); [lia|].
    exists r. done.
  - intros [Hlt|[? _]]; [|done]. rewrite R4out by lia.
    assert (has_line s2 (l - Z.of_nat n)) by (unfold has_line in *; lia).
    rewrite R3a by (unfold has_line in *; lia). rewrite Hshift; [|done|].
    + f_equal. lia.
    + unfold has_line in *. lia.
Qed.

(** The lines of a region that does not start at the top. *)
Lemma reset_region_lines g a b :
  grid_ok P g → 0 <= a → b <= Z.of_nat (Grid.lines g) →
  wp (Grid.reset_lines (Cursor.template (Grid.cursor g)) (zrange a b) (Grid.raw g))
    (λ raw, same_lines (P (Grid.columns g)) (Grid.raw g) raw ∧
      grid_ok P (Grid.set_raw raw g) ∧
      ∀ l, has_line (Grid.raw g) l →
        (a <= l < b → blank_line g (Grid.set_raw raw g) l) ∧
        (l < a ∨ b <= l → line_row raw l = line_row (Grid.raw g) l)).
Proof using HP.
  intros Hg Ha Hb.
  wp_call (reset_lines_spec (Grid.columns g) _ _ (Grid.raw g) (g_storage _ Hg) (g_rows _ Hg)).
  { intros l Hl%elem_of_zrange. apply (in_view_has_line (P:=P)); [done|lia]. }
  intros raw [Hsame Hl]. split; [done|]. split; [by apply set_raw_ok|].
  intros l Hhl. destruct (Hl l Hhl) as [Hin Hout]. split.
  - intros ?. apply Hin. apply elem_of_zrange. lia.
  - intros ?. apply Hout. rewrite elem_of_zrange. lia.
Qed.

Lemma has_line_of_view g s l :
  grid_ok P g → same_lines (P (Grid.columns g)) (Grid.raw g) s →
  topmost_line (Grid.set_raw s g) <= l <= bottommost_line (Grid.set_raw s g) →
  has_line (Grid.raw g) l.
Proof.
  intros Hg Hsame Hl. apply (same_has _ _ _ Hsame).
  by apply (grid_has_line (P:=P) _ _ (set_raw_ok _ _ Hg Hsame)) in Hl.
Qed.

Lemma scroll_up_region_spec g start (end_ : Z) n :
  grid_ok P g → 0 < start < end_ → end_ <= Z.of_nat (Grid.lines g) → Z.of_nat n <= I32_MAX →
  wp (Grid.scroll_up (start, end_) n g) (λ g', grid_ok P g' ∧ same_frame g g' ∧
    Grid.display_offset g' =
      (if end_ - start <=? Z.of_nat n then Grid.display_offset g else scrolled_offset g n) ∧
    history_size g' = history_size g ∧
    scrolled_up g start end_ n g').
Proof using HP.
  intros Hg Hse Hel Hn. unfold Grid.scroll_up. pose proof (g_small _ Hg).
  wp_step. wp_step. casts. rewrite (proj2 (Z.eqb_neq start 0)), andb_true_r by lia. simpl negb.
  destruct (end_ - start <=? Z.of_nat n) eqn:E; bools.
  { wp_step. wp_call (reset_region_lines g start end_ Hg); [lia|lia|].
    intros raw (Hsame & Hg' & Hl). same Hsame. wp_step.
    split; [done|]. split; [done|]. split; [done|]. split; [unfold history_size; simpl; lia|].
    intros l Hl'. apply (has_line_of_view _ _ _ Hg Hsame) in Hl'.
    destruct (Hl l Hl') as [Hin Hout]. split; [lia|]. split; intros; [apply Hin|apply Hout]; lia. }
  match goal with |- context [if (Grid.display_offset g =? 0)%nat then g else ?x] =>
    set (g0 := if (Grid.display_offset g =? 0)%nat then g else x) end.
  assert (grid_ok P g0 ∧ same_frame g g0 ∧ Grid.raw g0 = Grid.raw g ∧
          Grid.display_offset g0 = scrolled_offset g n) as (Hg0 & Hf0 & Eraw & Eoff).
  { unfold g0, scrolled_offset. destruct (_ =? 0)%nat eqn:E0; bools; [done|].
    split; [apply set_display_offset_ok; [done|lia]|done]. }
  clearbody g0. destruct Hf0 as [Fcu Fsa Fco Fli Fmax].
  wp_step. wp_step. wp_step. wp_step. rewrite Eraw, <- Fcu.
  wp_call (swap_up_loop (Grid.raw g) start (end_ - Z.of_nat n) n (g_storage _ Hg) (g_rows _ Hg));
    [lia| |].
  { intros l Hl. apply (in_view_has_line (P:=P)); [done|lia]. }
  intros s1 [Hsame1 Erow1]. wp_step. wp_step. casts. wp_step. wp_step.
  assert (grid_ok P (Grid.set_raw s1 g0)) as Hg1.
  { apply set_raw_ok; [done|]. rewrite Eraw, Fco. done. }
  wp_call (reset_region_lines (Grid.set_raw s1 g0) (end_ - Z.of_nat n) end_ Hg1);
    [lia|simpl; lia|].
  intros s2 (Hsame2 & Hg2 & Hl2). wp_step. same Hsame1. same Hsame2.
  split; [done|]. split; [by split|]. split; [done|].
  split; [unfold history_size; simpl; simpl in *; lia|].
  intros l Hl. apply (has_line_of_view _ _ _ Hg1 Hsame2) in Hl. simpl in Hl.
  destruct (Hl2 l Hl) as [R1 R2]. apply (same_has _ _ _ Hsame1) in Hl.
  destruct (Erow1 l Hl) as (S1 & S2 & S3). unfold grid_row, blank_line in *. simpl in *.
  split; [|split].
  - intros ? ?. rewrite R2 by lia. apply S1. lia.
  - intros ?. rewrite <- Fcu, <- Fco. apply R1. lia.
  - intros ?. rewrite R2 by lia. apply S2. lia.
Qed.

Definition scroll_up_post g start end_ n g' : Prop :=
  grid_ok P g' ∧ same_frame g g' ∧
  Grid.display_offset g' =
    (if negb (start =? 0) && (end_ - start <=? Z.of_nat n) then Grid.display_offset g
     else scrolled_offset g n) ∧
  history_size g' =
    (if start =? 0 then Nat.min (history_size g + n) (Grid.max_scroll_limit g)
     else history_size g) ∧
  scrolled_up g start end_ n g'.

Lemma scroll_up_ok g start (end_ : Z) n :
  grid_ok P g → 0 <= start < end_ → end_ <= Z.of_nat (Grid.lines g) → Z.of_nat n <= I32_MAX →
  (start = 0 → Z.of_nat n <= end_) →
  wp (Grid.scroll_up (start, end_) n g) (scroll_up_post g start end_ n).
Proof using HP.
  intros Hg Hse Hel Hn H0n. unfold scroll_up_post. destruct (start =? 0) eqn:E; bools; simpl.
  - subst start. apply scroll_up_top_spec; [done|lia].
  - apply scroll_up_region_spec; [done|lia|done|done].
Qed.

Definition scroll_down_post g start end_ n g' : Prop :=
  grid_ok P g' ∧ same_frame g g' ∧
  Grid.display_offset g' = Grid.display_offset g ∧
  history_size g' = history_size g ∧
  scrolled_down g start end_ n g'.

(** Without history the whole buffer is rotated and the lines outside of the region are swapped
    back to where they were. *)
Lemma scroll_down_rotates g start (end_ : Z) n :
  grid_ok P g → 0 <= start < end_ → end_ <= Z.of_nat (Grid.lines g) →
  Z.of_nat n < end_ - start → Grid.max_scroll_limit g = 0%nat →
  wp (Grid.scroll_down (start, end_) n g) (scroll_down_post g start end_ n).
Proof using HP.
  intros Hg Hse Hel Hn Hmax. unfold Grid.scroll_down. pose proof (g_small _ Hg).
  pose proof (g_history _ Hg). pose proof (g_visible _ Hg) as Hv.
  pose proof (st_visible _ (g_storage _ Hg)).
  wp_step. wp_step. casts. rewrite (proj2 (Z.leb_gt _ _) Hn), Hmax, Nat.eqb_refl.
  wp_step. wp_call (swap_fixed_loop (Grid.raw g) end_ (Z.of_nat (Grid.lines g)) n
    (g_storage _ Hg) (g_rows _ Hg)); [lia| |].
  { intros l Hl. apply (in_view_has_line (P:=P)); [done|lia]. }
  intros s1 [Hsame1 R1]. same Hsame1. wp_step.
  wp_call (rotate_down_rows s1 n); [done|].
  intros s2 (Hs2 & Ei2 & Ev2 & El2 & R2). wp_step.
  assert (rows_all (P (Grid.columns g)) s2) as Hr2 by (unfold rows_all; by rewrite Ei2).
  assert (∀ l, has_line s2 l → Z.of_nat n <= l → line_row s2 l = line_row s1 (l - Z.of_nat n))
    as Hshift.
  { intros l Hl Hnl. unfold line_row. unfold has_line in Hl.
    rewrite R2 by (unfold pos; lia). f_equal. unfold pos. lia. }
  wp_call (reset_lines_spec (Grid.columns g) _ _ s2 Hs2 Hr2).
  { intros l [k [-> Hk%elem_of_seq]]%list_elem_of_fmap. unfold Line.from, has_line. casts. lia. }
  intros s3 [Hsame3 R3]. same Hsame3. wp_step.
  assert (∀ l, l ∈ Line.from <$> seq 0 n ↔ 0 <= l < Z.of_nat n) as Hin.
  { intros l. rewrite list_elem_of_fmap. unfold Line.from. split.
    - intros (k & -> & Hk%elem_of_seq). casts. lia.
    - intros Hl. exists (Z.to_nat l). rewrite elem_of_seq. casts. lia. }
  wp_call (swap_up_loop s3 0 start n); [done|done|lia| |].
  { intros l Hl. unfold has_line. lia. }
  intros s4 [Hsame4 R4]. wp_step. same Hsame4.
  assert (same_lines (P (Grid.columns g)) (Grid.raw g) s4) as Hsame by (split; [done|done|lia..]).
  split; [by apply set_raw_ok|]. split; [done|]. split; [done|].
  split; [unfold history_size; simpl; lia|].
  intros l Hl. apply (has_line_of_view _ _ _ Hg Hsame) in Hl. unfold has_line in Hl.
  unfold blank_line, grid_row. simpl.
  assert (∀ l', 0 <= l' < Z.of_nat (Grid.lines g) → has_line (Grid.raw g) l' ∧
    has_line s1 l' ∧ has_line s2 l' ∧ has_line s3 l') as Hhas by (intros; unfold has_line; lia).
  assert (0 <= l < Z.of_nat (Grid.lines g)) as Hview by lia.
  destruct (Hhas l Hview) as (L0 & L1 & L2 & L3).
  destruct (R4 l L3) as (R4a & R4b & R4c). destruct (R3 l L2) as [_ R3b].
  rewrite Hin in R3b. split; [|split].
  - intros ?. rewrite R4b, R3b, Hshift by (done || lia). apply R1; [apply Hhas|]; lia.
  - intros ?. destruct R4c as (l0 & Hl0 & ->); [lia|].
    destruct (R3 l0) as [R3c _]; [apply Hhas; lia|]. apply R3c. apply Hin. lia.
  - intros [?|?].
    + rewrite R4b, R3b, Hshift by (done || lia). destruct (R1 (l - Z.of_nat n)) as [R1a _].
      { apply Hhas. lia. }
      rewrite R1a by lia. f_equal. lia.
    + rewrite R4a by lia. destruct (R3 (l + Z.of_nat n)) as [_ R3c]; [apply Hhas; lia|].
      rewrite R3c by (rewrite Hin; lia). rewrite Hshift by (lia || (apply Hhas; lia)).
      replace (l + Z.of_nat n - Z.of_nat n) with l by lia. apply R1; [done|lia].
Qed.

Lemma scroll_down_ok g start (end_ : Z) n :
  grid_ok P g → 0 <= start < end_ → end_ <= Z.of_nat (Grid.lines g) → Z.of_nat n <= I32_MAX →
  wp (Grid.scroll_down (start, end_) n g) (scroll_down_post g start end_ n).
Proof using HP.
  intros Hg Hse Hel Hn. pose proof (g_small _ Hg).
  destruct (Z.le_gt_cases (end_ - start) (Z.of_nat n)) as [Hfull|Hpart];
    [|destruct (decide (Grid.max_scroll_limit g = 0%nat)) as [Hmax|Hmax]].
  - unfold Grid.scroll_down. wp_step. wp_step. casts. rewrite (proj2 (Z.leb_le _ _) Hfull).
    wp_step. wp_call (reset_region_lines g start end_ Hg); [lia|lia|].
    intros raw (Hsame & Hg' & Hl). same Hsame. wp_step.
    split; [done|]. split; [done|]. split; [done|]. split; [unfold history_size; simpl; lia|].
    intros l Hl'. apply (has_line_of_view _ _ _ Hg Hsame) in Hl'.
    destruct (Hl l Hl') as [Hin Hout]. split; [lia|]. split; intros; [apply Hin|apply Hout]; lia.
  - by apply scroll_down_rotates.
  - unfold Grid.scroll_down. wp_step. wp_step. rewrite as_i32_small by lia.
    rewrite (proj2 (Z.leb_gt _ _) Hpart), (proj2 (Nat.eqb_neq _ _) Hmax).
    wp_step. unfold Line.add_usize at 1. casts. wp_step. wp_step.
    wp_call (swap_down_loop (Grid.raw g) (start + Z.of_nat n) end_ n
      (g_storage _ Hg) (g_rows _ Hg)); [lia| |].
    { intros l Hl. apply (in_view_has_line (P:=P)); [done|lia]. }
    intros s1 [Hsame1 R1]. same Hsame1. wp_step.
    wp_call (reset_lines_spec (Grid.columns g) _ _ s1); [done|done| |].
    { intros l Hl%elem_of_reverse%elem_of_zrange. apply (same_has _ _ _ Hsame1).
      apply (in_view_has_line (P:=P)); [done|lia]. }
    intros s2 [Hsame2 R2]. same Hsame2. wp_step.
    assert (same_lines (P (Grid.columns g)) (Grid.raw g) s2) as Hsame
      by (by eapply same_trans).
    split; [by apply set_raw_ok|]. split; [done|]. split; [done|].
    split; [unfold history_size; simpl; lia|].
    intros l Hl. apply (has_line_of_view _ _ _ Hg Hsame) in Hl.
    destruct (R1 l Hl) as (R1a & R1b & R1c). apply (same_has _ _ _ Hsame1) in Hl.
    destruct (R2 l Hl) as [R2a R2b]. rewrite elem_of_reverse, elem_of_zrange in R2a, R2b.
    unfold blank_line, grid_row. simpl. split; [|split].
    + intros ?. rewrite R2b by lia. apply R1a. lia.
    + intros ?. apply R2a. lia.
    + intros ?. rewrite R2b by lia. apply R1b. lia.
Qed.
End Scrolling.
Arguments scroll_up_post {_ _ _} P g start end_ n g'.
Arguments scroll_down_post {_ _ _} P g start end_ n g'.

(** * History, display offset and clearing *)

Section Clearing.
Context `{External} {T : Type} `{GL : GridCellLaws T}.
Context {P : nat → Row.t T → Prop} {HP : ∀ n, RowInv n (P n)}.
Implicit Types (g : Grid.t T) (l start : Z) (n : nat).

(** Keeping the lowest rows keeps their lines. *)
Lemma take_line_row (s s' : Storage.t T) k l :
  storage_ok s' → rows s' = take k (rows s) → Storage.len s' = k →
  Storage.visible_lines s' = Storage.visible_lines s →
  has_line s' l → line_row s' l = line_row s l.
Proof.
  intros Hs' Er Ek Ev Hl. pose proof (pos_lt _ _ Hs' Hl). unfold line_row.
  rewrite Er, lookup_take_lt by lia. unfold pos. by rewrite Ev.
Qed.

(** Dropping the [n] topmost lines of the history. *)
Lemma shrink_history_ok g n :
  grid_ok P g → (n <= history_size g)%nat →
  wp (Storage.shrink_lines n (Grid.raw g)) (λ raw, grid_ok P (Grid.set_raw raw g) ∧
    (∀ h, (Storage.len raw <= Grid.lines g + h)%nat → Z.of_nat (Grid.lines g + h) <= 268435455 →
      (Grid.display_offset g <= h)%nat →
      grid_ok P (Grid.set_max_scroll_limit h (Grid.set_raw raw g))) ∧
    history_size (Grid.set_raw raw g) = (history_size g - n)%nat ∧
    ∀ l, has_line raw l → line_row raw l = line_row (Grid.raw g) l).
Proof using HP.
  intros Hg Hn. pose proof Hg as [Hs Hr Hv Hl Hc Hh Hsm Ho Hcu Hsa].
  unfold history_size in *. simpl in *. pose proof (st_visible _ Hs).
  wp_call (shrink_lines_rows (P:=P (Grid.columns g)) (Grid.raw g) n Hs); [lia|lia|].
  intros raw (Hs' & Er & El & Ev & Hr'). specialize (Hr' Hr).
  split; [split; simpl; auto; lia|].
  split; [intros h ? ? ?; split; simpl; auto; lia|]. split; [lia|].
  intros l. by apply (take_line_row (Grid.raw g) raw (Storage.len (Grid.raw g) - n)).
Qed.

Lemma update_history_ok g h :
  grid_ok P g → Z.of_nat (Grid.lines g + h) <= 268435455 →
  wp (Grid.update_history h g) (λ g', grid_ok P g' ∧
    Grid.max_scroll_limit g' = h ∧
    history_size g' = Nat.min (history_size g) h ∧
    Grid.display_offset g' = Nat.min (Grid.display_offset g) h ∧
    Grid.cursor g' = Grid.cursor g ∧
    (Grid.lines g' = Grid.lines g ∧ Grid.columns g' = Grid.columns g) ∧
    ∀ l, has_line (Grid.raw g') l → grid_row g' l = grid_row g l).
Proof using HP.
  intros Hg Hh. unfold Grid.update_history. wp_step.
  assert (∀ raw, grid_ok P (Grid.set_raw raw g) →
    (Storage.len raw <= Grid.lines g + h)%nat →
    grid_ok P (Grid.set_max_scroll_limit h (Grid.set_display_offset
      (Nat.min (Grid.display_offset g) h) (Grid.set_raw raw g)))) as Hok.
  { intros raw [] ?. split; simpl in *; auto; lia. }
  destruct (h <? history_size g)%nat eqn:E; bools.
  - wp_call (shrink_history_ok g (history_size g - h) Hg); [lia|].
    intros raw (Hg' & _ & Eh & Hl). wp_step.
    unfold history_size in *. simpl in *. split; [apply Hok; [done|]|].
    { pose proof (g_visible _ Hg'). pose proof (st_visible _ (g_storage _ Hg')). simpl in *. lia. }
    split; [done|]. split; [lia|]. done.
  - wp_step. wp_step. unfold history_size in *. simpl in *. split; [apply Hok; [|lia]|].
    { by destruct g. }
    split; [done|]. split; [lia|]. done.
Qed.

Lemma decrease_scroll_limit_ok g n :
  grid_ok P g →
  wp (Grid.decrease_scroll_limit n g) (λ g', grid_ok P g' ∧ same_frame g g' ∧
    history_size g' = (history_size g - n)%nat ∧
    ∀ l, has_line (Grid.raw g') l → grid_row g' l = grid_row g l).
Proof using HP.
  intros Hg. unfold Grid.decrease_scroll_limit. cbv zeta.
  destruct (_ =? 0)%nat eqn:E; bools.
  { wp_step. split; [done|]. split; [done|]. split; [lia|done]. }
  rewrite <- Nat.min_assoc, Nat.min_id.
  wp_step. wp_call (shrink_history_ok g (Nat.min n (history_size g)) Hg); [lia|].
  intros raw (Hg' & _ & Eh & Hl). wp_step.
  split; [apply set_display_offset_ok; [done|]|].
  - pose proof (g_offset _ Hg). simpl. lia.
  - split; [done|]. split; [|done]. unfold history_size in *. simpl in *. lia.
Qed.

Lemma clear_history_ok g :
  grid_ok P g →
  wp (Grid.clear_history g) (λ g', grid_ok P g' ∧ same_frame g g' ∧
    history_size g' = 0%nat ∧ Grid.display_offset g' = 0%nat ∧
    ∀ l, 0 <= l < Z.of_nat (Grid.lines g) → grid_row g' l = grid_row g l).
Proof using HP.
  intros Hg. unfold Grid.clear_history. wp_step.
  wp_call (shrink_history_ok g (history_size g) Hg); [lia|].
  intros raw (Hg' & _ & Eh & Hl). wp_step.
  split; [apply set_display_offset_ok; [done|lia]|]. split; [done|].
  split; [unfold history_size in *; simpl in *; lia|]. split; [done|].
  intros l Hlv. apply Hl. by apply (in_view_has_line (P:=P) _ l Hg').
Qed.

(** [reset]: no history, both cursors at the origin and a blank screen. *)
Lemma grid_reset_ok g :
  grid_ok P g →
  wp (Grid.reset g) (λ g', grid_ok P g' ∧
    Grid.lines g' = Grid.lines g ∧ Grid.columns g' = Grid.columns g ∧
    Grid.max_scroll_limit g' = Grid.max_scroll_limit g ∧
    history_size g' = 0%nat ∧ Grid.display_offset g' = 0%nat ∧
    Grid.cursor g' = Cursor.default ∧ Grid.saved_cursor g' = Cursor.default ∧
    ∀ l, 0 <= l < Z.of_nat (Grid.lines g) →
      ∃ r, grid_row g' l = Some r ∧ is_blank P (Grid.columns g) cell_default r).
Proof using HP.
  intros Hg. unfold Grid.reset. wp_step. wp_call (clear_history_ok g Hg).
  intros g1 (Hg1 & [Fcu Fsa Fco Fli Fmax] & Eh & Eo & _). cbv zeta.
  set (g2 := Grid.set_display_offset _ _).
  assert (grid_ok P g2) as Hg2.
  { destruct Hg1. split; simpl; auto; try lia; split; simpl; lia. }
  wp_step. pose proof (g_small _ Hg).
  assert (zrange (topmost_line g2) (as_i32 (screen_lines g2))
          = zrange 0 (Z.of_nat (Grid.lines g))) as ->.
  { unfold topmost_line. change (history_size g2) with (history_size g1). rewrite Eh.
    change (screen_lines g2) with (Grid.lines g1). rewrite Fli. by casts. }
  wp_call (reset_region_lines g2 0 (Z.of_nat (Grid.lines g)) Hg2); [lia|simpl; lia|].
  intros raw (Hsame & Hg' & Hl). wp_step. same Hsame.
  split; [done|]. split; [done|]. split; [done|]. split; [done|].
  split; [unfold history_size in *; simpl in *; lia|]. split; [done|]. split; [done|].
  split; [done|]. intros l Hlv. rewrite <- Fco. apply (Hl l); [|done].
  apply (in_view_has_line (P:=P) _ l Hg2). simpl. lia.
Qed.

(** Where a bound of [reset_region] starts or ends. *)
Lemma reset_region_ok g from to (start end_ : Z) :
  grid_ok P g → 0 <= start < Z.of_nat (Grid.lines g) → end_ <= Z.of_nat (Grid.lines g) →
  match from with Included l => l = start | Excluded l => l + 1 = start
                | Unbounded => start = 0 end →
  match to with Included l => l + 1 = end_ | Excluded l => l = end_
              | Unbounded => end_ = Z.of_nat (Grid.lines g) end →
  -1 <= end_ →
  wp (Grid.reset_region from to g) (λ g', grid_ok P g' ∧ same_frame g g' ∧
    Grid.display_offset g' = Grid.display_offset g ∧
    history_size g' = history_size g ∧
    ∀ l, topmost_line g' <= l <= bottommost_line g' →
      (start <= l < end_ → blank_line (P:=P) g g' l) ∧
      (l < start ∨ end_ <= l → grid_row g' l = grid_row g l)).
Proof using HP.
  intros Hg Hst Hen Hfrom Hto Hlow. unfold Grid.reset_region. pose proof (g_small _ Hg).
  wp_step. apply wp_eq with start.
  { destruct from; simpl; [by rewrite Hfrom|rewrite i32_add_ok by lia; by rewrite Hfrom|by subst]. }
  wp_step. change (screen_lines g) with (Grid.lines g). apply wp_eq with end_.
  { destruct to; simpl; [rewrite i32_add_ok by lia; by rewrite Hto|by rewrite Hto|].
    casts. by rewrite Hto. }
  casts. wp_step. wp_step. wp_step. wp_step. wp_step.
  wp_call (reset_region_lines g start end_ Hg); [lia|lia|].
  intros raw (Hsame & Hg' & Hl). wp_step. same Hsame.
  split; [done|]. split; [done|]. split; [done|].
  split; [unfold history_size; simpl; lia|].
  intros l Hlv. apply (Hl l). by eapply has_line_of_view.
Qed.

Lemma scroll_display_ok g scroll :
  grid_ok P g →
  match scroll with ScrollDelta c => -1000000000 <= c <= 1000000000 | _ => True end →
  wp (Grid.scroll_display scroll g) (λ g', 
    g' = Grid.set_display_offset (Grid.display_offset g') g ∧
    Grid.display_offset g' = match scroll with
      | ScrollDelta c =>
          Z.to_nat (Z.max 0 (Z.min (Z.of_nat (Grid.display_offset g) + c)
                               (Z.of_nat (history_size g))))
      | PageUp => Nat.min (Grid.display_offset g + Grid.lines g) (history_size g)
      | PageDown => (Grid.display_offset g - Grid.lines g)%nat
      | Top => history_size g
      | Bottom => 0%nat
      end ∧
    (grid_ok P g')).
Proof using Type.
  intros Hg Hc. unfold Grid.scroll_display. pose proof (g_small _ Hg). pose proof (g_offset _ Hg).
  assert (history_size g <= Grid.max_scroll_limit g)%nat as Hh.
  { pose proof (g_history _ Hg). unfold history_size. simpl. lia. }
  assert (∀ n, (n <= Grid.max_scroll_limit g)%nat →
    grid_ok P (Grid.set_display_offset n g)) as Hok by (intros; by apply set_display_offset_ok).
  wp_step. destruct scroll as [c| | | |].
  2-5: repeat wp_step; (split; [done|]); (split; [done|]); apply Hok; lia.
  casts. wp_step. wp_step. casts. wp_step. wp_step.
  split; [done|]. split; [simpl; lia|]. apply Hok. lia.
Qed.
End Clearing.

(** * Iterators and [clear_viewport] *)

Section Iterating.
Context `{External} {T : Type} `{GL : GridCellLaws T}.
Context {P : nat → Row.t T → Prop} {HP : ∀ n, RowInv n (P n)}.
Implicit Types (g : Grid.t T) (it : Grid.GridIterator.t) (p q : Point) (l : Z).

Lemma grid_row_is_Some g l :
  grid_ok P g → topmost_line g <= l <= bottommost_line g →
  ∃ r, grid_row g l = Some r ∧ Grid.index l g = Some r ∧ P (Grid.columns g) r.
Proof using Type.
  intros Hg Hl. apply (grid_has_line (P:=P) _ _ Hg) in Hl. pose proof (g_storage _ Hg) as Hs.
  destruct (line_row_is_Some (Grid.raw g) l Hs Hl) as [r Hr]. exists r. split; [done|].
  unfold Grid.index. rewrite index_line by done. split; [done|].
  by apply (line_row_all _ l r Hs (g_rows _ Hg)).
Qed.

Lemma index_point_ok g p :
  grid_ok P g → in_grid g p → is_Some (Grid.index_point p g).
Proof using HP.
  intros Hg [Hl Hc]. destruct (grid_row_is_Some g (line p) Hg Hl) as (r & _ & E & HPr).
  unfold Grid.index_point. rewrite E. mrun. unfold Row.index.
  destruct (inv_safe r HPr) as [Hlen _ _]. apply lookup_lt_is_Some_2. unfold Row.len in Hlen.
  simpl in Hc. lia.
Qed.

(** One step forward in reading order, up to the end point. *)
Lemma next_ok g it :
  grid_ok P g → in_grid g (Grid.GridIterator.point it) → in_grid g (Grid.GridIterator.end_ it) →
  wp (Grid.GridIterator.next g it) (λ '(item, it'),
    Grid.GridIterator.end_ it' = Grid.GridIterator.end_ it ∧
    if Point.leb (Grid.GridIterator.end_ it) (Grid.GridIterator.point it)
    then item = None ∧ it' = it
    else ∃ c, item = Some (Grid.GridIterator.point it', c) ∧
      Grid.index_point (Grid.GridIterator.point it') g = Some c ∧
      in_grid g (Grid.GridIterator.point it') ∧
      lin g (Grid.GridIterator.point it') = lin g (Grid.GridIterator.point it) + 1).
Proof using HP.
  intros Hg Hp He. pose proof (grid_dims _ Hg) as Hd. dims Hd.
  unfold Grid.GridIterator.next. destruct (Point.leb _ _) eqn:E; [done|].
  destruct it as [p e]. simpl in *.
  assert (lin g p < lin g e) as Hlt.
  { destruct Hp as [_ Hpc], He as [_ Hec]. apply Z.ltb_lt.
    rewrite <- ltb_lin by done. unfold Point.leb, Point.ltb, Point.cmp in *.
    revert E. rewrite (Z.compare_antisym (line p)), (Nat.compare_antisym (column p)).
    by destruct (line p ?= line e), (column p ?= column e)%nat. }
  destruct p as [l c], e as [l' c'], Hp as [Hpl Hpc], He as [Hel Hec].
  unfold lin in Hlt. simpl in *. wp_step.
  destruct (last_column g <=? c)%nat eqn:Ec; bools; unfold last_column in Ec; simpl in Ec.
  - wp_step. wp_step. wp_step. wp_step.
    assert (in_grid g (Pt (l + 1) 0)) as Hin by (split; simpl; [nia|lia]).
    destruct (index_point_ok g _ Hg Hin) as [x Hx]. rewrite Hx. mrun.
    split; [done|]. exists x. split; [done|]. split; [done|]. split; [done|].
    unfold lin. simpl. nia.
  - wp_step. wp_step.
    assert (in_grid g (Pt l (c + 1))) as Hin by (split; simpl; lia).
    destruct (index_point_ok g _ Hg Hin) as [x Hx]. rewrite Hx. mrun.
    split; [done|]. exists x. split; [done|]. split; [done|]. split; [done|].
    unfold lin. simpl. lia.
Qed.

(** One step backwards; the start may be one column past the end of its line. *)
Lemma prev_ok g it :
  grid_ok P g →
  topmost_line g <= line (Grid.GridIterator.point it) <= bottommost_line g →
  (column (Grid.GridIterator.point it) <= Grid.columns g)%nat →
  wp (Grid.GridIterator.prev g it) (λ '(item, it'),
    Grid.GridIterator.end_ it' = Grid.GridIterator.end_ it ∧
    if decide (Grid.GridIterator.point it = first_point g)
    then item = None ∧ it' = it
    else ∃ c, item = Some (Grid.GridIterator.point it', c) ∧
      Grid.index_point (Grid.GridIterator.point it') g = Some c ∧
      in_grid g (Grid.GridIterator.point it') ∧
      lin g (Grid.GridIterator.point it') = lin g (Grid.GridIterator.point it) - 1).
Proof using HP.
  intros Hg Hl Hc. pose proof (grid_dims _ Hg) as Hd. dims Hd.
  unfold Grid.GridIterator.prev. destruct it as [[l c] e]. simpl in *.
  assert (Point.leb (Pt l c) (Pt (topmost_line g) 0%nat)
          = bool_decide (Pt l c = first_point g)) as ->.
  { unfold Point.leb, Point.cmp, first_point. simpl.
    destruct (Z.compare_spec l (topmost_line g)); [subst l|lia|].
    - destruct c; simpl; [by rewrite bool_decide_true|]. by rewrite bool_decide_false by congruence.
    - rewrite bool_decide_false by (intros [=]; lia). done. }
  case_bool_decide as E; [wp_step; cbn match; by rewrite decide_True by done|].
  wp_step. destruct (c =? 0)%nat eqn:Ec; bools.
  - assert (l ≠ topmost_line g) by (intros ->; apply E; unfold first_point; congruence).
    wp_step. wp_step. wp_step. wp_step.
    assert (in_grid g (Pt (l - 1) (last_column g))) as Hin
      by (unfold last_column; split; simpl; lia).
    destruct (index_point_ok g _ Hg Hin) as [x Hx]. rewrite Hx. mrun.
    split; [done|]. rewrite decide_False by done. exists x. split; [done|]. split; [done|]. split; [done|].
    unfold lin, last_column. simpl. nia.
  - wp_step. wp_step.
    assert (in_grid g (Pt l (c - 1))) as Hin by (split; simpl; lia).
    destruct (index_point_ok g _ Hg Hin) as [x Hx]. rewrite Hx. mrun.
    split; [done|]. rewrite decide_False by done. exists x. split; [done|]. split; [done|]. split; [done|].
    unfold lin. simpl. lia.
Qed.

(** The cells of the viewport after a position are empty. *)
Definition empty_after g (z : Z) : Prop :=
  ∀ p c, in_grid g p → 0 <= line p → z < lin g p → Grid.index_point p g = Some c →
    cell_is_empty c = true.

Lemma clear_scan_ok g it fuel :
  grid_ok P g →
  0 <= line (Grid.GridIterator.point it) <= bottommost_line g →
  (column (Grid.GridIterator.point it) <= Grid.columns g)%nat →
  lin g (Grid.GridIterator.point it) + 1 < Z.of_nat fuel →
  empty_after g (lin g (Grid.GridIterator.point it) - 1) →
  wp (Grid.clear_scan fuel g it) (λ it',
    -1 <= line (Grid.GridIterator.point it') <= bottommost_line g ∧
    (column (Grid.GridIterator.point it') < Grid.columns g)%nat ∧
    empty_after g (lin g (Grid.GridIterator.point it'))).
Proof using HP.
  intros Hg. pose proof (grid_dims _ Hg) as Hd. dims Hd. pose proof (g_columns _ Hg).
  revert it. induction fuel as [|fuel IH]; intros it Hl Hc Hfuel Hemp; simpl.
  { exfalso. unfold lin in Hfuel. nia. }
  wp_step. wp_call (prev_ok g it Hg); [lia|done|].
  intros [item it'] [_ Hspec]. destruct (decide _) as [E|E].
  { destruct Hspec as [-> ->]. wp_step. split; [lia|]. split; [rewrite E; simpl; lia|].
    intros p c Hp Hpl Hz. apply (Hemp p c Hp Hpl). lia. }
  destruct Hspec as (c & -> & Hc' & Hin & Hlin). destruct (negb _ || _) eqn:Estop.
  - wp_step. destruct Hin as [Hinl Hinc]. simpl in Hinc. split.
    + unfold lin in Hlin. simpl in Hlin. nia.
    + split; [lia|]. intros p c' Hp Hpl Hz. apply (Hemp p c' Hp Hpl). lia.
  - bools. destruct Hin as [Hinl Hinc]. simpl in Hinc. apply IH; [lia|lia|lia|].
    intros p c' Hp Hpl Hz Hcell.
    destruct (decide (lin g p = lin g (Grid.GridIterator.point it'))) as [Eq|Ne].
    + apply (lin_inj g) in Eq; [|apply Hp|done]. subst p. congruence.
    + apply (Hemp p c' Hp Hpl); [lia|done].
Qed.

Lemma clear_viewport_spec g :
  grid_ok P g →
  wp (Grid.clear_viewport g) (λ g', grid_ok P g' ∧ same_frame g g' ∧
    ∃ n : nat, (n <= Grid.lines g)%nat ∧
      empty_after g (Z.of_nat n * Z.of_nat (Grid.columns g) - 1) ∧
      Grid.display_offset g' = scrolled_offset g n ∧
      history_size g' = Nat.min (history_size g + n) (Grid.max_scroll_limit g) ∧
      ∀ l, topmost_line g' <= l <= bottommost_line g' →
        (l < 0 → grid_row g' l = grid_row g (l + Z.of_nat n)) ∧
        (0 <= l → blank_line (P:=P) g g' l)).
Proof using HP.
  intros Hg. pose proof (grid_dims _ Hg) as Hd. dims Hd. simpl in *.
  unfold Grid.clear_viewport. casts. wp_step. wp_step. wp_step.
  wp_call (clear_scan_ok g _ _ Hg); simpl; [lia|lia|unfold lin; simpl; nia| |].
  { intros p c [Hpl Hpc] Hl Hz _. exfalso. unfold lin in Hz. simpl in *. nia. }
  intros it (Hl & Hc & Hemp). wp_step. wp_step. wp_step. wp_step. casts.
  set (n := Z.to_nat _). wp_step.
  wp_call (scroll_up_ok g 0 (Z.of_nat (Grid.lines g)) n Hg); [lia|lia|lia|lia|].
  intros g1 (Hg1 & [Fcu Fsa Fco Fli Fmax] & Eo & Eh & Hup). wp_step. wp_step.
  assert (∀ l, l ∈ Line.from <$> seq 0 (Grid.lines g - n)
            ↔ 0 <= l < Z.of_nat (Grid.lines g) - Z.of_nat n) as Hin.
  { intros l. rewrite list_elem_of_fmap. unfold Line.from. split.
    - intros (k & -> & Hk%elem_of_seq). casts. lia.
    - intros ?. exists (Z.to_nat l). rewrite elem_of_seq. casts. lia. }
  wp_step. rewrite Fli. wp_call (reset_lines_spec (Grid.columns g1) _ _ (Grid.raw g1)
    (g_storage _ Hg1) (g_rows _ Hg1)).
  { intros l Hlv%Hin. apply (in_view_has_line (P:=P)); [done|lia]. }
  intros raw [Hsame Hrows]. wp_step. same Hsame.
  split; [by apply set_raw_ok|]. split; [by split|].
  exists n. split; [lia|]. split.
  { intros p c Hp Hpl Hz. apply (Hemp p c Hp Hpl). unfold lin in *. simpl in *.
    destruct Hp as [_ Hpc]. simpl in Hpc. nia. }
  split; [done|]. split; [unfold history_size in *; simpl in *; lia|].
  intros l Hlv. apply (has_line_of_view _ _ _ Hg1 Hsame) in Hlv.
  destruct (Hrows l Hlv) as [R1 R2]. rewrite Hin in R1, R2.
  apply (grid_has_line (P:=P) _ _ Hg1) in Hlv. destruct (Hup l Hlv) as (U1 & U2 & _).
  dims (grid_dims _ Hg1). simpl in *.
  unfold blank_line, grid_row in *. simpl. split; intros Hsign.
  - rewrite R2 by lia. apply U1; lia.
  - destruct (decide (l < Z.of_nat (Grid.lines g) - Z.of_nat n)) as [Hlt|Hge].
    + rewrite <- Fco, <- Fcu. apply R1. lia.
    + rewrite R2 by lia. apply U2. lia.
Qed.
End Iterating.

(** * New grids, and a concrete one *)

Section New.
Context `{External} {T : Type} `{GL : GridCellLaws T}.
Context {P : nat → Row.t T → Prop} {HP : ∀ n, RowInv n (P n)}.

Lemma grid_new_ok lines columns max_scroll_limit :
  (1 <= lines)%nat → (1 <= columns)%nat → Z.of_nat (lines + max_scroll_limit) <= 268435455 →
  wp (Grid.new lines columns max_scroll_limit) (λ g, grid_ok P g ∧
    Grid.lines g = lines ∧ Grid.columns g = columns ∧
    Grid.max_scroll_limit g = max_scroll_limit ∧ history_size g = 0%nat ∧
    Grid.display_offset g = 0%nat ∧ Grid.cursor g = Cursor.default ∧
    ∀ l, 0 <= l < Z.of_nat lines →
      grid_row g l = Some (Row.mk (replicate columns cell_default) 0)).
Proof using HP GL.
  intros Hl Hc Hs. unfold Grid.new. wp_step.
  wp_call (with_capacity_ok (columns:=columns) (P:=P columns) lines Hl Hc); [lia|].
  intros s (Hs' & El & Ev & Ei & Hr). wp_step.
  assert (grid_ok P (Grid.mk Cursor.default Cursor.default s columns lines 0 max_scroll_limit))
    as Hg by (split; simpl; auto; try lia; split; simpl; lia).
  split; [done|]. do 3 (split; [done|]). split; [unfold history_size; simpl; lia|].
  split; [done|]. split; [done|]. intros l Hlv. unfold grid_row, line_row. simpl.
  rewrite lookup_rows by done.
  rewrite (proj2 (Nat.ltb_lt _ _)) by (unfold pos; lia). unfold slot. rewrite Ei.
  rewrite length_replicate. apply lookup_replicate. split; [done|].
  apply Nat.mod_upper_bound. lia.
Qed.

(** A row kept in the full invariant is blank exactly when each cell is the reset cell. *)
Lemma blank_cells columns template (r : Row.t T) :
  is_blank row_ok columns template r →
  Row.inner r = replicate columns (cell_reset cell_default template) ∧ Row.occ r = 0%nat.
Proof using GL.
  intros (r0 & Hr0 & E). destruct (reset_spec columns template r0 Hr0) as [E' _].
  rewrite E' in E. injection E as <-. split; [|done]. simpl.
  destruct Hr0 as [Hl _ _ _]. unfold Row.len in Hl. rewrite <- Hl.
  apply const_fmap. intros. apply cell_reset_forgets.
Qed.
End New.

(** A terminal of 3 lines and 2 columns whose history is bounded by 5 lines. *)
Module GridSample.
#[local] Existing Instance Sample.external.
Definition grid : Grid.t Cell :=
  Grid.mk Cursor.default Cursor.default
    (Storage.mk (replicate 3 (Row.mk (replicate 2 Cell.default) 0)) 0 3 3) 2 3 0 5.

Lemma grid_is_new : Grid.new 3 2 5 = Some grid.
Proof. reflexivity. Qed.

Lemma grid_is_ok {P : nat → Row.t Cell → Prop} `{∀ n, RowInv n (P n)} : grid_ok P grid.
Proof.
  pose proof (grid_new_ok (P:=P) 3 2 5 ltac:(lia) ltac:(lia) ltac:(lia)) as Hg.
  rewrite grid_is_new in Hg. apply Hg.
Qed.
End GridSample.

(** * The properties of the grid *)

Section Properties.
Context `{External} {T : Type} `{GL : GridCellLaws T}.
Implicit Types (g : Grid.t T) (it : Grid.GridIterator.t).

(** The lines [from..to] of [g'] contain only blank cells of the current background. *)
Definition blank_lines g g' (from to : Z) : Prop :=
  ∀ l, from <= l < to → ∃ r, grid_row g' l = Some r ∧ Row.occ r = 0%nat ∧
    Row.inner r = replicate (Grid.columns g)
      (cell_reset cell_default (Cursor.template (Grid.cursor g))).

(** C3. Scrolling a region up moves its lines, blanks the uncovered ones and leaves the others;
    from the top of the screen the lines enter the history, which grows up to its limit. *)
Theorem scroll_up_correct g start (end_ : Z) n :
  grid_ok row_ok g → 0 <= start < end_ → end_ <= Z.of_nat (Grid.lines g) →
  Z.of_nat n <= I32_MAX → (start = 0 → Z.of_nat n <= end_) →
  wp (Grid.scroll_up (start, end_) n g) (λ g', scroll_up_post row_ok g start end_ n g' ∧
    blank_lines g g' (Z.max start (end_ - Z.of_nat n)) end_).
Proof.
  intros Hg Hse Hel Hn Hn0. wp_call (scroll_up_ok (P:=row_ok) g start end_ n Hg Hse Hel Hn Hn0).
  intros g' Hpost. split; [done|]. destruct Hpost as (Hg' & [_ _ _ Fli _] & _ & _ & Hup).
  intros l Hl. pose proof (in_view_has_line _ l Hg' ltac:(lia)) as Hv.
  apply (grid_has_line _ _ Hg') in Hv.
  destruct (Hup l Hv) as (_ & (r & Er & Hb) & _); [lia|]. exists r.
  destruct (blank_cells _ _ _ Hb). done.
Qed.

(** Scrolling a region down, by swaps or by rotating the whole buffer, moves its lines down
    and blanks the uncovered ones; nothing outside of the region changes. *)
Theorem scroll_down_correct g start (end_ : Z) n :
  grid_ok row_ok g → 0 <= start < end_ → end_ <= Z.of_nat (Grid.lines g) →
  Z.of_nat n <= I32_MAX →
  wp (Grid.scroll_down (start, end_) n g) (λ g', scroll_down_post row_ok g start end_ n g' ∧
    blank_lines g g' start (Z.min end_ (start + Z.of_nat n))).
Proof.
  intros Hg Hse Hel Hn. wp_call (scroll_down_ok (P:=row_ok) g start end_ n Hg Hse Hel Hn).
  intros g' Hpost. split; [done|]. destruct Hpost as (Hg' & [_ _ _ Fli _] & _ & _ & Hdown).
  intros l Hl. pose proof (in_view_has_line _ l Hg' ltac:(lia)) as Hv.
  apply (grid_has_line _ _ Hg') in Hv.
  destruct (Hdown l Hv) as (_ & (r & Er & Hb) & _); [lia|]. exists r.
  destruct (blank_cells _ _ _ Hb). done.
Qed.

(** Clearing the viewport moves it into the history down to its last line that is not empty,
    and leaves a blank viewport. *)
Theorem clear_viewport_correct g :
  grid_ok row_ok g →
  wp (Grid.clear_viewport g) (λ g', grid_ok row_ok g' ∧ same_frame g g' ∧
    blank_lines g g' 0 (Z.of_nat (Grid.lines g)) ∧
    ∃ n : nat, (n <= Grid.lines g)%nat ∧
      empty_after g (Z.of_nat n * Z.of_nat (Grid.columns g) - 1) ∧
      history_size g' = Nat.min (history_size g + n) (Grid.max_scroll_limit g) ∧
      ∀ l, topmost_line g' <= l < 0 → grid_row g' l = grid_row g (l + Z.of_nat n)).
Proof.
  intros Hg. wp_call (clear_viewport_spec (P:=row_ok) g Hg).
  intros g' (Hg' & Hf & n & Hn & Hemp & _ & Eh & Hl). split; [done|]. split; [done|].
  dims (grid_dims _ Hg'). destruct Hf as [_ _ Fco Fli _]. simpl in *. split.
  - intros l Hlv. destruct (Hl l) as [_ (r & Er & Hb)]; [lia|lia|]. exists r.
    destruct (blank_cells _ _ _ Hb). done.
  - exists n. split; [done|]. split; [done|]. split; [done|]. intros l Hlv. apply Hl; lia.
Qed.

(** The iterator walks the grid in reading order: after [next] has returned a cell, [prev]
    returns to the point where it was. *)
Theorem next_prev_roundtrip g it p c it' :
  grid_ok row_ok g → in_grid g (Grid.GridIterator.point it) →
  in_grid g (Grid.GridIterator.end_ it) →
  Grid.GridIterator.next g it = Some (Some (p, c), it') →
  p = Grid.GridIterator.point it' ∧ Grid.index_point p g = Some c ∧
  lin g p = lin g (Grid.GridIterator.point it) + 1 ∧
  ∃ c', Grid.GridIterator.prev g it' = Some (Some (Grid.GridIterator.point it, c'), it).
Proof.
  intros Hg Hp He Hnext. pose proof (wp_use _ _ _ (next_ok (P:=row_ok) g it Hg Hp He) Hnext)
    as [Ee Hspec].
  destruct (Point.leb _ _); [by destruct Hspec|].
  destruct Hspec as (c0 & [= -> ->] & Hc & Hin & Hlin).
  split; [done|]. split; [done|]. split; [done|].
  pose proof (prev_ok (P:=row_ok) g it' Hg (proj1 Hin)) as Hprev.
  destruct Hin as [Hinl Hinc]. simpl in Hinc. specialize (Hprev ltac:(lia)).
  destruct (Grid.GridIterator.prev g it') as [[item it'']|]; [|done].
  destruct Hprev as [Ee' Hspec]. pose proof (proj1 (lin_in_grid g (grid_dims _ Hg) _) Hp).
  destruct (decide _) as [E|E]; [exfalso; rewrite E in Hlin; lia|].
  destruct Hspec as (c' & -> & _ & [_ Hc''] & Hlin').
  assert (Grid.GridIterator.point it'' = Grid.GridIterator.point it) as Ep.
  { apply (lin_inj g); [done|apply Hp|lia]. }
  exists c'. rewrite Ep. destruct it, it''; simpl in *. congruence.
Qed.

(** Every way of scrolling the display keeps the offset between 0 and the history, moves it
    by exactly the requested amount when there is room, and touches nothing else. *)
Theorem scroll_display_bounded g scroll :
  grid_ok row_ok g → (Grid.display_offset g <= history_size g)%nat →
  match scroll with ScrollDelta c => -1000000000 <= c <= 1000000000 | _ => True end →
  wp (Grid.scroll_display scroll g) (λ g',
    g' = Grid.set_display_offset (Grid.display_offset g') g ∧ grid_ok row_ok g' ∧
    (Grid.display_offset g' <= history_size g)%nat ∧
    ∀ c, scroll = ScrollDelta c →
      0 <= Z.of_nat (Grid.display_offset g) + c <= Z.of_nat (history_size g) →
      Z.of_nat (Grid.display_offset g') = Z.of_nat (Grid.display_offset g) + c).
Proof.
  intros Hg Ho Hc. wp_call (scroll_display_ok (P:=row_ok) g scroll Hg Hc).
  intros g' (E & Eo & Hg'). split; [done|]. split; [done|]. rewrite Eo. split.
  - destruct scroll; lia.
  - intros c ->. lia.
Qed.
End Properties.

(** A region below the top of the screen leaves the history alone, but the display offset is
    still increased, past the end of the history. *)
Example scroll_up_offset_past_history :
  let E := Sample.external in
  (g ← Grid.scroll_up (0, 3) 1 GridSample.grid; g ← Grid.scroll_display Top g;
   g ← Grid.scroll_up (1, 3) 1 g; Some (Grid.display_offset g, history_size g))
    = Some (2, 1)%nat.
Proof. by_compute. Qed.

(** * The properties at a concrete grid *)

#[local] Existing Instance Sample.external.

Lemma scroll_up_correct_witness :
  wp (Grid.scroll_up (1, 3) 1 GridSample.grid) (λ g',
    scroll_up_post row_ok GridSample.grid 1 3 1 g' ∧
    blank_lines GridSample.grid g' (Z.max 1 (3 - 1)) 3).
Proof.
  apply (scroll_up_correct GridSample.grid 1 3 1);
    [apply GridSample.grid_is_ok|simpl; lia..].
Defined.

Lemma scroll_down_correct_witness :
  wp (Grid.scroll_down (0, 2) 1 GridSample.grid) (λ g',
    scroll_down_post row_ok GridSample.grid 0 2 1 g' ∧
    blank_lines GridSample.grid g' 0 (Z.min 2 (0 + 1))).
Proof.
  apply (scroll_down_correct GridSample.grid 0 2 1);
    [apply GridSample.grid_is_ok|simpl; lia..].
Defined.

Lemma clear_viewport_correct_witness : is_Some (Grid.clear_viewport GridSample.grid).
Proof.
  pose proof (clear_viewport_correct GridSample.grid GridSample.grid_is_ok) as Hwp.
  destruct (Grid.clear_viewport GridSample.grid) as [g'|]; [by exists g'|destruct Hwp].
Defined.

Lemma next_prev_roundtrip_witness :
  let it := Grid.GridIterator.mk (Pt 0 1%nat) (Pt 2 1%nat) in
  let it' := Grid.GridIterator.mk (Pt 1 0%nat) (Pt 2 1%nat) in
  Grid.GridIterator.next GridSample.grid it = Some (Some (Pt 1 0%nat, Cell.default), it') ∧
  ∃ c, Grid.GridIterator.prev GridSample.grid it' = Some (Some (Pt 0 1%nat, c), it).
Proof.
  intros it it'. assert (Grid.GridIterator.next GridSample.grid it
    = Some (Some (Pt 1 0%nat, Cell.default), it')) as E by reflexivity.
  split; [exact E|].
  destruct (next_prev_roundtrip GridSample.grid it _ _ _ GridSample.grid_is_ok
    ltac:(unfold in_grid; vm_compute; intuition congruence || lia)
    ltac:(unfold in_grid; vm_compute; intuition congruence || lia) E) as (_ & _ & _ & c & Ec).
  exists c. exact Ec.
Defined.

Lemma scroll_display_bounded_witness :
  is_Some (Grid.scroll_display (ScrollDelta 3) GridSample.grid).
Proof.
  pose proof (scroll_display_bounded GridSample.grid (ScrollDelta 3) GridSample.grid_is_ok
    (Nat.le_0_l _) ltac:(simpl; lia)) as Hwp.
  destruct (Grid.scroll_display (ScrollDelta 3) GridSample.grid) as [g'|];
    [by exists g'|destruct Hwp].
Defined.
