(* ===== verification/Resizes.v ===== *)
(** Resizing and reflow of the grid ([cutty_terminal/src/grid/resize.rs]).

    Rows are taken out of the buffer from the top, rewrapped one by one and put back.  The two
    local vectors that receive them ([reversed], [new_raw]) are lists here whose head is the last
    element pushed.  The theorems show that a resize never panics, ends, and leaves a valid grid
    of the requested size, and what happens to the lines. *)
From S2P Require Import Prelude Index Cells Rows Storages Grids.
#[local] Open Scope Z_scope.

Module Resize.
Section ops.
Context `{External} {T : Type} `{GridCell T}.
Implicit Types (g : Grid.t T) (row : Row.t T).

Definition grow_lines (target : nat) g : option (Grid.t T) :=
  lines_added ← usize_sub target (Grid.lines g);
  raw ← Storage.grow_visible_lines target (Grid.raw g);
  let g := Grid.set_lines target (Grid.set_raw raw g) in
  let history := history_size g in
  let from_history := Nat.min history lines_added in
  g ← (if (from_history =? lines_added)%nat then Some g
       else Grid.scroll_up (0, as_i32 target) (lines_added - from_history) g);
  saved ← Line.add_usize (line (Cursor.point (Grid.saved_cursor g))) from_history;
  let g := Grid.set_saved_cursor (Cursor.set_line saved (Grid.saved_cursor g)) g in
  cur ← Line.add_usize (line (Cursor.point (Grid.cursor g))) from_history;
  let g := Grid.set_cursor (Cursor.set_line cur (Grid.cursor g)) g in
  let g := Grid.set_display_offset (Grid.display_offset g - lines_added) g in
  Grid.decrease_scroll_limit lines_added g.

Definition shrink_lines (target : nat) g : option (Grid.t T) :=
  last ← i32_sub (as_i32 target) 1;
  let required_scrolling :=
    (as_usize (line (Cursor.point (Grid.cursor g))) + 1 - target)%nat in
  g ← (if (0 <? required_scrolling)%nat then
         g ← Grid.scroll_up (0, as_i32 (Grid.lines g)) required_scrolling g;
         Some (Grid.set_cursor
           (Cursor.set_line (Z.min (line (Cursor.point (Grid.cursor g))) last) (Grid.cursor g)) g)
       else Some g);
  let g := Grid.set_saved_cursor
    (Cursor.set_line (Z.min (line (Cursor.point (Grid.saved_cursor g))) last)
       (Grid.saved_cursor g)) g in
  n ← usize_sub (Grid.lines g) target;
  raw ← Storage.rotate (Z.of_nat n) (Grid.raw g);
  raw ← Storage.shrink_visible_lines target raw;
  Some (Grid.set_lines target (Grid.set_raw raw g)).

(** [self.lines - self.cursor.point.line.0 as usize - 1]. *)
Definition cursor_buffer_line g : option nat :=
  n ← usize_sub (Grid.lines g) (as_usize (line (Cursor.point (Grid.cursor g))));
  usize_sub n 1.

Definition set_cursor_column (c : nat) g : Grid.t T :=
  Grid.set_cursor (Cursor.set_column c (Grid.cursor g)) g.
Definition set_cursor_line (l : Z) g : Grid.t T :=
  Grid.set_cursor (Cursor.set_line l (Grid.cursor g)) g.
Definition set_needs_wrap (b : bool) g : Grid.t T :=
  Grid.set_cursor (Cursor.set_input_needs_wrap b (Grid.cursor g)) g.

(** Remove the linewrap special case, by moving the cursor outside of the grid. *)
Definition unwrap_cursor (reflow : bool) g : Grid.t T :=
  if Cursor.input_needs_wrap (Grid.cursor g) && reflow then
    let g := set_needs_wrap false g in
    set_cursor_column (column (Cursor.point (Grid.cursor g)) + 1) g
  else g.

Definition leading_spacer : T := flags_insert Flags.LEADING_WIDE_CHAR_SPACER cell_default.

Definition should_reflow (reflow : bool) (columns : nat) row : option bool :=
  let len := Row.len row in
  if reflow && (0 <? len)%nat && (len <? columns)%nat then
    c ← Row.index (len - 1) row;
    Some (Flags.contains (cell_flags c) Flags.WRAPLINE)
  else Some false.

(** The state of the loop of [grow_columns]: the grid, [reversed] and [cursor_line_delta]. *)
Definition grow_state : Type := Grid.t T * list (Row.t T) * nat.

(** The rest of an iteration, once the cells have been pulled into [last_row] ([rest] are the
    rows below it in [reversed]) and [row] has what is left. *)
Definition grow_place (reflow : bool) (i num_wrapped : nat) g (last_row row : Row.t T)
    (rest : list (Row.t T)) (delta : nat) : option grow_state :=
  let push (g : Grid.t T) (delta : nat) : option grow_state :=
    Some (g, row :: Row.last_mut (flags_insert Flags.WRAPLINE) last_row :: rest, delta) in
  cursor_line ← cursor_buffer_line g;
  if (i =? cursor_line)%nat && reflow then
    target ← Point.sub g BoundaryCursor num_wrapped (Cursor.point (Grid.cursor g));
    '(g, target) ← (if (column target =? 0)%nat && Row.is_clear row then
                      target ← Point.sub g BoundaryCursor 1 target;
                      Some (set_needs_wrap true g, target)
                    else Some (g, target));
    let g := set_cursor_column (column target) g in
    line_delta ← i32_sub (line (Cursor.point (Grid.cursor g))) (line target);
    if negb (line_delta =? 0) && Row.is_clear row then Some (g, last_row :: rest, delta)
    else push g (delta + as_usize line_delta)%nat
  else if Row.is_clear row then
    let g := if (i <? Grid.display_offset g)%nat
             then Grid.set_display_offset (Grid.display_offset g - 1) g else g in
    g ← (if (i <? cursor_line)%nat
         then l ← i32_add (line (Cursor.point (Grid.cursor g))) 1; Some (set_cursor_line l g)
         else Some g);
    Some (g, last_row :: rest, delta)
  else push g delta.

Definition grow_step (reflow : bool) (columns : nat) (r : nat * Row.t T) (st : grow_state) :
    option grow_state :=
  let '(i, row) := r in
  let '(g, reversed, delta) := st in
  match reversed with
  | [] => Some (g, [row], delta)
  | last_row :: rest =>
      b ← should_reflow reflow columns last_row;
      if negb b then Some (g, row :: reversed, delta)
      else
        let last_row := Row.last_mut (flags_remove Flags.WRAPLINE) last_row in
        let last_len := Row.len last_row in
        spacer ← (if (1 <=? last_len)%nat then
                    c ← Row.index (last_len - 1) last_row;
                    Some (Flags.contains (cell_flags c) Flags.LEADING_WIDE_CHAR_SPACER)
                  else Some false);
        let last_row := if (spacer : bool) then (Row.shrink (last_len - 1) last_row).2 else last_row in
        let last_len := if (spacer : bool) then (last_len - 1)%nat else last_len in
        num_wrapped ← usize_sub columns last_len;
        let len := Nat.min (Row.len row) num_wrapped in
        n ← usize_sub len 1;
        c ← Row.index n row;
        if Flags.contains (cell_flags c) Flags.WIDE_CHAR then
          num_wrapped ← usize_sub num_wrapped 1;
          '(cells, row) ← Row.front_split_off n row;
          grow_place reflow i num_wrapped g (Row.append (cells ++ [leading_spacer]) last_row)
            row rest delta
        else
          '(cells, row) ← Row.front_split_off len row;
          grow_place reflow i num_wrapped g (Row.append cells last_row) row rest delta
  end.

(** [rows.drain(..).enumerate().rev()]. *)
Definition enumerate_rev (rows : list (Row.t T)) : list (nat * Row.t T) :=
  reverse (zip (seq 0 (length rows)) rows).

Definition grow_fill (columns : nat) g (reversed : list (Row.t T)) :
    option (Grid.t T * list (Row.t T)) :=
  if (length reversed <? Grid.lines g)%nat then
    let delta := as_i32 (Grid.lines g - length reversed) in
    l ← i32_sub (line (Cursor.point (Grid.cursor g))) delta;
    r ← Row.new columns;
    Some (set_cursor_line (Z.max l 0) g,
          replicate (Grid.lines g - length reversed) r ++ reversed)
  else Some (g, reversed).

Definition grow_pull_down g (reversed : list (Row.t T)) (cursor_line_delta : nat) :
    option (Grid.t T * list (Row.t T)) :=
  if (cursor_line_delta =? 0)%nat then Some (g, reversed)
  else
    cursor_line ← cursor_buffer_line g;
    extra ← usize_sub (length reversed) (Grid.lines g);
    let available := Nat.min cursor_line extra in
    let overflow := (cursor_line_delta - available)%nat in
    kept ← usize_sub (length reversed + overflow) cursor_line_delta;
    l ← Line.sub_usize (line (Cursor.point (Grid.cursor g))) overflow;
    Some (set_cursor_line (Z.max l 0) g, drop (length reversed - kept) reversed).

Definition grow_columns (reflow : bool) (columns : nat) g : option (Grid.t T) :=
  let g := unwrap_cursor reflow (Grid.set_columns columns g) in
  let '(taken, raw) := Storage.take_all (Grid.raw g) in
  '(g, reversed, cursor_line_delta) ←
    foldM (grow_step reflow columns) (enumerate_rev taken) (Grid.set_raw raw g, [], 0%nat);
  '(g, reversed) ← grow_fill columns g reversed;
  '(g, reversed) ← grow_pull_down g reversed cursor_line_delta;
  let new_raw :=
    (λ row, if (Row.len row <? columns)%nat then Row.grow columns row else row) <$> reversed in
  let g := Grid.set_raw (Storage.replace_inner new_raw (Grid.raw g)) g in
  Some (Grid.set_display_offset (Nat.min (Grid.display_offset g) (history_size g)) g).

(** The state of the loop of [shrink_columns]: the grid, [new_raw] and [buffered]. *)
Definition shrink_state : Type := Grid.t T * list (Row.t T) * option (list T).

(** Reflow of the cursor when a row is split. *)
Definition shrink_cursor (columns i : nat) g : option (Grid.t T) :=
  cursor_line ← cursor_buffer_line g;
  let col := column (Cursor.point (Grid.cursor g)) in
  g ← (if (i =? cursor_line)%nat && (col <? columns)%nat || (i <? cursor_line)%nat
       then l ← i32_sub (line (Cursor.point (Grid.cursor g))) 1;
            Some (set_cursor_line (Z.max l 0) g)
       else Some g);
  Some (if (i =? cursor_line)%nat && (columns <=? col)%nat
        then set_cursor_column (col - columns) g else g).

(** A wide character in the last column is replaced by a spacer and wrapped. *)
Definition shrink_wide (columns : nat) row (wrapped : list T) : option (Row.t T * list T) :=
  if (columns <=? Row.len row)%nat then
    n ← usize_sub columns 1;
    c ← Row.index n row;
    if Flags.contains (cell_flags c) Flags.WIDE_CHAR then
      row ← Row.index_mut n (λ _, leading_spacer) row;
      Some (row, c :: wrapped)
    else Some (row, wrapped)
  else Some (row, wrapped).

(** The inner [loop] on one row. Without fuel the loop does not end within it. *)
Fixpoint shrink_row (fuel : nat) (reflow : bool) (columns i : nat) g
    (new_raw : list (Row.t T)) row : option shrink_state :=
  match fuel with
  | O => None
  | S fuel =>
      let '(removed, row) := Row.shrink columns row in
      wrapped ← match removed, reflow with
        | Some wrapped, true => Some (Some wrapped)
        | _, _ =>
            cursor_line ← cursor_buffer_line g;
            if reflow && (i =? cursor_line)%nat
               && (columns <? column (Cursor.point (Grid.cursor g)))%nat
            then Some (Some []) else Some None
        end;
      match wrapped with
      | None => Some (g, row :: new_raw, None)
      | Some wrapped =>
          '(row, wrapped) ← shrink_wide columns row wrapped;
          let len := length wrapped in
          let spacer :=
            match list.last wrapped with
            | Some c => Flags.contains (cell_flags c) Flags.LEADING_WIDE_CHAR_SPACER
            | None => false
            end in
          if spacer && (len =? 1)%nat then
            row ← Row.index_mut (columns - 1) (flags_insert Flags.WRAPLINE) row;
            Some (g, row :: new_raw, None)
          else
            wrapped ← (if spacer then
                         wrapped ← update_at (len - 2) (flags_insert Flags.WRAPLINE) wrapped;
                         Some (truncate (len - 1) wrapped)
                       else Some wrapped);
            let new_raw := Row.last_mut (flags_insert Flags.WRAPLINE) row :: new_raw in
            if match list.last wrapped with
               | Some c => Flags.contains (cell_flags c) Flags.WRAPLINE && (1 <=? i)%nat
               | None => false
               end && (length wrapped <? columns)%nat
            then
              Some (g, new_raw,
                Some (alter (flags_remove Flags.WRAPLINE) (length wrapped - 1)%nat wrapped))
            else
              g ← shrink_cursor columns i g;
              let occ := length wrapped in
              let wrapped := if (occ <? columns)%nat
                             then resize_with columns cell_default wrapped else wrapped in
              let g := if (i <? Grid.display_offset g)%nat
                       then Grid.set_display_offset (Grid.display_offset g + 1) g else g in
              shrink_row fuel reflow columns i g new_raw (Row.from_vec wrapped occ)
      end
  end.

Definition shrink_step (reflow : bool) (columns : nat) (r : nat * Row.t T) (st : shrink_state) :
    option shrink_state :=
  let '(i, row) := r in
  let '(g, new_raw, buffered) := st in
  '(g, row) ← match buffered with
    | Some buffered =>
        cursor_line ← cursor_buffer_line g;
        let g := if (i =? cursor_line)%nat
                 then set_cursor_column
                        (column (Cursor.point (Grid.cursor g)) + length buffered) g
                 else g in
        Some (g, Row.append_front buffered row)
    | None => Some (g, row)
    end;
  shrink_row (Row.len row + column (Cursor.point (Grid.cursor g)) + 1) reflow columns i g
    new_raw row.

Definition shrink_columns (reflow : bool) (columns : nat) g : option (Grid.t T) :=
  let g := unwrap_cursor reflow (Grid.set_columns columns g) in
  let '(taken, raw) := Storage.take_all (Grid.raw g) in
  '(g, new_raw, _) ←
    foldM (shrink_step reflow columns) (enumerate_rev taken) (Grid.set_raw raw g, [], None);
  let reversed := truncate (Grid.max_scroll_limit g + Grid.lines g) new_raw in
  let g := Grid.set_raw (Storage.replace_inner reversed (Grid.raw g)) g in
  let g := Grid.set_display_offset (Nat.min (Grid.display_offset g) (history_size g)) g in
  last ← usize_sub columns 1;
  let p := Cursor.point (Grid.cursor g) in
  g ← (if negb reflow then Some (set_cursor_column (Nat.min (column p) last) g)
       else
         wrap ← (if (column p =? columns)%nat then
                   c ← Grid.index_point (Pt (line p) last) g;
                   Some (negb (Flags.contains (cell_flags c) Flags.WRAPLINE))
                 else Some false);
         if (wrap : bool) then Some (set_cursor_column (column p - 1) (set_needs_wrap true g))
         else
           p ← Point.grid_clamp g BoundaryCursor p;
           Some (Grid.set_cursor (Cursor.set_point p (Grid.cursor g)) g));
  Some (Grid.set_saved_cursor
    (Cursor.set_column (Nat.min (column (Cursor.point (Grid.saved_cursor g))) last)
       (Grid.saved_cursor g)) g).

Definition resize (reflow : bool) (lines columns : nat) g : option (Grid.t T) :=
  let template := Cursor.template (Grid.cursor g) in
  let g := Grid.set_cursor (Cursor.set_template cell_default (Grid.cursor g)) g in
  g ← match (Grid.lines g ?= lines)%nat with
      | Lt => grow_lines lines g
      | Gt => shrink_lines lines g
      | Eq => Some g
      end;
  g ← match (Grid.columns g ?= columns)%nat with
      | Lt => grow_columns reflow columns g
      | Gt => shrink_columns reflow columns g
      | Eq => Some g
      end;
  Some (Grid.set_cursor (Cursor.set_template template (Grid.cursor g)) g).
End ops.
End Resize.

(** * The loops over the rows keep the grid usable *)

Section Safety.
Context `{External} {T : Type} `{GL : GridCellLaws T}.
Implicit Types (g : Grid.t T) (r row : Row.t T).

(** A grid whose rows are taken out, or whose cursor column is still in the old width. *)
Record frame_ok (lines limit columns : nat) g : Prop := {
  fr_lines : Grid.lines g = lines;
  fr_limit : Grid.max_scroll_limit g = limit;
  fr_columns : Grid.columns g = columns;
  fr_cursor : 0 <= line (Cursor.point (Grid.cursor g)) < Z.of_nat lines;
  fr_saved : 0 <= line (Cursor.point (Grid.saved_cursor g)) < Z.of_nat lines;
  fr_visible : Storage.visible_lines (Grid.raw g) = lines;
  fr_small : Z.of_nat (lines + limit) <= 268435455;
}.

(** The fields the loops do not write. *)
Definition kept g g' : Prop :=
  Grid.raw g' = Grid.raw g ∧ Grid.saved_cursor g' = Grid.saved_cursor g ∧
  Cursor.template (Grid.cursor g') = Cursor.template (Grid.cursor g).

Lemma kept_refl g : kept g g.
Proof. done. Qed.

Lemma kept_trans g1 g2 g3 : kept g1 g2 → kept g2 g3 → kept g1 g3.
Proof. unfold kept. intuition congruence. Qed.

Context (lines limit columns : nat).
#[local] Abbreviation frame := (frame_ok lines limit columns).
#[local] Abbreviation cursor_col g := (column (Cursor.point (Grid.cursor g))).
#[local] Abbreviation cursor_row g := (line (Cursor.point (Grid.cursor g))).

Lemma cursor_buffer_line_ok g :
  frame g → wp (Resize.cursor_buffer_line g)
    (λ n, Z.of_nat n = Z.of_nat lines - 1 - cursor_row g).
Proof.
  intros []. unfold Resize.cursor_buffer_line. casts. wp_step. wp_step. wp_step. lia.
Qed.

Lemma frame_column c g : frame g → frame (Resize.set_cursor_column c g).
Proof. by intros []. Qed.

Lemma frame_line l g : frame g → 0 <= l < Z.of_nat lines → frame (Resize.set_cursor_line l g).
Proof. intros [] ?. by split. Qed.

Lemma frame_wrap b g : frame g → frame (Resize.set_needs_wrap b g).
Proof. by intros []. Qed.

Lemma frame_offset n g : frame g → frame (Grid.set_display_offset n g).
Proof. by intros []. Qed.

(** Rows that fit into [columns]. *)
Definition fits (r : Row.t T) : Prop := (Row.len r <= columns ∧ Row.occ r <= Row.len r)%nat.

Definition grow_inv (g0 : Grid.t T) (k : nat) (st : Resize.grow_state) : Prop :=
  let '(g, reversed, delta) := st in
  frame g ∧ kept g0 g ∧ (cursor_col g < columns)%nat ∧ Forall fits reversed ∧
  (length reversed <= k)%nat ∧ (delta <= 2 * k)%nat.

Lemma clamp_cursor_column g (p : Point) n :
  frame g → (1 <= columns)%nat → 0 <= line p < Z.of_nat lines → (n <= columns)%nat →
  (column p < columns)%nat →
  wp (Point.sub g BoundaryCursor n p) (λ q, (column q < columns)%nat ∧ 0 <= line q <= line p ∧
    line p - 1 <= line q).
Proof.
  intros [Hl Hm Hc _ _ _ Hs] H1 Hp Hn Hcol. unfold Point.sub. simpl. rewrite Hc.
  assert ((n + columns - 1 - column p) / columns < 2)%nat as Hdiv
    by (apply Nat.Div0.div_lt_upper_bound; lia).
  pose proof (Nat.mod_upper_bound (columns + column p - n mod columns) columns ltac:(lia)).
  generalize dependent ((n + columns - 1 - column p) / columns)%nat. intros q Hq.
  generalize dependent ((columns + column p - n mod columns) mod columns)%nat. intros m Hmod.
  wp_step. wp_step. wp_step. unfold Line.sub_usize. casts. wp_step.
  unfold Point.grid_clamp, bottommost_line, last_column. simpl. rewrite Hl, Hc. casts.
  destruct (_ <? 0) eqn:E1; [|destruct (Z.of_nat lines - 1 <? _) eqn:E2]; simpl; bools; lia.
Qed.

Lemma grow_place_ok g0 k reflow i n g last_row row rest delta :
  frame g → kept g0 g → (cursor_col g < columns)%nat → (n <= columns)%nat →
  fits last_row → fits row → Forall fits rest → (S (length rest) <= k)%nat → (delta <= 2 * k)%nat →
  wp (Resize.grow_place reflow i n g last_row row rest delta) (grow_inv g0 (S k)).
Proof.
  intros Hf Hk Hc Hn Hlast Hrow Hrest Hlen Hdelta.
  assert (fits (Row.last_mut (flags_insert Flags.WRAPLINE) last_row)) as Hlast'.
  { destruct Hlast. split; unfold Row.last_mut, Row.len in *; simpl; rewrite length_alter; lia. }
  unfold Resize.grow_place. wp_step. wp_call (cursor_buffer_line_ok g Hf). intros cl Hcl.
  pose proof Hf as [Fl _ _ Fcu _ _ _].
  destruct (_ && reflow).
  - wp_step. wp_call (clamp_cursor_column g _ n Hf); [lia|done|done|done|].
    intros target [Ht1 Ht2]. wp_step.
    apply wp_mono with (λ '(g', t), frame g' ∧ kept g0 g' ∧ (column t < columns)%nat ∧
      cursor_row g - 2 <= line t <= cursor_row g ∧ 0 <= line t ∧
      cursor_row g' = cursor_row g).
    { destruct (_ && _).
      - wp_step. wp_call (clamp_cursor_column g target 1 Hf); [lia|lia|lia|done|].
        intros t' ?. wp_step. split; [by apply frame_wrap|]. split; [done|].
        split; [lia|]. split; [lia|]. split; [lia|done].
      - wp_step. split; [done|]. split; [done|]. split; [done|]. split; [lia|].
        split; [lia|done]. }
    intros [g' t] (Hf' & Hk' & Ht & Htl & Htl0 & El). wp_step. simpl.
    pose proof (fr_cursor _ _ _ _ Hf'). pose proof (fr_small _ _ _ _ Hf').
    wp_step. destruct (_ && Row.is_clear row); wp_step;
      (split; [by apply frame_column|]); (split; [done|]); (split; [done|]).
    + split; [by constructor|]. simpl. lia.
    + split; [constructor; [done|by constructor]|]. simpl. casts. lia.
  - destruct (Row.is_clear row).
    + wp_step. set (g1 := if (i <? _)%nat then _ else g).
      assert (frame g1 ∧ kept g0 g1 ∧ (cursor_col g1 < columns)%nat
              ∧ cursor_row g1 = cursor_row g) as (Hf1 & Hk1 & Hc1 & E1).
      { unfold g1. destruct (i <? _)%nat; [|done]. split; [by apply frame_offset|done]. }
      clearbody g1. pose proof (fr_small _ _ _ _ Hf1).
      apply wp_mono with (λ g', frame g' ∧ kept g0 g' ∧ (cursor_col g' < columns)%nat).
      { destruct (i <? cl)%nat eqn:E; bools; [|done]. wp_step. wp_step. wp_step.
        split; [apply frame_line; [done|lia]|done]. }
      intros g' (Hf' & Hk' & Hc'). wp_step. split; [done|]. split; [done|]. split; [done|].
      split; [by constructor|]. simpl. lia.
    + wp_step. split; [done|]. split; [done|]. split; [done|].
      split; [constructor; [done|by constructor]|simpl; lia].
Qed.

Lemma fits_last_mut f row : fits row → fits (Row.last_mut f row).
Proof. intros []. split; unfold Row.last_mut, Row.len in *; simpl; rewrite length_alter; lia. Qed.

Lemma index_row n row : (n < Row.len row)%nat → is_Some (Row.index n row).
Proof. intros Hn. apply lookup_lt_is_Some_2. exact Hn. Qed.

Lemma shrink_len n row :
  (Row.occ row <= Row.len row)%nat →
  Row.len (Row.shrink n row).2 = Nat.min n (Row.len row) ∧
  (Row.occ (Row.shrink n row).2 <= Row.len (Row.shrink n row).2)%nat.
Proof.
  intros Ho. unfold Row.shrink. destruct (_ <=? _)%nat eqn:E; bools; [simpl; lia|].
  unfold Row.len in *. simpl. rewrite length_take. lia.
Qed.

Lemma split_off_ok n row :
  (n <= Row.len row)%nat → fits row →
  wp (Row.front_split_off n row) (λ '(cells, row'), length cells = n ∧ fits row').
Proof.
  intros Hn [H1 H2]. unfold Row.front_split_off, fits, Row.len in *.
  wp_step. wp_step. wp_step. simpl. rewrite length_take, length_drop. lia.
Qed.

Lemma grow_step_ok g0 k reflow i row st :
  (1 <= Row.len row)%nat → fits row → grow_inv g0 k st →
  wp (Resize.grow_step reflow columns (i, row) st) (grow_inv g0 (S k)).
Proof.
  destruct st as [[g reversed] delta]. intros Hrow1 Hrow (Hf & Hk & Hc & Hrev & Hlen & Hdelta).
  assert (grow_inv g0 (S k) (g, row :: reversed, delta)) as Hpush.
  { split; [done|]. split; [done|]. split; [done|]. split; [by constructor|simpl; lia]. }
  unfold Resize.grow_step. destruct reversed as [|last_row rest]; [done|].
  apply Forall_cons in Hrev as [Hlast Hrest]. simpl in Hlen. unfold Resize.should_reflow.
  wp_step. destruct (_ && _) eqn:E; [|by wp_step]. bools.
  destruct (index_row (Row.len last_row - 1) last_row) as [c Ec]; [lia|]. rewrite Ec. mrun.
  destruct (negb _); [done|].
  pose proof (fits_last_mut (flags_remove Flags.WRAPLINE) _ Hlast) as Hlast'.
  assert (Row.len (Row.last_mut (flags_remove Flags.WRAPLINE) last_row) = Row.len last_row)
    as El by (unfold Row.last_mut, Row.len; simpl; by rewrite length_alter).
  set (last1 := Row.last_mut _ last_row) in *. rewrite El.
  wp_step. rewrite (proj2 (Nat.leb_le _ _)) by lia.
  destruct (index_row (Row.len last_row - 1) last1) as [c1 Ec1]; [lia|]. rewrite Ec1. mrun.
  set (spacer := Flags.contains _ _). set (last2 := if spacer then _ else last1).
  set (len2 := if spacer then _ else _).
  assert (fits last2 ∧ Row.len last2 = len2 ∧ (len2 < columns)%nat) as (Hfit2 & E2 & Hlt2).
  { unfold last2, len2. destruct spacer; [|split; [done|lia]].
    destruct Hlast' as [Hla Hlb].
    destruct (shrink_len (Row.len last_row - 1) last1 Hlb) as [Hs1 Hs2].
    split; [split; lia|lia]. }
  clearbody last2 len2 spacer. wp_step. wp_step. wp_step. wp_step.
  set (len := Nat.min _ _). destruct (index_row (len - 1) row) as [c2 Ec2]; [lia|].
  rewrite Ec2. mrun.
  destruct (Flags.contains _ _).
  - wp_step. wp_step. wp_step. wp_call (split_off_ok (len - 1) row); [lia|done|].
    intros [cells row'] [Hcells Hrow']. apply grow_place_ok; try done; [lia|].
    destruct Hfit2. split; unfold Row.append, Row.len in *; simpl;
      rewrite !length_app; simpl; lia.
  - wp_step. wp_call (split_off_ok len row); [lia|done|].
    intros [cells row'] [Hcells Hrow']. apply grow_place_ok; try done; [lia|].
    destruct Hfit2. split; unfold Row.append, Row.len in *; simpl;
      rewrite !length_app; simpl; lia.
Qed.

(** The state after the loop: enough rows for the screen, and no more than the limit allows. *)
Definition filled (g0 : Grid.t T) (st : Grid.t T * list (Row.t T)) : Prop :=
  let '(g, reversed) := st in
  frame g ∧ kept g0 g ∧ (cursor_col g < columns)%nat ∧ Forall fits reversed ∧
  (lines <= length reversed <= lines + limit)%nat.

Lemma grow_fill_ok g0 g reversed delta :
  (1 <= columns)%nat → grow_inv g0 (lines + limit) (g, reversed, delta) →
  wp (Resize.grow_fill columns g reversed) (filled g0).
Proof using Type.
  intros Hc1 (Hf & Hk & Hc & Hrev & Hlen & _). unfold Resize.grow_fill.
  pose proof Hf as [Fl _ _ Fcu _ _ Fs]. rewrite Fl.
  destruct (_ <? _)%nat eqn:E; bools; [|by wp_step].
  wp_step. casts. wp_step. unfold Row.new. wp_step. wp_step. wp_step.
  split; [apply frame_line; [done|lia]|]. split; [done|]. split; [done|]. split.
  - apply Forall_app. split; [|done]. apply Forall_replicate.
    split; unfold Row.len; simpl; rewrite ?length_replicate; lia.
  - rewrite length_app, length_replicate. lia.
Qed.

Lemma grow_pull_down_ok g0 g reversed delta :
  filled g0 (g, reversed) → (delta <= 2 * (lines + limit))%nat →
  wp (Resize.grow_pull_down g reversed delta) (filled g0).
Proof using Type.
  intros (Hf & Hk & Hc & Hrev & Hlen) Hdelta. unfold Resize.grow_pull_down.
  pose proof Hf as [Fl _ _ Fcu _ _ Fs]. destruct (_ =? _)%nat eqn:E; bools; [by wp_step|].
  wp_step. wp_call (cursor_buffer_line_ok g Hf). intros cl Hcl. rewrite Fl.
  wp_step. wp_step. wp_step. wp_step. wp_step. unfold Line.sub_usize.
  set (avail := Nat.min cl (length reversed - lines)).
  casts. wp_step. wp_step. split; [apply frame_line; [done|lia]|]. split; [done|].
  split; [done|]. split; [by apply Forall_drop|]. rewrite length_drop. lia.
Qed.
End Safety.

(** * Each step of a resize keeps a valid grid *)

Section Steps.
Context `{External} {T : Type} `{GL : GridCellLaws T}.
Implicit Types (g : Grid.t T) (r row : Row.t T).

(** What stays the same during a resize to [lines] and [columns]. *)
Definition resized (lines columns : nat) g g' : Prop :=
  grid_ok row_safe g' ∧ Grid.lines g' = lines ∧ Grid.columns g' = columns ∧
  Grid.max_scroll_limit g' = Grid.max_scroll_limit g ∧
  Cursor.template (Grid.cursor g') = Cursor.template (Grid.cursor g).

(** Taking the rows out of a grid, with the new number of columns. *)
Lemma unwrap_frame g columns reflow :
  grid_ok row_safe g →
  let g1 := Resize.unwrap_cursor reflow (Grid.set_columns columns g) in
  let '(taken, raw) := Storage.take_all (Grid.raw g1) in
  frame_ok (Grid.lines g) (Grid.max_scroll_limit g) columns (Grid.set_raw raw g1) ∧
  Grid.saved_cursor g1 = Grid.saved_cursor g ∧
  Cursor.template (Grid.cursor g1) = Cursor.template (Grid.cursor g) ∧
  (column (Cursor.point (Grid.cursor g1)) <= Grid.columns g)%nat ∧
  Forall (row_safe (Grid.columns g)) taken ∧
  (Grid.lines g <= length taken <= Grid.lines g + Grid.max_scroll_limit g)%nat.
Proof.
  intros [Hs Hr Hv Hl Hc Hh Hsm Ho [Hcl Hcc] [Hsl Hsc]]. cbv zeta.
  destruct (Storage.take_all _) as [taken raw] eqn:E.
  assert (Grid.raw (Resize.unwrap_cursor reflow (Grid.set_columns columns g)) = Grid.raw g)
    as Eraw by (unfold Resize.unwrap_cursor; by destruct (_ && _)).
  rewrite Eraw in E. unfold Storage.take_all in E. injection E as <- <-.
  destruct (truncate_rows (Grid.raw g) Hs) as (_ & _ & Ei); [pose proof (st_visible _ Hs); lia|].
  change (truncate _ _) with (Storage.inner (Storage.truncate (Grid.raw g))).
  rewrite Ei, length_rows by done. pose proof (st_visible _ Hs).
  split; [|split; [|split; [|split; [|split]]]].
  - unfold Resize.unwrap_cursor. destruct (_ && _); split; simpl; try done;
      unfold Storage.rezero; by destruct (_ =? _)%nat.
  - unfold Resize.unwrap_cursor. by destruct (_ && _).
  - unfold Resize.unwrap_cursor. by destruct (_ && _).
  - unfold Resize.unwrap_cursor. destruct (_ && _); simpl; lia.
  - apply Forall_take. unfold rotate. rewrite Forall_app.
    split; [by apply Forall_drop|by apply Forall_take].
  - lia.
Qed.

Lemma lookup_enumerate_rev (taken : list (Row.t T)) i k row :
  Resize.enumerate_rev taken !! k = Some (i, row) → row ∈ taken ∧ (i < length taken)%nat.
Proof.
  unfold Resize.enumerate_rev. intros E.
  assert ((i, row) ∈ zip (seq 0 (length taken)) taken) as Hin.
  { apply elem_of_reverse. by eapply list_elem_of_lookup_2. }
  apply list_elem_of_lookup in Hin as [j Hj].
  apply lookup_zip_with_Some in Hj as (a & b & [= <- <-] & Ha & Hb).
  apply lookup_seq in Ha as [-> Ha]. split; [by eapply list_elem_of_lookup_2|lia].
Qed.

Lemma length_enumerate_rev (taken : list (Row.t T)) :
  length (Resize.enumerate_rev taken) = length taken.
Proof.
  unfold Resize.enumerate_rev. rewrite length_reverse, length_zip_with, length_seq. lia.
Qed.

(** Putting rewrapped rows back. *)
Lemma replace_rows_ok g columns new_raw n :
  frame_ok (Grid.lines g) (Grid.max_scroll_limit g) columns g →
  (1 <= Grid.lines g)%nat → (1 <= columns)%nat →
  Forall (row_safe columns) new_raw →
  (Grid.lines g <= length new_raw <= Grid.lines g + Grid.max_scroll_limit g)%nat →
  (column (Cursor.point (Grid.cursor g)) < columns)%nat →
  (column (Cursor.point (Grid.saved_cursor g)) < columns)%nat →
  let g' := Grid.set_raw (Storage.replace_inner new_raw (Grid.raw g)) g in
  grid_ok row_safe (Grid.set_display_offset (Nat.min n (history_size g')) g').
Proof.
  intros [_ _ Fco Fcu Fsa Fvis Fs] Hl Hc Hrows Hlen Hcol Hscol. subst columns. cbv zeta.
  split; simpl; try done; try lia.
  - split; simpl; lia.
  - unfold history_size. simpl. lia.
Qed.

Lemma grow_columns_ok g columns reflow :
  grid_ok row_safe g → (Grid.columns g < columns)%nat →
  wp (Resize.grow_columns reflow columns g) (resized (Grid.lines g) columns g).
Proof.
  intros Hg Hc. unfold Resize.grow_columns. pose proof (unwrap_frame g columns reflow Hg) as Hu.
  cbv zeta in *. set (g1 := Resize.unwrap_cursor _ _) in *.
  destruct (Storage.take_all _) as [taken raw].
  destruct Hu as (Hf & Esa & Ete & Hcol & Hrows & Hlen). set (g2 := Grid.set_raw raw g1) in *.
  pose proof (g_columns _ Hg). pose proof (g_lines _ Hg).
  wp_step. wp_call (wp_foldM _ _ (grow_inv (Grid.lines g) (Grid.max_scroll_limit g) columns g2)).
  { split; [done|]. split; [done|]. split; [simpl; lia|]. split; [done|]. simpl. lia. }
  { intros k [i row] st E Hinv. apply lookup_enumerate_rev in E as [E _].
    pose proof (proj1 (Forall_forall _ _) Hrows row E) as [Hr1 _ Hr2].
    apply grow_step_ok; [lia|split; lia|done]. }
  intros [[g3 reversed] delta] Hinv. rewrite length_enumerate_rev in Hinv.
  assert (grow_inv (Grid.lines g) (Grid.max_scroll_limit g) columns g2
    (Grid.lines g + Grid.max_scroll_limit g) (g3, reversed, delta)) as Hinv'.
  { unfold grow_inv in *. destruct Hinv as (? & ? & ? & ? & ? & ?).
    do 4 (split; [done|]). lia. }
  wp_step. wp_call (grow_fill_ok _ _ _ g2 g3 reversed delta); [lia|done|].
  intros [g4 reversed4] Hfill. wp_step.
  wp_call (grow_pull_down_ok _ _ _ g2 g4 reversed4 delta Hfill); [apply Hinv'|].
  intros [g5 reversed5] (Hf5 & (Ek1 & Ek2 & Ek3) & Hc5 & Hr5 & Hl5). wp_step.
  pose proof Hf5 as [Fl Fm Fc _ _ _ _].
  split; [|simpl; split; [done|]; split; [done|]; split; [done|]; simpl in *; congruence].
  rewrite <- Fl, <- Fm in Hf5. apply (replace_rows_ok g5 columns); [done|lia|lia| | |done|].
  - apply Forall_fmap. eapply Forall_impl; [done|]. intros row [Hra Hrb]. simpl.
    destruct (_ <? _)%nat eqn:E; bools; [|split; lia].
    unfold Row.grow. rewrite (proj2 (Nat.leb_gt _ _)) by done. unfold Row.len in *.
    split; unfold Row.len; simpl; [by rewrite length_resize_with|lia|lia].
  - rewrite length_fmap. lia.
  - rewrite Ek2. simpl. rewrite Esa. pose proof (proj2 (g_saved _ Hg)). lia.
Qed.
End Steps.

(** ** The loop of [shrink_columns] *)

Section Shrink.
Context `{External} {T : Type} `{GL : GridCellLaws T}.
Implicit Types (g : Grid.t T) (r row : Row.t T).
Context (lines limit columns : nat) (Hcolumns : (2 <= columns)%nat).
#[local] Abbreviation frame := (frame_ok lines limit columns).
#[local] Abbreviation cursor_col g := (column (Cursor.point (Grid.cursor g))).

(** Rows that are at least as wide as the new width. *)
Definition wide (row : Row.t T) : Prop :=
  (columns <= Row.len row ∧ Row.occ row <= Row.len row)%nat.

Definition shrink_inv (g0 : Grid.t T) (k : nat) (st : Resize.shrink_state) : Prop :=
  let '(g, new_raw, _) := st in
  frame g ∧ kept g0 g ∧ Forall (row_safe columns) new_raw ∧ (k <= length new_raw)%nat.

Lemma shrink_cursor_ok i g :
  frame g → wp (Resize.shrink_cursor columns i g) (λ g', frame g' ∧ kept g g' ∧
    (cursor_col g' <= cursor_col g)%nat ∧
    (Resize.cursor_buffer_line g = Some i → (columns <= cursor_col g)%nat →
      cursor_col g' = (cursor_col g - columns)%nat)).
Proof using Hcolumns.
  intros Hf. unfold Resize.shrink_cursor. wp_step.
  pose proof (cursor_buffer_line_ok _ _ _ g Hf) as Hcl.
  destruct (Resize.cursor_buffer_line g) as [cl|] eqn:Ecl; [|done]. unfold wp in Hcl.
  wp_step. wp_step. pose proof Hf as [_ _ _ Fcu _ _ Fs].
  apply wp_mono with (λ g', frame g' ∧ kept g g' ∧ cursor_col g' = cursor_col g).
  { destruct (_ || _) eqn:E; [|done]. wp_step. wp_step. wp_step.
    split; [apply frame_line; [done|]|done]. bools. lia. }
  intros g' (Hf' & Hk' & Ec). wp_step. destruct (_ && _) eqn:E.
  - split; [by apply frame_column|]. split; [done|]. simpl. split; [lia|]. intros. lia.
  - split; [done|]. split; [done|]. split; [lia|]. intros [= ->] Hle. exfalso.
    rewrite Nat.eqb_refl, (proj2 (Nat.leb_le _ _) Hle) in E. done.
Qed.

Lemma shrink_wide_ok row wrapped :
  row_safe columns row →
  wp (Resize.shrink_wide columns row wrapped) (λ '(row', wrapped'),
    row_safe columns row' ∧ (length wrapped <= length wrapped' <= length wrapped + 1)%nat).
Proof using Hcolumns GL.
  intros Hrow. pose proof (safe_len _ _ Hrow) as Hlen. unfold Resize.shrink_wide.
  rewrite Hlen, Nat.leb_refl. wp_step. wp_step.
  destruct (index_row (columns - 1) row) as [x Hx]; [lia|]. rewrite Hx. mrun.
  destruct (Flags.contains _ _); [|wp_step; split; [done|lia]].
  wp_step. wp_call (inv_index_mut (columns - 1) _ row Hrow); [lia|].
  intros row' Hrow'. wp_step. split; [done|simpl; lia].
Qed.

(** What the first step of an iteration leaves: the row is cut to the new width, and the removed
    cells, if the row has to be split, are fewer than the row had, or the cursor moves. *)
Lemma shrink_first_ok reflow i g row :
  frame g → wide row →
  let '(removed, row') := Row.shrink columns row in
  row_safe columns row' ∧
  wp (match removed, reflow with
      | Some wrapped, true => Some (Some wrapped)
      | _, _ =>
          cursor_line ← Resize.cursor_buffer_line g;
          if reflow && (i =? cursor_line)%nat && (columns <? cursor_col g)%nat
          then Some (Some []) else Some None
      end) (λ wrapped, match wrapped with
        | None => True
        | Some wrapped =>
            (columns < Row.len row ∧ length wrapped <= Row.len row - columns)%nat ∨
            (wrapped = [] ∧ Resize.cursor_buffer_line g = Some i ∧
             columns < cursor_col g)%nat
        end).
Proof using Hcolumns.
  intros Hf [Hlen Hocc]. destruct (shrink_len columns row Hocc) as [Hl Ho].
  assert (∀ w, (Row.shrink columns row).1 = Some w →
    (columns < Row.len row ∧ length w <= Row.len row - columns)%nat) as Hw.
  { intros w. unfold Row.shrink. destruct (_ <=? _)%nat eqn:E; bools; [done|]. simpl.
    destruct (truncate _ _) eqn:Et; [done|]. intros [= <-]. rewrite <- Et.
    unfold truncate, Row.len in *. rewrite length_take, length_drop. lia. }
  destruct (Row.shrink columns row) as [removed row']. simpl in *.
  split; [split; lia|].
  assert (wp (cursor_line ← Resize.cursor_buffer_line g;
          if reflow && (i =? cursor_line)%nat && (columns <? cursor_col g)%nat
          then Some (Some (A:=list T) []) else Some None) (λ wrapped, match wrapped with
        | None => True
        | Some wrapped =>
            (columns < Row.len row ∧ length wrapped <= Row.len row - columns)%nat ∨
            (wrapped = [] ∧ Resize.cursor_buffer_line g = Some i ∧
             columns < cursor_col g)%nat
        end)) as Hrest.
  { pose proof (cursor_buffer_line_ok _ _ _ g Hf) as Hcl.
    destruct (Resize.cursor_buffer_line g) as [cl|]; [|done]. mrun.
    destruct (_ && _) eqn:E; [|done]. bools. subst. by right. }
  destruct removed as [w|]; [|exact Hrest]. destruct reflow; [|exact Hrest].
  wp_step. left. by apply Hw.
Qed.

(** The loop ends: every iteration shortens the row or moves the cursor left. Two columns are
    needed, since a wide character never fits into one. *)
Lemma shrink_row_ok g0 k reflow i fuel g new_raw row :
  (Row.len row + cursor_col g < fuel)%nat →
  frame g → kept g0 g → wide row → Forall (row_safe columns) new_raw → (k <= length new_raw)%nat →
  wp (Resize.shrink_row fuel reflow columns i g new_raw row) (shrink_inv g0 (S k)).
Proof using Hcolumns GL.
  revert g new_raw row. induction fuel as [|fuel IH]; intros g new_raw row Hfuel; [lia|].
  intros Hf Hk Hwide Hraw Hlen. cbn [Resize.shrink_row].
  pose proof (shrink_first_ok reflow i g row Hf Hwide) as Hfirst.
  destruct (Row.shrink columns row) as [removed row1]. destruct Hfirst as [Hrow1 Hfirst].
  wp_step. wp_call Hfirst. intros [wrapped|] Hw.
  2: { wp_step. split; [done|]. split; [done|]. split; [by constructor|simpl; lia]. }
  wp_step. wp_call (shrink_wide_ok row1 wrapped Hrow1).
  intros [row2 wrapped2] [Hrow2 Hwl].
  set (spacer := match list.last wrapped2 with Some _ => _ | None => _ end).
  destruct (spacer && (length wrapped2 =? 1)%nat) eqn:Eone.
  { wp_step. wp_call (inv_index_mut (columns - 1) _ row2 Hrow2); [lia|].
    intros row3 Hrow3. wp_step. split; [done|]. split; [done|].
    split; [by constructor|simpl; lia]. }
  wp_step. apply wp_mono with (λ w, (length w <= length wrapped2)%nat).
  { destruct spacer eqn:Es; [|wp_step; done].
    assert (2 <= length wrapped2)%nat as H2.
    { destruct wrapped2 as [|? [|? ?]]; [done|done|simpl; lia]. }
    destruct (lookup_lt_is_Some_2 wrapped2 (length wrapped2 - 2)) as [x Hx]; [lia|].
    rewrite (update_at_ok _ _ _ _ Hx). mrun. unfold truncate.
    rewrite length_take, length_insert. lia. }
  intros wrapped3 Hw3. cbv zeta.
  assert (Forall (row_safe columns) (Row.last_mut (flags_insert Flags.WRAPLINE) row2 :: new_raw))
    as Hraw' by (constructor; [by apply inv_last_mut|done]).
  destruct (_ && (length wrapped3 <? columns)%nat).
  { wp_step. split; [done|]. split; [done|]. split; [done|simpl; lia]. }
  wp_step. wp_call (shrink_cursor_ok i g Hf).
  intros g1 (Hf1 & Hk1 & Hc1 & Hc1').
  set (g2 := if (i <? _)%nat then _ else g1).
  assert (frame g2 ∧ kept g1 g2 ∧ cursor_col g2 = cursor_col g1) as (Hf2 & Hk2 & Ec2).
  { unfold g2. destruct (i <? _)%nat; (split; [by try apply frame_offset|by split]). }
  clearbody g2. set (wrapped4 := if (length wrapped3 <? columns)%nat then _ else _).
  assert (length wrapped4 = Nat.max columns (length wrapped3)) as E4.
  { unfold wrapped4. destruct (length wrapped3 <? _)%nat eqn:E; bools; [rewrite length_resize_with|]; lia. }
  clearbody wrapped4. destruct Hwide as [Hwl1 Hwl2].
  apply IH; [|done| |split|done|simpl; lia].
  - rewrite Ec2. unfold Row.len at 1. simpl. rewrite E4.
    destruct Hw as [[Hw1 Hw2]|(-> & Ecl & Hw2)]; [lia|].
    rewrite (Hc1' Ecl ltac:(lia)). simpl in Hwl. lia.
  - eapply kept_trans; [done|]. by eapply kept_trans.
  - unfold Row.len. simpl. lia.
  - unfold Row.len. simpl. lia.
Qed.

Lemma shrink_step_ok g0 k reflow i row st :
  wide row → shrink_inv g0 k st →
  wp (Resize.shrink_step reflow columns (i, row) st) (shrink_inv g0 (S k)).
Proof using Hcolumns GL.
  destruct st as [[g new_raw] buffered]. intros [Hw1 Hw2] (Hf & Hk & Hraw & Hlen).
  unfold Resize.shrink_step. wp_step.
  apply wp_mono with (λ '(g', row'), frame g' ∧ kept g0 g' ∧ wide row').
  { destruct buffered as [b|]; [|done]. wp_step.
    wp_call (cursor_buffer_line_ok _ _ _ g Hf). intros cl Hcl. wp_step.
    assert (wide (Row.append_front b row)).
    { split; unfold Row.append_front, Row.len in *; simpl; rewrite length_app; lia. }
    destruct (_ =? _)%nat; [|done]. split; [by apply frame_column|done]. }
  intros [g' row'] (Hf' & Hk' & Hw'). apply shrink_row_ok; try done. lia.
Qed.
End Shrink.

(** * Every resize *)

Section Resizing.
Context `{External} {T : Type} `{GL : GridCellLaws T}.
Implicit Types (g : Grid.t T) (r row : Row.t T) (l : Z).

Lemma shrink_columns_ok g columns reflow :
  grid_ok row_safe g → (2 <= columns < Grid.columns g)%nat →
  wp (Resize.shrink_columns reflow columns g) (resized (Grid.lines g) columns g).
Proof.
  intros Hg Hc. unfold Resize.shrink_columns. pose proof (unwrap_frame g columns reflow Hg) as Hu.
  cbv zeta in *. set (g1 := Resize.unwrap_cursor _ _) in *.
  destruct (Storage.take_all _) as [taken raw].
  destruct Hu as (Hf & Esa & Ete & Hcol & Hrows & Hlen). set (g2 := Grid.set_raw raw g1) in *.
  pose proof (g_columns _ Hg). pose proof (g_lines _ Hg). pose proof (g_small _ Hg).
  wp_step. wp_call (wp_foldM _ _
    (shrink_inv (Grid.lines g) (Grid.max_scroll_limit g) columns g2)).
  { split; [done|]. split; [done|]. split; [done|]. simpl. lia. }
  { intros k [i row] st E Hinv. apply lookup_enumerate_rev in E as [E _].
    pose proof (proj1 (Forall_forall _ _) Hrows row E) as [Hr1 _ Hr2].
    apply shrink_step_ok; [lia|split; lia|done]. }
  intros [[g3 new_raw] b] (Hf3 & (Ek1 & Ek2 & Ek3) & Hr3 & Hl3).
  rewrite length_enumerate_rev in Hl3. cbv zeta.
  pose proof Hf3 as [Fl Fm Fc Fcu Fsa _ _]. rewrite Fl, Fm.
  set (reversed := truncate _ new_raw).
  assert (Forall (row_safe columns) reversed) as Hrev by (by apply Forall_take).
  assert (Grid.lines g <= length reversed <= Grid.lines g + Grid.max_scroll_limit g)%nat
    as Hlr by (unfold reversed, truncate; rewrite length_take; lia).
  set (g4 := Grid.set_raw _ g3). set (g5 := Grid.set_display_offset _ g4).
  assert (∀ cur sav, 0 <= line (Cursor.point cur) < Z.of_nat (Grid.lines g) →
    (column (Cursor.point cur) < columns)%nat →
    0 <= line (Cursor.point sav) < Z.of_nat (Grid.lines g) →
    (column (Cursor.point sav) < columns)%nat →
    grid_ok row_safe (Grid.set_saved_cursor sav (Grid.set_cursor cur g5))) as Hok.
  { intros cur sav Hcl Hcc Hsl Hsc.
    apply (replace_rows_ok (Grid.set_saved_cursor sav (Grid.set_cursor cur g3)) columns);
      simpl; try done; try lia.
    rewrite Fl, Fm. by destruct Hf3. }
  wp_step. wp_step. wp_step. apply wp_mono with (λ g6, ∃ cur, g6 = Grid.set_cursor cur g5 ∧
    0 <= line (Cursor.point cur) < Z.of_nat (Grid.lines g) ∧
    (column (Cursor.point cur) < columns)%nat ∧
    Cursor.template cur = Cursor.template (Grid.cursor g3)).
  - destruct (negb reflow).
    { wp_step. eexists. split; [reflexivity|]. simpl. split; [done|]. split; [lia|done]. }
    wp_step. apply wp_mono with (λ wrap : bool, wrap = true →
      column (Cursor.point (Grid.cursor g3)) = columns).
    { simpl. destruct (_ =? _)%nat eqn:E; bools; [|by wp_step].
      destruct (index_point_ok (Grid.set_saved_cursor Cursor.default
        (Grid.set_cursor Cursor.default g5)) (Pt (line (Cursor.point (Grid.cursor g3)))
          (columns - 1))) as [x Hx].
      - apply Hok; simpl; lia.
      - dims (grid_dims _ (Hok Cursor.default Cursor.default ltac:(simpl; lia) ltac:(simpl; lia)
          ltac:(simpl; lia) ltac:(simpl; lia))). simpl in *. split; simpl; lia.
      - unfold Grid.index_point, Grid.index in *. simpl in *. rewrite Hx. mrun. done. }
    intros [] Ew.
    + wp_step. eexists. split; [reflexivity|]. simpl. specialize (Ew eq_refl).
      split; [done|]. split; [lia|done].
    + wp_step. unfold Point.grid_clamp, bottommost_line, last_column. simpl. rewrite Fl, Fc.
      casts. destruct (_ <? 0) eqn:E1; bools; [lia|].
      destruct (_ <? _) eqn:E2; bools; [lia|]. simpl. eexists. split; [reflexivity|].
      simpl. split; [done|]. split; [lia|done].
  - intros g6 (cur & -> & Hcl & Hcc & Etc). wp_step. pose proof (proj2 (g_saved _ Hg)).
    split; [apply Hok; simpl; try done; try lia|]. simpl. split; [done|]. split; [done|].
    split; [done|]. simpl in *. congruence.
Qed.

(** Adding lines keeps every line: the history is pulled down first. *)
Lemma grow_lines_ok g target :
  grid_ok row_safe g → (Grid.lines g < target)%nat →
  Z.of_nat (Grid.lines g + Grid.max_scroll_limit g + target) <= 268435455 →
  wp (Resize.grow_lines target g) (λ g', resized target (Grid.columns g) g g' ∧
    ∃ k, k = Nat.min (history_size g) (target - Grid.lines g) ∧
      line (Cursor.point (Grid.cursor g')) = line (Cursor.point (Grid.cursor g)) + Z.of_nat k ∧
      column (Cursor.point (Grid.cursor g')) = column (Cursor.point (Grid.cursor g)) ∧
      history_size g' = (history_size g - (target - Grid.lines g))%nat ∧
      ∀ l, topmost_line g <= l <= bottommost_line g →
        grid_row g' (l + Z.of_nat k) = grid_row g l).
Proof.
  intros Hg Ht Hsm. pose proof Hg as [Hs Hr Hv Hl Hc Hh Hsm0 Ho Hcu Hsa].
  dims (grid_dims _ Hg). simpl in *. unfold Resize.grow_lines. wp_step. wp_step.
  set (added := (target - Grid.lines g)%nat). wp_step.
  wp_call (grow_visible_lines_rows (columns:=Grid.columns g) (P:=row_safe (Grid.columns g))
    (Grid.raw g) target Hs Hr); [lia|lia|lia|lia|].
  intros raw1 (Hs1 & (new & Er1 & En1) & Hr1 & El1 & Ev1). cbv zeta.
  set (g1 := Grid.set_lines target _).
  assert (grid_ok row_safe g1) as Hg1.
  { destruct Hcu, Hsa. split; simpl; try done; try lia; split; simpl; lia. }
  assert (history_size g1 = history_size g) as Eh1 by (unfold history_size; simpl; lia).
  assert (∀ l, has_line (Grid.raw g) l → grid_row g1 (l + Z.of_nat added) = grid_row g l) as Hrow1.
  { intros l Hhl. unfold grid_row, line_row. simpl. rewrite Er1.
    assert (pos raw1 (l + Z.of_nat added) = pos (Grid.raw g) l) as ->
      by (unfold pos, has_line in *; lia).
    apply lookup_app_l. rewrite length_rows by done. by apply pos_lt. }
  rewrite Eh1. set (k := Nat.min (history_size g) added).
  wp_step. apply wp_mono with (λ g2, grid_ok row_safe g2 ∧ same_frame g1 g2 ∧
    (history_size g2 - added = history_size g - added)%nat ∧
    ∀ l, has_line (Grid.raw g) l → grid_row g2 (l + Z.of_nat k) = grid_row g l ).
  { destruct (k =? added)%nat eqn:E; bools.
    - wp_step. split; [done|]. split; [done|]. split; [lia|]. by rewrite E.
    - casts. wp_call (scroll_up_ok (P:=row_safe) g1 0 (Z.of_nat target) (added - k) Hg1);
        [lia|simpl; lia|lia|lia|].
      intros g2 (Hg2 & Hf2 & _ & Eh2 & Hup). split; [done|]. split; [done|].
      simpl in Eh2. rewrite Eh1 in Eh2. split; [unfold k in *; lia|].
      intros l Hhl. rewrite <- Hrow1 by done. destruct Hf2 as [_ _ _ Fl Fm].
      dims (grid_dims _ Hg2). unfold has_line, history_size in *. simpl in *.
      destruct (Hup (l + Z.of_nat k)) as (Hup1 & _); [lia|].
      rewrite Hup1 by lia. f_equal. lia. }
  intros g2 (Hg2 & [Fcu Fsa Fco Fli Fmax] & Eh2 & Hrow2). simpl in *.
  destruct Hcu as [Hcu1 Hcu2], Hsa as [Hsa1 Hsa2]. unfold Line.add_usize.
  wp_step. rewrite Fsa. casts. wp_step. wp_step. simpl. rewrite Fcu. wp_step.
  set (g3 := Grid.set_display_offset _ _).
  assert (grid_ok row_safe g3) as Hg3.
  { destruct Hg2. split; simpl; try done; try lia; split; simpl; lia. }
  wp_call (decrease_scroll_limit_ok g3 added Hg3).
  intros g4 (Hg4 & [Gcu Gsa Gco Gli Gmax] & Eh4 & Hrow4). simpl in *. split.
  { split; [done|]. split; [congruence|]. split; [congruence|]. split; [congruence|].
    by rewrite Gcu. }
  exists k. split; [done|]. rewrite Gcu. split; [done|]. split; [done|].
  split; [change (history_size g3) with (history_size g2) in Eh4; lia|].
  intros l Hll. rewrite <- (Hrow2 l) by (unfold has_line; lia). apply Hrow4.
  change (history_size g3) with (history_size g2) in Eh4. unfold history_size in *.
  pose proof (g_visible _ Hg4). pose proof (st_visible _ (g_storage _ Hg4)).
  unfold has_line. simpl in *. lia.
Qed.

(** Removing lines scrolls the screen up until the cursor fits, and then drops the lines below
    the new height. *)
Lemma shrink_lines_ok g target :
  grid_ok row_safe g → (1 <= target < Grid.lines g)%nat →
  wp (Resize.shrink_lines target g) (λ g', resized target (Grid.columns g) g g' ∧
    ∃ k : nat, Z.of_nat k
        = Z.max 0 (line (Cursor.point (Grid.cursor g)) + 1 - Z.of_nat target) ∧
      line (Cursor.point (Grid.cursor g'))
        = line (Cursor.point (Grid.cursor g)) - Z.of_nat k ∧
      column (Cursor.point (Grid.cursor g')) = column (Cursor.point (Grid.cursor g)) ∧
      history_size g' = Nat.min (history_size g + k) (Grid.max_scroll_limit g) ∧
      ∀ l, topmost_line g' <= l <= bottommost_line g' →
        grid_row g' l = grid_row g (l + Z.of_nat k)).
Proof.
  intros Hg Ht. pose proof Hg as [Hs Hr Hv Hl Hc Hh Hsm0 Ho [Hcu1 Hcu2] [Hsa1 Hsa2]].
  unfold Resize.shrink_lines. casts. wp_step. wp_step.
  set (k := (Z.to_nat _ + 1 - target)%nat).
  wp_step. apply wp_mono with (λ g1, grid_ok row_safe g1 ∧
    Grid.lines g1 = Grid.lines g ∧ Grid.columns g1 = Grid.columns g ∧
    Grid.max_scroll_limit g1 = Grid.max_scroll_limit g ∧
    Cursor.template (Grid.cursor g1) = Cursor.template (Grid.cursor g) ∧
    line (Cursor.point (Grid.cursor g1)) = line (Cursor.point (Grid.cursor g)) - Z.of_nat k ∧
    column (Cursor.point (Grid.cursor g1)) = column (Cursor.point (Grid.cursor g)) ∧
    Grid.saved_cursor g1 = Grid.saved_cursor g ∧
    history_size g1 = Nat.min (history_size g + k) (Grid.max_scroll_limit g) ∧
    ∀ l, topmost_line g1 <= l < Z.of_nat target →
      grid_row g1 l = grid_row g (l + Z.of_nat k)).
  { destruct (0 <? k)%nat eqn:E; bools.
    - wp_step. casts.
      wp_call (scroll_up_ok (P:=row_safe) g 0 (Z.of_nat (Grid.lines g)) k Hg);
        [lia|lia|lia|lia|].
      intros g1 (Hg1 & [Fcu Fsa Fco Fli Fmax] & _ & Eh1 & Hup). wp_step. simpl. rewrite Fcu.
      split; [apply set_cursor_ok; [done|split; simpl; lia]|].
      do 4 (split; [done|]). split; [lia|]. split; [done|]. split; [done|].
      split; [done|]. intros l Hll. change (topmost_line g1 <= l < Z.of_nat target) in Hll.
      dims (grid_dims _ Hg1). simpl in *.
      apply (Hup l); simpl; lia.
    - wp_step. assert (k = 0%nat) as -> by lia. do 5 (split; [done|]). split; [lia|].
      do 2 (split; [done|]). split; [unfold history_size in *; simpl; lia|].
      intros l _. f_equal. lia. }
  intros g1 (Hg1 & Fli & Fco & Fmax & Fte & Fcl & Fcc & Fsa & Eh1 & Hrow1).
  simpl. rewrite Fli. wp_step. wp_step. set (n := (Grid.lines g - target)%nat).
  pose proof Hg1 as [Hs1 Hr1 Hv1 _ _ Hh1 _ Ho1 _ _].
  pose proof (st_visible _ Hs1). pose proof (st_len _ Hs1).
  wp_step. rewrite rotate_pos by (done || lia). wp_call (rotate_down_rows (Grid.raw g1) n Hs1).
  intros raw2 (Hs2 & Ei2 & Ev2 & El2 & Erow2). wp_step.
  assert (rows_all (row_safe (Grid.columns g)) raw2) as Hr2.
  { unfold rows_all. rewrite Ei2, <- Fco. done. }
  wp_call (shrink_visible_lines_rows (P:=row_safe (Grid.columns g)) raw2 target Hs2);
    [lia|lia|].
  intros raw3 (Hs3 & Er3 & El3 & Ev3 & Hr3). specialize (Hr3 Hr2). wp_step.
  assert (grid_ok row_safe (Grid.set_lines target (Grid.set_raw raw3 (Grid.set_saved_cursor
    (Cursor.set_line (Z.min (line (Cursor.point (Grid.saved_cursor g1))) (Z.of_nat target - 1))
      (Grid.saved_cursor g1)) g1)))) as Hg'.
  { rewrite Fsa. split; simpl; rewrite ?Fco; try done; try lia; split; simpl; lia. }
  split; [by split|]. simpl in *. exists k. split; [lia|]. split; [done|]. split; [done|].
  split; [unfold history_size in *; simpl in *; lia|].
  intros l Hll. apply (grid_has_line _ _ Hg') in Hll. simpl in Hll.
  rewrite <- Hrow1.
  - unfold grid_row, line_row. simpl. pose proof (pos_lt _ _ Hs3 Hll).
    rewrite Er3, lookup_take_lt by lia. unfold has_line in Hll.
    rewrite Erow2 by (unfold pos in *; lia). f_equal. unfold pos. lia.
  - dims (grid_dims _ Hg1). unfold has_line in Hll. simpl in *. lia.
Qed.
End Resizing.

(** * The properties of a resize *)

Section ResizeProperties.
Context `{External} {T : Type} `{GL : GridCellLaws T}.
Implicit Types (g : Grid.t T).

Lemma resize_ok g reflow lines columns :
  grid_ok row_safe g → (1 <= lines)%nat → (2 <= columns)%nat →
  Z.of_nat (Grid.lines g + Grid.max_scroll_limit g + lines) <= 268435455 →
  wp (Resize.resize reflow lines columns g) (resized lines columns g).
Proof.
  intros Hg Hl Hc Hs. unfold Resize.resize. cbv zeta.
  set (g0 := Grid.set_cursor _ g).
  assert (grid_ok row_safe g0) as Hg0 by (apply set_cursor_ok; [done|apply (g_cursor _ Hg)]).
  wp_step. apply wp_mono with (resized lines (Grid.columns g) g0).
  { destruct (Nat.compare_spec (Grid.lines g0) lines) as [E|E|E].
    - wp_step. split; [done|]. done.
    - wp_call (grow_lines_ok g0 lines Hg0 E); [simpl; lia|]. by intros g' [? _].
    - wp_call (shrink_lines_ok g0 lines Hg0); [lia|]. by intros g' [? _]. }
  intros g1 (Hg1 & El1 & Ec1 & Em1 & Et1). wp_step.
  apply wp_mono with (resized lines columns g0).
  { destruct (Nat.compare_spec (Grid.columns g1) columns) as [E|E|E].
    - wp_step. split; [done|]. split; [done|]. split; [done|]. done.
    - wp_call (grow_columns_ok g1 columns reflow Hg1 E).
      intros g2 (Hg2 & El2 & Ec2 & Em2 & Et2). split; [done|]. split; [congruence|].
      split; [done|]. split; congruence.
    - wp_call (shrink_columns_ok g1 columns reflow Hg1); [lia|].
      intros g2 (Hg2 & El2 & Ec2 & Em2 & Et2). split; [done|]. split; [congruence|].
      split; [done|]. split; congruence. }
  intros g2 (Hg2 & El2 & Ec2 & Em2 & Et2). wp_step.
  split; [apply set_cursor_ok; [done|apply (g_cursor _ Hg2)]|]. done.
Qed.

(** Resizing, with or without reflow, never panics, ends (two columns leave room for a wide
    character), and gives a valid grid of the requested size with the same template. *)
Theorem resize_total g reflow lines columns :
  grid_ok row_safe g → (1 <= lines)%nat → (2 <= columns)%nat →
  Z.of_nat (Grid.lines g + Grid.max_scroll_limit g + lines) <= 268435455 →
  ∃ g', Resize.resize reflow lines columns g = Some g' ∧ grid_ok row_safe g' ∧
    Grid.lines g' = lines ∧ Grid.columns g' = columns ∧
    Grid.max_scroll_limit g' = Grid.max_scroll_limit g ∧
    Cursor.template (Grid.cursor g') = Cursor.template (Grid.cursor g).
Proof.
  intros Hg Hl Hc Hs. pose proof (resize_ok g reflow lines columns Hg Hl Hc Hs) as Hwp.
  destruct (Resize.resize reflow lines columns g) as [g'|]; [by exists g'|done].
Qed.

(** A taller terminal keeps every line of the buffer: the screen is filled from the history,
    and the cursor moves down with its line. *)
Theorem resize_taller g reflow lines :
  grid_ok row_safe g → (Grid.lines g < lines)%nat →
  Z.of_nat (Grid.lines g + Grid.max_scroll_limit g + lines) <= 268435455 →
  wp (Resize.resize reflow lines (Grid.columns g) g) (λ g',
    ∃ k, k = Nat.min (history_size g) (lines - Grid.lines g) ∧
      line (Cursor.point (Grid.cursor g')) = line (Cursor.point (Grid.cursor g)) + Z.of_nat k ∧
      ∀ l, topmost_line g <= l <= bottommost_line g →
        grid_row g' (l + Z.of_nat k) = grid_row g l).
Proof.
  intros Hg Hl Hs. unfold Resize.resize. cbv zeta. set (g0 := Grid.set_cursor _ g).
  assert (grid_ok row_safe g0) as Hg0 by (apply set_cursor_ok; [done|apply (g_cursor _ Hg)]).
  rewrite (proj2 (Nat.compare_lt_iff (Grid.lines g0) lines)) by done.
  wp_step. wp_call (grow_lines_ok g0 lines Hg0 Hl); [simpl; lia|].
  intros g1 ((_ & _ & Ec & _) & k & Ek & Ecl & _ & _ & Hrow). rewrite Ec, Nat.compare_refl.
  wp_step. wp_step. exists k. split; [done|]. split; [done|]. exact Hrow.
Qed.

(** A shorter terminal moves the lines above the cursor into the history until the cursor
    fits on the screen, and keeps the cursor on its text. *)
Theorem resize_shorter g reflow lines :
  grid_ok row_safe g → (1 <= lines < Grid.lines g)%nat →
  wp (Resize.resize reflow lines (Grid.columns g) g) (λ g',
    ∃ k : nat, Z.of_nat k
        = Z.max 0 (line (Cursor.point (Grid.cursor g)) + 1 - Z.of_nat lines) ∧
      line (Cursor.point (Grid.cursor g')) = line (Cursor.point (Grid.cursor g)) - Z.of_nat k ∧
      history_size g' = Nat.min (history_size g + k) (Grid.max_scroll_limit g) ∧
      ∀ l, topmost_line g' <= l <= bottommost_line g' →
        grid_row g' l = grid_row g (l + Z.of_nat k)).
Proof.
  intros Hg Hl. unfold Resize.resize. cbv zeta. set (g0 := Grid.set_cursor _ g).
  assert (grid_ok row_safe g0) as Hg0 by (apply set_cursor_ok; [done|apply (g_cursor _ Hg)]).
  rewrite (proj2 (Nat.compare_gt_iff (Grid.lines g0) lines)) by (simpl; lia).
  wp_step. wp_call (shrink_lines_ok g0 lines Hg0 Hl).
  intros g1 ((_ & _ & Ec & _) & k & Ek & Ecl & _ & Eh & Hrow). rewrite Ec, Nat.compare_refl.
  wp_step. wp_step. exists k. split; [done|]. split; [done|]. split; [done|]. exact Hrow.
Qed.
End ResizeProperties.

#[local] Existing Instance Sample.external.

Lemma resize_total_witness :
  ∃ g, Resize.resize true 5 4 GridSample.grid = Some g ∧ Grid.columns g = 4%nat.
Proof.
  destruct (resize_total GridSample.grid true 5 4 GridSample.grid_is_ok
    ltac:(lia) ltac:(lia) ltac:(simpl; lia)) as (g & E & _ & _ & Ec & _).
  exists g. split; [exact E|exact Ec].
Defined.

Lemma resize_taller_witness : is_Some (Resize.resize true 5 2 GridSample.grid).
Proof.
  pose proof (resize_taller GridSample.grid true 5 GridSample.grid_is_ok
    ltac:(simpl; lia) ltac:(simpl; lia)) as Hwp.
  change (Grid.columns GridSample.grid) with 2%nat in Hwp.
  destruct (Resize.resize true 5 2 GridSample.grid) as [g|]; [by exists g|destruct Hwp].
Defined.

Lemma resize_shorter_witness : is_Some (Resize.resize true 2 2 GridSample.grid).
Proof.
  pose proof (resize_shorter GridSample.grid true 2 GridSample.grid_is_ok
    ltac:(simpl; lia)) as Hwp.
  change (Grid.columns GridSample.grid) with 2%nat in Hwp.
  destruct (Resize.resize true 2 2 GridSample.grid) as [g|]; [by exists g|destruct Hwp].
Defined.
