(* ===== verification/TermData.v ===== *)
(** The data of the terminal ([cutty_terminal/src/term/mod.rs], [term/color.rs], [event.rs]):
    mode flags, viewport coordinates, damage tracking, tabstops, colours, configuration and the
    events sent to the user interface. *)
From S2P Require Import Prelude Index Cells.
From Stdlib Require String Ascii.
Import Stdlib.Strings.String.StringSyntax.
#[local] Delimit Scope string_scope with string.
#[local] Open Scope N_scope.

(** Text literals as lists of characters. *)
Definition str (s : String.string) : text :=
  Ascii.N_of_ascii <$> String.list_ascii_of_string s.
Arguments str s%_string.
(** The escape character. *)
Definition ESC : char := 27.

(** [{}] of a [usize] and of an [i32]. *)
Definition show_nat (n : nat) : text := digits (N.of_nat n).
Definition show_Z (z : Z) : text :=
  if (z <? 0)%Z then 45 :: digits (Z.to_N (- z)) else digits (Z.to_N z).

(** * Terminal modes *)

(** [bitflags! TermMode]: a set over [u32]. *)
Abbreviation TermMode := N.

Module TermMode.
Definition NONE : TermMode := 0.
Definition SHOW_CURSOR : TermMode := 1.
Definition APP_CURSOR : TermMode := 2 ^ 1.
Definition APP_KEYPAD : TermMode := 2 ^ 2.
Definition MOUSE_REPORT_CLICK : TermMode := 2 ^ 3.
Definition BRACKETED_PASTE : TermMode := 2 ^ 4.
Definition SGR_MOUSE : TermMode := 2 ^ 5.
Definition MOUSE_MOTION : TermMode := 2 ^ 6.
Definition LINE_WRAP : TermMode := 2 ^ 7.
Definition LINE_FEED_NEW_LINE : TermMode := 2 ^ 8.
Definition ORIGIN : TermMode := 2 ^ 9.
Definition INSERT : TermMode := 2 ^ 10.
Definition FOCUS_IN_OUT : TermMode := 2 ^ 11.
Definition ALT_SCREEN : TermMode := 2 ^ 12.
Definition MOUSE_DRAG : TermMode := 2 ^ 13.
Definition UTF8_MOUSE : TermMode := 2 ^ 14.
Definition ALTERNATE_SCROLL : TermMode := 2 ^ 15.
Definition VI : TermMode := 2 ^ 16.
Definition URGENCY_HINTS : TermMode := 2 ^ 17.
Definition DISAMBIGUATE_ESC_CODES : TermMode := 2 ^ 18.
Definition REPORT_EVENT_TYPES : TermMode := 2 ^ 19.
Definition REPORT_ALTERNATE_KEYS : TermMode := 2 ^ 20.
Definition REPORT_ALL_KEYS_AS_ESC : TermMode := 2 ^ 21.
Definition REPORT_ASSOCIATED_TEXT : TermMode := 2 ^ 22.
Definition MOUSE_MODE : TermMode :=
  N.lor MOUSE_REPORT_CLICK (N.lor MOUSE_MOTION MOUSE_DRAG).
Definition KITTY_KEYBOARD_PROTOCOL : TermMode :=
  N.lor DISAMBIGUATE_ESC_CODES (N.lor REPORT_EVENT_TYPES (N.lor REPORT_ALTERNATE_KEYS
    (N.lor REPORT_ALL_KEYS_AS_ESC REPORT_ASSOCIATED_TEXT))).
Definition ANY : TermMode := 4294967295.

Definition contains (m f : TermMode) : bool := N.land m f =? f.
Definition insert (f m : TermMode) : TermMode := N.lor m f.
Definition remove (f m : TermMode) : TermMode := N.ldiff m f.
Definition toggle (f m : TermMode) : TermMode := N.lxor m f.
(** [mode.set(f, b)]. *)
Definition set (f : TermMode) (b : bool) (m : TermMode) : TermMode :=
  if b then insert f m else remove f m.

Definition default : TermMode :=
  N.lor SHOW_CURSOR (N.lor LINE_WRAP (N.lor ALTERNATE_SCROLL URGENCY_HINTS)).

Definition from_keyboard `{External} (value : KeyboardModes) : TermMode :=
  let mode := 0 in
  let mode := set DISAMBIGUATE_ESC_CODES (km_DISAMBIGUATE_ESC_CODES value) mode in
  let mode := set REPORT_EVENT_TYPES (km_REPORT_EVENT_TYPES value) mode in
  let mode := set REPORT_ALTERNATE_KEYS (km_REPORT_ALTERNATE_KEYS value) mode in
  let mode := set REPORT_ALL_KEYS_AS_ESC (km_REPORT_ALL_KEYS_AS_ESC value) mode in
  set REPORT_ASSOCIATED_TEXT (km_REPORT_ASSOCIATED_TEXT value) mode.
End TermMode.

(** [vte::ansi::KeyboardModesApplyBehavior]. *)
Inductive KeyboardModesApplyBehavior := Replace | Union | Difference.

(** * Viewport coordinates *)

Definition point_to_viewport (display_offset : nat) (point : Point) :
    option (option (GPoint nat)) :=
  viewport_line ← i32_add (line point) (as_i32 display_offset);
  Some (if (0 <=? viewport_line)%Z then Some (Pt (Z.to_nat viewport_line) (column point))
        else None).

Definition viewport_to_point (display_offset : nat) (point : GPoint nat) : option Point :=
  l ← Line.sub_usize (as_i32 (line point)) display_offset;
  Some (Pt l (column point)).

(** * Damage *)

Module LineDamageBounds.
Record t := mk { line : nat; left : nat; right : nat }.
Definition new (line left right : nat) : t := mk line left right.
Definition undamaged (line num_cols : nat) : t := mk line num_cols 0.
Definition reset (num_cols : nat) (s : t) : t := undamaged (line s) num_cols.
Definition expand (l r : nat) (s : t) : t :=
  mk (line s) (Nat.min (left s) l) (Nat.max (right s) r).
Definition is_damaged (s : t) : bool := (left s <=? right s)%nat.
#[export] Instance t_eq_dec : EqDecision t.
Proof. solve_decision. Defined.
End LineDamageBounds.

(** [TermDamageIterator]: the lines not yet visited, and the display offset. *)
Module TermDamageIterator.
Record t := mk { line_damage : list LineDamageBounds.t; display_offset : nat }.

Definition new (line_damage : list LineDamageBounds.t) (display_offset : nat) : t :=
  mk (take (length line_damage - display_offset) line_damage) display_offset.

(** [find_map] over the rest of the slice. *)
Fixpoint find (l : list LineDamageBounds.t) (offset : nat) :
    option LineDamageBounds.t * list LineDamageBounds.t :=
  match l with
  | [] => (None, [])
  | b :: l =>
      if LineDamageBounds.is_damaged b
      then (Some (LineDamageBounds.new (LineDamageBounds.line b + offset)%nat
                    (LineDamageBounds.left b) (LineDamageBounds.right b)), l)
      else find l offset
  end.
Definition next (s : t) : option LineDamageBounds.t * t :=
  let '(item, rest) := find (line_damage s) (display_offset s) in
  (item, mk rest (display_offset s)).

(** All items of the iterator. *)
Fixpoint collect (fuel : nat) (s : t) : list LineDamageBounds.t :=
  match fuel with
  | O => []
  | S fuel =>
      match next s with
      | (Some item, s) => item :: collect fuel s
      | (None, _) => []
      end
  end.
End TermDamageIterator.

(** The result of [Term::damage]. *)
Inductive TermDamage := DamageFull | DamagePartial (it : TermDamageIterator.t).

Module TermDamageState.
Record t := mk {
  full : bool; lines : list LineDamageBounds.t; last_cursor : Point }.

Definition fresh_lines (num_cols num_lines : nat) : list LineDamageBounds.t :=
  (λ line, LineDamageBounds.undamaged line num_cols) <$> seq 0 num_lines.

Definition new (num_cols num_lines : nat) : t :=
  mk true (fresh_lines num_cols num_lines) Point.default.

Definition resize (num_cols num_lines : nat) (s : t) : t :=
  mk true (fresh_lines num_cols num_lines) Point.default.

Definition damage_line (line left right : nat) (s : t) : option t :=
  lines ← update_at line (LineDamageBounds.expand left right) (lines s);
  Some (mk (full s) lines (last_cursor s)).

Definition damage_point (p : GPoint nat) (s : t) : option t :=
  damage_line (Index.line p) (column p) (column p) s.

Definition reset (num_cols : nat) (s : t) : t :=
  mk false (LineDamageBounds.reset num_cols <$> lines s) (last_cursor s).
End TermDamageState.

(** * Tabstops *)

Module TabStops.
Definition INITIAL_TABSTOPS : nat := 8.
Abbreviation t := (list bool).

Definition is_tabstop (i : nat) : bool := (i mod INITIAL_TABSTOPS =? 0)%nat.
Definition new (columns : nat) : t := is_tabstop <$> seq 0 columns.
(** The pointer write zeroes every element. *)
Definition clear_all (tabs : t) : t := (λ _, false) <$> tabs.
(** The closure of [resize_with] counts up from the old length. *)
Definition resize (columns : nat) (tabs : t) : t :=
  take columns tabs ++ (is_tabstop <$> seq (length tabs) (columns - length tabs)).
Definition index (i : nat) (tabs : t) : option bool := tabs !! i.
Definition index_mut (i : nat) (b : bool) (tabs : t) : option t := update_at i (λ _, b) tabs.
End TabStops.

(** * Colours *)

Module Colors.
Definition COUNT : nat := 269.
(** [NamedColor::Cursor as usize]. *)
Definition CURSOR : nat := 258.

Section ops.
Context `{External}.
Abbreviation t := (list (option Rgb)).
Definition default : t := replicate COUNT None.
Definition index (i : nat) (s : t) : option (option Rgb) := s !! i.
Definition index_mut (i : nat) (x : option Rgb) (s : t) : option t := update_at i (λ _, x) s.
End ops.
End Colors.

(** * Configuration and events *)

Inductive Osc52 := Disabled | OnlyCopy | OnlyPaste | CopyPaste.
#[export] Instance Osc52_eq_dec : EqDecision Osc52.
Proof. solve_decision. Defined.

Inductive ClipboardType := Clipboard | ClipboardSelection.

(** [struct WindowSize]: four [u16]. *)
Record WindowSize := mkWindowSize {
  num_lines : N; num_cols : N; cell_width : N; cell_height : N }.

Module Config.
Record t `{External} := mk {
  scrolling_history : nat;
  default_cursor_style : CursorStyle;
  vi_mode_cursor_style : option CursorStyle;
  semantic_escape_chars : text;
  kitty_keyboard : bool;
  osc52 : Osc52;
}.
Arguments mk {_} _ _ _ _ _ _.
Arguments scrolling_history {_} _.
Arguments default_cursor_style {_} _.
Arguments vi_mode_cursor_style {_} _.
Arguments semantic_escape_chars {_} _.
Arguments kitty_keyboard {_} _.
Arguments osc52 {_} _.

(** The characters of [SEMANTIC_ESCAPE_CHARS]; the second one is U+2502. *)
Definition SEMANTIC_ESCAPE_CHARS : text :=
  [44; 9474] ++ str "`|:" ++ [34] ++ str "' ()[]{}<>" ++ [9].

Definition default `{External} : t :=
  mk (N.to_nat 10000) (mkCursorStyle CursorShape_default false) None SEMANTIC_ESCAPE_CHARS false OnlyCopy.
End Config.

(** [enum Event]: the formatters are functions, a multiplication of [u16] may panic in that of
    [TextAreaSizeRequest]. *)
Inductive Event `{External} :=
  | MouseCursorDirty
  | Title (t : text)
  | ResetTitle
  | ClipboardStore (ty : ClipboardType) (t : text)
  | ClipboardLoad (ty : ClipboardType) (f : text → text)
  | ColorRequest (index : nat) (f : Rgb → text)
  | PtyWrite (t : text)
  | TextAreaSizeRequest (f : WindowSize → option text)
  | CursorBlinkingChange
  | Wakeup
  | Bell
  | Exit
  | ChildExit (status : Z).
Arguments MouseCursorDirty {_}.
Arguments Title {_} t.
Arguments ResetTitle {_}.
Arguments ClipboardStore {_} ty t.
Arguments ClipboardLoad {_} ty f.
Arguments ColorRequest {_} index f.
Arguments PtyWrite {_} t.
Arguments TextAreaSizeRequest {_} f.
Arguments CursorBlinkingChange {_}.
Arguments Wakeup {_}.
Arguments Bell {_}.
Arguments Exit {_}.
Arguments ChildExit {_} status.

(** [enum ModeState] with its representation. *)
Inductive ModeState := NotSupported | ModeSet | ModeReset.
Module ModeState.
Definition as_u8 (s : ModeState) : N :=
  match s with NotSupported => 0 | ModeSet => 1 | ModeReset => 2 end.
Definition from_bool (b : bool) : ModeState := if b then ModeSet else ModeReset.
End ModeState.

(** * The version number *)

Section Version.
(** [str::parse::<usize>()]: decimal digits after an optional plus sign. *)
Definition parse_digits (t : text) : option N :=
  foldl (λ acc ch, n ← acc;
           if (48 <=? ch) && (ch <=? 57) && (n * 10 + (ch - 48) <? 2 ^ 64)
           then Some (n * 10 + (ch - 48)) else None) (Some 0) t.
Definition parse_usize (t : text) : option N :=
  match t with
  | [] => None
  | 43 :: [] => None
  | 43 :: t => parse_digits t
  | t => parse_digits t
  end.

(** [str::split]. *)
Fixpoint split_on (sep : char) (t : text) : list text :=
  match t with
  | [] => [[]]
  | ch :: t =>
      match split_on sep t with
      | [] => [[ch]]
      | w :: ws => if ch =? sep then [] :: w :: ws else (ch :: w) :: ws
      end
  end.

(** The loop of [version_number] over the reversed components. *)
Fixpoint version_sum (i : N) (parts : list text) : N :=
  match parts with
  | [] => 0
  | p :: parts => 100 ^ i * from_option id 0 (parse_usize p) + version_sum (i + 1) parts
  end.

Definition version_number (version : text) : N :=
  let version := match rposition (N.eqb 45) version with
                 | Some separator => take separator version
                 | None => version
                 end in
  version_sum 0 (reverse (split_on 46 version)).
End Version.

#[global] Arguments TermDamageState.damage_line _ _ _ _ : simpl never.
#[global] Arguments TermDamageState.damage_point _ _ : simpl never.

(** * Properties *)

Section ModeFacts.
Implicit Types (m f g : TermMode).

Lemma mode_contains_insert m f : TermMode.contains (TermMode.insert f m) f = true.
Proof. apply contains_insert. Qed.

Lemma mode_contains_remove m f :
  f ≠ 0 → TermMode.contains (TermMode.remove f m) f = false.
Proof. apply contains_remove. Qed.

(** Flags with no bits in common do not see each other. *)
Lemma mode_insert_other m f g :
  N.land f g = 0 → TermMode.contains (TermMode.insert f m) g = TermMode.contains m g.
Proof.
  intros Hd. unfold TermMode.contains, TermMode.insert. f_equal.
  apply N.bits_inj. intros i. apply (f_equal (λ x, N.testbit x i)) in Hd. revert Hd.
  rewrite !N.land_spec, N.lor_spec, N.bits_0.
  by destruct (N.testbit m i), (N.testbit f i), (N.testbit g i).
Qed.

Lemma mode_remove_other m f g :
  N.land f g = 0 → TermMode.contains (TermMode.remove f m) g = TermMode.contains m g.
Proof.
  intros Hd. unfold TermMode.contains, TermMode.remove. f_equal.
  apply N.bits_inj. intros i. apply (f_equal (λ x, N.testbit x i)) in Hd. revert Hd.
  rewrite !N.land_spec, N.ldiff_spec, N.bits_0.
  by destruct (N.testbit m i), (N.testbit f i), (N.testbit g i).
Qed.

Lemma mode_toggle_twice m f : TermMode.toggle f (TermMode.toggle f m) = m.
Proof. unfold TermMode.toggle. by rewrite N.lxor_assoc, N.lxor_nilpotent, N.lxor_0_r. Qed.
End ModeFacts.

(** Converting a point to the viewport and back is the identity, and a point is outside of
    the viewport exactly when it is above its top line. *)
Theorem viewport_roundtrip display_offset (p : Point) :
  (Z.of_nat display_offset <= 268435455)%Z → (-268435455 <= line p <= 268435455)%Z →
  match point_to_viewport display_offset p with
  | Some (Some q) => viewport_to_point display_offset q = Some p ∧
      (- Z.of_nat display_offset <= line p)%Z
  | Some None => (line p < - Z.of_nat display_offset)%Z
  | None => False
  end.
Proof.
  intros Ho Hp. unfold point_to_viewport, viewport_to_point, Line.sub_usize. casts.
  rewrite i32_add_ok by lia. simpl.
  destruct (0 <=? line p + Z.of_nat display_offset)%Z eqn:E; bools; [|lia].
  split; [|lia]. simpl. rewrite as_i32_small by lia. rewrite Z2Nat.id by lia.
  rewrite i32_sub_ok by lia. destruct p as [l c]. simpl. do 2 f_equal. lia.
Qed.

Lemma viewport_roundtrip_witness :
  point_to_viewport 3 (Pt (-2)%Z 5%nat) = Some (Some (Pt 1%nat 5%nat)) ∧
  viewport_to_point 3 (Pt 1%nat 5%nat) = Some (Pt (-2)%Z 5%nat).
Proof.
  pose proof (viewport_roundtrip 3 (Pt (-2)%Z 5%nat) ltac:(lia) ltac:(simpl; lia)) as Hr.
  split; [reflexivity|].
  change (point_to_viewport 3 (Pt (-2)%Z 5%nat)) with (Some (Some (Pt 1%nat 5%nat))) in Hr.
  apply Hr.
Defined.

Section DamageFacts.
Implicit Types (b : LineDamageBounds.t) (l : list LineDamageBounds.t).

(** The column [c] of a line is damaged. *)
Definition covers (c : nat) b : Prop :=
  (LineDamageBounds.left b <= c <= LineDamageBounds.right b)%nat.

Lemma expand_covers b left right c :
  covers c b ∨ (left <= c <= right)%nat → covers c (LineDamageBounds.expand left right b).
Proof. unfold covers, LineDamageBounds.expand. simpl. lia. Qed.

Lemma covers_damaged c b : covers c b → LineDamageBounds.is_damaged b = true.
Proof. unfold covers, LineDamageBounds.is_damaged. intros. apply Nat.leb_le. lia. Qed.

Lemma collect_filter fuel l offset :
  (length l < fuel)%nat →
  TermDamageIterator.collect fuel (TermDamageIterator.mk l offset)
    = (λ b, LineDamageBounds.new (LineDamageBounds.line b + offset)%nat
              (LineDamageBounds.left b) (LineDamageBounds.right b))
        <$> filter (λ b, LineDamageBounds.is_damaged b = true) l.
Proof.
  revert fuel. induction l as [|b l IH]; intros fuel Hf; destruct fuel as [|fuel]; simpl in *;
    try lia; [done|].
  unfold TermDamageIterator.next. simpl. rewrite filter_cons.
  destruct (LineDamageBounds.is_damaged b) eqn:E.
  - rewrite decide_True by done. simpl. f_equal. apply IH. lia.
  - rewrite decide_False by done. rewrite <- (IH (S fuel)) by lia. reflexivity.
Qed.
End DamageFacts.

(** The iterator over the damage yields exactly the damaged lines that are visible, shifted
    to their position in the viewport, in order. *)
Theorem damage_iterator_correct (l : list LineDamageBounds.t) (display_offset : nat) :
  TermDamageIterator.collect (S (length l)) (TermDamageIterator.new l display_offset)
    = (λ b, LineDamageBounds.new (LineDamageBounds.line b + display_offset)%nat
              (LineDamageBounds.left b) (LineDamageBounds.right b))
        <$> filter (λ b, LineDamageBounds.is_damaged b = true)
              (take (length l - display_offset) l).
Proof. apply collect_filter. rewrite length_take. lia. Qed.

Section TabFacts.
Implicit Types (tabs : TabStops.t).

Lemma length_tabs_new columns : length (TabStops.new columns) = columns.
Proof. unfold TabStops.new. by rewrite length_fmap, length_seq. Qed.

Lemma length_tabs_resize columns tabs : length (TabStops.resize columns tabs) = columns.
Proof.
  unfold TabStops.resize. rewrite length_app, length_take, length_fmap, length_seq. lia.
Qed.

(** Resizing keeps the tabstops of the remaining columns and gives the new columns the
    tabstops of a new terminal. *)
Theorem tabs_resize_correct columns tabs i :
  (i < columns)%nat →
  TabStops.index i (TabStops.resize columns tabs) =
    if (i <? length tabs)%nat then TabStops.index i tabs
    else TabStops.index i (TabStops.new columns).
Proof.
  intros Hi. unfold TabStops.index, TabStops.resize, TabStops.new.
  destruct (i <? length tabs)%nat eqn:E; bools.
  - rewrite lookup_app_l by (rewrite length_take; lia). by rewrite lookup_take_lt.
  - rewrite lookup_app_r by (rewrite length_take; lia).
    rewrite length_take, !list_lookup_fmap.
    rewrite !(lookup_seq_lt _ _ _) by lia. simpl. do 2 f_equal. lia.
Qed.
End TabFacts.

Lemma tabs_resize_correct_witness :
  TabStops.index 16 (TabStops.resize 20 (TabStops.clear_all (TabStops.new 10))) = Some true.
Proof.
  rewrite (tabs_resize_correct 20 (TabStops.clear_all (TabStops.new 10)) 16 ltac:(lia)).
  reflexivity.
Defined.

Example version_number_examples :
  version_number (str "0.0.1-dev") = 1 ∧ version_number (str "0.1.2-dev") = 102 ∧
  version_number (str "1.2.3-dev") = 10203 ∧ version_number (str "999.99.99") = 9999999.
Proof. by_compute. Qed.
