(* ===== verification/Selections.v ===== *)
(** Text selections ([cutty_terminal/src/selection.rs]), except for their expansion to words and
    lines, which searches the terminal (file [Searches]).

    The theorems show what scrolling does to a selection and that the range of a selection is a
    well-formed set of cells. *)
From S2P Require Import Prelude Index Cells Grids.
#[local] Open Scope Z_scope.

Record Anchor := mkAnchor { point : Point; side : Side }.
#[export] Instance Anchor_eq_dec : EqDecision Anchor.
Proof. solve_decision. Defined.

Inductive SelectionType := Simple | Block | Semantic | Lines.
#[export] Instance SelectionType_eq_dec : EqDecision SelectionType.
Proof. solve_decision. Defined.

Module SelectionRange.
Record t := mk { start : Point; end_ : Point; is_block : bool }.

Definition new (start end_ : Point) (is_block : bool) : option t :=
  _ ← ensure (Point.leb start end_); Some (mk start end_ is_block).

Definition contains (s : t) (p : Point) : bool :=
  (line (start s) <=? line p) && (line p <=? line (end_ s))
  && ((column (start s) <=? column p)%nat
      || (negb (line (start s) =? line p) && negb (is_block s)))
  && ((column p <=? column (end_ s))%nat
      || (negb (line (end_ s) =? line p) && negb (is_block s))).

Section ops.
Context `{External}.

(** [indexed] is a cell with its point. *)
Definition contains_cell (s : t) (indexed : Point * Cell) (point : Point)
    (shape : CursorShape) : bool :=
  let '(ip, cell) := indexed in
  if bool_decide (shape = CursorShape_Block) && bool_decide (point = ip)
     && (bool_decide (start s = ip) || bool_decide (end_ s = ip)
         || is_block s
            && ((line (start s) =? line ip) && (column (end_ s) =? column ip)%nat
                || (line (end_ s) =? line ip) && (column (start s) =? column ip)%nat))
  then false
  else if contains s ip then true
  else Flags.contains (cell_flags cell) Flags.WIDE_CHAR
       && contains s (Pt (line ip) (column ip + 1)%nat).
End ops.
End SelectionRange.

Module Selection.
(** [struct Selection], with the two ends of [region]. *)
Record t := mk { ty : SelectionType; start : Anchor; end_ : Anchor }.

Definition new (ty : SelectionType) (location : Point) (side : Side) : t :=
  mk ty (mkAnchor location side) (mkAnchor location side).

Definition update (p : Point) (side : Side) (s : t) : t :=
  mk (ty s) (start s) (mkAnchor p side).

(** The anchors in order, as [rotate] and [to_range] take them. *)
Definition swapped (s : t) : bool := Point.ltb (point (end_ s)) (point (start s)).
Definition first (s : t) : Anchor := if swapped s then end_ s else start s.
Definition second (s : t) : Anchor := if swapped s then start s else end_ s.
Definition set_ordered (a b : Anchor) (s : t) : t :=
  if swapped s then mk (ty s) b a else mk (ty s) a b.

(** Rotation of the start; [None] inside means that the selection is dropped. *)
Definition rotate_start {D} `{Dimensions D} (d : D) (range_top range_bottom delta : Z)
    (ty : SelectionType) (a b : Anchor) : option (option Anchor) :=
  if ((range_top <=? line (point a)) || (range_top =? 0)) && (line (point a) <? range_bottom)
  then
    l ← i32_sub (line (point a)) delta;
    let l := Z.min l (bottommost_line d) in
    if (range_bottom <=? l) && (line (point b) <? range_bottom) then Some None
    else if (l <? range_top) && negb (range_top =? 0) then
      Some (Some (if bool_decide (ty = Block)
                  then mkAnchor (Pt range_top (column (point a))) (side a)
                  else mkAnchor (Pt range_top 0%nat) Left))
    else Some (Some (mkAnchor (Pt l (column (point a))) (side a)))
  else Some (Some a).

Definition rotate_end {D} `{Dimensions D} (d : D) (range_top range_bottom delta : Z)
    (ty : SelectionType) (a b : Anchor) : option (option Anchor) :=
  if ((range_top <=? line (point b)) || (range_top =? 0)) && (line (point b) <? range_bottom)
  then
    l ← i32_sub (line (point b)) delta;
    let l := Z.min l (bottommost_line d) in
    if l <? line (point a) then Some None
    else if range_bottom <=? l then
      last ← i32_sub range_bottom 1;
      Some (Some (if bool_decide (ty = Block)
                  then mkAnchor (Pt last (column (point b))) (side b)
                  else mkAnchor (Pt last (last_column d)) Right))
    else Some (Some (mkAnchor (Pt l (column (point b))) (side b)))
  else Some (Some b).

(** The range is [range_top..range_bottom]. *)
Definition rotate {D} `{Dimensions D} (d : D) (range : Z * Z) (delta : Z) (s : t) :
    option (option t) :=
  let '(range_top, range_bottom) := range in
  a ← rotate_start d range_top range_bottom delta (ty s) (first s) (second s);
  match a with
  | None => Some None
  | Some a =>
      b ← rotate_end d range_top range_bottom delta (ty s) a (second s);
      Some (option_map (λ b, set_ordered a b s) b)
  end.

Definition is_empty (s : t) : bool :=
  match ty s with
  | Simple =>
      let a := first s in
      let b := second s in
      bool_decide (a = b)
      || (bool_decide (side a = Right) && bool_decide (side b = Left)
          && (line (point a) =? line (point b))
          && (column (point a) + 1 =? column (point b))%nat)
  | Block =>
      let a := start s in
      let b := end_ s in
      ((column (point a) =? column (point b))%nat && bool_decide (side a = side b))
      || ((column (point a) + 1 =? column (point b))%nat
          && bool_decide (side a = Right) && bool_decide (side b = Left))
      || ((column (point b) + 1 =? column (point a))%nat
          && bool_decide (side a = Left) && bool_decide (side b = Right))
  | Semantic | Lines => false
  end.

Definition intersects_range (from to : Bound) (s : t) : option bool :=
  let a := Z.min (line (point (start s))) (line (point (end_ s))) in
  let b := Z.max (line (point (start s))) (line (point (end_ s))) in
  range_top ← match from with
    | Included l => Some l
    | Excluded l => i32_add l 1
    | Unbounded => Some I32_MIN
    end;
  range_bottom ← match to with
    | Included l => Some l
    | Excluded l => i32_sub l 1
    | Unbounded => Some I32_MAX
    end;
  Some ((a <=? range_bottom) && (range_top <=? b)).

Definition include_all (s : t) : t :=
  let a := point (start s) in
  let b := point (end_ s) in
  let '(sa, sb) :=
    match ty s with
    | Block =>
        if (column b <? column a)%nat || ((column a =? column b)%nat && (line b <? line a))
        then (Right, Left) else (Left, Right)
    | _ => if Point.ltb b a then (Right, Left) else (Left, Right)
    end in
  mk (ty s) (mkAnchor a sa) (mkAnchor b sb).

(** [a] and [b] are the clamped anchors in order. *)
Definition range_simple (a b : Anchor) (columns : nat) (s : t) :
    option (option SelectionRange.t) :=
  if is_empty s then Some None
  else
    b ← (if bool_decide (side b = Left) && negb (bool_decide (point a = point b)) then
           if (column (point b) =? 0)%nat then
             c ← usize_sub columns 1;
             l ← i32_sub (line (point b)) 1;
             Some (mkAnchor (Pt l c) (side b))
           else Some (mkAnchor (Pt (line (point b)) (column (point b) - 1)%nat) (side b))
         else Some b);
    a ← (if bool_decide (side a = Right) && negb (bool_decide (point a = point b)) then
           if (column (point a) + 1 =? columns)%nat then
             l ← i32_add (line (point a)) 1; Some (mkAnchor (Pt l 0%nat) (side a))
           else Some (mkAnchor (Pt (line (point a)) (column (point a) + 1)%nat) (side a))
         else Some a);
    Some (Some (SelectionRange.mk (point a) (point b) false)).

Definition range_block (a b : Anchor) (s : t) : option SelectionRange.t :=
  if is_empty s then None
  else
    let '(a, b) :=
      if (column (point b) <? column (point a))%nat
      then (mkAnchor (Pt (line (point a)) (column (point b))) (side b),
            mkAnchor (Pt (line (point b)) (column (point a))) (side a))
      else (a, b) in
    let b :=
      if bool_decide (side b = Left) && negb (bool_decide (point a = point b))
         && (0 <? column (point b))%nat
      then mkAnchor (Pt (line (point b)) (column (point b) - 1)%nat) (side b) else b in
    let a :=
      if bool_decide (side a = Right) && negb (bool_decide (point a = point b))
      then mkAnchor (Pt (line (point a)) (column (point a) + 1)%nat) (side a) else a in
    Some (SelectionRange.mk (point a) (point b) true).
End Selection.

#[global] Arguments Selection.rotate {_ _} _ _ _ _ : simpl never.
#[global] Arguments Selection.intersects_range _ _ _ : simpl never.

(** * Properties *)

Section SelectionBounds.
Context {D} `{Dimensions D} (d : D) (Hd : dims_ok d).
Implicit Types (s : Selection.t) (a b : Anchor).

(** The lines of a selection are at most [n] away from line 0. *)
Definition anchor_bounded (n : Z) a : Prop := - n <= line (point a) <= n.
Definition bounded (n : Z) s : Prop :=
  anchor_bounded n (Selection.start s) ∧ anchor_bounded n (Selection.end_ s).

Lemma bounded_ordered n s :
  bounded n s ↔ anchor_bounded n (Selection.first s) ∧ anchor_bounded n (Selection.second s).
Proof.
  unfold bounded, Selection.first, Selection.second. destruct (Selection.swapped s); tauto.
Qed.

(** Scrolling by [delta] lines never overflows while the selection is near the grid. *)
Lemma rotate_bounded n s top bottom delta :
  0 <= n <= 1073741823 → 268435455 <= n → bounded n s → -268435455 <= delta <= 268435455 →
  0 <= top <= 268435455 → 0 <= bottom <= 268435455 →
  wp (Selection.rotate d (top, bottom) delta s) (λ r, match r with
    | Some s' => bounded (n + Z.abs delta) s' ∧ Selection.ty s' = Selection.ty s
    | None => True end).
Proof using Hd.
  intros Hn Hn' Hs Hdel Ht Hb. apply bounded_ordered in Hs as [H1 H2].
  unfold anchor_bounded in *. dims Hd.
  unfold Selection.rotate. wp_step.
  apply wp_mono with (λ r, match r with
    | Some a => anchor_bounded (n + Z.abs delta) a | None => True end).
  { unfold Selection.rotate_start, anchor_bounded. destruct (_ && _) eqn:E; bools.
    2: { wp_step. lia. }
    wp_step. wp_step. cbv zeta. destruct (_ && _); [by wp_step|].
    destruct (_ && _) eqn:E2; wp_step; bools; [|simpl; lia]. case_bool_decide; simpl; lia. }
  intros [a|] Ha; [|by wp_step]. wp_step.
  apply wp_mono with (λ r, match r with
    | Some b => anchor_bounded (n + Z.abs delta) b | None => True end).
  { unfold Selection.rotate_end, anchor_bounded in *. destruct (_ && _) eqn:E; bools.
    2: { wp_step. lia. }
    wp_step. wp_step. cbv zeta.
    destruct (_ <? line (point a)) eqn:E1; [by wp_step|].
    destruct (bottom <=? _) eqn:E2; bools; [|wp_step; simpl; lia].
    wp_step. wp_step. wp_step. case_bool_decide; simpl; lia. }
  intros [b|] Hb'; [|by wp_step]. wp_step. unfold Selection.set_ordered, bounded.
  destruct (Selection.swapped s); simpl; tauto.
Qed.

Lemma intersects_range_ok from to s :
  match from with Excluded l => l + 1 <= I32_MAX ∧ I32_MIN <= l + 1 | _ => True end →
  match to with Excluded l => I32_MIN <= l - 1 ∧ l - 1 <= I32_MAX | _ => True end →
  is_Some (Selection.intersects_range from to s).
Proof using Type.
  intros Hf Ht. unfold Selection.intersects_range.
  destruct from; [|rewrite i32_add_ok by lia|];
    (destruct to; [|rewrite i32_sub_ok by lia|]); simpl; eauto.
Qed.
End SelectionBounds.

Section SelectionProperties.
Context {D} `{Dimensions D} (d : D) (Hd : dims_ok d).
Implicit Types (s : Selection.t) (p q : Point).

(** The range of a linear selection contains exactly the points between its ends in reading
    order. *)
Theorem contains_linear (start end_ p : Point) :
  (column start < columns d)%nat → (column end_ < columns d)%nat →
  (column p < columns d)%nat →
  SelectionRange.contains (SelectionRange.mk start end_ false) p = true ↔
  lin d start <= lin d p <= lin d end_.
Proof using Type.
  intros Hs He Hp. unfold SelectionRange.contains, lin. simpl. rewrite !andb_true_r.
  rewrite !andb_true_iff, !orb_true_iff, !negb_true_iff.
  rewrite !Z.leb_le, !Nat.leb_le, !Z.eqb_neq. split.
  - intros [[[H1 H2] [H3|H3]] [H4|H4]]; nia.
  - intros [H1 H2]. assert (line start <= line p <= line end_) by nia.
    split; [split; [lia|]|].
    + destruct (decide (line start = line p)) as [E|E]; [left|by right].
      rewrite E in H1. lia.
    + destruct (decide (line end_ = line p)) as [E|E]; [left|by right].
      rewrite E in H2. lia.
Qed.

Lemma range_simple_ok s (a b : Anchor) :
  Selection.is_empty s = false → in_grid d (point a) → in_grid d (point b) →
  lin d (point a) <= lin d (point b) →
  ∃ start end_,
    Selection.range_simple a b (columns d) s
      = Some (Some (SelectionRange.mk start end_ false)) ∧
    in_grid d start ∧ in_grid d end_ ∧ lin d start <= lin d end_ ∧
    lin d end_ = lin d (point b) -
      (if bool_decide (side b = Left) && negb (lin d (point a) =? lin d (point b))
       then 1 else 0) ∧
    lin d start = lin d (point a) +
      (if bool_decide (side a = Right) && negb (lin d (point a) =? lin d end_)
       then 1 else 0).
Proof using Hd.
  intros Hne Ha Hb Hle. unfold Selection.range_simple. rewrite Hne. dims Hd.
  assert (∀ p q, in_grid d p → in_grid d q →
    bool_decide (p = q) = (lin d p =? lin d q)) as Heq.
  { intros p q [_ Hp] [_ Hq]. destruct (lin d p =? lin d q) eqn:E; bools.
    - apply bool_decide_eq_true. by apply (lin_inj d).
    - apply bool_decide_eq_false. by intros ->. }
  rewrite (Heq _ _ Ha Hb).
  set (cutb := bool_decide (side b = Left) && negb (lin d (point a) =? lin d (point b))).
  match goal with |- context [mbind _ (if cutb then ?x else Some b)] =>
    assert (∃ b', (if cutb then x else Some b) = Some b' ∧ in_grid d (point b') ∧
      lin d (point b') = lin d (point b) - (if cutb then 1 else 0)) as (b' & -> & Hb' & Eb')
  end.
  { destruct cutb eqn:Ecut; [|exists b; split; [done|]; split; [done|lia]].
    unfold cutb in Ecut. bools. destruct Ha as [Hal Hac], Hb as [Hbl Hbc]. unfold lin in *.
    destruct (column (point b) =? 0)%nat eqn:E0; bools.
    - rewrite usize_sub_ok by lia. simpl. rewrite i32_sub_ok by lia. simpl.
      eexists. split; [done|]. unfold in_grid. simpl. split; [|nia]. split; [nia|lia].
    - eexists. split; [done|]. unfold in_grid. simpl. split; [|lia]. split; lia. }
  mrun. rewrite (Heq _ _ Ha Hb').
  set (cuta := bool_decide (side a = Right) && negb (lin d (point a) =? lin d (point b'))).
  match goal with |- context [mbind _ (if cuta then ?x else Some a)] =>
    assert (∃ a', (if cuta then x else Some a) = Some a' ∧ in_grid d (point a') ∧
      lin d (point a') = lin d (point a) + (if cuta then 1 else 0)) as (a' & -> & Ha' & Ea')
  end.
  { destruct cuta eqn:Ecut; [|exists a; split; [done|]; split; [done|lia]].
    unfold cuta in Ecut. bools. destruct Ha as [Hal Hac], Hb' as [Hbl Hbc].
    assert (lin d (point a) < lin d (point b')) as Hlt.
    { destruct cutb eqn:Ec; [unfold cutb in Ec; bools|]; lia. }
    unfold lin in *. destruct (column (point a) + 1 =? columns d)%nat eqn:E0; bools.
    - rewrite i32_add_ok by lia. simpl.
      eexists. split; [done|]. unfold in_grid. simpl. split; [|nia]. split; [nia|lia].
    - eexists. split; [done|]. unfold in_grid. simpl. split; [|lia]. split; lia. }
  mrun. exists (point a'), (point b'). split; [done|]. split; [done|]. split; [done|].
  split; [|split; [done|done]]. rewrite Ea', Eb'.
  destruct cuta eqn:Eca; [unfold cuta in Eca; bools|];
    (destruct cutb eqn:Ecb; [unfold cutb in Ecb; bools|]); lia.
Qed.

(** The range of a simple selection is ordered and stays inside the grid: an end on the left
    side of its cell, and a start on the right side, exclude that one cell, across lines too. *)
Theorem range_simple_correct s (a b : Anchor) :
  Selection.is_empty s = false → in_grid d (point a) → in_grid d (point b) →
  lin d (point a) <= lin d (point b) →
  ∃ start end_,
    Selection.range_simple a b (columns d) s
      = Some (Some (SelectionRange.mk start end_ false)) ∧
    in_grid d start ∧ in_grid d end_ ∧ lin d start <= lin d end_ ∧
    lin d end_ = lin d (point b) -
      (if bool_decide (side b = Left) && negb (lin d (point a) =? lin d (point b))
       then 1 else 0) ∧
    lin d start = lin d (point a) +
      (if bool_decide (side a = Right) && negb (lin d (point a) =? lin d end_)
       then 1 else 0).
Proof using Hd. apply range_simple_ok. Qed.

(** A selection inside the scrolled region moves with the text: it is cut at the borders of
    the region, and dropped when it has left the region upwards. *)
Theorem rotate_inside_region s top bottom delta :
  0 < top → top <= line (point (Selection.first s)) →
  line (point (Selection.first s)) <= line (point (Selection.second s)) →
  line (point (Selection.second s)) < bottom → bottom <= Z.of_nat (screen_lines d) →
  0 <= delta <= 268435455 →
  Selection.rotate d (top, bottom) delta s =
    Some (if line (point (Selection.second s)) - delta <? top then None
          else Some (Selection.set_ordered
            (if line (point (Selection.first s)) - delta <? top then
               if bool_decide (Selection.ty s = Block)
               then mkAnchor (Pt top (column (point (Selection.first s))))
                      (side (Selection.first s))
               else mkAnchor (Pt top 0%nat) Left
             else mkAnchor (Pt (line (point (Selection.first s)) - delta)
                              (column (point (Selection.first s)))) (side (Selection.first s)))
            (mkAnchor (Pt (line (point (Selection.second s)) - delta)
                         (column (point (Selection.second s)))) (side (Selection.second s))) s)).
Proof using Hd.
  intros Ht Hta Hab Hbb Hbs Hdel. dims Hd. unfold Selection.rotate.
  destruct (Selection.first s) as [[la ca] sa], (Selection.second s) as [[lb cb] sb].
  simpl in *. unfold Selection.rotate_start, Selection.rotate_end. simpl.
  rewrite (proj2 (Z.leb_le top la)), (proj2 (Z.ltb_lt la bottom)) by lia. simpl.
  rewrite (i32_sub_ok la delta) by lia. mrun. rewrite (Z.min_l (la - delta)) by lia.
  rewrite (proj2 (Z.leb_gt bottom (la - delta))) by lia. cbn [andb].
  rewrite (proj2 (Z.eqb_neq top 0)), andb_true_r by lia.
  destruct (la - delta <? top) eqn:E; bools; mrun; cbn [point line column side];
    rewrite (proj2 (Z.leb_le top lb)), (proj2 (Z.ltb_lt lb bottom)) by lia; cbn [andb orb];
    rewrite (i32_sub_ok lb delta) by lia; mrun; rewrite (Z.min_l (lb - delta)) by lia.
  - set (a' := if bool_decide _ then _ else _).
    assert (line (point a') = top) as -> by (unfold a'; by case_bool_decide).
    destruct (lb - delta <? top); [done|].
    by rewrite (proj2 (Z.leb_gt bottom (lb - delta))) by lia.
  - rewrite !(proj2 (Z.ltb_ge _ _)) by lia.
    by rewrite (proj2 (Z.leb_gt bottom (lb - delta))) by lia.
Qed.
End SelectionProperties.

Lemma contains_linear_witness :
  SelectionRange.contains (SelectionRange.mk (Pt 0 2%nat) (Pt 1 1%nat) false) (Pt 1 0%nat)
    = true.
Proof.
  apply (contains_linear (3, 4)%nat (Pt 0 2%nat) (Pt 1 1%nat) (Pt 1 0%nat));
    unfold lin; simpl; lia.
Defined.

Lemma range_simple_correct_witness :
  ∃ start end_, Selection.range_simple (mkAnchor (Pt 0 3%nat) Right) (mkAnchor (Pt 2 0%nat) Left)
    4 (Selection.mk Simple (mkAnchor (Pt 0 3%nat) Right) (mkAnchor (Pt 2 0%nat) Left))
    = Some (Some (SelectionRange.mk start end_ false)) ∧ lin (3, 4)%nat start = 4.
Proof.
  destruct (range_simple_correct (3, 4)%nat ltac:(split; simpl; lia)
    (Selection.mk Simple (mkAnchor (Pt 0 3%nat) Right) (mkAnchor (Pt 2 0%nat) Left))
    (mkAnchor (Pt 0 3%nat) Right) (mkAnchor (Pt 2 0%nat) Left) ltac:(reflexivity)
    ltac:(split; vm_compute; intuition congruence || lia)
    ltac:(split; vm_compute; intuition congruence || lia)
    ltac:(unfold lin; simpl; lia)) as (st & en & E & _ & _ & _ & Een & Est).
  exists st, en. split; [exact E|]. rewrite Est, Een. reflexivity.
Defined.

Lemma rotate_inside_region_witness :
  Selection.rotate (5, 4)%nat (1, 4) 2
    (Selection.mk Block (mkAnchor (Pt 2 1%nat) Left) (mkAnchor (Pt 3 2%nat) Right))
  = Some (Some (Selection.mk Block (mkAnchor (Pt 1 1%nat) Left) (mkAnchor (Pt 1 2%nat) Right))).
Proof.
  apply (rotate_inside_region (5, 4)%nat ltac:(split; simpl; lia)
    (Selection.mk Block (mkAnchor (Pt 2 1%nat) Left) (mkAnchor (Pt 3 2%nat) Right)) 1 4 2);
    first [reflexivity | vm_compute; intuition congruence | simpl; lia].
Defined.

(** When the region ends at the bottom of the screen, a selection that rotates out of it is
    clamped to the last line before the test that should drop it. *)
Example rotate_keeps_selection_below_screen :
  Selection.rotate (5, 4)%nat (1, 5) (-3)
    (Selection.mk Block (mkAnchor (Pt 3 1%nat) Left) (mkAnchor (Pt 3 2%nat) Right))
  = Some (Some (Selection.mk Block (mkAnchor (Pt 4 1%nat) Left) (mkAnchor (Pt 4 2%nat) Right))).
Proof. reflexivity. Qed.
