(* ===== verification/Terms.v ===== *)
(** The terminal state and its own methods ([struct Term] in [cutty_terminal/src/term/mod.rs]):
    the two grids, the modes, the scrolling region, damage, selection and the cursor of vi mode.
    The methods of the [Handler] trait are in [Handlers].

    Events for the user interface are appended to the field [event_proxy], the log of what
    [send_event] received.  [hyperlink_suffix] is the global counter of [term/cell.rs]. *)
From S2P Require Import Prelude Index Cells Rows Storages Grids Resizes TermData Selections.
#[local] Open Scope Z_scope.

Module Term.
(** [struct Term<T>]; a [ViModeCursor] is its point. *)
Record t `{External} := mk {
  is_focused : bool;
  vi_mode_cursor : Point;
  selection : option Selection.t;
  grid : Grid.t Cell;
  inactive_grid : Grid.t Cell;
  active_charset : CharsetIndex;
  tabs : TabStops.t;
  mode : TermMode;
  scroll_region : Z * Z;
  colors : list (option Rgb);
  cursor_style : option CursorStyle;
  event_proxy : list Event;
  title : option text;
  title_stack : list (option text);
  keyboard_mode_stack : list KeyboardModes;
  inactive_keyboard_mode_stack : list KeyboardModes;
  damage : TermDamageState.t;
  config : Config.t;
  hyperlink_suffix : N;
}.
Arguments mk {_} _ _ _ _ _ _ _ _ _ _ _ _ _ _ _ _ _ _ _.
Arguments is_focused {_} _.
Arguments vi_mode_cursor {_} _.
Arguments selection {_} _.
Arguments grid {_} _.
Arguments inactive_grid {_} _.
Arguments active_charset {_} _.
Arguments tabs {_} _.
Arguments mode {_} _.
Arguments scroll_region {_} _.
Arguments colors {_} _.
Arguments cursor_style {_} _.
Arguments event_proxy {_} _.
Arguments title {_} _.
Arguments title_stack {_} _.
Arguments keyboard_mode_stack {_} _.
Arguments inactive_keyboard_mode_stack {_} _.
Arguments damage {_} _.
Arguments config {_} _.
Arguments hyperlink_suffix {_} _.

Section setters.
Context `{External}.
Implicit Types t : t.

Definition set_is_focused (x : bool) t :=
  mk x (vi_mode_cursor t) (selection t) (grid t) (inactive_grid t) (active_charset t) (tabs t)
    (mode t) (scroll_region t) (colors t) (cursor_style t) (event_proxy t) (title t)
    (title_stack t) (keyboard_mode_stack t) (inactive_keyboard_mode_stack t) (damage t) (config t)
    (hyperlink_suffix t).
Definition set_vi_mode_cursor (x : Point) t :=
  mk (is_focused t) x (selection t) (grid t) (inactive_grid t) (active_charset t) (tabs t)
    (mode t) (scroll_region t) (colors t) (cursor_style t) (event_proxy t) (title t)
    (title_stack t) (keyboard_mode_stack t) (inactive_keyboard_mode_stack t) (damage t) (config t)
    (hyperlink_suffix t).
Definition set_selection (x : option Selection.t) t :=
  mk (is_focused t) (vi_mode_cursor t) x (grid t) (inactive_grid t) (active_charset t) (tabs t)
    (mode t) (scroll_region t) (colors t) (cursor_style t) (event_proxy t) (title t)
    (title_stack t) (keyboard_mode_stack t) (inactive_keyboard_mode_stack t) (damage t) (config t)
    (hyperlink_suffix t).
Definition set_grid (x : Grid.t Cell) t :=
  mk (is_focused t) (vi_mode_cursor t) (selection t) x (inactive_grid t) (active_charset t)
    (tabs t) (mode t) (scroll_region t) (colors t) (cursor_style t) (event_proxy t) (title t)
    (title_stack t) (keyboard_mode_stack t) (inactive_keyboard_mode_stack t) (damage t) (config t)
    (hyperlink_suffix t).
Definition set_inactive_grid (x : Grid.t Cell) t :=
  mk (is_focused t) (vi_mode_cursor t) (selection t) (grid t) x (active_charset t) (tabs t)
    (mode t) (scroll_region t) (colors t) (cursor_style t) (event_proxy t) (title t)
    (title_stack t) (keyboard_mode_stack t) (inactive_keyboard_mode_stack t) (damage t) (config t)
    (hyperlink_suffix t).
Definition set_active_charset (x : CharsetIndex) t :=
  mk (is_focused t) (vi_mode_cursor t) (selection t) (grid t) (inactive_grid t) x (tabs t)
    (mode t) (scroll_region t) (colors t) (cursor_style t) (event_proxy t) (title t)
    (title_stack t) (keyboard_mode_stack t) (inactive_keyboard_mode_stack t) (damage t) (config t)
    (hyperlink_suffix t).
Definition set_tabs (x : TabStops.t) t :=
  mk (is_focused t) (vi_mode_cursor t) (selection t) (grid t) (inactive_grid t) (active_charset t)
    x (mode t) (scroll_region t) (colors t) (cursor_style t) (event_proxy t) (title t)
    (title_stack t) (keyboard_mode_stack t) (inactive_keyboard_mode_stack t) (damage t) (config t)
    (hyperlink_suffix t).
Definition set_mode (x : TermMode) t :=
  mk (is_focused t) (vi_mode_cursor t) (selection t) (grid t) (inactive_grid t) (active_charset t)
    (tabs t) x (scroll_region t) (colors t) (cursor_style t) (event_proxy t) (title t)
    (title_stack t) (keyboard_mode_stack t) (inactive_keyboard_mode_stack t) (damage t) (config t)
    (hyperlink_suffix t).
Definition set_scroll_region (x : Z * Z) t :=
  mk (is_focused t) (vi_mode_cursor t) (selection t) (grid t) (inactive_grid t) (active_charset t)
    (tabs t) (mode t) x (colors t) (cursor_style t) (event_proxy t) (title t) (title_stack t)
    (keyboard_mode_stack t) (inactive_keyboard_mode_stack t) (damage t) (config t)
    (hyperlink_suffix t).
Definition set_colors (x : list (option Rgb)) t :=
  mk (is_focused t) (vi_mode_cursor t) (selection t) (grid t) (inactive_grid t) (active_charset t)
    (tabs t) (mode t) (scroll_region t) x (cursor_style t) (event_proxy t) (title t)
    (title_stack t) (keyboard_mode_stack t) (inactive_keyboard_mode_stack t) (damage t) (config t)
    (hyperlink_suffix t).
Definition set_cursor_style (x : option CursorStyle) t :=
  mk (is_focused t) (vi_mode_cursor t) (selection t) (grid t) (inactive_grid t) (active_charset t)
    (tabs t) (mode t) (scroll_region t) (colors t) x (event_proxy t) (title t) (title_stack t)
    (keyboard_mode_stack t) (inactive_keyboard_mode_stack t) (damage t) (config t)
    (hyperlink_suffix t).
Definition set_event_proxy (x : list Event) t :=
  mk (is_focused t) (vi_mode_cursor t) (selection t) (grid t) (inactive_grid t) (active_charset t)
    (tabs t) (mode t) (scroll_region t) (colors t) (cursor_style t) x (title t) (title_stack t)
    (keyboard_mode_stack t) (inactive_keyboard_mode_stack t) (damage t) (config t)
    (hyperlink_suffix t).
Definition set_title (x : option text) t :=
  mk (is_focused t) (vi_mode_cursor t) (selection t) (grid t) (inactive_grid t) (active_charset t)
    (tabs t) (mode t) (scroll_region t) (colors t) (cursor_style t) (event_proxy t) x
    (title_stack t) (keyboard_mode_stack t) (inactive_keyboard_mode_stack t) (damage t) (config t)
    (hyperlink_suffix t).
Definition set_title_stack (x : list (option text)) t :=
  mk (is_focused t) (vi_mode_cursor t) (selection t) (grid t) (inactive_grid t) (active_charset t)
    (tabs t) (mode t) (scroll_region t) (colors t) (cursor_style t) (event_proxy t) (title t) x
    (keyboard_mode_stack t) (inactive_keyboard_mode_stack t) (damage t) (config t)
    (hyperlink_suffix t).
Definition set_keyboard_mode_stack (x : list KeyboardModes) t :=
  mk (is_focused t) (vi_mode_cursor t) (selection t) (grid t) (inactive_grid t) (active_charset t)
    (tabs t) (mode t) (scroll_region t) (colors t) (cursor_style t) (event_proxy t) (title t)
    (title_stack t) x (inactive_keyboard_mode_stack t) (damage t) (config t) (hyperlink_suffix t).
Definition set_inactive_keyboard_mode_stack (x : list KeyboardModes) t :=
  mk (is_focused t) (vi_mode_cursor t) (selection t) (grid t) (inactive_grid t) (active_charset t)
    (tabs t) (mode t) (scroll_region t) (colors t) (cursor_style t) (event_proxy t) (title t)
    (title_stack t) (keyboard_mode_stack t) x (damage t) (config t) (hyperlink_suffix t).
Definition set_damage (x : TermDamageState.t) t :=
  mk (is_focused t) (vi_mode_cursor t) (selection t) (grid t) (inactive_grid t) (active_charset t)
    (tabs t) (mode t) (scroll_region t) (colors t) (cursor_style t) (event_proxy t) (title t)
    (title_stack t) (keyboard_mode_stack t) (inactive_keyboard_mode_stack t) x (config t)
    (hyperlink_suffix t).
Definition set_config (x : Config.t) t :=
  mk (is_focused t) (vi_mode_cursor t) (selection t) (grid t) (inactive_grid t) (active_charset t)
    (tabs t) (mode t) (scroll_region t) (colors t) (cursor_style t) (event_proxy t) (title t)
    (title_stack t) (keyboard_mode_stack t) (inactive_keyboard_mode_stack t) (damage t) x
    (hyperlink_suffix t).
Definition set_hyperlink_suffix (x : N) t :=
  mk (is_focused t) (vi_mode_cursor t) (selection t) (grid t) (inactive_grid t) (active_charset t)
    (tabs t) (mode t) (scroll_region t) (colors t) (cursor_style t) (event_proxy t) (title t)
    (title_stack t) (keyboard_mode_stack t) (inactive_keyboard_mode_stack t) (damage t) (config t)
    x.
End setters.

(** [impl Dimensions for Term<T>]. *)
#[export] Instance dimensions `{External} : Dimensions t := {
  total_lines s := total_lines (grid s);
  screen_lines s := screen_lines (grid s);
  columns s := columns (grid s);
}.

Section ops.
Context `{External}.
Implicit Types (t : t).

(** Shorthands for the places the methods write to. *)
Definition send_event (e : Event) t := set_event_proxy (event_proxy t ++ [e]) t.
Definition cursor t : Cursor.t Cell := Grid.cursor (grid t).
Definition cursor_point t : Point := Cursor.point (cursor t).
Definition upd_grid (f : Grid.t Cell → option (Grid.t Cell)) t :=
  g ← f (grid t); Some (set_grid g t).
Definition set_cursor (x : Cursor.t Cell) t := set_grid (Grid.set_cursor x (grid t)) t.
Definition set_cursor_line (l : Z) t := set_cursor (Cursor.set_line l (cursor t)) t.
Definition set_cursor_column (c : nat) t := set_cursor (Cursor.set_column c (cursor t)) t.
Definition set_needs_wrap (b : bool) t := set_cursor (Cursor.set_input_needs_wrap b (cursor t)) t.
Definition set_template (x : Cell) t := set_cursor (Cursor.set_template x (cursor t)) t.
Definition has_mode (m : TermMode) t : bool := TermMode.contains (mode t) m.

(** ** Damage *)

Definition mark_fully_damaged t :=
  set_damage (TermDamageState.mk true (TermDamageState.lines (damage t))
                (TermDamageState.last_cursor (damage t))) t.

Definition damage_line (line left right : nat) t :=
  d ← TermDamageState.damage_line line left right (damage t); Some (set_damage d t).

Definition damage_cursor t :=
  d ← TermDamageState.damage_point
        (Pt (as_usize (line (cursor_point t))) (column (cursor_point t))) (damage t);
  Some (set_damage d t).

(** [Term::damage]. *)
Definition collect_damage t : option (TermDamage * Term.t) :=
  let t := if has_mode TermMode.INSERT t then mark_fully_damaged t else t in
  let previous_cursor := TermDamageState.last_cursor (damage t) in
  let t := set_damage (TermDamageState.mk (TermDamageState.full (damage t))
                         (TermDamageState.lines (damage t)) (cursor_point t)) t in
  if TermDamageState.full (damage t) then Some (DamageFull, t)
  else
    t ← (if bool_decide (TermDamageState.last_cursor (damage t) = previous_cursor) then Some t
         else
           d ← TermDamageState.damage_point
                 (Pt (as_usize (line previous_cursor)) (column previous_cursor)) (damage t);
           Some (set_damage d t));
    t ← damage_cursor t;
    Some (DamagePartial (TermDamageIterator.new (TermDamageState.lines (damage t))
                           (Grid.display_offset (grid t))), t).

Definition reset_damage t := set_damage (TermDamageState.reset (columns t) (damage t)) t.

(** ** Construction and options *)

Definition new (config : Config.t) (num_lines num_cols : nat) : option Term.t :=
  grid ← Grid.new num_lines num_cols (Config.scrolling_history config);
  inactive_grid ← Grid.new num_lines num_cols 0;
  Some (mk false Point.default None grid inactive_grid CharsetIndex_default
          (TabStops.new num_cols) TermMode.default (0, as_i32 num_lines) Colors.default None []
          None [] [] [] (TermDamageState.new num_cols num_lines) config 0%N).

Definition set_options (options : Config.t) t : option Term.t :=
  let old_config := config t in
  let t := set_config options t in
  let title_event := match title t with Some title => Title title | None => ResetTitle end in
  let t := send_event title_event t in
  t ← (if has_mode TermMode.ALT_SCREEN t then
         g ← Grid.update_history (Config.scrolling_history (config t)) (inactive_grid t);
         Some (set_inactive_grid g t)
       else
         g ← Grid.update_history (Config.scrolling_history (config t)) (grid t);
         Some (set_grid g t));
  let t :=
    if eqb (Config.kitty_keyboard (config t)) (Config.kitty_keyboard old_config) then t
    else
      let t := set_keyboard_mode_stack [] t in
      let t := set_inactive_keyboard_mode_stack [] t in
      set_mode (TermMode.remove TermMode.KITTY_KEYBOARD_PROTOCOL (mode t)) t in
  Some (mark_fully_damaged t).

(** ** Vi mode and display scrolling *)

Definition vi_mode_recompute_selection t :=
  if negb (has_mode TermMode.VI t) then t
  else
    match selection t with
    | Some s =>
        if Selection.is_empty s then t
        else set_selection (Some (Selection.include_all
                                    (Selection.update (vi_mode_cursor t) Left s))) t
    | None => t
    end.

Definition scroll_display (scroll : Scroll) t : option Term.t :=
  let old_display_offset := Grid.display_offset (grid t) in
  t ← upd_grid (Grid.scroll_display scroll) t;
  let t := send_event MouseCursorDirty t in
  let viewport_start := - as_i32 (Grid.display_offset (grid t)) in
  viewport_end ← i32_add viewport_start (bottommost_line t);
  let vi := vi_mode_cursor t in
  let t := set_vi_mode_cursor
             (Pt (Z.min viewport_end (Z.max viewport_start (line vi))) (column vi)) t in
  let t := vi_mode_recompute_selection t in
  Some (if (old_display_offset =? Grid.display_offset (grid t))%nat then t
        else mark_fully_damaged t).

Definition toggle_vi_mode t : option Term.t :=
  let t := set_mode (TermMode.toggle TermMode.VI (mode t)) t in
  t ← (if has_mode TermMode.VI t then
         let display_offset := as_i32 (Grid.display_offset (grid t)) in
         last ← i32_sub (bottommost_line t) display_offset;
         Some (if last <? line (cursor_point t)
               then set_vi_mode_cursor (Pt (- display_offset) 0%nat) t
               else set_vi_mode_cursor (cursor_point t) t)
       else Some t);
  Some (send_event CursorBlinkingChange t).

Definition scroll_to_point (p : Point) t : option Term.t :=
  let display_offset := as_i32 (Grid.display_offset (grid t)) in
  let screen_lines := as_i32 (screen_lines t) in
  if line p <? - display_offset then
    lines ← i32_add (line p) display_offset;
    delta ← i32_sub 0 lines;
    scroll_display (ScrollDelta delta) t
  else
    below ← i32_sub screen_lines display_offset;
    if below <=? line p then
      x ← i32_add (line p) display_offset;
      x ← i32_sub x screen_lines;
      lines ← i32_add x 1;
      delta ← i32_sub 0 lines;
      scroll_display (ScrollDelta delta) t
    else Some t.

Definition vi_goto_point (p : Point) t : option Term.t :=
  t ← scroll_to_point p t;
  let t := set_vi_mode_cursor p t in
  Some (vi_mode_recompute_selection t).

Definition exit t := send_event Exit t.

(** ** Resizing *)

Definition resize (num_lines num_cols : nat) t : option Term.t :=
  let old_cols := columns t in
  let old_lines := screen_lines t in
  if (old_cols =? num_cols)%nat && (old_lines =? num_lines)%nat then Some t
  else
    let history := history_size t in
    delta ← i32_sub (as_i32 num_lines) (as_i32 old_lines);
    x ← i32_sub (as_i32 num_lines) (line (cursor_point t));
    x ← i32_sub x 1;
    let min_delta := Z.min 0 x in
    let delta := Z.min (Z.max delta min_delta) (as_i32 history) in
    vi_line ← i32_add (line (vi_mode_cursor t)) delta;
    let t := set_vi_mode_cursor (Pt vi_line (column (vi_mode_cursor t))) t in
    let is_alt := has_mode TermMode.ALT_SCREEN t in
    t ← upd_grid (Resize.resize (negb is_alt) num_lines num_cols) t;
    g ← Resize.resize is_alt num_lines num_cols (inactive_grid t);
    let t := set_inactive_grid g t in
    t ← (if negb (old_cols =? num_cols)%nat then
           let t := set_selection None t in
           Some (set_tabs (TabStops.resize num_cols (tabs t)) t)
         else
           match selection t with
           | Some s =>
               let max_lines := as_i32 (Nat.max num_lines old_lines) in
               rev ← i32_sub 0 delta;
               s ← Selection.rotate t (0, max_lines) rev s;
               Some (set_selection s t)
           | None => Some t
           end);
    let vi_point := vi_mode_cursor t in
    let viewport_top := - as_i32 (Grid.display_offset (grid t)) in
    viewport_bottom ← i32_add viewport_top (bottommost_line t);
    let t := set_vi_mode_cursor
               (Pt (Z.max (Z.min (line vi_point) viewport_bottom) viewport_top)
                  (Nat.min (column vi_point) (last_column t))) t in
    let t := set_scroll_region (0, as_i32 (screen_lines t)) t in
    Some (set_damage (TermDamageState.resize num_cols num_lines (damage t)) t).

(** ** Keyboard modes and the alternate screen *)

Definition set_keyboard_mode (m : TermMode) (apply : KeyboardModesApplyBehavior) t :=
  let active_mode := N.land (mode t) TermMode.KITTY_KEYBOARD_PROTOCOL in
  let t := set_mode (TermMode.remove TermMode.KITTY_KEYBOARD_PROTOCOL (mode t)) t in
  let new_mode := match apply with
    | Replace => m
    | Union => N.lor active_mode m
    | Difference => N.ldiff active_mode m
    end in
  set_mode (N.lor (mode t) new_mode) t.

(** [self.keyboard_mode_stack.last().copied().unwrap_or(KeyboardModes::NO_MODE)]. *)
Definition current_keyboard_mode t : KeyboardModes :=
  from_option id KeyboardModes_NO_MODE (list.last (keyboard_mode_stack t)).

Definition swap_alt t : option Term.t :=
  t ← (if has_mode TermMode.ALT_SCREEN t then Some t
       else
         let t := set_inactive_grid (Grid.set_cursor (cursor t) (inactive_grid t)) t in
         let t := set_grid (Grid.set_saved_cursor (cursor t) (grid t)) t in
         g ← Grid.reset_region Unbounded Unbounded (inactive_grid t);
         Some (set_inactive_grid g t));
  let stack := keyboard_mode_stack t in
  let t := set_keyboard_mode_stack (inactive_keyboard_mode_stack t) t in
  let t := set_inactive_keyboard_mode_stack stack t in
  let t := set_keyboard_mode (TermMode.from_keyboard (current_keyboard_mode t)) Replace t in
  let g := grid t in
  let t := set_grid (inactive_grid t) t in
  let t := set_inactive_grid g t in
  let t := set_mode (TermMode.toggle TermMode.ALT_SCREEN (mode t)) t in
  let t := set_selection None t in
  Some (mark_fully_damaged t).

(** ** Scrolling the screen *)

(** [self.selection.take().and_then(|s| s.rotate(self, &region, delta))]. *)
Definition rotate_selection (region : Z * Z) (delta : Z) t : option Term.t :=
  match selection t with
  | Some s => s ← Selection.rotate t region delta s; Some (set_selection s t)
  | None => Some t
  end.

(** [self.selection.take().filter(|s| !s.intersects_range(range))]. *)
Definition filter_selection (from to : Bound) t : option Term.t :=
  match selection t with
  | Some s =>
      b ← Selection.intersects_range from to s;
      Some (if b : bool then set_selection None t else t)
  | None => Some t
  end.

Definition scroll_down_relative (origin : Z) (lines : nat) t : option Term.t :=
  let '(start, end_) := scroll_region t in
  size ← i32_sub end_ start;
  let lines := Nat.min lines (as_usize size) in
  rest ← i32_sub end_ origin;
  let lines := Nat.min lines (as_usize rest) in
  let region := (origin, end_) in
  t ← rotate_selection region (- as_i32 lines) t;
  let vi := vi_mode_cursor t in
  t ← (if (origin <=? line vi) && (line vi <? end_) then
         l ← Line.add_usize (line vi) lines;
         last ← i32_sub end_ 1;
         Some (set_vi_mode_cursor (Pt (Z.min l last) (column vi)) t)
       else Some t);
  t ← upd_grid (Grid.scroll_down region lines) t;
  Some (mark_fully_damaged t).

Definition scroll_up_relative (origin : Z) (lines : nat) t : option Term.t :=
  let '(start, end_) := scroll_region t in
  size ← i32_sub end_ start;
  let lines := Nat.min lines (as_usize size) in
  let region := (origin, end_) in
  t ← rotate_selection region (as_i32 lines) t;
  t ← upd_grid (Grid.scroll_up region lines) t;
  let viewport_top := - as_i32 (Grid.display_offset (grid t)) in
  let top := if origin =? 0 then viewport_top else origin in
  let vi := vi_mode_cursor t in
  t ← (if (top <=? line vi) && (line vi <? end_) then
         l ← Line.sub_usize (line vi) lines;
         Some (set_vi_mode_cursor (Pt (Z.max l top) (column vi)) t)
       else Some t);
  Some (mark_fully_damaged t).

(** [Handler::scroll_up] and [Handler::linefeed], which [wrapline] needs. *)
Definition scroll_up (lines : nat) t : option Term.t :=
  scroll_up_relative (scroll_region t).1 lines t.

Definition linefeed t : option Term.t :=
  next ← i32_add (line (cursor_point t)) 1;
  if next =? (scroll_region t).2 then scroll_up 1 t
  else if next <? as_i32 (screen_lines t) then
    t ← damage_cursor t;
    l ← i32_add (line (cursor_point t)) 1;
    damage_cursor (set_cursor_line l t)
  else Some t.

(** ** Writing *)

Definition wrapline t : option Term.t :=
  if negb (has_mode TermMode.LINE_WRAP t) then Some t
  else
    t ← upd_grid (Grid.cursor_cell (flags_insert Flags.WRAPLINE)) t;
    next ← i32_add (line (cursor_point t)) 1;
    t ← (if (scroll_region t).2 <=? next then linefeed t
         else
           t ← damage_cursor t;
           l ← i32_add (line (cursor_point t)) 1;
           Some (set_cursor_line l t));
    let t := set_cursor_column 0 t in
    let t := set_needs_wrap false t in
    damage_cursor t.

(** Clearing of the cells around an overwritten fullwidth cell. *)
Definition clear_wide_neighbours (cell : Cell) t : option Term.t :=
  let p := cursor_point t in
  t ← (if Flags.contains (flags cell) Flags.WIDE_CHAR && (column p <? last_column t)%nat then
         upd_grid (Grid.index_mut_point (Pt (line p) (column p + 1)%nat)
                     (flags_remove Flags.WIDE_CHAR_SPACER)) t
       else if (0 <? column p)%nat then
         upd_grid (Grid.index_mut_point (Pt (line p) (column p - 1)%nat) Cell.clear_wide) t
       else Some t);
  if (column p <=? 1)%nat && negb (line p =? topmost_line t) then
    prev ← i32_sub (line p) 1;
    upd_grid (Grid.index_mut_point (Pt prev (last_column t))
                (flags_remove Flags.LEADING_WIDE_CHAR_SPACER)) t
  else Some t.

Definition write_at_cursor (ch : char) t : option Term.t :=
  let ch := charset_map (Charsets.index (active_charset t) (Cursor.charsets (cursor t))) ch in
  let template := Cursor.template (cursor t) in
  cell ← Grid.index_point (cursor_point t) (grid t);
  t ← (if Flags.intersects (flags cell) (N.lor Flags.WIDE_CHAR Flags.WIDE_CHAR_SPACER)
       then clear_wide_neighbours cell t else Some t);
  upd_grid (Grid.cursor_cell
    (λ _, mkCell ch (fg template) (bg template) (flags template) (extra template))) t.

(** ** Reading *)

Definition expand_wide (p : Point) (direction : Direction) t : option Point :=
  cell ← Grid.index_point p (grid t);
  let flags := flags cell in
  match direction with
  | Right =>
      if Flags.contains flags Flags.LEADING_WIDE_CHAR_SPACER then
        l ← i32_add (line p) 1; Some (Pt l 1%nat)
      else if Flags.contains flags Flags.WIDE_CHAR then
        Some (Pt (line p) (Nat.min (column p + 1) (last_column t)))
      else Some p
  | Left =>
      if Flags.intersects flags (N.lor Flags.WIDE_CHAR Flags.WIDE_CHAR_SPACER) then
        p ← (if Flags.contains flags Flags.WIDE_CHAR_SPACER
             then c ← usize_sub (column p) 1; Some (Pt (line p) c) else Some p);
        prev ← Point.sub t BoundaryGrid 1 p;
        cell ← Grid.index_point prev (grid t);
        Some (if Flags.contains (Cells.flags cell) Flags.LEADING_WIDE_CHAR_SPACER
              then prev else p)
      else Some p
  end.

Definition active_cursor_style t : CursorStyle :=
  let style := from_option id (Config.default_cursor_style (config t)) (cursor_style t) in
  if has_mode TermMode.VI t
  then from_option id style (Config.vi_mode_cursor_style (config t)) else style.

(** One cell of [line_to_string]: the text so far and whether a tab is being skipped. *)
Definition line_cell (tabs : TabStops.t) (row : Row.t Cell) (column : nat) (st : text * bool) :
    option (text * bool) :=
  let '(text, tab_mode) := st in
  cell ← Row.index column row;
  stop ← (if tab_mode : bool then
            tab ← TabStops.index column tabs; Some (tab || negb (c cell =? 32)%N)
          else Some true);
  if negb stop then Some (text, true)
  else
    let tab_mode := (c cell =? 9)%N in
    Some (if Flags.intersects (flags cell)
               (N.lor Flags.WIDE_CHAR_SPACER Flags.LEADING_WIDE_CHAR_SPACER)
          then text
          else text ++ [c cell] ++ from_option id [] (Cell.zerowidth cell), tab_mode).

(** The range [start..end_] of columns. *)
Definition line_to_string (l : Z) (start end_ : nat) (include_wrapped_wide : bool) t :
    option text :=
  grid_line ← Grid.index l (grid t);
  len ← line_length grid_line;
  let line_length := Nat.min len (end_ + 1) in
  first ← Row.index start grid_line;
  start ← (if Flags.contains (flags first) Flags.WIDE_CHAR_SPACER
           then usize_sub start 1 else Some start);
  '(text, _) ← foldM (line_cell (tabs t) grid_line) (seq start (line_length - start)) ([], false);
  last ← usize_sub (columns t) 1;
  newline ← (if (last <=? end_)%nat then
               if (line_length =? 0)%nat then Some true
               else
                 cell ← Grid.index_point (Pt l (line_length - 1)%nat) (grid t);
                 Some (negb (Flags.contains (flags cell) Flags.WRAPLINE))
             else Some false);
  let text := if newline : bool then text ++ [10%N] else text in
  if (line_length =? columns t)%nat && (2 <=? line_length)%nat then
    cell ← Row.index (line_length - 1) grid_line;
    if Flags.contains (flags cell) Flags.LEADING_WIDE_CHAR_SPACER && include_wrapped_wide then
      prev ← i32_sub l 1;
      cell ← Grid.index_point (Pt prev 0%nat) (grid t);
      Some (text ++ [c cell])
    else Some text
  else Some text.

(** [strip_suffix('\n')], the text itself when there is none. *)
Definition strip_newline (t : text) : text :=
  match reverse t with 10%N :: rest => reverse rest | _ => t end.

Definition bounds_to_string (start end_ : Point) t : option text :=
  res ← foldM (λ l res,
    let start_col := if l =? line start then column start else 0%nat in
    let end_col := if l =? line end_ then column end_ else last_column t in
    s ← line_to_string l start_col end_col (l =? line end_) t;
    Some (res ++ s)) (zrange (line start) (line end_ + 1)) [];
  Some (strip_newline res).
End ops.
End Term.
Export (hints) Term.
