(* ===== verification/Handlers.v ===== *)
(** The escape sequence handler of the terminal ([impl Handler for Term] in
    [cutty_terminal/src/term/mod.rs]), one definition per method.

    The parser of escape sequences ([vte]) is not part of the repository: its enumerations appear
    here with the constructors the handler matches on, and [call] lists the methods it invokes. *)
From S2P Require Import Prelude Index Cells Rows Storages Grids Resizes TermData Selections Terms.
Import Stdlib.Strings.String.StringSyntax.
#[local] Open Scope Z_scope.

Inductive LineClearMode := LineRight | LineLeft | LineAll.
Inductive ClearMode := ClearBelow | ClearAbove | ClearAll | ClearSaved.
Inductive TabulationClearMode := TabCurrent | TabAll.

(** [AttrOther] stands for the attributes the handler ignores. *)
Inductive Attr `{External} :=
  | Foreground (color : Color) | Background (color : Color)
  | UnderlineColor (color : option Color)
  | AttrReset | Reverse | CancelReverse | Bold | CancelBold | Dim | CancelBoldDim
  | Italic | CancelItalic | Underline | DoubleUnderline | Undercurl | DottedUnderline
  | DashedUnderline | CancelUnderline | Hidden | CancelHidden | Strike | CancelStrike
  | AttrOther.

Inductive NamedPrivateMode :=
  | UrgencyHints | SwapScreenAndSetRestoreCursor | ShowCursor | CursorKeys
  | ReportMouseClicks | ReportCellMouseMotion | ReportAllMouseMotion | ReportFocusInOut
  | BracketedPaste | SgrMouse | Utf8Mouse | AlternateScroll | LineWrap | Origin
  | ColumnMode | BlinkingCursor | SyncUpdate.
Inductive PrivateMode := NamedPrivate (m : NamedPrivateMode) | UnknownPrivate (m : N).
Inductive NamedMode := Insert | LineFeedNewLine.
Inductive Mode := NamedAnsi (m : NamedMode) | UnknownAnsi (m : N).

Definition TITLE_STACK_MAX_DEPTH : nat := N.to_nat 4096.
Definition KEYBOARD_MODE_STACK_MAX_DEPTH : nat := TITLE_STACK_MAX_DEPTH.
(** [version] in [cutty_terminal/Cargo.toml]. *)
Definition CARGO_PKG_VERSION : text := str "0.26.4".

(** [{:02x}] of a byte. *)
Definition hex_digit (n : N) : char := (if n <? 10 then 48 + n else 87 + n)%N.
Definition hex2 (n : N) : text := [hex_digit (n / 16); hex_digit (n mod 16)].

(** The product of two [u16], checked. *)
Definition u16_mul (a b : N) : option N := if (a * b <? 65536)%N then Some (a * b)%N else None.

Module Handler.
Import Term.
Section ops.
Context `{External}.
Implicit Types (t : Term.t).

(** [*cell = bg.into()]. *)
Definition fill t (_ : Cell) : Cell := Cell.from_color (bg (Cursor.template (cursor t))).

(** ** Text *)

(** A zero-width character joins the cell before the cursor. *)
Definition input_zerowidth (ch : char) t : option Term.t :=
  let col := column (cursor_point t) in
  let col := if Cursor.input_needs_wrap (cursor t) then col else (col - 1)%nat in
  let l := line (cursor_point t) in
  cell ← Grid.index_point (Pt l col) (grid t);
  let col := if Flags.contains (flags cell) Flags.WIDE_CHAR_SPACER then (col - 1)%nat else col in
  upd_grid (Grid.index_mut_point (Pt l col) (Cell.push_zerowidth ch)) t.

(** Insert mode: shift the cells from the cursor on to the right. *)
Definition input_shift (width : nat) t : option Term.t :=
  let columns := columns t in
  let col := column (cursor_point t) in
  if has_mode TermMode.INSERT t && (col + width <? columns)%nat then
    upd_grid (Grid.index_mut (line (cursor_point t)) (Row.index_mut_full (λ cells,
      foldM (λ c cells, swap_at (c + width) c cells)
        (reverse (seq col (columns - width - col))) cells))) t
  else Some t.

Definition add_template_flag (f : Flags) t : Term.t :=
  set_template (set_flags (Flags.insert (flags (Cursor.template (cursor t))) f)
                  (Cursor.template (cursor t))) t.
Definition remove_template_flag (f : Flags) t : Term.t :=
  set_template (set_flags (Flags.remove (flags (Cursor.template (cursor t))) f)
                  (Cursor.template (cursor t))) t.

(** [write_at_cursor] with a flag set in the template for the time of the write. *)
Definition write_flagged (f : Flags) (ch : char) t : option Term.t :=
  t ← write_at_cursor ch (add_template_flag f t);
  Some (remove_template_flag f t).

Definition advance_cursor t : Term.t :=
  if (column (cursor_point t) + 1 <? columns t)%nat
  then set_cursor_column (column (cursor_point t) + 1) t
  else set_needs_wrap true t.

Definition input_wide (ch : char) t : option Term.t :=
  let write t :=
    t ← write_flagged Flags.WIDE_CHAR ch t;
    let t := set_cursor_column (column (cursor_point t) + 1) t in
    t ← write_flagged Flags.WIDE_CHAR_SPACER 32 t;
    Some (advance_cursor t) in
  if (columns t <=? column (cursor_point t) + 1)%nat then
    if has_mode TermMode.LINE_WRAP t then
      t ← write_flagged Flags.LEADING_WIDE_CHAR_SPACER 32 t;
      t ← wrapline t;
      write t
    else Some (set_needs_wrap true t)
  else write t.

Definition input (ch : char) t : option Term.t :=
  match char_width ch with
  | None => Some t
  | Some O => input_zerowidth ch t
  | Some width =>
      t ← (if Cursor.input_needs_wrap (cursor t) then wrapline t else Some t);
      t ← input_shift width t;
      if (width =? 1)%nat then
        t ← write_at_cursor ch t; Some (advance_cursor t)
      else input_wide ch t
  end.

Definition decaln t : option Term.t :=
  t ← foldM (λ l t, foldM (λ col t,
        upd_grid (Grid.index_mut_point (Pt (Line.from l) col) (λ _, set_c 69 Cell.default)) t)
        (seq 0 (columns t)) t)
      (seq 0 (screen_lines t)) t;
  Some (mark_fully_damaged t).

(** ** Cursor movement *)

Definition goto (l : Z) (col : nat) t : option Term.t :=
  '(y_offset, max_y) ←
    (if has_mode TermMode.ORIGIN t
     then last ← i32_sub (scroll_region t).2 1; Some ((scroll_region t).1, last)
     else Some (0, bottommost_line t));
  t ← damage_cursor t;
  y ← i32_add l y_offset;
  let t := set_cursor_line (Z.max (Z.min y max_y) 0) t in
  let t := set_cursor_column (Nat.min col (last_column t)) t in
  t ← damage_cursor t;
  Some (set_needs_wrap false t).

Definition goto_line (l : Z) t := goto l (column (cursor_point t)) t.
Definition goto_col (col : nat) t := goto (line (cursor_point t)) col t.

Definition move_up (lines : nat) t : option Term.t :=
  l ← Line.sub_usize (line (cursor_point t)) lines; goto l (column (cursor_point t)) t.
Definition move_down (lines : nat) t : option Term.t :=
  l ← Line.add_usize (line (cursor_point t)) lines; goto l (column (cursor_point t)) t.
Definition move_down_and_cr (lines : nat) t : option Term.t :=
  l ← Line.add_usize (line (cursor_point t)) lines; goto l 0 t.
Definition move_up_and_cr (lines : nat) t : option Term.t :=
  l ← Line.sub_usize (line (cursor_point t)) lines; goto l 0 t.

Definition move_forward (cols : nat) t : option Term.t :=
  let last := Nat.min (column (cursor_point t) + cols) (last_column t) in
  t ← damage_line (as_usize (line (cursor_point t))) (column (cursor_point t)) last t;
  Some (set_needs_wrap false (set_cursor_column last t)).

Definition move_backward (cols : nat) t : option Term.t :=
  let col := (column (cursor_point t) - cols)%nat in
  t ← damage_line (as_usize (line (cursor_point t))) col (column (cursor_point t)) t;
  Some (set_needs_wrap false (set_cursor_column col t)).

Definition backspace t : option Term.t :=
  let col := column (cursor_point t) in
  if (0 <? col)%nat then
    let l := as_usize (line (cursor_point t)) in
    damage_line l (col - 1) col (set_needs_wrap false (set_cursor_column (col - 1) t))
  else Some t.

Definition carriage_return t : option Term.t :=
  t ← damage_line (as_usize (line (cursor_point t))) 0 (column (cursor_point t)) t;
  Some (set_needs_wrap false (set_cursor_column 0 t)).

Definition newline t : option Term.t :=
  t ← linefeed t;
  if has_mode TermMode.LINE_FEED_NEW_LINE t then carriage_return t else Some t.

Definition save_cursor_position t : Term.t :=
  set_grid (Grid.set_saved_cursor (cursor t) (grid t)) t.

Definition restore_cursor_position t : option Term.t :=
  t ← damage_cursor t;
  damage_cursor (set_cursor (Grid.saved_cursor (grid t)) t).

(** ** Tabs *)

(** The inner [loop] of [put_tab]: forward to the next tabstop or the last column. *)
Fixpoint tab_forward (fuel : nat) (columns : nat) (tabs : TabStops.t) (col : nat) :
    option nat :=
  match fuel with
  | O => None
  | S fuel =>
      if (col + 1 =? columns)%nat then Some col
      else
        b ← TabStops.index (col + 1) tabs;
        if b : bool then Some (col + 1)%nat else tab_forward fuel columns tabs (col + 1)
  end.

Fixpoint put_tabs (count : nat) t : option Term.t :=
  match count with
  | O => Some t
  | S count =>
      if (column (cursor_point t) <? columns t)%nat then
        let tab := charset_map
          (Charsets.index (active_charset t) (Cursor.charsets (cursor t))) 9 in
        t ← upd_grid (Grid.cursor_cell (λ cell, if (c cell =? 32)%N then set_c tab cell
                                                 else cell)) t;
        col ← tab_forward (columns t) (columns t) (tabs t) (column (cursor_point t));
        put_tabs count (set_cursor_column col t)
      else Some t
  end.

Definition put_tab (count : nat) t : option Term.t :=
  if Cursor.input_needs_wrap (cursor t) then wrapline t else put_tabs count t.

Definition set_horizontal_tabstop t : option Term.t :=
  tabs ← TabStops.index_mut (column (cursor_point t)) true (tabs t); Some (set_tabs tabs t).

(** The search for a tabstop to the left of [col]; without one the column stays [from]. *)
Fixpoint tab_left (tabs : TabStops.t) (from col : nat) : option nat :=
  match col with
  | O => Some from
  | S col =>
      b ← TabStops.index col tabs;
      if b : bool then Some col else tab_left tabs from col
  end.

Fixpoint move_backward_cols (count : nat) (tabs : TabStops.t) (col : nat) : option nat :=
  match count with
  | O => Some col
  | S count =>
      if (col =? 0)%nat then Some col
      else col ← tab_left tabs col col; move_backward_cols count tabs col
  end.

Definition move_backward_tabs (count : nat) t : option Term.t :=
  let old_col := column (cursor_point t) in
  col ← move_backward_cols count (tabs t) old_col;
  let t := set_cursor_column col t in
  damage_line (as_usize (line (cursor_point t))) col old_col t.

(** The loop over the columns [todo] to the right of [col]. *)
Fixpoint tab_right (tabs : TabStops.t) (todo : list nat) (col : nat) : option nat :=
  match todo with
  | [] => Some col
  | i :: todo =>
      b ← TabStops.index i tabs;
      if b : bool then Some i else tab_right tabs todo i
  end.

Fixpoint move_forward_cols (count num_cols : nat) (tabs : TabStops.t) (col : nat) : option nat :=
  match count with
  | O => Some col
  | S count =>
      last ← usize_sub num_cols 1;
      if (col =? last)%nat then Some col
      else
        col ← tab_right tabs (seq (col + 1) (num_cols - (col + 1))) col;
        move_forward_cols count num_cols tabs col
  end.

Definition move_forward_tabs (count : nat) t : option Term.t :=
  let old_col := column (cursor_point t) in
  col ← move_forward_cols count (columns t) (tabs t) old_col;
  let t := set_cursor_column col t in
  damage_line (as_usize (line (cursor_point t))) old_col col t.

Definition clear_tabs (mode : TabulationClearMode) t : option Term.t :=
  match mode with
  | TabCurrent =>
      tabs ← TabStops.index_mut (column (cursor_point t)) false (tabs t); Some (set_tabs tabs t)
  | TabAll => Some (set_tabs (TabStops.clear_all (tabs t)) t)
  end.

(** ** Inserting, deleting and erasing in a line *)

Definition insert_blank (count : nat) t : option Term.t :=
  let source := column (cursor_point t) in
  room ← usize_sub (columns t) source;
  let count := Nat.min count room in
  let destination := (source + count)%nat in
  num_cells ← usize_sub (columns t) destination;
  let l := line (cursor_point t) in
  last ← usize_sub (columns t) 1;
  t ← damage_line (as_usize l) 0 last t;
  upd_grid (Grid.index_mut l (Row.index_mut_full (λ row,
    row ← foldM (λ offset row, swap_at (destination + offset) (source + offset) row)
            (reverse (seq 0 num_cells)) row;
    update_slice source destination (fill t) row))) t.

Definition delete_chars (count : nat) t : option Term.t :=
  let columns := columns t in
  let count := Nat.min count columns in
  let start := column (cursor_point t) in
  last ← usize_sub columns 1;
  let end_ := Nat.min (start + count) last in
  num_cells ← usize_sub columns end_;
  let l := line (cursor_point t) in
  t ← damage_line (as_usize l) 0 last t;
  upd_grid (Grid.index_mut l (Row.index_mut_full (λ row,
    row ← foldM (λ offset row, swap_at (start + offset) (end_ + offset) row)
            (seq 0 num_cells) row;
    end_ ← usize_sub columns count;
    update_slice end_ (length row) (fill t) row))) t.

Definition erase_chars (count : nat) t : option Term.t :=
  let start := column (cursor_point t) in
  let end_ := Nat.min (start + count) (columns t) in
  let l := line (cursor_point t) in
  t ← damage_line (as_usize l) start end_ t;
  upd_grid (Grid.index_mut l (Row.index_mut_range start end_ (fill t))) t.

Definition clear_line (mode : LineClearMode) t : option Term.t :=
  let p := cursor_point t in
  let range := match mode with
    | LineRight => if Cursor.input_needs_wrap (cursor t) then None
                   else Some (column p, columns t)
    | LineLeft => Some (0%nat, (column p + 1)%nat)
    | LineAll => Some (0%nat, columns t)
    end in
  match range with
  | None => Some t
  | Some (from, to) =>
      last ← usize_sub to 1;
      t ← damage_line (as_usize (line p)) from last t;
      t ← upd_grid (Grid.index_mut (line p) (Row.index_mut_range from to (fill t))) t;
      filter_selection (Included (line (cursor_point t))) (Included (line (cursor_point t))) t
  end.

(** ** Clearing and scrolling the screen *)

Definition clear_screen (mode : ClearMode) t : option Term.t :=
  let screen_lines := screen_lines t in
  t ← match mode with
    | ClearAbove =>
        let p := cursor_point t in
        t ← (if 1 <? line p
             then upd_grid (Grid.reset_region Unbounded (Excluded (line p))) t else Some t);
        let end_ := Nat.min (column p + 1) (columns t) in
        t ← upd_grid (Grid.index_mut (line p) (Row.index_mut_range_to end_ (fill t))) t;
        filter_selection (Included 0) (Included (line p)) t
    | ClearBelow =>
        let p := cursor_point t in
        t ← upd_grid (Grid.index_mut (line p)
                        (Row.index_mut_range_from (column p) (fill t))) t;
        last ← usize_sub screen_lines 1;
        t ← (if (as_usize (line p) <? last)%nat then
               next ← i32_add (line p) 1;
               upd_grid (Grid.reset_region (Included next) Unbounded) t
             else Some t);
        filter_selection (Included (line p)) (Excluded (as_i32 screen_lines)) t
    | ClearAll =>
        t ← (if has_mode TermMode.ALT_SCREEN t then
               upd_grid (Grid.reset_region Unbounded Unbounded) t
             else
               let old_offset := Grid.display_offset (grid t) in
               t ← upd_grid Grid.clear_viewport t;
               let lines := (Grid.display_offset (grid t) - old_offset)%nat in
               let vi := vi_mode_cursor t in
               l ← Line.sub_usize (line vi) lines;
               l ← Line.grid_clamp t BoundaryGrid l;
               Some (set_vi_mode_cursor (Pt l (column vi)) t));
        Some (set_selection None t)
    | ClearSaved =>
        if (0 <? history_size t)%nat then
          t ← upd_grid Grid.clear_history t;
          let vi := vi_mode_cursor t in
          l ← Line.grid_clamp t BoundaryCursor (line vi);
          let t := set_vi_mode_cursor (Pt l (column vi)) t in
          filter_selection Unbounded (Excluded 0) t
        else Some t
    end;
  Some (mark_fully_damaged t).

Definition scroll_up (lines : nat) t := Term.scroll_up lines t.
Definition scroll_down (lines : nat) t := scroll_down_relative (scroll_region t).1 lines t.

Definition in_scroll_region (l : Z) t : bool :=
  ((scroll_region t).1 <=? l) && (l <? (scroll_region t).2).

Definition insert_blank_lines (lines : nat) t : option Term.t :=
  let origin := line (cursor_point t) in
  if in_scroll_region origin t then scroll_down_relative origin lines t else Some t.

Definition delete_lines (lines : nat) t : option Term.t :=
  let origin := line (cursor_point t) in
  rest ← usize_sub (screen_lines t) (as_usize origin);
  let lines := Nat.min rest lines in
  if (0 <? lines)%nat && in_scroll_region origin t
  then scroll_up_relative origin lines t else Some t.

Definition reverse_index t : option Term.t :=
  if line (cursor_point t) =? (scroll_region t).1 then scroll_down 1 t
  else
    t ← damage_cursor t;
    l ← i32_sub (line (cursor_point t)) 1;
    damage_cursor (set_cursor_line (Z.max l 0) t).

Definition set_scrolling_region (top : nat) (bottom : option nat) t : option Term.t :=
  let bottom := from_option id (screen_lines t) bottom in
  if (bottom <=? top)%nat then Some t
  else
    start ← i32_sub (as_i32 top) 1;
    let end_ := as_i32 bottom in
    let screen_lines := as_i32 (screen_lines t) in
    goto 0 0 (set_scroll_region (Z.min start screen_lines, Z.min end_ screen_lines) t).

Definition deccolm t : option Term.t :=
  t ← set_scrolling_region 1 None t;
  t ← upd_grid (Grid.reset_region Unbounded Unbounded) t;
  Some (mark_fully_damaged t).

Definition reset_state t : option Term.t :=
  let t := if has_mode TermMode.ALT_SCREEN t
           then set_inactive_grid (grid t) (set_grid (inactive_grid t) t) else t in
  let t := set_active_charset CharsetIndex_default t in
  let t := set_cursor_style None t in
  t ← upd_grid Grid.reset t;
  g ← Grid.reset (inactive_grid t);
  let t := set_inactive_grid g t in
  let t := set_scroll_region (0, as_i32 (screen_lines t)) t in
  let t := set_tabs (TabStops.new (columns t)) t in
  let t := set_title_stack [] t in
  let t := set_title None t in
  let t := set_selection None t in
  let t := set_vi_mode_cursor Point.default t in
  let t := set_keyboard_mode_stack [] t in
  let t := set_inactive_keyboard_mode_stack [] t in
  let t := set_mode (N.land (mode t) TermMode.VI) t in
  let t := set_mode (TermMode.insert TermMode.default (mode t)) t in
  Some (mark_fully_damaged (send_event CursorBlinkingChange t)).

(** ** Attributes, colours and character sets *)

Definition set_hyperlink (hyperlink : option VteHyperlink) t : Term.t :=
  let '(hyperlink, suffix) :=
    match hyperlink with
    | Some e => let '(h, s) := Hyperlink.from_vte e (hyperlink_suffix t) in (Some h, s)
    | None => (None, hyperlink_suffix t)
    end in
  let t := set_hyperlink_suffix suffix t in
  set_template (Cell.set_hyperlink hyperlink (Cursor.template (cursor t))) t.

Definition attribute (attr : Attr) (x : Cell) : Cell :=
  let insert f x := set_flags (Flags.insert (flags x) f) x in
  let remove f x := set_flags (Flags.remove (flags x) f) x in
  match attr with
  | Foreground color => set_fg color x
  | Background color => set_bg color x
  | UnderlineColor color => Cell.set_underline_color color x
  | AttrReset =>
      Cell.set_underline_color None
        (set_flags Flags.empty (set_bg NamedBackground (set_fg NamedForeground x)))
  | Reverse => insert Flags.INVERSE x
  | CancelReverse => remove Flags.INVERSE x
  | Bold => insert Flags.BOLD x
  | CancelBold => remove Flags.BOLD x
  | Dim => insert Flags.DIM x
  | CancelBoldDim => remove (N.lor Flags.BOLD Flags.DIM) x
  | Italic => insert Flags.ITALIC x
  | CancelItalic => remove Flags.ITALIC x
  | Underline => insert Flags.UNDERLINE (remove Flags.ALL_UNDERLINES x)
  | DoubleUnderline => insert Flags.DOUBLE_UNDERLINE (remove Flags.ALL_UNDERLINES x)
  | Undercurl => insert Flags.UNDERCURL (remove Flags.ALL_UNDERLINES x)
  | DottedUnderline => insert Flags.DOTTED_UNDERLINE (remove Flags.ALL_UNDERLINES x)
  | DashedUnderline => insert Flags.DASHED_UNDERLINE (remove Flags.ALL_UNDERLINES x)
  | CancelUnderline => remove Flags.ALL_UNDERLINES x
  | Hidden => insert Flags.HIDDEN x
  | CancelHidden => remove Flags.HIDDEN x
  | Strike => insert Flags.STRIKEOUT x
  | CancelStrike => remove Flags.STRIKEOUT x
  | AttrOther => x
  end.

Definition terminal_attribute (attr : Attr) t : Term.t :=
  set_template (attribute attr (Cursor.template (cursor t))) t.

Definition set_color (index : nat) (color : Rgb) t : option Term.t :=
  old ← (if (index =? Colors.CURSOR)%nat then Some None
         else old ← Colors.index index (colors t); Some (Some old));
  let t := match old with
           | Some old => if bool_decide (old = Some color) then t else mark_fully_damaged t
           | None => t
           end in
  colors ← Colors.index_mut index (Some color) (colors t);
  Some (set_colors colors t).

Definition reset_color (index : nat) t : option Term.t :=
  old ← (if (index =? Colors.CURSOR)%nat then Some None else Colors.index index (colors t));
  let t := match old with Some _ => mark_fully_damaged t | None => t end in
  colors ← Colors.index_mut index None (colors t);
  Some (set_colors colors t).

Definition dynamic_color_sequence (prefix : text) (index : nat) (terminator : text) t : Term.t :=
  send_event (ColorRequest index (λ color,
    [ESC] ++ str "]" ++ prefix ++ str ";rgb:"
    ++ hex2 (rgb_r color) ++ hex2 (rgb_r color) ++ str "/"
    ++ hex2 (rgb_g color) ++ hex2 (rgb_g color) ++ str "/"
    ++ hex2 (rgb_b color) ++ hex2 (rgb_b color) ++ terminator)) t.

Definition configure_charset (index : CharsetIndex) (charset : StandardCharset) t : Term.t :=
  set_cursor (Cursor.set_charsets
    (Charsets.index_mut index charset (Cursor.charsets (cursor t))) (cursor t)) t.
Definition set_active_charset (index : CharsetIndex) t : Term.t :=
  Term.set_active_charset index t.

(** ** Clipboard *)

Definition clipboard_type (clipboard : N) : option ClipboardType :=
  if (clipboard =? 99)%N then Some Clipboard
  else if (clipboard =? 112)%N || (clipboard =? 115)%N then Some ClipboardSelection
  else None.

Definition clipboard_store (clipboard : N) (base64 : list N) t : Term.t :=
  if negb (bool_decide (Config.osc52 (config t) = OnlyCopy)
           || bool_decide (Config.osc52 (config t) = CopyPaste)) then t
  else
    match clipboard_type clipboard with
    | None => t
    | Some ty =>
        match base64_decode base64 ≫= from_utf8 with
        | Some text => send_event (ClipboardStore ty text) t
        | None => t
        end
    end.

Definition clipboard_load (clipboard : N) (terminator : text) t : Term.t :=
  if negb (bool_decide (Config.osc52 (config t) = OnlyPaste)
           || bool_decide (Config.osc52 (config t) = CopyPaste)) then t
  else
    match clipboard_type clipboard with
    | None => t
    | Some ty =>
        send_event (ClipboardLoad ty (λ text,
          [ESC] ++ str "]52;" ++ [clipboard] ++ str ";" ++ base64_encode (to_utf8 text)
          ++ terminator)) t
    end.

(** ** Modes *)

(** [self.cursor_style.get_or_insert(self.config.default_cursor_style)]. *)
Definition get_cursor_style t : CursorStyle :=
  from_option id (Config.default_cursor_style (config t)) (cursor_style t).
Definition insert_mode (m : TermMode) t : Term.t := set_mode (TermMode.insert m (mode t)) t.
Definition remove_mode (m : TermMode) t : Term.t := set_mode (TermMode.remove m (mode t)) t.

Definition set_blinking (b : bool) t : Term.t :=
  send_event CursorBlinkingChange
    (set_cursor_style (Some (mkCursorStyle (shape (get_cursor_style t)) b)) t).

(** Mouse protocols are mutually exclusive. *)
Definition set_mouse_mode (m : TermMode) t : Term.t :=
  send_event MouseCursorDirty (insert_mode m (remove_mode TermMode.MOUSE_MODE t)).

Definition set_private_mode (mode : PrivateMode) t : option Term.t :=
  match mode with
  | UnknownPrivate _ => Some t
  | NamedPrivate mode =>
      match mode with
      | UrgencyHints => Some (insert_mode TermMode.URGENCY_HINTS t)
      | SwapScreenAndSetRestoreCursor =>
          if has_mode TermMode.ALT_SCREEN t then Some t else swap_alt t
      | ShowCursor => Some (insert_mode TermMode.SHOW_CURSOR t)
      | CursorKeys => Some (insert_mode TermMode.APP_CURSOR t)
      | ReportMouseClicks => Some (set_mouse_mode TermMode.MOUSE_REPORT_CLICK t)
      | ReportCellMouseMotion => Some (set_mouse_mode TermMode.MOUSE_DRAG t)
      | ReportAllMouseMotion => Some (set_mouse_mode TermMode.MOUSE_MOTION t)
      | ReportFocusInOut => Some (insert_mode TermMode.FOCUS_IN_OUT t)
      | BracketedPaste => Some (insert_mode TermMode.BRACKETED_PASTE t)
      | SgrMouse => Some (insert_mode TermMode.SGR_MOUSE (remove_mode TermMode.UTF8_MOUSE t))
      | Utf8Mouse => Some (insert_mode TermMode.UTF8_MOUSE (remove_mode TermMode.SGR_MOUSE t))
      | AlternateScroll => Some (insert_mode TermMode.ALTERNATE_SCROLL t)
      | LineWrap => Some (insert_mode TermMode.LINE_WRAP t)
      | Origin => goto 0 0 (insert_mode TermMode.ORIGIN t)
      | ColumnMode => deccolm t
      | BlinkingCursor => Some (set_blinking true t)
      | SyncUpdate => Some t
      end
  end.

Definition unset_private_mode (mode : PrivateMode) t : option Term.t :=
  match mode with
  | UnknownPrivate _ => Some t
  | NamedPrivate mode =>
      match mode with
      | UrgencyHints => Some (remove_mode TermMode.URGENCY_HINTS t)
      | SwapScreenAndSetRestoreCursor =>
          if has_mode TermMode.ALT_SCREEN t then swap_alt t else Some t
      | ShowCursor => Some (remove_mode TermMode.SHOW_CURSOR t)
      | CursorKeys => Some (remove_mode TermMode.APP_CURSOR t)
      | ReportMouseClicks =>
          Some (send_event MouseCursorDirty (remove_mode TermMode.MOUSE_REPORT_CLICK t))
      | ReportCellMouseMotion =>
          Some (send_event MouseCursorDirty (remove_mode TermMode.MOUSE_DRAG t))
      | ReportAllMouseMotion =>
          Some (send_event MouseCursorDirty (remove_mode TermMode.MOUSE_MOTION t))
      | ReportFocusInOut => Some (remove_mode TermMode.FOCUS_IN_OUT t)
      | BracketedPaste => Some (remove_mode TermMode.BRACKETED_PASTE t)
      | SgrMouse => Some (remove_mode TermMode.SGR_MOUSE t)
      | Utf8Mouse => Some (remove_mode TermMode.UTF8_MOUSE t)
      | AlternateScroll => Some (remove_mode TermMode.ALTERNATE_SCROLL t)
      | LineWrap => Some (remove_mode TermMode.LINE_WRAP t)
      | Origin => Some (remove_mode TermMode.ORIGIN t)
      | ColumnMode => deccolm t
      | BlinkingCursor => Some (set_blinking false t)
      | SyncUpdate => Some t
      end
  end.

Definition private_mode_state (mode : PrivateMode) t : ModeState :=
  let report m := ModeState.from_bool (has_mode m t) in
  match mode with
  | UnknownPrivate _ => NotSupported
  | NamedPrivate mode =>
      match mode with
      | CursorKeys => report TermMode.APP_CURSOR
      | Origin => report TermMode.ORIGIN
      | LineWrap => report TermMode.LINE_WRAP
      | BlinkingCursor => ModeState.from_bool (blinking (get_cursor_style t))
      | ShowCursor => report TermMode.SHOW_CURSOR
      | ReportMouseClicks => report TermMode.MOUSE_REPORT_CLICK
      | ReportCellMouseMotion => report TermMode.MOUSE_DRAG
      | ReportAllMouseMotion => report TermMode.MOUSE_MOTION
      | ReportFocusInOut => report TermMode.FOCUS_IN_OUT
      | Utf8Mouse => report TermMode.UTF8_MOUSE
      | SgrMouse => report TermMode.SGR_MOUSE
      | AlternateScroll => report TermMode.ALTERNATE_SCROLL
      | UrgencyHints => report TermMode.URGENCY_HINTS
      | SwapScreenAndSetRestoreCursor => report TermMode.ALT_SCREEN
      | BracketedPaste => report TermMode.BRACKETED_PASTE
      | SyncUpdate => ModeReset
      | ColumnMode => NotSupported
      end
  end.

(** [raw] is [mode.raw()], the number of the mode in the escape sequence. The query for the
    blinking cursor also stores the default style it reports. *)
Definition report_private_mode (mode : PrivateMode) (raw : N) t : Term.t :=
  let state := private_mode_state mode t in
  let t := match mode with
           | NamedPrivate BlinkingCursor => set_cursor_style (Some (get_cursor_style t)) t
           | _ => t
           end in
  send_event (PtyWrite ([ESC] ++ str "[?" ++ digits raw ++ str ";"
                        ++ digits (ModeState.as_u8 state) ++ str "$y")) t.

Definition set_mode_ (mode : Mode) t : Term.t :=
  match mode with
  | UnknownAnsi _ => t
  | NamedAnsi Insert => insert_mode TermMode.INSERT t
  | NamedAnsi LineFeedNewLine => insert_mode TermMode.LINE_FEED_NEW_LINE t
  end.

Definition unset_mode (mode : Mode) t : Term.t :=
  match mode with
  | UnknownAnsi _ => t
  | NamedAnsi Insert => mark_fully_damaged (remove_mode TermMode.INSERT t)
  | NamedAnsi LineFeedNewLine => remove_mode TermMode.LINE_FEED_NEW_LINE t
  end.

Definition report_mode (mode : Mode) (raw : N) t : Term.t :=
  let state := match mode with
    | UnknownAnsi _ => NotSupported
    | NamedAnsi Insert => ModeState.from_bool (has_mode TermMode.INSERT t)
    | NamedAnsi LineFeedNewLine =>
        ModeState.from_bool (has_mode TermMode.LINE_FEED_NEW_LINE t)
    end in
  send_event (PtyWrite ([ESC] ++ str "[" ++ digits raw ++ str ";"
                        ++ digits (ModeState.as_u8 state) ++ str "$y")) t.

Definition set_keypad_application_mode t : Term.t := insert_mode TermMode.APP_KEYPAD t.
Definition unset_keypad_application_mode t : Term.t := remove_mode TermMode.APP_KEYPAD t.

(** ** Keyboard modes *)

Definition report_keyboard_mode t : Term.t :=
  if negb (Config.kitty_keyboard (config t)) then t
  else send_event (PtyWrite ([ESC] ++ str "[?"
         ++ digits (KeyboardModes_bits (current_keyboard_mode t)) ++ str "u")) t.

(** At the maximal depth an element of the title stack is removed, which panics when there is
    none. *)
Definition push_keyboard_mode (mode : KeyboardModes) t : option Term.t :=
  if negb (Config.kitty_keyboard (config t)) then Some t
  else
    t ← (if (KEYBOARD_MODE_STACK_MAX_DEPTH <=? length (keyboard_mode_stack t))%nat then
           match title_stack t with
           | _ :: stack => Some (set_title_stack stack t)
           | [] => None
           end
         else Some t);
    let t := set_keyboard_mode_stack (keyboard_mode_stack t ++ [mode]) t in
    Some (Term.set_keyboard_mode (TermMode.from_keyboard mode) Replace t).

Definition pop_keyboard_modes (to_pop : nat) t : Term.t :=
  if negb (Config.kitty_keyboard (config t)) then t
  else
    let new_len := (length (keyboard_mode_stack t) - to_pop)%nat in
    let t := set_keyboard_mode_stack (truncate new_len (keyboard_mode_stack t)) t in
    Term.set_keyboard_mode (TermMode.from_keyboard (current_keyboard_mode t)) Replace t.

Definition set_keyboard_mode (mode : KeyboardModes) (apply : KeyboardModesApplyBehavior) t :
    Term.t :=
  if negb (Config.kitty_keyboard (config t)) then t
  else Term.set_keyboard_mode (TermMode.from_keyboard mode) apply t.

(** ** Reports, cursor style and titles *)

Definition bell t : Term.t := send_event Bell t.
Definition substitute t : Term.t := t.

Definition identify_terminal (intermediate : option char) t : Term.t :=
  match intermediate with
  | None => send_event (PtyWrite ([ESC] ++ str "[?6c")) t
  | Some ch =>
      if (ch =? 62)%N then
        send_event (PtyWrite ([ESC] ++ str "[>0;" ++ digits (version_number CARGO_PKG_VERSION)
                              ++ str ";1c")) t
      else t
  end.

Definition device_status (arg : nat) t : option Term.t :=
  if (arg =? 5)%nat then Some (send_event (PtyWrite ([ESC] ++ str "[0n")) t)
  else if (arg =? 6)%nat then
    l ← i32_add (line (cursor_point t)) 1;
    Some (send_event (PtyWrite ([ESC] ++ str "[" ++ show_Z l ++ str ";"
                                ++ show_nat (column (cursor_point t) + 1) ++ str "R")) t)
  else Some t.

Definition set_cursor_style (style : option CursorStyle) t : Term.t :=
  send_event CursorBlinkingChange (Term.set_cursor_style style t).
Definition set_cursor_shape (shape : CursorShape) t : Term.t :=
  Term.set_cursor_style (Some (mkCursorStyle shape (blinking (get_cursor_style t)))) t.

Definition set_title (title : option text) t : Term.t :=
  let t := Term.set_title title t in
  send_event (match title with Some title => Title title | None => ResetTitle end) t.

Definition push_title t : option Term.t :=
  t ← (if (TITLE_STACK_MAX_DEPTH <=? length (title_stack t))%nat then
         match title_stack t with
         | _ :: stack => Some (set_title_stack stack t)
         | [] => None
         end
       else Some t);
  Some (set_title_stack (title_stack t ++ [title t]) t).

Definition pop_title t : Term.t :=
  match reverse (title_stack t) with
  | popped :: rest => set_title popped (set_title_stack (reverse rest) t)
  | [] => t
  end.

Definition text_area_size_pixels t : Term.t :=
  send_event (TextAreaSizeRequest (λ w,
    height ← u16_mul (num_lines w) (cell_height w);
    width ← u16_mul (num_cols w) (cell_width w);
    Some ([ESC] ++ str "[4;" ++ digits height ++ str ";" ++ digits width ++ str "t"))) t.

Definition text_area_size_chars t : Term.t :=
  send_event (PtyWrite ([ESC] ++ str "[8;" ++ show_nat (screen_lines t) ++ str ";"
                        ++ show_nat (columns t) ++ str "t")) t.
End ops.
End Handler.

(** ** The interface of the parser *)

(** One call of a method of the [Handler] trait. *)
Inductive call `{External} :=
  | Input (ch : char) | Decaln | Goto (l : Z) (col : nat) | GotoLine (l : Z) | GotoCol (col : nat)
  | InsertBlank (n : nat) | MoveUp (n : nat) | MoveDown (n : nat) | MoveForward (n : nat)
  | MoveBackward (n : nat) | IdentifyTerminal (intermediate : option char)
  | ReportKeyboardMode | PushKeyboardMode (m : KeyboardModes) | PopKeyboardModes (n : nat)
  | SetKeyboardMode (m : KeyboardModes) (apply : KeyboardModesApplyBehavior)
  | DeviceStatus (arg : nat) | MoveDownAndCr (n : nat) | MoveUpAndCr (n : nat)
  | PutTab (n : nat) | Backspace | CarriageReturn | Linefeed | BellCall | Substitute | Newline
  | SetHorizontalTabstop | ScrollUp (n : nat) | ScrollDown (n : nat) | InsertBlankLines (n : nat)
  | DeleteLines (n : nat) | EraseChars (n : nat) | DeleteChars (n : nat)
  | MoveBackwardTabs (n : nat) | MoveForwardTabs (n : nat) | SaveCursorPosition
  | RestoreCursorPosition | ClearLine (mode : LineClearMode) | SetColor (i : nat) (color : Rgb)
  | DynamicColorSequence (prefix : text) (i : nat) (terminator : text) | ResetColor (i : nat)
  | ClipboardStoreCall (clipboard : N) (base64 : list N)
  | ClipboardLoadCall (clipboard : N) (terminator : text)
  | ClearScreen (mode : ClearMode) | ClearTabs (mode : TabulationClearMode) | ResetState
  | ReverseIndex | SetHyperlink (hyperlink : option VteHyperlink) | TerminalAttribute (attr : Attr)
  | SetPrivateMode (m : PrivateMode) | UnsetPrivateMode (m : PrivateMode)
  | ReportPrivateMode (m : PrivateMode) (raw : N) | SetMode (m : Mode) | UnsetMode (m : Mode)
  | ReportMode (m : Mode) (raw : N) | SetScrollingRegion (top : nat) (bottom : option nat)
  | SetKeypadApplicationMode | UnsetKeypadApplicationMode
  | ConfigureCharset (i : CharsetIndex) (charset : StandardCharset)
  | SetActiveCharset (i : CharsetIndex) | SetCursorStyle (style : option CursorStyle)
  | SetCursorShape (shape : CursorShape) | SetTitle (title : option text) | PushTitle | PopTitle
  | TextAreaSizePixels | TextAreaSizeChars.

Section step.
Context `{External}.
Import Handler.

Definition step (c : call) (t : Term.t) : option Term.t :=
  match c with
  | Input ch => input ch t
  | Decaln => decaln t
  | Goto l col => goto l col t
  | GotoLine l => goto_line l t
  | GotoCol col => goto_col col t
  | InsertBlank n => insert_blank n t
  | MoveUp n => move_up n t
  | MoveDown n => move_down n t
  | MoveForward n => move_forward n t
  | MoveBackward n => move_backward n t
  | IdentifyTerminal i => Some (identify_terminal i t)
  | ReportKeyboardMode => Some (report_keyboard_mode t)
  | PushKeyboardMode m => push_keyboard_mode m t
  | PopKeyboardModes n => Some (pop_keyboard_modes n t)
  | SetKeyboardMode m apply => Some (set_keyboard_mode m apply t)
  | DeviceStatus arg => device_status arg t
  | MoveDownAndCr n => move_down_and_cr n t
  | MoveUpAndCr n => move_up_and_cr n t
  | PutTab n => put_tab n t
  | Backspace => backspace t
  | CarriageReturn => carriage_return t
  | Linefeed => Term.linefeed t
  | BellCall => Some (bell t)
  | Substitute => Some (substitute t)
  | Newline => newline t
  | SetHorizontalTabstop => set_horizontal_tabstop t
  | ScrollUp n => scroll_up n t
  | ScrollDown n => scroll_down n t
  | InsertBlankLines n => insert_blank_lines n t
  | DeleteLines n => delete_lines n t
  | EraseChars n => erase_chars n t
  | DeleteChars n => delete_chars n t
  | MoveBackwardTabs n => move_backward_tabs n t
  | MoveForwardTabs n => move_forward_tabs n t
  | SaveCursorPosition => Some (save_cursor_position t)
  | RestoreCursorPosition => restore_cursor_position t
  | ClearLine mode => clear_line mode t
  | SetColor i color => set_color i color t
  | DynamicColorSequence prefix i terminator => Some (dynamic_color_sequence prefix i terminator t)
  | ResetColor i => reset_color i t
  | ClipboardStoreCall clipboard base64 => Some (clipboard_store clipboard base64 t)
  | ClipboardLoadCall clipboard terminator => Some (clipboard_load clipboard terminator t)
  | ClearScreen mode => clear_screen mode t
  | ClearTabs mode => clear_tabs mode t
  | ResetState => reset_state t
  | ReverseIndex => reverse_index t
  | SetHyperlink hyperlink => Some (set_hyperlink hyperlink t)
  | TerminalAttribute attr => Some (terminal_attribute attr t)
  | SetPrivateMode m => set_private_mode m t
  | UnsetPrivateMode m => unset_private_mode m t
  | ReportPrivateMode m raw => Some (report_private_mode m raw t)
  | SetMode m => Some (set_mode_ m t)
  | UnsetMode m => Some (unset_mode m t)
  | ReportMode m raw => Some (report_mode m raw t)
  | SetScrollingRegion top bottom => set_scrolling_region top bottom t
  | SetKeypadApplicationMode => Some (set_keypad_application_mode t)
  | UnsetKeypadApplicationMode => Some (unset_keypad_application_mode t)
  | ConfigureCharset i charset => Some (configure_charset i charset t)
  | SetActiveCharset i => Some (set_active_charset i t)
  | SetCursorStyle style => Some (set_cursor_style style t)
  | SetCursorShape shape => Some (set_cursor_shape shape t)
  | SetTitle title => Some (set_title title t)
  | PushTitle => push_title t
  | PopTitle => Some (pop_title t)
  | TextAreaSizePixels => Some (text_area_size_pixels t)
  | TextAreaSizeChars => Some (text_area_size_chars t)
  end.

(** The calls for a part of the output of the child process. *)
Definition run (cs : list call) (t : Term.t) : option Term.t := foldM step cs t.

(** The arguments the parser produces: parameters of escape sequences are [u16], lines are counted
    from one there, and colours have an index below [Colors.COUNT]. *)
Definition args_ok (c : call) : Prop :=
  match c with
  | Goto l _ | GotoLine l => -65535 <= l <= 65535
  | MoveUp n | MoveDown n | MoveDownAndCr n | MoveUpAndCr n => Z.of_nat n <= 65535
  | SetColor i _ | ResetColor i => (i < Colors.COUNT)%nat
  | SetScrollingRegion top bottom =>
      (1 <= top)%nat ∧ Z.of_nat top <= 65535 ∧
      match bottom with Some n => Z.of_nat n <= 65535 | None => True end
  | _ => True
  end.
End step.

(** ** The cursor to render *)

Module RenderableCursor.
Record t `{External} := mk { shape : CursorShape; point : Point }.

Definition new `{External} (term : Term.t) : option t :=
  let vi_mode := Term.has_mode TermMode.VI term in
  let p := if vi_mode then Term.vi_mode_cursor term else Term.cursor_point term in
  cell ← Grid.index_point p (Term.grid term);
  p ← (if Flags.contains (flags cell) Flags.WIDE_CHAR_SPACER
       then col ← usize_sub (column p) 1; Some (Pt (line p) col) else Some p);
  let shape := if negb vi_mode && negb (Term.has_mode TermMode.SHOW_CURSOR term)
               then CursorShape_Hidden else Cells.shape (Term.active_cursor_style term) in
  Some (mk _ shape p).
End RenderableCursor.
