(* ===== verification/TermSafety.v ===== *)
(** The invariant of the terminal and the handlers that move the cursor or write cells.

    [term_ok] collects what the methods of [Term] and the handlers rely on: both grids are
    well-formed and have the size of the terminal, the tabstops and the damage cover it, the
    scrolling region lies inside.  [safe k h] says that the handler [h] does not panic in such a
    state and keeps the invariant; [k] bounds how far it may move the lines of the selection,
    which nothing in the code bounds. *)
From S2P Require Import Prelude Index Cells Rows Storages Grids Resizes TermData Selections Terms.
From S2P Require Import Handlers.
#[local] Open Scope Z_scope.

Section TermInvariant.
Context `{External}.
(** The size of the terminal. *)
Context (L C : nat).
Implicit Types (t : Term.t) (g : Grid.t Cell).

Record screen_ok g : Prop := {
  sc_grid : grid_ok row_safe g;
  sc_lines : Grid.lines g = L;
  sc_columns : Grid.columns g = C;
}.

(** An empty region is at the end of the screen. *)
Definition region_ok (region : Z * Z) : Prop :=
  0 <= region.1 <= region.2 ∧ region.2 <= Z.of_nat L ∧
  (region.1 = region.2 → region.1 = Z.of_nat L).

Record term_ok (b : Z) t : Prop := {
  t_grid : screen_ok (Term.grid t);
  t_inactive : screen_ok (Term.inactive_grid t);
  t_wide : (2 <= C)%nat;
  t_tabs : length (Term.tabs t) = C;
  t_region : region_ok (Term.scroll_region t);
  t_damage : length (TermDamageState.lines (Term.damage t)) = L;
  t_last_cursor : point_in L C (TermDamageState.last_cursor (Term.damage t));
  t_selection : from_option (bounded b) True (Term.selection t);
  t_vi : -268435455 <= line (Term.vi_mode_cursor t) <= 268435455 ∧
    (column (Term.vi_mode_cursor t) < C)%nat;
  t_colors : length (Term.colors t) = Colors.COUNT;
  t_budget : Term.selection t ≠ None → 268435455 <= b;
}.

(** No panic, and the invariant holds afterwards. *)
Definition safe (k : Z) (h : Term.t → option Term.t) : Prop :=
  ∀ b t, term_ok b t → b + k <= 1073741823 → wp (h t) (term_ok (b + k)).

(** The fields the invariant reads, apart from the grids. *)
Definition same_rest t t' : Prop :=
  Term.tabs t' = Term.tabs t ∧ Term.scroll_region t' = Term.scroll_region t ∧
  Term.damage t' = Term.damage t ∧ Term.selection t' = Term.selection t ∧
  Term.vi_mode_cursor t' = Term.vi_mode_cursor t ∧ Term.colors t' = Term.colors t.

(** Everything a write to the cells or to the damage leaves alone. *)
Record quiet t t' : Prop := {
  q_cursor : Grid.cursor (Term.grid t') = Grid.cursor (Term.grid t);
  q_mode : Term.mode t' = Term.mode t;
  q_region : Term.scroll_region t' = Term.scroll_region t;
  q_vi : Term.vi_mode_cursor t' = Term.vi_mode_cursor t;
}.

Lemma quiet_refl t : quiet t t.
Proof. done. Qed.

Lemma quiet_trans t1 t2 t3 : quiet t1 t2 → quiet t2 t3 → quiet t1 t3.
Proof. intros [] []. split; congruence. Qed.

Lemma bounded_weaken b b' s : b <= b' → bounded b s → bounded b' s.
Proof. unfold bounded, anchor_bounded. lia. Qed.

Lemma term_ok_weaken b b' t : b <= b' → term_ok b t → term_ok b' t.
Proof.
  intros Hb []. split; try done; [|intros Hs; specialize (t_budget0 Hs); lia].
  destruct (Term.selection t); [|done]. by eapply bounded_weaken.
Qed.

(** Without a selection there is no budget. *)
Lemma term_ok_unselected b b' t : Term.selection t = None → term_ok b t → term_ok b' t.
Proof. intros Hs []. split; try done; by rewrite Hs. Qed.
Lemma term_ok_negative b t : b < 0 → term_ok b t → Term.selection t = None.
Proof.
  intros Hb Ht. pose proof (t_budget _ _ Ht) as Hn. destruct (Term.selection t); [|done].
  exfalso. assert (268435455 <= b) by (by apply Hn). lia.
Qed.

Lemma safe_weaken k k' h : k <= k' → safe k h → safe k' h.
Proof.
  intros Hk Hh b t Ht Hb. wp_call (Hh b t Ht); [lia|]. intros t' Ht'.
  eapply term_ok_weaken; [|done]. lia.
Qed.

(** What a term with the invariant looks like to arithmetic. *)
Lemma term_facts b t :
  term_ok b t →
  screen_lines t = L ∧ columns t = C ∧ as_i32 L = Z.of_nat L ∧
  (1 <= L)%nat ∧ (2 <= C)%nat ∧ Z.of_nat L <= 268435455 ∧
  0 <= line (Term.cursor_point t) < Z.of_nat L ∧
  (column (Term.cursor_point t) < C)%nat.
Proof.
  intros [[Hg <- <-] _ Hw _ _ _ _ _ _ _ _]. pose proof (g_small _ Hg).
  pose proof (g_lines _ Hg). destruct (g_cursor _ Hg) as [Hl Hc].
  rewrite as_i32_small by lia. simpl. unfold Term.cursor_point, Term.cursor.
  split; [done|]. split; [done|]. lia.
Qed.

(** ** Updates that keep the invariant *)

Lemma term_ok_rest b t t' :
  term_ok b t → same_rest t t' → screen_ok (Term.grid t') → screen_ok (Term.inactive_grid t') →
  term_ok b t'.
Proof.
  intros [] (Et & Er & Ed & Es & Ev & Ec) Hg Hi. split; rewrite ?Et, ?Er, ?Ed, ?Es, ?Ev, ?Ec; done.
Qed.

Lemma set_grid_ok b t g : term_ok b t → screen_ok g → term_ok b (Term.set_grid g t).
Proof. intros Ht Hg. eapply term_ok_rest; [done|done|done|apply Ht]. Qed.

Lemma set_inactive_grid_ok b t g :
  term_ok b t → screen_ok g → term_ok b (Term.set_inactive_grid g t).
Proof. intros Ht Hg. eapply term_ok_rest; [done|done|apply Ht|done]. Qed.

Lemma upd_grid_ok b t f :
  term_ok b t → wp (f (Term.grid t)) screen_ok → wp (Term.upd_grid f t) (term_ok b).
Proof.
  intros Ht Hf. unfold Term.upd_grid. wp_step. eapply wp_mono; [done|]. intros g Hg.
  by apply set_grid_ok.
Qed.

(** The fields outside of the invariant. *)
Lemma irrelevant b t t' :
  term_ok b t → same_rest t t' → Term.grid t' = Term.grid t →
  Term.inactive_grid t' = Term.inactive_grid t → term_ok b t'.
Proof.
  intros Ht Hr Eg Ei. eapply term_ok_rest; [done|done|rewrite Eg; apply Ht|rewrite Ei; apply Ht].
Qed.

Lemma set_cursor_term_ok b t (x : Cursor.t Cell) :
  term_ok b t → point_in L C (Cursor.point x) → term_ok b (Term.set_cursor x t).
Proof.
  intros Ht Hx. apply set_grid_ok; [done|]. destruct (t_grid _ _ Ht) as [Hg El Ec].
  split; [|done..]. apply set_cursor_ok; [done|]. by rewrite El, Ec.
Qed.

Lemma set_cursor_line_ok b t l :
  term_ok b t → 0 <= l < Z.of_nat L → term_ok b (Term.set_cursor_line l t).
Proof.
  intros Ht Hl. destruct (term_facts _ _ Ht) as (_ & _ & _ & _ & _ & _ & _ & Hc).
  apply set_cursor_term_ok; [done|]. by split.
Qed.

Lemma set_cursor_column_ok b t c :
  term_ok b t → (c < C)%nat → term_ok b (Term.set_cursor_column c t).
Proof.
  intros Ht Hl. destruct (term_facts _ _ Ht) as (_ & _ & _ & _ & _ & _ & Hc & _).
  apply set_cursor_term_ok; [done|]. by split.
Qed.

(** Changes of the cursor that are not moves. *)
Lemma set_cursor_here_ok b t (x : Cursor.t Cell) :
  term_ok b t → Cursor.point x = Term.cursor_point t → term_ok b (Term.set_cursor x t).
Proof.
  intros Ht Ex. apply set_cursor_term_ok; [done|]. rewrite Ex.
  destruct (term_facts _ _ Ht) as (_ & _ & _ & _ & _ & _ & ? & ?). by split.
Qed.

Lemma set_vi_ok b t p :
  term_ok b t → -268435455 <= line p <= 268435455 → (column p < C)%nat →
  term_ok b (Term.set_vi_mode_cursor p t).
Proof. intros [] Hl Hc. split; simpl; auto. Qed.

Lemma set_selection_ok b t s :
  term_ok b t → from_option (bounded b) True s → (s ≠ None → Term.selection t ≠ None) →
  term_ok b (Term.set_selection s t).
Proof. intros [] Hs Hn. split; simpl; auto. Qed.

Lemma set_region_ok b t r : term_ok b t → region_ok r → term_ok b (Term.set_scroll_region r t).
Proof. intros [] Hs. split; simpl; auto. Qed.

Lemma set_tabs_ok b t tabs :
  term_ok b t → length tabs = C → term_ok b (Term.set_tabs tabs t).
Proof. intros [] Hs. split; simpl; auto. Qed.

Lemma set_colors_ok b t cs :
  term_ok b t → length cs = Colors.COUNT → term_ok b (Term.set_colors cs t).
Proof. intros [] Hs. split; simpl; auto. Qed.

Lemma fully_damaged_ok b t : term_ok b t → term_ok b (Term.mark_fully_damaged t).
Proof. intros []. split; simpl; auto. Qed.

Lemma send_event_ok b t e : term_ok b t → term_ok b (Term.send_event e t).
Proof. intros Ht. by apply (irrelevant b t). Qed.

Lemma set_mode_ok b t m : term_ok b t → term_ok b (Term.set_mode m t).
Proof. intros Ht. by apply (irrelevant b t). Qed.

(** ** Damage *)

Lemma damage_line_ok b t l left right :
  term_ok b t → (l < L)%nat →
  wp (Term.damage_line l left right t) (λ t', term_ok b t' ∧ quiet t t').
Proof.
  intros Ht Hl. unfold Term.damage_line, TermDamageState.damage_line.
  pose proof (t_damage _ _ Ht) as Hlen.
  destruct (lookup_lt_is_Some_2 (TermDamageState.lines (Term.damage t)) l) as [d Hd]; [lia|].
  rewrite (update_at_ok _ _ _ _ Hd). mrun. split; [|done].
  destruct Ht. split; simpl; auto. by rewrite length_insert.
Qed.

Lemma damage_cursor_ok b t :
  term_ok b t → wp (Term.damage_cursor t) (λ t', term_ok b t' ∧ quiet t t').
Proof.
  intros Ht. destruct (term_facts _ _ Ht) as (_ & _ & _ & _ & _ & ? & ? & ?).
  apply damage_line_ok; [done|]. simpl. casts. lia.
Qed.

(** ** Writing to cells *)

Lemma write_ok b t f :
  term_ok b t →
  wp (f (Term.grid t)) (λ g, screen_ok g ∧ Grid.cursor g = Grid.cursor (Term.grid t)) →
  wp (Term.upd_grid f t) (λ t', term_ok b t' ∧ quiet t t').
Proof.
  intros Ht Hf. unfold Term.upd_grid. wp_step. eapply wp_mono; [done|]. intros g [Hg Ec].
  mrun. split; [by apply set_grid_ok|]. by split.
Qed.

Lemma index_mut_screen g l f :
  screen_ok g → topmost_line g <= l < Z.of_nat L →
  (∀ r, row_safe C r → wp (f r) (row_safe C)) →
  wp (Grid.index_mut l f g) (λ g', screen_ok g' ∧ Grid.cursor g' = Grid.cursor g).
Proof.
  intros [Hg El Ec] Hl Hf. dims (grid_dims g Hg). unfold Grid.index_mut. wp_step.
  wp_call (index_mut_line (P:=row_safe C) (Grid.raw g) l f (λ _ _, True));
    [apply Hg|rewrite <- Ec; apply Hg|apply (grid_has_line g l Hg); simpl in *; lia| |].
  { intros r Hr. wp_call (Hf r Hr). done. }
  intros s [Hsame _]. mrun. split; [|done]. split; [|done..]. apply set_raw_ok; [done|].
  by rewrite Ec.
Qed.

Lemma topmost_screen g : screen_ok g → topmost_line g <= 0.
Proof. intros [Hg _ _]. dims (grid_dims g Hg). simpl in *. lia. Qed.

(** A write to a line of the screen. *)
Lemma write_line_ok b t l f :
  term_ok b t → topmost_line (Term.grid t) <= l < Z.of_nat L →
  (∀ r, row_safe C r → wp (f r) (row_safe C)) →
  wp (Term.upd_grid (Grid.index_mut l f) t) (λ t', term_ok b t' ∧ quiet t t').
Proof. intros Ht Hl Hf. apply write_ok; [done|]. apply index_mut_screen; [apply Ht|done|done]. Qed.

Lemma index_mut_point_ok b t l c f :
  term_ok b t → topmost_line (Term.grid t) <= l < Z.of_nat L → (c < C)%nat →
  wp (Term.upd_grid (Grid.index_mut_point (Pt l c) f) t) (λ t', term_ok b t' ∧ quiet t t').
Proof.
  intros Ht Hl Hc. apply write_line_ok; [done|done|]. intros r Hr. simpl.
  by apply (inv_index_mut c f r Hr).
Qed.

Lemma cursor_cell_ok b t f :
  term_ok b t →
  wp (Term.upd_grid (Grid.cursor_cell f) t) (λ t', term_ok b t' ∧ quiet t t').
Proof.
  intros Ht. destruct (term_facts _ _ Ht) as (_ & _ & _ & _ & _ & _ & Hl & Hc).
  pose proof (topmost_screen _ (t_grid _ _ Ht)).
  apply (index_mut_point_ok b t (line (Term.cursor_point t)) (column (Term.cursor_point t)));
    [done|lia|done].
Qed.

Lemma cursor_cell_read b t :
  term_ok b t → is_Some (Grid.index_point (Term.cursor_point t) (Term.grid t)).
Proof.
  intros Ht. destruct (t_grid _ _ Ht) as [Hg El Ec].
  destruct (term_facts _ _ Ht) as (_ & _ & _ & _ & _ & _ & Hl & Hc).
  apply (index_point_ok (P:=row_safe) _ _ Hg). dims (grid_dims _ Hg).
  split; simpl in *; lia.
Qed.

Lemma clear_wide_neighbours_ok b t x :
  term_ok b t → wp (Term.clear_wide_neighbours x t) (λ t', term_ok b t' ∧ quiet t t').
Proof.
  intros Ht. destruct (term_facts _ _ Ht) as (_ & EC & EL & HL & HC & Hs & Hl & Hc).
  pose proof (topmost_screen _ (t_grid _ _ Ht)).
  unfold Term.clear_wide_neighbours. cbv zeta. wp_step.
  apply wp_mono with (λ t', term_ok b t' ∧ quiet t t').
  { unfold last_column in *. rewrite EC. repeat case_match; bools.
    - apply index_mut_point_ok; [done|lia|lia].
    - apply index_mut_point_ok; [done|lia|lia].
    - by split. }
  intros t' [Ht' Q]. case_match eqn:E; [|by split]. bools.
  pose proof (t_grid _ _ Ht') as [Hg' El' Ec']. pose proof (q_cursor _ _ Q) as Qc.
  dims (grid_dims _ Hg').
  assert (topmost_line t' = topmost_line (Term.grid t')) as Etop by done.
  assert (last_column t' < C)%nat as Hlast.
  { unfold last_column. simpl in *. lia. }
  simpl in *. wp_step.
  wp_step. wp_call (index_mut_point_ok b t' _ _ _ Ht'); [|done|].
  { unfold topmost_line in *. simpl in *. lia. }
  intros t'' [? ?]. split; [done|]. by eapply quiet_trans.
Qed.

Lemma write_at_cursor_ok b t ch :
  term_ok b t → wp (Term.write_at_cursor ch t) (λ t', term_ok b t' ∧ quiet t t').
Proof.
  intros Ht. unfold Term.write_at_cursor. cbv zeta.
  destruct (cursor_cell_read _ _ Ht) as [x ->]. mrun. wp_step.
  apply wp_mono with (λ t', term_ok b t' ∧ quiet t t').
  { case_match; [by apply clear_wide_neighbours_ok|by split]. }
  intros t' [Ht' Q]. wp_call (cursor_cell_ok b t' _ Ht'). intros t'' [? ?].
  split; [done|]. by eapply quiet_trans.
Qed.

(** ** Scrolling *)

Lemma term_dims b t : term_ok b t → dims_ok t.
Proof.
  intros Ht. destruct (t_grid _ _ Ht) as [Hg _ _].
  destruct (grid_dims _ Hg). by split.
Qed.

Lemma rotate_selection_ok b t top bottom delta :
  term_ok b t → b <= 1073741823 → -268435455 <= delta <= 268435455 →
  0 <= top <= 268435455 → 0 <= bottom <= 268435455 →
  wp (Term.rotate_selection (top, bottom) delta t)
    (λ t', term_ok (b + Z.abs delta) t' ∧ quiet t t' ∧ Term.grid t' = Term.grid t).
Proof.
  intros Ht Hb Hd Htop Hbot. unfold Term.rotate_selection.
  pose proof (t_budget _ _ Ht) as Hroom. pose proof (t_selection _ _ Ht) as Hs.
  assert (term_ok (b + Z.abs delta) t) as Ht' by (eapply term_ok_weaken; [|done]; lia).
  destruct (Term.selection t) as [s|] eqn:Es; [|wp_step; split; [done|by split]]. specialize (Hroom ltac:(done)). wp_step.
  wp_call (rotate_bounded t (term_dims _ _ Ht) b s top bottom delta); [lia|lia|exact Hs|lia|lia|lia|].
  intros s' Hs'. mrun. split; [|done]. apply set_selection_ok; [done| |].
  - destruct s' as [s'|]; [|done]. apply Hs'.
  - by rewrite Es.
Qed.

(** A scroll of an empty region below the screen does nothing. *)
Lemma scroll_empty g :
  screen_ok g → (1 <= L)%nat → Z.of_nat L <= 268435455 →
  wp (Grid.scroll_up (Z.of_nat L, Z.of_nat L) 0 g)
    (λ g', screen_ok g' ∧ Grid.cursor g' = Grid.cursor g) ∧
  wp (Grid.scroll_down (Z.of_nat L, Z.of_nat L) 0 g)
    (λ g', screen_ok g' ∧ Grid.cursor g' = Grid.cursor g).
Proof.
  intros [Hg El Ec] HL Hs.
  assert (screen_ok (Grid.set_raw (Grid.raw g) g)) as Hset.
  { split; [|done..]. apply set_raw_ok; [done|]. apply same_refl; apply Hg. }
  split.
  - unfold Grid.scroll_up. wp_step. wp_step. casts.
    rewrite (proj2 (andb_true_iff _ _)) by (split; lia).
    unfold zrange. rewrite Z.sub_diag. by split.
  - unfold Grid.scroll_down. wp_step. wp_step. casts.
    rewrite (proj2 (Z.leb_le _ _)) by lia.
    unfold zrange. rewrite Z.sub_diag. by split.
Qed.

Lemma screen_scroll_up g (origin end_ : Z) n :
  screen_ok g → 0 <= origin <= end_ → end_ <= Z.of_nat L →
  (origin = end_ → origin = Z.of_nat L ∧ n = 0%nat) → Z.of_nat n <= I32_MAX →
  (origin = 0 → Z.of_nat n <= end_) →
  wp (Grid.scroll_up (origin, end_) n g)
    (λ g', screen_ok g' ∧ Grid.cursor g' = Grid.cursor g).
Proof.
  intros Hg Ho He Hemp Hn H0. pose proof Hg as [Hg' El Ec].
  destruct (decide (origin = end_)) as [E|E].
  - destruct (Hemp E) as [-> ->]. subst end_. apply scroll_empty; [done|rewrite <- El|].
    + apply (g_lines _ Hg').
    + pose proof (g_small _ Hg'). lia.
  - wp_call (scroll_up_ok (P:=row_safe) g origin end_ n Hg'); [lia|lia|done|done|].
    intros g' (Hg1 & [] & _). split; [|done]. split; [done|congruence..].
Qed.

Lemma screen_scroll_down g (origin end_ : Z) n :
  screen_ok g → 0 <= origin <= end_ → end_ <= Z.of_nat L →
  (origin = end_ → origin = Z.of_nat L ∧ n = 0%nat) → Z.of_nat n <= I32_MAX →
  wp (Grid.scroll_down (origin, end_) n g)
    (λ g', screen_ok g' ∧ Grid.cursor g' = Grid.cursor g).
Proof.
  intros Hg Ho He Hemp Hn. pose proof Hg as [Hg' El Ec].
  destruct (decide (origin = end_)) as [E|E].
  - destruct (Hemp E) as [-> ->]. subst end_. apply scroll_empty; [done|rewrite <- El|].
    + apply (g_lines _ Hg').
    + pose proof (g_small _ Hg'). lia.
  - wp_call (scroll_down_ok (P:=row_safe) g origin end_ n Hg'); [lia|lia|done|].
    intros g' (Hg1 & [] & _). split; [|done]. split; [done|congruence..].
Qed.

(** The cursor, the modes and the region stay. *)
Record steady t t' : Prop := {
  st_cursor : Grid.cursor (Term.grid t') = Grid.cursor (Term.grid t);
  st_mode : Term.mode t' = Term.mode t;
  st_region : Term.scroll_region t' = Term.scroll_region t;
}.

Lemma scroll_up_relative_ok b t origin n :
  term_ok b t → b + Z.of_nat L <= 1073741823 →
  (Term.scroll_region t).1 <= origin <= (Term.scroll_region t).2 →
  (origin = (Term.scroll_region t).2 → origin = (Term.scroll_region t).1) →
  wp (Term.scroll_up_relative origin n t)
    (λ t', term_ok (b + Z.of_nat L) t' ∧ steady t t').
Proof.
  intros Ht Hb Ho Hoe. destruct (term_facts _ _ Ht) as (_ & EC & EL & HL & HC & Hs & _).
  pose proof (t_region _ _ Ht) as (Hr1 & Hr2 & Hr3).
  pose proof (t_vi _ _ Ht) as [Hv Hvc].
  unfold Term.scroll_up_relative. destruct (Term.scroll_region t) as [start end_] eqn:Er.
  simpl in *. wp_step. wp_step. casts. set (k := Nat.min n _). casts.
  wp_step. wp_call (rotate_selection_ok b t origin end_ (Z.of_nat k) Ht); [lia..|].
  intros t1 (Ht1 & [Q1 Q2 Q3 Q4] & Eg). wp_step. unfold Term.upd_grid at 1. wp_step.
  wp_call (screen_scroll_up (Term.grid t1) origin end_ k (t_grid _ _ Ht1)); [lia..|].
  intros g2 [Hg2 Ec2]. mrun.
  pose proof (g_offset _ (sc_grid _ Hg2)). pose proof (g_small _ (sc_grid _ Hg2)). casts.
  assert (term_ok (b + Z.of_nat L) (Term.set_grid g2 t1)) as Ht2.
  { apply set_grid_ok; [|done]. eapply term_ok_weaken; [|done]. lia. }
  wp_step. set (top := if origin =? 0 then _ else _).
  assert (-268435455 <= top <= 268435455) as Htop.
  { unfold top. simpl. casts. case_match; lia. }
  eapply wp_mono with (λ t', term_ok (b + Z.of_nat L) t' ∧ steady (Term.set_grid g2 t1) t').
  { simpl. rewrite Q4. case_match; [|by split]. bools. unfold Line.sub_usize. casts.
    wp_step. wp_step. wp_step. split; [|done]. apply set_vi_ok; [done|simpl; lia|done]. }
  intros t3 [Ht3 [S1 S2 S3]]. mrun. split; [by apply fully_damaged_ok|].
  split; simpl in *; congruence.
Qed.

Lemma scroll_down_relative_ok b t origin n :
  term_ok b t → b + Z.of_nat L <= 1073741823 →
  (Term.scroll_region t).1 <= origin <= (Term.scroll_region t).2 →
  (origin = (Term.scroll_region t).2 → origin = (Term.scroll_region t).1) →
  wp (Term.scroll_down_relative origin n t)
    (λ t', term_ok (b + Z.of_nat L) t' ∧ steady t t').
Proof.
  intros Ht Hb Ho Hoe. destruct (term_facts _ _ Ht) as (_ & EC & EL & HL & HC & Hs & _).
  pose proof (t_region _ _ Ht) as (Hr1 & Hr2 & Hr3).
  pose proof (t_vi _ _ Ht) as [Hv Hvc].
  unfold Term.scroll_down_relative. destruct (Term.scroll_region t) as [start end_] eqn:Er.
  simpl in *. wp_step. wp_step. casts. wp_step. wp_step. casts.
  set (k := Nat.min _ (Z.to_nat (end_ - origin))). casts.
  wp_step. wp_call (rotate_selection_ok b t origin end_ (- Z.of_nat k) Ht); [lia..|].
  intros t1 (Ht1 & [Q1 Q2 Q3 Q4] & Eg). wp_step.
  assert (term_ok (b + Z.of_nat L) t1) as Ht1' by (eapply term_ok_weaken; [|done]; lia).
  eapply wp_mono with (λ t', term_ok (b + Z.of_nat L) t' ∧ steady t1 t').
  { rewrite Q4. case_match; [|by split]. bools. unfold Line.add_usize. casts.
    wp_step. wp_step. wp_step. wp_step. wp_step. split; [|done].
    apply set_vi_ok; [done|simpl; lia|done]. }
  intros t2 [Ht2 [S1 S2 S3]]. unfold Term.upd_grid. wp_step. wp_step.
  wp_call (screen_scroll_down (Term.grid t2) origin end_ k (t_grid _ _ Ht2)); [lia..|].
  intros g3 [Hg3 Ec3]. mrun. split; [|split; simpl in *; congruence].
  apply fully_damaged_ok. by apply set_grid_ok.
Qed.

(** ** Line feeds *)

(** The column and the modes stay. *)
Record same_column t t' : Prop := {
  co_column : column (Term.cursor_point t') = column (Term.cursor_point t);
  co_mode : Term.mode t' = Term.mode t;
}.

Lemma quiet_column t t' : quiet t t' → same_column t t'.
Proof. intros [Ec Em _ _]. split; [|done]. unfold Term.cursor_point, Term.cursor. by rewrite Ec. Qed.

Lemma steady_column t t' : steady t t' → same_column t t'.
Proof. intros [Ec Em _]. split; [|done]. unfold Term.cursor_point, Term.cursor. by rewrite Ec. Qed.

Lemma same_column_trans t1 t2 t3 : same_column t1 t2 → same_column t2 t3 → same_column t1 t3.
Proof. intros [] []. split; congruence. Qed.

Lemma damage_line_column b t l left right :
  term_ok b t → (l < L)%nat →
  wp (Term.damage_line l left right t) (λ t', term_ok b t' ∧ same_column t t').
Proof.
  intros Ht Hl. wp_call (damage_line_ok b t l left right Ht Hl). intros t' [? ?].
  split; [done|]. by apply quiet_column.
Qed.

Lemma damage_cursor_column b t :
  term_ok b t → wp (Term.damage_cursor t) (λ t', term_ok b t' ∧ same_column t t').
Proof.
  intros Ht. wp_call (damage_cursor_ok b t Ht). intros t' [? ?].
  split; [done|]. by apply quiet_column.
Qed.

(** The cursor moves one line down. *)
Lemma next_line_ok b t :
  term_ok b t → line (Term.cursor_point t) + 1 < Z.of_nat L →
  wp (t ← Term.damage_cursor t;
      l ← i32_add (line (Term.cursor_point t)) 1;
      Some (Term.set_cursor_line l t)) (λ t', term_ok b t' ∧ same_column t t').
Proof.
  intros Ht Hl. destruct (term_facts _ _ Ht) as (_ & _ & _ & _ & _ & Hs & Hl0 & _).
  wp_step. wp_call (damage_cursor_ok b t Ht). intros t1 [Ht1 [Q1 Q2 _ _]].
  unfold Term.cursor_point, Term.cursor in *. rewrite Q1. wp_step. wp_step. wp_step.
  split; [apply set_cursor_line_ok; [done|lia]|].
  split; [|done]. simpl. unfold Term.cursor. by rewrite Q1.
Qed.

Lemma linefeed_ok b t :
  term_ok b t → b + Z.of_nat L <= 1073741823 →
  wp (Term.linefeed t) (λ t', term_ok (b + Z.of_nat L) t' ∧ same_column t t').
Proof.
  intros Ht Hb. destruct (term_facts _ _ Ht) as (EL0 & EC & EL & HL & HC & Hs & Hl & Hc).
  assert (term_ok (b + Z.of_nat L) t) as Htw by (eapply term_ok_weaken; [|done]; lia).
  unfold Term.linefeed. wp_step. wp_step. case_match eqn:E.
  { unfold Term.scroll_up. wp_call (scroll_up_relative_ok b t _ 1 Ht Hb).
    - pose proof (t_region _ _ Ht) as [? ?]. lia.
    - done.
    - intros t' [? ?]. split; [done|]. by apply steady_column. }
  rewrite EL0, EL. case_match eqn:E2; [|by split]. bools.
  pose proof (next_line_ok _ _ Htw E2) as Hnext.
  destruct (Term.damage_cursor t) as [t1|]; [|done]. mrun. simpl in Hnext.
  destruct (i32_add _ _) as [l|]; [|done]. simpl in *. destruct Hnext as [Ht2 Hco].
  wp_call (damage_cursor_column _ _ Ht2). intros t3 [? ?]. split; [done|].
  by eapply same_column_trans.
Qed.

Lemma wrapline_ok b t :
  term_ok b t → b + Z.of_nat L <= 1073741823 →
  wp (Term.wrapline t) (λ t', term_ok (b + Z.of_nat L) t' ∧ Term.mode t' = Term.mode t ∧
    (Term.has_mode TermMode.LINE_WRAP t = true → column (Term.cursor_point t') = 0%nat)).
Proof.
  intros Ht Hb. destruct (term_facts _ _ Ht) as (EL0 & EC & EL & HL & HC & Hs & Hl & Hc).
  assert (term_ok (b + Z.of_nat L) t) as Htw by (eapply term_ok_weaken; [|done]; lia).
  unfold Term.wrapline. destruct (Term.has_mode _ t) eqn:Em; simpl; [|done].
  wp_step. wp_call (cursor_cell_ok b t _ Ht). intros t1 [Ht1 Q].
  pose proof (q_cursor _ _ Q) as Qc. pose proof (q_region _ _ Q) as Qr.
  assert (line (Term.cursor_point t1) = line (Term.cursor_point t)) as Elc.
  { unfold Term.cursor_point, Term.cursor. by rewrite Qc. }
  wp_step. wp_step. wp_step.
  apply wp_mono with (λ t', term_ok (b + Z.of_nat L) t' ∧ same_column t1 t').
  { case_match eqn:E; bools.
    - by apply linefeed_ok.
    - pose proof (t_region _ _ Ht1) as (_ & Hr & _).
      apply next_line_ok; [|lia]. eapply term_ok_weaken; [|done]. lia. }
  intros t2 [Ht2 [_ Co]]. wp_call (damage_cursor_column (b + Z.of_nat L)
    (Term.set_needs_wrap false (Term.set_cursor_column 0 t2))).
  { apply set_cursor_here_ok; [|done]. apply set_cursor_column_ok; [done|lia]. }
  intros t3 [Ht3 [Ec3 Em3]]. split; [done|]. split; [|intros _; by rewrite Ec3].
  rewrite Em3. simpl. rewrite Co. apply Q.
Qed.
End TermInvariant.

Arguments term_ok {_} L C b t.
Arguments screen_ok {_} L C g.
Arguments safe {_} L C k h.
