(* ===== verification/HandlerSafety.v ===== *)
(** Every handler of the terminal keeps the invariant of [TermSafety] and does not panic, given
    arguments in the range the parser produces. *)
From S2P Require Import Prelude Index Cells Rows Storages Grids Resizes TermData Selections Terms.
From S2P Require Import Handlers TermSafety.
#[local] Open Scope Z_scope.

(** A loop of swaps inside a slice keeps its length. *)
Lemma swaps_ok {A} (f g : nat → nat) (l : list nat) (row : list A) n :
  length row = n → (∀ a, a ∈ l → (f a < n)%nat ∧ (g a < n)%nat) →
  wp (foldM (λ a row, swap_at (f a) (g a) row) l row) (λ r, length r = n).
Proof.
  intros Hrow Hl. apply (wp_foldM_inv _ _ (λ r, length r = n)); [done|].
  intros a r Ha Hr. destruct (Hl a Ha) as [Hf Hg].
  destruct (lookup_lt_is_Some_2 r (f a)) as [x Hx]; [lia|].
  destruct (lookup_lt_is_Some_2 r (g a)) as [y Hy]; [lia|].
  rewrite (swap_at_ok _ _ _ _ _ Hx Hy). mrun. by rewrite !length_insert.
Qed.

Section Handlers.
Context `{External}.
Context {L C : nat}.
Implicit Types (t : Term.t).

(** The handler keeps the invariant and does not move the selection. *)
Definition stable (h : Term.t → option Term.t) : Prop :=
  ∀ b t, term_ok L C b t → wp (h t) (term_ok L C b).

Lemma stable_safe k h : 0 <= k → stable h → safe L C k h.
Proof.
  intros Hk Hh b t Ht _. wp_call (Hh b t Ht). intros t' Ht'.
  eapply term_ok_weaken; [|done]. lia.
Qed.

(** [facts Ht] opens the invariant for arithmetic. *)
Ltac facts Ht :=
  let F := fresh in
  pose proof (term_facts _ _ _ _ Ht) as F; destruct F as (EL & EC & EI & HL & HC & HS & Hl & Hc).

(** ** Text *)

Lemma same_point_ok b t t' :
  term_ok L C b t → Term.cursor_point t' = Term.cursor_point t →
  point_in L C (Term.cursor_point t').
Proof. intros Ht ->. facts Ht. by split. Qed.

Lemma set_template_ok b t x : term_ok L C b t → term_ok L C b (Term.set_template x t).
Proof. intros Ht. by apply set_cursor_here_ok. Qed.

Lemma set_needs_wrap_ok b t x : term_ok L C b t → term_ok L C b (Term.set_needs_wrap x t).
Proof. intros Ht. by apply set_cursor_here_ok. Qed.

Lemma advance_cursor_ok b t : term_ok L C b t → term_ok L C b (Handler.advance_cursor t).
Proof.
  intros Ht. facts Ht. unfold Handler.advance_cursor. rewrite EC. case_match; bools.
  - by apply set_cursor_column_ok.
  - by apply set_needs_wrap_ok.
Qed.

Lemma input_zerowidth_stable ch : stable (Handler.input_zerowidth ch).
Proof.
  intros b t Ht. facts Ht. unfold Handler.input_zerowidth. cbv zeta.
  set (col := if Cursor.input_needs_wrap _ then _ else _).
  assert (col < C)%nat as Hcol by (unfold col; case_match; lia).
  destruct (t_grid _ _ _ _ Ht) as [Hg El Ec]. pose proof (topmost_screen _ _ _ (t_grid _ _ _ _ Ht)).
  destruct (index_point_ok (P:=row_safe) (Term.grid t) (Pt (line (Term.cursor_point t)) col) Hg)
    as [x ->].
  { dims (grid_dims _ Hg). split; simpl in *; lia. }
  mrun. wp_call (index_mut_point_ok _ _ _ _ _ _ _ Ht); [lia|case_match; lia|]. by intros t' [? _].
Qed.

Lemma input_shift_ok b t w :
  term_ok L C b t →
  wp (Handler.input_shift w t) (λ t', term_ok L C b t' ∧ quiet t t').
Proof.
  intros Ht. facts Ht. unfold Handler.input_shift. cbv zeta. rewrite EC.
  pose proof (topmost_screen _ _ _ (t_grid _ _ _ _ Ht)).
  case_match eqn:E; [|by split]. bools.
  apply write_line_ok; [done|lia|]. intros r Hr. apply (inv_full (P:=row_safe C)); [done|].
  apply (swaps_ok (λ c, c + w)%nat (λ c, c)); [apply Hr|].
  intros a Ha%elem_of_reverse%elem_of_seq. lia.
Qed.

Lemma write_flagged_ok b t f ch :
  term_ok L C b t →
  wp (Handler.write_flagged f ch t) (λ t', term_ok L C b t' ∧ same_column t t').
Proof.
  intros Ht. unfold Handler.write_flagged. wp_step.
  wp_call (write_at_cursor_ok L C b (Handler.add_template_flag f t) ch).
  { by apply set_template_ok. }
  intros t1 [Ht1 Q]. mrun. split; [by apply set_template_ok|].
  apply quiet_column in Q as [Q1 Q2]. by split.
Qed.

Lemma input_wide_ok b t ch :
  term_ok L C b t → b + Z.of_nat L <= 1073741823 →
  wp (Handler.input_wide ch t) (term_ok L C (b + Z.of_nat L)).
Proof.
  intros Ht Hb. facts Ht. unfold Handler.input_wide. cbv zeta. rewrite EC.
  match goal with |- context [Some (Handler.advance_cursor _)] => idtac end.
  assert (∀ b t, term_ok L C b t → (column (Term.cursor_point t) + 1 < C)%nat →
    wp (t ← Handler.write_flagged Flags.WIDE_CHAR ch t;
        t ← Handler.write_flagged Flags.WIDE_CHAR_SPACER 32
              (Term.set_cursor_column (column (Term.cursor_point t) + 1) t);
        Some (Handler.advance_cursor t)) (term_ok L C b)) as Hwrite.
  { intros b1 t1 Ht1 Hc1. wp_step. wp_call (write_flagged_ok _ _ _ _ Ht1).
    intros t2 [Ht2 [Eco _]]. wp_step.
    wp_call (write_flagged_ok b1 (Term.set_cursor_column (column (Term.cursor_point t2) + 1) t2)).
    { apply set_cursor_column_ok; [done|lia]. }
    intros t3 [Ht3 _]. mrun. by apply advance_cursor_ok. }
  case_match eqn:E; bools.
  - case_match eqn:E2.
    + wp_step. wp_call (write_flagged_ok _ _ _ _ Ht). intros t1 [Ht1 [_ Em]]. wp_step.
      wp_call (wrapline_ok _ _ _ _ Ht1 Hb). intros t2 (Ht2 & _ & Hc0).
      apply Hwrite; [done|]. rewrite Hc0; [lia|].
      unfold Term.has_mode in *. by rewrite Em.
    + wp_step. apply set_needs_wrap_ok. eapply term_ok_weaken; [|done]. lia.
  - wp_call (Hwrite b t Ht); [lia|]. intros t' Ht'. eapply term_ok_weaken; [|done]. lia.
Qed.

Lemma input_safe ch : safe L C (2 * Z.of_nat L) (Handler.input ch).
Proof.
  intros b t Ht Hb. unfold Handler.input. facts Ht.
  assert (∀ t', term_ok L C b t' → term_ok L C (b + 2 * Z.of_nat L) t') as Hw.
  { intros t' Ht'. eapply term_ok_weaken; [|done]. lia. }
  destruct (char_width ch) as [[|w]|]; [| |by apply Hw].
  { wp_call (input_zerowidth_stable ch b t Ht). auto. }
  wp_step. apply wp_mono with (term_ok L C (b + Z.of_nat L)).
  { case_match.
    - wp_call (wrapline_ok L C b t Ht); [lia|]. by intros t' [? _].
    - wp_step. eapply term_ok_weaken; [|done]. lia. }
  intros t1 Ht1. wp_step. wp_call (input_shift_ok _ _ (S w) Ht1). intros t2 [Ht2 _].
  case_match.
  - wp_step. wp_call (write_at_cursor_ok _ _ _ _ ch Ht2). intros t3 [Ht3 _]. mrun.
    apply advance_cursor_ok. eapply term_ok_weaken; [|done]. lia.
  - wp_call (input_wide_ok _ _ ch Ht2); [lia|]. intros t3 Ht3.
    eapply term_ok_weaken; [|done]. lia.
Qed.

Lemma decaln_stable : stable Handler.decaln.
Proof.
  intros b t Ht. facts Ht. unfold Handler.decaln. rewrite EL. wp_step.
  apply wp_mono with (term_ok L C b); [|intros t' Ht'; by apply fully_damaged_ok].
  apply wp_foldM_inv; [done|]. intros l t1 Hl1%elem_of_seq Ht1.
  assert (columns t1 = C) as -> by apply (t_grid _ _ _ _ Ht1).
  apply wp_foldM_inv; [done|]. intros c t2 Hc2%elem_of_seq Ht2.
  pose proof (topmost_screen _ _ _ (t_grid _ _ _ _ Ht2)).
  unfold Line.from. casts. wp_call (index_mut_point_ok _ _ _ _ _ _ _ Ht2); [lia|lia|].
  by intros t' [? _].
Qed.

(** ** Cursor movement *)

Lemma goto_ok b t l col :
  term_ok L C b t → -1000000000 <= l <= 1000000000 →
  wp (Handler.goto l col t) (term_ok L C b).
Proof.
  intros Ht Hl0. facts Ht. pose proof (t_region _ _ _ _ Ht) as (Hr1 & Hr2 & Hr3).
  dims (term_dims _ _ _ _ Ht). unfold Handler.goto. wp_step.
  apply wp_mono with (λ '(off, max_y), 0 <= off <= Z.of_nat L ∧ -1 <= max_y < Z.of_nat L).
  { case_match; [repeat wp_step; lia|]. wp_step. rewrite EL in *. lia. }
  intros [off max_y] [Ho Hm]. wp_step. wp_call (damage_cursor_ok _ _ _ _ Ht).
  intros t1 [Ht1 _]. wp_step. wp_step. wp_step.
  assert (last_column t < C)%nat as Hlast by (unfold last_column; lia).
  assert (last_column (Term.set_cursor_line (Z.max (Z.min (l + off) max_y) 0) t1) < C)%nat
    as Hlast1.
  { destruct (t_grid _ _ _ _ Ht1) as [_ _ Ec1]. unfold last_column. simpl. lia. }
  assert (term_ok L C b (Term.set_cursor_line (Z.max (Z.min (l + off) max_y) 0) t1)) as Ht2.
  { apply set_cursor_line_ok; [done|lia]. }
  match goal with |- wp (Term.damage_cursor ?x) _ => assert (term_ok L C b x) as Ht3 end.
  { apply set_cursor_column_ok; [done|lia]. }
  wp_call (damage_cursor_ok _ _ _ _ Ht3). intros t4 [Ht4 _]. mrun.
  by apply set_needs_wrap_ok.
Qed.

Lemma goto_stable l col :
  -1000000000 <= l <= 1000000000 → stable (Handler.goto l col).
Proof. intros Hl b t Ht. by apply goto_ok. Qed.

Lemma goto_line_stable l : -1000000000 <= l <= 1000000000 → stable (Handler.goto_line l).
Proof. intros Hl b t Ht. by apply goto_ok. Qed.

Lemma goto_col_stable col : stable (Handler.goto_col col).
Proof. intros b t Ht. facts Ht. apply goto_ok; [done|lia]. Qed.

(** The moves by lines: the target is computed from the line of the cursor. *)
Lemma move_lines_ok b t (f : Z → nat → option Z) n col :
  term_ok L C b t → Z.of_nat n <= 65535 →
  (∀ l k, 0 <= l <= 268435455 → Z.of_nat k <= 65535 →
    wp (f l k) (λ l', -1000000000 <= l' <= 1000000000)) →
  wp (l ← f (line (Term.cursor_point t)) n; Handler.goto l col t) (term_ok L C b).
Proof.
  intros Ht Hn Hf. facts Ht. wp_step. wp_call (Hf (line (Term.cursor_point t)) n); [lia|done|].
  intros l Hl'. by apply goto_ok.
Qed.

Lemma sub_small l k : 0 <= l <= 268435455 → Z.of_nat k <= 65535 →
  wp (Line.sub_usize l k) (λ l', -1000000000 <= l' <= 1000000000).
Proof. intros. unfold Line.sub_usize. casts. wp_step. lia. Qed.

Lemma add_small l k : 0 <= l <= 268435455 → Z.of_nat k <= 65535 →
  wp (Line.add_usize l k) (λ l', -1000000000 <= l' <= 1000000000).
Proof. intros. unfold Line.add_usize. casts. wp_step. lia. Qed.

Lemma move_vertical_stable n :
  Z.of_nat n <= 65535 →
  stable (Handler.move_up n) ∧ stable (Handler.move_down n) ∧
  stable (Handler.move_down_and_cr n) ∧ stable (Handler.move_up_and_cr n).
Proof.
  intros Hn. repeat split; intros b t Ht; apply (move_lines_ok _ _ _ _ _ Ht Hn);
    auto using sub_small, add_small.
Qed.

(** The moves by columns damage the line of the cursor. *)
Lemma damage_here_ok b t left right :
  term_ok L C b t →
  wp (Term.damage_line (as_usize (line (Term.cursor_point t))) left right t)
    (λ t', term_ok L C b t' ∧ quiet t t').
Proof. intros Ht. facts Ht. apply damage_line_ok; [done|]. casts. lia. Qed.

Lemma move_horizontal_stable n :
  stable (Handler.move_forward n) ∧ stable (Handler.move_backward n) ∧
  stable Handler.carriage_return.
Proof.
  repeat split; intros b t Ht; facts Ht;
    unfold Handler.move_forward, Handler.move_backward, Handler.carriage_return; cbv zeta;
    wp_step; (wp_call (damage_here_ok _ _ _ _ Ht)); intros t1 [Ht1 _]; mrun;
    apply set_needs_wrap_ok; (apply set_cursor_column_ok; [done|]); [|lia..].
  unfold last_column. lia.
Qed.

Lemma backspace_stable : stable Handler.backspace.
Proof.
  intros b t Ht. facts Ht. unfold Handler.backspace. cbv zeta. case_match; [|done].
  match goal with |- wp (Term.damage_line _ _ _ ?x) _ => assert (term_ok L C b x) as Hx end.
  { apply set_needs_wrap_ok, set_cursor_column_ok; [done|lia]. }
  wp_call (damage_line_ok _ _ _ _ _ _ _ Hx); [casts; lia|]. by intros t' [? _].
Qed.

Lemma newline_safe : safe L C (2 * Z.of_nat L) Handler.newline.
Proof.
  intros b t Ht Hb. unfold Handler.newline. wp_step.
  wp_call (linefeed_ok _ _ _ _ Ht); [lia|]. intros t1 [Ht1 _].
  assert (term_ok L C (b + 2 * Z.of_nat L) t1) as Ht1'.
  { eapply term_ok_weaken; [|done]. lia. }
  case_match; [|done]. by apply move_horizontal_stable.
Qed.

Lemma save_cursor_stable : stable (λ t, Some (Handler.save_cursor_position t)).
Proof.
  intros b t Ht. facts Ht. wp_step. apply set_grid_ok; [done|].
  destruct (t_grid _ _ _ _ Ht) as [Hg El Ec]. split; [|done..].
  apply set_saved_cursor_ok; [done|]. apply Hg.
Qed.

Lemma restore_cursor_stable : stable Handler.restore_cursor_position.
Proof.
  intros b t Ht. unfold Handler.restore_cursor_position. wp_step.
  wp_call (damage_cursor_ok _ _ _ _ Ht). intros t1 [Ht1 _].
  assert (term_ok L C b (Term.set_cursor (Grid.saved_cursor (Term.grid t1)) t1)) as Ht2.
  { apply set_cursor_term_ok; [done|]. destruct (t_grid _ _ _ _ Ht1) as [Hg <- <-]. apply Hg. }
  wp_call (damage_cursor_ok _ _ _ _ Ht2). by intros t' [? _].
Qed.

(** ** Tabs *)

Lemma tab_forward_ok fuel cols (tabs : list bool) col :
  length tabs = cols → (col < cols)%nat → (cols <= col + fuel)%nat →
  wp (Handler.tab_forward fuel cols tabs col) (λ c, (col <= c < cols)%nat).
Proof.
  intros Ht. revert col. induction fuel as [|fuel IH]; intros col Hc Hf; simpl; [lia|].
  case_match eqn:E; bools; [wp_step; lia|]. unfold TabStops.index.
  destruct (lookup_lt_is_Some_2 tabs (col + 1)) as [[] ->]; [lia|wp_step; mrun; lia|].
  wp_step. mrun. wp_call (IH (col + 1)%nat); [lia|lia|]. lia.
Qed.

Lemma put_tabs_stable n : stable (Handler.put_tabs n).
Proof.
  induction n as [|n IH]; intros b t Ht; simpl; [done|]. facts Ht. case_match; [|done].
  wp_step. wp_call (cursor_cell_ok _ _ _ _ _ Ht). intros t1 [Ht1 _]. wp_step.
  pose proof (term_facts _ _ _ _ Ht1) as (_ & EC1 & _ & _ & _ & _ & _ & Hc1). simpl in EC1. rewrite EC1.
  wp_call (tab_forward_ok C C (Term.tabs t1) (column (Term.cursor_point t1)));
    [apply Ht1|done|lia|].
  intros c Hc'. apply IH, set_cursor_column_ok; [done|lia].
Qed.

Lemma put_tab_safe n : safe L C (2 * Z.of_nat L) (Handler.put_tab n).
Proof.
  intros b t Ht Hb. unfold Handler.put_tab. case_match.
  - wp_call (wrapline_ok _ _ _ _ Ht); [lia|]. intros t' [Ht' _].
    eapply term_ok_weaken; [|done]. lia.
  - wp_call (put_tabs_stable n b t Ht). intros t' Ht'. eapply term_ok_weaken; [|done]. lia.
Qed.

Lemma tabs_update_ok b t i x :
  term_ok L C b t → (i < C)%nat →
  wp (tabs ← TabStops.index_mut i x (Term.tabs t); Some (Term.set_tabs tabs t)) (term_ok L C b).
Proof.
  intros Ht Hi. pose proof (t_tabs _ _ _ _ Ht) as El. unfold TabStops.index_mut.
  destruct (lookup_lt_is_Some_2 (Term.tabs t) i) as [y Hy]; [lia|].
  rewrite (update_at_ok _ _ _ _ Hy). mrun. apply set_tabs_ok; [done|].
  by rewrite length_insert.
Qed.

Lemma set_horizontal_tabstop_stable : stable Handler.set_horizontal_tabstop.
Proof. intros b t Ht. facts Ht. by apply tabs_update_ok. Qed.

Lemma clear_tabs_stable mode : stable (Handler.clear_tabs mode).
Proof.
  intros b t Ht. facts Ht. destruct mode; simpl; [by apply tabs_update_ok|].
  apply set_tabs_ok; [done|]. unfold TabStops.clear_all. rewrite length_fmap. apply Ht.
Qed.

Lemma tab_left_ok (tabs : list bool) from col :
  (col <= length tabs)%nat → (col <= from)%nat →
  wp (Handler.tab_left tabs from col) (λ c, (c <= from)%nat).
Proof.
  revert from. induction col as [|col IH]; intros from Hl Hf; simpl; [lia|].
  unfold TabStops.index. destruct (lookup_lt_is_Some_2 tabs col) as [[] ->]; [lia|mrun; lia|].
  mrun. apply IH; lia.
Qed.

Lemma move_backward_cols_ok n (tabs : list bool) col :
  (col <= length tabs)%nat → wp (Handler.move_backward_cols n tabs col) (λ c, (c <= col)%nat).
Proof.
  revert col. induction n as [|n IH]; intros col Hc; simpl; [lia|].
  case_match; [wp_step; lia|]. wp_step. wp_call (tab_left_ok tabs col col); [done|lia|].
  intros c Hcc. wp_call (IH c); [lia|]. lia.
Qed.

Lemma move_backward_tabs_stable n : stable (Handler.move_backward_tabs n).
Proof.
  intros b t Ht. facts Ht. unfold Handler.move_backward_tabs. cbv zeta. wp_step.
  wp_call (move_backward_cols_ok n (Term.tabs t) (column (Term.cursor_point t))).
  { rewrite (t_tabs _ _ _ _ Ht). lia. }
  intros c Hcc. match goal with |- wp (Term.damage_line _ _ _ ?x) _ =>
    assert (term_ok L C b x) as Hx end.
  { apply set_cursor_column_ok; [done|lia]. }
  wp_call (damage_here_ok _ _ _ _ Hx). by intros t' [? _].
Qed.

Lemma tab_right_ok (tabs : list bool) todo col n :
  length tabs = n → (col < n)%nat → (∀ i, i ∈ todo → (i < n)%nat) →
  wp (Handler.tab_right tabs todo col) (λ c, (c < n)%nat).
Proof.
  intros Hn. revert col. induction todo as [|i todo IH]; intros col Hc Hi; simpl; [done|].
  assert (i < n)%nat as Hin by (apply Hi; by left). unfold TabStops.index.
  destruct (lookup_lt_is_Some_2 tabs i) as [[] ->]; [lia|mrun; lia|].
  mrun. apply IH; [done|]. intros j Hj. apply Hi. by right.
Qed.

Lemma move_forward_cols_ok k n (tabs : list bool) col :
  length tabs = n → (col < n)%nat → wp (Handler.move_forward_cols k n tabs col) (λ c, (c < n)%nat).
Proof.
  intros Hn. revert col. induction k as [|k IH]; intros col Hc; simpl; [done|].
  wp_step. wp_step. case_match; [wp_step; lia|]. wp_step.
  wp_call (tab_right_ok tabs _ col n Hn Hc); [intros i Hi%elem_of_seq; lia|].
  intros c Hcc. by apply IH.
Qed.

Lemma move_forward_tabs_stable n : stable (Handler.move_forward_tabs n).
Proof.
  intros b t Ht. facts Ht. unfold Handler.move_forward_tabs. cbv zeta. wp_step. rewrite EC.
  wp_call (move_forward_cols_ok n C (Term.tabs t) (column (Term.cursor_point t))).
  { apply Ht. }
  { done. }
  intros c Hcc. match goal with |- wp (Term.damage_line _ _ _ ?x) _ =>
    assert (term_ok L C b x) as Hx end.
  { by apply set_cursor_column_ok. }
  wp_call (damage_here_ok _ _ _ _ Hx). by intros t' [? _].
Qed.

(** ** Editing a line *)

Lemma row_full_ok (f : list Cell → option (list Cell)) r :
  row_safe C r → (∀ l, length l = C → wp (f l) (λ l', length l' = C)) →
  wp (Row.index_mut_full f r) (row_safe C).
Proof. intros Hr Hf. apply (inv_full (P:=row_safe C)); [done|]. apply Hf, Hr. Qed.

Lemma fill_slice_ok {A} a b n (f : A → A) l :
  length l = n → (a <= b <= n)%nat → wp (update_slice a b f l) (λ l', length l' = n).
Proof.
  intros Hl Hab. pose proof (length_update_slice a b f l) as Hlen.
  rewrite update_slice_ok in * by lia. simpl. rewrite (Hlen _ eq_refl). done.
Qed.

(** A handler that damages the line of the cursor and edits it. *)
Lemma edit_line_ok b t left right (f : Term.t → Row.t Cell → option (Row.t Cell)) :
  term_ok L C b t → (∀ t r, row_safe C r → wp (f t r) (row_safe C)) →
  wp (t' ← Term.damage_line (as_usize (line (Term.cursor_point t))) left right t;
      Term.upd_grid (Grid.index_mut (line (Term.cursor_point t)) (f t')) t') (term_ok L C b).
Proof.
  intros Ht Hf. facts Ht. wp_step. wp_call (damage_here_ok _ _ _ _ Ht). intros t1 [Ht1 Q].
  pose proof (topmost_screen _ _ _ (t_grid _ _ _ _ Ht1)).
  wp_call (write_line_ok _ _ _ _ _ _ Ht1); [lia|apply Hf|]. by intros t' [? _].
Qed.

Lemma insert_blank_stable n : stable (Handler.insert_blank n).
Proof.
  intros b t Ht. facts Ht. unfold Handler.insert_blank. cbv zeta. rewrite EC.
  wp_step. wp_step. set (k := Nat.min n _). wp_step. wp_step. wp_step. wp_step.
  apply (edit_line_ok b t 0 (C - 1) (λ t', Row.index_mut_full (λ row,
    foldM _ _ row ≫= λ row, update_slice _ _ (Handler.fill t') row)) Ht).
  intros t1 r Hr. apply row_full_ok; [done|]. intros l Hlen. wp_step.
  wp_call (swaps_ok (λ o, column (Term.cursor_point t) + k + o)%nat
             (λ o, column (Term.cursor_point t) + o)%nat _ l C Hlen).
  { intros a Ha%elem_of_reverse%elem_of_seq. lia. }
  intros l' Hl'. apply fill_slice_ok; [done|lia].
Qed.

Lemma delete_chars_stable n : stable (Handler.delete_chars n).
Proof.
  intros b t Ht. facts Ht. unfold Handler.delete_chars. cbv zeta. rewrite EC.
  wp_step. wp_step. set (k := Nat.min n C). wp_step. wp_step.
  apply (edit_line_ok b t 0 (C - 1) (λ t', Row.index_mut_full (λ row,
    foldM _ _ row ≫= λ row, usize_sub C k ≫= λ e,
      update_slice e (length row) (Handler.fill t') row)) Ht).
  intros t1 r Hr. apply row_full_ok; [done|]. intros l Hlen. wp_step.
  wp_call (swaps_ok (λ o, column (Term.cursor_point t) + o)%nat
             (λ o, Nat.min (column (Term.cursor_point t) + k) (C - 1) + o)%nat _ l C Hlen).
  { intros a Ha%elem_of_seq. lia. }
  intros l' Hl'. wp_step. wp_step. rewrite Hl'. apply fill_slice_ok; [done|lia].
Qed.

Lemma erase_chars_stable n : stable (Handler.erase_chars n).
Proof.
  intros b t Ht. facts Ht. unfold Handler.erase_chars. cbv zeta. rewrite EC.
  apply (edit_line_ok b t _ _ (λ t', Row.index_mut_range _ _ (Handler.fill t')) Ht).
  intros t1 r Hr. apply (inv_range (P:=row_safe C)); [done|lia|lia].
Qed.

(** ** Clearing and scrolling the screen *)

Lemma filter_selection_ok b t from to :
  term_ok L C b t →
  match from with Excluded l | Included l => -1000000000 <= l <= 1000000000 | _ => True end →
  match to with Excluded l | Included l => -1000000000 <= l <= 1000000000 | _ => True end →
  wp (Term.filter_selection from to t) (term_ok L C b).
Proof.
  intros Ht Hf Hto. unfold Term.filter_selection.
  destruct (Term.selection t) as [s|] eqn:Es; [|done].
  destruct (intersects_range_ok from to s) as [x ->]; [destruct from; lia|destruct to; lia|].
  mrun. destruct x; [apply set_selection_ok; [done|done|by rewrite Es]|done].
Qed.

Lemma reset_region_term_ok b t from to :
  term_ok L C b t →
  match from with Included l => 0 <= l < Z.of_nat L | Unbounded => True | _ => False end →
  match to with Excluded l => 0 <= l <= Z.of_nat L | Unbounded => True | _ => False end →
  wp (Term.upd_grid (Grid.reset_region from to) t) (λ t', term_ok L C b t' ∧ quiet t t').
Proof.
  intros Ht Hf Hto. facts Ht. destruct (t_grid _ _ _ _ Ht) as [Hg El Ec].
  apply write_ok; [done|].
  set (start := match from with Included l => l | _ => 0 end).
  set (e := match to with Excluded l => l | _ => Z.of_nat L end).
  wp_call (reset_region_ok (P:=row_safe) (Term.grid t) from to start e Hg).
  - unfold start. destruct from; lia.
  - unfold e. destruct to; lia.
  - unfold start. by destruct from.
  - unfold e. destruct to; [done|done|lia].
  - unfold e. destruct to; lia.
  - intros g (Hg' & [] & _). split; [|done]. split; [done|congruence..].
Qed.

(** Clearing a part of the line of the cursor. *)
Lemma clear_range_ok b t (f : (Cell → Cell) → Row.t Cell → option (Row.t Cell)) :
  term_ok L C b t → (∀ x r, row_safe C r → wp (f x r) (row_safe C)) →
  wp (Term.upd_grid (Grid.index_mut (line (Term.cursor_point t)) (f (Handler.fill t))) t)
    (λ t', term_ok L C b t' ∧ quiet t t').
Proof.
  intros Ht Hf. facts Ht. pose proof (topmost_screen _ _ _ (t_grid _ _ _ _ Ht)).
  apply write_line_ok; [done|lia|]. intros r. apply Hf.
Qed.

Lemma clear_line_stable mode : stable (Handler.clear_line mode).
Proof.
  intros b t Ht. facts Ht. unfold Handler.clear_line. cbv zeta. rewrite EC.
  set (range := match mode with LineRight => _ | _ => _ end).
  assert (match range with Some (from, to) => (from <= to <= C)%nat ∧ (1 <= to)%nat
          | None => True end) as Hrange.
  { unfold range. destruct mode; repeat case_match; simplify_eq; try done; lia. }
  clearbody range. destruct range as [[from to]|]; [|done].
  wp_step. wp_step. wp_step. wp_call (damage_here_ok _ _ _ _ Ht). intros t1 [Ht1 Q]. wp_step.
  pose proof (topmost_screen _ _ _ (t_grid _ _ _ _ Ht1)).
  wp_call (write_line_ok _ _ _ _ (line (Term.cursor_point t)) _ Ht1); [lia| |].
  { intros r Hr. apply (inv_range (P:=row_safe C)); [done|lia|lia]. }
  intros t2 [Ht2 _]. pose proof (term_facts _ _ _ _ Ht2) as (_ & _ & _ & _ & _ & _ & Hl2 & _).
  apply filter_selection_ok; [done|lia|lia].
Qed.

Lemma grid_clamp_ok b t bd l :
  term_ok L C b t → bd ≠ BoundaryNone → wp (Line.grid_clamp t bd l)
    (λ l', -268435455 <= l' <= 268435455).
Proof.
  intros Ht Hb. dims (term_dims _ _ _ _ Ht). destruct bd; simpl; [..|done]; lia.
Qed.

Lemma vi_clamp_ok b t bd l :
  term_ok L C b t → bd ≠ BoundaryNone →
  wp (l ← Line.grid_clamp t bd l;
      Some (Term.set_vi_mode_cursor (Pt l (column (Term.vi_mode_cursor t))) t)) (term_ok L C b).
Proof.
  intros Ht Hb. wp_step. wp_call (grid_clamp_ok b t bd l Ht Hb). intros l' Hl'. mrun.
  apply set_vi_ok; [done|done|]. apply Ht.
Qed.

Lemma range_to_ok n f (r : Row.t Cell) :
  row_safe C r → (n <= C)%nat → wp (Row.index_mut_range_to n f r) (row_safe C).
Proof. intros Hr Hn. apply (inv_range (P:=row_safe C) 0 n f r Hr); lia. Qed.

Lemma range_from_ok n f (r : Row.t Cell) :
  row_safe C r → (n <= C)%nat → wp (Row.index_mut_range_from n f r) (row_safe C).
Proof.
  intros Hr Hn. pose proof (inv_range (P:=row_safe C) n C f r Hr Hn (le_n C)) as Hwp.
  destruct Hr as [Hlen _ Hocc]. unfold Row.index_mut_range_from, Row.index_mut_range in *.
  rewrite Hlen. destruct (update_slice n C f (Row.inner r)) as [cells|]; [|done].
  simpl in *. by rewrite Nat.max_r in Hwp by done.
Qed.

Lemma clear_screen_stable mode : stable (Handler.clear_screen mode).
Proof.
  intros b t Ht. facts Ht. unfold Handler.clear_screen. cbv zeta. wp_step.
  apply wp_mono with (term_ok L C b); [|intros t' Ht'; by apply fully_damaged_ok].
  destruct mode; rewrite ?EL, ?EC.
  - wp_step. wp_call (clear_range_ok b t (Row.index_mut_range_from _) Ht).
    { intros x r Hr. apply range_from_ok; [done|lia]. }
    intros t1 [Ht1 Q]. wp_step. wp_step. wp_step.
    apply wp_mono with (term_ok L C b).
    { case_match; [|done]. casts. bools. wp_step. wp_step.
      wp_call (reset_region_term_ok _ _ (Included (line (Term.cursor_point t) + 1))
        Unbounded Ht1); [simpl; lia|done|]. by intros t' [? _]. }
    intros t2 Ht2. apply filter_selection_ok; [done|lia|lia].
  - wp_step.
    apply wp_mono with (λ t', term_ok L C b t' ∧ quiet t t').
    { case_match; [|by split]. apply reset_region_term_ok; [done|done|lia]. }
    intros t1 [Ht1 Q]. wp_step.
    assert (line (Term.cursor_point t1) = line (Term.cursor_point t)) as El1.
    { unfold Term.cursor_point, Term.cursor. by rewrite (q_cursor _ _ Q). }
    wp_call (write_line_ok _ _ _ _ (line (Term.cursor_point t)) _ Ht1).
    { pose proof (topmost_screen _ _ _ (t_grid _ _ _ _ Ht1)). lia. }
    { intros r Hr. apply range_to_ok; [done|lia]. }
    intros t2 [Ht2 _]. apply filter_selection_ok; [done|lia|lia].
  - wp_step. apply wp_mono with (term_ok L C b);
      [|intros t' Ht'; by apply set_selection_ok].
    case_match.
    { wp_call (reset_region_term_ok _ _ Unbounded Unbounded Ht); [done|done|].
      by intros t' [? _]. }
    wp_step. destruct (t_grid _ _ _ _ Ht) as [Hg Elg Ecg].
    apply wp_mono with (λ t', term_ok L C b t' ∧
      Z.of_nat (Grid.display_offset (Term.grid t')) <= 268435455).
    { unfold Term.upd_grid. wp_step. wp_call (clear_viewport_spec (P:=row_safe) _ Hg).
      intros g (Hg' & [] & _). mrun. split.
      - apply set_grid_ok; [done|]. split; [done|congruence..].
      - pose proof (g_offset _ Hg'). pose proof (g_small _ Hg'). simpl. lia. }
    intros t1 [Ht1 Ho]. wp_step. unfold Line.sub_usize. pose proof (t_vi _ _ _ _ Ht1) as [Hv _].
    casts. wp_step. by apply vi_clamp_ok.
  - case_match; [|done]. wp_step. destruct (t_grid _ _ _ _ Ht) as [Hg Elg Ecg].
    apply wp_mono with (term_ok L C b).
    { apply upd_grid_ok; [done|]. wp_call (clear_history_ok (P:=row_safe) _ Hg).
      intros g (Hg' & [] & _). split; [done|congruence..]. }
    intros t1 Ht1. wp_step. pose proof (t_vi _ _ _ _ Ht1) as [_ Hvc].
    wp_call (grid_clamp_ok b t1 BoundaryCursor (line (Term.vi_mode_cursor t1)) Ht1); [done|].
    intros l Hl'. apply filter_selection_ok; [by apply set_vi_ok|done|lia].
Qed.

Lemma scroll_handlers_safe n :
  safe L C (2 * Z.of_nat L) (Handler.scroll_up n) ∧
  safe L C (2 * Z.of_nat L) (Handler.scroll_down n) ∧
  safe L C (2 * Z.of_nat L) (Handler.insert_blank_lines n) ∧
  safe L C (2 * Z.of_nat L) (Handler.delete_lines n).
Proof.
  repeat split; intros b t Ht Hb; facts Ht; pose proof (t_region _ _ _ _ Ht) as (Hr1 & Hr2 & Hr3);
    assert (∀ t', term_ok L C (b + Z.of_nat L) t' → term_ok L C (b + 2 * Z.of_nat L) t')
      as Hw by (intros t' ?; eapply term_ok_weaken; [|done]; lia);
    assert (term_ok L C (b + 2 * Z.of_nat L) t) as Ht' by (eapply term_ok_weaken; [|done]; lia).
  - wp_call (scroll_up_relative_ok _ _ _ _ _ n Ht); [lia..|]. intros t' [? _]. auto.
  - wp_call (scroll_down_relative_ok _ _ _ _ _ n Ht); [lia..|]. intros t' [? _]. auto.
  - unfold Handler.insert_blank_lines. cbv zeta. case_match eqn:E; [|done].
    unfold Handler.in_scroll_region in E. bools.
    wp_call (scroll_down_relative_ok _ _ _ _ _ n Ht); [lia..|]. intros t' [? _]. auto.
  - unfold Handler.delete_lines. cbv zeta. casts. wp_step. wp_step. case_match eqn:E; [|done].
    unfold Handler.in_scroll_region in E. bools.
    wp_call (scroll_up_relative_ok _ _ _ _ _ (Nat.min _ n) Ht); [lia..|].
    intros t' [? _]. auto.
Qed.

Lemma reverse_index_safe : safe L C (2 * Z.of_nat L) Handler.reverse_index.
Proof.
  intros b t Ht Hb. facts Ht. unfold Handler.reverse_index. case_match; bools.
  { by apply (scroll_handlers_safe 1). }
  wp_step. wp_call (damage_cursor_ok _ _ _ _ Ht). intros t1 [Ht1 Q].
  pose proof (term_facts _ _ _ _ Ht1) as (_ & _ & _ & _ & _ & _ & Hl1 & _).
  wp_step. wp_step.
  assert (term_ok L C (b + 2 * Z.of_nat L)
    (Term.set_cursor_line (Z.max (line (Term.cursor_point t1) - 1) 0) t1)) as Ht2.
  { apply set_cursor_line_ok; [|lia]. eapply term_ok_weaken; [|done]. lia. }
  wp_call (damage_cursor_ok _ _ _ _ Ht2). by intros t' [? _].
Qed.

Lemma set_scrolling_region_stable top bottom :
  Z.of_nat top <= 65535 → (1 <= top)%nat →
  match bottom with Some n => Z.of_nat n <= 65535 | None => True end →
  stable (Handler.set_scrolling_region top bottom).
Proof.
  intros Ht1 Ht2 Hb b t Ht. facts Ht. unfold Handler.set_scrolling_region. cbv zeta. rewrite EL.
  assert (Z.of_nat (from_option id L bottom) <= 268435455) as Hbot.
  { destruct bottom; simpl; lia. }
  destruct (_ <=? top)%nat eqn:E; bools; [done|]. casts. wp_step. wp_step. casts.
  apply goto_ok; [|lia]. apply set_region_ok; [done|]. unfold region_ok. simpl. lia.
Qed.

Lemma deccolm_stable : stable Handler.deccolm.
Proof.
  intros b t Ht. unfold Handler.deccolm. wp_step.
  wp_call (set_scrolling_region_stable 1 None ltac:(lia) ltac:(lia) I b t Ht).
  intros t1 Ht1. wp_step. wp_call (reset_region_term_ok _ _ Unbounded Unbounded Ht1);
    [done|done|]. intros t2 [Ht2 _]. mrun. by apply fully_damaged_ok.
Qed.

(** ** Resetting and the alternate screen *)

Lemma grid_reset_screen g : screen_ok L C g → wp (Grid.reset g) (screen_ok L C).
Proof.
  intros [Hg El Ec]. wp_call (grid_reset_ok (P:=row_safe) g Hg).
  intros g' (Hg' & El' & Ec' & _). split; [done|congruence..].
Qed.

Lemma reset_state_stable : stable Handler.reset_state.
Proof.
  intros b t Ht. facts Ht. unfold Handler.reset_state. cbv zeta.
  set (t0 := if Term.has_mode TermMode.ALT_SCREEN t then _ else t).
  assert (term_ok L C b t0) as Ht0.
  { unfold t0. case_match; [|done]. apply set_inactive_grid_ok; [|apply Ht].
    apply set_grid_ok; [done|apply Ht]. }
  clearbody t0. wp_step.
  apply wp_mono with (term_ok L C b).
  { apply upd_grid_ok; [by apply (irrelevant _ _ b t0)|]. apply grid_reset_screen, Ht0. }
  intros t1 Ht1. wp_step. wp_call (grid_reset_screen _ (t_inactive _ _ _ _ Ht1)).
  intros g Hg. mrun. apply fully_damaged_ok, send_event_ok, set_mode_ok, set_mode_ok.
  match goal with |- term_ok _ _ _ (Term.set_inactive_keyboard_mode_stack _ (
    Term.set_keyboard_mode_stack _ ?x)) => apply (irrelevant _ _ b x); [|done..] end.
  pose proof (t_grid _ _ _ _ Ht1) as [Hg1 El1 Ec1].
  apply set_vi_ok; [|simpl; lia|simpl; lia]. apply set_selection_ok; [|done|done].
  match goal with |- term_ok _ _ _ (Term.set_title _ (Term.set_title_stack _ ?x)) =>
    apply (irrelevant _ _ b x); [|done..] end.
  apply set_tabs_ok.
  - apply set_region_ok; [by apply set_inactive_grid_ok|].
    unfold region_ok. simpl. rewrite El1, EI. lia.
  - unfold TabStops.new. simpl. by rewrite length_fmap, length_seq.
Qed.

Lemma swap_alt_stable : stable Term.swap_alt.
Proof.
  intros b t Ht. unfold Term.swap_alt. cbv zeta. wp_step.
  apply wp_mono with (term_ok L C b).
  { case_match; [done|]. wp_step.
    destruct (t_grid _ _ _ _ Ht) as [Hg El Ec]. destruct (t_inactive _ _ _ _ Ht) as [Hi Eli Eci].
    pose proof (g_cursor _ Hg) as Hcu.
    set (gi := Grid.set_cursor (Term.cursor t) (Term.inactive_grid t)).
    assert (grid_ok row_safe gi) as Hgi.
    { apply set_cursor_ok; [done|]. rewrite Eli, Eci, <- El, <- Ec. done. }
    wp_call (reset_region_ok (P:=row_safe) gi Unbounded Unbounded 0 (Z.of_nat L) Hgi);
      [simpl; pose proof (g_lines _ Hgi); simpl in *; lia|simpl; lia|done|simpl; by rewrite Eli|lia|].
    intros g (Hg' & [] & _). mrun. apply set_inactive_grid_ok; [|split; simpl in *; congruence].
    apply set_grid_ok; [|split; [|done..]; by apply set_saved_cursor_ok].
    apply set_inactive_grid_ok; [done|]. by split. }
  intros t1 Ht1. mrun. apply fully_damaged_ok. apply set_selection_ok; [|done|done].
  apply set_mode_ok. apply set_inactive_grid_ok; [|apply Ht1].
  apply set_grid_ok; [|apply Ht1]. by apply (irrelevant _ _ b t1).
Qed.

(** ** Colours, modes and reports *)

Lemma set_color_stable i color : (i < Colors.COUNT)%nat → stable (Handler.set_color i color).
Proof.
  intros Hi b t Ht. unfold Handler.set_color. pose proof (t_colors _ _ _ _ Ht) as El.
  unfold Colors.index, Colors.index_mut.
  destruct (lookup_lt_is_Some_2 (Term.colors t) i) as [y Hy]; [lia|]. rewrite Hy. mrun.
  assert (∀ t', term_ok L C b t' → Term.colors t' = Term.colors t →
    wp (cs ← update_at i (λ _, Some color) (Term.colors t'); Some (Term.set_colors cs t'))
      (term_ok L C b)) as Hset.
  { intros t' Ht' ->. rewrite (update_at_ok _ _ _ _ Hy). mrun.
    apply set_colors_ok; [done|]. by rewrite length_insert. }
  case_match; mrun; [by apply Hset|]. case_match; (apply Hset; [|done]); [done|].
  by apply fully_damaged_ok.
Qed.

Lemma reset_color_stable i : (i < Colors.COUNT)%nat → stable (Handler.reset_color i).
Proof.
  intros Hi b t Ht. unfold Handler.reset_color. pose proof (t_colors _ _ _ _ Ht) as El.
  unfold Colors.index, Colors.index_mut.
  destruct (lookup_lt_is_Some_2 (Term.colors t) i) as [y Hy]; [lia|]. rewrite Hy. mrun.
  assert (∀ t', term_ok L C b t' → Term.colors t' = Term.colors t →
    wp (cs ← update_at i (λ _, None) (Term.colors t'); Some (Term.set_colors cs t'))
      (term_ok L C b)) as Hset.
  { intros t' Ht' ->. rewrite (update_at_ok _ _ _ _ Hy). mrun.
    apply set_colors_ok; [done|]. by rewrite length_insert. }
  case_match; mrun; [by apply Hset|]. case_match; (apply Hset; [|done]); [|done].
  by apply fully_damaged_ok.
Qed.

(** Handlers without a case that panics, which change nothing the invariant reads. *)
Ltac plain := intros; repeat case_match;
  match goal with Ht : term_ok _ _ _ _ |- _ => first [exact Ht | by apply (irrelevant _ _ _ _ _ Ht)] end.

Lemma pop_keyboard_modes_ok b t n :
  term_ok L C b t → term_ok L C b (Handler.pop_keyboard_modes n t).
Proof. unfold Handler.pop_keyboard_modes. plain. Qed.

Lemma set_keyboard_mode_ok b t m a :
  term_ok L C b t → term_ok L C b (Handler.set_keyboard_mode m a t).
Proof. unfold Handler.set_keyboard_mode. plain. Qed.

Lemma clipboard_ok b t clipboard base64 terminator :
  term_ok L C b t →
  term_ok L C b (Handler.clipboard_store clipboard base64 t) ∧
  term_ok L C b (Handler.clipboard_load clipboard terminator t).
Proof.
  intros Ht. split; revert Ht; unfold Handler.clipboard_store, Handler.clipboard_load; plain.
Qed.

Lemma reports_ok b t pm m raw i :
  term_ok L C b t →
  term_ok L C b (Handler.report_private_mode pm raw t) ∧
  term_ok L C b (Handler.report_mode m raw t) ∧
  term_ok L C b (Handler.report_keyboard_mode t) ∧
  term_ok L C b (Handler.identify_terminal i t).
Proof.
  intros Ht. unfold Handler.report_private_mode, Handler.report_mode,
    Handler.report_keyboard_mode, Handler.identify_terminal.
  split_and!; revert Ht; plain.
Qed.

Lemma ansi_modes_ok b t m :
  term_ok L C b t →
  term_ok L C b (Handler.set_mode_ m t) ∧ term_ok L C b (Handler.unset_mode m t).
Proof.
  intros Ht. destruct m as [[]|]; simpl; split; try done; try by apply set_mode_ok.
  by apply fully_damaged_ok, set_mode_ok.
Qed.

Lemma pop_title_ok b t : term_ok L C b t → term_ok L C b (Handler.pop_title t).
Proof. unfold Handler.pop_title. plain. Qed.

Lemma template_ok b t h attr :
  term_ok L C b t →
  term_ok L C b (Handler.set_hyperlink h t) ∧ term_ok L C b (Handler.terminal_attribute attr t).
Proof.
  intros Ht. split; [|by apply set_template_ok]. unfold Handler.set_hyperlink.
  case_match. apply set_template_ok. by apply (irrelevant _ _ b t).
Qed.

Lemma set_private_mode_stable m : stable (Handler.set_private_mode m).
Proof.
  intros b t Ht. destruct m as [[]|]; simpl; try (by apply (irrelevant _ _ b t)); try done.
  - case_match; [done|by apply swap_alt_stable].
  - apply goto_ok; [|lia]. by apply set_mode_ok.
  - by apply deccolm_stable.
Qed.

Lemma unset_private_mode_stable m : stable (Handler.unset_private_mode m).
Proof.
  intros b t Ht. destruct m as [[]|]; simpl; try (by apply (irrelevant _ _ b t)); try done.
  - case_match; [by apply swap_alt_stable|done].
  - by apply deccolm_stable.
Qed.

Lemma device_status_stable arg : stable (Handler.device_status arg).
Proof.
  intros b t Ht. facts Ht. unfold Handler.device_status. case_match; [by apply send_event_ok|].
  case_match; [|done]. wp_step. wp_step. wp_step. by apply send_event_ok.
Qed.

Lemma push_title_stable : stable Handler.push_title.
Proof.
  intros b t Ht. unfold Handler.push_title. wp_step.
  apply wp_mono with (term_ok L C b).
  { case_match eqn:E; [|done]. bools. destruct (Term.title_stack t) as [|x l] eqn:Es.
    - exfalso. simpl in E. unfold TITLE_STACK_MAX_DEPTH in E. lia.
    - by apply (irrelevant _ _ b t). }
  intros t1 Ht1. wp_step. by apply (irrelevant _ _ b t1).
Qed.

(** The depth of the keyboard stack at which the title stack is used up. *)
Definition push_panics t : Prop :=
  Config.kitty_keyboard (Term.config t) = true ∧
  (KEYBOARD_MODE_STACK_MAX_DEPTH <= length (Term.keyboard_mode_stack t))%nat ∧
  Term.title_stack t = [].

Lemma push_keyboard_mode_cases b t m :
  term_ok L C b t →
  match Handler.push_keyboard_mode m t with
  | Some t' => term_ok L C b t' ∧ ¬ push_panics t
  | None => push_panics t
  end.
Proof.
  intros Ht. unfold Handler.push_keyboard_mode, push_panics.
  destruct (Config.kitty_keyboard (Term.config t)); simpl; [|split; [done|naive_solver]].
  destruct (_ <=? _)%nat eqn:E; bools; simpl.
  - destruct (Term.title_stack t) as [|x l] eqn:Es; simpl; [done|].
    split; [by apply (irrelevant _ _ b t)|naive_solver].
  - split; [by apply (irrelevant _ _ b t)|]. intros (_ & ? & _). lia.
Qed.

(** ** All calls *)

Lemma stable_step h b t :
  stable h → term_ok L C b t → wp (h t) (term_ok L C (b + 2 * Z.of_nat L)).
Proof.
  intros Hh Ht. wp_call (Hh b t Ht). intros t' ?. eapply term_ok_weaken; [|done]. lia.
Qed.

Lemma linefeed_safe : safe L C (2 * Z.of_nat L) Term.linefeed.
Proof.
  intros b t Ht Hb. wp_call (linefeed_ok L C b t Ht); [lia|]. intros t' [? _].
  eapply term_ok_weaken; [|done]. lia.
Qed.

Lemma total_ok b t c :
  term_ok L C b t →
  match c with
  | IdentifyTerminal _ | ReportKeyboardMode | PopKeyboardModes _ | SetKeyboardMode _ _
  | BellCall | Substitute | SaveCursorPosition | DynamicColorSequence _ _ _
  | ClipboardStoreCall _ _ | ClipboardLoadCall _ _ | SetHyperlink _ | TerminalAttribute _
  | ReportPrivateMode _ _ | SetMode _ | UnsetMode _ | ReportMode _ _ | SetKeypadApplicationMode
  | UnsetKeypadApplicationMode | ConfigureCharset _ _ | SetActiveCharset _ | SetCursorStyle _
  | SetCursorShape _ | SetTitle _ | PopTitle | TextAreaSizePixels | TextAreaSizeChars =>
      wp (step c t) (term_ok L C b)
  | _ => True
  end.
Proof.
  intros Ht. destruct c; try exact I; cbn [step wp];
    first
      [ by apply (reports_ok b t (UnknownPrivate 0) (UnknownAnsi 0) 0 intermediate Ht)
      | by apply (reports_ok b t (UnknownPrivate 0) (UnknownAnsi 0) 0 None Ht)
      | by apply (reports_ok b t m (UnknownAnsi 0) raw None Ht)
      | by apply (reports_ok b t (UnknownPrivate 0) m raw None Ht)
      | by apply (clipboard_ok b t _ base64 [] Ht) | by apply (clipboard_ok b t _ [] terminator Ht)
      | by apply (ansi_modes_ok b t m Ht)
      | by apply (template_ok b t hyperlink AttrReset Ht) | by apply (template_ok b t None _ Ht)
      | by apply pop_keyboard_modes_ok | by apply set_keyboard_mode_ok | by apply pop_title_ok
      | by apply save_cursor_stable | by apply set_cursor_here_ok
      | by apply (irrelevant _ _ b t) ].
Qed.

Lemma step_wp b t c :
  term_ok L C b t → args_ok c → b + 2 * Z.of_nat L <= 1073741823 →
  (∀ m, c ≠ PushKeyboardMode m) → wp (step c t) (term_ok L C (b + 2 * Z.of_nat L)).
Proof.
  intros Ht Ha Hb Hp. pose proof (total_ok b t c Ht) as Htot.
  assert (∀ h, stable h → wp (h t) (term_ok L C (b + 2 * Z.of_nat L))) as Hst.
  { intros h Hh. by apply stable_step. }
  destruct (scroll_handlers_safe (match c with ScrollUp n | ScrollDown n | InsertBlankLines n
    | DeleteLines n => n | _ => 0%nat end)) as (S1 & S2 & S3 & S4).
  assert (wp (step c t) (term_ok L C b) → wp (step c t) (term_ok L C (b + 2 * Z.of_nat L)))
    as Hw.
  { intros Hwp. wp_call Hwp. intros t' ?. eapply term_ok_weaken; [|done]. lia. }
  destruct c; try exact (Hw Htot); clear Htot Hw; cbn [step args_ok] in *.
  - exact ((input_safe ch) b t Ht Hb).
  - exact (Hst _ decaln_stable).
  - exact (Hst _ (goto_stable l col ltac:(lia))).
  - exact (Hst _ (goto_line_stable l ltac:(lia))).
  - exact (Hst _ (goto_col_stable col)).
  - exact (Hst _ (insert_blank_stable n)).
  - exact (Hst _ (proj1 (move_vertical_stable n Ha))).
  - exact (Hst _ (proj1 (proj2 (move_vertical_stable n Ha)))).
  - exact (Hst _ (proj1 (move_horizontal_stable n))).
  - exact (Hst _ (proj1 (proj2 (move_horizontal_stable n)))).
  - by destruct (Hp m).
  - exact (Hst _ (device_status_stable arg)).
  - exact (Hst _ (proj1 (proj2 (proj2 (move_vertical_stable n Ha))))).
  - exact (Hst _ (proj2 (proj2 (proj2 (move_vertical_stable n Ha))))).
  - exact ((put_tab_safe n) b t Ht Hb).
  - exact (Hst _ backspace_stable).
  - exact (Hst _ (proj2 (proj2 (move_horizontal_stable 0)))).
  - exact (linefeed_safe b t Ht Hb).
  - exact (newline_safe b t Ht Hb).
  - exact (Hst _ set_horizontal_tabstop_stable).
  - exact (S1 b t Ht Hb).
  - exact (S2 b t Ht Hb).
  - exact (S3 b t Ht Hb).
  - exact (S4 b t Ht Hb).
  - exact (Hst _ (erase_chars_stable n)).
  - exact (Hst _ (delete_chars_stable n)).
  - exact (Hst _ (move_backward_tabs_stable n)).
  - exact (Hst _ (move_forward_tabs_stable n)).
  - exact (Hst _ restore_cursor_stable).
  - exact (Hst _ (clear_line_stable mode)).
  - exact (Hst _ (set_color_stable i color Ha)).
  - exact (Hst _ (reset_color_stable i Ha)).
  - exact (Hst _ (clear_screen_stable mode)).
  - exact (Hst _ (clear_tabs_stable mode)).
  - exact (Hst _ reset_state_stable).
  - exact (reverse_index_safe b t Ht Hb).
  - exact (Hst _ (set_private_mode_stable m)).
  - exact (Hst _ (unset_private_mode_stable m)).
  - exact (Hst _ (set_scrolling_region_stable top bottom (proj1 (proj2 Ha)) (proj1 Ha) (proj2 (proj2 Ha)))).
  - exact (Hst _ push_title_stable).
Qed.
End Handlers.
