(* ===== verification/TermProps.v ===== *)
(** The safety of the terminal: construction, resizing, the display, vi mode and every sequence
    of escape sequences. *)
From S2P Require Import Prelude Index Cells Rows Storages Grids Resizes TermData Selections Terms.
From S2P Require Import Handlers TermSafety HandlerSafety.
#[local] Open Scope Z_scope.

Section Construction.
Context `{External}.
Implicit Types (t : Term.t).

Lemma term_new_ok b config lines cols :
  (1 <= lines)%nat → (2 <= cols)%nat →
  Z.of_nat (lines + Config.scrolling_history config) <= 268435455 →
  wp (Term.new config lines cols) (λ t, term_ok lines cols b t ∧
    Grid.max_scroll_limit (Term.grid t) = Config.scrolling_history config ∧
    Grid.max_scroll_limit (Term.inactive_grid t) = 0%nat).
Proof.
  intros Hl Hc Hs. unfold Term.new. wp_step.
  wp_call (grid_new_ok (P:=row_safe) lines cols _ Hl); [lia|done|].
  intros g (Hg & El & Ec & Em & _). wp_step.
  wp_call (grid_new_ok (P:=row_safe) lines cols 0 Hl); [lia|lia|].
  intros g' (Hg' & El' & Ec' & Em' & _). wp_step. split; [|done].
  split; simpl; try done.
  - unfold TabStops.new. by rewrite length_fmap, length_seq.
  - unfold region_ok. simpl. casts. lia.
  - unfold TermDamageState.fresh_lines. by rewrite length_fmap, length_seq.
  - split; simpl; lia.
  - lia.
Qed.

(** ** Resizing *)

(** The movement of the lines of the selection and of the cursor of vi mode. *)
Lemma resize_delta_bounds (old new history : nat) (cursor : Z) :
  Z.of_nat old <= 268435455 → Z.of_nat new <= 268435455 → (1 <= new)%nat →
  0 <= cursor < Z.of_nat old →
  - Z.of_nat old <=
    Z.min (Z.max (Z.of_nat new - Z.of_nat old) (Z.min 0 (Z.of_nat new - cursor - 1)))
      (Z.of_nat history) <= Z.of_nat new.
Proof. lia. Qed.

Lemma screen_resize L C L' C' g reflow :
  screen_ok L C g → (1 <= L')%nat → (2 <= C')%nat →
  Z.of_nat (L + Grid.max_scroll_limit g + L') <= 268435455 →
  wp (Resize.resize reflow L' C' g) (screen_ok L' C').
Proof.
  intros [Hg El Ec] Hl Hc Hs. wp_call (resize_ok g reflow L' C' Hg Hl Hc); [by rewrite El|].
  intros g' (Hg' & El' & Ec' & _). by split.
Qed.

Lemma resize_term_ok L C L' C' b t :
  term_ok L C b t → (1 <= L')%nat → (2 <= C')%nat →
  Z.of_nat (L + Grid.max_scroll_limit (Term.grid t) + L') <= 268435455 →
  Z.of_nat (L + Grid.max_scroll_limit (Term.inactive_grid t) + L') <= 268435455 →
  b <= 1073741823 →
  wp (Term.resize L' C' t) (term_ok L' C' (b + Z.of_nat (L + L'))).
Proof.
  intros Ht HL' HC' Hs1 Hs2 Hb.
  pose proof (term_facts _ _ _ _ Ht) as (EL & EC & EI & HL & HC & HS & Hl & Hc).
  pose proof (t_budget _ _ _ _ Ht) as Hroom. pose proof (t_vi _ _ _ _ Ht) as [Hv Hvc].
  pose proof (g_history _ (sc_grid _ _ _ (t_grid _ _ _ _ Ht))) as Hhist.
  unfold Term.resize. cbv zeta. rewrite EL, EC.
  destruct (_ && _) eqn:Esame; bools.
  { subst. wp_step. eapply term_ok_weaken; [|done]. lia. }
  assert (as_i32 L' = Z.of_nat L') as EI' by (apply as_i32_small; lia).
  assert (as_i32 (history_size t) = Z.of_nat (history_size t)) as EH.
  { apply as_i32_small. unfold history_size. simpl in *.
    rewrite (sc_lines _ _ _ (t_grid _ _ _ _ Ht)) in *. lia. }
  rewrite EI, EI', EH.
  do 3 (wp_step; wp_step). set (delta := Z.min _ _).
  pose proof (resize_delta_bounds L L' (history_size t) (line (Term.cursor_point t)) HS
    ltac:(lia) HL' Hl) as Hdelta. fold delta in Hdelta. clearbody delta.
  wp_step. wp_step.
  unfold Term.upd_grid. simpl. wp_step. wp_step.
  wp_call (screen_resize L C L' C' _ _ (t_grid _ _ _ _ Ht) HL' HC' Hs1). intros g Hg. mrun.
  wp_step. wp_call (screen_resize L C L' C' _ _ (t_inactive _ _ _ _ Ht) HL' HC' Hs2).
  intros gi Hgi. simpl.
  set (t1 := Term.set_inactive_grid gi _).
  assert (dims_ok t1) as Hd1.
  { destruct (grid_dims _ (sc_grid _ _ _ Hg)). by split. }
  wp_step.
  apply wp_mono with (λ t2, ∃ s tabs, t2 = Term.set_tabs tabs (Term.set_selection s t1) ∧
    length tabs = C' ∧ from_option (bounded (b + Z.of_nat (L + L'))) True s ∧
    (s ≠ None → 268435455 <= b)).
  { pose proof (t_tabs _ _ _ _ Ht) as Etabs. pose proof (t_selection _ _ _ _ Ht) as Hsel.
    case_match eqn:E; bools.
    - wp_step. exists None, (TabStops.resize C' (Term.tabs t)).
      split; [done|]. split; [|by split]. unfold TabStops.resize. autorewrite with lens.
      rewrite length_seq. lia.
    - subst C'. destruct (Term.selection t) as [s|] eqn:Es.
      + specialize (Hroom ltac:(by rewrite ?Es)). wp_step. wp_step. wp_step.
        rewrite as_i32_small by lia.
        wp_call (rotate_bounded t1 Hd1 b s 0 _ (0 - delta));
          [lia|lia|exact Hsel|lia|lia|lia|].
        intros s' Hs'. mrun. exists s', (Term.tabs t). split; [by destruct t|].
        split; [done|]. split; [|done]. destruct s' as [s'|]; [|done]. simpl.
        eapply bounded_weaken; [|apply Hs']. lia.
      + wp_step. exists None, (Term.tabs t). split; [|done]. unfold t1.
        destruct t; simpl in *. by rewrite Es. }
  intros t2 (s & tabs & -> & Etabs & Hs & Hsb). simpl.
  destruct Hg as [Hg Elg Ecg].
  pose proof (g_offset _ Hg). pose proof (g_small _ Hg). dims (grid_dims _ Hg). simpl in *.
  assert (as_i32 (Grid.display_offset g) = Z.of_nat (Grid.display_offset g)) as EO.
  { apply as_i32_small. lia. }
  wp_step. unfold bottommost_line in *. simpl in *. rewrite EO.
  rewrite Elg in *. rewrite EI' in *.
  wp_step. split; simpl.
  - by split.
  - done.
  - done.
  - done.
  - unfold region_ok. simpl. rewrite ?Elg, ?EI'. lia.
  - unfold TermDamageState.fresh_lines. by rewrite length_fmap, length_seq.
  - split; simpl; lia.
  - done.
  - unfold last_column. simpl. rewrite Ecg. lia.
  - apply Ht.
  - intros Hn. specialize (Hsb Hn). lia.
Qed.
End Construction.

(** ** The display, vi mode and options *)

Section Display.
Context `{External}.
Context {L C : nat}.
Implicit Types (t : Term.t).

Lemma recompute_ok b t :
  term_ok L C b t → term_ok L C b (Term.vi_mode_recompute_selection t).
Proof.
  intros Ht. unfold Term.vi_mode_recompute_selection. case_match; [done|].
  pose proof (t_selection _ _ _ _ Ht) as Hs. pose proof (t_vi _ _ _ _ Ht) as [Hv _].
  destruct (Term.selection t) as [s|] eqn:Es; [|done].
  pose proof (t_budget _ _ _ _ Ht ltac:(by rewrite Es)).
  case_match; [done|]. apply set_selection_ok; [done| |by rewrite Es]. destruct s as [ty [sp ss] [ep es]].
  destruct Hs as [Hs1 Hs2]. unfold Selection.include_all, Selection.update, bounded,
    anchor_bounded in *. simpl in *. repeat case_match; simpl in *; lia.
Qed.

Lemma scroll_display_stable scroll :
  match scroll with ScrollDelta c => -1000000000 <= c <= 1000000000 | _ => True end →
  stable (L:=L) (C:=C) (Term.scroll_display scroll).
Proof.
  intros Hs b t Ht. unfold Term.scroll_display. cbv zeta. wp_step.
  destruct (t_grid _ _ _ _ Ht) as [Hg El Ec]. unfold Term.upd_grid. wp_step.
  wp_call (scroll_display_ok (P:=row_safe) (Term.grid t) scroll Hg Hs).
  intros g (Eg & _ & Hg').
  assert (screen_ok L C g) as Hsc by (split; [done|rewrite Eg; done..]).
  pose proof (g_offset _ Hg'). pose proof (g_small _ Hg'). dims (grid_dims _ Hg'). simpl in *.
  assert (as_i32 (Grid.display_offset g) = Z.of_nat (Grid.display_offset g)) as EO
    by (apply as_i32_small; lia).
  unfold bottommost_line in *. simpl in *. rewrite EO. wp_step. wp_step. wp_step.
  pose proof (t_vi _ _ _ _ Ht) as [Hv Hvc].
  match goal with |- term_ok _ _ _ (if _ then ?x else _) => assert (term_ok L C b x) as Hx end.
  { apply recompute_ok. apply set_vi_ok; [|simpl; lia|done].
    apply send_event_ok. by apply set_grid_ok. }
  match goal with |- term_ok _ _ _ (if ?x then _ else _) => destruct x end; [done|].
  by apply fully_damaged_ok.
Qed.

Lemma toggle_vi_mode_stable : stable (L:=L) (C:=C) Term.toggle_vi_mode.
Proof.
  intros b t Ht. pose proof (term_facts _ _ _ _ Ht) as (EL & EC & EI & HL & HC & HS & Hl & Hc).
  unfold Term.toggle_vi_mode. cbv zeta. wp_step.
  apply wp_mono with (term_ok L C b); [|intros t' Ht'; by apply send_event_ok].
  destruct (t_grid _ _ _ _ Ht) as [Hg El Ec].
  pose proof (g_offset _ Hg). pose proof (g_small _ Hg). dims (grid_dims _ Hg). simpl in *.
  assert (term_ok L C b (Term.set_mode (TermMode.toggle TermMode.VI (Term.mode t)) t)) as Ht'
    by by apply set_mode_ok.
  case_match; [|done]. unfold bottommost_line in *. simpl in *. casts.
  wp_step. wp_step. wp_step. case_match.
  - apply set_vi_ok; [done|simpl; lia|simpl; lia].
  - apply set_vi_ok; [done| |]; unfold Term.cursor_point, Term.cursor in *; simpl; lia.
Qed.

Lemma vi_goto_point_stable p :
  -268435455 <= line p <= 268435455 → (column p < C)%nat →
  stable (L:=L) (C:=C) (Term.vi_goto_point p).
Proof.
  intros Hp Hpc b t Ht. unfold Term.vi_goto_point. wp_step.
  apply wp_mono with (term_ok L C b).
  { pose proof (term_facts _ _ _ _ Ht) as (EL & EC & EI & HL & HC & HS & Hl & Hc).
    destruct (t_grid _ _ _ _ Ht) as [Hg El Ec].
    pose proof (g_offset _ Hg). pose proof (g_small _ Hg).
    unfold Term.scroll_to_point. cbv zeta. rewrite EL, EI. casts. case_match; bools.
    - wp_step. wp_step. wp_step. wp_step. apply scroll_display_stable; [lia|done].
    - wp_step. wp_step. case_match; [|done]. bools. do 4 (wp_step; wp_step).
      apply scroll_display_stable; [lia|done]. }
  intros t1 Ht1. mrun. apply recompute_ok. by apply set_vi_ok.
Qed.

Lemma set_options_stable options :
  Z.of_nat (L + Config.scrolling_history options) <= 268435455 →
  stable (L:=L) (C:=C) (Term.set_options options).
Proof.
  intros Hh b t Ht. unfold Term.set_options. cbv zeta.
  set (t0 := Term.send_event _ _).
  assert (term_ok L C b t0) as Ht0 by by apply (irrelevant _ _ b t).
  assert (Term.config t0 = options) as Eo by done. clearbody t0. wp_step. rewrite Eo.
  assert (∀ g, screen_ok L C g →
    wp (Grid.update_history (Config.scrolling_history options) g) (screen_ok L C)) as Hup.
  { intros g [Hg El Ec].
    wp_call (update_history_ok (P:=row_safe) g (Config.scrolling_history options) Hg);
      [by rewrite El|].
    intros g' (Hg' & _ & _ & _ & _ & [El' Ec'] & _). split; [done|congruence..]. }
  apply wp_mono with (term_ok L C b).
  { case_match; wp_step.
    - wp_call (Hup _ (t_inactive _ _ _ _ Ht0)). intros g Hg. mrun.
      by apply set_inactive_grid_ok.
    - wp_call (Hup _ (t_grid _ _ _ _ Ht0)). intros g Hg. mrun. by apply set_grid_ok. }
  intros t1 Ht1. mrun. apply fully_damaged_ok. case_match; [done|].
  by apply (irrelevant _ _ b t1).
Qed.

Lemma collect_damage_ok b t :
  term_ok L C b t → wp (Term.collect_damage t) (λ '(_, t'), term_ok L C b t').
Proof.
  intros Ht. unfold Term.collect_damage. cbv zeta.
  set (t0 := if Term.has_mode TermMode.INSERT t then _ else t).
  assert (term_ok L C b t0) as Ht0.
  { unfold t0. case_match; [|done]. by apply fully_damaged_ok. }
  clearbody t0. set (t1 := Term.set_damage _ t0).
  assert (term_ok L C b t1) as Ht1.
  { pose proof (term_facts _ _ _ _ Ht0) as (_ & _ & _ & _ & _ & _ & ? & ?).
    destruct Ht0. split; simpl; auto. by split. }
  pose proof (t_last_cursor _ _ _ _ Ht0) as [Hll Hlc].
  pose proof (term_facts _ _ _ _ Ht0) as (_ & _ & _ & _ & _ & HS & _ & _).
  case_match; [done|]. wp_step. apply wp_mono with (term_ok L C b).
  { case_match; [done|]. unfold TermDamageState.damage_point.
    pose proof (damage_line_ok _ _ _ _ (as_usize (line (TermDamageState.last_cursor
      (Term.damage t0)))) (column (TermDamageState.last_cursor (Term.damage t0)))
      (column (TermDamageState.last_cursor (Term.damage t0))) Ht1) as Hd.
    wp_call Hd; [casts; lia|]. by intros t' [? _]. }
  intros t2 Ht2. wp_step. wp_call (damage_cursor_ok _ _ _ _ Ht2). intros t3 [Ht3 _]. mrun.
  done.
Qed.

Lemma reset_damage_stable : stable (L:=L) (C:=C) (λ t, Some (Term.reset_damage t)).
Proof.
  intros b t []. split; simpl; auto. by rewrite length_fmap.
Qed.
End Display.

(** ** Sequences of calls *)

Section Runs.
Context `{External}.
Context {L C : nat}.
Implicit Types (t : Term.t) (cs : list call).

Lemma step_cases b t c :
  term_ok L C b t → args_ok c → b + 2 * Z.of_nat L <= 1073741823 →
  match step c t with
  | Some t' => term_ok L C (b + 2 * Z.of_nat L) t'
  | None => (∃ m, c = PushKeyboardMode m) ∧ push_panics t
  end.
Proof.
  intros Ht Ha Hb.
  assert ((∃ m, c = PushKeyboardMode m) ∨ ∀ m, c ≠ PushKeyboardMode m) as [[m ->]|Hne].
  { destruct c; first [left; by eexists | right; congruence]. }
  - cbn [step]. pose proof (push_keyboard_mode_cases b t m Ht) as Hp.
    destruct (Handler.push_keyboard_mode m t) as [t'|]; [|by split; [exists m|]].
    eapply term_ok_weaken; [|apply Hp]. lia.
  - pose proof (step_wp b t c Ht Ha Hb Hne) as Hwp. by destruct (step c t).
Qed.

Lemma run_cases cs b t :
  term_ok L C b t → Forall args_ok cs →
  b + 2 * Z.of_nat L * Z.of_nat (length cs) <= 1073741823 →
  match run cs t with
  | Some t' => term_ok L C (b + 2 * Z.of_nat L * Z.of_nat (length cs)) t'
  | None => ∃ cs1 m cs2 t1, cs = cs1 ++ PushKeyboardMode m :: cs2 ∧
      run cs1 t = Some t1 ∧ push_panics t1
  end.
Proof.
  revert b t. induction cs as [|c cs IH]; intros b t Ht Ha Hb; unfold run; cbn [foldM].
  { eapply term_ok_weaken; [|done]. simpl. lia. }
  apply Forall_cons in Ha as [Hc Hcs]. cbn [length] in Hb |- *.
  pose proof (step_cases b t c Ht Hc ltac:(nia)) as Hstep.
  destruct (step c t) as [t1|] eqn:Et; simpl.
  - specialize (IH _ t1 Hstep Hcs ltac:(nia)). fold (run cs t1).
    destruct (run cs t1) as [t'|].
    + eapply term_ok_weaken; [|done]. nia.
    + destruct IH as (cs1 & m & cs2 & t2 & -> & Hrun & Hp).
      exists (c :: cs1), m, cs2, t2. split; [done|]. split; [|done].
      unfold run. cbn [foldM]. by rewrite Et.
  - destruct Hstep as [[m ->] Hp]. by exists [], m, cs, t.
Qed.
End Runs.

(** * The properties *)

Section Properties.
Context `{External}.
Implicit Types (t : Term.t) (cs : list call).

(** C1. Whatever the child process writes, and however much, a new terminal handles it without a
    panic and keeps its invariant, with one exception: a keyboard mode is pushed on the full stack
    while the title stack is empty.  The arguments of the calls are in the range the parser produces,
    and the screen with its history has at most 268435455 lines.  (The calls never make a selection, so
    that no line of a selection drifts; for states with a selection see [step_safe].) *)
Theorem run_only_panic config lines cols cs :
  (1 <= lines)%nat → (2 <= cols)%nat →
  Z.of_nat (lines + Config.scrolling_history config) <= 268435455 → Forall args_ok cs →
  wp (Term.new config lines cols) (λ t,
    match run cs t with
    | Some t' => term_ok lines cols 268435455 t' ∧ Term.selection t' = None
    | None => ∃ cs1 m cs2 t1, cs = cs1 ++ PushKeyboardMode m :: cs2 ∧
        run cs1 t = Some t1 ∧ push_panics t1
    end).
Proof.
  intros Hl Hc Hs Ha. set (k := 2 * Z.of_nat lines * Z.of_nat (length cs)).
  wp_call (term_new_ok (-1 - k) config lines cols Hl Hc Hs). intros t (Ht & _).
  pose proof (run_cases cs (-1 - k) t Ht Ha ltac:(lia)) as Hrun.
  destruct (run cs t) as [t'|]; [|done].
  assert (Term.selection t' = None) as Hsel' by (eapply term_ok_negative; [|exact Hrun]; lia).
  split; [by eapply term_ok_unselected|done].
Qed.

(** Every handler keeps the invariant of the terminal in every state that satisfies it, and
    panics only in [push_keyboard_mode]. *)
Theorem step_safe L C b t c :
  term_ok L C b t → args_ok c → b + 2 * Z.of_nat L <= 1073741823 →
  match step c t with
  | Some t' => term_ok L C (b + 2 * Z.of_nat L) t'
  | None => (∃ m, c = PushKeyboardMode m) ∧ push_panics t
  end.
Proof. apply step_cases. Qed.

(** C2. Resizing the terminal does not panic and gives a well-formed terminal of the new size. *)
Theorem resize_safe L C L' C' b t :
  term_ok L C b t → (1 <= L')%nat → (2 <= C')%nat →
  Z.of_nat (L + Grid.max_scroll_limit (Term.grid t) + L') <= 268435455 →
  Z.of_nat (L + Grid.max_scroll_limit (Term.inactive_grid t) + L') <= 268435455 →
  b <= 1073741823 →
  wp (Term.resize L' C' t) (term_ok L' C' (b + Z.of_nat (L + L'))).
Proof. apply resize_term_ok. Qed.

(** Scrolling the display, vi mode, new options and collecting the damage keep the invariant
    and do not panic. *)
Theorem methods_safe L C b t scroll p options :
  term_ok L C b t →
  match scroll with ScrollDelta c => -1000000000 <= c <= 1000000000 | _ => True end →
  -268435455 <= line p <= 268435455 → (column p < C)%nat →
  Z.of_nat (L + Config.scrolling_history options) <= 268435455 →
  wp (Term.scroll_display scroll t) (term_ok L C b) ∧
  wp (Term.toggle_vi_mode t) (term_ok L C b) ∧
  wp (Term.vi_goto_point p t) (term_ok L C b) ∧
  wp (Term.set_options options t) (term_ok L C b) ∧
  wp (Term.collect_damage t) (λ '(_, t'), term_ok L C b t').
Proof.
  intros Ht Hs Hp Hpc Ho. split_and!.
  - by apply scroll_display_stable.
  - by apply toggle_vi_mode_stable.
  - by apply vi_goto_point_stable.
  - by apply set_options_stable.
  - by apply collect_damage_ok.
Qed.
End Properties.

(** A terminal of 3 lines and 4 columns with 5 lines of history. *)
Module TermSample.
#[local] Existing Instance Sample.external.
Definition config : Config.t :=
  Config.mk 5 (mkCursorStyle CursorShape_default false) None Config.SEMANTIC_ESCAPE_CHARS true OnlyCopy.

(** The state after some calls, from the new terminal. *)
Definition after (cs : list call) : option Term.t := t ← Term.new config 3 4; run cs t.

Lemma new_is_ok : wp (Term.new config 3 4) (λ t, term_ok 3 4 268435455 t ∧
  Grid.max_scroll_limit (Term.grid t) = 5%nat ∧
  Grid.max_scroll_limit (Term.inactive_grid t) = 0%nat).
Proof. apply (term_new_ok _ config 3 4); simpl; lia. Qed.

(** The new terminal itself. *)
Definition term : Term.t.
Proof.
  let x := eval vm_compute in (Term.new config 3 4) in
  match x with Some ?t => exact t end.
Defined.

Lemma term_is_new : Term.new config 3 4 = Some term.
Proof. exact (eq_refl (Some term) <: Term.new config 3 4 = Some term). Qed.

Lemma term_is_ok : term_ok 3 4 268435455 term.
Proof. pose proof new_is_ok as Hwp. rewrite term_is_new in Hwp. apply Hwp. Qed.

(** The state after some calls that do not panic. *)
Definition typed (cs : list call) : Term.t := default term (run cs term).

Lemma typed_ok cs : Forall args_ok cs → (length cs <= 100)%nat → ∃ b, term_ok 3 4 b (typed cs).
Proof.
  intros Ha Hn. pose proof (run_cases cs _ term term_is_ok Ha) as Hrun.
  specialize (Hrun ltac:(lia)). unfold typed. destruct (run cs term); simpl; [by eexists|].
  exists 268435455. apply term_is_ok.
Qed.

Lemma typed_grid_ok cs :
  Forall args_ok cs → (length cs <= 100)%nat → grid_ok row_safe (Term.grid (typed cs)).
Proof. intros Ha Hn. destruct (typed_ok cs Ha Hn) as [b Hb]. apply Hb. Qed.
End TermSample.

#[local] Existing Instance Sample.external.

Lemma run_only_panic_witness :
  wp (Term.new TermSample.config 3 4) (λ t,
    match run [Input 97; Linefeed; SetScrollingRegion 2 None; ReverseIndex; ResetState] t with
    | Some t' => term_ok 3 4 268435455 t' ∧ Term.selection t' = None
    | None => ∃ cs1 m cs2 t1,
        [Input 97; Linefeed; SetScrollingRegion 2 None; ReverseIndex; ResetState]
          = cs1 ++ PushKeyboardMode m :: cs2 ∧ run cs1 t = Some t1 ∧ push_panics t1
    end).
Proof.
  apply (run_only_panic TermSample.config 3 4); [lia|lia|simpl; lia|].
  repeat constructor; simpl; lia.
Defined.

Lemma step_safe_witness :
  wp (Term.new TermSample.config 3 4) (λ t, is_Some (step (Input 97) t)).
Proof.
  eapply wp_mono; [apply TermSample.new_is_ok|]. intros t [Ht _].
  pose proof (step_safe 3 4 268435455 t (Input 97) Ht I ltac:(simpl; lia)) as Hs.
  destruct (step (Input 97) t) as [t'|]; [by exists t'|]. by destruct Hs as [[m Hm] _].
Defined.

Lemma resize_safe_witness :
  wp (Term.new TermSample.config 3 4) (λ t, is_Some (Term.resize 5 2 t)).
Proof.
  eapply wp_mono; [apply TermSample.new_is_ok|]. intros t (Ht & E1 & E2).
  pose proof (resize_safe 3 4 5 2 268435455 t Ht ltac:(lia) ltac:(lia)
    ltac:(rewrite E1; lia) ltac:(rewrite E2; lia) ltac:(lia)) as Hs.
  destruct (Term.resize 5 2 t) as [t'|]; [by exists t'|destruct Hs].
Defined.

Lemma methods_safe_witness :
  wp (Term.new TermSample.config 3 4) (λ t, is_Some (Term.scroll_display PageUp t)).
Proof.
  eapply wp_mono; [apply TermSample.new_is_ok|]. intros t [Ht _].
  destruct (methods_safe 3 4 268435455 t PageUp (Pt 0 1%nat) TermSample.config Ht I
    ltac:(simpl; lia) ltac:(simpl; lia) ltac:(simpl; lia)) as [Hs _].
  destruct (Term.scroll_display PageUp t) as [t'|]; [by exists t'|destruct Hs].
Defined.

(** The exception: 4096 pushes fill the stack, the next one panics. *)
Example push_4097 :
  let E := Sample.external in
  match TermSample.after (replicate 4096 (PushKeyboardMode KeyboardModes_NO_MODE)) with
  | Some t => step (PushKeyboardMode KeyboardModes_NO_MODE) t = None
  | None => False
  end.
Proof. vm_compute. reflexivity. Qed.
