(* ===== verification/Effects.v ===== *)
(** What the handlers do to the cells, the cursor and the state of the terminal. *)
From S2P Require Import Prelude Index Cells Rows Storages Grids Resizes TermData Selections Terms.
From S2P Require Import Handlers TermSafety HandlerSafety TermProps.
#[local] Open Scope Z_scope.

Section Cells.
Context `{External}.
Context {L C : nat}.
Implicit Types (t : Term.t) (g : Grid.t Cell) (p q : Point).

Lemma index_point_row g p :
  grid_ok row_safe g → topmost_line g <= line p <= bottommost_line g →
  Grid.index_point p g = r ← grid_row g (line p); Row.inner r !! column p.
Proof.
  intros Hg Hp. destruct (grid_row_is_Some (P:=row_safe) g (line p) Hg Hp) as (r & Er & Ei & _).
  unfold Grid.index_point. by rewrite Ei, Er.
Qed.

(** An update of a line leaves every other line. *)
Lemma index_mut_rows_ok g l f :
  screen_ok L C g → topmost_line g <= l < Z.of_nat L →
  (∀ r, row_safe C r → wp (f r) (row_safe C)) →
  wp (Grid.index_mut l f g) (λ g', screen_ok L C g' ∧ g' = Grid.set_raw (Grid.raw g') g ∧
    topmost_line g' = topmost_line g ∧
    (∃ r r', grid_row g l = Some r ∧ row_safe C r ∧ f r = Some r' ∧ grid_row g' l = Some r') ∧
    ∀ l', topmost_line g <= l' < Z.of_nat L → l' ≠ l → grid_row g' l' = grid_row g l').
Proof.
  intros [Hg El Ec] Hl Hf. dims (grid_dims g Hg). unfold Grid.index_mut. wp_step.
  wp_call (index_mut_line (P:=row_safe C) (Grid.raw g) l f (λ r r', f r = Some r'));
    [apply Hg|rewrite <- Ec; apply Hg|apply (grid_has_line g l Hg); simpl in *; lia| |].
  { intros r Hr. pose proof (Hf r Hr) as Hwp. destruct (f r); [|done]. by split. }
  intros s (Hsame & (r & r' & Er & Er' & Hr & Ef) & Hother). mrun. split.
  { split; [|done..]. apply set_raw_ok; [done|]. by rewrite Ec. }
  split; [done|]. split.
  { unfold topmost_line, history_size. simpl. by rewrite (same_len _ _ Hsame). }
  split; [by exists r, r'|]. intros l' Hl' Hne. apply Hother; [|done].
  apply (grid_has_line g l' Hg). simpl in *. lia.
Qed.

(** An update of a cell leaves every other cell. *)
Lemma index_mut_point_cells g p f :
  screen_ok L C g → topmost_line g <= line p < Z.of_nat L → (column p < C)%nat →
  wp (Grid.index_mut_point p f g) (λ g', screen_ok L C g' ∧ g' = Grid.set_raw (Grid.raw g') g ∧
    topmost_line g' = topmost_line g ∧
    (∃ x, Grid.index_point p g = Some x ∧ Grid.index_point p g' = Some (f x)) ∧
    ∀ q, in_grid g q → q ≠ p → Grid.index_point q g' = Grid.index_point q g).
Proof.
  intros Hg Hl Hc. unfold Grid.index_mut_point.
  wp_call (index_mut_rows_ok g (line p) (Row.index_mut (column p) f) Hg Hl).
  { intros r Hr. by apply (inv_index_mut (P:=row_safe C)). }
  intros g' (Hg' & Eg & Etop & (r & r' & Er & Hr & Ef & Er') & Hother).
  split; [done|]. split; [done|]. split; [done|].
  pose proof Hg as [Hgo El Ec]. pose proof Hg' as [Hgo' El' Ec'].
  dims (grid_dims g Hgo). dims (grid_dims g' Hgo'). simpl in *.
  unfold Row.index_mut in Ef.
  destruct (lookup_lt_is_Some_2 (Row.inner r) (column p)) as [x Hx].
  { destruct Hr as [Hlen _ _]. unfold Row.len in Hlen. lia. }
  rewrite (update_at_ok _ _ _ _ Hx) in Ef. injection Ef as <-. split.
  - exists x. rewrite !index_point_row by (done || lia).
    rewrite Er, Er'. simpl. rewrite Hx. split; [done|].
    apply list_lookup_insert_eq. by eapply lookup_lt_Some.
  - intros q [Hq Hqc] Hne. simpl in *. rewrite !index_point_row by (done || lia).
    destruct (decide (line q = line p)) as [E|E].
    + rewrite E, Er, Er'. simpl. apply list_lookup_insert_ne. intros Ecol. apply Hne.
      destruct p, q; simpl in *. congruence.
    + rewrite Hother by (done || lia). done.
Qed.
End Cells.

(** ** Loops of swaps *)

Section Shifts.
Context {A : Type}.
Implicit Types (l : list A).

Lemma swap_lookup i j l l' k :
  swap_at i j l = Some l' →
  l' !! k = if decide (k = j) then l !! i else if decide (k = i) then l !! j else l !! k.
Proof.
  unfold swap_at. intros Hs. destruct (l !! i) as [x|] eqn:Ei; [|done].
  simpl in Hs. destruct (l !! j) as [y|] eqn:Ej; [|done]. injection Hs as <-.
  pose proof (lookup_lt_Some _ _ _ Ei). pose proof (lookup_lt_Some _ _ _ Ej).
  repeat case_decide; subst.
  - by rewrite list_lookup_insert_eq by (by rewrite length_insert).
  - rewrite list_lookup_insert_ne by done. by rewrite list_lookup_insert_eq.
  - by rewrite !list_lookup_insert_ne by done.
Qed.

Lemma swap_is_Some i j l :
  (i < length l)%nat → (j < length l)%nat →
  ∃ l', swap_at i j l = Some l' ∧ length l' = length l.
Proof.
  intros [x Hx]%lookup_lt_is_Some_2 [y Hy]%lookup_lt_is_Some_2.
  rewrite (swap_at_ok _ _ _ _ _ Hx Hy). eexists. split; [done|]. by rewrite !length_insert.
Qed.

(** Swaps from the right end move a block to the right. *)
Lemma shift_right src k m l :
  (src + k + m <= length l)%nat →
  wp (foldM (λ o row, swap_at (src + k + o) (src + o) row) (reverse (seq 0 m)) l) (λ l',
    length l' = length l ∧ (∀ j, (j < src)%nat → l' !! j = l !! j) ∧
    ∀ o, (o < m)%nat → l' !! (src + k + o)%nat = l !! (src + o)%nat).
Proof.
  intros Hm.
  pose (I := λ (i : nat) l', length l' = length l ∧
    (∀ j, (j < src + (m - i))%nat → l' !! j = l !! j) ∧
    ∀ o, (m - i <= o < m)%nat → l' !! (src + k + o)%nat = l !! (src + o)%nat).
  eapply wp_mono; [apply (wp_foldM _ _ I)|].
  - split; [done|]. split; [done|]. intros o Ho. lia.
  - intros i a row Ha (Hlen & Hlow & Hhigh).
    pose proof (lookup_lt_Some _ _ _ Ha) as Hi. rewrite length_reverse, length_seq in Hi.
    rewrite reverse_lookup in Ha by (rewrite length_seq; done).
    rewrite length_seq in Ha. apply lookup_seq in Ha as [-> _]. simpl.
    destruct (swap_is_Some (src + k + (m - S i)) (src + (m - S i)) row) as (row' & E & Hlen');
      [lia..|].
    rewrite E. simpl. pose proof (λ j, swap_lookup _ _ _ _ j E) as Hl.
    split; [lia|]. split.
    + intros j Hj. rewrite Hl. repeat case_decide; [lia|lia|]. apply Hlow. lia.
    + intros o Ho. rewrite Hl. repeat case_decide; try lia.
      * rewrite <- Hlow by lia. f_equal. lia.
      * replace o with (m - S i)%nat by lia. apply Hlow. lia.
      * apply Hhigh. lia.
  - intros l' (Hlen & Hlow & Hhigh). rewrite length_reverse, length_seq in *.
    split; [done|]. split; intros; [apply Hlow|apply Hhigh]; lia.
Qed.

(** Shifting by one place brings the last element to the front of the block. *)
Lemma shift_right_first src m l :
  (src + 1 + m <= length l)%nat →
  wp (foldM (λ c row, swap_at (c + 1) c row) (reverse (seq src m)) l) (λ l',
    length l' = length l ∧
    ∀ j, l' !! j = if decide (j = src) then l !! (src + m)%nat
                   else if decide (src < j <= src + m)%nat then l !! (j - 1)%nat else l !! j).
Proof.
  intros Hm. induction m as [|m IH] using nat_ind in l, Hm |- *.
  { split; [done|]. intros j. repeat case_decide; subst; try lia; f_equal; lia. }
  rewrite seq_S, reverse_app. cbn [app reverse rev_append foldM].
  change (reverse [(src + m)%nat]) with [(src + m)%nat]. cbn [app foldM].
  destruct (swap_is_Some (src + m + 1) (src + m) l) as (l1 & E & Hlen); [lia..|].
  rewrite E. cbn [mbind option_bind]. wp_call (IH l1); [lia|].
  intros l' [Hlen' Hl']. split; [lia|]. intros j. rewrite Hl'. pose proof (λ j, swap_lookup _ _ _ _ j E) as Hs.
  rewrite !Hs. repeat case_decide; subst; try lia; f_equal; lia.
Qed.

(** Swaps from the left end move a block to the left. *)
Lemma shift_left src k m l :
  (src + k + m <= length l)%nat →
  wp (foldM (λ o row, swap_at (src + o) (src + k + o) row) (seq 0 m) l) (λ l',
    length l' = length l ∧ (∀ j, (j < src)%nat → l' !! j = l !! j) ∧
    ∀ o, (o < m)%nat → l' !! (src + o)%nat = l !! (src + k + o)%nat).
Proof.
  intros Hm.
  pose (I := λ (i : nat) l', length l' = length l ∧ (∀ j, (j < src)%nat → l' !! j = l !! j) ∧
    (∀ j, (src + k + i <= j)%nat → l' !! j = l !! j) ∧
    ∀ o, (o < i)%nat → l' !! (src + o)%nat = l !! (src + k + o)%nat).
  eapply wp_mono; [apply (wp_foldM _ _ I)|].
  - split; [done|]. split; [done|]. split; [done|]. intros o Ho. lia.
  - intros i a row Ha (Hlen & Hlow & Hhigh & Hdone). apply lookup_seq in Ha as [-> Hi]. simpl.
    destruct (swap_is_Some (src + i) (src + k + i) row) as (row' & E & Hlen'); [lia..|].
    rewrite E. simpl. pose proof (λ j, swap_lookup _ _ _ _ j E) as Hl.
    split; [lia|]. split; [|split].
    + intros j Hj. rewrite Hl. repeat case_decide; [lia|lia|]. by apply Hlow.
    + intros j Hj. rewrite Hl. repeat case_decide; [lia|lia|]. apply Hhigh. lia.
    + intros o Ho. rewrite Hl. repeat case_decide; try lia.
      * replace (src + i)%nat with (src + k + o)%nat by lia. apply Hhigh. lia.
      * replace o with i by lia. apply Hhigh. lia.
      * apply Hdone. lia.
  - intros l' (Hlen & Hlow & _ & Hdone). rewrite length_seq in *. done.
Qed.
End Shifts.

(** ** Editing the line of the cursor *)

Section Editing.
Context `{External}.
Context {L C : nat}.
Implicit Types (t : Term.t) (p q : Point).

(** The cell a character is stored as, and an erased one. *)
Definition written (ch : char) t : Cell :=
  let template := Cursor.template (Term.cursor t) in
  mkCell (charset_map (Charsets.index (Term.active_charset t) (Cursor.charsets (Term.cursor t))) ch)
    (fg template) (bg template) (flags template) (extra template).
Definition erased t : Cell := Cell.from_color (bg (Cursor.template (Term.cursor t))).

(** The cells of the line of the cursor. *)
Definition cursor_cells t : option (list Cell) :=
  Row.inner <$> grid_row (Term.grid t) (line (Term.cursor_point t)).

(** [t'] differs from [t] in the cells of the line of the cursor and in the damage. *)
Definition edited t t' : Prop :=
  Grid.cursor (Term.grid t') = Grid.cursor (Term.grid t) ∧
  ∀ l, topmost_line (Term.grid t) <= l < Z.of_nat L → l ≠ line (Term.cursor_point t) →
    grid_row (Term.grid t') l = grid_row (Term.grid t) l.

(** The shape of [insert_blank], [delete_chars] and [erase_chars]: damage, then an edit. *)
Lemma edit_line_effect b t left right (f : (Cell → Cell) → Row.t Cell → option (Row.t Cell))
    (Q : list Cell → list Cell → Prop) :
  term_ok L C b t →
  (∀ r, row_safe C r → wp (f (λ _, erased t) r) (λ r', row_safe C r' ∧
    Q (Row.inner r) (Row.inner r'))) →
  wp (t' ← Term.damage_line (as_usize (line (Term.cursor_point t))) left right t;
      Term.upd_grid (Grid.index_mut (line (Term.cursor_point t)) (f (Handler.fill t'))) t')
    (λ t', edited t t' ∧ ∃ cells cells', cursor_cells t = Some cells ∧ length cells = C ∧
      cursor_cells t' = Some cells' ∧ Q cells cells').
Proof.
  intros Ht Hf. pose proof (term_facts _ _ _ _ Ht) as (_ & _ & _ & _ & _ & HS & Hl & Hc).
  unfold Term.damage_line, TermDamageState.damage_line.
  destruct (lookup_lt_is_Some_2 (TermDamageState.lines (Term.damage t))
    (as_usize (line (Term.cursor_point t)))) as [d Hd].
  { rewrite (t_damage _ _ _ _ Ht). casts. lia. }
  rewrite (update_at_ok _ _ _ _ Hd). mrun. unfold Term.upd_grid. wp_step.
  pose proof (topmost_screen _ _ _ (t_grid _ _ _ _ Ht)).
  wp_call (index_mut_rows_ok (Term.grid t) (line (Term.cursor_point t)) (f (λ _, erased t))
    (t_grid _ _ _ _ Ht)); [lia| |].
  { intros r Hr. wp_call (Hf r Hr). by intros r' [? _]. }
  intros g' (Hg' & Eg & Etop & (r & r' & Er & Hr & Ef & Er') & Hother). mrun.
  pose proof (Hf r Hr) as Hwp. rewrite Ef in Hwp. destruct Hwp as [_ HQ]. split.
  { split; [by rewrite Eg|]. exact Hother. }
  exists (Row.inner r), (Row.inner r'). unfold cursor_cells, Term.cursor_point, Term.cursor.
  rewrite Eg. simpl. rewrite <- (Eg : g' = _). unfold Term.cursor_point, Term.cursor in *.
  rewrite Er. split; [done|]. split; [apply Hr|]. by rewrite Er'.
Qed.

Lemma full_row_ok (f : list Cell → option (list Cell)) (Q : list Cell → list Cell → Prop) r :
  row_safe C r → (∀ l, length l = C → wp (f l) (λ l', length l' = C ∧ Q l l')) →
  wp (Row.index_mut_full f r) (λ r', row_safe C r' ∧ Q (Row.inner r) (Row.inner r')).
Proof.
  intros Hr Hf. pose proof (Hf (Row.inner r) (safe_len _ _ Hr)) as Hwp.
  pose proof (inv_full (P:=row_safe C) f r Hr) as Hsafe.
  unfold Row.index_mut_full in *. destruct (f (Row.inner r)) as [l'|]; [|done]. simpl in *.
  split; [apply Hsafe|]; apply Hwp.
Qed.

(** Lists by their elements. *)
Lemma fill_lookup a b n (x : Cell) (l : list Cell) :
  length l = n → (a <= b <= n)%nat →
  wp (update_slice a b (λ _, x) l) (λ l', length l' = n ∧
    ∀ i, l' !! i = if (a <=? i)%nat && (i <? b)%nat then Some x else l !! i).
Proof.
  intros Hl Hab. pose proof (length_update_slice a b (λ _, x) l) as Hlen.
  pose proof (λ l', lookup_update_slice a b (λ _, x) l l') as Hlook.
  rewrite update_slice_ok in * by lia. simpl. split; [by rewrite (Hlen _ eq_refl)|].
  intros i. rewrite (Hlook _ i eq_refl). case_match eqn:E; [|done]. bools.
  destruct (lookup_lt_is_Some_2 l i) as [y ->]; [lia|done].
Qed.

Lemma insert_blank_effect b t n :
  term_ok L C b t →
  wp (Handler.insert_blank n t) (λ t', edited t t' ∧ ∃ cells, cursor_cells t = Some cells ∧
    let c := column (Term.cursor_point t) in
    let k := Nat.min n (C - c) in
    cursor_cells t' = Some (take c cells ++ replicate k (erased t)
                            ++ take (C - c - k) (drop c cells))).
Proof.
  intros Ht. pose proof (term_facts _ _ _ _ Ht) as (EL & EC & EI & HL & HC & HS & Hl & Hc).
  unfold Handler.insert_blank. cbv zeta. rewrite EC.
  set (c := column (Term.cursor_point t)) in *. wp_step. wp_step.
  set (k := Nat.min n (C - c)). wp_step. wp_step. wp_step. wp_step.
  pose (Q := λ cells cells' : list Cell, cells' = take c cells ++ replicate k (erased t)
    ++ take (C - c - k) (drop c cells)).
  wp_call (edit_line_effect b t 0 (C - 1) (λ fill, Row.index_mut_full (λ row,
      foldM (λ o row, swap_at (c + k + o) (c + o) row) (reverse (seq 0 (C - (c + k)))) row ≫=
        λ row, update_slice c (c + k) fill row))
    Q Ht).
  - intros r Hr. apply (full_row_ok _ Q); [done|]. intros l Hlen.
    wp_step. wp_call (shift_right c k (C - (c + k)) l); [lia|].
    intros l1 (Hlen1 & Hlow & Hhigh).
    wp_call (fill_lookup c (c + k) C (erased t) l1); [lia|lia|].
    intros l2 [Hlen2 Hfill]. split; [done|]. unfold Q. apply list_eq. intros i. rewrite Hfill.
    assert (length (take c l) = c) as Et by (rewrite length_take; lia).
    destruct (decide (i < c)%nat) as [Hi|Hi].
    { rewrite (proj2 (Nat.leb_gt c i)) by lia. simpl. rewrite Hlow by done.
      rewrite lookup_app_l by lia. by rewrite lookup_take_lt by done. }
    rewrite (proj2 (Nat.leb_le c i)) by lia. simpl. rewrite lookup_app_r by lia. rewrite Et.
    destruct (Nat.ltb_spec i (c + k)) as [Hi2|Hi2].
    { rewrite lookup_app_l by (rewrite length_replicate; lia). symmetry.
      apply lookup_replicate. split; [done|lia]. }
    rewrite lookup_app_r by (rewrite length_replicate; lia). rewrite length_replicate.
    destruct (decide (i < C)%nat) as [HiC|HiC].
    + replace i with (c + k + (i - c - k))%nat at 1 by lia. rewrite Hhigh by lia.
      rewrite lookup_take_lt by lia. rewrite lookup_drop. f_equal; lia.
    + rewrite (lookup_ge_None_2 l1) by lia. symmetry. apply lookup_ge_None_2.
      rewrite length_take, length_drop. lia.
  - intros t' (He & cells & cells' & E1 & _ & E2 & ->). split; [done|]. by exists cells.
Qed.

Lemma delete_chars_effect b t n :
  term_ok L C b t → (n <= C - column (Term.cursor_point t))%nat →
  wp (Handler.delete_chars n t) (λ t', edited t t' ∧ ∃ cells, cursor_cells t = Some cells ∧
    let c := column (Term.cursor_point t) in
    cursor_cells t' = Some (take c cells ++ drop (c + n) cells ++ replicate n (erased t))).
Proof.
  intros Ht Hn. pose proof (term_facts _ _ _ _ Ht) as (EL & EC & EI & HL & HC & HS & Hl & Hc).
  unfold Handler.delete_chars. cbv zeta. rewrite EC.
  set (c := column (Term.cursor_point t)) in *.
  replace (Nat.min n C) with n by lia. wp_step. wp_step.
  set (e := Nat.min (c + n) (C - 1)). wp_step. wp_step.
  pose (Q := λ cells cells' : list Cell, cells' = take c cells ++ drop (c + n) cells
    ++ replicate n (erased t)).
  wp_call (edit_line_effect b t 0 (C - 1) (λ fill, Row.index_mut_full (λ row,
      foldM (λ o row, swap_at (c + o) (e + o) row) (seq 0 (C - e)) row ≫=
        λ row, usize_sub C n ≫= λ a, update_slice a (length row) fill row))
    Q Ht).
  - intros r Hr. apply (full_row_ok _ Q); [done|]. intros l Hlen.
    wp_step. pose proof (shift_left c (e - c) (C - e) l) as Hs.
    replace (c + (e - c))%nat with e in Hs by lia.
    wp_call Hs; [lia|]. intros l1 (Hlen1 & Hlow & Hhigh).
    wp_step. wp_step. rewrite Hlen1, Hlen.
    wp_call (fill_lookup (C - n) C C (erased t) l1); [lia|lia|].
    intros l2 [Hlen2 Hfill]. split; [done|]. unfold Q. apply list_eq. intros i. rewrite Hfill.
    assert (length (take c l) = c) as Et by (rewrite length_take; lia).
    destruct (decide (i < c)%nat) as [Hi|Hi].
    { rewrite (proj2 (Nat.leb_gt (C - n) i)) by lia. simpl. rewrite Hlow by done.
      rewrite lookup_app_l by lia. by rewrite lookup_take_lt by done. }
    rewrite lookup_app_r by lia. rewrite Et.
    destruct (decide (i < C - n)%nat) as [Hi2|Hi2].
    { rewrite (proj2 (Nat.leb_gt (C - n) i)) by lia. simpl.
      rewrite lookup_app_l by (rewrite length_drop; lia). rewrite lookup_drop.
      replace i with (c + (i - c))%nat at 1 by lia. rewrite Hhigh by lia. f_equal; lia. }
    rewrite (proj2 (Nat.leb_le (C - n) i)) by lia. simpl.
    rewrite lookup_app_r by (rewrite length_drop; lia). rewrite length_drop.
    destruct (Nat.ltb_spec i C) as [HiC|HiC].
    + symmetry. apply lookup_replicate. split; [done|lia].
    + rewrite (lookup_ge_None_2 l1) by lia. symmetry. apply lookup_ge_None_2.
      rewrite length_replicate. lia.
  - intros t' (He & cells & cells' & E1 & _ & E2 & ->). split; [done|]. by exists cells.
Qed.

Lemma erase_chars_effect b t n :
  term_ok L C b t →
  wp (Handler.erase_chars n t) (λ t', edited t t' ∧ ∃ cells, cursor_cells t = Some cells ∧
    let c := column (Term.cursor_point t) in
    let k := Nat.min n (C - c) in
    cursor_cells t' = Some (take c cells ++ replicate k (erased t) ++ drop (c + k) cells)).
Proof.
  intros Ht. pose proof (term_facts _ _ _ _ Ht) as (EL & EC & EI & HL & HC & HS & Hl & Hc).
  unfold Handler.erase_chars. cbv zeta. rewrite EC.
  set (c := column (Term.cursor_point t)) in *. set (k := Nat.min n (C - c)).
  replace (Nat.min (c + n) C) with (c + k)%nat by lia.
  wp_call (edit_line_effect b t c (c + k) (λ fill, Row.index_mut_range c (c + k) fill)
    (λ cells cells', cells' = take c cells ++ replicate k (erased t) ++ drop (c + k) cells) Ht).
  - intros r Hr. pose proof (inv_range (P:=row_safe C) c (c + k) (λ _, erased t) r Hr) as Hs.
    unfold Row.index_mut_range in *. pose proof (safe_len _ _ Hr) as Hlen. unfold Row.len in Hlen.
    rewrite update_slice_ok in * by lia. simpl in *. split; [apply Hs; lia|]. f_equal. f_equal.
    replace (c + k - c)%nat with k by lia.
    rewrite (const_fmap (λ _ : Cell, erased t) _ (erased t)) by done.
    by rewrite length_take, length_drop, Nat.min_l by lia.
  - intros t' (He & cells & cells' & E1 & _ & E2 & ->). split; [done|]. by exists cells.
Qed.
End Editing.

(** ** Damage and line feeds *)

Section Lines.
Context `{External}.
Context {L C : nat}.
Implicit Types (t : Term.t).

(** The damage is all that changes. *)
Lemma damage_line_only b t l left right :
  term_ok L C b t → (l < L)%nat →
  wp (Term.damage_line l left right t) (λ t', term_ok L C b t' ∧ ∃ d, t' = Term.set_damage d t).
Proof.
  intros Ht Hl. pose proof (damage_line_ok _ _ _ _ l left right Ht Hl) as Hwp.
  unfold Term.damage_line in *. destruct (TermDamageState.damage_line _ _ _ _) as [d|]; [|done].
  mrun. split; [apply Hwp|]. by exists d.
Qed.

Lemma damage_cursor_only b t :
  term_ok L C b t →
  wp (Term.damage_cursor t) (λ t', term_ok L C b t' ∧ ∃ d, t' = Term.set_damage d t).
Proof.
  intros Ht. pose proof (damage_cursor_ok _ _ _ _ Ht) as Hwp.
  unfold Term.damage_cursor in *. destruct (TermDamageState.damage_point _ _) as [d|]; [|done].
  mrun. split; [apply Hwp|]. by exists d.
Qed.

(** The cursor moves one line down, or the region scrolls, or nothing happens. *)
Lemma linefeed_effect b t :
  term_ok L C b t → b + Z.of_nat L <= 1073741823 →
  let next := line (Term.cursor_point t) + 1 in
  wp (Term.linefeed t) (λ t',
    if next =? (Term.scroll_region t).2 then
      Grid.scroll_up (Term.scroll_region t) (Nat.min 1 (Z.to_nat ((Term.scroll_region t).2
        - (Term.scroll_region t).1))) (Term.grid t) = Some (Term.grid t') ∧
      Term.cursor_point t' = Term.cursor_point t
    else if next <? Z.of_nat L then
      ∃ d, t' = Term.set_damage d (Term.set_cursor_line next t)
    else t' = t).
Proof.
  intros Ht Hb next. pose proof (term_facts _ _ _ _ Ht) as (EL & EC & EI & HL & HC & HS & Hl & Hc).
  pose proof (t_region _ _ _ _ Ht) as (Hr1 & Hr2 & Hr3).
  pose proof (scroll_up_relative_ok _ _ _ _ (Term.scroll_region t).1 1 Ht Hb ltac:(lia)
    ltac:(done)) as Hok.
  unfold Term.linefeed. wp_step. wp_step. fold next. case_match eqn:E; bools.
  { unfold Term.scroll_up, Term.scroll_up_relative in *.
    destruct (Term.scroll_region t) as [start end_]. cbn [fst snd] in *. revert Hok.
    rewrite i32_sub_ok by lia. mrun. rewrite as_usize_small by lia.
    set (k := Nat.min 1 (Z.to_nat (end_ - start))).
    pose proof (rotate_selection_ok _ _ b t start end_ (as_i32 k) Ht) as Hrot.
    rewrite (as_i32_small k) in * by lia.
    specialize (Hrot ltac:(lia) ltac:(lia) ltac:(lia) ltac:(lia)).
    destruct (Term.rotate_selection _ _ _) as [t1|]; [|done]. mrun.
    destruct Hrot as (_ & _ & Eg). unfold Term.upd_grid. rewrite Eg.
    destruct (Grid.scroll_up (start, end_) k (Term.grid t)) as [g|]; [|done]. mrun.
    match goal with |- wp (?m ≫= _) _ → _ => destruct m as [t2|] eqn:E2 end;
      [|done]. mrun. intros [_ [Hcu _ _]].
    assert (Term.grid t2 = g) as <-.
    { revert E2. case_match; [|by intros [= <-]].
      destruct (Line.sub_usize _ _); [|done]. mrun. by intros [= <-]. }
    split; [done|]. unfold Term.cursor_point, Term.cursor. by rewrite Hcu. }
  rewrite EL, EI. case_match eqn:E2; [|done]. bools.
  wp_step. wp_call (damage_cursor_only _ _ Ht). intros t1 (Ht1 & d & ->).
  change (Term.cursor_point (Term.set_damage d t)) with (Term.cursor_point t). wp_step. wp_step.
  assert (term_ok L C b (Term.set_cursor_line next (Term.set_damage d t))) as Ht2.
  { apply set_cursor_line_ok; [done|]. unfold next in *. lia. }
  wp_call (damage_cursor_only _ _ Ht2). intros t2 (_ & d2 & ->). by exists d2.
Qed.
End Lines.

(** ** Characters *)

Section Characters.
Context `{External}.
Context {L C : nat}.
Implicit Types (t : Term.t) (p q : Point).

(** The cell at a point of the buffer. *)
Definition cell_at p t : option Cell := Grid.index_point p (Term.grid t).

(** Every cell except those of [ps] is kept. *)
Definition kept_except (ps : list Point) t t' : Prop :=
  ∀ q, in_grid (Term.grid t) q → q ∉ ps → cell_at q t' = cell_at q t.

Definition not_wide (x : option Cell) : Prop :=
  from_option (λ x, Flags.intersects (flags x) (N.lor Flags.WIDE_CHAR Flags.WIDE_CHAR_SPACER)
                    = false) False x.

(** Only the rows of the grid change. *)
Definition rows_only t t' : Prop :=
  ∃ raw, t' = Term.set_grid (Grid.set_raw raw (Term.grid t)) t ∧
    topmost_line (Term.grid t') = topmost_line (Term.grid t).

Lemma write_effect b t ch :
  term_ok L C b t → not_wide (cell_at (Term.cursor_point t) t) →
  wp (Term.write_at_cursor ch t) (λ t', term_ok L C b t' ∧ rows_only t t' ∧
    cell_at (Term.cursor_point t) t' = Some (written ch t) ∧
    kept_except [Term.cursor_point t] t t').
Proof.
  intros Ht Hw. pose proof (term_facts _ _ _ _ Ht) as (_ & _ & _ & _ & _ & HS & Hl & Hc).
  pose proof (topmost_screen _ _ _ (t_grid _ _ _ _ Ht)).
  unfold Term.write_at_cursor, cell_at in *. cbv zeta.
  destruct (Grid.index_point (Term.cursor_point t) (Term.grid t)) as [x|] eqn:Ex; [|done].
  simpl in Hw. mrun. rewrite Hw. mrun. unfold Term.upd_grid, Grid.cursor_cell. wp_step.
  wp_call (index_mut_point_cells (Term.grid t) (Term.cursor_point t) _ (t_grid _ _ _ _ Ht));
    [lia|done|].
  intros g (Hg & Eg & Etop & (y & _ & Ey) & Hother). mrun. split; [by apply set_grid_ok|].
  split; [exists (Grid.raw g); split; [by rewrite <- Eg|done]|]. split; [exact Ey|].
  intros q Hq Hne. apply Hother; [done|]. intros ->. apply Hne. by left.
Qed.

(** Where the cursor is after a character whose last cell is at [p], and whether the next one wraps. *)
Definition advanced p (waiting : bool) t' : Prop :=
  Term.cursor_point t' = (if (column p + 1 <? C)%nat then Pt (line p) (column p + 1)%nat else p) ∧
  Cursor.input_needs_wrap (Term.cursor t') = waiting || negb (column p + 1 <? C)%nat.

Lemma advance_effect b t p :
  term_ok L C b t → Term.cursor_point t = p →
  advanced p (Cursor.input_needs_wrap (Term.cursor t)) (Handler.advance_cursor t) ∧
  ∀ q, cell_at q (Handler.advance_cursor t) = cell_at q t.
Proof.
  intros Ht Ep. pose proof (term_facts _ _ _ _ Ht) as (_ & EC & _).
  unfold Handler.advance_cursor, advanced. rewrite EC, Ep.
  unfold Term.cursor_point in Ep.
  case_match; (split; [|done]); unfold Term.cursor_point, Term.cursor in *; simpl;
    unfold Term.cursor; rewrite ?Ep, ?orb_true_r, ?orb_false_r; by destruct p.
Qed.

(** Insert mode moves the cells from the cursor on by one column. *)
Definition shifts t : bool :=
  Term.has_mode TermMode.INSERT t && (column (Term.cursor_point t) + 1 <? C)%nat.
(** What is at a point before the character is written; at the cursor, what it replaces. *)
Definition shifted t q : option Cell :=
  let p := Term.cursor_point t in
  if shifts t && (line q =? line p) && (column p <=? column q)%nat then
    if decide (column q = column p) then cell_at (Pt (line p) (C - 1)%nat) t
    else cell_at (Pt (line p) (column q - 1)%nat) t
  else cell_at q t.

Lemma input_shift_effect b t :
  term_ok L C b t →
  wp (Handler.input_shift 1 t) (λ t', term_ok L C b t' ∧ rows_only t t' ∧
    ∀ q, in_grid (Term.grid t) q → cell_at q t' = shifted t q).
Proof.
  intros Ht. pose proof (input_shift_ok (L:=L) (C:=C) b t 1 Ht) as Hok.
  pose proof (term_facts _ _ _ _ Ht) as (_ & EC & _ & _ & _ & HS & Hl & Hc).
  pose proof (topmost_screen _ _ _ (t_grid _ _ _ _ Ht)) as Htop.
  unfold Handler.input_shift, shifted, shifts in *. cbv zeta in *. rewrite EC in *.
  set (p := Term.cursor_point t) in *.
  destruct (Term.has_mode TermMode.INSERT t && (column p + 1 <? C)%nat) eqn:E; cbn [andb].
  2: { split; [done|]. split; [|done]. exists (Grid.raw (Term.grid t)). split; [|done].
       destruct t as [???[]]. done. }
  bools. unfold Term.upd_grid in *.
  pose proof (index_mut_rows_ok (L:=L) (C:=C) (Term.grid t) (line p) (Row.index_mut_full (λ cells,
      foldM (λ c cells, swap_at (c + 1) c cells) (reverse (seq (column p) (C - 1 - column p))) cells))
    (t_grid _ _ _ _ Ht) ltac:(lia)) as Hrows.
  match type of Hrows with ?P → _ => assert P as Hr end.
  { intros r Hr. apply (inv_full (P:=row_safe C)); [done|].
    apply (swaps_ok (λ c, c + 1)%nat (λ c, c)); [apply Hr|].
    intros a Ha%elem_of_reverse%elem_of_seq. lia. }
  specialize (Hrows Hr). destruct (Grid.index_mut _ _ _) as [g'|]; [|done]. mrun.
  destruct Hrows as (Hg' & Eg & Etop & (r & r' & Er & Hrs & Ef & Er') & Hother). mrun.
  split; [apply Hok|]. split; [exists (Grid.raw g'); split; [by rewrite <- Eg|done]|].
  intros q [Hq Hqc]. unfold cell_at. simpl.
  pose proof (t_grid _ _ _ _ Ht) as [Hgo El Ec]. pose proof Hg' as [Hgo' El' Ec'].
  dims (grid_dims _ Hgo). dims (grid_dims g' Hgo'). simpl in *.
  pose proof (shift_right_first (column p) (C - 1 - column p) (Row.inner r)) as Hs.
  rewrite (safe_len _ _ Hrs : length (Row.inner r) = C) in Hs. specialize (Hs ltac:(lia)).
  unfold Row.index_mut_full in Ef. destruct (foldM _ _ (Row.inner r)) as [l'|]; [|done].
  mrun. injection Ef as <-. destruct Hs as [_ Hs].
  rewrite !index_point_row by (done || simpl; lia). simpl.
  destruct (Z.eqb_spec (line q) (line p)) as [Elq|Elq].
  - rewrite Elq, Er, Er'. simpl. rewrite Hs.
    repeat case_decide; repeat case_match; bools; simpl; try lia; try (f_equal; lia); done.
  - cbn [andb]. rewrite Hother by (done || lia). done.
Qed.

(** The state after the wrap at the end of a line: the last cell is marked, and the cursor is at the
    beginning of the next line, for which the region scrolls at its end. *)
Definition wrapped t t0 : Prop :=
  if Term.has_mode TermMode.LINE_WRAP t then
    Cursor.input_needs_wrap (Term.cursor t0) = false ∧
    ∃ g, Grid.cursor_cell (flags_insert Flags.WRAPLINE) (Term.grid t) = Some g ∧
      let l := line (Term.cursor_point t) in
      let region := Term.scroll_region t in
      if l + 1 =? region.2 then
        ∃ g', Grid.scroll_up region (Nat.min 1 (Z.to_nat (region.2 - region.1))) g = Some g' ∧
          Grid.raw (Term.grid t0) = Grid.raw g' ∧ Term.cursor_point t0 = Pt l 0%nat
      else
        Grid.raw (Term.grid t0) = Grid.raw g ∧
        Term.cursor_point t0 = Pt (if l + 1 <? Z.of_nat L then l + 1 else l) 0%nat
  else t0 = t.

(** Before the cursor goes to the first column. *)
Definition wrapped_to (b : Z) t (g : Grid.t Cell) t2 : Prop :=
  term_ok L C b t2 ∧
  let l := line (Term.cursor_point t) in
  let region := Term.scroll_region t in
  if l + 1 =? region.2 then
    Grid.scroll_up region (Nat.min 1 (Z.to_nat (region.2 - region.1))) g = Some (Term.grid t2) ∧
    line (Term.cursor_point t2) = l
  else Grid.raw (Term.grid t2) = Grid.raw g ∧
    line (Term.cursor_point t2) = if l + 1 <? Z.of_nat L then l + 1 else l.

Lemma wrapline_effect b t :
  term_ok L C b t → b + Z.of_nat L <= 1073741823 →
  wp (Term.wrapline t) (λ t0, term_ok L C (b + Z.of_nat L) t0 ∧ Term.mode t0 = Term.mode t ∧ wrapped t t0).
Proof.
  intros Ht Hb. pose proof (wrapline_ok L C b t Ht Hb) as Hok.
  pose proof (term_facts _ _ _ _ Ht) as (_ & EC & EI & HL & HC & HS & Hl & Hc).
  pose proof (t_region _ _ _ _ Ht) as (Hr1 & Hr2 & Hr3).
  unfold Term.wrapline, wrapped in *.
  destruct (Term.has_mode TermMode.LINE_WRAP t); cbn [negb] in *; [|by split; [apply Hok|split]].
  unfold Term.upd_grid in *.
  pose proof (index_mut_point_cells (L:=L) (C:=C) (Term.grid t) (Term.cursor_point t)
    (flags_insert Flags.WRAPLINE) (t_grid _ _ _ _ Ht)) as Hcell.
  pose proof (topmost_screen _ _ _ (t_grid _ _ _ _ Ht)).
  specialize (Hcell ltac:(lia) Hc). unfold Grid.cursor_cell in *.
  change (Cursor.point (Grid.cursor (Term.grid t))) with (Term.cursor_point t) in *.
  destruct (Grid.index_mut_point _ _ _) as [g|]; [|done]. cbn [mbind option_bind wp] in Hcell, Hok |- *.
  destruct Hcell as (Hg & Eg & _).
  assert (term_ok L C b (Term.set_grid g t)) as Ht1 by by apply set_grid_ok.
  assert (Term.cursor (Term.set_grid g t) = Term.cursor t) as Ec by (rewrite Eg; done).
  set (t1 := Term.set_grid g t) in *.
  assert (Term.cursor_point t1 = Term.cursor_point t) as Ecp by (unfold Term.cursor_point; by rewrite Ec).
  eapply wp_mono; [apply wp_conj; [exact Hok|]|intros t0 [(Ht0 & Hm0 & _) Hw]; exact (conj Ht0 (conj Hm0 Hw))].
  clear Hok. wp_step. rewrite Ecp. wp_step. wp_step.
  apply wp_mono with (wrapped_to (b + Z.of_nat L) t g).
  - change (Term.scroll_region t1) with (Term.scroll_region t).
    case_match eqn:E; bools.
    + pose proof (linefeed_effect b t1 Ht1 Hb) as Hlf. rewrite Ecp in Hlf.
      change (Term.scroll_region t1) with (Term.scroll_region t) in Hlf.
      eapply wp_mono; [apply wp_conj; [apply (linefeed_ok L C b t1 Ht1 Hb)|exact Hlf]|].
      intros t2 [[Ht2 _] H2]. split; [done|]. cbv zeta in H2 |- *.
      destruct (line (Term.cursor_point t) + 1 =? (Term.scroll_region t).2).
      * destruct H2 as [H2 H3]. split; [exact H2|by rewrite H3].
      * destruct (line (Term.cursor_point t) + 1 <? Z.of_nat L).
        -- by destruct H2 as [d ->].
        -- subst t2. by rewrite Ecp.
    + wp_step. wp_call (damage_cursor_only (L:=L) (C:=C) b t1 Ht1). intros t2 (Ht2 & d & ->).
      wp_step. change (Term.cursor_point (Term.set_damage d t1)) with (Term.cursor_point t1). rewrite Ecp.
      wp_step. wp_step. split.
      * eapply term_ok_weaken; [|apply set_cursor_line_ok; [exact Ht2|lia]]. lia.
      * cbv zeta. rewrite (proj2 (Z.eqb_neq _ _)) by lia. rewrite (proj2 (Z.ltb_lt _ _)) by lia. by split.
  - intros t2 [Ht2 H2]. cbv zeta in H2.
    match goal with |- wp (Term.damage_cursor ?x) _ => assert (term_ok L C (b + Z.of_nat L) x) as Ht3 end.
    { apply set_cursor_here_ok; [apply set_cursor_column_ok; [done|lia]|done]. }
    wp_call (damage_cursor_only (L:=L) (C:=C) _ _ Ht3). intros t3 (_ & d & ->). split; [done|].
    exists g. split; [done|]. cbv zeta.
    destruct (line (Term.cursor_point t) + 1 =? (Term.scroll_region t).2); destruct H2 as [H2 Hline].
    + exists (Term.grid t2). split; [done|]. split; [done|]. unfold Term.cursor_point, Term.cursor in *.
      simpl. by rewrite <- Hline.
    + split; [done|]. unfold Term.cursor_point, Term.cursor in *. simpl. by rewrite <- Hline.
Qed.

(** A character of width one, when the line needs no wrap. *)
Lemma input_here_effect b t ch :
  term_ok L C b t → not_wide (shifted t (Term.cursor_point t)) →
  wp (t ← Handler.input_shift 1 t; t ← Term.write_at_cursor ch t; Some (Handler.advance_cursor t))
    (λ t', cell_at (Term.cursor_point t) t' = Some (written ch t) ∧
      (∀ q, in_grid (Term.grid t) q → q ≠ Term.cursor_point t → cell_at q t' = shifted t q) ∧
      advanced (Term.cursor_point t) (Cursor.input_needs_wrap (Term.cursor t)) t').
Proof.
  intros Ht Hw. pose proof (term_facts _ _ _ _ Ht) as (_ & _ & _ & _ & _ & HS & Hl & Hc).
  pose proof (topmost_screen _ _ _ (t_grid _ _ _ _ Ht)).
  destruct (t_grid _ _ _ _ Ht) as [Hg Elg Ecg]. dims (grid_dims _ Hg).
  assert (in_grid (Term.grid t) (Term.cursor_point t)) as Hp by (split; simpl in *; lia).
  wp_step. wp_call (input_shift_effect b t Ht). intros t1 (Ht1 & (raw1 & -> & Etop) & Hshift).
  wp_step. set (t1 := Term.set_grid _ _) in *.
  wp_call (write_effect b t1 ch Ht1).
  { change (Term.cursor_point t1) with (Term.cursor_point t). by rewrite Hshift. }
  intros t2 (Ht2 & (raw2 & -> & _) & Hcell & Hkept). mrun.
  destruct (advance_effect b _ (Term.cursor_point t) Ht2 eq_refl) as [Hadv Hsame].
  split; [by rewrite Hsame|]. split; [|exact Hadv].
  intros q Hq Hne. rewrite Hsame, Hkept, Hshift; [done|done| |].
  - destruct Hq. split; [|done]. by rewrite Etop.
  - by intros ->%list_elem_of_singleton.
Qed.

Lemma input_effect b t ch :
  term_ok L C b t → b + Z.of_nat L <= 1073741823 → char_width ch = Some 1%nat →
  ∃ t0, (if Cursor.input_needs_wrap (Term.cursor t) then wrapped t t0 else t0 = t) ∧
    term_ok L C (b + Z.of_nat L) t0 ∧
    (not_wide (shifted t0 (Term.cursor_point t0)) →
     wp (Handler.input ch t) (λ t',
       cell_at (Term.cursor_point t0) t' = Some (written ch t0) ∧
       (∀ q, in_grid (Term.grid t0) q → q ≠ Term.cursor_point t0 → cell_at q t' = shifted t0 q) ∧
       advanced (Term.cursor_point t0) (Cursor.input_needs_wrap (Term.cursor t0)) t')).
Proof.
  intros Ht Hb Hch. unfold Handler.input. rewrite Hch.
  destruct (Cursor.input_needs_wrap (Term.cursor t)).
  - pose proof (wrapline_effect b t Ht Hb) as Hw. destruct (Term.wrapline t) as [t0|]; [|done].
    destruct Hw as (Ht0 & _ & Hw). exists t0. split; [done|]. split; [done|]. by eapply input_here_effect.
  - exists t. split; [done|]. split; [eapply term_ok_weaken; [|done]; lia|]. by apply (input_here_effect b).
Qed.

(** A fullwidth character: the cell with the flag [WIDE_CHAR] and its spacer. *)
Lemma input_wide_effect b t ch :
  let p := Term.cursor_point t in
  let p2 := Pt (line p) (column p + 1)%nat in
  term_ok L C b t → char_width ch = Some 2%nat →
  Cursor.input_needs_wrap (Term.cursor t) = false → Term.has_mode TermMode.INSERT t = false →
  (column p + 1 < C)%nat → not_wide (cell_at p t) → not_wide (cell_at p2 t) →
  wp (Handler.input ch t) (λ t',
    cell_at p t' = Some (written ch (Handler.add_template_flag Flags.WIDE_CHAR t)) ∧
    (∃ spacer, cell_at p2 t' = Some spacer ∧
      Flags.contains (flags spacer) Flags.WIDE_CHAR_SPACER = true) ∧
    kept_except [p; p2] t t' ∧ advanced p2 false t').
Proof.
  intros p p2 Ht Hch Hn Hi Hc Hw1 Hw2.
  pose proof (term_facts _ _ _ _ Ht) as (_ & EC & _ & _ & _ & HS & Hl & _).
  pose proof (topmost_screen _ _ _ (t_grid _ _ _ _ Ht)) as Htop.
  destruct (t_grid _ _ _ _ Ht) as [Hg Elg Ecg]. dims (grid_dims _ Hg).
  assert (in_grid (Term.grid t) p ∧ in_grid (Term.grid t) p2 ∧ p2 ≠ p) as (Hp1 & Hp2 & Hne).
  { split_and!; [split; subst p p2; simpl in *; lia..|]. subst p2. intros E.
    apply (f_equal column) in E. simpl in E. lia. }
  unfold Handler.input. rewrite Hch, Hn. mrun.
  unfold Handler.input_shift. rewrite Hi. simpl. mrun.
  unfold Handler.input_wide. rewrite EC. cbv zeta.
  rewrite (proj2 (Nat.leb_gt C (column (Term.cursor_point t) + 1))) by done.
  unfold Handler.write_flagged. wp_step. wp_step.
  set (t0 := Handler.add_template_flag Flags.WIDE_CHAR t).
  assert (term_ok L C b t0) as Ht0 by by apply set_template_ok.
  wp_call (write_effect b t0 ch Ht0 Hw1). intros t1 (Ht1 & (raw & -> & Etop1) & Hcell & Hkept).
  mrun. wp_step. wp_step.
  match goal with |- wp (Term.write_at_cursor _ ?x) _ => set (t2 := x) end.
  assert (term_ok L C b t2) as Ht2.
  { apply set_template_ok, set_cursor_column_ok; [by apply set_template_ok|exact Hc]. }
  assert (Term.cursor_point t2 = p2) as Ep2 by done.
  assert (∀ q, cell_at q t2 = cell_at q (Term.set_grid (Grid.set_raw raw (Term.grid t0)) t0))
    as Esame by done.
  wp_call (write_effect b t2 32%N Ht2).
  { rewrite Ep2, Esame, Hkept; [done|done|]. intros Hin. apply list_elem_of_singleton in Hin.
    by rewrite Hin in Hne. }
  intros t3 (Ht3 & (raw3 & -> & _) & Hcell3 & Hkept3). mrun.
  match goal with |- context [Handler.advance_cursor ?x] => set (t4 := x) end.
  assert (term_ok L C b t4) as Ht4 by by apply set_template_ok.
  destruct (advance_effect b t4 p2 Ht4) as [Hadv Hadvc]; [done|].
  assert (Cursor.input_needs_wrap (Term.cursor t4) = false) as En4 by exact Hn. rewrite En4 in Hadv.
  assert (∀ q, cell_at q t4 = cell_at q (Term.set_grid (Grid.set_raw raw3 (Term.grid t2)) t2))
    as Esame4 by done.
  assert (∀ q, in_grid (Term.grid t) q → in_grid (Term.grid t2) q) as Hin2.
  { intros q [Hq Hqc]. split; [|done]. change (topmost_line (Term.grid t2)) with
      (topmost_line (Term.grid (Term.set_grid (Grid.set_raw raw (Term.grid t0)) t0))).
    by rewrite Etop1. }
  split; [|split; [|split]].
  - rewrite Hadvc, Esame4, Hkept3.
    + rewrite Esame. exact Hcell.
    + by apply Hin2.
    + rewrite Ep2. intros Hin%list_elem_of_singleton. by rewrite Hin in Hne.
  - rewrite Hadvc, Esame4, <- Ep2, Hcell3. eexists. split; [done|]. unfold written. simpl.
    unfold Flags.contains, Flags.insert. apply N.eqb_eq. apply N.bits_inj. intros i.
    rewrite N.land_spec, N.lor_spec. by destruct (N.testbit _ i), (N.testbit _ i).
  - intros q Hq Hne'. apply not_elem_of_cons in Hne' as [Hn1 Hn2].
    rewrite Hadvc, Esame4, Hkept3; [|by apply Hin2|by rewrite Ep2].
    rewrite Esame, Hkept; [done|done|].
    intros Hin. by apply list_elem_of_singleton in Hin.
  - exact Hadv.
Qed.
End Characters.

(** * The properties *)

Section Properties.
Context `{External}.
Implicit Types (t : Term.t).


(** A fullwidth character takes two cells, itself and a marked spacer, and keeps the others. *)
Theorem input_wide_correct L C b t ch :
  let p := Term.cursor_point t in
  let p2 := Pt (line p) (column p + 1)%nat in
  term_ok L C b t → char_width ch = Some 2%nat →
  Cursor.input_needs_wrap (Term.cursor t) = false → Term.has_mode TermMode.INSERT t = false →
  (column p + 1 < C)%nat → not_wide (cell_at p t) → not_wide (cell_at p2 t) →
  wp (Handler.input ch t) (λ t',
    cell_at p t' = Some (written ch (Handler.add_template_flag Flags.WIDE_CHAR t)) ∧
    (∃ spacer, cell_at p2 t' = Some spacer ∧
      Flags.contains (flags spacer) Flags.WIDE_CHAR_SPACER = true) ∧
    kept_except [p; p2] t t' ∧ advanced (C:=C) p2 false t').
Proof. apply input_wide_effect. Qed.

(** Inserting blanks shifts the rest of the line of the cursor to the right; no other line
    changes. *)
Theorem insert_blank_correct L C b t n :
  term_ok L C b t →
  wp (Handler.insert_blank n t) (λ t', edited (L:=L) t t' ∧
    ∃ cells, cursor_cells t = Some cells ∧
    let c := column (Term.cursor_point t) in
    let k := Nat.min n (C - c) in
    cursor_cells t' = Some (take c cells ++ replicate k (erased t)
                            ++ take (C - c - k) (drop c cells))).
Proof. apply insert_blank_effect. Qed.

(** Deleting at most the characters up to the end of the line shifts the rest of the line to
    the left and fills it up with blanks; no other line changes. *)
Theorem delete_chars_correct L C b t n :
  term_ok L C b t → (n <= C - column (Term.cursor_point t))%nat →
  wp (Handler.delete_chars n t) (λ t', edited (L:=L) t t' ∧
    ∃ cells, cursor_cells t = Some cells ∧
    let c := column (Term.cursor_point t) in
    cursor_cells t' = Some (take c cells ++ drop (c + n) cells ++ replicate n (erased t))).
Proof. apply delete_chars_effect. Qed.

(** Erasing characters blanks them in place; no other line changes. *)
Theorem erase_chars_correct L C b t n :
  term_ok L C b t →
  wp (Handler.erase_chars n t) (λ t', edited (L:=L) t t' ∧
    ∃ cells, cursor_cells t = Some cells ∧
    let c := column (Term.cursor_point t) in
    let k := Nat.min n (C - c) in
    cursor_cells t' = Some (take c cells ++ replicate k (erased t) ++ drop (c + k) cells)).
Proof. apply erase_chars_effect. Qed.
End Properties.

#[local] Existing Instance Sample.external.


Lemma input_wide_correct_witness : is_Some (Handler.input 12354 TermSample.term).
Proof.
  pose proof (input_wide_correct 3 4 268435455 TermSample.term 12354 TermSample.term_is_ok
    eq_refl eq_refl eq_refl ltac:(simpl; lia) eq_refl eq_refl) as Hwp.
  destruct (Handler.input 12354 TermSample.term) as [t'|]; [by exists t'|destruct Hwp].
Defined.

Lemma insert_blank_correct_witness : is_Some (Handler.insert_blank 2 TermSample.term).
Proof.
  pose proof (insert_blank_correct 3 4 268435455 TermSample.term 2 TermSample.term_is_ok) as Hwp.
  destruct (Handler.insert_blank 2 TermSample.term) as [t'|]; [by exists t'|destruct Hwp].
Defined.

Lemma delete_chars_correct_witness : is_Some (Handler.delete_chars 2 TermSample.term).
Proof.
  pose proof (delete_chars_correct 3 4 268435455 TermSample.term 2 TermSample.term_is_ok
    ltac:(simpl; lia)) as Hwp.
  destruct (Handler.delete_chars 2 TermSample.term) as [t'|]; [by exists t'|destruct Hwp].
Defined.

Lemma erase_chars_correct_witness : is_Some (Handler.erase_chars 2 TermSample.term).
Proof.
  pose proof (erase_chars_correct 3 4 268435455 TermSample.term 2 TermSample.term_is_ok) as Hwp.
  destruct (Handler.erase_chars 2 TermSample.term) as [t'|]; [by exists t'|destruct Hwp].
Defined.

(** The text of the line of the cursor. *)
Definition cursor_text (t : Term.t) : option text := option_map (map c) (cursor_cells t).

(** Deleting more characters than there are to the right of the cursor also erases cells to its
    left: with the cursor in the third column of four, deleting three characters leaves one. *)
Example delete_chars_erases_to_the_left :
  (t ← TermSample.after [Input 97; Input 98; Input 99; Input 100; GotoCol 2; DeleteChars 3];
   cursor_text t) = Some [97; 32; 32; 32]%N.
Proof. vm_compute. reflexivity. Qed.

(** With the cursor on the second line, clearing the screen above it keeps the first line. *)
Example clear_above_keeps_first_line :
  (t ← TermSample.after [Input 97; Goto 1 0; ClearScreen ClearAbove]; option_map c (cell_at (Pt 0 0%nat) t))
    = Some 97%N.
Proof. vm_compute. reflexivity. Qed.
