(* ===== verification/States.v ===== *)
(** What the handlers do to the cursor, the modes, the tabstops, the titles and the screens. *)
From S2P Require Import Prelude Index Cells Rows Storages Grids Resizes TermData Selections Terms.
From S2P Require Import Handlers TermSafety HandlerSafety TermProps Effects.
#[local] Open Scope Z_scope.

Section Cursor.
Context `{External}.
Context {L C : nat}.
Implicit Types (t : Term.t) (p q : Point).

(** Where [goto] goes. *)
Definition goto_target (l : Z) (col : nat) t : Point :=
  let '(top, bottom) := if Term.has_mode TermMode.ORIGIN t
                        then ((Term.scroll_region t).1, (Term.scroll_region t).2 - 1)
                        else (0, Z.of_nat L - 1) in
  Pt (Z.max (Z.min (l + top) bottom) 0) (Nat.min col (C - 1)).

Lemma goto_effect b t l col :
  term_ok L C b t → -1000000000 <= l <= 1000000000 →
  wp (Handler.goto l col t) (λ t', ∃ d,
    t' = Term.set_damage d (Term.set_cursor (Cursor.set_input_needs_wrap false
           (Cursor.set_point (goto_target l col t) (Term.cursor t))) t)).
Proof.
  intros Ht Hl0. pose proof (term_facts _ _ _ _ Ht) as (EL & EC & EI & HL & HC & HS & Hl & Hc).
  pose proof (t_region _ _ _ _ Ht) as (Hr1 & Hr2 & Hr3).
  dims (term_dims _ _ _ _ Ht). unfold Handler.goto, goto_target. wp_step.
  apply wp_mono with (λ '(off, max_y), (off, max_y) = (if Term.has_mode TermMode.ORIGIN t
    then ((Term.scroll_region t).1, (Term.scroll_region t).2 - 1) else (0, Z.of_nat L - 1))).
  { case_match; [by repeat wp_step|]. wp_step. f_equal. rewrite EL in *. lia. }
  intros [off max_y] Eoff. rewrite <- Eoff.
  assert (0 <= off <= Z.of_nat L ∧ max_y < Z.of_nat L) as [Hoff Hmax].
  { case_match; simplify_eq; lia. }
  wp_step. wp_call (damage_cursor_only _ _ Ht). intros t1 (Ht1 & d & ->).
  wp_step. wp_step. wp_step.
  match goal with |- wp (Term.damage_cursor ?x) _ => assert (term_ok L C b x) as Ht2 end.
  { assert (last_column t < C)%nat by (unfold last_column; lia).
    apply set_cursor_column_ok; [apply set_cursor_line_ok; [done|lia]|].
    unfold last_column in *. simpl in *. lia. }
  wp_call (damage_cursor_only _ _ Ht2). intros t3 (_ & d3 & ->). mrun. exists d3.
  replace (Nat.min col (C - 1)) with (Nat.min col (last_column (Term.set_cursor_line
    (Z.max (Z.min (l + off) max_y) 0) (Term.set_damage d t)))); [done|].
  unfold last_column. simpl in *. lia.
Qed.
End Cursor.

(** ** Tabstops *)

(** The next tabstop to the right of a column, or the last column. *)
Definition next_tabstop (tabs : list bool) (col : nat) : nat :=
  match position id (drop (col + 1) tabs) with
  | Some k => (col + 1 + k)%nat
  | None => (length tabs - 1)%nat
  end.

Lemma next_tabstop_step (tabs : list bool) col :
  (col + 1 < length tabs)%nat →
  next_tabstop tabs col =
    if default false (tabs !! (col + 1)%nat) then (col + 1)%nat else next_tabstop tabs (col + 1).
Proof.
  intros Hc. destruct (lookup_lt_is_Some_2 tabs (col + 1)) as [x Hx]; [done|].
  unfold next_tabstop at 1. rewrite (drop_S _ _ _ Hx), Hx. simpl. destruct x; simpl; [lia|].
  unfold next_tabstop. replace (S (col + 1)) with (col + 1 + 1)%nat by lia.
  destruct (position _ _); simpl; lia.
Qed.

Lemma next_tabstop_last (tabs : list bool) col :
  (col + 1 = length tabs)%nat → next_tabstop tabs col = col.
Proof. intros Hc. unfold next_tabstop. rewrite drop_ge by lia. simpl. lia. Qed.

Lemma next_tabstop_lt (tabs : list bool) col :
  (col < length tabs)%nat → (next_tabstop tabs col < length tabs)%nat.
Proof.
  intros Hc. unfold next_tabstop. destruct (position _ _) as [k|] eqn:E; [|lia].
  apply position_Some in E as [(x & Hx & _) _]. apply lookup_lt_Some in Hx.
  rewrite length_drop in Hx. lia.
Qed.

(** Both loops of the code compute it. *)
Lemma tab_forward_ref fuel (tabs : list bool) col :
  (col < length tabs)%nat → (length tabs <= col + fuel)%nat →
  Handler.tab_forward fuel (length tabs) tabs col = Some (next_tabstop tabs col).
Proof.
  revert col. induction fuel as [|fuel IH]; intros col Hc Hf; simpl; [lia|].
  case_match eqn:E; bools; [by rewrite next_tabstop_last|].
  rewrite next_tabstop_step by lia. unfold TabStops.index.
  destruct (lookup_lt_is_Some_2 tabs (col + 1)) as [x ->]; [lia|]. simpl.
  destruct x; [done|]. apply IH; lia.
Qed.

Lemma tab_right_ref n (tabs : list bool) col :
  (col < length tabs)%nat → (n = length tabs - (col + 1))%nat →
  Handler.tab_right tabs (seq (col + 1) n) col = Some (next_tabstop tabs col).
Proof.
  revert col. induction n as [|n IH]; intros col Hc Hn; simpl.
  { by rewrite next_tabstop_last by lia. }
  rewrite next_tabstop_step by lia. unfold TabStops.index.
  destruct (lookup_lt_is_Some_2 tabs (col + 1)) as [x ->]; [lia|]. simpl.
  destruct x; [done|]. replace (S (col + 1)) with (col + 1 + 1)%nat by lia. apply IH; lia.
Qed.

Lemma move_forward_cols_ref k (tabs : list bool) col :
  (col < length tabs)%nat →
  Handler.move_forward_cols k (length tabs) tabs col = Some (Nat.iter k (next_tabstop tabs) col).
Proof.
  revert col. induction k as [|k IH]; intros col Hc; simpl; [done|].
  rewrite usize_sub_ok by lia. simpl. case_match eqn:E; bools.
  - clear IH. f_equal. assert (Nat.iter k (next_tabstop tabs) col = col) as ->.
    { induction k as [|k IHk]; simpl; [done|]. rewrite IHk. apply next_tabstop_last. lia. }
    symmetry. apply next_tabstop_last. lia.
  - rewrite tab_right_ref by lia. simpl. rewrite IH by (by apply next_tabstop_lt).
    f_equal. clear. induction k as [|k IHk]; simpl; [done|]. by rewrite IHk.
Qed.

(** ** Modes *)

Section ModeBits.
Implicit Types (m f g : TermMode).

Lemma mode_remove_part m f g :
  N.ldiff g f = 0%N → g ≠ 0%N → TermMode.contains (TermMode.remove f m) g = false.
Proof.
  intros Hs Hg. unfold TermMode.contains, TermMode.remove. apply N.eqb_neq. intros E. apply Hg.
  rewrite <- E. apply N.bits_inj. intros i. apply (f_equal (λ x, N.testbit x i)) in Hs, E.
  revert Hs E. rewrite !N.land_spec, !N.ldiff_spec, !N.bits_0.
  by destruct (N.testbit m i), (N.testbit f i), (N.testbit g i).
Qed.

Lemma mode_contains_toggle m f :
  TermMode.contains m f = false → (∃ i, f = N.shiftl 1 i) →
  TermMode.contains (TermMode.toggle f m) f = true.
Proof.
  intros Hm [i ->]. unfold TermMode.contains, TermMode.toggle in *. apply N.eqb_neq in Hm.
  apply N.eqb_eq, N.bits_inj. intros j. rewrite N.land_spec, N.lxor_spec.
  destruct (decide (j = i)) as [->|Hne].
  - destruct (N.testbit m i) eqn:Ei.
    + exfalso. apply Hm. apply N.bits_inj. intros k. rewrite N.land_spec.
      destruct (decide (k = i)) as [->|Hk]; [by rewrite Ei|].
      rewrite N.shiftl_1_l, N.pow2_bits_false by done. by rewrite andb_false_r.
    + rewrite N.shiftl_1_l, N.pow2_bits_true. done.
  - rewrite N.shiftl_1_l, N.pow2_bits_false by done. by rewrite andb_false_r.
Qed.

Lemma mode_contains_toggle_off m f :
  TermMode.contains m f = true → f ≠ 0%N → TermMode.contains (TermMode.toggle f m) f = false.
Proof.
  intros Hm Hf. unfold TermMode.contains, TermMode.toggle in *. apply N.eqb_eq in Hm.
  apply N.eqb_neq. intros E. apply Hf. rewrite <- E. apply N.bits_inj. intros j.
  apply (f_equal (λ x, N.testbit x j)) in Hm. revert Hm.
  rewrite !N.land_spec, N.lxor_spec, N.bits_0. by destruct (N.testbit m j), (N.testbit f j).
Qed.
End ModeBits.

Section Screens.
Context `{External}.
Context {L C : nat}.
Implicit Types (t : Term.t).

Lemma from_keyboard_alt v : N.land (TermMode.from_keyboard v) TermMode.ALT_SCREEN = 0%N.
Proof.
  unfold TermMode.from_keyboard, TermMode.set.
  by destruct (km_DISAMBIGUATE_ESC_CODES v), (km_REPORT_EVENT_TYPES v),
    (km_REPORT_ALTERNATE_KEYS v), (km_REPORT_ALL_KEYS_AS_ESC v), (km_REPORT_ASSOCIATED_TEXT v).
Qed.

Lemma reset_region_cursor from to (g g' : Grid.t Cell) :
  Grid.reset_region from to g = Some g' → Grid.cursor g' = Grid.cursor g.
Proof. unfold Grid.reset_region. intros Hr. by simplify_option_eq. Qed.

(** Entering the alternate screen saves the cursor and gives the other screen, reset, the same
    cursor; leaving it puts the primary screen back. *)
Lemma swap_alt_effect b t :
  term_ok L C b t →
  wp (Term.swap_alt t) (λ t', term_ok L C b t' ∧
    Term.has_mode TermMode.ALT_SCREEN t' = negb (Term.has_mode TermMode.ALT_SCREEN t) ∧
    Term.keyboard_mode_stack t' = Term.inactive_keyboard_mode_stack t ∧
    Term.inactive_keyboard_mode_stack t' = Term.keyboard_mode_stack t ∧
    (if Term.has_mode TermMode.ALT_SCREEN t
     then Term.grid t' = Term.inactive_grid t ∧ Term.inactive_grid t' = Term.grid t
     else Term.inactive_grid t' = Grid.set_saved_cursor (Term.cursor t) (Term.grid t) ∧
       Some (Term.grid t') = Grid.reset_region Unbounded Unbounded
                               (Grid.set_cursor (Term.cursor t) (Term.inactive_grid t)) ∧
       Term.cursor t' = Term.cursor t)).
Proof.
  intros Ht. pose proof (swap_alt_stable b t Ht) as Hok. unfold Term.swap_alt in *. cbv zeta in *.
  assert (∀ m v, TermMode.contains
    (TermMode.toggle TermMode.ALT_SCREEN (N.lor (TermMode.remove
       TermMode.KITTY_KEYBOARD_PROTOCOL m) (TermMode.from_keyboard v))) TermMode.ALT_SCREEN
    = negb (TermMode.contains m TermMode.ALT_SCREEN)) as Hmode.
  { intros m v. set (m' := N.lor _ _).
    assert (TermMode.contains m' TermMode.ALT_SCREEN = TermMode.contains m TermMode.ALT_SCREEN)
      as Em.
    { etransitivity; [apply (mode_insert_other _ _ _ (from_keyboard_alt v))|].
      by apply mode_remove_other. }
    rewrite <- Em. destruct (TermMode.contains m' _) eqn:E; simpl.
    - by apply mode_contains_toggle_off.
    - apply mode_contains_toggle; [done|]. by exists 12%N. }
  unfold Term.has_mode in *. destruct (TermMode.contains (Term.mode t) _) eqn:E.
  - mrun. split; [exact Hok|]. split; [|done]. simpl. rewrite Hmode, E. done.
  - mrun. simpl in *.
    destruct (Grid.reset_region Unbounded Unbounded _) as [g|] eqn:Eg; [|done]. mrun.
    split; [exact Hok|]. split; [simpl; by rewrite Hmode, E|]. split; [done|]. split; [done|]. 
    split; [done|]. split; [done|]. unfold Term.cursor. simpl.
    by rewrite (reset_region_cursor _ _ _ _ Eg).
Qed.

(** ** What the modes report *)

(** The modes kept as a flag, [ColumnMode] and [SyncUpdate] are not. *)
Definition reported (m : NamedPrivateMode) : bool :=
  match m with ColumnMode | SyncUpdate => false | _ => true end.

Lemma goto_mode b t l col :
  term_ok L C b t → -1000000000 <= l <= 1000000000 →
  wp (Handler.goto l col t) (λ t', Term.mode t' = Term.mode t).
Proof. intros Ht Hl. wp_call (goto_effect b t l col Ht Hl). by intros t' [d ->]. Qed.

Lemma set_reported b t m :
  term_ok L C b t → reported m = true →
  wp (Handler.set_private_mode (NamedPrivate m) t) (λ t',
    Handler.private_mode_state (NamedPrivate m) t' = ModeSet).
Proof.
  intros Ht Hm.
  assert (∀ f m0, ModeState.from_bool (TermMode.contains (TermMode.insert f m0) f) = ModeSet)
    as Hins by (intros; by rewrite mode_contains_insert).
  destruct m; try done; simpl; unfold Term.has_mode; simpl; try apply Hins.
  - case_match eqn:E; [simpl; unfold Term.has_mode in *; by rewrite E|].
    wp_call (swap_alt_effect b t Ht). intros t' (_ & Em & _). unfold Term.has_mode in *. by rewrite Em, E.
  - wp_call (goto_mode b (Handler.insert_mode TermMode.ORIGIN t) 0 0);
      [by apply set_mode_ok|lia|]. intros t' ->. apply Hins.
Qed.

Lemma unset_reported b t m :
  term_ok L C b t → reported m = true →
  wp (Handler.unset_private_mode (NamedPrivate m) t) (λ t',
    Handler.private_mode_state (NamedPrivate m) t' = ModeReset).
Proof.
  intros Ht Hm.
  assert (∀ f m0, f ≠ 0%N →
    ModeState.from_bool (TermMode.contains (TermMode.remove f m0) f) = ModeReset)
    as Hrem by (intros; by rewrite mode_contains_remove).
  destruct m; try done; simpl; unfold Term.has_mode; simpl; try by apply Hrem.
  case_match eqn:E; [|simpl; unfold Term.has_mode in *; by rewrite E].
  wp_call (swap_alt_effect b t Ht). intros t' (_ & Em & _). unfold Term.has_mode in *. by rewrite Em, E.
Qed.

Definition mouse_modes : list NamedPrivateMode :=
  [ReportMouseClicks; ReportCellMouseMotion; ReportAllMouseMotion].

Lemma mouse_exclusive t m m' :
  m ∈ mouse_modes → m' ∈ mouse_modes → m ≠ m' →
  wp (Handler.set_private_mode (NamedPrivate m) t) (λ t',
    Handler.private_mode_state (NamedPrivate m') t' = ModeReset).
Proof.
  intros Hm Hm' Hne.
  assert (∀ f g m0, N.land f g = 0%N → N.ldiff g TermMode.MOUSE_MODE = 0%N → g ≠ 0%N →
    ModeState.from_bool (TermMode.contains
      (TermMode.insert f (TermMode.remove TermMode.MOUSE_MODE m0)) g) = ModeReset) as Hother.
  { intros f g m0 Hfg Hg Hg0. by rewrite mode_insert_other, mode_remove_part. }
  unfold mouse_modes in *.
  repeat (apply elem_of_cons in Hm as [->|Hm]); try by apply not_elem_of_nil in Hm.
  all: repeat (apply elem_of_cons in Hm' as [->|Hm']); try by apply not_elem_of_nil in Hm'.
  all: try done; simpl; unfold Term.has_mode; simpl; by apply Hother.
Qed.

(** ** Titles and resets *)

Lemma title_stack_roundtrip t title' :
  (length (Term.title_stack t) < TITLE_STACK_MAX_DEPTH)%nat →
  wp (Handler.push_title t) (λ t1,
    let t2 := Handler.pop_title (Handler.set_title title' t1) in
    Term.title t2 = Term.title t ∧ Term.title_stack t2 = Term.title_stack t).
Proof.
  intros Hl. unfold Handler.push_title. rewrite (proj2 (Nat.leb_gt _ _)) by done.
  mrun. unfold Handler.pop_title. simpl. rewrite reverse_snoc. simpl.
  split; [done|apply reverse_involutive].
Qed.

(** A row without content. *)
Definition empty_row (r : Row.t Cell) : Prop :=
  ∃ r0, row_safe C r0 ∧ Row.reset Cell.default r0 = Some r.

Lemma reset_state_effect b t :
  term_ok L C b t →
  wp (Handler.reset_state t) (λ t',
    Term.cursor t' = Cursor.default ∧ Grid.saved_cursor (Term.grid t') = Cursor.default ∧
    history_size t' = 0%nat ∧ Grid.display_offset (Term.grid t') = 0%nat ∧
    (∀ l, 0 <= l < Z.of_nat L → ∃ r, grid_row (Term.grid t') l = Some r ∧ empty_row r) ∧
    Term.scroll_region t' = (0, Z.of_nat L) ∧ Term.tabs t' = TabStops.new C ∧
    Term.title t' = None ∧ Term.title_stack t' = [] ∧ Term.keyboard_mode_stack t' = [] ∧
    Term.selection t' = None ∧ Term.vi_mode_cursor t' = Point.default ∧
    (∀ f, N.land f TermMode.VI = 0%N →
      Term.has_mode f t' = TermMode.contains TermMode.default f) ∧
    Term.has_mode TermMode.VI t' = Term.has_mode TermMode.VI t).
Proof.
  intros Ht. pose proof (term_facts _ _ _ _ Ht) as (EL & EC & EI & HL & HC & HS & Hl & Hc).
  unfold Handler.reset_state. cbv zeta.
  set (t0 := if Term.has_mode TermMode.ALT_SCREEN t then _ else t).
  assert (screen_ok L C (Term.grid t0) ∧ screen_ok L C (Term.inactive_grid t0) ∧
    Term.mode t0 = Term.mode t) as (Hg0 & Hi0 & Em0).
  { unfold t0. case_match; (split; [|split; [|done]]); apply Ht. }
  clearbody t0. unfold Term.upd_grid. wp_step. wp_step. simpl.
  destruct Hg0 as [Hg0 El0 Ec0]. destruct Hi0 as [Hi0 Eli0 Eci0].
  wp_call (grid_reset_ok (P:=row_safe) _ Hg0).
  intros g (Hg & El & Ec & _ & Eh & Eo & Ecu & Esa & Hrows). wp_step. mrun.
  wp_call (grid_reset_ok (P:=row_safe) _ Hi0). intros gi _. mrun.
  split_and!; try done.
  - intros l Hlv. destruct (Hrows l) as (r & Er & Hb); [by rewrite El0|]. exists r.
    split; [done|]. rewrite Ec0 in Hb. exact Hb.
  - simpl. by rewrite El, El0, EI.
  - simpl. by rewrite Ec, Ec0.
  - intros f Hf. unfold Term.has_mode, TermMode.contains, TermMode.insert. simpl.
    rewrite Em0. f_equal. apply N.bits_inj. intros i.
    apply (f_equal (λ x, N.testbit x i)) in Hf. revert Hf.
    rewrite !N.land_spec, N.lor_spec, N.land_spec, N.bits_0.
    by destruct (N.testbit (Term.mode t) i), (N.testbit TermMode.default i), (N.testbit f i),
      (N.testbit TermMode.VI i).
  - unfold Term.has_mode, TermMode.contains, TermMode.insert. simpl. rewrite Em0. f_equal.
    apply N.bits_inj. intros i. rewrite !N.land_spec, N.lor_spec, N.land_spec.
    assert (N.testbit TermMode.default i && N.testbit TermMode.VI i = false) as Hd.
    { rewrite <- N.land_spec. change (N.land TermMode.default TermMode.VI) with 0%N.
      apply N.bits_0. }
    destruct (N.testbit (Term.mode t) i), (N.testbit TermMode.default i),
      (N.testbit TermMode.VI i); done.
Qed.
End Screens.

(** * The properties *)

Section Properties.
Context `{External}.
Implicit Types (t : Term.t).

(** [goto] moves the cursor to the requested point, counted from the scrolling region in
    origin mode, clamped to the screen or the region; only the cursor and the damage change. *)
Theorem goto_correct L C b t l col :
  term_ok L C b t → -1000000000 <= l <= 1000000000 →
  wp (Handler.goto l col t) (λ t', ∃ d,
    t' = Term.set_damage d (Term.set_cursor (Cursor.set_input_needs_wrap false
           (Cursor.set_point (goto_target (L:=L) (C:=C) l col t) (Term.cursor t))) t)).
Proof. apply goto_effect. Qed.

(** A line feed at the bottom of the scrolling region scrolls the region by one line; above it
    the cursor moves down; on the last line of the screen below the region nothing happens. *)
Theorem linefeed_correct L C b t :
  term_ok L C b t → b + Z.of_nat L <= 1073741823 →
  let next := line (Term.cursor_point t) + 1 in
  wp (Term.linefeed t) (λ t',
    if next =? (Term.scroll_region t).2 then
      Grid.scroll_up (Term.scroll_region t) (Nat.min 1 (Z.to_nat ((Term.scroll_region t).2
        - (Term.scroll_region t).1))) (Term.grid t) = Some (Term.grid t') ∧
      Term.cursor_point t' = Term.cursor_point t
    else if next <? Z.of_nat L then
      ∃ d, t' = Term.set_damage d (Term.set_cursor_line next t)
    else t' = t).
Proof. apply linefeed_effect. Qed.

(** The two searches for a tabstop, of the tab character and of the cursor tabulation
    sequence, both find the next tabstop or the last column, and the sequence repeats it. *)
Theorem tabstops_correct fuel k (tabs : list bool) col :
  (col < length tabs)%nat → (length tabs <= col + fuel)%nat →
  Handler.tab_forward fuel (length tabs) tabs col = Some (next_tabstop tabs col) ∧
  Handler.move_forward_cols k (length tabs) tabs col
    = Some (Nat.iter k (next_tabstop tabs) col).
Proof. intros Hc Hf. split; [by apply tab_forward_ref|by apply move_forward_cols_ref]. Qed.

(** C5. Entering the alternate screen and leaving it again puts back the primary screen, whose
    saved cursor is then the cursor at the time of the switch, and the keyboard modes. *)
Theorem swap_alt_roundtrip L C b t :
  term_ok L C b t → Term.has_mode TermMode.ALT_SCREEN t = false →
  wp (t1 ← Term.swap_alt t; t2 ← Term.swap_alt t1; Some (t1, t2)) (λ '(t1, t2),
    Term.has_mode TermMode.ALT_SCREEN t1 = true ∧ Term.cursor t1 = Term.cursor t ∧
    Term.has_mode TermMode.ALT_SCREEN t2 = false ∧
    Term.grid t2 = Grid.set_saved_cursor (Term.cursor t) (Term.grid t) ∧
    Term.keyboard_mode_stack t2 = Term.keyboard_mode_stack t ∧
    Term.inactive_keyboard_mode_stack t2 = Term.inactive_keyboard_mode_stack t).
Proof.
  intros Ht Ha. wp_step. wp_call (swap_alt_effect b t Ht).
  intros t1 (Ht1 & Em1 & Ek1 & Ei1 & Hg). rewrite Ha in Em1, Hg. destruct Hg as (Eg & _ & Ecu).
  wp_step. wp_call (swap_alt_effect b t1 Ht1). intros t2 (_ & Em2 & Ek2 & Ei2 & Hg2).
  rewrite Em1 in Em2, Hg2. destruct Hg2 as [Eg2 _]. mrun.
  split_and!; [done|done|done|congruence..].
Qed.

(** A private mode that is set is reported as set, and as reset once it is unset. *)
Theorem private_modes_reported L C b t m :
  term_ok L C b t → reported m = true →
  wp (Handler.set_private_mode (NamedPrivate m) t) (λ t',
    Handler.private_mode_state (NamedPrivate m) t' = ModeSet) ∧
  wp (Handler.unset_private_mode (NamedPrivate m) t) (λ t',
    Handler.private_mode_state (NamedPrivate m) t' = ModeReset).
Proof. intros Ht Hm. split; [by eapply set_reported|by eapply unset_reported]. Qed.

(** The modes of the mouse exclude each other. *)
Theorem mouse_modes_exclusive t m m' :
  m ∈ mouse_modes → m' ∈ mouse_modes → m ≠ m' →
  wp (Handler.set_private_mode (NamedPrivate m) t) (λ t',
    Handler.private_mode_state (NamedPrivate m') t' = ModeReset).
Proof. apply mouse_exclusive. Qed.

(** A full reset leaves an empty screen without history, the cursor at home, the whole screen
    as scrolling region and the default modes, except that vi mode stays. *)
Theorem reset_state_correct L C b t :
  term_ok L C b t →
  wp (Handler.reset_state t) (λ t',
    Term.cursor t' = Cursor.default ∧ Grid.saved_cursor (Term.grid t') = Cursor.default ∧
    history_size t' = 0%nat ∧ Grid.display_offset (Term.grid t') = 0%nat ∧
    (∀ l, 0 <= l < Z.of_nat L → ∃ r, grid_row (Term.grid t') l = Some r ∧ empty_row (C:=C) r) ∧
    Term.scroll_region t' = (0, Z.of_nat L) ∧ Term.tabs t' = TabStops.new C ∧
    Term.title t' = None ∧ Term.title_stack t' = [] ∧ Term.keyboard_mode_stack t' = [] ∧
    Term.selection t' = None ∧ Term.vi_mode_cursor t' = Point.default ∧
    (∀ f, N.land f TermMode.VI = 0%N →
      Term.has_mode f t' = TermMode.contains TermMode.default f) ∧
    Term.has_mode TermMode.VI t' = Term.has_mode TermMode.VI t).
Proof. apply reset_state_effect. Qed.

(** A title pushed on the stack comes back when it is popped, whatever title is set in
    between. *)
Theorem title_roundtrip t title' :
  (length (Term.title_stack t) < TITLE_STACK_MAX_DEPTH)%nat →
  wp (Handler.push_title t) (λ t1,
    let t2 := Handler.pop_title (Handler.set_title title' t1) in
    Term.title t2 = Term.title t ∧ Term.title_stack t2 = Term.title_stack t).
Proof. apply title_stack_roundtrip. Qed.
End Properties.

#[local] Existing Instance Sample.external.

Lemma goto_correct_witness : is_Some (Handler.goto 1 2 TermSample.term).
Proof.
  pose proof (goto_correct 3 4 268435455 TermSample.term 1 2 TermSample.term_is_ok
    ltac:(lia)) as Hwp.
  destruct (Handler.goto 1 2 TermSample.term) as [t'|]; [by exists t'|destruct Hwp].
Defined.

Lemma linefeed_correct_witness : is_Some (Term.linefeed TermSample.term).
Proof.
  pose proof (linefeed_correct 3 4 268435455 TermSample.term TermSample.term_is_ok
    ltac:(simpl; lia)) as Hwp.
  destruct (Term.linefeed TermSample.term) as [t'|]; [by exists t'|destruct Hwp].
Defined.

Lemma tabstops_correct_witness :
  Handler.move_forward_cols 2 12 (TabStops.new 12) 3 = Some 11%nat.
Proof.
  exact (proj2 (tabstops_correct 12 2 (TabStops.new 12) 3 ltac:(vm_compute; lia)
    ltac:(vm_compute; lia))).
Defined.

Lemma swap_alt_roundtrip_witness :
  is_Some (t1 ← Term.swap_alt TermSample.term; Term.swap_alt t1).
Proof.
  pose proof (swap_alt_roundtrip 3 4 268435455 TermSample.term TermSample.term_is_ok
    eq_refl) as Hwp.
  destruct (Term.swap_alt TermSample.term) as [t1|]; [|destruct Hwp]. simpl in *.
  destruct (Term.swap_alt t1) as [t2|]; [by exists t2|destruct Hwp].
Defined.

Lemma private_modes_reported_witness :
  wp (Handler.set_private_mode (NamedPrivate Origin) TermSample.term) (λ t',
    Handler.private_mode_state (NamedPrivate Origin) t' = ModeSet).
Proof.
  apply (private_modes_reported 3 4 268435455 TermSample.term Origin TermSample.term_is_ok
    eq_refl).
Defined.

Lemma mouse_modes_exclusive_witness :
  wp (Handler.set_private_mode (NamedPrivate ReportMouseClicks) TermSample.term) (λ t',
    Handler.private_mode_state (NamedPrivate ReportAllMouseMotion) t' = ModeReset).
Proof.
  apply (mouse_modes_exclusive TermSample.term ReportMouseClicks ReportAllMouseMotion);
    [by left|by right; right; left|done].
Defined.

Lemma reset_state_correct_witness : is_Some (Handler.reset_state TermSample.term).
Proof.
  pose proof (reset_state_correct 3 4 268435455 TermSample.term TermSample.term_is_ok) as Hwp.
  destruct (Handler.reset_state TermSample.term) as [t'|]; [by exists t'|destruct Hwp].
Defined.

Lemma title_roundtrip_witness : is_Some (Handler.push_title TermSample.term).
Proof.
  pose proof (title_roundtrip TermSample.term (Some [97%N])
    ltac:(apply Nat.ltb_lt; vm_compute; reflexivity)) as Hwp.
  destruct (Handler.push_title TermSample.term) as [t'|]; [by exists t'|destruct Hwp].
Defined.
