(* ===== verification/Searches.v ===== *)
(** Searching the buffer ([cutty_terminal/src/term/search.rs]): brackets, semantic and line
    search, and the search for a regular expression, together with the conversion of selections
    to ranges and text that needs them.

    The lazy automata of [regex-automata] are a parameter: [Hybrid] has the operations the search
    uses.  One iteration of the loop of the regular expression search is [regex_step]; its loop has
    the number of iterations as fuel, since it does not always end.  Every other loop has the
    number of cells of the buffer as fuel, which bounds it. *)
From S2P Require Import Prelude Index Cells Rows Storages Grids Resizes TermData Selections Terms.
From S2P Require Import Handlers.
#[local] Open Scope Z_scope.

(** The UTF-8 encoding of a character. *)
Definition encode_utf8 (ch : char) : list N :=
  (if ch <? 128 then [ch]
   else if ch <? 2048 then [192 + ch / 64; 128 + ch mod 64]
   else if ch <? 65536 then [224 + ch / 4096; 128 + (ch / 64) mod 64; 128 + ch mod 64]
   else [240 + ch / 262144; 128 + (ch / 4096) mod 64; 128 + (ch / 64) mod 64;
         128 + ch mod 64])%N.

(** [char::is_whitespace]: the Unicode property [White_Space]. *)
Definition is_whitespace (ch : char) : bool :=
  ((9 <=? ch) && (ch <=? 13) || (ch =? 32) || (ch =? 133) || (ch =? 160) || (ch =? 5760)
   || (8192 <=? ch) && (ch <=? 8202) || (ch =? 8232) || (ch =? 8233) || (ch =? 8239)
   || (ch =? 8287) || (ch =? 12288))%N.

(** [str::trim_end]. *)
Fixpoint drop_while {A} (p : A → bool) (l : list A) : list A :=
  match l with
  | [] => []
  | x :: l' => if p x then drop_while p l' else l
  end.
Definition trim_end (t : text) : text := reverse (drop_while is_whitespace (reverse t)).

(** The automata of [regex_automata::hybrid]: a state is computed on demand in a cache, which the
    operations thread.  [None] is the error of a cache that was cleared too often. *)
Class Hybrid := {
  DFA : Type;
  Cache : Type;
  LazyStateID : Type;
  start_state_forward : DFA → bool → Cache → option LazyStateID * Cache;
  next_state : DFA → LazyStateID → N → Cache → option LazyStateID * Cache;
  next_eoi_state : DFA → LazyStateID → Cache → option LazyStateID * Cache;
  is_match : LazyStateID → bool;
  is_dead : LazyStateID → bool;
}.

(** [struct LazyDfa]. *)
Record LazyDfa `{Hybrid} := mkLazyDfa {
  dfa : DFA;
  cache : Cache;
  direction : Direction;
  match_all : bool;
}.
#[global] Arguments mkLazyDfa {_} _ _ _ _.
#[global] Arguments dfa {_} _.
#[global] Arguments cache {_} _.
#[global] Arguments direction {_} _.
#[global] Arguments match_all {_} _.

(** [struct RegexSearch]. *)
Record RegexSearch `{Hybrid} := mkRegexSearch {
  left_fdfa : LazyDfa;
  left_rdfa : LazyDfa;
  right_rdfa : LazyDfa;
  right_fdfa : LazyDfa;
}.
#[global] Arguments mkRegexSearch {_} _ _ _ _.
#[global] Arguments left_fdfa {_} _.
#[global] Arguments left_rdfa {_} _.
#[global] Arguments right_rdfa {_} _.
#[global] Arguments right_fdfa {_} _.

Section regex_setters.
Context `{Hybrid}.
Definition set_cache (x : Cache) (d : LazyDfa) : LazyDfa :=
  mkLazyDfa (dfa d) x (direction d) (match_all d).
Definition set_left (f r : LazyDfa) (s : RegexSearch) : RegexSearch :=
  mkRegexSearch f r (right_rdfa s) (right_fdfa s).
Definition set_right (f r : LazyDfa) (s : RegexSearch) : RegexSearch :=
  mkRegexSearch (left_fdfa s) (left_rdfa s) r f.
End regex_setters.

Module Search.
(** [RangeInclusive<Point>]. *)
Definition Match : Type := Point * Point.

(** [BRACKET_PAIRS] and the [find_map] over it: the direction and the matching bracket. *)
Definition BRACKET_PAIRS : list (char * char) := [(40, 41); (91, 93); (123, 125); (60, 62)]%N.

Fixpoint find_pair (pairs : list (char * char)) (ch : char) : option (bool * char) :=
  match pairs with
  | [] => None
  | (open, close) :: pairs =>
      if (open =? ch)%N then Some (true, close)
      else if (close =? ch)%N then Some (false, open)
      else find_pair pairs ch
  end.

Section ops.
Context `{External}.
Implicit Types (t : Term.t) (p : Point) (it : Grid.GridIterator.t).

(** A bound on the number of cells an iterator visits. *)
Definition fuel t : nat := S (total_lines t * columns t).

Definition advance (forward : bool) (g : Grid.t Cell) it :
    option (option (Point * Cell) * Grid.GridIterator.t) :=
  if forward then Grid.GridIterator.next g it else Grid.GridIterator.prev g it.

(** ** Brackets *)

Fixpoint bracket_scan (fuel : nat) (forward : bool) (start_char end_char : char) (skip_pairs : Z)
    (g : Grid.t Cell) it : option (option Point) :=
  match fuel with
  | O => None
  | S fuel =>
      '(item, it) ← advance forward g it;
      match item with
      | None => Some None
      | Some (p, cell) =>
          if (c cell =? end_char)%N && (skip_pairs =? 0) then Some (Some p)
          else if (c cell =? start_char)%N then
            skip ← i32_add skip_pairs 1;
            bracket_scan fuel forward start_char end_char skip g it
          else if (c cell =? end_char)%N then
            skip ← i32_sub skip_pairs 1;
            bracket_scan fuel forward start_char end_char skip g it
          else bracket_scan fuel forward start_char end_char skip_pairs g it
      end
  end.

Definition bracket_search p t : option (option Point) :=
  cell ← Grid.index_point p (Term.grid t);
  let start_char := c cell in
  match find_pair BRACKET_PAIRS start_char with
  | None => Some None
  | Some (forward, end_char) =>
      bracket_scan (fuel t) forward start_char end_char 0 (Term.grid t)
        (Grid.iter_from p (Term.grid t))
  end.

(** ** Inline and semantic search *)

Definition wide_spacer : N := N.lor Flags.WIDE_CHAR_SPACER Flags.LEADING_WIDE_CHAR_SPACER.

(** [needles.contains(c)] for a cell that is not a spacer. *)
Definition is_needle (needles : text) (cell : Cell) : bool :=
  negb (Flags.intersects (flags cell) wide_spacer) && bool_decide (c cell ∈ needles).

(** A cell in the last column whose line does not wrap. *)
Definition line_break t p (cell : Cell) : bool :=
  (column p =? columns t - 1)%nat && negb (Flags.contains (flags cell) Flags.WRAPLINE).

(** [Result<Point, Point>]: [inl] is [Ok]. *)
Fixpoint inline_left (fuel : nat) (needles : text) t it p : option (Point + Point) :=
  match fuel with
  | O => None
  | S fuel =>
      '(item, it) ← Grid.GridIterator.prev (Term.grid t) it;
      match item with
      | None => Some (inr p)
      | Some (q, cell) =>
          if line_break t q cell then Some (inr p)
          else if is_needle needles cell then Some (inl q)
          else inline_left fuel needles t it q
      end
  end.

Definition inline_search_left p (needles : text) t : option (Point + Point) :=
  let p := Pt (Z.max (line p) (topmost_line t)) (column p) in
  _ ← usize_sub (columns t) 1;
  inline_left (fuel t) needles t (Grid.iter_from p (Term.grid t)) p.

Fixpoint inline_right (fuel : nat) (needles : text) t it p : option (Point + Point) :=
  match fuel with
  | O => None
  | S fuel =>
      '(item, it) ← Grid.GridIterator.next (Term.grid t) it;
      match item with
      | None => Some (inr p)
      | Some (q, cell) =>
          if is_needle needles cell then Some (inl q)
          else if line_break t q cell then Some (inr q)
          else inline_right fuel needles t it q
      end
  end.

Definition inline_search_right p (needles : text) t : option (Point + Point) :=
  let p := Pt (Z.max (line p) (topmost_line t)) (column p) in
  last ← usize_sub (columns t) 1;
  stop ← (if (column p =? last)%nat then
            cell ← Grid.index_point p (Term.grid t);
            Some (negb (Flags.contains (flags cell) Flags.WRAPLINE))
          else Some false);
  if stop : bool then Some (inr p)
  else inline_right (fuel t) needles t (Grid.iter_from p (Term.grid t)) p.

(** [find] of the first cell that is not a spacer. *)
Fixpoint find_cell (fuel : nat) t it : option (option Point) :=
  match fuel with
  | O => None
  | S fuel =>
      '(item, it) ← Grid.GridIterator.next (Term.grid t) it;
      match item with
      | None => Some None
      | Some (q, cell) =>
          if negb (Flags.intersects (flags cell) wide_spacer) then Some (Some q)
          else find_cell fuel t it
      end
  end.

Definition semantic_search_left p t : option Point :=
  r ← inline_search_left p (Config.semantic_escape_chars (Term.config t)) t;
  match r with
  | inl p =>
      q ← find_cell (fuel t) t (Grid.iter_from p (Term.grid t));
      Some (from_option id p q)
  | inr p => Some p
  end.

Definition semantic_search_right p t : option Point :=
  r ← inline_search_right p (Config.semantic_escape_chars (Term.config t)) t;
  match r with
  | inl p =>
      '(item, _) ← Grid.GridIterator.prev (Term.grid t) (Grid.iter_from p (Term.grid t));
      Some (from_option fst p item)
  | inr p => Some p
  end.

(** ** Lines *)

(** Whether the line wraps into the next one. *)
Definition wraps (l : Z) t : option bool :=
  cell ← Grid.index_point (Pt l (last_column t)) (Term.grid t);
  Some (Flags.contains (flags cell) Flags.WRAPLINE).

Fixpoint line_left (fuel : nat) (l : Z) t : option Z :=
  match fuel with
  | O => None
  | S fuel =>
      if topmost_line t <? l then
        prev ← i32_sub l 1;
        b ← wraps prev t;
        if b : bool then line_left fuel prev t else Some l
      else Some l
  end.
Definition line_search_left p t : option Point :=
  l ← line_left (fuel t) (line p) t; Some (Pt l 0%nat).

(** [point.line + 1 < self.screen_lines()] compares with the number as an [i32]. *)
Fixpoint line_right (fuel : nat) (l : Z) t : option Z :=
  match fuel with
  | O => None
  | S fuel =>
      next ← i32_add l 1;
      if Line.ltb_usize next (screen_lines t) then
        b ← wraps l t;
        if b : bool then line_right fuel next t else Some l
      else Some l
  end.
Definition line_search_right p t : option Point :=
  l ← line_right (fuel t) (line p) t; Some (Pt l (last_column t)).
End ops.

(** ** Regular expressions *)

Section regex.
Context `{External} `{Hybrid}.
Implicit Types (t : Term.t) (p : Point) (it : Grid.GridIterator.t) (regex : LazyDfa).

(** The call of the function [next], chosen by the direction. *)
Definition advance_in (d : Direction) (g : Grid.t Cell) it :=
  advance (match d with Right => true | Left => false end) g it.

Definition skip_fullwidth (d : Direction) t it (cell : Cell) :
    option (Grid.GridIterator.t * Cell) :=
  let g := Term.grid t in
  match d with
  | Right =>
      if Flags.contains (flags cell) Flags.WIDE_CHAR
         && (column (Grid.GridIterator.point it) <? last_column t)%nat then
        '(_, it) ← Grid.GridIterator.next g it; Some (it, cell)
      else if Flags.contains (flags cell) Flags.LEADING_WIDE_CHAR_SPACER then
        '(item, it) ← Grid.GridIterator.next g it;
        let cell := from_option snd cell item in
        '(_, it) ← Grid.GridIterator.next g it; Some (it, cell)
      else Some (it, cell)
  | Left =>
      if Flags.contains (flags cell) Flags.WIDE_CHAR_SPACER then
        '(item, it) ← Grid.GridIterator.prev g it;
        let cell := from_option snd cell item in
        prev ← Point.sub t BoundaryGrid 1 (Grid.GridIterator.point it);
        before ← Grid.index_point prev g;
        it ← (if Flags.contains (flags before) Flags.LEADING_WIDE_CHAR_SPACER
              then '(_, it) ← Grid.GridIterator.prev g it; Some it else Some it);
        Some (it, cell)
      else Some (it, cell)
  end.

(** The variables of the loop of [regex_search_internal]. *)
Record run := mkRun {
  r_cache : Cache;
  r_state : LazyStateID;
  r_iter : Grid.GridIterator.t;
  r_match : option Point;
  r_done : bool;
  r_c : char;
  r_last_wrapped : bool;
  r_point : Point;
  r_last_point : Point;
  r_consumed : Z;
}.

(** What happens after the bytes of a character, or after an iteration: an error, the end of the
    loop with its variables, the next iteration, or falling through. *)
Inductive outcome := Failed (x : Cache) | Break (r : run) | Continue (r : run) | Through (r : run).

(** The state after [next_state], [next_eoi_state], and the macro [reset_state!]. *)
Definition with_state (s : LazyStateID) (x : Cache) (m : option Point) (n : Z) (r : run) : run :=
  mkRun x s (r_iter r) m (r_done r) (r_c r) (r_last_wrapped r) (r_point r) (r_last_point r) n.
Definition reset_state regex (r : run) (k : run → option outcome) : option outcome :=
  match start_state_forward (dfa regex) (match_all regex) (r_cache r) with
  | (None, x) => Some (Failed x)
  | (Some s, x) => k (with_state s x None 0 r)
  end.

(** The [for] loop over the bytes of a character, in the order of the direction. *)
Fixpoint feed regex (bytes : list N) (i : nat) (r : run) : option outcome :=
  match bytes with
  | [] => Some (Through r)
  | byte :: bytes =>
      match next_state (dfa regex) (r_state r) byte (r_cache r) with
      | (None, x) => Some (Failed x)
      | (Some s, x) =>
          n ← i32_add (r_consumed r) 1;
          let r := with_state s x (r_match r) n r in
          if (i =? 0)%nat && is_match s then
            feed regex bytes (S i) (with_state s x (Some (r_last_point r)) n r)
          else if is_dead s then
            if n =? 2 then
              reset_state regex r (λ r,
                if (i =? 0)%nat then Some (Continue r) else feed regex bytes (S i) r)
            else Some (Break r)
          else feed regex bytes (S i) r
      end
  end.

Definition char_bytes regex (ch : char) : list N :=
  match direction regex with Right => encode_utf8 ch | Left => reverse (encode_utf8 ch) end.

(** The target point is reached: the end of the input. *)
Definition at_end regex (r : run) : outcome :=
  match next_eoi_state (dfa regex) (r_state r) (r_cache r) with
  | (None, x) => Failed x
  | (Some s, x) =>
      Break (with_state s x
        (if is_match s then Some (r_point r)
         else if is_dead s && (r_consumed r =? 1) then None else r_match r) (r_consumed r) r)
  end.

(** The next cell, from the other end of the buffer after the last one. *)
Definition next_cell regex t (r : run) : option (Cell * Grid.GridIterator.t) :=
  let g := Term.grid t in
  '(item, it) ← advance_in (direction regex) g (r_iter r);
  match item with
  | Some (_, cell) => Some (cell, it)
  | None =>
      l ← i32_sub (topmost_line t) (line (r_point r));
      l ← i32_add l (as_i32 (screen_lines t));
      l ← i32_sub l 1;
      col ← usize_sub (last_column t) (column (r_point r));
      let it := Grid.iter_from (Pt l col) g in
      cell ← Grid.GridIterator.cell g it;
      Some (cell, it)
  end.

(** The end of the iteration after the iterator has moved: linebreaks end a match. *)
Definition line_end regex t (wrapped : bool) (r : run) : option outcome :=
  let step r := mkRun (r_cache r) (r_state r) (r_iter r) (r_match r) (r_done r) (r_c r) wrapped
                  (r_point r) (r_last_point r) (r_consumed r) in
  let p := r_point r in
  let q := r_last_point r in
  if ((column q =? last_column t) && (column p =? 0) && negb (r_last_wrapped r)
      || (column q =? 0) && (column p =? last_column t) && negb wrapped)%nat then
    match next_eoi_state (dfa regex) (r_state r) (r_cache r) with
    | (None, x) => Some (Failed x)
    | (Some s, x) =>
        let r := with_state s x (if is_match s then Some q else r_match r) (r_consumed r) r in
        if bool_decide (is_Some (r_match r)) && (negb (is_dead s) || (1 <? r_consumed r))
           && negb (r_consumed r =? 0)
        then Some (Break r)
        else reset_state regex r (λ r, Some (Continue (step r)))
    end
  else Some (Continue (step r)).

(** One iteration of the loop. *)
Definition regex_step regex t (end_ : Point) (r : run) : option outcome :=
  o ← feed regex (char_bytes regex (r_c r)) 0 r;
  match o with
  | Through r =>
      if bool_decide (r_point r = end_) || r_done r then Some (at_end regex r)
      else
        '(cell, it) ← next_cell regex t r;
        let done := bool_decide (Grid.GridIterator.point it = end_) in
        '(it, cell) ← skip_fullwidth (direction regex) t it cell;
        here ← Grid.GridIterator.cell (Term.grid t) it;
        line_end regex t (Flags.contains (flags here) Flags.WRAPLINE)
          (mkRun (r_cache r) (r_state r) it (r_match r) done (c cell) (r_last_wrapped r)
             (Grid.GridIterator.point it) (r_point r) (r_consumed r))
  | _ => Some o
  end.

Fixpoint regex_loop (fuel : nat) regex t (end_ : Point) (r : run) : option (option Point * Cache) :=
  match fuel with
  | O => None
  | S fuel =>
      o ← regex_step regex t end_ r;
      match o with
      | Failed x => Some (None, x)
      | Break r => Some (r_match r, r_cache r)
      | Continue r | Through r => regex_loop fuel regex t end_ r
      end
  end.

(** The variables before the first iteration; the first [unwrap] panics on an error. *)
Definition regex_start regex t (start : Point) : option run :=
  let g := Term.grid t in
  let '(s, x) := start_state_forward (dfa regex) (match_all regex) (cache regex) in
  s ← s;
  let it := Grid.iter_from start g in
  cell ← Grid.GridIterator.cell g it;
  '(it, cell) ← skip_fullwidth (direction regex) t it cell;
  here ← Grid.GridIterator.cell g it;
  let p := Grid.GridIterator.point it in
  Some (mkRun x s it None false (c cell) (Flags.contains (flags here) Flags.WRAPLINE) p p 0).

(** [regex_search] and [regex_search_internal]; [fuel] bounds the iterations of the loop. *)
Definition regex_search (fuel : nat) (start end_ : Point) regex t :
    option (option Point * LazyDfa) :=
  r ← regex_start regex t start;
  '(m, x) ← regex_loop fuel regex t end_ r;
  Some (m, set_cache x regex).

Definition regex_search_left (fuel : nat) (start end_ : Point) t (s : RegexSearch) :
    option (option Match * RegexSearch) :=
  '(match_start, f) ← regex_search fuel start end_ (left_fdfa s) t;
  match match_start with
  | None => Some (None, set_left f (left_rdfa s) s)
  | Some match_start =>
      '(match_end, r) ← regex_search fuel match_start start (left_rdfa s) t;
      Some (e ← match_end; Some (match_start, e), set_left f r s)
  end.

Definition regex_search_right (fuel : nat) (start end_ : Point) t (s : RegexSearch) :
    option (option Match * RegexSearch) :=
  '(match_end, f) ← regex_search fuel start end_ (right_fdfa s) t;
  match match_end with
  | None => Some (None, set_right f (right_rdfa s) s)
  | Some match_end =>
      '(match_start, r) ← regex_search fuel match_end start (right_rdfa s) t;
      Some (b ← match_start; Some (b, match_end), set_right f r s)
  end.
End regex.
End Search.

(** [struct RegexIter], without the references to the terminal and the expression. *)
Module RegexIter.
Record t := mk { point : Point; end_ : Point; direction : Direction; done : bool }.

Section ops.
Context `{External} `{Hybrid}.
Implicit Types (i : t) (term : Term.t) (s : RegexSearch).

Definition new (start end_ : Point) (d : Direction) : t := mk start end_ d false.

Definition skip term i : option t :=
  p ← Term.expand_wide (point i) (direction i) term;
  p ← (match direction i with
       | Right => Point.add term BoundaryNone 1 p
       | Left => Point.sub term BoundaryNone 1 p
       end);
  Some (mk p (end_ i) (direction i) (done i)).

Definition next_match (fuel : nat) term s i : option (option Search.Match * RegexSearch) :=
  match direction i with
  | Right => Search.regex_search_right fuel (point i) (end_ i) term s
  | Left => Search.regex_search_left fuel (point i) (end_ i) term s
  end.

Definition next (fuel : nat) term s i : option (option Search.Match * RegexSearch * t) :=
  if done i then Some (None, s, i)
  else
    let i := if bool_decide (point i = end_ i)
             then mk (point i) (end_ i) (direction i) true else i in
    '(m, s) ← next_match fuel term s i;
    match m with
    | None => Some (None, s, i)
    | Some m =>
        i ← (if bool_decide (m.2 = end_ i)
             then Some (mk m.2 (end_ i) (direction i) true)
             else skip term (mk m.2 (end_ i) (direction i) (done i)));
        Some (Some m, s, i)
    end.

(** [find] on the iterator, started with the item that was peeked at. *)
Fixpoint find (fuel : nat) (p : Search.Match → bool) term s (m : Search.Match) i :
    option (option Search.Match * RegexSearch) :=
  if p m then Some (Some m, s)
  else
    match fuel with
    | O => None
    | S fuel' =>
        '(m, s, i) ← next fuel term s i;
        match m with
        | None => Some (None, s)
        | Some m => find fuel' p term s m i
        end
    end.

(** [peek] and [find], with the first match when nothing is found. *)
Definition first_after (fuel : nat) (p : Search.Match → bool) term s i :
    option (option Search.Match * RegexSearch) :=
  '(first_match, s, i) ← next fuel term s i;
  match first_match with
  | None => Some (None, s)
  | Some first_match =>
      '(m, s) ← find fuel p term s first_match i;
      Some (Some (from_option id first_match m), s)
  end.
End ops.
End RegexIter.

Module SearchNext.
Section ops.
Context `{External} `{Hybrid}.
Implicit Types (t : Term.t) (s : RegexSearch) (origin : Point).

Definition match_side (m : Search.Match) (side : Side) : Point :=
  match side with Right => m.2 | Left => m.1 end.

Definition next_match_right (fuel : nat) origin (side : Side) (max_lines : option nat) t s :=
  start ← Search.line_search_left origin t;
  end_ ← (match max_lines with
          | Some n =>
              l ← Line.add_usize (line start) n;
              l ← Line.grid_clamp t BoundaryNone l;
              Some (Pt l (last_column t))
          | None => Point.sub t BoundaryNone 1 start
          end);
  RegexIter.first_after fuel (λ m,
    let p := match_side m side in
    (line p <? line start) || (line origin <? line p)
    || (line p =? line origin) && (column origin <=? column p)%nat)
    t s (RegexIter.new start end_ Right).

Definition next_match_left (fuel : nat) origin (side : Side) (max_lines : option nat) t s :=
  start ← Search.line_search_right origin t;
  end_ ← (match max_lines with
          | Some n =>
              l ← Line.sub_usize (line start) n;
              l ← Line.grid_clamp t BoundaryNone l;
              Some (Pt l 0%nat)
          | None => Point.add t BoundaryNone 1 start
          end);
  RegexIter.first_after fuel (λ m,
    let p := match_side m side in
    (line start <? line p) || (line p <? line origin)
    || (line p =? line origin) && (column p <=? column origin)%nat)
    t s (RegexIter.new start end_ Left).

Definition search_next (fuel : nat) origin (d : Direction) (side : Side)
    (max_lines : option nat) t s : option (option Search.Match * RegexSearch) :=
  origin ← Term.expand_wide origin d t;
  let max_lines := n ← max_lines; if (n + 1 <? total_lines t)%nat then Some n else None in
  match d with
  | Right => next_match_right fuel origin side max_lines t s
  | Left => next_match_left fuel origin side max_lines t s
  end.
End ops.
End SearchNext.

(** The conversion of selections to ranges of cells and to text. *)
Module SelectionText.
Section ops.
Context `{External}.
Implicit Types (t : Term.t) (s : Selection.t).

Definition range_semantic (start end_ : Point) t : option SelectionRange.t :=
  matching ← (if bool_decide (start = end_) then Search.bracket_search start t else Some None);
  match matching with
  | Some m =>
      if (line m =? line start) && (column m <? column start)%nat || (line m <? line start)
      then Some (SelectionRange.mk m end_ false)
      else Some (SelectionRange.mk start m false)
  | None =>
      start ← Search.semantic_search_left start t;
      end_ ← Search.semantic_search_right end_ t;
      Some (SelectionRange.mk start end_ false)
  end.

Definition range_lines (start end_ : Point) t : option SelectionRange.t :=
  start ← Search.line_search_left start t;
  end_ ← Search.line_search_right end_ t;
  Some (SelectionRange.mk start end_ false).

(** [None] inside is a selection without a range. *)
Definition to_range s t : option (option SelectionRange.t) :=
  let '(start, end_) :=
    if Point.ltb (Selections.point (Selection.end_ s)) (Selections.point (Selection.start s))
    then (Selection.end_ s, Selection.start s) else (Selection.start s, Selection.end_ s) in
  if line (Selections.point end_) <? topmost_line t then Some None
  else
    a ← Point.grid_clamp t BoundaryGrid (Selections.point start);
    b ← Point.grid_clamp t BoundaryGrid (Selections.point end_);
    let start := mkAnchor a (side start) in
    let end_ := mkAnchor b (side end_) in
    match Selection.ty s with
    | Simple => Selection.range_simple start end_ (Grid.columns (Term.grid t)) s
    | Block => Some (Selection.range_block start end_ s)
    | Semantic => Some <$> range_semantic a b t
    | Lines => Some <$> range_lines a b t
    end.

Definition selection_to_string t : option (option text) :=
  match Term.selection t with
  | None => Some None
  | Some s =>
      range ← to_range s t;
      match range with
      | None => Some None
      | Some (SelectionRange.mk start end_ _) =>
          match Selection.ty s with
          | Block =>
              res ← foldM (λ l res,
                str ← Term.line_to_string l (column start) (column end_)
                        (negb (column start =? 0)%nat) t;
                Some (res ++ trim_end str ++ [10%N])) (zrange (line start) (line end_)) [];
              last ← Term.line_to_string (line end_) (column start) (column end_) true t;
              Some (Some (res ++ trim_end last))
          | Lines =>
              res ← Term.bounds_to_string start end_ t; Some (Some (res ++ [10%N]))
          | _ => res ← Term.bounds_to_string start end_ t; Some (Some res)
          end
      end
  end.
End ops.
End SelectionText.

(** [struct RenderableContent]. *)
Module RenderableContent.
Record t `{External} := mk {
  display_iter : Grid.GridIterator.t;
  selection : option SelectionRange.t;
  cursor : RenderableCursor.t;
  display_offset : nat;
  colors : list (option Rgb);
  mode : TermMode;
}.

Definition new `{External} (term : Term.t) : option t :=
  it ← Grid.display_iter (Term.grid term);
  cursor ← RenderableCursor.new term;
  range ← (match Term.selection term with
           | Some s => SelectionText.to_range s term
           | None => Some None
           end);
  Some (mk _ it range cursor (Grid.display_offset (Term.grid term)) (Term.colors term)
          (Term.mode term)).
End RenderableContent.
