(* ===== verification/SearchProps.v ===== *)
(** What the searches of [Searches] find.

    The cells of a buffer are numbered in reading order ([lin], with its inverse [unlin]), and a
    walk of the iterator is a walk over numbers ([advance_at], [ahead]).  With that, the bracket
    search is the usual search for a balanced bracket, and it finds its way back; the inline
    searches look at the cells of one logical line; the line searches find its ends. *)
From S2P Require Import Prelude Index Cells Rows Storages Grids Resizes TermData Selections Terms.
From S2P Require Import Handlers TermSafety TermProps Searches.
#[local] Open Scope Z_scope.

(** * The cells by number *)

Section Positions.
Context `{External} (g : Grid.t Cell).
Context (Hg : grid_ok row_safe g).
Implicit Types (z : Z) (p : Point).

Definition unlin z : Point :=
  Pt (z / Z.of_nat (columns g)) (Z.to_nat (z mod Z.of_nat (columns g))).

Definition first_cell : Z := lin g (first_point g).
Definition last_cell : Z := lin g (last_point g).
Definition cell_at z : option Cell := Grid.index_point (unlin z) g.
Definition char_at z : option char := c <$> cell_at z.

(** The iterator at a cell. *)
Definition iter_at z : Grid.GridIterator.t := Grid.iter_from (unlin z) g.

Lemma lin_unlin z : lin g (unlin z) = z.
Proof using Hg.
  pose proof (g_columns _ Hg). unfold lin, unlin. simpl.
  pose proof (Z.div_mod z (Z.of_nat (Grid.columns g)) ltac:(lia)).
  pose proof (Z.mod_pos_bound z (Z.of_nat (Grid.columns g)) ltac:(lia)). lia.
Qed.

Lemma unlin_column z : (column (unlin z) < columns g)%nat.
Proof using Hg.
  pose proof (g_columns _ Hg). simpl.
  pose proof (Z.mod_pos_bound z (Z.of_nat (Grid.columns g)) ltac:(lia)). lia.
Qed.

Lemma unlin_lin p : (column p < columns g)%nat → unlin (lin g p) = p.
Proof using Hg.
  intros Hp. apply (lin_inj g); [apply unlin_column|done|]. apply lin_unlin.
Qed.

Lemma in_grid_unlin z : in_grid g (unlin z) ↔ first_cell <= z <= last_cell.
Proof using Hg.
  rewrite (lin_in_grid g (grid_dims g Hg)), lin_unlin. pose proof (unlin_column z).
  unfold first_cell, last_cell. tauto.
Qed.

Lemma in_grid_lin p :
  in_grid g p ↔ (column p < columns g)%nat ∧ first_cell <= lin g p <= last_cell.
Proof using Hg. apply (lin_in_grid g (grid_dims g Hg)). Qed.

Lemma cell_at_ok z : first_cell <= z <= last_cell → is_Some (cell_at z).
Proof using Hg. intros Hz. apply (index_point_ok g _ Hg). by apply in_grid_unlin. Qed.

Lemma iter_from_at p : (column p < columns g)%nat → Grid.iter_from p g = iter_at (lin g p).
Proof using Hg. intros Hp. unfold iter_at. by rewrite unlin_lin. Qed.

(** The cells that are left in a direction, in the order of the iterator. *)
Definition ahead (forward : bool) z : list Z :=
  if forward then zrange (z + 1) (last_cell + 1) else reverse (zrange first_cell z).

Definition step_to (forward : bool) z : Z := if forward then z + 1 else z - 1.

Lemma ahead_step forward z :
  first_cell <= z <= last_cell →
  ahead forward z = if decide (first_cell <= step_to forward z <= last_cell)
                    then step_to forward z :: ahead forward (step_to forward z) else [].
Proof using Type.
  intros Hz. unfold ahead, step_to, zrange. destruct forward; case_decide.
  - rewrite seqZ_cons by lia. do 2 f_equal; lia.
  - by rewrite seqZ_nil by lia.
  - replace (z - first_cell) with (z - 1 - first_cell + 1) by lia.
    rewrite seqZ_app by lia. rewrite (seqZ_cons _ 1) by lia. rewrite (seqZ_nil (Z.succ _)) by lia.
    rewrite reverse_app. simpl. f_equal. lia.
  - by rewrite seqZ_nil by lia.
Qed.

Lemma advance_at forward z :
  first_cell <= z <= last_cell →
  let z' := step_to forward z in
  Search.advance forward g (iter_at z)
    = Some (if decide (first_cell <= z' <= last_cell)
            then (x ← cell_at z'; Some (unlin z', x), iter_at z')
            else (None, iter_at z)).
Proof using Hg.
  intros Hz z'. pose proof (grid_dims _ Hg) as Hd. pose proof (in_grid_unlin z) as [_ Hin].
  specialize (Hin Hz). assert (in_grid g (last_point g)) as Hlast.
  { dims Hd. unfold last_point, last_column. split; simpl in *; lia. }
  assert (∀ it' c, in_grid g (Grid.GridIterator.point it') →
    Grid.GridIterator.end_ it' = last_point g →
    Grid.index_point (Grid.GridIterator.point it') g = Some c →
    lin g (Grid.GridIterator.point it') = z' →
    Some (Some (Grid.GridIterator.point it', c), it')
      = Some (if decide (first_cell <= z' <= last_cell)
              then (x ← cell_at z'; Some (unlin z', x), iter_at z') else (None, iter_at z)))
    as Hfound.
  { intros [p e] c Hp He Hc <-. simpl in *. subst e. apply in_grid_lin in Hp as [Hpc Hp].
    rewrite decide_True by done. unfold cell_at, iter_at, Grid.iter_from.
    rewrite unlin_lin by done. by rewrite Hc. }
  unfold Search.advance. destruct forward; unfold step_to in z'; subst z'.
  - pose proof (next_ok g (iter_at z) Hg Hin Hlast) as Hwp.
    apply wp_some in Hwp as ([item it'] & -> & He & Hspec).
    cbn [iter_at Grid.iter_from Grid.GridIterator.point Grid.GridIterator.end_] in Hspec.
    fold (last_point g) in Hspec.
    assert (Point.leb (last_point g) (unlin z) = negb (z <? last_cell)) as El.
    { pose proof (ltb_lin g (unlin z) (last_point g) (unlin_column z) (proj2 Hlast)) as E.
      rewrite lin_unlin in E. unfold last_cell. rewrite <- E. unfold Point.leb, Point.ltb, Point.cmp.
      rewrite (Z.compare_antisym (line (unlin z))), (Nat.compare_antisym (column (unlin z))).
      by destruct (_ ?= _), (_ ?= _)%nat. }
    rewrite El in Hspec. destruct (z <? last_cell) eqn:E; simpl in Hspec; bools.
    + destruct Hspec as (c & -> & Hc & Hp & Hl). rewrite lin_unlin in Hl. by apply Hfound.
    + destruct Hspec as [-> ->]. by rewrite decide_False by lia.
  - destruct Hin as [Hl Hc]. pose proof (prev_ok g (iter_at z) Hg Hl ltac:(simpl in *; lia)) as Hwp.
    apply wp_some in Hwp as ([item it'] & -> & He & Hspec).
    cbn [iter_at Grid.iter_from Grid.GridIterator.point Grid.GridIterator.end_] in Hspec.
    assert (unlin z = first_point g ↔ z = first_cell) as El.
    { unfold first_cell. split; intros E; [by rewrite <- E, lin_unlin|]. subst z.
      apply unlin_lin. dims Hd. simpl in *. lia. }
    destruct (decide (unlin z = first_point g)) as [E|E].
    + destruct Hspec as [-> ->]. apply El in E. by rewrite decide_False by lia.
    + destruct Hspec as (c & -> & Hx & Hp & Hlin). rewrite lin_unlin in Hlin. by apply Hfound.
Qed.

Lemma length_ahead forward z :
  first_cell <= z <= last_cell →
  (length (ahead forward z) < total_lines g * columns g)%nat.
Proof using Hg.
  intros Hz. pose proof (grid_dims _ Hg) as Hd. dims Hd. unfold ahead.
  assert (last_cell - first_cell < Z.of_nat (total_lines g) * Z.of_nat (columns g)) as Hc.
  { unfold last_cell, first_cell, lin, last_point, first_point, last_column. simpl in *. nia. }
  destruct forward; [|rewrite length_reverse]; rewrite length_zrange; lia.
Qed.

(** * Brackets *)

Implicit Types (open close : char) (n : Z) (zs : list Z) (i j : nat).

(** The nesting depth after some cells. *)
Definition weight open close z : Z :=
  match char_at z with
  | Some ch => if (ch =? open)%N then 1 else if (ch =? close)%N then -1 else 0
  | None => 0
  end.
Definition depth open close zs : Z := foldr (λ z n, weight open close z + n) 0 zs.

(** The bracket that closes depth [n] is at index [i]. *)
Definition closes open close n zs i : Prop :=
  ∃ z, zs !! i = Some z ∧ char_at z = Some close ∧ n + depth open close (take i zs) = 0.

(** The result is the first one. *)
Definition first_close open close n zs (r : option Z) : Prop :=
  match r with
  | Some z => ∃ i, zs !! i = Some z ∧ closes open close n zs i ∧
      ∀ j, (j < i)%nat → ¬ closes open close n zs j
  | None => ∀ i, ¬ closes open close n zs i
  end.

Lemma closes_cons open close n z zs i :
  closes open close n (z :: zs) i ↔
  match i with
  | O => char_at z = Some close ∧ n = 0
  | S i => closes open close (n + weight open close z) zs i
  end.
Proof using Type.
  unfold closes. destruct i as [|i]; simpl.
  - split; [intros (? & [= <-] & ? & ?); split; [done|lia]|].
    intros [? ->]. by exists z.
  - by setoid_rewrite (Z.add_assoc n).
Qed.

Lemma first_close_cons open close n z zs r :
  ¬ (char_at z = Some close ∧ n = 0) →
  first_close open close (n + weight open close z) zs r →
  first_close open close n (z :: zs) r.
Proof using Type.
  intros Hz. destruct r as [q|]; simpl.
  - intros (i & Hi & Hc & Hj). exists (S i). split; [done|]. split.
    + by apply closes_cons.
    + intros [|j] Hlt Hcl; apply closes_cons in Hcl; [done|]. by apply (Hj j); [lia|].
  - intros Hnone [|i] Hcl; apply closes_cons in Hcl; [done|]. by apply (Hnone i).
Qed.

Lemma bracket_scan_ok fuel forward open close n z :
  open ≠ close → first_cell <= z <= last_cell →
  (length (ahead forward z) < fuel)%nat →
  - I32_MAX <= n - Z.of_nat fuel → n + Z.of_nat fuel <= I32_MAX →
  ∃ r, Search.bracket_scan fuel forward open close n g (iter_at z) = Some (unlin <$> r) ∧
    first_close open close n (ahead forward z) r.
Proof using Hg.
  intros Hne. revert n z. induction fuel as [|fuel IH]; intros n z Hz Hf Hlo Hhi; [lia|].
  cbn [Search.bracket_scan]. rewrite advance_at by done. rewrite ahead_step in Hf |- * by done.
  case_decide as Hz'; mrun; [|exists None; split; [done|]; by intros i (? & [=] & _)].
  set (z' := step_to forward z) in *. destruct (cell_at_ok z' Hz') as [x Hx]. rewrite Hx. mrun.
  assert (char_at z' = Some (c x)) as Hch by (unfold char_at; by rewrite Hx).
  assert (weight open close z'
    = if (c x =? open)%N then 1 else if (c x =? close)%N then -1 else 0) as Hw
    by (unfold weight; by rewrite Hch).
  simpl in Hf.
  assert (∀ n', n' = n + weight open close z' →
    ¬ (char_at z' = Some close ∧ n = 0) →
    ∃ r, Search.bracket_scan fuel forward open close n' g (iter_at z') = Some (unlin <$> r) ∧
      first_close open close n (z' :: ahead forward z') r) as Hrec.
  { intros n' -> Hno. destruct (IH (n + weight open close z') z') as (r & Hr & Hfc); [done|lia|..].
    1-2: rewrite Hw; repeat case_match; lia.
    exists r. split; [done|]. by apply first_close_cons. }
  destruct (_ && _) eqn:E1.
  { bools. apply N.eqb_eq in H0. exists (Some z'). split; [done|].
    exists 0%nat. split; [done|]. split; [|lia]. apply closes_cons. split; [congruence|done]. }
  rewrite Hw, Hch in Hrec. destruct (c x =? open)%N eqn:E2.
  { apply N.eqb_eq in E2. rewrite i32_add_ok by lia. mrun. apply Hrec; [done|].
    intros [[= ?] _]. congruence. }
  destruct (c x =? close)%N eqn:E3.
  - simpl in E1. bools. rewrite i32_sub_ok by lia. mrun. apply Hrec; [done|]. by intros [_ ?].
  - apply N.eqb_neq in E3. apply Hrec; [lia|]. intros [[= ?] _]. congruence.
Qed.

Lemma depth_app open close zs zs' :
  depth open close (zs ++ zs') = depth open close zs + depth open close zs'.
Proof using Type. induction zs as [|z zs IH]; simpl; [done|]. rewrite IH. lia. Qed.

Lemma depth_reverse open close zs : depth open close (reverse zs) = depth open close zs.
Proof using Type.
  induction zs as [|z zs IH]; [done|]. rewrite reverse_cons, depth_app, IH. simpl. lia.
Qed.

Lemma depth_swap open close zs :
  open ≠ close → depth close open zs = - depth open close zs.
Proof using Type.
  intros Hne. induction zs as [|z zs IH]; simpl; [done|]. rewrite IH.
  assert (weight close open z = - weight open close z); [|lia]. unfold weight.
  destruct (char_at z) as [ch|]; [|done].
  destruct (N.eqb_spec ch open), (N.eqb_spec ch close); [congruence|done..].
Qed.

(** Before the first match no prefix has closed more than it opened. *)
Lemma depth_prefix open close zs i j :
  open ≠ close → (i <= length zs)%nat →
  (∀ j, (j < i)%nat → ¬ closes open close 0 zs j) → (j <= i)%nat →
  0 <= depth open close (take j zs).
Proof using Type.
  intros Hne Hi Hno. induction j as [|j IH]; intros Hj; [done|].
  destruct (lookup_lt_is_Some_2 zs j ltac:(lia)) as [z Hz]. specialize (IH ltac:(lia)).
  rewrite (take_S_r _ _ z) by done. rewrite depth_app. simpl. unfold weight.
  destruct (char_at z) as [ch|] eqn:Hch; [|lia].
  destruct (N.eqb_spec ch open); [lia|]. destruct (N.eqb_spec ch close); [|lia].
  destruct (decide (depth open close (take j zs) = 0)); [|lia].
  destruct (Hno j ltac:(lia)). exists z. split; [done|]. split; [congruence|lia].
Qed.

(** The cells on the way back. *)
Lemma ahead_back forward z i q :
  first_cell <= z <= last_cell → ahead forward z !! i = Some q →
  first_cell <= q <= last_cell ∧
  ∃ rest, ahead (negb forward) q = reverse (take i (ahead forward z)) ++ z :: rest.
Proof using Type.
  intros Hz Hi. assert (∀ a b c, a <= b → b < c → zrange a c = zrange a b ++ b :: zrange (b + 1) c)
    as Hsplit.
  { intros a b e H1 H2. unfold zrange. replace (e - a) with ((b - a) + (e - b)) by lia.
    rewrite seqZ_app by lia. f_equal. rewrite seqZ_cons by lia. f_equal; [lia|]. f_equal; lia. }
  unfold ahead in *. destruct forward; simpl.
  - apply lookup_zrange in Hi as [-> Hq]. split; [lia|].
    exists (reverse (zrange first_cell z)). rewrite (Hsplit first_cell z (z + 1 + Z.of_nat i)) by lia.
    rewrite reverse_app, reverse_cons, <- app_assoc. f_equal. f_equal.
    rewrite (Hsplit (z + 1) (z + 1 + Z.of_nat i) (last_cell + 1)) by lia.
    rewrite take_app_length' by (rewrite length_zrange; lia). done.
  - apply lookup_reverse_zrange in Hi as [-> Hq]. split; [lia|].
    exists (zrange (z + 1) (last_cell + 1)).
    rewrite (Hsplit (z - 1 - Z.of_nat i + 1) z (last_cell + 1)) by lia. f_equal.
    rewrite (Hsplit first_cell (z - 1 - Z.of_nat i) z) by lia.
    rewrite reverse_app, reverse_cons, <- app_assoc.
    rewrite take_app_length' by (rewrite length_reverse, length_zrange; lia).
    by rewrite reverse_involutive.
Qed.

Lemma first_close_unique open close n zs r r' :
  first_close open close n zs r → first_close open close n zs r' → r = r'.
Proof using Type.
  destruct r as [q|], r' as [q'|]; simpl;
    [|by intros (i & _ & Hc & _) Hno; destruct (Hno i)
     |by intros Hno (i & _ & Hc & _); destruct (Hno i)|done].
  intros (i & Hi & Hc & Hno) (j & Hj & Hc' & Hno').
  destruct (lt_eq_lt_dec i j) as [[Hlt| ->]|Hlt]; [by destruct (Hno' i)|congruence|by destruct (Hno j)].
Qed.

Lemma first_close_back open close forward z q :
  open ≠ close → first_cell <= z <= last_cell → char_at z = Some open →
  first_close open close 0 (ahead forward z) (Some q) →
  first_close close open 0 (ahead (negb forward) q) (Some z).
Proof using Type.
  intros Hne Hz Hch (i & Hi & (q' & Hq' & Hcl & Hd) & Hno). assert (q' = q) as -> by congruence.
  destruct (ahead_back forward z i q Hz Hi) as (Hq & rest & E). rewrite E.
  set (zs := ahead forward z) in *. pose proof (lookup_lt_Some _ _ _ Hi) as Hlen.
  assert (length (reverse (take i zs)) = i) as Hli by (rewrite length_reverse, length_take; lia).
  assert ((reverse (take i zs) ++ z :: rest) !! i = Some z) as Hzi.
  { rewrite lookup_app_r by lia. by rewrite Hli, Nat.sub_diag. }
  exists i. split; [done|]. split.
  { exists z. split; [done|]. split; [done|].
    rewrite take_app_le by lia. rewrite take_ge by lia.
    rewrite depth_reverse, depth_swap by done. lia. }
  intros j Hj (y & Hy & Hyc & Hyd). rewrite lookup_app_l in Hy by lia.
  rewrite take_app_le in Hyd by lia.
  rewrite reverse_lookup in Hy by (rewrite length_take; lia).
  rewrite length_take, Nat.min_l in Hy by lia.
  set (k := (i - S j)%nat) in *. rewrite lookup_take_lt in Hy by lia.
  assert (take i zs = take k zs ++ y :: take j (drop (S k) zs)) as Etake.
  { rewrite <- (take_drop k (take i zs)). f_equal; [rewrite take_take; f_equal; lia|].
    rewrite skipn_firstn_comm. replace (i - k)%nat with (S j) by lia.
    by rewrite (drop_S _ y) by done. }
  assert (take j (reverse (take i zs)) = reverse (take j (drop (S k) zs))) as Erev.
  { rewrite Etake, reverse_app, reverse_cons, <- app_assoc.
    rewrite take_app_length'; [done|]. rewrite length_reverse, length_take, length_drop. lia. }
  rewrite Erev, depth_reverse, depth_swap in Hyd by done.
  pose proof (depth_prefix open close zs i k Hne ltac:(lia) Hno ltac:(lia)) as Hpos.
  rewrite Etake, depth_app in Hd. simpl in Hd. unfold weight in Hd. rewrite Hyc, N.eqb_refl in Hd.
  lia.
Qed.

(** * Logical lines *)

(** A logical line goes on over the lines that wrap. *)
Definition wraps_at l : bool :=
  match Grid.index_point (Pt l (last_column g)) g with
  | Some cell => Flags.contains (flags cell) Flags.WRAPLINE
  | None => false
  end.

Definition flag_at (f : Cell → bool) z : bool := from_option f false (cell_at z).
Definition break_at z : bool :=
  flag_at (λ x, (column (unlin z) =? columns g - 1)%nat
                && negb (Flags.contains (flags x) Flags.WRAPLINE)) z.
Definition needle_at (needles : text) z : bool := flag_at (Search.is_needle needles) z.

Fixpoint upto_break zs : list Z :=
  match zs with [] => [] | z :: zs => if break_at z then [z] else z :: upto_break zs end.
Fixpoint before_break zs : list Z :=
  match zs with [] => [] | z :: zs => if break_at z then [] else z :: before_break zs end.

(** The cells of the logical line on one side of a cell, nearest first. *)
Definition rest_of_line (forward : bool) z : list Z :=
  if forward then if break_at z then [] else upto_break (ahead true z)
  else before_break (ahead false z).

(** The first needle among some cells, or the last cell. *)
Definition nearest (needles : text) z zs : Point + Point :=
  match list_find (λ q, needle_at needles q = true) zs with
  | Some (_, q) => inl (unlin q)
  | None => inr (unlin (default z (last zs)))
  end.

Lemma nearest_cons needles z q zs :
  nearest needles z (q :: zs)
    = if needle_at needles q then inl (unlin q) else nearest needles q zs.
Proof using Type.
  unfold nearest. simpl. destruct (needle_at needles q) eqn:E.
  - by rewrite decide_True.
  - rewrite decide_False by congruence.
    destruct (list_find _ zs) as [[]|]; [done|]. rewrite last_cons. by destruct (last zs).
Qed.

Lemma flag_at_cell f z x : cell_at z = Some x → flag_at f z = f x.
Proof using Type. unfold flag_at. by intros ->. Qed.
End Positions.

#[global] Arguments ahead {_} _ _ _ : simpl never.

(** * The loops *)

Section Loops.
Context `{External} (t : Term.t).
Context (Hg : grid_ok row_safe (Term.grid t)).
#[local] Abbreviation g := (Term.grid t).
Implicit Types (z l : Z) (p : Point).

Lemma wraps_ok l :
  topmost_line t <= l <= bottommost_line t → Search.wraps l t = Some (wraps_at g l).
Proof using Hg.
  intros Hl. unfold Search.wraps, wraps_at.
  destruct (index_point_ok g (Pt l (last_column t)) Hg) as [x Hx].
  - pose proof (g_columns _ Hg). split; [exact Hl|]. unfold last_column. simpl in *. lia.
  - change (last_column g) with (last_column t). by rewrite Hx.
Qed.

Lemma line_left_ok fuel l :
  topmost_line t <= l <= bottommost_line t → l - topmost_line t < Z.of_nat fuel →
  wp (Search.line_left fuel l t) (λ l', topmost_line t <= l' <= l ∧
    (∀ k, l' <= k < l → wraps_at g k = true) ∧
    (l' = topmost_line t ∨ wraps_at g (l' - 1) = false)).
Proof using Hg.
  pose proof (grid_dims _ Hg) as Hd. dims Hd.
  revert l. induction fuel as [|fuel IH]; intros l Hl Hf; [lia|]. simpl.
  destruct (topmost_line t <? l) eqn:E; bools.
  - change (topmost_line t) with (topmost_line g) in *.
    change (bottommost_line t) with (bottommost_line g) in *.
    wp_step. wp_step. rewrite wraps_ok by (change (topmost_line t) with (topmost_line g);
      change (bottommost_line t) with (bottommost_line g); lia). mrun.
    destruct (wraps_at g (l - 1)) eqn:Ew.
    + wp_call (IH (l - 1)); [lia|lia|]. intros l' (Hl' & Hk & Hend). split; [lia|]. split; [|done].
      intros k Hk'. destruct (decide (k = l - 1)) as [->|]; [done|]. apply Hk. lia.
    + split; [lia|]. split; [lia|]. by right.
  - simpl. split; [lia|]. split; [lia|]. left. lia.
Qed.

Lemma line_right_ok fuel l :
  topmost_line t <= l <= bottommost_line t → bottommost_line t - l < Z.of_nat fuel →
  wp (Search.line_right fuel l t) (λ l', l <= l' <= bottommost_line t ∧
    (∀ k, l <= k < l' → wraps_at g k = true) ∧
    (l' = bottommost_line t ∨ wraps_at g l' = false)).
Proof using Hg.
  pose proof (grid_dims _ Hg) as Hd. dims Hd.
  change (topmost_line t) with (topmost_line g) in *.
  change (bottommost_line t) with (bottommost_line g) in *.
  revert l. induction fuel as [|fuel IH]; intros l Hl Hf; [lia|]. cbn [Search.line_right].
  wp_step. wp_step. unfold Line.ltb_usize.
  change (as_i32 (screen_lines t)) with (as_i32 (screen_lines g)).
  destruct (l + 1 <? as_i32 (screen_lines g)) eqn:E; bools.
  - rewrite wraps_ok by done. mrun. destruct (wraps_at g l) eqn:Ew.
    + wp_call (IH (l + 1)); [lia|lia|]. intros l' (Hl' & Hk & Hend). split; [lia|]. split; [|done].
      intros k Hk'. destruct (decide (k = l)) as [->|]; [done|]. apply Hk. lia.
    + split; [lia|]. split; [lia|]. by right.
  - simpl. split; [lia|]. split; [lia|]. left. lia.
Qed.

Lemma line_break_at z x :
  cell_at g z = Some x → Search.line_break t (unlin g z) x = break_at g z.
Proof using Type. intros Hx. unfold break_at. by rewrite (flag_at_cell _ _ _ x Hx). Qed.

Lemma inline_right_ok fuel needles z :
  first_cell g <= z <= last_cell g → (length (ahead g true z) < fuel)%nat →
  Search.inline_right fuel needles t (iter_at g z) (unlin g z)
    = Some (nearest g needles z (upto_break g (ahead g true z))).
Proof using Hg.
  revert z. induction fuel as [|fuel IH]; intros z Hz Hf; [lia|]. cbn [Search.inline_right].
  pose proof (advance_at g Hg true z Hz) as Ha. cbn [Search.advance] in Ha.
  rewrite Ha. rewrite ahead_step in Hf |- * by done.
  case_decide as Hz'; mrun; [|done].
  set (z' := step_to true z) in *. destruct (cell_at_ok g Hg z' Hz') as [x Hx]. rewrite Hx. mrun.
  rewrite (line_break_at z' x Hx). simpl in Hf.
  rewrite <- (flag_at_cell g (Search.is_needle needles) z' x Hx). fold (needle_at g needles z').
  simpl. destruct (break_at g z') eqn:Eb; rewrite nearest_cons;
    destruct (needle_at g needles z'); [done|done|done|]. apply IH; [done|lia].
Qed.

Lemma inline_left_ok fuel needles z :
  first_cell g <= z <= last_cell g → (length (ahead g false z) < fuel)%nat →
  Search.inline_left fuel needles t (iter_at g z) (unlin g z)
    = Some (nearest g needles z (before_break g (ahead g false z))).
Proof using Hg.
  revert z. induction fuel as [|fuel IH]; intros z Hz Hf; [lia|]. cbn [Search.inline_left].
  pose proof (advance_at g Hg false z Hz) as Ha. cbn [Search.advance] in Ha.
  rewrite Ha. rewrite ahead_step in Hf |- * by done.
  case_decide as Hz'; mrun; [|done].
  set (z' := step_to false z) in *. destruct (cell_at_ok g Hg z' Hz') as [x Hx]. rewrite Hx. mrun.
  rewrite (line_break_at z' x Hx). simpl in Hf.
  rewrite <- (flag_at_cell g (Search.is_needle needles) z' x Hx). fold (needle_at g needles z').
  simpl. destruct (break_at g z') eqn:Eb; [done|]. rewrite nearest_cons.
  destruct (needle_at g needles z'); [done|]. apply IH; [done|lia].
Qed.
End Loops.

(** * Words and ranges *)

Section Ranges.
Context `{External} (t : Term.t).
Context (Hg : grid_ok row_safe (Term.grid t)).
#[local] Abbreviation g := (Term.grid t).
Implicit Types (z l : Z) (p q : Point) (zs : list Z).

Lemma fuel_ok forward z :
  first_cell g <= z <= last_cell g → (length (ahead g forward z) < Search.fuel t)%nat.
Proof using Hg.
  intros Hz. pose proof (length_ahead g Hg forward z Hz). unfold Search.fuel. simpl in *. lia.
Qed.

Lemma lines_fuel l :
  topmost_line t <= l <= bottommost_line t →
  l - topmost_line t < Z.of_nat (Search.fuel t) ∧ bottommost_line t - l < Z.of_nat (Search.fuel t).
Proof using Hg.
  intros Hl. pose proof (grid_dims _ Hg) as Hd. dims Hd. unfold Search.fuel.
  change (topmost_line t) with (topmost_line g) in *.
  change (bottommost_line t) with (bottommost_line g) in *.
  change (total_lines t) with (total_lines g). change (columns t) with (columns g). nia.
Qed.

Lemma elem_of_ahead forward z (q : Z) :
  q ∈ ahead g forward z ↔
  if forward then z < q <= last_cell g else first_cell g <= q < z.
Proof using Type.
  unfold ahead. destruct forward; [|rewrite elem_of_reverse]; rewrite elem_of_zrange; lia.
Qed.

Lemma rest_of_line_ahead forward z (q : Z) :
  q ∈ rest_of_line g forward z → q ∈ ahead g forward z.
Proof using Type.
  unfold rest_of_line. destruct forward.
  - destruct (break_at g z); [by intros ?%elem_of_nil|].
    induction (ahead g true z) as [|y ys IH]; simpl; [done|].
    destruct (break_at g y); rewrite !elem_of_cons; [|tauto].
    intros [->|?%elem_of_nil]; [by left|done].
  - induction (ahead g false z) as [|y ys IH]; simpl; [done|].
    destruct (break_at g y); [by intros ?%elem_of_nil|]. rewrite !elem_of_cons. tauto.
Qed.

Lemma inline_search_left_ok needles z :
  first_cell g <= z <= last_cell g →
  Search.inline_search_left (unlin g z) needles t
    = Some (nearest g needles z (rest_of_line g false z)).
Proof using Hg.
  intros Hz. pose proof (g_columns _ Hg). apply (in_grid_unlin g Hg) in Hz as Hin.
  destruct Hin as [Hl Hc]. unfold Search.inline_search_left.
  rewrite Z.max_l by apply Hl. rewrite usize_sub_ok by (simpl; lia). mrun.
  rewrite <- (inline_left_ok t Hg (Search.fuel t)) by (by try apply fuel_ok).
  reflexivity.
Qed.

Lemma inline_search_right_ok needles z :
  first_cell g <= z <= last_cell g →
  Search.inline_search_right (unlin g z) needles t
    = Some (nearest g needles z (rest_of_line g true z)).
Proof using Hg.
  intros Hz. pose proof (g_columns _ Hg). apply (in_grid_unlin g Hg) in Hz as Hin.
  destruct Hin as [Hl Hc]. unfold Search.inline_search_right.
  rewrite Z.max_l by apply Hl. rewrite usize_sub_ok by (simpl; lia). mrun.
  destruct (cell_at_ok g Hg z Hz) as [x Hx]. unfold rest_of_line, break_at.
  rewrite (flag_at_cell _ _ _ x Hx).
  change (Pt (line (unlin g z)) (column (unlin g z))) with (unlin g z).
  change (columns t) with (columns g).
  destruct (column (unlin g z) =? columns g - 1)%nat eqn:Ec; cbn [andb].
  - change (Grid.index_point (unlin g z) g) with (cell_at g z). rewrite Hx. mrun.
    destruct (negb _); [done|]. apply inline_right_ok; [done|done|by apply fuel_ok].
  - apply inline_right_ok; [done|done|by apply fuel_ok].
Qed.

(** The nearest needle, or the end of the line, lies on the side that is searched. *)
Lemma nearest_range forward needles z :
  first_cell g <= z <= last_cell g →
  match nearest g needles z (rest_of_line g forward z) with
  | inl q => ∃ y, q = unlin g y ∧ y ∈ ahead g forward z
  | inr q => ∃ y, q = unlin g y ∧ (y = z ∨ y ∈ ahead g forward z)
  end.
Proof using Type.
  intros Hz. unfold nearest.
  destruct (list_find _ (rest_of_line g forward z)) as [[i y]|] eqn:E.
  - apply list_find_Some in E as (Hy & _ & _). exists y. split; [done|].
    apply rest_of_line_ahead. apply list_elem_of_lookup. eauto.
  - destruct (last (rest_of_line g forward z)) as [y|] eqn:El; simpl.
    + exists y. split; [done|]. right. apply rest_of_line_ahead.
      rewrite last_lookup in El. apply list_elem_of_lookup. eauto.
    + exists z. split; [done|by left].
Qed.

Definition spacer_at z : bool := flag_at g (λ x, Flags.intersects (flags x) Search.wide_spacer) z.

Lemma find_cell_ok fuel z :
  first_cell g <= z <= last_cell g → (length (ahead g true z) < fuel)%nat →
  wp (Search.find_cell fuel t (iter_at g z)) (λ r,
    match r with
    | Some q => ∃ y, q = unlin g y ∧ z < y <= last_cell g ∧
        ∀ k, z < k < y → spacer_at k = true
    | None => ∀ k, z < k <= last_cell g → spacer_at k = true
    end).
Proof using Hg.
  revert z. induction fuel as [|fuel IH]; intros z Hz Hf; [lia|]. cbn [Search.find_cell].
  pose proof (advance_at g Hg true z Hz) as Ha. cbn [Search.advance] in Ha.
  rewrite Ha. rewrite ahead_step in Hf by done.
  case_decide as Hz'; mrun; [|unfold step_to in Hz'; lia].
  set (z' := step_to true z) in *. destruct (cell_at_ok g Hg z' Hz') as [x Hx]. rewrite Hx. mrun.
  simpl in Hf. assert (z' = z + 1) as Ez by done. clearbody z'.
  destruct (negb _) eqn:E.
  - wp_step. exists z'. split; [done|]. split; [lia|]. intros k Hk. lia.
  - bools. assert (spacer_at z' = true) as Hsp by (unfold spacer_at; by erewrite flag_at_cell).
    wp_call (IH z'); [done|lia|]. intros [q|].
    + intros (y & -> & Hy & Hk). exists y. split; [done|]. split; [lia|]. intros k Hk'.
      destruct (decide (k = z')) as [->|]; [done|]. apply Hk. lia.
    + intros Hk k Hk'. destruct (decide (k = z')) as [->|]; [done|]. apply Hk. lia.
Qed.

Lemma semantic_search_left_ok z :
  first_cell g <= z <= last_cell g →
  wp (Search.semantic_search_left (unlin g z) t) (λ q, in_grid g q ∧
    (spacer_at z = false → lin g q <= z)).
Proof using Hg.
  intros Hz. unfold Search.semantic_search_left. rewrite inline_search_left_ok by done. mrun.
  pose proof (nearest_range false (Config.semantic_escape_chars (Term.config t)) z Hz) as Hr.
  destruct (nearest _ _ _ _) as [q|q].
  - destruct Hr as (y & -> & Hy%elem_of_ahead). simpl in Hy. wp_step.
    wp_call (find_cell_ok (Search.fuel t) y); [lia|apply fuel_ok; lia|].
    intros [q|]; cbn [from_option id]; intros Hq; wp_step.
    + destruct Hq as (k & -> & Hk & Hno). rewrite lin_unlin by done. split.
      * apply (in_grid_unlin g Hg). lia.
      * intros Hsp. destruct (decide (k <= z)) as [|Hgt]; [done|].
        rewrite Hno in Hsp by lia. done.
    + rewrite lin_unlin by done. split; [apply (in_grid_unlin g Hg)|]; lia.
  - destruct Hr as (y & -> & Hy). rewrite elem_of_ahead in Hy. simpl in Hy. wp_step.
    rewrite lin_unlin by done. split; [apply (in_grid_unlin g Hg)|]; lia.
Qed.

Lemma semantic_search_right_ok z :
  first_cell g <= z <= last_cell g →
  wp (Search.semantic_search_right (unlin g z) t) (λ q, in_grid g q ∧ z <= lin g q).
Proof using Hg.
  intros Hz. unfold Search.semantic_search_right. rewrite inline_search_right_ok by done. mrun.
  pose proof (nearest_range true (Config.semantic_escape_chars (Term.config t)) z Hz) as Hr.
  destruct (nearest _ _ _ _) as [q|q].
  - destruct Hr as (y & -> & Hy%elem_of_ahead). simpl in Hy.
    pose proof (advance_at g Hg false y ltac:(lia)) as Ha. cbn [Search.advance] in Ha.
    fold (iter_at g y). rewrite Ha. unfold step_to. rewrite decide_True by lia. mrun.
    destruct (cell_at_ok g Hg (y - 1) ltac:(lia)) as [x Hx]. rewrite Hx. mrun.
    cbn [from_option fst]. rewrite lin_unlin by done.
    split; [apply (in_grid_unlin g Hg)|]; lia.
  - destruct Hr as (y & -> & Hy). rewrite elem_of_ahead in Hy. simpl in Hy. wp_step.
    rewrite lin_unlin by done. split; [apply (in_grid_unlin g Hg)|]; lia.
Qed.

(** ** Brackets and selections *)

Lemma find_pair_back ch forward close :
  Search.find_pair Search.BRACKET_PAIRS ch = Some (forward, close) →
  ch ≠ close ∧ Search.find_pair Search.BRACKET_PAIRS close = Some (negb forward, ch).
Proof using Type.
  intros Hf. cbn [Search.find_pair Search.BRACKET_PAIRS] in Hf.
  repeat case_match; simplify_eq;
    match goal with E : (_ =? ch)%N = true |- _ => apply N.eqb_eq in E; subst ch end; by split.
Qed.

Lemma bracket_search_ok z x :
  Z.of_nat (total_lines t * columns t) < I32_MAX →
  first_cell g <= z <= last_cell g → cell_at g z = Some x →
  ∃ r, Search.bracket_search (unlin g z) t = Some (unlin g <$> r) ∧
    match Search.find_pair Search.BRACKET_PAIRS (c x) with
    | Some (forward, close) => first_close g (c x) close 0 (ahead g forward z) r
    | None => r = None
    end.
Proof using Hg.
  intros Hsmall Hz Hx. unfold Search.bracket_search.
  change (Grid.index_point (unlin g z) g) with (cell_at g z). rewrite Hx. mrun.
  destruct (Search.find_pair Search.BRACKET_PAIRS (c x)) as [[forward close]|] eqn:E;
    [|by exists None].
  apply find_pair_back in E as [Hne _]. pose proof (fuel_ok forward z Hz).
  apply (bracket_scan_ok g Hg); [done..| |]; unfold Search.fuel; lia.
Qed.

Lemma ltb_false p q :
  Point.ltb p q = false ↔ line q < line p ∨ line q = line p ∧ (column q <= column p)%nat.
Proof using Type.
  unfold Point.ltb, Point.cmp. destruct (Z.compare_spec (line p) (line q));
    [destruct (Nat.compare_spec (column p) (column q))|..]; 
    (split; intros Hx; [try done; lia|try done; exfalso; lia]).
Qed.

(** Clamping two points keeps their order. *)
Lemma grid_clamp_mono p q :
  Point.ltb q p = false →
  ∃ a b, Point.grid_clamp t BoundaryGrid p = Some a ∧ Point.grid_clamp t BoundaryGrid q = Some b ∧
    in_grid g a ∧ in_grid g b ∧ lin g a <= lin g b.
Proof using Hg.
  intros Hle%ltb_false. pose proof (grid_dims _ Hg) as Hd. dims Hd.
  assert (∀ p, ∃ a, Point.grid_clamp t BoundaryGrid p = Some a ∧ in_grid g a ∧
    lin g a = Z.max (lin g (first_point g))
      (Z.min (lin g (Pt (line p) (Nat.min (column p) (last_column g)))) (lin g (last_point g))))
    as Hone.
  { intros r. destruct (grid_clamp_lin g Hd (Pt (line r) (Nat.min (column r) (last_column g))))
      as (a & Ha & Hin & Hl); [unfold last_column; simpl in *; lia|].
    exists a. split; [|done]. revert Ha. unfold Point.grid_clamp. simpl.
    by rewrite Nat.min_l by lia. }
  destruct (Hone p) as (a & Ha & Hina & Hla), (Hone q) as (b & Hb & Hinb & Hlb).
  exists a, b. split_and!; [done..|]. rewrite Hla, Hlb.
  assert (lin g (Pt (line p) (Nat.min (column p) (last_column g)))
          <= lin g (Pt (line q) (Nat.min (column q) (last_column g)))); [|lia].
  unfold lin, last_column. simpl in *. nia.
Qed.

Definition range_in (r : SelectionRange.t) : Prop :=
  in_grid g (SelectionRange.start r) ∧ in_grid g (SelectionRange.end_ r).

Lemma range_lines_ok a b :
  in_grid g a → in_grid g b → lin g a <= lin g b →
  wp (SelectionText.range_lines a b t) (λ r, SelectionRange.is_block r = false ∧
    range_in r ∧ lin g (SelectionRange.start r) <= lin g (SelectionRange.end_ r)).
Proof using Hg.
  intros [Hal Hac] [Hbl Hbc] Hle. pose proof (g_columns _ Hg) as Hc.
  unfold SelectionText.range_lines, Search.line_search_left, Search.line_search_right.
  wp_step. wp_step. wp_call (line_left_ok t Hg); [done|by apply lines_fuel|].
  intros l (Hl & _). wp_step. wp_step. wp_step.
  wp_call (line_right_ok t Hg); [done|by apply lines_fuel|].
  intros l' (Hl' & _). wp_step. wp_step. unfold range_in, in_grid. simpl.
  change (topmost_line t) with (topmost_line g) in *.
  change (bottommost_line t) with (bottommost_line g) in *.
  unfold lin, last_column in *. simpl in *. split; [done|]. split; [lia|]. nia.
Qed.

Lemma range_semantic_ok a b :
  Z.of_nat (total_lines t * columns t) < I32_MAX →
  in_grid g a → in_grid g b → lin g a <= lin g b →
  wp (SelectionText.range_semantic a b t) (λ r, SelectionRange.is_block r = false ∧ range_in r ∧
    (spacer_at (lin g a) = false →
     lin g (SelectionRange.start r) <= lin g (SelectionRange.end_ r))).
Proof using Hg.
  intros Hs Ha Hb Hle. apply (in_grid_lin g Hg) in Ha as [Hac Ha], Hb as [Hbc Hb].
  unfold SelectionText.range_semantic.
  assert (∃ m, (if bool_decide (a = b) then Search.bracket_search a t else Some None)
    = Some (unlin g <$> m) ∧ (∀ z, m = Some z → a = b ∧ first_cell g <= z <= last_cell g))
    as (m & -> & Hm).
  { case_bool_decide as E; [|by exists None]. subst b.
    destruct (cell_at_ok g Hg (lin g a) Ha) as [x Hx].
    destruct (bracket_search_ok (lin g a) x Hs Ha Hx) as (r & Hr & Hfc).
    rewrite unlin_lin in Hr by done. exists r. split; [done|]. intros z ->. split; [done|].
    destruct (Search.find_pair _ _) as [[forward close]|]; [|done].
    destruct Hfc as (i & Hi & _). by destruct (ahead_back g forward (lin g a) i z Ha Hi). }
  mrun. destruct m as [z|]; simpl.
  - destruct (Hm z eq_refl) as [<- Hz].
    pose proof (proj2 (in_grid_unlin g Hg z) Hz) as Hin.
    pose proof (proj2 (in_grid_lin g Hg a) (conj Hac Ha)) as Hina.
    pose proof (lin_unlin g Hg z) as Hl. unfold lin in Hl. simpl in Hl.
    assert (Hord : ∀ p q : Point, (column p < columns g)%nat → (column q < columns g)%nat →
      line p < line q ∨ line p = line q ∧ (column p <= column q)%nat → lin g p <= lin g q)
      by (unfold lin; nia).
    destruct (_ || _) eqn:E; simpl; (split; [done|]; split; [by split|intros _]); apply Hord;
      try apply Hin; try apply Hina.
    + apply orb_true_iff in E as [E|E]; bools; simpl in *; lia.
    + apply orb_false_iff in E as [E1 E2]. apply andb_false_iff in E1 as [E1|E1]; bools; simpl in *; lia.
  - rewrite <- (unlin_lin g Hg a Hac), <- (unlin_lin g Hg b Hbc). wp_step.
    wp_call (semantic_search_left_ok (lin g a) Ha). intros q [Hq Hql]. wp_step.
    wp_call (semantic_search_right_ok (lin g b) Hb). intros q' [Hq' Hql']. wp_step.
    rewrite lin_unlin by done. split; [done|]. split; [by split|]. simpl. intros Hsp. specialize (Hql Hsp). lia.
Qed.

(** What [to_range] gives, for every kind of selection. *)
Definition range_ok (s : Selection.t) (r : SelectionRange.t) : Prop :=
  let '(SelectionRange.mk start end_ is_block) := r in
  is_block = bool_decide (Selection.ty s = Block) ∧
  match Selection.ty s with
  | Simple | Lines => range_in r ∧ lin g start <= lin g end_
  | Semantic => range_in r ∧
      (∀ a, Point.grid_clamp t BoundaryGrid (Selections.point (Selection.first s)) = Some a →
       spacer_at (lin g a) = false → lin g start <= lin g end_)
  | Block => topmost_line t <= line start ∧ line start <= line end_ ∧
      line end_ <= bottommost_line t ∧
      (column start <= columns t)%nat ∧ (column end_ < columns t)%nat ∧
      (column start <= column end_ + 2)%nat
  end.

Lemma range_block_ok s (a b : Anchor) :
  Selection.ty s = Block →
  in_grid g (Selections.point a) → in_grid g (Selections.point b) →
  lin g (Selections.point a) <= lin g (Selections.point b) →
  from_option (range_ok s) True (Selection.range_block a b s).
Proof using Hg.
  intros Es [Hal Hac] [Hbl Hbc] Hle. unfold Selection.range_block.
  destruct (Selection.is_empty s); [done|].
  assert (line (Selections.point a) <= line (Selections.point b)) as Hlines
    by (unfold lin in Hle; nia).
  change (topmost_line g) with (topmost_line t) in *.
  change (bottommost_line g) with (bottommost_line t) in *. change (columns g) with (columns t) in *.
  destruct (_ <? _)%nat eqn:E; cbv zeta; repeat case_match; simpl; rewrite Es;
    (split; [done|]); simpl in *; bools; lia.
Qed.

Lemma to_range_ok s :
  Z.of_nat (total_lines t * columns t) < I32_MAX →
  wp (SelectionText.to_range s t) (from_option (range_ok s) True).
Proof using Hg.
  intros Hs. unfold SelectionText.to_range.
  replace (if Point.ltb _ _ then _ else _) with (Selection.first s, Selection.second s)
    by (unfold Selection.first, Selection.second, Selection.swapped; by case_match).
  assert (Point.ltb (Selections.point (Selection.second s)) (Selections.point (Selection.first s))
          = false) as Hord.
  { unfold Selection.first, Selection.second, Selection.swapped. case_match eqn:E; [|done].
    apply ltb_false. unfold Point.ltb, Point.cmp in E.
    destruct (Z.compare_spec (line (Selections.point (Selection.end_ s)))
      (line (Selections.point (Selection.start s)))); [|lia|done].
    destruct (Nat.compare_spec (column (Selections.point (Selection.end_ s)))
      (column (Selections.point (Selection.start s)))); [done|lia|done]. }
  destruct (_ <? topmost_line t); [done|].
  destruct (grid_clamp_mono _ _ Hord) as (a & b & Ea & Eb & Ha & Hb & Hle).
  rewrite Ea. mrun. rewrite Eb. mrun.
  destruct (Selection.ty s) eqn:Es.
  - destruct (Selection.is_empty s) eqn:Ee; [unfold Selection.range_simple; by rewrite Ee|].
    destruct (range_simple_ok g (grid_dims g Hg) s (mkAnchor a (side (Selection.first s)))
      (mkAnchor b (side (Selection.second s))) Ee Ha Hb Hle) as (p & q & Er & Hp & Hq & Hpq & _).
    change (columns g) with (Grid.columns g) in Er. rewrite Er. simpl. rewrite Es.
    split; [done|]. split; [by split|done].
  - by apply range_block_ok.
  - apply wp_fmap. wp_call (range_semantic_ok a b Hs Ha Hb Hle).
    intros [p q bl] (Hbl & Hr & Hrl). simpl in Hbl |- *. subst bl. rewrite Es. split; [done|]. split; [done|].
    intros a' Ea'. assert (a' = a) as -> by congruence. done.
  - apply wp_fmap. wp_call (range_lines_ok a b Ha Hb Hle).
    intros [p q bl] (Hbl & Hr & Hrl). simpl in Hbl |- *. subst bl. rewrite Es. by split.
Qed.
End Ranges.

(** * Properties *)

Section SearchProperties.
Context `{External}.
Implicit Types (t : Term.t) (p q : Point) (s : Selection.t).

(** The terminals the searches are about. *)
Definition searchable t : Prop :=
  grid_ok row_safe (Term.grid t) ∧ Z.of_nat (total_lines t * columns t) < I32_MAX.

(** The bracket search returns, and finds the first bracket in its direction that closes the one
    under the cursor, counting nested pairs of the same kind; only if there is none it finds
    nothing. *)
Theorem bracket_search_correct t p cell :
  searchable t → in_grid (Term.grid t) p → Grid.index_point p (Term.grid t) = Some cell →
  let g := Term.grid t in
  match Search.find_pair Search.BRACKET_PAIRS (c cell) with
  | Some (forward, close) => ∃ r, Search.bracket_search p t = Some (unlin g <$> r) ∧
      first_close g (c cell) close 0 (ahead g forward (lin g p)) r
  | None => Search.bracket_search p t = Some None
  end.
Proof.
  intros [Hg Hs] Hp Hc g. subst g. apply (in_grid_lin _ Hg) in Hp as [Hpc Hp].
  rewrite <- (unlin_lin _ Hg p Hpc) in Hc.
  destruct (bracket_search_ok t Hg _ cell Hs Hp Hc) as (r & Hr & Hfc).
  rewrite (unlin_lin _ Hg p Hpc) in Hr.
  destruct (Search.find_pair _ _) as [[forward close]|]; [by exists r|by subst r].
Qed.

(** From the bracket that was found, the search finds the way back. *)
Theorem bracket_search_roundtrip t p q :
  searchable t → in_grid (Term.grid t) p → Search.bracket_search p t = Some (Some q) →
  in_grid (Term.grid t) q ∧ Search.bracket_search q t = Some (Some p).
Proof.
  intros [Hg Hs] Hp Hq. set (g := Term.grid t) in *.
  apply (in_grid_lin g Hg) in Hp as [Hpc Hp].
  pose proof (unlin_lin g Hg p Hpc) as Ez. set (z := lin g p) in *.
  destruct (cell_at_ok g Hg z Hp) as [x Hx].
  destruct (bracket_search_ok t Hg z x Hs Hp Hx) as (r & Hr & Hfc).
  change (Term.grid t) with g in Hr. rewrite Ez, Hq in Hr. destruct r as [y|]; [|done].
  injection Hr as ->.
  destruct (Search.find_pair _ _) as [[forward close]|] eqn:E; [|done].
  change (Term.grid t) with g in Hfc.
  destruct (find_pair_back _ _ _ E) as [Hne Hback].
  assert (char_at g z = Some (c x)) as Hch by (unfold char_at; by rewrite Hx).
  pose proof (first_close_back g (c x) close forward z y Hne Hp Hch Hfc) as Hfb.
  destruct Hfc as (i & Hi & (y' & Hy' & Hyc & _) & _). assert (y' = y) as -> by congruence.
  destruct (ahead_back g forward z i y Hp Hi) as [Hy _].
  split; [by apply (in_grid_unlin g Hg)|].
  destruct (cell_at_ok g Hg y Hy) as [x' Hx'].
  destruct (bracket_search_ok t Hg y x' Hs Hy Hx') as (r & Hr' & Hfr).
  change (Term.grid t) with g in Hr'. rewrite Hr'.
  assert (c x' = close) as Ecl by (unfold char_at in Hyc; rewrite Hx' in Hyc; by injection Hyc).
  rewrite Ecl, Hback in Hfr.
  rewrite (first_close_unique g close (c x) 0 _ _ _ Hfr Hfb). simpl.
  by rewrite <- Ez.
Qed.

(** C11. The inline searches find the nearest needle of the logical line on their side, never a
    spacer, and otherwise the end of the logical line. *)
Theorem inline_search_correct t p (needles : text) :
  grid_ok row_safe (Term.grid t) → in_grid (Term.grid t) p →
  let g := Term.grid t in
  Search.inline_search_right p needles t
    = Some (nearest g needles (lin g p) (rest_of_line g true (lin g p))) ∧
  Search.inline_search_left p needles t
    = Some (nearest g needles (lin g p) (rest_of_line g false (lin g p))).
Proof.
  intros Hg Hp g. subst g. apply (in_grid_lin _ Hg) in Hp as [Hpc Hp].
  pose proof (inline_search_right_ok t Hg needles _ Hp) as Er.
  pose proof (inline_search_left_ok t Hg needles _ Hp) as El.
  rewrite (unlin_lin _ Hg p Hpc) in Er, El. done.
Qed.

(** The line searches find the first and the last line of a logical line: all lines between wrap,
    and the logical line does not go on. *)
Theorem line_search_correct t p :
  grid_ok row_safe (Term.grid t) → in_grid (Term.grid t) p →
  let g := Term.grid t in
  ∃ first last, Search.line_search_left p t = Some (Pt first 0%nat) ∧
    Search.line_search_right p t = Some (Pt last (last_column t)) ∧
    topmost_line t <= first <= line p ∧ line p <= last <= bottommost_line t ∧
    (∀ l, first <= l < last → wraps_at g l = true) ∧
    (first = topmost_line t ∨ wraps_at g (first - 1) = false) ∧
    (last = bottommost_line t ∨ wraps_at g last = false).
Proof.
  intros Hg [Hl _] g. subst g. destruct (lines_fuel t Hg (line p) Hl) as [Hf1 Hf2].
  pose proof (line_left_ok t Hg _ (line p) Hl Hf1) as (l & El & Hleft & Hwl & Hel)%wp_some.
  pose proof (line_right_ok t Hg _ (line p) Hl Hf2) as (r & Er & Hright & Hwr & Her)%wp_some.
  exists l, r. unfold Search.line_search_left, Search.line_search_right. rewrite El, Er.
  split_and!; [first [done|lia]..| |done|done].
  intros k Hk. destruct (decide (k < line p)); [apply Hwl|apply Hwr]; lia.
Qed.

(** C12. Finding the range of a selection does not panic.  The range of a simple selection or one of
    lines lies in the grid and its ends are in order, and so does that of a semantic selection, whose
    ends are in order if it does not start on the spacer of a fullwidth character.  The lines of a
    block are in the grid and in order; its last column is in the grid, but the first may be up to two
    columns past the last, and one past the grid (see [block_selection_panics]). *)
Theorem to_range_correct t s :
  searchable t → wp (SelectionText.to_range s t) (from_option (range_ok t s) True).
Proof. intros [Hg Hs]. by apply to_range_ok. Qed.
End SearchProperties.

(** * The properties at concrete terminals *)

#[local] Existing Instance Sample.external.

(** [(a(b)c] and [)] over two lines of 4 columns. *)
Definition brackets : Term.t :=
  TermSample.typed [Input 40; Input 97; Input 40; Input 98; Input 41; Input 99; Input 41]%N.

Lemma brackets_searchable : searchable brackets.
Proof. split; [apply TermSample.typed_grid_ok; [by repeat constructor|simpl; lia]|by vm_compute]. Qed.

Definition brackets_cell : Cell.
Proof.
  let x := eval vm_compute in (Grid.index_point (Pt 0 0%nat) (Term.grid brackets)) in
  match x with Some ?cell => exact cell end.
Defined.

Lemma bracket_search_correct_witness :
  Grid.index_point (Pt 0 0%nat) (Term.grid brackets) = Some brackets_cell ∧
  let g := Term.grid brackets in
  ∃ r, Search.bracket_search (Pt 0 0%nat) brackets = Some (unlin g <$> r) ∧
    first_close g 40 41 0 (ahead g true (lin g (Pt 0 0%nat))) r.
Proof.
  split; [by vm_compute|].
  apply (bracket_search_correct brackets (Pt 0 0%nat) brackets_cell).
  - apply brackets_searchable.
  - split; [by vm_compute|by vm_compute; lia].
  - by vm_compute.
Defined.

Lemma bracket_search_roundtrip_witness :
  Search.bracket_search (Pt 0 0%nat) brackets = Some (Some (Pt 1 2%nat)) ∧
  Search.bracket_search (Pt 1 2%nat) brackets = Some (Some (Pt 0 0%nat)).
Proof.
  split; [by vm_compute|].
  apply (bracket_search_roundtrip brackets (Pt 0 0%nat) (Pt 1 2%nat)).
  - apply brackets_searchable.
  - split; [by vm_compute|by vm_compute; lia].
  - by vm_compute.
Defined.

Lemma inline_search_correct_witness :
  Search.inline_search_right (Pt 0 0%nat) [98]%N brackets = Some (inl (Pt 0 3%nat)) ∧
  let g := Term.grid brackets in
  nearest g [98]%N (lin g (Pt 0 0%nat)) (rest_of_line g true (lin g (Pt 0 0%nat)))
    = inl (Pt 0 3%nat).
Proof.
  split; [by vm_compute|].
  pose proof (proj1 (inline_search_correct brackets (Pt 0 0%nat) [98]%N
    (proj1 brackets_searchable) ltac:(split; [by vm_compute|by vm_compute; lia]))) as Hr.
  cbv zeta in Hr |- *.
  assert (Search.inline_search_right (Pt 0 0%nat) [98]%N brackets = Some (inl (Pt 0 3%nat))) as Hc
    by (by vm_compute).
  apply Some_inj. exact (eq_trans (eq_sym Hr) Hc).
Defined.

Lemma line_search_correct_witness :
  let g := Term.grid brackets in
  ∃ first last, Search.line_search_left (Pt 1 1%nat) brackets = Some (Pt first 0%nat) ∧
    Search.line_search_right (Pt 1 1%nat) brackets = Some (Pt last (last_column brackets)) ∧
    topmost_line brackets <= first <= 1 ∧ 1 <= last <= bottommost_line brackets ∧
    (∀ l, first <= l < last → wraps_at g l = true) ∧
    (first = topmost_line brackets ∨ wraps_at g (first - 1) = false) ∧
    (last = bottommost_line brackets ∨ wraps_at g last = false).
Proof.
  apply (line_search_correct brackets (Pt 1 1%nat)); [apply brackets_searchable|].
  split; [by vm_compute|by vm_compute; lia].
Defined.

(** A selection with a semantic expansion to the matching bracket. *)
Lemma to_range_correct_witness :
  SelectionText.to_range (Selection.new Semantic (Pt 0 0%nat) Left) brackets
    = Some (Some (SelectionRange.mk (Pt 0 0%nat) (Pt 1 2%nat) false)) ∧
  range_ok brackets (Selection.new Semantic (Pt 0 0%nat) Left)
    (SelectionRange.mk (Pt 0 0%nat) (Pt 1 2%nat) false).
Proof.
  assert (SelectionText.to_range (Selection.new Semantic (Pt 0 0%nat) Left) brackets
    = Some (Some (SelectionRange.mk (Pt 0 0%nat) (Pt 1 2%nat) false))) as E by (by vm_compute).
  split; [exact E|].
  apply (wp_use _ _ _ (to_range_correct brackets _ brackets_searchable) E).
Defined.

(** ** Panics *)

(** A block selection from the right half of the last column to the left half of the last column
    of another line has its start moved past the last column; copying it indexes the line there. *)
Example block_selection_panics :
  let s := Selection.update (Pt 1 3%nat) Left (Selection.new Block (Pt 0 3%nat) Right) in
  SelectionText.to_range s TermSample.term
    = Some (Some (SelectionRange.mk (Pt 0 4%nat) (Pt 1 2%nat) true)) ∧
  SelectionText.selection_to_string (Term.set_selection (Some s) TermSample.term) = None.
Proof. by vm_compute. Qed.

(** Copying a line that ends before a wrapped fullwidth character takes the first character of
    the line before instead of the one after, and panics on the topmost line. *)
Definition wide_wrap : Term.t :=
  TermSample.typed [Input 97; Input 98; Input 99; Newline; CarriageReturn;
                    Input 100; Input 101; Input 102; Input 27721]%N.
Example wrapped_wide_copies_line_before :
  Term.line_to_string 1 0 3 true wide_wrap = Some [100; 101; 102; 97]%N ∧
  Term.line_to_string 0 0 3 true
    (TermSample.typed [Input 97; Input 98; Input 99; Input 27721]%N) = None.
Proof. by vm_compute. Qed.

(** Deleting the first cell of a fullwidth character leaves its spacer in the first column; the
    cursor on it is moved to the left of the screen. *)
Example cursor_left_of_screen :
  RenderableCursor.new (TermSample.typed [Input 27721; CarriageReturn; DeleteChars 1]) = None.
Proof. by vm_compute. Qed.
