(* ===== verification/RegexProps.v ===== *)
(** The loop of the regular expression search ([regex_search_internal]).

    Whatever the automaton does, the loop does not panic and ends after at most two iterations per
    cell of the buffer, with a match inside the buffer, unless the end of the search is a cell the
    iterator skips: the fullwidth character after the spacer that fills the line before it
    ([hidden]).  To such an end every search to the left runs forever if the
    automaton neither matches nor dies ([search_left_never_returns]). *)
From S2P Require Import Prelude Index Cells Rows Storages Grids Resizes TermData Selections Terms.
From S2P Require Import Handlers TermSafety TermProps Searches SearchProps.
#[local] Open Scope Z_scope.

(** * Moving over the cells in a circle *)

Section Circle.
Context `{External} (t : Term.t).
Context (Hg : grid_ok row_safe (Term.grid t)).
#[local] Abbreviation g := (Term.grid t).
Implicit Types (z e : Z) (d : Direction).

Definition forward d : bool := match d with Right => true | Left => false end.
Definition in_range z : Prop := first_cell g <= z <= last_cell g.
Definition num_cells : Z := last_cell g - first_cell g + 1.

(** The number of steps to [e]. *)
Definition distance d z e : Z := (match d with Right => e - z | Left => z - e end) mod num_cells.

(** The next cell, starting over at the other end. *)
Definition succ d z : Z :=
  match d with
  | Right => if z =? last_cell g then first_cell g else z + 1
  | Left => if z =? first_cell g then last_cell g else z - 1
  end.

(** The cells that [skip_fullwidth] may jump over. *)
Definition leading_at z : bool :=
  flag_at g (λ x, Flags.contains (flags x) Flags.LEADING_WIDE_CHAR_SPACER) z.
Definition wide_spacer_at z : bool :=
  flag_at g (λ x, Flags.contains (flags x) Flags.WIDE_CHAR_SPACER) z.
Definition hidden d e : bool :=
  match d with
  | Right => leading_at (e - 1)
  | Left => leading_at (e - 1) && wide_spacer_at (e + 1)
  end.

Lemma succ_range d z : in_range z → in_range (succ d z).
Proof using Type. unfold in_range, succ. destruct d; case_match; lia. Qed.

Lemma distance_bound d z e : in_range z → 0 <= distance d z e < num_cells.
Proof using Type. unfold in_range, distance, num_cells. intros Hz. apply Z.mod_pos_bound. lia. Qed.

Lemma distance_plain d z e :
  in_range z → in_range e →
  distance d z e = let x := match d with Right => e - z | Left => z - e end in
                   if x <? 0 then x + num_cells else x.
Proof using Type.
  unfold in_range, distance, num_cells. intros Hz He. cbv zeta.
  set (x := match d with Right => e - z | Left => z - e end).
  assert (- (last_cell g - first_cell g) <= x <= last_cell g - first_cell g) as Hx
    by (unfold x; destruct d; lia).
  clearbody x. destruct (x <? 0) eqn:E; bools.
  - rewrite <- (Z.mod_add x 1) by lia. rewrite Z.mod_small; lia.
  - rewrite Z.mod_small; lia.
Qed.

Lemma distance_zero d z e : in_range z → in_range e → distance d z e = 0 → z = e.
Proof using Type.
  intros Hz He. rewrite distance_plain by done. unfold in_range, num_cells in *.
  destruct d; cbv zeta; case_match; bools; lia.
Qed.

Lemma distance_succ d z e :
  in_range z → in_range e → z ≠ e → distance d (succ d z) e = distance d z e - 1.
Proof using Type.
  intros Hz He Hne. pose proof (succ_range d z Hz) as Hs.
  rewrite !distance_plain by done. unfold in_range, num_cells, succ in *.
  destruct d; cbv zeta; repeat case_match; bools; lia.
Qed.

(** A move in the direction, inside the buffer and not past [e], gets closer. *)
Definition moved d z z' : Prop :=
  match d with Right => z <= z' <= z + 2 | Left => z - 2 <= z' <= z end.
Definition passed d z z' e : Prop :=
  match d with Right => z < e < z' | Left => z' < e < z end.

Lemma distance_moved d z z' e :
  in_range z → in_range z' → in_range e → moved d z z' → ¬ passed d z z' e → z ≠ e →
  distance d z' e <= distance d z e.
Proof using Type.
  intros Hz Hz' He Hm Hp Hne. rewrite !distance_plain by done.
  unfold in_range, num_cells, moved, passed in *.
  destruct d; cbv zeta; repeat case_match; bools; lia.
Qed.

Lemma advance_in_at d z :
  in_range z →
  Search.advance_in d g (iter_at g z)
    = Some (if decide (in_range (step_to (forward d) z))
            then (x ← cell_at g (step_to (forward d) z);
                  Some (unlin g (step_to (forward d) z), x), iter_at g (step_to (forward d) z))
            else (None, iter_at g z)).
Proof using Hg. intros Hz. unfold Search.advance_in. by rewrite advance_at. Qed.

(** ** Skipping *)

Lemma flag_at_true f z : flag_at g f z = true → ∃ x, cell_at g z = Some x ∧ f x = true.
Proof using Type. unfold flag_at. destruct (cell_at g z) as [x|]; simpl; [eauto|done]. Qed.

(** One more cell to the right or to the left, if there is one. *)
Definition push d z : Z :=
  if decide (in_range (step_to (forward d) z)) then step_to (forward d) z else z.

Lemma push_range d z : in_range z → in_range (push d z).
Proof using Type. unfold push. by case_decide. Qed.

Lemma advance_push d z x :
  in_range z → cell_at g z = Some x →
  ∃ item x', Search.advance_in d g (iter_at g z) = Some (item, iter_at g (push d z)) ∧
    cell_at g (push d z) = Some x' ∧ from_option snd x item = x'.
Proof using Hg.
  intros Hz Hx. rewrite advance_in_at by done. unfold push. case_decide as Hd.
  - destruct (cell_at_ok g Hg _ Hd) as [y Hy]. rewrite Hy. simpl. eauto.
  - simpl. eauto.
Qed.

Lemma push_bounds d z :
  in_range z →
  match d with Right => z <= push d z <= z + 1 | Left => z - 1 <= push d z <= z end ∧
  match d with
  | Right => push d z < last_cell g → push d z = z + 1
  | Left => first_cell g < push d z → push d z = z - 1
  end.
Proof using Type.
  intros Hz. unfold push, step_to, in_range in *. destruct d; simpl; case_decide; lia.
Qed.

Lemma push_once d z e :
  in_range z → moved d z (push d z) ∧ ¬ passed d z (push d z) e.
Proof using Type.
  intros Hz. pose proof (push_bounds d z Hz). unfold moved, passed. destruct d; lia.
Qed.

Lemma push_twice d z e x :
  in_range z → cell_at g z = Some x → hidden d e = false →
  match d with
  | Right => Flags.contains (flags x) Flags.LEADING_WIDE_CHAR_SPACER = true
  | Left => Flags.contains (flags x) Flags.WIDE_CHAR_SPACER = true ∧
      leading_at (Z.max (first_cell g) (push d z - 1)) = true
  end →
  moved d z (push d (push d z)) ∧ ¬ passed d z (push d (push d z)) e.
Proof using Type.
  intros Hz Hx Hh Hd. pose proof (push_bounds d z Hz) as H1.
  pose proof (push_range d z Hz) as Hz1. pose proof (push_bounds d _ Hz1) as H2.
  pose proof (push_range d _ Hz1) as Hz2. unfold moved, passed, in_range in *.
  set (z1 := push d z) in *. set (z2 := push d z1) in *. clearbody z1 z2.
  destruct d; (split; [lia|]); intros Hp.
  - assert (z = e + 1) as -> by lia. replace (Z.max _ _) with (e - 1) in Hd by lia.
    destruct Hd as [Hs Hl]. unfold hidden, wide_spacer_at in Hh.
    by rewrite Hl, (flag_at_cell _ _ _ x Hx), Hs in Hh.
  - assert (e - 1 = z) as E by lia. unfold hidden, leading_at in Hh.
    by rewrite E, (flag_at_cell _ _ _ x Hx), Hd in Hh.
Qed.

Lemma search_dims : dims_ok t.
Proof using Hg. destruct (grid_dims _ Hg). by split. Qed.

Lemma sub_grid z :
  in_range z → Point.sub t BoundaryGrid 1 (unlin g z) = Some (unlin g (Z.max (first_cell g) (z - 1))).
Proof using Hg.
  intros Hz. apply (in_grid_unlin g Hg) in Hz as Hin.
  destruct (sub_saturates t search_dims (unlin g z) 1 Hin) as (q & -> & [_ Hq] & Hl); [by vm_compute|].
  f_equal. apply (lin_inj t); [done|by apply (unlin_column g Hg)|]. rewrite Hl.
  change (lin t) with (lin g). rewrite !(lin_unlin g Hg). unfold first_cell.
  change (first_point t) with (first_point g). lia.
Qed.

Lemma skip_fullwidth_ok d z x e :
  in_range z → cell_at g z = Some x → hidden d e = false →
  wp (Search.skip_fullwidth d t (iter_at g z) x) (λ '(it, x'), ∃ z',
    it = iter_at g z' ∧ in_range z' ∧ moved d z z' ∧ ¬ passed d z z' e).
Proof using Hg.
  intros Hz Hx Hh. unfold Search.skip_fullwidth.
  pose proof (advance_push d z x Hz Hx) as (item & x1 & E1 & Hx1 & Ei).
  pose proof (push_range d z Hz) as Hz1.
  pose proof (advance_push d (push d z) x1 Hz1 Hx1) as (item2 & x2 & E2 & Hx2 & Ei2).
  pose proof (push_range d (push d z) Hz1) as Hz2.
  assert (moved d z z ∧ ¬ passed d z z e) as Hzero by (unfold moved, passed; destruct d; lia).
  pose proof (push_once d z e Hz) as Hone. pose proof (push_twice d z e x Hz Hx Hh) as Htwo.
  destruct d; unfold Search.advance_in, Search.advance in *.
  - destruct (Flags.contains (flags x) Flags.WIDE_CHAR_SPACER) eqn:Es; [|wp_step; by exists z].
    rewrite E1. mrun. change (Grid.GridIterator.point (iter_at g ?z)) with (unlin g z).
    rewrite sub_grid by done. mrun.
    destruct (cell_at_ok g Hg (Z.max (first_cell g) (push Left z - 1))) as [y Hy].
    { unfold in_range in *. lia. }
    change (Grid.index_point (unlin g ?z) g) with (cell_at g z). rewrite Hy. mrun.
    destruct (Flags.contains (flags y) _) eqn:El.
    + rewrite E2. mrun. eexists. split; [done|]. split; [done|]. apply Htwo. split; [done|].
      unfold leading_at. by rewrite (flag_at_cell _ _ _ y Hy).
    + mrun. by exists (push Left z).
  - change (Grid.GridIterator.point (iter_at g z)) with (unlin g z).
    destruct (_ && _).
    { rewrite E1. mrun. by exists (push Right z). }
    destruct (Flags.contains (flags x) Flags.LEADING_WIDE_CHAR_SPACER) eqn:Es;
      [|wp_step; by exists z].
    rewrite E1. mrun. rewrite E2. mrun. eexists. split; [done|]. split; [done|]. by apply Htwo.
Qed.

Context `{Hybrid}.

(** The iterator after the last cell starts at the other end. *)
Lemma next_cell_ok regex z r :
  in_range z → Search.r_iter r = iter_at g z → Search.r_point r = unlin g z →
  ∃ x, Search.next_cell regex t r = Some (x, iter_at g (succ (direction regex) z)) ∧
    cell_at g (succ (direction regex) z) = Some x.
Proof using Hg.
  intros Hz Ei Ep. unfold Search.next_cell. rewrite Ei, advance_in_at, Ep by done. 
  pose proof (succ_range (direction regex) z Hz) as Hs.
  destruct (cell_at_ok g Hg _ Hs) as [x Hx]. exists x. split; [|done].
  case_decide as Hd.
  - assert (step_to (forward (direction regex)) z = succ (direction regex) z) as ->.
    { unfold step_to, forward, succ, in_range in *. destruct (direction regex); case_match; bools; lia. }
    by rewrite Hx.
  - mrun. pose proof (search_dims) as Hd'. dims Hd'.
    assert (∀ p q : Point, z = lin g p → succ (direction regex) z = lin g q →
      (column p < columns g)%nat → (column q < columns g)%nat →
      line q = topmost_line t - line p + Z.of_nat (screen_lines t) - 1 →
      (column q + column p)%nat = last_column t → I32_MIN <= topmost_line t - line p <= 0 →
      (l ← i32_sub (topmost_line t) (line (unlin g z)); l ← i32_add l (as_i32 (screen_lines t));
       l ← i32_sub l 1; col ← usize_sub (last_column t) (column (unlin g z));
       cell ← Grid.GridIterator.cell g (Grid.iter_from (Pt l col) g);
       Some (cell, Grid.iter_from (Pt l col) g))
      = Some (x, iter_at g (succ (direction regex) z))) as Hend.
    { intros p q -> Eq Hp Hq Hl Hc Hb. rewrite (unlin_lin g Hg p Hp).
      change (as_i32 (screen_lines g)) with (as_i32 (screen_lines t)).
      rewrite i32_sub_ok by lia. mrun. rewrite i32_add_ok by lia. mrun.
      rewrite i32_sub_ok by lia. mrun. rewrite usize_sub_ok by lia. mrun.
      replace (Pt _ _) with (unlin g (succ (direction regex) (lin g p))).
      - change (Grid.iter_from (unlin g ?z) g) with (iter_at g z).
        change (Grid.GridIterator.cell g (iter_at g ?z)) with (cell_at g z). by rewrite Hx.
      - rewrite Eq, (unlin_lin g Hg q Hq). destruct q as [lq cq]. simpl in *. f_equal; lia. }
    assert (0 < columns g)%nat as Hcols by (simpl in *; lia).
    unfold in_range, step_to, forward in Hz, Hd.
    assert (bottommost_line g = topmost_line t - topmost_line g + Z.of_nat (screen_lines t) - 1)
      as E1 by (change (topmost_line g) with (topmost_line t);
                change (bottommost_line g) with (bottommost_line t); lia).
    assert (topmost_line g = topmost_line t - bottommost_line g + Z.of_nat (screen_lines t) - 1)
      as E2 by (change (topmost_line g) with (topmost_line t);
                change (bottommost_line g) with (bottommost_line t); lia).
    assert (last_column g < columns g)%nat as E3 by (unfold last_column; lia).
    change (topmost_line g) with (topmost_line t) in *.
    change (bottommost_line g) with (bottommost_line t) in *.
    destruct (direction regex) eqn:Ed; cbn [succ] in Hend |- *.
    + assert (z = first_cell g) as -> by lia. rewrite Z.eqb_refl in Hend |- *.
      by apply (Hend (first_point g) (last_point g));
        [..|simpl; change (topmost_line g) with (topmost_line t); lia].
    + assert (z = last_cell g) as -> by lia. rewrite Z.eqb_refl in Hend |- *.
      apply (Hend (last_point g) (first_point g)); [done..| | |]; cbn [line column first_point last_point].
      * exact E2.
      * done.
      * change (bottommost_line g) with (bottommost_line t). lia.
Qed.
End Circle.

(** * One iteration *)

Section Iteration.
Context `{External} `{Hybrid} (t : Term.t) (regex : LazyDfa).
Context (Hg : grid_ok row_safe (Term.grid t)).
#[local] Abbreviation g := (Term.grid t).
#[local] Abbreviation dir := (direction regex).
Implicit Types (z : Z) (e : Point) (r : Search.run).

(** The variables that the automaton does not touch. *)
Definition same_place r r' : Prop :=
  Search.r_iter r' = Search.r_iter r ∧ Search.r_done r' = Search.r_done r ∧
  Search.r_point r' = Search.r_point r ∧ Search.r_last_point r' = Search.r_last_point r.

Definition match_ok r : Prop := ∀ p, Search.r_match r = Some p → in_grid g p.

(** The invariant of the loop, at the cell [z]. *)
Record run_ok z r : Prop := {
  k_range : in_range t z;
  k_iter : Search.r_iter r = iter_at g z;
  k_point : Search.r_point r = unlin g z;
  k_last : in_grid g (Search.r_last_point r);
  k_match : match_ok r;
  k_consumed : 0 <= Search.r_consumed r;
}.

(** The bound on the iterations that are left: two for every cell up to the end, as a character
    is read twice after an empty match. *)
Definition left_over e z r : Z :=
  (if Search.r_done r then 0 else 2 * (distance t dir z (lin g e) + 1))
  + (if Search.r_consumed r =? 1 then 1 else 0).

Lemma reset_state_ok r k (Q : Search.outcome → Prop) :
  (∀ x, Q (Search.Failed x)) →
  (∀ s x, wp (k (Search.with_state s x None 0 r)) Q) →
  wp (Search.reset_state regex r k) Q.
Proof using Type.
  intros Hf Hk. unfold Search.reset_state. destruct (start_state_forward _ _ _) as [[s|] x]; [|apply Hf].
  apply Hk.
Qed.

Lemma feed_ok bytes i r :
  match_ok r → in_grid g (Search.r_last_point r) → 0 <= Search.r_consumed r →
  Search.r_consumed r + Z.of_nat (length bytes) <= I32_MAX →
  wp (Search.feed regex bytes i r) (λ o,
    match o with
    | Search.Failed _ => True
    | Search.Break r' => match_ok r'
    | Search.Continue r' => i = 0%nat ∧ Search.r_consumed r = 1 ∧ Search.r_consumed r' = 0 ∧
        same_place r r' ∧ match_ok r'
    | Search.Through r' => same_place r r' ∧ match_ok r' ∧
        0 <= Search.r_consumed r' <= Search.r_consumed r + Z.of_nat (length bytes)
    end).
Proof using Type.
  revert i r. induction bytes as [|byte bytes IH]; intros i r Hm Hl Hn Hb; cbn [Search.feed].
  { wp_step. split; [done|]. split; [done|]. simpl. lia. }
  cbn [length] in Hb. destruct (next_state _ _ _ _) as [[s|] x]; [|done].
  wp_step. wp_step.
  (* the rest of the bytes, from any state at the same place *)
  assert (∀ r', same_place r r' → match_ok r' →
    0 <= Search.r_consumed r' <= Search.r_consumed r + 1 →
    wp (Search.feed regex bytes (S i) r') (λ o,
      match o with
      | Search.Failed _ => True
      | Search.Break r' => match_ok r'
      | Search.Continue r' => i = 0%nat ∧ Search.r_consumed r = 1 ∧ Search.r_consumed r' = 0 ∧
          same_place r r' ∧ match_ok r'
      | Search.Through r' => same_place r r' ∧ match_ok r' ∧
          0 <= Search.r_consumed r' <= Search.r_consumed r + Z.of_nat (length (byte :: bytes))
      end)) as Hrest.
  { intros r' Hs Hm' Hc. destruct Hs as (S1 & S2 & S3 & S4).
    wp_call (IH (S i) r'); [done|by rewrite S4|lia|lia|]. intros [x'|r1|r1|r1]; [done|done| |].
    - by intros [? _].
    - intros ((T1 & T2 & T3 & T4) & Hm1 & Hc1). split; [|split; [done|simpl; lia]].
      split_and!; congruence. }
  assert (∀ s x m n, same_place r (Search.with_state s x m n r)) as Hplace by done.
  assert (∀ s x n, match_ok (Search.with_state s x (Search.r_match r) n r)) as Hkeep by done.
  destruct (_ && is_match s).
  { apply Hrest; [done| |simpl; lia]. intros p [= <-]. exact Hl. }
  destruct (is_dead s); [|apply Hrest; [done|done|simpl; lia]].
  destruct (_ =? 2) eqn:E2; bools; [|wp_step; apply Hkeep].
  apply reset_state_ok; [done|]. intros s' x'.
  destruct (i =? 0)%nat eqn:E0; bools.
  - wp_step. split; [done|]. split; [lia|]. by split_and!.
  - apply Hrest; [done|done|simpl; lia].
Qed.

Lemma char_bytes_length ch : (length (Search.char_bytes regex ch) <= 4)%nat.
Proof using Type.
  unfold Search.char_bytes, encode_utf8. destruct dir; rewrite ?length_reverse;
    repeat case_match; simpl; lia.
Qed.

Lemma at_end_ok r :
  match_ok r → in_grid g (Search.r_point r) →
  match Search.at_end regex r with Search.Failed _ => True | Search.Break r' => match_ok r' | _ => False end.
Proof using Type.
  intros Hm Hp. unfold Search.at_end. destruct (next_eoi_state _ _ _) as [[s|] x]; [|done].
  intros p. simpl. repeat case_match; [by intros [= <-]|done|apply Hm].
Qed.

Lemma line_end_ok wrapped r :
  match_ok r → in_grid g (Search.r_last_point r) → 0 <= Search.r_consumed r →
  wp (Search.line_end regex t wrapped r) (λ o,
    match o with
    | Search.Failed _ => True
    | Search.Break r' => match_ok r'
    | Search.Continue r' => same_place r r' ∧ match_ok r' ∧
        0 <= Search.r_consumed r' <= Search.r_consumed r
    | Search.Through _ => False
    end).
Proof using Type.
  intros Hm Hl Hn. unfold Search.line_end. destruct (_ || _).
  - destruct (next_eoi_state _ _ _) as [[s|] x]; [|done]. destruct (_ && _).
    + intros p. simpl. case_match; [by intros [= <-]|apply Hm].
    + apply reset_state_ok; [done|]. intros s' x'. wp_step. split; [done|]. split; [done|simpl; lia].
  - wp_step. split; [done|]. split; [exact Hm|simpl; lia].
Qed.

(** One iteration ends the loop, or gets closer to the end of the search. *)
Lemma regex_step_ok e z r :
  run_ok z r → in_grid g e → hidden t dir (lin g e) = false →
  Search.r_consumed r + 4 <= I32_MAX →
  wp (Search.regex_step regex t e r) (λ o,
    match o with
    | Search.Failed _ => True
    | Search.Break r' => match_ok r'
    | Search.Continue r' => Search.r_consumed r' <= Search.r_consumed r + 4 ∧
        ∃ z', run_ok z' r' ∧ left_over e z' r' < left_over e z r
    | Search.Through _ => False
    end).
Proof using Hg.
  intros [Hz Ei Ep Hl Hm Hn] He Hh Hb. unfold Search.regex_step. wp_step.
  pose proof (char_bytes_length (Search.r_c r)) as Hlen.
  wp_call (feed_ok (Search.char_bytes regex (Search.r_c r)) 0 r Hm Hl Hn); [lia|].
  apply (in_grid_lin g Hg) in He as [Hec He]. fold (in_range t (lin g e)) in He.
  intros [x|r1|r1|r1]; [done|done| |].
  { intros (_ & Hc1 & Hc0 & (S1 & S2 & S3 & S4) & Hm1). wp_step. split; [lia|]. exists z.
    split; [split; [done|congruence|congruence|by rewrite S4|done|lia]|].
    unfold left_over. rewrite S2, Hc1, Hc0. simpl. lia. }
  intros ((S1 & S2 & S3 & S4) & Hm1 & Hc1).
  destruct (bool_decide _ || _) eqn:Estop.
  { wp_step. assert (in_grid g (Search.r_point r1)) as Hp1
      by (rewrite S3, Ep; by apply (in_grid_unlin g Hg)).
    pose proof (at_end_ok r1 Hm1 Hp1). by destruct (Search.at_end regex r1). }
  apply orb_false_iff in Estop as [Ene Edone]. bools. rewrite S3, Ep in Ene. rewrite S2 in Edone.
  assert (z ≠ lin g e) as Hne by (intros ->; apply Ene; by apply (unlin_lin g Hg)).
  destruct (next_cell_ok t Hg regex z r1 Hz ltac:(congruence) ltac:(congruence)) as (x & -> & Hx).
  mrun. set (z1 := succ t dir z) in *. pose proof (succ_range t dir z Hz) as Hz1.
  wp_step. wp_call (skip_fullwidth_ok t Hg dir z1 x (lin g e) Hz1 Hx Hh).
  intros [it x'] (z2 & -> & Hz2 & Hmoved & Hpass). wp_step.
  destruct (cell_at_ok g Hg z2 Hz2) as [y Hy].
  change (Grid.GridIterator.cell g (iter_at g z2)) with (cell_at g z2). rewrite Hy. mrun.
  wp_call line_end_ok; [exact Hm1| |simpl; lia|].
  { cbn [Search.r_last_point]. rewrite S3, Ep. by apply (in_grid_unlin g Hg). }
  intros [x3|r3|r3|r3]; [done|done| |done].
  intros ((T1 & T2 & T3 & T4) & Hm3 & Hc3). cbn in T1, T2, T3, T4, Hc3.
  split; [lia|]. exists z2. split.
  { split; [done|done|done| |done|lia]. rewrite T4, S3, Ep. by apply (in_grid_unlin g Hg). }
  unfold left_over. rewrite T2, Edone.
  pose proof (distance_bound t dir z (lin g e) Hz).
  case_bool_decide as Edn; [repeat case_match; lia|].
  assert (z1 ≠ lin g e) as Hne1.
  { intros E1. apply Edn. rewrite E1. by apply (unlin_lin g Hg). }
  pose proof (distance_succ t dir z (lin g e) Hz He Hne) as D1. fold z1 in D1.
  pose proof (distance_moved t dir z1 z2 (lin g e) Hz1 Hz2 He Hmoved Hpass Hne1).
  repeat case_match; lia.
Qed.

Lemma regex_loop_ok fuel e z r :
  run_ok z r → in_grid g e → hidden t dir (lin g e) = false →
  left_over e z r < Z.of_nat fuel → Search.r_consumed r + 4 * Z.of_nat fuel <= I32_MAX →
  wp (Search.regex_loop fuel regex t e r) (λ '(m, _), ∀ p, m = Some p → in_grid g p).
Proof using Hg.
  intros Hr He Hh. revert z r Hr. induction fuel as [|fuel IH]; intros z r Hr Hf Hb.
  { exfalso. unfold left_over in Hf. pose proof (distance_bound t dir z (lin g e) (k_range _ _ Hr)).
    repeat case_match; lia. }
  cbn [Search.regex_loop]. wp_step. wp_call (regex_step_ok e z r Hr He Hh); [lia|].
  intros [x|r1|r1|r1]; [|done| |done].
  - intros _. by wp_step.
  - intros (Hc & z' & Hr' & Hlt). apply (IH z' r1); [done|lia|lia].
Qed.

Lemma regex_search_ok fuel start e :
  in_grid g start → in_grid g e → hidden t dir (lin g e) = false →
  is_Some (start_state_forward (dfa regex) (match_all regex) (cache regex)).1 →
  2 * (num_cells t + 1) <= Z.of_nat fuel → 4 * Z.of_nat fuel <= I32_MAX →
  wp (Search.regex_search fuel start e regex t) (λ '(m, _), ∀ p, m = Some p → in_grid g p).
Proof using Hg.
  intros Hs He Hh [s Hst] Hf Hb. apply (in_grid_lin g Hg) in Hs as [Hsc Hs].
  fold (in_range t (lin g start)) in Hs. pose proof He as He'.
  apply (in_grid_lin g Hg) in He' as [_ He']. fold (in_range t (lin g e)) in He'.
  unfold Search.regex_search, Search.regex_start.
  destruct (start_state_forward _ _ _) as [s' x]. simpl in Hst. subst s'. mrun.
  rewrite (iter_from_at g Hg start Hsc).
  change (Grid.GridIterator.cell g (iter_at g ?z)) with (cell_at g z).
  destruct (cell_at_ok g Hg _ Hs) as [y Hy]. rewrite Hy. mrun. wp_step. wp_step.
  wp_call (skip_fullwidth_ok t Hg dir _ y (lin g e) Hs Hy Hh).
  intros [it y'] (z & -> & Hz & _ & _). wp_step.
  change (Grid.GridIterator.cell g (iter_at g z)) with (cell_at g z).
  destruct (cell_at_ok g Hg z Hz) as [w Hw]. rewrite Hw. mrun. wp_step.
  eapply wp_mono; [eapply (regex_loop_ok fuel e z)|].
  - split; [done|done|done| |done|done]. by apply (in_grid_unlin g Hg).
  - done.
  - done.
  - unfold left_over. simpl. pose proof (distance_bound t dir z (lin g e) Hz). lia.
  - simpl. lia.
  - intros [m x'] Hm. by wp_step.
Qed.
End Iteration.

(** * Properties *)

Section RegexProperties.
Context `{External} `{Hybrid}.

Lemma num_cells_total t :
  grid_ok row_safe (Term.grid t) → num_cells t = Z.of_nat (total_lines t * columns t).
Proof.
  intros Hg. dims (search_dims t Hg). unfold num_cells, last_cell, first_cell, lin, last_point, first_point.
  change (bottommost_line (Term.grid t)) with (bottommost_line t).
  change (topmost_line (Term.grid t)) with (topmost_line t).
  change (columns (Term.grid t)) with (columns t). cbn [line column].
  change (last_column (Term.grid t)) with (last_column t). unfold last_column. nia.
Qed.

(** C7. The search for a regular expression ends, whatever the automaton: two iterations for every
    cell of the buffer are enough, and a match is a point of the buffer.  The end must not be the
    second half of a jump over the spacer before a fullwidth character. *)
Theorem regex_search_terminates t regex start e :
  grid_ok row_safe (Term.grid t) → in_grid (Term.grid t) start → in_grid (Term.grid t) e →
  hidden t (direction regex) (lin (Term.grid t) e) = false →
  is_Some (start_state_forward (dfa regex) (match_all regex) (cache regex)).1 →
  8 * (Z.of_nat (total_lines t * columns t) + 1) <= I32_MAX →
  wp (Search.regex_search (2 * (total_lines t * columns t + 1)) start e regex t)
    (λ '(m, _), ∀ p, m = Some p → in_grid (Term.grid t) p).
Proof.
  intros Hg Hs He Hh Hst Hb. apply regex_search_ok; [done..| |];
    pose proof (num_cells_total t Hg); lia.
Qed.

(** ** A search without end *)

(** The loop is still running after [n] iterations. *)
Fixpoint regex_steps (n : nat) regex t e (r : Search.run) : option Search.run :=
  match n with
  | O => Some r
  | S n => o ← Search.regex_step regex t e r;
           match o with Search.Continue r => regex_steps n regex t e r | _ => None end
  end.

Lemma regex_loop_steps n fuel regex t e r r' :
  regex_steps n regex t e r = Some r' →
  Search.regex_loop (n + fuel) regex t e r = Search.regex_loop fuel regex t e r'.
Proof.
  revert r. induction n as [|n IH]; intros r; simpl; [by intros [= ->]|].
  destruct (Search.regex_step _ _ _ _) as [[| | |]|]; simpl; try done. apply IH.
Qed.

Lemma regex_steps_add n m regex t e r :
  regex_steps (n + m) regex t e r = r' ← regex_steps n regex t e r; regex_steps m regex t e r'.
Proof.
  revert r. induction n as [|n IH]; intros r; [done|]. simpl.
  destruct (Search.regex_step _ _ _ _) as [[| | |]|]; simpl; first [done|apply IH].
Qed.

(** A cycle of the loop is never left. *)
Lemma regex_cycle k regex t e r :
  regex_steps (S k) regex t e r = Some r → ∀ n, is_Some (regex_steps n regex t e r).
Proof.
  intros Hk n. induction (lt_wf n) as [n _ IH]. destruct (decide (n <= S k)%nat) as [Hn|Hn].
  - replace (S k) with (n + (S k - n))%nat in Hk by lia. rewrite regex_steps_add in Hk.
    destruct (regex_steps n regex t e r); by eauto.
  - replace n with (S k + (n - S k))%nat by lia. rewrite regex_steps_add, Hk. apply IH. lia.
Qed.

Lemma regex_loop_never regex t e r fuel :
  (∀ n, is_Some (regex_steps n regex t e r)) → Search.regex_loop fuel regex t e r = None.
Proof.
  intros Hn. destruct (Hn fuel) as [r' Hr]. pose proof (regex_loop_steps fuel 0 _ _ _ _ _ Hr) as E.
  rewrite Nat.add_0_r in E. by rewrite E.
Qed.

Lemma regex_runs_forever regex t e (start : option Search.run) n k r :
  (r0 ← start; regex_steps n regex t e r0) = Some r → regex_steps (S k) regex t e r = Some r →
  ∀ m, is_Some (r0 ← start; regex_steps m regex t e r0).
Proof.
  destruct start as [r0|]; [|done]. mrun. intros E Hk m. destruct (decide (m <= n)%nat) as [Hm|Hm].
  - replace n with (m + (n - m))%nat in E by lia. rewrite regex_steps_add in E.
    destruct (regex_steps m regex t e r0); by eauto.
  - replace m with (n + (m - n))%nat by lia. rewrite regex_steps_add, E. by apply (regex_cycle k).
Qed.

(** *** The search to the left and a wrapped fullwidth character *)

(** An automaton that neither matches nor dies: one of an expression that does not occur. *)
Record silent regex : Prop := {
  silent_start x : is_Some (start_state_forward (dfa regex) (match_all regex) x).1;
  silent_next s b x : is_Some (next_state (dfa regex) s b x).1;
  silent_eoi s x : is_Some (next_eoi_state (dfa regex) s x).1;
  silent_match s : is_match s = false;
  silent_alive s : is_dead s = false }.

(** A fullwidth character at the beginning of a line: before it is the spacer that fills the line
    before, after it its own spacer, and then another character. *)
Record wrapped_wide t e : Prop := {
  wide_in : first_cell (Term.grid t) < e < last_cell (Term.grid t);
  wide_leading : leading_at t (e - 1) = true;
  wide_spacer : wide_spacer_at t (e + 1) = true;
  wide_next : wide_spacer_at t (e + 2) = false;
  wide_plain : leading_at t (e + 1) = false }.

(** Positions from which the search to the left never stands at [e]. *)
Definition beside e z : Prop := z ≠ e ∧ z ≠ e + 1.

Section Beside.
Context (t : Term.t) (e : Point) (regex : LazyDfa).
Context (Hg : grid_ok row_safe (Term.grid t)) (Hdir : direction regex = Left) (Hsilent : silent regex).
#[local] Abbreviation g := (Term.grid t).
Context (He : in_grid g e) (Hwide : wrapped_wide t (lin g e)).

Lemma skip_beside z x :
  in_range t z → z ≠ lin g e → cell_at g z = Some x →
  wp (Search.skip_fullwidth Left t (iter_at g z) x)
    (λ '(it, _), ∃ z', it = iter_at g z' ∧ in_range t z' ∧ beside (lin g e) z').
Proof using Hg Hwide.
  intros Hz Hne Hx. destruct Hwide as [Hin Hlead Hsp Hnext Hplain]. unfold Search.skip_fullwidth.
  pose proof (advance_push t Hg Left z x Hz Hx) as (item & x1 & E1 & Hx1 & _).
  pose proof (push_range t Left z Hz) as Hz1.
  pose proof (advance_push t Hg Left _ x1 Hz1 Hx1) as (item2 & x2 & E2 & Hx2 & _).
  pose proof (push_range t Left _ Hz1) as Hz2.
  pose proof (push_bounds t Left z Hz) as H1. pose proof (push_bounds t Left _ Hz1) as H2.
  unfold Search.advance_in, Search.advance, beside in *.
  assert (wide_spacer_at t z = Flags.contains (flags x) Flags.WIDE_CHAR_SPACER) as Es.
  { unfold wide_spacer_at. by rewrite (flag_at_cell g _ z x Hx). }
  destruct (Flags.contains (flags x) Flags.WIDE_CHAR_SPACER).
  - rewrite E1. mrun. change (Grid.GridIterator.point (iter_at g ?z)) with (unlin g z).
    rewrite sub_grid by done. mrun.
    destruct (cell_at_ok g Hg (Z.max (first_cell g) (push t Left z - 1))) as [y Hy].
    { unfold in_range in *. lia. }
    change (Grid.index_point (unlin g ?z) g) with (cell_at g z). rewrite Hy. mrun.
    assert (leading_at t (Z.max (first_cell g) (push t Left z - 1))
            = Flags.contains (flags y) Flags.LEADING_WIDE_CHAR_SPACER) as El.
    { unfold leading_at. by rewrite (flag_at_cell g _ _ y Hy). }
    assert (z ≠ lin g e + 2) as Hn2 by (intros ->; congruence).
    destruct (Flags.contains (flags y) _).
    + rewrite E2. mrun. exists (push t Left (push t Left z)). split; [done|]. split; [done|].
      unfold in_range in *.
      assert (push t Left z ≠ lin g e + 2); [|lia].
      intros Ez. rewrite Ez in El. replace (Z.max _ _) with (lin g e + 1) in El by lia. congruence.
    + mrun. exists (push t Left z). split; [done|]. split; [done|]. unfold in_range in *.
      assert (push t Left z ≠ lin g e); [|lia].
      intros Ez. rewrite Ez in El. replace (Z.max _ _) with (lin g e - 1) in El by lia. congruence.
  - wp_step. exists z. split; [done|]. split; [done|]. split; [done|]. intros ->. congruence.
Qed.

(** The loop is beside the end, and nothing has matched. *)
Record running z (r : Search.run) : Prop := {
  run_range : in_range t z;
  run_beside : beside (lin g e) z;
  run_iter : Search.r_iter r = iter_at g z;
  run_point : Search.r_point r = unlin g z;
  run_match : Search.r_match r = None;
  run_done : Search.r_done r = false }.

Lemma feed_silent bytes i r z :
  running z r →
  match Search.feed regex bytes i r with
  | Some (Search.Through r') => running z r'
  | Some _ => False
  | None => True
  end.
Proof using Hsilent.
  revert i r. induction bytes as [|byte bytes IH]; intros i r Hr; cbn [Search.feed]; [done|].
  destruct (silent_next _ Hsilent (Search.r_state r) byte (Search.r_cache r)) as [s Es].
  destruct (next_state _ _ _ _) as [s' x]. cbn in Es. subst s'.
  destruct (i32_add _ _) as [n|]; [|done]. mrun.
  rewrite (silent_match _ Hsilent), (silent_alive _ Hsilent), andb_false_r.
  apply IH. by destruct Hr.
Qed.

Lemma line_end_silent wrapped r z :
  running z r →
  match Search.line_end regex t wrapped r with
  | Some (Search.Continue r') => running z r'
  | Some _ => False
  | None => True
  end.
Proof using Hsilent.
  intros [R1 R2 R3 R4 R5 R6]. unfold Search.line_end. destruct (_ || _).
  - destruct (silent_eoi _ Hsilent (Search.r_state r) (Search.r_cache r)) as [s Es].
    destruct (next_eoi_state _ _ _) as [s' x]. cbn in Es. subst s'.
    rewrite (silent_match _ Hsilent). cbn [Search.with_state Search.r_match].
    rewrite R5. cbn [andb bool_decide decide]. rewrite bool_decide_false by (by intros [? [=]]).
    cbn [andb]. unfold Search.reset_state.
    destruct (silent_start _ Hsilent (Search.r_cache (Search.with_state s x None (Search.r_consumed r) r))) as [s' Es'].
    cbn [Search.with_state Search.r_cache] in Es'.
    cbn [Search.r_cache]. destruct (start_state_forward _ _ _) as [s0 x0]. cbn in Es'. subst s0. by split.
  - by split.
Qed.

(** An iteration stays beside the end. *)
Lemma step_silent r z :
  running z r →
  match Search.regex_step regex t e r with
  | Some (Search.Continue r') => ∃ z', running z' r'
  | Some _ => False
  | None => True
  end.
Proof using Hg Hdir Hsilent He Hwide.
  intros Hr. unfold Search.regex_step.
  pose proof (feed_silent (Search.char_bytes regex (Search.r_c r)) 0 r z Hr) as Hf.
  destruct (Search.feed _ _ _ _) as [[| | |r1]|]; try done. mrun.
  destruct Hf as [R1 R2 R3 R4 R5 R6]. apply (in_grid_lin g Hg) in He as Hec.
  assert (∀ z', unlin g z' = e → z' = lin g e) as Hunlin.
  { intros z' <-. symmetry. by apply (lin_unlin g Hg). }
  rewrite R6, orb_false_r, bool_decide_false; [|rewrite R4; intros Ez%Hunlin; by destruct R2].
  destruct (next_cell_ok t Hg regex z r1 R1 R3 R4) as (x & -> & Hx). mrun.
  rewrite Hdir in *. pose proof (succ_range t Left z R1) as Hz1. set (z1 := succ t Left z) in *.
  assert (z1 ≠ lin g e) as Hne.
  { destruct R2, (wide_in _ _ Hwide). unfold z1, succ. case_match; bools; lia. }
  pose proof (skip_beside z1 x Hz1 Hne Hx) as Hskip.
  destruct (Search.skip_fullwidth _ _ _ _) as [[it x']|]; [|done]. mrun.
  destruct Hskip as (z2 & -> & Hz2 & Hb2).
  destruct (Grid.GridIterator.cell g (iter_at g z2)) as [here|]; [|done]. mrun.
  pose proof (line_end_silent (Flags.contains (flags here) Flags.WRAPLINE)
    (Search.mkRun (Search.r_cache r1) (Search.r_state r1) (iter_at g z2) (Search.r_match r1)
      (bool_decide (Grid.GridIterator.point (iter_at g z1) = e)) (c x') (Search.r_last_wrapped r1)
      (Grid.GridIterator.point (iter_at g z2)) (Search.r_point r1) (Search.r_consumed r1)) z2) as Hl.
  match type of Hl with ?P → _ => assert P as Hrun end.
  { split; try done. cbn. apply bool_decide_false. intros Ez%Hunlin. done. }
  specialize (Hl Hrun). destruct (Search.line_end _ _ _ _) as [[| | |]|]; try done. eauto.
Qed.

Lemma loop_silent fuel r z : running z r → Search.regex_loop fuel regex t e r = None.
Proof using Hg Hdir Hsilent He Hwide.
  revert r z. induction fuel as [|fuel IH]; intros r z Hr; [done|]. cbn [Search.regex_loop].
  pose proof (step_silent r z Hr) as Hs.
  destruct (Search.regex_step _ _ _ _) as [[| | |]|]; try done. mrun.
  destruct Hs as [z' Hr']. by eapply IH.
Qed.

(** ** The loop goes on *)

Lemma feed_goes_on bytes i r z :
  running z r → 0 <= Search.r_consumed r →
  Search.r_consumed r + Z.of_nat (length bytes) <= I32_MAX →
  ∃ r', Search.feed regex bytes i r = Some (Search.Through r') ∧ running z r' ∧
    0 <= Search.r_consumed r' <= Search.r_consumed r + Z.of_nat (length bytes).
Proof using Hsilent.
  revert i r. induction bytes as [|byte bytes IH]; intros i r Hr Hc0 Hn; cbn [Search.feed length] in *.
  { exists r. split; [done|]. split; [done|]. lia. }
  destruct (silent_next _ Hsilent (Search.r_state r) byte (Search.r_cache r)) as [s Es].
  destruct (next_state _ _ _ _) as [s' x]. cbn in Es. subst s'.
  rewrite i32_add_ok by (lia). mrun.
  rewrite (silent_match _ Hsilent), (silent_alive _ Hsilent), andb_false_r.
  set (r1 := Search.with_state _ _ _ _ r). assert (running z r1) as Hr1 by (by destruct Hr).
  assert (Search.r_consumed r1 = Search.r_consumed r + 1) as E1 by done.
  destruct (IH (S i) r1 Hr1) as (r' & -> & Hr' & Hc); [lia|lia|]. exists r'. split; [done|].
  split; [done|]. lia.
Qed.

Lemma line_end_goes_on wrapped r z :
  running z r →
  ∃ r', Search.line_end regex t wrapped r = Some (Search.Continue r') ∧
    (Search.r_consumed r' = 0 ∨ Search.r_consumed r' = Search.r_consumed r).
Proof using Hsilent.
  intros [R1 R2 R3 R4 R5 R6]. unfold Search.line_end. destruct (_ || _); [|by eexists; auto].
  destruct (silent_eoi _ Hsilent (Search.r_state r) (Search.r_cache r)) as [s Es].
  destruct (next_eoi_state _ _ _) as [s' x]. cbn in Es. subst s'.
  rewrite (silent_match _ Hsilent). cbn [Search.with_state Search.r_match].
  rewrite R5, bool_decide_false by (by intros [? [=]]). cbn [andb]. unfold Search.reset_state.
  cbn [Search.r_cache].
  destruct (silent_start _ Hsilent x) as [s0 Es0]. destruct (start_state_forward _ _ _) as [s0' x0].
  cbn in Es0. subst s0'. by eexists; auto.
Qed.

Lemma step_goes_on r z :
  running z r → 0 <= Search.r_consumed r → Search.r_consumed r + 4 <= I32_MAX →
  ∃ r' z', Search.regex_step regex t e r = Some (Search.Continue r') ∧ running z' r' ∧
    0 <= Search.r_consumed r' <= Search.r_consumed r + 4.
Proof using Hg Hdir Hsilent He Hwide.
  intros Hr Hc0 Hn. pose proof (step_silent r z Hr) as Hs. unfold Search.regex_step in *.
  pose proof (char_bytes_length regex (Search.r_c r)) as Hb.
  destruct (feed_goes_on (Search.char_bytes regex (Search.r_c r)) 0 r z Hr Hc0 ltac:(lia))
    as (r1 & Ef & [R1 R2 R3 R4 R5 R6] & Hc). rewrite Ef in *. clear Ef. cbn [mbind option_bind] in *.
  apply (in_grid_lin g Hg) in He as Hec.
  assert (∀ z', unlin g z' = e → z' = lin g e) as Hunlin.
  { intros z' <-. symmetry. by apply (lin_unlin g Hg). }
  rewrite R6, orb_false_r, bool_decide_false in * by (rewrite R4; intros Ez%Hunlin; by destruct R2).
  destruct (next_cell_ok t Hg regex z r1 R1 R3 R4) as (x & Ex & Hx). rewrite Ex in *. clear Ex.
  cbn [mbind option_bind] in *. rewrite Hdir in *. pose proof (succ_range t Left z R1) as Hz1.
  set (z1 := succ t Left z) in *.
  assert (z1 ≠ lin g e) as Hne.
  { clear Hs. destruct R2, (wide_in _ _ Hwide). unfold z1, succ. case_match; bools; lia. }
  pose proof (skip_beside z1 x Hz1 Hne Hx) as Hskip. apply wp_some in Hskip as ([it x'] & Ek & z2 & -> & Hz2 & Hb2).
  rewrite Ek in *. clear Ek. cbn [mbind option_bind] in *.
  change (Grid.GridIterator.cell g (iter_at g z2)) with (cell_at g z2) in *.
  destruct (cell_at_ok g Hg z2 Hz2) as [here Eh]. rewrite Eh in *. cbn [mbind option_bind] in *.
  match type of Hs with context [Search.line_end _ _ ?w ?q] =>
    destruct (line_end_goes_on w q z2) as (r' & El & Hcons) end.
  { split; try done. cbn. apply bool_decide_false. intros Ez%Hunlin. done. }
  rewrite El in *. destruct Hs as [z' Hr']. exists r', z'. split; [done|]. split; [done|].
  cbn [Search.r_consumed] in Hcons. lia.
Qed.

Lemma steps_go_on n r z :
  running z r → 0 <= Search.r_consumed r → Search.r_consumed r + 4 * Z.of_nat n <= I32_MAX →
  is_Some (regex_steps n regex t e r).
Proof using Hg Hdir Hsilent He Hwide.
  revert r z. induction n as [|n IH]; intros r z Hr Hc0 Hn; cbn [regex_steps]; [by eexists|].
  destruct (step_goes_on r z Hr Hc0 ltac:(lia)) as (r' & z' & -> & Hr' & Hc). cbn [mbind option_bind].
  apply (IH r' z'); [done|lia|lia].
Qed.

Lemma start_silent start :
  in_grid g start → start ≠ e →
  ∃ r z, Search.regex_start regex t start = Some r ∧ running z r ∧ Search.r_consumed r = 0.
Proof using Hg Hdir Hsilent He Hwide.
  intros Hs Hne. apply (in_grid_lin g Hg) in Hs as Hs'. destruct Hs' as [Hsc Hsr].
  unfold Search.regex_start.
  destruct (silent_start _ Hsilent (cache regex)) as [s Es].
  destruct (start_state_forward _ _ _) as [s' x]. cbn in Es. subst s'. mrun.
  rewrite (iter_from_at g Hg start Hsc).
  change (Grid.GridIterator.cell g (iter_at g ?z)) with (cell_at g z).
  destruct (cell_at_ok g Hg _ Hsr) as [y Hy]. rewrite Hy. mrun. rewrite Hdir.
  assert (lin g start ≠ lin g e) as Hne'.
  { intros E. apply Hne. apply (lin_inj g); [apply Hs|apply He|exact E]. }
  pose proof (skip_beside _ y Hsr Hne' Hy) as Hskip.
  apply wp_some in Hskip as ([it y'] & -> & z & -> & Hz & Hb). mrun.
  change (Grid.GridIterator.cell g (iter_at g ?z)) with (cell_at g z).
  destruct (cell_at_ok g Hg _ Hz) as [here ->]. mrun. eexists _, z. split; [done|]. by split.
Qed.

Lemma search_silent fuel start :
  in_grid g start → start ≠ e → Search.regex_search fuel start e regex t = None.
Proof using Hg Hdir Hsilent He Hwide.
  intros Hs Hne. unfold Search.regex_search.
  destruct (start_silent start Hs Hne) as (r & z & -> & Hr & _). mrun. by rewrite (loop_silent fuel r z).
Qed.

Lemma search_goes_on n start :
  in_grid g start → start ≠ e → 4 * Z.of_nat n <= I32_MAX →
  is_Some (r ← Search.regex_start regex t start; regex_steps n regex t e r).
Proof using Hg Hdir Hsilent He Hwide.
  intros Hs Hne Hn. destruct (start_silent start Hs Hne) as (r & z & -> & Hr & E). mrun.
  apply (steps_go_on n r z); [done|lia|lia].
Qed.
End Beside.

(** A search to the left that does not end is a call of [search_next] that does not. *)
Lemma search_next_left_runs t s regex start fuel origin side (n : nat) l e :
  left_fdfa s = regex → start = Search.regex_start regex t origin →
  Term.expand_wide origin Left t = Some origin → (n + 1 < total_lines t)%nat →
  Search.line_search_right origin t = Some origin →
  (l ← Line.sub_usize (line origin) n; Line.grid_clamp t BoundaryNone l) = Some l →
  e = Pt l 0%nat → origin ≠ e →
  (∀ m, is_Some (r ← start; regex_steps m regex t e r)) →
  SearchNext.search_next fuel origin Left side (Some n) t s = None.
Proof.
  intros Er -> E1 Hn E2 E3 -> Hne Hruns. unfold SearchNext.search_next. rewrite E1. mrun.
  rewrite (proj2 (Nat.ltb_lt _ _) Hn). unfold SearchNext.next_match_left. rewrite E2. mrun.
  destruct (Line.sub_usize (line origin) n) as [l'|]; [|done]. revert E3. mrun. intros ->. mrun.
  unfold RegexIter.first_after, RegexIter.next, RegexIter.new.
  cbn [RegexIter.done RegexIter.point RegexIter.end_]. rewrite bool_decide_false by done.
  unfold RegexIter.next_match. cbn [RegexIter.direction RegexIter.point RegexIter.end_].
  unfold Search.regex_search_left, Search.regex_search. rewrite Er.
  destruct (Search.regex_start regex t origin) as [r|]; [|done].
  revert Hruns. mrun. intros Hruns. by rewrite (regex_loop_never regex t _ r fuel Hruns).
Qed.

(** C8. A search to the left whose end is a fullwidth character at the beginning of a line, which was
    wrapped because it did not fit into the line before, never returns when the expression does not
    occur, whatever the automaton does as long as it neither matches nor dies, in every buffer and from
    every start but the end itself: no number of iterations gives a result.  This is not a panic: the
    loop is still running after any number of iterations for which its counter of bytes, with four
    bytes for every iteration, is within its 32 bits. *)
Theorem search_left_never_returns t regex start e :
  grid_ok row_safe (Term.grid t) → direction regex = Left → silent regex →
  in_grid (Term.grid t) start → in_grid (Term.grid t) e → wrapped_wide t (lin (Term.grid t) e) →
  start ≠ e →
  (∀ fuel, Search.regex_search fuel start e regex t = None) ∧
  ∀ n, 4 * Z.of_nat n <= I32_MAX →
    is_Some (r ← Search.regex_start regex t start; regex_steps n regex t e r).
Proof.
  intros Hg Hd Hs Hst He Hw Hne. split; [intros; by apply search_silent|intros; by apply search_goes_on].
Qed.
End RegexProperties.

#[local] Existing Instance Sample.external.

(** The automaton of an expression that does not occur: it neither matches nor dies. *)
#[local] Instance Absent : Hybrid := {|
  DFA := unit; Cache := unit; LazyStateID := unit;
  start_state_forward := λ _ _ x, (Some tt, x);
  next_state := λ _ _ _ x, (Some tt, x);
  next_eoi_state := λ _ _ x, (Some tt, x);
  is_match := λ _, false;
  is_dead := λ _, false;
|}.
Definition absent (d : Direction) (match_all : bool) : LazyDfa := mkLazyDfa tt tt d match_all.
Definition absent_search : RegexSearch :=
  mkRegexSearch (absent Left false) (absent Right true) (absent Left true) (absent Right false).

(** A line that ends before a wrapped fullwidth character, in a buffer of three lines. *)
Definition wide_line : Term.t := TermSample.typed [Input 97; Input 98; Input 99; Input 27721]%N.

Definition absent_run (n : nat) : option Search.run :=
  r ← Search.regex_start (absent Left false) wide_line (Pt 2 3%nat);
  regex_steps n (absent Left false) wide_line (Pt 1 0%nat) r.

(** The variables after ten iterations, when the search has gone once around the buffer. *)
Definition absent_again : Search.run.
Proof.
  let x := eval vm_compute in (absent_run 10) in match x with Some ?r => exact r end.
Defined.

Definition absent_start : option Search.run :=
  Search.regex_start (absent Left false) wide_line (Pt 2 3%nat).

Lemma absent_run_10 :
  (r ← absent_start; regex_steps 10 (absent Left false) wide_line (Pt 1 0%nat) r) = Some absent_again.
Proof. vm_compute. reflexivity. Qed.

Lemma absent_cycle :
  regex_steps 10 (absent Left false) wide_line (Pt 1 0%nat) absent_again = Some absent_again.
Proof. by vm_compute. Qed.

Lemma absent_runs n :
  is_Some (r ← absent_start; regex_steps n (absent Left false) wide_line (Pt 1 0%nat) r).
Proof. exact (regex_runs_forever _ _ _ _ 10 9 absent_again absent_run_10 absent_cycle n). Qed.

(** For this buffer and this automaton the loop goes on forever, and so does [search_next] with a limit
    of lines that ends at the fullwidth character. *)
Lemma search_next_runs_forever :
  (∀ n, is_Some (r ← absent_start;
    regex_steps n (absent Left false) wide_line (Pt 1 0%nat) r)) ∧
  ∀ fuel, SearchNext.search_next fuel (Pt 2 3%nat) Left Left (Some 1%nat) wide_line absent_search
    = None.
Proof.
  split; [exact absent_runs|]. intros fuel.
  apply (search_next_left_runs wide_line absent_search (absent Left false) absent_start
    fuel (Pt 2 3%nat) Left 1 1 (Pt 1 0%nat)); [reflexivity|reflexivity| |apply Nat.ltb_lt| | |reflexivity|discriminate|exact absent_runs];
    vm_compute; reflexivity.
Qed.

(** A search from one end of this buffer to the other ends. *)
Lemma regex_search_terminates_witness :
  wp (Search.regex_search 26 (Pt 2 3%nat) (Pt 0 0%nat) (absent Left false) wide_line)
    (λ '(m, _), ∀ p, m = Some p → in_grid (Term.grid wide_line) p).
Proof.
  apply (regex_search_terminates wide_line (absent Left false) (Pt 2 3%nat) (Pt 0 0%nat)).
  - apply TermSample.typed_grid_ok; [by repeat constructor|simpl; lia].
  - split; [by vm_compute|by vm_compute; lia].
  - split; [by vm_compute|by vm_compute; lia].
  - by vm_compute.
  - by eexists.
  - by vm_compute.
Defined.

Lemma search_left_never_returns_witness :
  Search.regex_search 1000 (Pt 2 3%nat) (Pt 1 0%nat) (absent Left false) wide_line = None ∧
  is_Some (r ← Search.regex_start (absent Left false) wide_line (Pt 2 3%nat);
           regex_steps 1000 (absent Left false) wide_line (Pt 1 0%nat) r).
Proof.
  cut ((∀ fuel, Search.regex_search fuel (Pt 2 3%nat) (Pt 1 0%nat) (absent Left false) wide_line = None) ∧
    ∀ n, 4 * Z.of_nat n <= I32_MAX →
      is_Some (r ← Search.regex_start (absent Left false) wide_line (Pt 2 3%nat);
               regex_steps n (absent Left false) wide_line (Pt 1 0%nat) r)).
  { intros [Hnone Hruns]. split; [exact (Hnone 1000%nat)|exact (Hruns 1000%nat ltac:(lia))]. }
  apply (search_left_never_returns wide_line (absent Left false) (Pt 2 3%nat) (Pt 1 0%nat)).
  - apply TermSample.typed_grid_ok; [by repeat constructor|simpl; lia].
  - reflexivity.
  - split; intros; done || by eexists.
  - split; [by vm_compute|by vm_compute; lia].
  - split; [by vm_compute|by vm_compute; lia].
  - split; by vm_compute.
  - discriminate.
Defined.
