(* ===== verification/ViModes.v ===== *)
(** The cursor of the vi mode ([cutty_terminal/src/vi_mode.rs]): its motions, and the method of
    [Term] that applies them.

    The loops over cells have the number of cells as fuel, the loops over lines the number of
    lines. *)
From S2P Require Import Prelude Index Cells Rows Storages Grids Resizes TermData Selections Terms.
From S2P Require Import Searches.
#[local] Open Scope Z_scope.

(** [Iterator::find] and [Iterator::skip_while] with a test that may panic. *)
Fixpoint findM {A} (p : A → option bool) (l : list A) : option (option A) :=
  match l with
  | [] => Some None
  | x :: l => b ← p x; if b : bool then Some (Some x) else findM p l
  end.
Fixpoint skip_whileM {A} (p : A → option bool) (l : list A) : option (list A) :=
  match l with
  | [] => Some []
  | x :: l' => b ← p x; if b : bool then skip_whileM p l' else Some l
  end.

Inductive ViMotion :=
  | Up | Down | MoveLeft | MoveRight | First | Last | FirstOccupied | High | Middle | Low
  | SemanticLeft | SemanticRight | SemanticLeftEnd | SemanticRightEnd
  | WordLeft | WordRight | WordLeftEnd | WordRightEnd
  | Bracket | ParagraphUp | ParagraphDown.
#[export] Instance ViMotion_eq_dec : EqDecision ViMotion.
Proof. solve_decision. Defined.

(** The functions of the module; a [ViModeCursor] is its point. *)
Module Vi.
Section ops.
Context `{External}.
Implicit Types (t : Term.t) (p : Point) (d : Direction) (side : Side).

Definition is_space t p : option bool :=
  cell ← Grid.index_point p (Term.grid t);
  Some (negb (Flags.intersects (flags cell) Search.wide_spacer)
        && ((c cell =? 32)%N || (c cell =? 9)%N)).

Definition is_wrap t p : option bool :=
  cell ← Grid.index_point p (Term.grid t); Some (Flags.contains (flags cell) Flags.WRAPLINE).

Definition is_boundary t p d : bool :=
  (line p <=? topmost_line t) && (column p =? 0)%nat && bool_decide (d = Left)
  || (line p =? bottommost_line t) && (columns t <=? column p + 1)%nat && bool_decide (d = Right).

Definition advance t p d : option Point :=
  if bool_decide (d = Left) then Point.sub t BoundaryGrid 1 p else Point.add t BoundaryGrid 1 p.

Definition is_occupied t p : option bool := b ← is_space t p; Some (negb b).
Definition first_occupied_in_line t (l : Z) : option (option Point) :=
  findM (is_occupied t) (Pt l <$> seq 0 (columns t)).
Definition last_occupied_in_line t (l : Z) : option (option Point) :=
  findM (is_occupied t) (reverse (Pt l <$> seq 0 (columns t))).

(** [while is_wrap(term, point)] of [last]. *)
Fixpoint last_wrapped (fuel : nat) t p : option Point :=
  match fuel with
  | O => None
  | S fuel =>
      b ← is_wrap t p;
      if b : bool then l ← i32_add (line p) 1; last_wrapped fuel t (Pt l (column p)) else Some p
  end.

Definition last t p : option Point :=
  p ← Term.expand_wide p Right t;
  occupied ← last_occupied_in_line t (line p);
  let occupied := from_option id Point.default occupied in
  if (column p <? column occupied)%nat then Some occupied
  else
    b ← is_wrap t p;
    if b : bool then
      p ← last_wrapped (S (total_lines t)) t p;
      q ← last_occupied_in_line t (line p);
      Some (from_option id p q)
    else Some (Pt (line p) (last_column t)).

(** The [for] loop of [first_occupied] over the lines above, upwards. *)
Fixpoint occupied_above t (ls : list Z) (occupied : option Point) : option (option Point) :=
  match ls with
  | [] => Some occupied
  | l :: ls =>
      b ← is_wrap t (Pt l (last_column t));
      if negb b then Some occupied
      else
        o ← first_occupied_in_line t l;
        occupied_above t ls (match o with Some _ => o | None => occupied end)
  end.

(** Its fallback, the [loop] downwards. *)
Fixpoint occupied_below (fuel : nat) t (l : Z) : option Point :=
  match fuel with
  | O => None
  | S fuel =>
      o ← first_occupied_in_line t l;
      match o with
      | Some occupied => Some occupied
      | None =>
          let last_cell := Pt l (last_column t) in
          b ← is_wrap t last_cell;
          if negb b then Some last_cell
          else l ← i32_add l 1; occupied_below fuel t l
      end
  end.

Definition first_occupied t p : option Point :=
  p ← Term.expand_wide p Left t;
  o ← first_occupied_in_line t (line p);
  let occupied := from_option id (Pt (line p) (last_column t)) o in
  if bool_decide (p = occupied) then
    o ← occupied_above t (reverse (zrange (topmost_line t) (line p))) None;
    match o with
    | Some q => Some q
    | None => occupied_below (S (total_lines t)) t (line p)
    end
  else Some occupied.

Definition expand_semantic t d p : option Point :=
  cell ← Grid.index_point p (Term.grid t);
  if bool_decide (c cell ∈ Config.semantic_escape_chars (Term.config t))
     && negb (Flags.intersects (flags cell) Search.wide_spacer) then Some p
  else if bool_decide (d = Left) then Search.semantic_search_left p t
  else Search.semantic_search_right p t.

(** [while !is_boundary(point) && test(next_point)] with the next point looked at in advance;
    [invert] negates the test. *)
Fixpoint skip_next (fuel : nat) (invert : bool) t d p next : option Point :=
  match fuel with
  | O => None
  | S fuel =>
      go ← (if is_boundary t p d then Some false
            else b ← is_space t next; Some (xorb invert b));
      if go : bool then next' ← advance t next d; skip_next fuel invert t d next next'
      else Some p
  end.

(** [while !is_boundary(point) && test(point)]. *)
Fixpoint skip_here (fuel : nat) (invert : bool) t d p : option Point :=
  match fuel with
  | O => None
  | S fuel =>
      go ← (if is_boundary t p d then Some false
            else b ← is_space t p; Some (xorb invert b));
      if go : bool then p ← advance t p d; skip_here fuel invert t d p else Some p
  end.

Definition semantic t p d side : option Point :=
  p ← (if negb (bool_decide (d = side)) && negb (is_boundary t p d)
       then expand_semantic t d p else Some p);
  p ← Term.expand_wide p d t;
  next ← advance t p d;
  p ← skip_next (Search.fuel t) false t d p next;
  p ← (if negb (is_boundary t p d) then
         p ← advance t p d;
         if bool_decide (d = Left) then Term.expand_wide p d t else Some p
       else Some p);
  if bool_decide (d = side) && negb (is_boundary t p d) then expand_semantic t d p else Some p.

Definition word t p d side : option Point :=
  p ← Term.expand_wide p d t;
  if bool_decide (d = side) then
    next ← advance t p d;
    p ← skip_next (Search.fuel t) false t d p next;
    next ← advance t p d;
    skip_next (Search.fuel t) true t d p next
  else
    p ← skip_here (Search.fuel t) true t d p;
    skip_here (Search.fuel t) false t d p.

(** The loop of [ViMotion::First]. *)
Fixpoint first_line (fuel : nat) t p : option Point :=
  match fuel with
  | O => None
  | S fuel =>
      if (column p =? 0)%nat && (topmost_line t <? line p) then
        l ← i32_sub (line p) 1;
        b ← is_wrap t (Pt l (last_column t));
        if b : bool then first_line fuel t (Pt l (column p)) else Some p
      else Some p
  end.

(** The first occupied column of a displayed line. *)
Definition occupied_column t (l : Z) : option Point :=
  o ← first_occupied_in_line t l; Some (Pt l (column (from_option id Point.default o))).

Definition row_is_clear t (l : Z) : option bool :=
  r ← Grid.index l (Term.grid t); Some (Row.is_clear r).
(** The next empty line after the paragraph in the order of the lines. *)
Definition paragraph t (ls : list Z) : option (option Z) :=
  ls ← skip_whileM (row_is_clear t) ls; findM (row_is_clear t) ls.

(** Where a motion leads. *)
Definition target t (m : ViMotion) p : option Point :=
  let display_offset := as_i32 (Grid.display_offset (Term.grid t)) in
  match m with
  | Up =>
      if topmost_line t <? line p then l ← i32_sub (line p) 1; Some (Pt l (column p)) else Some p
  | Down =>
      l ← i32_add (line p) 1;
      if l <? as_i32 (screen_lines t) then Some (Pt l (column p)) else Some p
  | MoveLeft =>
      p ← Term.expand_wide p Left t;
      l ← i32_sub (line p) 1;
      let wrap_point := Pt l (last_column t) in
      b ← (if (column p =? 0)%nat && (topmost_line t <? line p)
           then is_wrap t wrap_point else Some false);
      Some (if b : bool then wrap_point else Pt (line p) (column p - 1)%nat)
  | MoveRight =>
      p ← Term.expand_wide p Right t;
      b ← is_wrap t p;
      if b : bool then l ← i32_add (line p) 1; Some (Pt l 0%nat)
      else Some (Pt (line p) (Nat.min (column p + 1) (last_column t)))
  | First =>
      p ← Term.expand_wide p Left t;
      p ← first_line (S (total_lines t)) t p;
      Some (Pt (line p) 0%nat)
  | Last => last t p
  | FirstOccupied => first_occupied t p
  | High => occupied_column t (- display_offset)
  | Middle =>
      l ← i32_add (- display_offset) (as_i32 (screen_lines t) / 2);
      l ← i32_sub l 1;
      occupied_column t l
  | Low =>
      l ← i32_add (- display_offset) (as_i32 (screen_lines t));
      l ← i32_sub l 1;
      occupied_column t l
  | SemanticLeft => semantic t p Left Left
  | SemanticRight => semantic t p Right Left
  | SemanticLeftEnd => semantic t p Left Right
  | SemanticRightEnd => semantic t p Right Right
  | WordLeft => word t p Left Left
  | WordRight => word t p Right Left
  | WordLeftEnd => word t p Left Right
  | WordRightEnd => word t p Right Right
  | Bracket => q ← Search.bracket_search p t; Some (from_option id p q)
  | ParagraphUp =>
      l ← paragraph t (reverse (zrange (topmost_line t) (line p)));
      Some (Pt (from_option id (topmost_line t) l) 0%nat)
  | ParagraphDown =>
      l ← paragraph t (zrange (line p) (bottommost_line t));
      Some (Pt (from_option id (bottommost_line t) l) 0%nat)
  end.

(** [ViModeCursor::motion]. *)
Definition motion t (m : ViMotion) p : option (Point * Term.t) :=
  p ← target t m p; t ← Term.scroll_to_point p t; Some (p, t).

(** [ViModeCursor::scroll]. *)
Definition scroll t (lines : Z) p : option Point :=
  l ← i32_sub (line p) lines;
  l ← Line.grid_clamp t BoundaryGrid l;
  occupied_column t l.

(** [Term::vi_motion]. *)
Definition vi_motion (m : ViMotion) t : option Term.t :=
  if negb (Term.has_mode TermMode.VI t) then Some t
  else
    '(p, t) ← motion t m (Term.vi_mode_cursor t);
    Some (Term.vi_mode_recompute_selection (Term.set_vi_mode_cursor p t)).
End ops.
End Vi.
