(* ===== verification/ViProps.v ===== *)
(** The motions of the vi mode cursor ([ViModes]).

    In a buffer whose wide characters and wrapped lines are not cut off ([text_ok]), every motion
    ends, does not panic, stays inside the grid and leaves the cursor displayed.  The examples at
    the end show that each condition is needed: the handlers can cut a wide character or the last
    line of the screen, and the cursor then leaves the grid. *)
From S2P Require Import Prelude Index Cells Rows Storages Grids Resizes TermData Selections Terms.
From S2P Require Import Handlers TermSafety HandlerSafety TermProps Searches SearchProps RegexProps.
From S2P Require Import ViModes.
#[local] Open Scope Z_scope.

(** * Searching lists with tests that may panic *)

Section Finding.
Context {A : Type} (p : A → option bool) (f : A → bool).

Lemma findM_ok l :
  (∀ x, x ∈ l → p x = Some (f x)) →
  wp (findM p l) (λ r,
    match r with
    | Some x => x ∈ l ∧ f x = true
    | None => ∀ x, x ∈ l → f x = false
    end).
Proof using Type.
  induction l as [|x l IH]; intros Hp; simpl; [by intros y ?%elem_of_nil|].
  rewrite (Hp x) by by left. mrun. destruct (f x) eqn:E.
  - split; [by left|done].
  - wp_call IH; [intros y Hy; apply Hp; by right|]. intros [y|].
    + intros [Hy Hf]. split; [by right|done].
    + intros Hno y [->|Hy]%elem_of_cons; [done|by apply Hno].
Qed.

Lemma skip_whileM_ok l :
  (∀ x, x ∈ l → p x = Some (f x)) → skip_whileM p l = Some (drop_while f l).
Proof using Type.
  induction l as [|x l IH]; intros Hp; simpl; [done|].
  rewrite (Hp x) by by left. mrun. destruct (f x); [|done].
  apply IH. intros y Hy. apply Hp. by right.
Qed.
End Finding.

Lemma elem_of_drop_while {A} (f : A → bool) l x : x ∈ drop_while f l → x ∈ l.
Proof.
  induction l as [|y l IH]; simpl; [done|]. destruct (f y); [|done]. intros H. right. by apply IH.
Qed.

Lemma findM_first {A} (p : A → option bool) (f : A → bool) l :
  (∀ x, x ∈ l → p x = Some (f x)) → findM p l = Some (head (drop_while (λ x, negb (f x)) l)).
Proof.
  induction l as [|x l IH]; intros Hp; simpl; [done|].
  rewrite (Hp x) by by left. mrun. destruct (f x); [done|].
  apply IH. intros y Hy. apply Hp. by right.
Qed.

(** Dropping from a range of lines, downwards and upwards. *)
Lemma drop_while_zrange (f : Z → bool) a b :
  ∃ k, a <= k ∧ drop_while f (zrange a b) = zrange k b ∧ (k <= b ∨ k = a) ∧
    (∀ j, a <= j < k → f j = true) ∧ (k < b → f k = false).
Proof.
  unfold zrange. remember (Z.to_nat (b - a)) as n eqn:En. revert a En.
  induction n as [|n IH]; intros a En.
  { exists a. rewrite !seqZ_nil by lia. split_and!; [lia|done|by right|lia|lia]. }
  rewrite (seqZ_cons a) by lia. simpl. destruct (f a) eqn:Ef.
  - destruct (IH (Z.succ a)) as (k & Hk & E & Hkb & Hj & Hf); [lia|].
    exists k. replace (Z.pred (b - a)) with (b - Z.succ a) by lia.
    split_and!; [lia|exact E|lia| |done].
    intros j Hj'. destruct (decide (j = a)) as [->|]; [done|]. apply Hj. lia.
  - exists a. rewrite (seqZ_cons a (b - a)) by lia. split_and!; [lia|done|by right|lia|done].
Qed.

Lemma drop_while_zrange_up (f : Z → bool) a b :
  ∃ k, k <= b ∧ drop_while f (reverse (zrange a b)) = reverse (zrange a k) ∧ (a <= k ∨ k = b) ∧
    (∀ j, k <= j < b → f j = true) ∧ (a < k → f (k - 1) = false).
Proof.
  unfold zrange. remember (Z.to_nat (b - a)) as n eqn:En. revert b En.
  induction n as [|n IH]; intros b En.
  { exists b. rewrite !seqZ_nil by lia. split_and!; [lia|done|by right|lia|lia]. }
  replace (b - a) with ((b - 1 - a) + 1) by lia. rewrite seqZ_app, reverse_app by lia.
  rewrite (seqZ_cons _ 1), (seqZ_nil (Z.succ _)) by lia. simpl.
  replace (a + (b - 1 - a)) with (b - 1) by lia. destruct (f (b - 1)) eqn:Ef.
  - destruct (IH (b - 1)) as (k & Hk & E & Hka & Hj & Hf); [lia|].
    exists k. split_and!; [lia|exact E|lia| |done].
    intros j Hj'. destruct (decide (j = b - 1)) as [->|]; [done|]. apply Hj. lia.
  - exists b. split_and!; [lia| |by right|lia|done].
    replace (b - a) with ((b - 1 - a) + 1) by lia. rewrite seqZ_app, reverse_app by lia.
    rewrite (seqZ_cons _ 1), (seqZ_nil (Z.succ _)) by lia.
    by replace (a + (b - 1 - a)) with (b - 1) by lia.
Qed.

(** * The buffer *)

Section Buffer.
Context `{External} (t : Term.t).
Context (Hg : grid_ok row_safe (Term.grid t)).
#[local] Abbreviation g := (Term.grid t).
Implicit Types (z l : Z) (p q : Point) (d : Direction).

(** No spacer without its character in the first column, and no wrapped line or spacer of a
    wrapped character at the end of the buffer. *)
Definition cell_text_ok z : bool :=
  flag_at g (λ x,
    (negb (Flags.contains (flags x) Flags.WIDE_CHAR_SPACER) || (0 <? column (unlin g z))%nat)
    && (negb (line (unlin g z) =? bottommost_line t)
        || negb (Flags.contains (flags x) Flags.WRAPLINE)
           && negb (Flags.contains (flags x) Flags.LEADING_WIDE_CHAR_SPACER))) z.
Definition text_ok : bool := forallb cell_text_ok (zrange (first_cell g) (last_cell g + 1)).

Definition space_at z : bool :=
  flag_at g (λ x, negb (Flags.intersects (flags x) Search.wide_spacer)
                  && ((c x =? 32)%N || (c x =? 9)%N)) z.
Definition wrap_at z : bool := flag_at g (λ x, Flags.contains (flags x) Flags.WRAPLINE) z.

(** The last cell in a direction. *)
Definition edge d : Z := match d with Right => last_cell g | Left => first_cell g end.
Definition rest d z : Z := match d with Right => last_cell g - z | Left => z - first_cell g end.
(** [z'] is not behind [z]. *)
Definition onward d z z' : Prop := match d with Right => z <= z' | Left => z' <= z end.

Lemma flag_cell (f : Cell → bool) z :
  in_range t z →
  (cell ← Grid.index_point (unlin g z) g; Some (f cell)) = Some (flag_at g f z).
Proof using Hg.
  intros Hz. destruct (cell_at_ok g Hg z Hz) as [x Hx].
  rewrite (flag_at_cell _ _ _ x Hx). unfold cell_at in Hx. by rewrite Hx.
Qed.

Lemma is_space_at z : in_range t z → Vi.is_space t (unlin g z) = Some (space_at z).
Proof using Hg. apply flag_cell. Qed.

Lemma is_wrap_at z : in_range t z → Vi.is_wrap t (unlin g z) = Some (wrap_at z).
Proof using Hg. apply flag_cell. Qed.

Lemma point_range p : in_grid g p → in_range t (lin g p) ∧ p = unlin g (lin g p).
Proof using Hg.
  intros Hp. apply (in_grid_lin g Hg) in Hp as [Hc Hz]. split; [done|]. symmetry.
  by apply (unlin_lin g Hg).
Qed.

Lemma range_point z : in_range t z → in_grid g (unlin g z).
Proof using Hg. apply (in_grid_unlin g Hg). Qed.

Lemma is_space_ok p : in_grid g p → Vi.is_space t p = Some (space_at (lin g p)).
Proof using Hg. intros [Hz ->]%point_range. rewrite lin_unlin by done. by apply is_space_at. Qed.

Lemma is_wrap_ok p : in_grid g p → Vi.is_wrap t p = Some (wrap_at (lin g p)).
Proof using Hg. intros [Hz ->]%point_range. rewrite lin_unlin by done. by apply is_wrap_at. Qed.

Lemma is_boundary_at d z : in_range t z → Vi.is_boundary t (unlin g z) d = (z =? edge d).
Proof using Hg.
  intros Hz. apply range_point in Hz as Hp. pose proof (search_dims t Hg) as Hd. dims Hd.
  assert (in_grid g (first_point g) ∧ in_grid g (last_point g)) as [Hf Hl].
  { unfold in_grid, first_point, last_point, last_column. cbn [line column].
    change (topmost_line g) with (topmost_line t). change (bottommost_line g) with (bottommost_line t).
    change (columns g) with (columns t). lia. }
  assert ((z =? edge d)
    = bool_decide (unlin g z = match d with Right => last_point g | Left => first_point g end)) as ->.
  { apply eq_true_iff_eq. rewrite Z.eqb_eq, bool_decide_eq_true. split; [intros ->|intros E].
    - unfold edge, first_cell, last_cell. destruct d; by rewrite unlin_lin by first [apply Hf|apply Hl|done].
    - rewrite <- (lin_unlin g Hg z), E. by destruct d. }
  destruct Hp as [Hpl Hpc]. destruct (unlin g z) as [l c]. cbn [line column] in *.
  change (topmost_line g) with (topmost_line t) in *.
  change (bottommost_line g) with (bottommost_line t) in *. change (columns g) with (columns t) in *.
  unfold Vi.is_boundary, last_point, first_point, last_column. cbn [line column].
  change (columns g) with (columns t). change (topmost_line g) with (topmost_line t).
  change (bottommost_line g) with (bottommost_line t).
  apply eq_true_iff_eq. rewrite bool_decide_eq_true. destruct d.
  - rewrite (bool_decide_true (Left = Left)), (bool_decide_false (Left = Right)) by done.
    rewrite andb_true_r, andb_false_r, orb_false_r, andb_true_iff, Z.leb_le, Nat.eqb_eq.
    split; [intros []; f_equal; lia|intros [=]; lia].
  - rewrite (bool_decide_false (Right = Left)), (bool_decide_true (Right = Right)) by done.
    rewrite andb_true_r, andb_false_r, orb_false_l, andb_true_iff, Z.eqb_eq, Nat.leb_le.
    split; [intros []; f_equal; lia|intros E].
    assert (l = bottommost_line t ∧ c = (columns t - 1)%nat) as [-> ->] by (by injection E). lia.
Qed.

Lemma advance_vi_at d z : in_range t z → Vi.advance t (unlin g z) d = Some (unlin g (push t d z)).
Proof using Hg.
  intros Hz. unfold Vi.advance, push, step_to, forward. destruct d; simpl.
  - rewrite (sub_grid t Hg) by done. do 2 f_equal. unfold in_range in *. case_decide; lia.
  - destruct (add_saturates t (search_dims t Hg) (unlin g z) 1 (range_point z Hz))
      as (q & -> & Hq & Hl); [by vm_compute|]. f_equal.
    apply (lin_inj t); [apply Hq|by apply (unlin_column g Hg)|].
    rewrite Hl. change (lin t) with (lin g). rewrite !(lin_unlin g Hg).
    change (lin g (last_point t)) with (last_cell g). unfold in_range in *. case_decide; lia.
Qed.

Lemma push_rest d z :
  in_range t z → z ≠ edge d → rest d (push t d z) = rest d z - 1 ∧ onward d z (push t d z).
Proof using Type.
  intros Hz Hne. unfold push, step_to, in_range, edge, rest, onward in *.
  destruct d; simpl; case_decide; lia.
Qed.

Lemma rest_nonneg d z : in_range t z → 0 <= rest d z.
Proof using Type. unfold in_range, rest. destruct d; lia. Qed.

(** ** Walks *)

(** The result of a walk over cells: a cell that is not behind. *)
Definition onward_point d z q : Prop := ∃ z', q = unlin g z' ∧ in_range t z' ∧ onward d z z'.

Lemma onward_trans d a b e : onward d a b → onward d b e → onward d a e.
Proof using Type. unfold onward. destruct d; lia. Qed.

Lemma skip_next_ok fuel invert d z :
  in_range t z → rest d z < Z.of_nat fuel →
  wp (Vi.skip_next fuel invert t d (unlin g z) (unlin g (push t d z))) (onward_point d z).
Proof using Hg.
  revert z. induction fuel as [|fuel IH]; intros z Hz Hf.
  { pose proof (rest_nonneg d z Hz). lia. }
  cbn [Vi.skip_next]. rewrite is_boundary_at by done. pose proof (push_range t d z Hz) as Hz1.
  assert (onward_point d z (unlin g z)) as Hstay
    by (exists z; unfold onward; destruct d; split_and!; done || lia).
  destruct (z =? edge d) eqn:E; bools; [exact Hstay|]. mrun.
  rewrite is_space_at by done. mrun. destruct (push_rest d z Hz E) as [Hr Hon].
  destruct (xorb _ _); [|exact Hstay]. rewrite advance_vi_at by done. mrun.
  wp_call (IH (push t d z)); [done|lia|]. intros q (z' & -> & Hz' & Hon'). exists z'.
  split; [done|]. split; [done|]. by eapply onward_trans.
Qed.

Lemma skip_here_ok fuel invert d z :
  in_range t z → rest d z < Z.of_nat fuel →
  wp (Vi.skip_here fuel invert t d (unlin g z)) (λ q, ∃ z', q = unlin g z' ∧ in_range t z' ∧
    onward d z z' ∧
    (∀ k, onward d z k → onward d k z' → k ≠ z' → xorb invert (space_at k) = true) ∧
    (z' = edge d ∨ xorb invert (space_at z') = false)).
Proof using Hg.
  revert z. induction fuel as [|fuel IH]; intros z Hz Hf.
  { pose proof (rest_nonneg d z Hz). lia. }
  cbn [Vi.skip_here]. rewrite is_boundary_at by done. pose proof (push_range t d z Hz) as Hz1.
  assert (∀ k, onward d z k → onward d k z → k ≠ z → xorb invert (space_at k) = true) as Hnone
    by (intros k; unfold onward; destruct d; lia).
  assert (onward d z z) as Hzz by (unfold onward; destruct d; lia).
  destruct (z =? edge d) eqn:E; bools.
  { mrun. exists z. split_and!; try done. by left. }
  mrun. rewrite is_space_at by done. mrun. destruct (push_rest d z Hz E) as [Hr Hon].
  destruct (xorb _ _) eqn:Ex; [|exists z; split_and!; try done; by right].
  rewrite advance_vi_at by done. mrun. wp_call (IH (push t d z)); [done|lia|].
  intros q (z' & -> & Hz' & Hon' & Hk & Hend). exists z'. split_and!; try done.
  { by eapply onward_trans. }
  intros k H1 H2 Hne. destruct (decide (k = z)) as [->|Hkz]; [done|]. apply Hk; [|done|done].
  unfold push, step_to, onward, rest in *. destruct d; simpl in *; case_decide; lia.
Qed.

Lemma rest_fuel d z : in_range t z → rest d z < Z.of_nat (Search.fuel t).
Proof using Hg.
  intros Hz. pose proof (num_cells_total t Hg) as Hn. unfold num_cells, in_range, rest, Search.fuel in *.
  destruct d; lia.
Qed.

Lemma lift_in_grid m :
  wp m (λ q, ∃ z', q = unlin g z' ∧ in_range t z') → wp m (in_grid g).
Proof using Hg. intros Hm. eapply wp_mono; [exact Hm|]. intros q (z & -> & Hz). by apply range_point. Qed.

Lemma onward_in_grid d z m : wp m (onward_point d z) → wp m (in_grid g).
Proof using Hg.
  intros Hm. apply lift_in_grid. wp_call Hm. intros q (z' & -> & Hz' & _). by exists z'.
Qed.

Lemma expand_semantic_ok d z : in_range t z → wp (Vi.expand_semantic t d (unlin g z)) (in_grid g).
Proof using Hg.
  intros Hz. unfold Vi.expand_semantic. destruct (cell_at_ok g Hg z Hz) as [x Hx].
  change (Grid.index_point (unlin g z) g) with (cell_at g z). rewrite Hx. mrun.
  destruct (_ && _); [by apply range_point|]. case_bool_decide.
  - wp_call (semantic_search_left_ok t Hg z Hz). by intros q [Hq _].
  - wp_call (semantic_search_right_ok t Hg z Hz). by intros q [Hq _].
Qed.

(** A step of a motion that is only taken under a condition. *)
Lemma wp_when (b : bool) (m : option Point) z :
  in_range t z → wp m (in_grid g) →
  wp (if b then m else Some (unlin g z)) (λ q, ∃ z', q = unlin g z' ∧ in_range t z').
Proof using Hg.
  intros Hz Hm. destruct b; [|by exists z]. wp_call Hm. intros q [Hq ->]%point_range. eauto.
Qed.

(** ** Lines *)

Definition line_in l : Prop := topmost_line t <= l <= bottommost_line t.

Lemma in_grid_line p : in_grid g p ↔ line_in (line p) ∧ (column p < columns t)%nat.
Proof using Type. done. Qed.

Lemma grid_line p : in_grid g p → line_in (line p) ∧ (column p < columns t)%nat.
Proof using Type. done. Qed.

Lemma occupied_points l p : line_in l → p ∈ (Pt l <$> seq 0 (columns t)) → in_grid g p ∧ line p = l.
Proof using Type.
  intros Hl (k & -> & Hk%elem_of_seq)%list_elem_of_fmap. split; [|done]. split; [exact Hl|].
  change (columns g) with (columns t). cbn [column]. lia.
Qed.

Definition occupied_in l (o : option Point) : Prop :=
  match o with Some q => in_grid g q ∧ line q = l | None => True end.

Lemma find_occupied_ok l ps :
  line_in l → (∀ p, p ∈ ps → p ∈ (Pt l <$> seq 0 (columns t))) →
  wp (findM (Vi.is_occupied t) ps) (occupied_in l).
Proof using Hg.
  intros Hl Hps. eapply wp_mono;
    [apply (findM_ok (Vi.is_occupied t) (λ p, negb (space_at (lin g p))))|].
  - intros p Hp. destruct (occupied_points l p Hl (Hps p Hp)) as [Hin _].
    unfold Vi.is_occupied. by rewrite is_space_ok.
  - intros [q|]; [|done]. intros [Hq _]. by apply occupied_points, Hps.
Qed.

Lemma first_occupied_in_line_ok l :
  line_in l → wp (Vi.first_occupied_in_line t l) (occupied_in l).
Proof using Hg. intros Hl. by apply find_occupied_ok. Qed.

Lemma last_occupied_in_line_ok l :
  line_in l → wp (Vi.last_occupied_in_line t l) (occupied_in l).
Proof using Hg. intros Hl. apply find_occupied_ok; [done|]. intros p. by rewrite elem_of_reverse. Qed.

Lemma occupied_column_ok l : line_in l → (1 <= columns t)%nat → wp (Vi.occupied_column t l) (in_grid g).
Proof using Hg.
  intros Hl Hc. unfold Vi.occupied_column. wp_step. wp_call (first_occupied_in_line_ok l Hl).
  intros [q|] Hq; wp_step; (split; [exact Hl|]); change (columns g) with (columns t); cbn [column].
  - apply Hq.
  - cbn. change (Grid.columns g) with (columns t). lia.
Qed.

Lemma row_is_clear_ok l :
  line_in l → Vi.row_is_clear t l
    = Some (from_option Row.is_clear false (Grid.index l g)).
Proof using Hg.
  intros Hl. unfold Vi.row_is_clear.
  destruct (grid_row_is_Some (P:=row_safe) g l Hg Hl) as (r & _ & -> & _). done.
Qed.

Lemma paragraph_ok ls :
  (∀ l, l ∈ ls → line_in l) →
  wp (Vi.paragraph t ls) (λ o, ∀ l, o = Some l → line_in l).
Proof using Hg.
  intros Hls. unfold Vi.paragraph.
  rewrite (skip_whileM_ok _ (λ l, from_option Row.is_clear false (Grid.index l g)))
    by (intros l Hl; by apply row_is_clear_ok, Hls). mrun.
  eapply wp_mono; [apply (findM_ok _ (λ l, from_option Row.is_clear false (Grid.index l g)))|].
  - intros l Hl%elem_of_drop_while. by apply row_is_clear_ok, Hls.
  - intros [l|] Hf l'; [|done]. intros [= <-]. apply Hls. by eapply elem_of_drop_while, Hf.
Qed.

Lemma grid_below p : in_grid g p → line p < bottommost_line t →
  in_grid g (Pt (line p + 1) (column p)) ∧ line p + 1 <= I32_MAX.
Proof using Hg.
  rewrite !in_grid_line. unfold line_in. pose proof (search_dims t Hg) as Hd. dims Hd.
  cbn [line]. cbn [column]. lia.
Qed.

Lemma lines_left l : line_in l → bottommost_line t - l < Z.of_nat (S (total_lines t)).
Proof using Hg. unfold line_in. pose proof (search_dims t Hg) as Hd. dims Hd. lia. Qed.

(** ** Whole characters *)

Section TextOk.
Context (Htext : text_ok = true).

Lemma text_ok_cell z x :
  in_range t z → cell_at g z = Some x →
  (Flags.contains (flags x) Flags.WIDE_CHAR_SPACER = true → (0 < column (unlin g z))%nat) ∧
  (Flags.contains (flags x) Flags.WRAPLINE = true → line (unlin g z) < bottommost_line t) ∧
  (Flags.contains (flags x) Flags.LEADING_WIDE_CHAR_SPACER = true →
   line (unlin g z) < bottommost_line t).
Proof using Hg Htext.
  intros Hz Hx. apply range_point in Hz as Hp. destruct Hp as [Hl _].
  change (bottommost_line g) with (bottommost_line t) in Hl.
  assert (In z (zrange (first_cell g) (last_cell g + 1))) as Hin
    by (apply list_elem_of_In, elem_of_zrange; unfold in_range in Hz; lia).
  pose proof (proj1 (forallb_forall _ _) Htext z Hin) as Hc.
  unfold cell_text_ok in Hc. rewrite (flag_at_cell _ _ _ x Hx) in Hc.
  set (l := line (unlin g z)) in *. set (k := column (unlin g z)) in *. clearbody l k.
  apply andb_true_iff in Hc as [Hc1 Hc2]. apply orb_true_iff in Hc1, Hc2.
  rewrite andb_true_iff, !negb_true_iff in Hc2. rewrite negb_true_iff in Hc1.
  split_and!; intros Hf; rewrite Hf in *; [destruct Hc1; [done|bools; lia]|..];
    (destruct Hc2 as [Hc2|[]]; [bools; lia|done]).
Qed.

Lemma wrap_below z : in_range t z → wrap_at z = true → line (unlin g z) < bottommost_line t.
Proof using Hg Htext.
  intros Hz Hw. apply flag_at_true in Hw as (x & Hx & Hf). 
  destruct (text_ok_cell z x Hz Hx) as (_ & Hw & _). by apply Hw.
Qed.

Lemma expand_wide_ok d z :
  in_range t z → (2 <= columns t)%nat →
  wp (Term.expand_wide (unlin g z) d t) (λ q, ∃ z', q = unlin g z' ∧ in_range t z' ∧ onward d z z').
Proof using Hg Htext.
  intros Hz H2. unfold Term.expand_wide. destruct (cell_at_ok g Hg z Hz) as [x Hx].
  change (Grid.index_point (unlin g z) g) with (cell_at g z). rewrite Hx. mrun. cbv zeta.
  apply range_point in Hz as Hp. destruct Hp as [Hpl Hpc].
  pose proof (lin_unlin g Hg z) as El. pose proof (search_dims t Hg) as Hd. dims Hd.
  destruct (text_ok_cell z x Hz Hx) as (Hs & _ & Hlead).
  assert (∀ q, in_grid g q → onward d z (lin g q) →
    ∃ z', q = unlin g z' ∧ in_range t z' ∧ onward d z z') as Hpoint.
  { intros q [Hq ->]%point_range Hon. rewrite (lin_unlin g Hg) in Hon. by eexists. }
  change (topmost_line g) with (topmost_line t) in *. change (columns g) with (columns t) in *.
  change (bottommost_line g) with (bottommost_line t) in *.
  set (p := unlin g z) in *.
  assert (∀ q, line q <= bottommost_line t → topmost_line t <= line q → (column q < columns t)%nat →
    in_grid g q) as Hin by (intros; repeat split; assumption).
  assert (∃ z', p = unlin g z' ∧ in_range t z' ∧ onward d z z') as Hstay
    by (exists z; unfold onward; destruct d; split_and!; [done|done|lia|done|done|lia]).
  unfold lin in El. change (columns g) with (columns t) in El. destruct d.
  - destruct (Flags.intersects _ _); [|exact Hstay].
    assert (∃ z', (if Flags.contains (flags x) Flags.WIDE_CHAR_SPACER
      then c ← usize_sub (column p) 1; Some (Pt (line p) c) else Some p) = Some (unlin g z') ∧
      in_range t z' ∧ z' <= z) as (z' & -> & Hz' & Hle).
    { destruct (Flags.contains (flags x) Flags.WIDE_CHAR_SPACER); [|by exists z].
      specialize (Hs eq_refl). rewrite usize_sub_ok by lia. mrun.
      destruct (Hpoint (Pt (line p) (column p - 1)%nat)) as (z' & -> & Hz' & Hon).
      - apply Hin; cbn [line column]; lia.
      - unfold onward, lin. cbn [line column]. change (columns g) with (columns t). nia.
      - by exists z'. }
    mrun. rewrite (sub_grid t Hg) by done. mrun.
    assert (in_range t (Z.max (first_cell g) (z' - 1))) as Hprev by (unfold in_range in *; lia).
    destruct (cell_at_ok g Hg _ Hprev) as [y Hy].
    change (Grid.index_point (unlin g ?z) g) with (cell_at g z). rewrite Hy. mrun.
    case_match; eexists; (split; [done|]); (split; [done|]); unfold onward, in_range in *; lia.
  - destruct (Flags.contains (flags x) Flags.LEADING_WIDE_CHAR_SPACER).
    { specialize (Hlead eq_refl). wp_step. wp_step. wp_step. apply Hpoint.
      - apply Hin; cbn [line column]; lia.
      - unfold onward, lin. cbn [line column]. change (columns g) with (columns t). nia. }
    destruct (Flags.contains (flags x) Flags.WIDE_CHAR); [|exact Hstay].
    wp_step. apply Hpoint.
    + apply Hin; cbn [line column]; unfold last_column; lia.
    + unfold onward, lin, last_column. cbn [line column]. change (columns g) with (columns t). nia.
Qed.

Context (H2 : (2 <= columns t)%nat).
Context (Hsmall : Z.of_nat (total_lines t * columns t) < I32_MAX).

(** [W], [B], [E] and [gE]. *)
Lemma word_ok d side z : in_range t z → wp (Vi.word t (unlin g z) d side) (in_grid g).
Proof using All.
  intros Hz. unfold Vi.word. wp_step. wp_call (expand_wide_ok d z Hz H2).
  intros q (z1 & -> & Hz1 & _). case_bool_decide.
  - rewrite advance_vi_at by done. mrun. wp_step.
    wp_call (skip_next_ok (Search.fuel t) false d z1 Hz1 (rest_fuel d z1 Hz1)).
    intros q (z2 & -> & Hz2 & _). rewrite advance_vi_at by done. mrun.
    eapply onward_in_grid. by apply skip_next_ok, rest_fuel.
  - wp_step. wp_call (skip_here_ok (Search.fuel t) true d z1 Hz1 (rest_fuel d z1 Hz1)).
    intros q (z2 & -> & Hz2 & _). apply lift_in_grid.
    wp_call (skip_here_ok (Search.fuel t) false d z2 Hz2 (rest_fuel d z2 Hz2)).
    intros q (z3 & -> & Hz3 & _). by exists z3.
Qed.

Lemma semantic_ok d side z : in_range t z → wp (Vi.semantic t (unlin g z) d side) (in_grid g).
Proof using All.
  intros Hz. unfold Vi.semantic. wp_step.
  wp_call (wp_when _ (Vi.expand_semantic t d (unlin g z)) z Hz); [by apply expand_semantic_ok|].
  intros q (z1 & -> & Hz1). wp_step. wp_call (expand_wide_ok d z1 Hz1 H2).
  intros q (z2 & -> & Hz2 & _). rewrite advance_vi_at by done. mrun. wp_step.
  wp_call (skip_next_ok (Search.fuel t) false d z2 Hz2 (rest_fuel d z2 Hz2)).
  intros q (z3 & -> & Hz3 & _). wp_step.
  eapply wp_mono; [apply (wp_when _ _ z3 Hz3)|].
  - rewrite advance_vi_at by done. mrun. pose proof (push_range t d z3 Hz3) as Hz4.
    case_bool_decide; [|by apply range_point].
    eapply onward_in_grid. by apply expand_wide_ok.
  - intros q (z5 & -> & Hz5). apply lift_in_grid. apply wp_when; [done|].
    by apply expand_semantic_ok.
Qed.

(** ** Wrapped lines *)

Lemma wrap_line_below p : in_grid g p → wrap_at (lin g p) = true → line p < bottommost_line t.
Proof using All.
  intros [Hz E]%point_range Hw. pose proof (wrap_below _ Hz Hw) as Hb. by rewrite <- E in Hb.
Qed.

Lemma last_wrapped_ok fuel p :
  in_grid g p → bottommost_line t - line p < Z.of_nat fuel →
  wp (Vi.last_wrapped fuel t p) (in_grid g).
Proof using All.
  revert p. induction fuel as [|fuel IH]; intros p Hp Hf.
  { apply grid_line in Hp as [Hl _]. unfold line_in in Hl. lia. }
  cbn [Vi.last_wrapped]. rewrite is_wrap_ok by done. mrun.
  destruct (wrap_at _) eqn:Ew; [|exact Hp]. pose proof (wrap_line_below p Hp Ew) as Hb.
  destruct (grid_below p Hp Hb) as [Hp' Hmax]. pose proof (search_dims t Hg) as Hd. dims Hd.
  apply grid_line in Hp as [Hl _]. unfold line_in in Hl.
  wp_step. wp_step. apply IH; [done|]. cbn [line]. lia.
Qed.

Lemma last_ok z : in_range t z → wp (Vi.last t (unlin g z)) (in_grid g).
Proof using All.
  intros Hz. unfold Vi.last. wp_step. wp_call (expand_wide_ok Right z Hz H2).
  intros q (z1 & -> & Hz1 & _). apply range_point in Hz1. set (p := unlin g z1) in *. clearbody p.
  apply grid_line in Hz1 as Hp. destruct Hp as [Hl Hc]. wp_step.
  wp_call (last_occupied_in_line_ok (line p) Hl). intros o Ho. cbv zeta.
  destruct (_ <? _)%nat eqn:E.
  { destruct o as [q|]; [apply Ho|]. simpl in E. bools. lia. }
  rewrite is_wrap_ok by done. mrun. destruct (wrap_at _).
  - wp_step. wp_call (last_wrapped_ok (S (total_lines t)) p Hz1 (lines_left _ Hl)).
    intros q Hq. wp_step. apply grid_line in Hq as Hq'.
    wp_call (last_occupied_in_line_ok (line q) (proj1 Hq')). intros [q'|] Ho'; wp_step; [apply Ho'|done].
  - wp_step. apply in_grid_line. split; [done|]. unfold last_column. cbn [column]. lia.
Qed.

Lemma occupied_above_ok ls o :
  (∀ l, l ∈ ls → line_in l) → (∀ q, o = Some q → in_grid g q) →
  wp (Vi.occupied_above t ls o) (λ r, ∀ q, r = Some q → in_grid g q).
Proof using All.
  revert o. induction ls as [|l ls IH]; intros o Hls Ho; simpl; [done|].
  assert (line_in l) as Hl by (apply Hls; by left).
  rewrite is_wrap_ok by (apply in_grid_line; split; [done|unfold last_column; cbn [column]; lia]).
  mrun. destruct (negb _); [done|]. wp_step. wp_call (first_occupied_in_line_ok l Hl).
  intros o' Ho'. apply IH; [intros k Hk; apply Hls; by right|].
  intros q. destruct o' as [q'|]; [intros [= <-]; apply Ho'|apply Ho].
Qed.

Lemma occupied_below_ok fuel l :
  line_in l → bottommost_line t - l < Z.of_nat fuel →
  wp (Vi.occupied_below fuel t l) (in_grid g).
Proof using All.
  revert l. induction fuel as [|fuel IH]; intros l Hl Hf; [unfold line_in in Hl; lia|].
  cbn [Vi.occupied_below]. wp_step. wp_call (first_occupied_in_line_ok l Hl).
  intros [q|] Hq; [apply Hq|]. cbv zeta.
  assert (in_grid g (Pt l (last_column t))) as Hp
    by (apply in_grid_line; split; [done|unfold last_column; cbn [column]; lia]).
  rewrite is_wrap_ok by done. mrun. destruct (negb _) eqn:Ew; [exact Hp|]. bools.
  pose proof (wrap_line_below _ Hp Ew) as Hb. cbn [line] in Hb.
  pose proof (search_dims t Hg) as Hd. dims Hd. unfold line_in in Hl. wp_step. wp_step.
  apply IH; unfold line_in; lia.
Qed.

Lemma first_occupied_ok z : in_range t z → wp (Vi.first_occupied t (unlin g z)) (in_grid g).
Proof using All.
  intros Hz. unfold Vi.first_occupied. wp_step. wp_call (expand_wide_ok Left z Hz H2).
  intros q (z1 & -> & Hz1 & _). apply range_point in Hz1. set (p := unlin g z1) in *. clearbody p.
  apply grid_line in Hz1 as Hp. destruct Hp as [Hl Hc]. wp_step.
  wp_call (first_occupied_in_line_ok (line p) Hl). intros o Ho. cbv zeta.
  case_bool_decide as E.
  - wp_step. eapply wp_mono; [apply occupied_above_ok|].
    + intros l Hin. rewrite elem_of_reverse, elem_of_zrange in Hin. unfold line_in in *. lia.
    + done.
    + intros [q|] Hq; [by apply Hq|]. apply occupied_below_ok; [done|by apply lines_left].
  - wp_step. destruct o as [q|]; simpl; [apply Ho|]. apply in_grid_line.
    split; [done|unfold last_column; cbn [column]; lia].
Qed.

Lemma first_line_ok fuel p :
  in_grid g p → line p - topmost_line t < Z.of_nat fuel →
  wp (Vi.first_line fuel t p) (in_grid g).
Proof using All.
  revert p. induction fuel as [|fuel IH]; intros p Hp Hf.
  { apply grid_line in Hp as [Hl _]. unfold line_in in Hl. lia. }
  cbn [Vi.first_line]. destruct (_ && _) eqn:E; [|exact Hp]. bools.
  apply grid_line in Hp as Hp'. destruct Hp' as [Hl Hc]. unfold line_in in Hl.
  pose proof (search_dims t Hg) as Hd. dims Hd. wp_step. wp_step.
  rewrite is_wrap_ok by (apply in_grid_line; unfold line_in, last_column; cbn [line]; cbn [column]; lia).
  mrun. destruct (wrap_at _); [|exact Hp]. apply IH; [|cbn [line]; lia].
  apply in_grid_line. unfold line_in. cbn [line]. cbn [column]. lia.
Qed.

Context (Hoffset : (Grid.display_offset g <= history_size g)%nat).

Lemma bracket_motion_ok z :
  in_range t z →
  wp (Search.bracket_search (unlin g z) t) (λ o, in_grid g (from_option id (unlin g z) o)).
Proof using All.
  intros Hz. destruct (cell_at_ok g Hg z Hz) as [x Hx].
  destruct (bracket_search_ok t Hg z x Hsmall Hz Hx) as (r & -> & Hr). mrun.
  destruct (Search.find_pair _ _) as [[forward close]|]; [|subst r; by apply range_point].
  destruct r as [q|]; [|by apply range_point]. destruct Hr as (i & Hi & _).
  destruct (ahead_back g forward z i q Hz Hi) as [Hq _]. by apply range_point.
Qed.

(** Every motion ends in a cell of the grid. *)
Lemma target_ok m z :
  in_range t z → (m = Middle → (2 <= screen_lines t)%nat) → wp (Vi.target t m (unlin g z)) (in_grid g).
Proof using All.
  intros Hz Hmid. apply range_point in Hz as Hp. apply grid_line in Hp as Hpl.
  destruct Hpl as [Hl Hc]. pose proof (search_dims t Hg) as Hd. dims Hd.
  assert (as_i32 (Grid.display_offset g) = Z.of_nat (Grid.display_offset g) ∧
    - Z.of_nat (Grid.display_offset g) >= topmost_line t) as [EO HO].
  { pose proof (g_offset _ Hg). pose proof (g_small _ Hg). rewrite as_i32_small by lia.
    split; [done|]. unfold history_size in Hoffset.
    change (total_lines g) with (total_lines t) in Hoffset.
    change (screen_lines g) with (screen_lines t) in Hoffset. lia. }
  assert (∀ l k, line_in l → (k < columns t)%nat → in_grid g (Pt l k)) as Hin by (by intros).
  unfold Vi.target. cbv zeta. rewrite EO. set (p := unlin g z) in *.
  destruct m.
  11-14: by apply semantic_ok.
  11-14: by apply word_ok.
  - destruct (_ <? _) eqn:E; [|done]. bools. unfold line_in in Hl. wp_step. wp_step. wp_step.
    apply Hin; [unfold line_in; lia|done].
  - unfold line_in in Hl. wp_step. wp_step. destruct (_ <? _) eqn:E; [|done]. bools. wp_step.
    apply Hin; [unfold line_in; lia|done].
  - wp_step. wp_call (expand_wide_ok Left z Hz H2). intros q (z1 & -> & Hz1 & _).
    apply range_point, grid_line in Hz1 as [Hql Hqc]. set (q := unlin g z1) in *. clearbody q.
    unfold line_in in Hql. wp_step. wp_step. cbv zeta. destruct (_ && _) eqn:E.
    + bools. rewrite is_wrap_ok
        by (apply Hin; [unfold line_in; lia|unfold last_column; lia]). mrun.
      destruct (wrap_at _); apply Hin; unfold line_in, last_column; lia.
    + mrun. apply Hin; unfold line_in; lia.
  - wp_step. wp_call (expand_wide_ok Right z Hz H2). intros q (z1 & -> & Hz1 & _).
    rewrite is_wrap_at by done. mrun. pose proof (wrap_below z1 Hz1) as Hw.
    apply range_point, grid_line in Hz1 as [Hql Hqc]. set (q := unlin g z1) in *. clearbody q.
    unfold line_in in Hql. destruct (wrap_at z1).
    + specialize (Hw eq_refl). wp_step. wp_step. wp_step. apply Hin; unfold line_in; lia.
    + wp_step. apply Hin; unfold line_in, last_column; lia.
  - wp_step. wp_call (expand_wide_ok Left z Hz H2). intros q (z1 & -> & Hz1 & _).
    apply range_point in Hz1. wp_step. apply grid_line in Hz1 as Hq. destruct Hq as [Hql _].
    unfold line_in in Hql. wp_call (first_line_ok (S (total_lines t)) _ Hz1); [lia|].
    intros q [Hql' _]%grid_line. wp_step. apply Hin; [done|lia].
  - by apply last_ok.
  - by apply first_occupied_ok.
  - apply occupied_column_ok; [unfold line_in; lia|lia].
  - specialize (Hmid eq_refl). assert (1 <= as_i32 (screen_lines t) / 2 <= as_i32 (screen_lines t)).
    { split; [apply Z.div_le_lower_bound; lia|apply Z.div_le_upper_bound; lia]. }
    wp_step. wp_step. wp_step. wp_step. apply occupied_column_ok; [unfold line_in; lia|lia].
  - wp_step. wp_step. wp_step. wp_step. apply occupied_column_ok; [unfold line_in; lia|lia].
  - wp_step. wp_call (bracket_motion_ok z Hz). done.
  - wp_step. wp_call (paragraph_ok (reverse (zrange (topmost_line t) (line p)))).
    { intros l Hlr. rewrite elem_of_reverse, elem_of_zrange in Hlr. unfold line_in in *. lia. }
    intros [l|] Ho; wp_step; (apply Hin; [|lia]); simpl; [by apply Ho|unfold line_in; lia].
  - wp_step. wp_call (paragraph_ok (zrange (line p) (bottommost_line t))).
    { intros l Hlr. rewrite elem_of_zrange in Hlr. unfold line_in in *. lia. }
    intros [l|] Ho; wp_step; (apply Hin; [|lia]); simpl; [by apply Ho|unfold line_in; lia].
Qed.
End TextOk.
End Buffer.

(** * Motions of the terminal *)

Section Motions.
Context `{External}.
Context (L C : nat).
Implicit Types (t : Term.t) (p : Point) (m : ViMotion).

(** The displayed lines. *)
Definition displayed t p : Prop :=
  - Z.of_nat (Grid.display_offset (Term.grid t)) <= line p
  < Z.of_nat (screen_lines t) - Z.of_nat (Grid.display_offset (Term.grid t)).

(** Where motions are safe. *)
Record vi_ready t : Prop := {
  v_text : text_ok t = true;
  v_offset : (Grid.display_offset (Term.grid t) <= history_size t)%nat;
  v_point : in_grid (Term.grid t) (Term.vi_mode_cursor t);
  v_small : Z.of_nat (total_lines t * columns t) < I32_MAX;
}.

(** A scrolled display has the same cells. *)
Definition rescrolled t t' : Prop :=
  Term.grid t' = Grid.set_display_offset (Grid.display_offset (Term.grid t')) (Term.grid t) ∧
  (Grid.display_offset (Term.grid t') <= history_size t)%nat.

Lemma text_ok_rescrolled t t' : rescrolled t t' → text_ok t' = text_ok t.
Proof.
  intros [E _]. unfold text_ok, cell_text_ok. change (bottommost_line t') with (bottommost_line (Term.grid t')).
  change (bottommost_line t) with (bottommost_line (Term.grid t)). rewrite E. done.
Qed.

Lemma rescrolled_size t t' :
  rescrolled t t' → history_size t' = history_size t ∧ total_lines t' = total_lines t ∧
  columns t' = columns t ∧ (∀ p, in_grid (Term.grid t) p → in_grid (Term.grid t') p).
Proof.
  intros [E _]. change (history_size t') with (history_size (Term.grid t')).
  change (total_lines t') with (total_lines (Term.grid t')).
  change (columns t') with (columns (Term.grid t')). by rewrite E.
Qed.

Lemma scroll_display_rescrolled t b (delta : Z) :
  term_ok L C b t → -1000000000 <= delta <= 1000000000 →
  wp (Term.scroll_display (ScrollDelta delta) t) (λ t', rescrolled t t' ∧
    Grid.display_offset (Term.grid t')
      = Z.to_nat (Z.max 0 (Z.min (Z.of_nat (Grid.display_offset (Term.grid t)) + delta)
                             (Z.of_nat (history_size t))))).
Proof.
  intros Ht Hd. destruct (t_grid _ _ _ _ Ht) as [Hg _ _]. unfold Term.scroll_display, Term.upd_grid.
  cbv zeta. wp_step. wp_step.
  wp_call (scroll_display_ok (P:=row_safe) (Term.grid t) (ScrollDelta delta) Hg Hd).
  intros g (Eg & Eo & Hg'). wp_step.
  pose proof (g_offset _ Hg'). pose proof (g_small _ Hg'). dims (grid_dims _ Hg').
  assert (as_i32 (Grid.display_offset g) = Z.of_nat (Grid.display_offset g)) as EO
    by (apply as_i32_small; lia).
  assert (rescrolled t (Term.set_grid g t)) as Hr.
  { split; [exact Eg|]. change (Term.grid (Term.set_grid g t)) with g.
    change (history_size t) with (history_size (Term.grid t)). lia. }
  change (Grid.display_offset (Term.grid (Term.send_event MouseCursorDirty (Term.set_grid g t))))
    with (Grid.display_offset g). rewrite EO.
  change (bottommost_line (Term.send_event MouseCursorDirty (Term.set_grid g t)))
    with (bottommost_line g).
  change (screen_lines g) with (Grid.lines g) in *. wp_step. wp_step. wp_step.
  match goal with |- rescrolled t (if _ then ?x else _) ∧ _ => assert (Term.grid x = g) as Ex end.
  { unfold Term.vi_mode_recompute_selection. repeat case_match; done. }
  assert (∀ t', Term.grid t' = g → rescrolled t t' ∧ Grid.display_offset (Term.grid t')
    = Z.to_nat (Z.max 0 (Z.min (Z.of_nat (Grid.display_offset (Term.grid t)) + delta)
                           (Z.of_nat (history_size t))))) as Hall.
  { intros t' E. unfold rescrolled. rewrite E. split; [exact Hr|exact Eo]. }
  destruct (_ =? _)%nat; by apply Hall.
Qed.

Lemma scroll_to_point_ok t b p :
  term_ok L C b t → (Grid.display_offset (Term.grid t) <= history_size t)%nat →
  in_grid (Term.grid t) p →
  wp (Term.scroll_to_point p t) (λ t', term_ok L C b t' ∧ rescrolled t t' ∧ displayed t' p).
Proof.
  intros Ht Hoff Hp. apply grid_line in Hp as [Hl Hc]. unfold line_in in Hl.
  destruct (t_grid _ _ _ _ Ht) as [Hg El Ec]. dims (search_dims t Hg).
  pose proof (g_offset _ Hg). pose proof (g_small _ Hg).
  assert (as_i32 (Grid.display_offset (Term.grid t)) = Z.of_nat (Grid.display_offset (Term.grid t)))
    as EO by (apply as_i32_small; lia).
  assert (topmost_line t = - Z.of_nat (history_size t)) as Etop by (unfold history_size in *; lia).
  unfold Term.scroll_to_point. cbv zeta. rewrite EO.
  assert (∀ delta, -1000000000 <= delta <= 1000000000 →
    (∀ n, n = Z.to_nat (Z.max 0 (Z.min (Z.of_nat (Grid.display_offset (Term.grid t)) + delta)
                           (Z.of_nat (history_size t)))) →
     - Z.of_nat n <= line p < Z.of_nat (screen_lines t) - Z.of_nat n) →
    wp (Term.scroll_display (ScrollDelta delta) t)
      (λ t', term_ok L C b t' ∧ rescrolled t t' ∧ displayed t' p)) as Hscroll.
  { intros delta Hd Hn. eapply wp_mono; [apply wp_conj;
      [apply (scroll_display_stable (ScrollDelta delta) Hd b t Ht)
      |apply (scroll_display_rescrolled t b delta Ht Hd)]|].
    intros t' (Ht' & Hr & Eo). split; [done|]. split; [done|]. unfold displayed.
    assert (screen_lines t' = screen_lines t) as ->
      by (change (screen_lines t') with (Grid.lines (Term.grid t')); by rewrite (proj1 Hr)).
    by apply Hn. }
  destruct (_ <? _) eqn:E1; bools.
  - wp_step. wp_step. wp_step. wp_step. apply Hscroll; [lia|]. intros n ->. lia.
  - wp_step. wp_step. destruct (_ <=? _) eqn:E2; bools.
    + do 4 (wp_step; wp_step). apply Hscroll; [lia|]. intros n ->. lia.
    + wp_step. split; [done|]. split; [|unfold displayed; lia]. split; [|done].
      by destruct (Term.grid t).
Qed.

Lemma vi_motion_ok b t m :
  term_ok L C b t → vi_ready t → (m = Middle → (2 <= L)%nat) →
  wp (Vi.vi_motion m t) (λ t', term_ok L C b t' ∧ vi_ready t' ∧
    (Term.has_mode TermMode.VI t = true → displayed t' (Term.vi_mode_cursor t'))).
Proof.
  intros Ht [Htext Hoff Hp Hs] Hmid. unfold Vi.vi_motion.
  destruct (Term.has_mode TermMode.VI t); simpl negb; cbn match; [|by wp_step].
  pose proof (term_facts _ _ _ _ Ht) as (EL & EC & _ & _ & HC & _).
  destruct (t_grid _ _ _ _ Ht) as [Hg El Ec]. unfold Vi.motion. wp_step. wp_step.
  apply (point_range t Hg) in Hp as [Hz Ep]. rewrite Ep.
  wp_call (target_ok t Hg Htext); [lia|done|exact Hoff|done|by rewrite EL|].
  intros p Hp. wp_step. wp_call (scroll_to_point_ok t b p Ht Hoff Hp).
  intros t1 (Ht1 & Hr & Hd). wp_step. wp_step.
  assert (Term.grid (Term.vi_mode_recompute_selection (Term.set_vi_mode_cursor p t1))
          = Term.grid t1) as Eg by (unfold Term.vi_mode_recompute_selection; repeat case_match; done).
  assert (Term.vi_mode_cursor (Term.vi_mode_recompute_selection (Term.set_vi_mode_cursor p t1)) = p)
    as Ev by (unfold Term.vi_mode_recompute_selection; repeat case_match; done).
  set (t2 := Term.vi_mode_recompute_selection _) in *.
  assert (rescrolled t t2) as Hr2 by (unfold rescrolled; by rewrite Eg).
  apply grid_line in Hp as Hpl. destruct Hpl as [Hl Hc]. unfold line_in in Hl.
  destruct (rescrolled_size t t2 Hr2) as (Eh & Etot & Ecol & Ein).
  dims (search_dims t Hg). split_and!.
  - apply recompute_ok, set_vi_ok; [done|lia|lia].
  - split.
    + by rewrite (text_ok_rescrolled t t2).
    + rewrite Eh. apply Hr2.
    + rewrite Ev. by apply Ein.
    + by rewrite Etot, Ecol.
  - intros _. rewrite Ev. unfold displayed in *.
    change (screen_lines t2) with (Grid.lines (Term.grid t2)). by rewrite Eg.
Qed.
End Motions.

(** * Properties *)

Section ViProperties.
Context `{External}.
Implicit Types (t : Term.t) (p : Point) (m : ViMotion).

(** C6.  In a buffer that does not cut off a fullwidth character at the start of a line or a wrapped
    line at its end ([text_ok]), and with the display inside of the history, every motion of the vi
    mode cursor, the one to the middle on at least two lines, ends and does not panic.  It keeps the
    invariant of the terminal and these conditions, leaves the cursor in the grid, and in vi mode
    scrolls the display so that it shows the cursor.  Scrolling can cut a wrapped line off, and then
    the motion to the right leaves the grid ([motion_leaves_grid]); on one line the motion to the
    middle panics ([middle_of_one_line]). *)
Theorem vi_motion_safe L C b t m :
  term_ok L C b t → vi_ready t → (m = Middle → (2 <= L)%nat) →
  wp (Vi.vi_motion m t) (λ t', term_ok L C b t' ∧ vi_ready t' ∧
    (Term.has_mode TermMode.VI t = true → displayed t' (Term.vi_mode_cursor t'))).
Proof. apply vi_motion_ok. Qed.

(** The motions to the next word and to the end of the previous one: over the rest of the word
    under the cursor, and then over the spaces after it, up to the edge of the buffer. *)
Theorem vi_word_correct t p d :
  grid_ok row_safe (Term.grid t) → text_ok t = true → (2 <= columns t)%nat →
  in_grid (Term.grid t) p →
  let g := Term.grid t in
  let m := match d with Right => WordRight | Left => WordLeftEnd end in
  ∃ start word space, Term.expand_wide p d t = Some (unlin g start) ∧
    Vi.target t m p = Some (unlin g space) ∧
    onward d start word ∧ onward d word space ∧
    (∀ k, onward d start k → onward d k word → k ≠ word → space_at t k = false) ∧
    (word = edge t d ∨ space_at t word = true) ∧
    (∀ k, onward d word k → onward d k space → k ≠ space → space_at t k = true) ∧
    (space = edge t d ∨ space_at t space = false).
Proof.
  intros Hg Htext H2 Hp g m. subst g m. apply (point_range t Hg) in Hp as [Hz Ep].
  rewrite Ep. pose proof (expand_wide_ok t Hg Htext d _ Hz H2) as (q & E & z1 & -> & Hz1 & _)%wp_some.
  pose proof (skip_here_ok t Hg (Search.fuel t) true d z1 Hz1 (rest_fuel t Hg d z1 Hz1))
    as (q & E2 & z2 & -> & Hz2 & Ho2 & Hk2 & He2)%wp_some.
  pose proof (skip_here_ok t Hg (Search.fuel t) false d z2 Hz2 (rest_fuel t Hg d z2 Hz2))
    as (q & E3 & z3 & -> & Hz3 & Ho3 & Hk3 & He3)%wp_some.
  exists z1, z2, z3. split; [exact E|]. split.
  { unfold Vi.target, Vi.word. destruct d; rewrite E; mrun;
      rewrite bool_decide_false by done; by rewrite E2. }
  split; [done|]. split; [done|]. simpl in Hk2, He2, Hk3, He3. split_and!.
  - intros k H1 H3 H4. by apply negb_true_iff, Hk2.
  - destruct He2 as [|He2]; [by left|right]. by apply negb_false_iff.
  - done.
  - done.
Qed.

(** Whether a line is empty. *)
Definition clear_at t (l : Z) : bool := from_option Row.is_clear false (Grid.index l (Term.grid t)).

(** The motion below a paragraph: over empty lines, then over the paragraph to the empty line
    after it or to the last line. The motion above is its mirror image. *)
Theorem vi_paragraph_correct t p :
  grid_ok row_safe (Term.grid t) → in_grid (Term.grid t) p →
  (∃ k l, Vi.target t ParagraphDown p = Some (Pt l 0%nat) ∧ line p <= k <= l ∧
    l <= bottommost_line t ∧
    (∀ j, line p <= j < k → clear_at t j = true) ∧ (∀ j, k <= j < l → clear_at t j = false) ∧
    (l = bottommost_line t ∨ clear_at t l = true)) ∧
  (∃ k l, Vi.target t ParagraphUp p = Some (Pt l 0%nat) ∧ l < k + 1 ∧ k <= line p ∧
    topmost_line t <= l ∧
    (∀ j, k <= j < line p → clear_at t j = true) ∧ (∀ j, l < j < k → clear_at t j = false) ∧
    (l = topmost_line t ∨ clear_at t l = true)).
Proof.
  intros Hg [Hl Hc]%grid_line. unfold line_in in Hl.
  assert (∀ ls, (∀ l, l ∈ ls → line_in t l) → Vi.paragraph t ls
    = Some (head (drop_while (λ l, negb (clear_at t l)) (drop_while (clear_at t) ls)))) as Hpar.
  { intros ls Hls. unfold Vi.paragraph.
    rewrite (skip_whileM_ok _ (clear_at t)) by (intros l Hin; by apply row_is_clear_ok, Hls).
    mrun. apply findM_first. intros l Hin%elem_of_drop_while. by apply row_is_clear_ok, Hls. }
  split; unfold Vi.target; rewrite Hpar
    by (intros l; rewrite ?elem_of_reverse, elem_of_zrange; unfold line_in; lia); mrun.
  - destruct (drop_while_zrange (clear_at t) (line p) (bottommost_line t)) as (k & Hk & -> & Hkb & Hck & _).
    destruct (drop_while_zrange (λ l, negb (clear_at t l)) k (bottommost_line t))
      as (k' & Hk' & -> & Hkb' & Hck' & Hend).
    exists k, (Z.min k' (bottommost_line t)). unfold zrange.
    destruct (decide (k' < bottommost_line t)) as [Hlt|Hge].
    + rewrite seqZ_cons by lia. rewrite Z.min_l by lia. simpl.
      split_and!; [done|lia|lia|lia|done| |].
      * intros j Hj. by apply negb_true_iff, Hck'.
      * right. by apply negb_false_iff, Hend.
    + rewrite seqZ_nil by lia. rewrite Z.min_r by lia. simpl.
      split_and!; [done|lia|lia|lia|done| |by left].
      intros j Hj. apply negb_true_iff, Hck'. lia.
  - destruct (drop_while_zrange_up (clear_at t) (topmost_line t) (line p)) as (k & Hk & -> & Hkb & Hck & _).
    destruct (drop_while_zrange_up (λ l, negb (clear_at t l)) (topmost_line t) k)
      as (k' & Hk' & -> & Hkb' & Hck' & Hend).
    exists k, (Z.max (k' - 1) (topmost_line t)). unfold zrange.
    destruct (decide (topmost_line t < k')) as [Hlt|Hge].
    + replace (k' - topmost_line t) with ((k' - 1 - topmost_line t) + 1) by lia.
      rewrite seqZ_app, reverse_app by lia. rewrite (seqZ_cons _ 1) by lia.
      rewrite (seqZ_nil (Z.succ _)) by lia. rewrite Z.max_l by lia. simpl.
      replace (topmost_line t + (k' - 1 - topmost_line t)) with (k' - 1) by lia.
      split_and!; [done|lia|lia|lia|done| |].
      * intros j Hj. apply negb_true_iff, Hck'. lia.
      * right. by apply negb_false_iff, Hend.
    + rewrite seqZ_nil by lia. rewrite Z.max_r by lia. simpl.
      split_and!; [done|lia|lia|lia|done| |by left].
      intros j Hj. apply negb_true_iff, Hck'. lia.
Qed.
End ViProperties.

(** * The properties at a concrete terminal *)

#[local] Existing Instance Sample.external.

(** The vi mode with its cursor on a point. *)
Definition enter_vi (p : Point) (t : Term.t) : Term.t :=
  default t (t ← Term.toggle_vi_mode t; Term.vi_goto_point p t).

Lemma enter_vi_ok L C b t p :
  term_ok L C b t → -268435455 <= line p <= 268435455 → (column p < C)%nat →
  term_ok L C b (enter_vi p t).
Proof.
  intros Ht Hl Hc. unfold enter_vi.
  pose proof (toggle_vi_mode_stable b t Ht) as (t1 & -> & Ht1)%wp_some. mrun.
  by pose proof (vi_goto_point_stable p Hl Hc b t1 Ht1) as (t2 & -> & Ht2)%wp_some.
Qed.

(** [ab c] and [d], with the cursor of the vi mode on the first character. *)
Definition vi_sample : Term.t :=
  enter_vi (Pt 0 0%nat)
    (TermSample.typed [Input 97; Input 98; Input 32; Input 99; Input 100]%N).

Lemma vi_sample_ok : ∃ b, term_ok 3 4 b vi_sample.
Proof.
  destruct (TermSample.typed_ok [Input 97; Input 98; Input 32; Input 99; Input 100]%N) as [b Hb];
    [by repeat constructor|simpl; lia|]. exists b. apply enter_vi_ok; [exact Hb|simpl; lia|simpl; lia].
Qed.

Lemma vi_sample_ready : vi_ready vi_sample.
Proof.
  split; [by vm_compute|apply Nat.leb_le; by vm_compute|split; [by vm_compute|]|by vm_compute].
  apply Nat.ltb_lt. by vm_compute.
Qed.

Lemma vi_motion_safe_witness :
  ∃ b, wp (Vi.vi_motion WordRight vi_sample) (λ t', term_ok 3 4 b t' ∧ vi_ready t' ∧
    (Term.has_mode TermMode.VI vi_sample = true → displayed t' (Term.vi_mode_cursor t'))).
Proof.
  destruct vi_sample_ok as [b Hb]. exists b.
  apply (vi_motion_safe 3 4 b vi_sample WordRight Hb vi_sample_ready). discriminate.
Defined.

Lemma vi_sample_grid : grid_ok row_safe (Term.grid vi_sample).
Proof. destruct vi_sample_ok as [b Hb]. apply Hb. Qed.

Lemma vi_word_correct_witness :
  let g := Term.grid vi_sample in
  let m := match Right with Right => WordRight | Left => WordLeftEnd end in
  ∃ start word space, Term.expand_wide (Pt 0 0%nat) Right vi_sample = Some (unlin g start) ∧
    Vi.target vi_sample m (Pt 0 0%nat) = Some (unlin g space) ∧
    onward Right start word ∧ onward Right word space ∧
    (∀ k, onward Right start k → onward Right k word → k ≠ word → space_at vi_sample k = false) ∧
    (word = edge vi_sample Right ∨ space_at vi_sample word = true) ∧
    (∀ k, onward Right word k → onward Right k space → k ≠ space → space_at vi_sample k = true) ∧
    (space = edge vi_sample Right ∨ space_at vi_sample space = false).
Proof.
  apply (vi_word_correct vi_sample (Pt 0 0%nat) Right);
    [apply vi_sample_grid|apply vi_sample_ready|apply Nat.leb_le; by vm_compute|].
  split; [by vm_compute|]. apply Nat.ltb_lt. by vm_compute.
Defined.

Lemma vi_paragraph_correct_witness :
  ∃ k l, Vi.target vi_sample ParagraphDown (Pt 0 0%nat) = Some (Pt l 0%nat) ∧ 0 <= k <= l ∧
    l <= bottommost_line vi_sample ∧
    (∀ j, 0 <= j < k → clear_at vi_sample j = true) ∧
    (∀ j, k <= j < l → clear_at vi_sample j = false) ∧
    (l = bottommost_line vi_sample ∨ clear_at vi_sample l = true).
Proof.
  apply (vi_paragraph_correct vi_sample (Pt 0 0%nat)); [apply vi_sample_grid|].
  split; [by vm_compute|]. apply Nat.ltb_lt. by vm_compute.
Defined.

(** The word motion from the first character. *)
Example word_right_sample :
  Vi.target vi_sample WordRight (Pt 0 0%nat) = Some (Pt 0 3%nat) ∧
  Vi.target vi_sample WordRight (Pt 0 3%nat) = Some (Pt 2 3%nat).
Proof. by vm_compute. Qed.

(** ** Outside of the grid *)

(** A line that wrapped, moved to the end of the screen, takes the cursor below the screen. *)
Definition wrapped_last : option Term.t :=
  t ← Term.toggle_vi_mode
    (TermSample.typed [Input 97; Input 98; Input 99; Input 100; Input 101; ScrollDown 2]%N);
  Term.vi_goto_point (Pt 2 3%nat) t.
Example motion_leaves_grid :
  (t ← wrapped_last; Some (Term.vi_mode_cursor t)) = Some (Pt 2 3%nat) ∧
  (t ← wrapped_last; t ← Vi.vi_motion MoveRight t; Some (Term.vi_mode_cursor t))
    = Some (Pt 3 0%nat) ∧
  (t ← wrapped_last; t ← Vi.vi_motion MoveRight t; RenderableCursor.new t) = None.
Proof. by vm_compute. Qed.

(** On a screen of one line without history the middle is the line above the screen. *)
Example middle_of_one_line :
  (t ← Term.new TermSample.config 1 4; t ← Term.toggle_vi_mode t; Some (Term.vi_mode_cursor t))
    = Some (Pt 0 0%nat) ∧
  (t ← Term.new TermSample.config 1 4; t ← Term.toggle_vi_mode t; Vi.vi_motion Middle t) = None.
Proof. by vm_compute. Qed.
