(* ===== verification/Keys.v ===== *)
(** The types of [winit] and [toml] the configuration of bindings and the keyboard input use.

    Of the enumerations of [winit] the constructors named in the repository are written out;
    the others are [Other].  What the crates compute is a parameter, [Winit]. *)
From S2P Require Import Prelude Index Cells TermData Searches.
#[local] Open Scope N_scope.

(** [char::to_lowercase] and [str::to_lowercase], by the tables of Unicode: on ASCII they map
    the capital letters, and a character has at least one lowercase character. *)
Definition ascii_lowercase (ch : char) : char :=
  if (65 <=? ch) && (ch <=? 90) then ch + 32 else ch.
Class Unicode := {
  char_to_lowercase : char → text;
  str_to_lowercase : text → text;
  char_to_lowercase_ascii : ∀ ch, ch < 128 → char_to_lowercase ch = [ascii_lowercase ch];
  char_to_lowercase_nonempty : ∀ ch, char_to_lowercase ch ≠ [];
  str_to_lowercase_ascii : ∀ t,
    Forall (λ ch, ch < 128) t → str_to_lowercase t = ascii_lowercase <$> t;
}.

(** [str::trim]. *)
Definition trim (t : text) : text := trim_end (drop_while is_whitespace t).

(** * Keys *)

Module NamedKey.
Inductive t :=
  | Enter | Tab | Space | Backspace | Escape | Copy | Paste
  | Insert | Delete | Home | End | PageUp | PageDown
  | ArrowLeft | ArrowRight | ArrowUp | ArrowDown
  | F1 | F2 | F3 | F4 | F5 | F6 | F7 | F8 | F9 | F10 | F11 | F12 | F13 | F14 | F15 | F16 | F17
  | F18 | F19 | F20 | F21 | F22 | F23 | F24 | F25 | F26 | F27 | F28 | F29 | F30 | F31 | F32
  | F33 | F34 | F35
  | ScrollLock | PrintScreen | Pause | ContextMenu | CapsLock | NumLock
  | MediaPlay | MediaPause | MediaPlayPause | MediaStop | MediaFastForward | MediaRewind
  | MediaTrackNext | MediaTrackPrevious | MediaRecord
  | AudioVolumeDown | AudioVolumeUp | AudioVolumeMute
  | Shift | Control | Alt | Super | Hyper | Meta
  | Other (n : N).
#[global] Instance t_eq_dec : EqDecision t.
Proof. unfold EqDecision, Decision. decide equality. apply N.eq_dec. Defined.
End NamedKey.

(** [winit::keyboard::Key]. *)
Inductive Key := Named (k : NamedKey.t) | Character (t : text) | OtherKey (n : N).
#[export] Instance Key_eq_dec : EqDecision Key.
Proof. solve_decision. Defined.

(** [winit::keyboard::KeyLocation]. *)
Module WinitKeyLocation.
Inductive t := Standard | Left | Right | Numpad.
#[global] Instance t_eq_dec : EqDecision t.
Proof. solve_decision. Defined.
End WinitKeyLocation.

Inductive ElementState := Pressed | Released.
#[export] Instance ElementState_eq_dec : EqDecision ElementState.
Proof. solve_decision. Defined.

Module MouseButton.
Inductive t := Left | Right | Middle | Back | Forward | Other (n : N).
#[global] Instance t_eq_dec : EqDecision t.
Proof. solve_decision. Defined.
End MouseButton.

(** [winit::keyboard::ModifiersState]: a set of four flags. *)
Record ModifiersState := mkMods {
  shift_key : bool; control_key : bool; alt_key : bool; super_key : bool }.
#[export] Instance ModifiersState_eq_dec : EqDecision ModifiersState.
Proof. solve_decision. Defined.

Module ModifiersState.
Definition empty : ModifiersState := mkMods false false false false.
Definition SHIFT : ModifiersState := mkMods true false false false.
Definition CONTROL : ModifiersState := mkMods false true false false.
Definition ALT : ModifiersState := mkMods false false true false.
Definition SUPER : ModifiersState := mkMods false false false true.
(** [self | m]. *)
Definition union (m n : ModifiersState) : ModifiersState :=
  mkMods (shift_key m || shift_key n) (control_key m || control_key n)
    (alt_key m || alt_key n) (super_key m || super_key n).
(** [self & !n]. *)
Definition difference (m n : ModifiersState) : ModifiersState :=
  mkMods (shift_key m && negb (shift_key n)) (control_key m && negb (control_key n))
    (alt_key m && negb (alt_key n)) (super_key m && negb (super_key n)).
Definition is_empty (m : ModifiersState) : bool := bool_decide (m = empty).
End ModifiersState.

(** * Values of a configuration file: [toml::Value] *)

Inductive TomlValue :=
  | VString (t : text)
  | VInteger (z : Z)
  | VBoolean (b : bool)
  | VArray (l : list TomlValue)
  | VTable (l : list (text * TomlValue))
  | VOther (n : N).

(** What [winit] computes: the physical keys, the text of a named key, and the names of keys
    [serde] accepts. *)
Class Winit := {
  PhysicalKey : Type;
  PhysicalKey_eq_dec :: EqDecision PhysicalKey;
  from_scancode : N → PhysicalKey;
  to_text : NamedKey.t → option text;
  NamedKey_deserialize : TomlValue → option NamedKey.t;
  Key_deserialize : TomlValue → option Key;
}.

(** [winit::event::KeyEvent], with the two values [KeyEventExtModifierSupplement] adds. *)
Record KeyEvent `{Winit} := mkKeyEvent {
  physical_key : PhysicalKey;
  logical_key : Key;
  key_location : WinitKeyLocation.t;
  key_state : ElementState;
  key_repeat : bool;
  text_with_all_modifiers : option text;
  key_without_modifiers : Key;
}.
Arguments mkKeyEvent {_} _ _ _ _ _ _ _.
Arguments physical_key {_} _.
Arguments logical_key {_} _.
Arguments key_location {_} _.
Arguments key_state {_} _.
Arguments key_repeat {_} _.
Arguments text_with_all_modifiers {_} _.
Arguments key_without_modifiers {_} _.

(** [cfg!(target_os)]: every other system behaves as Linux. *)
Inductive Platform := MacOS | Windows | Unix.
#[export] Instance Platform_eq_dec : EqDecision Platform.
Proof. solve_decision. Defined.

(** * Instances the examples are evaluated with *)

Definition ascii_unicode : Unicode.
Proof.
  refine {| char_to_lowercase ch := [ascii_lowercase ch];
            str_to_lowercase t := ascii_lowercase <$> t |}; done.
Defined.

Definition sample_winit : Winit := {|
  PhysicalKey := N;
  from_scancode n := n;
  to_text k := match k with
               | NamedKey.Enter => Some [13]
               | NamedKey.Tab => Some [9]
               | NamedKey.Space => Some [32]
               | NamedKey.Backspace => Some [8]
               | NamedKey.Escape => Some [27]
               | _ => None
               end;
  NamedKey_deserialize v := match v with
                            | VString [69; 115; 99; 97; 112; 101] => Some NamedKey.Escape
                            | _ => None
                            end;
  Key_deserialize _ := None;
|}.
