(* ===== verification/Bindings.v ===== *)
(** Key and mouse bindings ([cutty/src/config/bindings.rs], and the bindings and hints of
    [config/ui_config.rs]): actions, triggers and modes, when a binding is triggered, when two
    bindings conflict, and how the bindings of a configuration file are read.

    Reading is in the [result] monad; a value of the file is a [TomlValue]. *)
From S2P Require Import Prelude Index Cells TermData Searches ViModes Keys.
Import Stdlib.Strings.String.StringSyntax.
#[local] Open Scope N_scope.

(** Why a part of the configuration is refused. *)
Inductive Field := FKey | FMods | FMode | FAction | FChars | FMouse | FCommand.
#[export] Instance Field_eq_dec : EqDecision Field.
Proof. solve_decision. Defined.

Inductive ConfigError :=
  | InvalidType
  | InvalidValue (t : text)
  | InvalidInteger (z : Z)
  | DuplicateField (f : Field)
  | UnknownField (t : text)
  | ScancodeTooBig (z : Z)
  | UnknownKey
  | UnknownAction (t : text)
  | OnlyForMouseBindings
  | NotExactlyOneAction
  | MissingTrigger
  | ExpectedMouseBinding
  | ExpectedKeyBinding.

(** A loop over a list whose body may return an error. *)
Fixpoint foldE {E A St} (f : A → St → result E St) (l : list A) (s : St) : result E St :=
  match l with
  | [] => Ok s
  | a :: l => s ← f a s; foldE f l s
  end.

(** * Modes *)

(** [bitflags! BindingMode]: a set over [u8]. *)
Module BindingMode.
Definition empty : N := 0.
Definition APP_CURSOR : N := 1.
Definition APP_KEYPAD : N := 2.
Definition ALT_SCREEN : N := 4.
Definition VI : N := 8.
Definition SEARCH : N := 16.
Definition DISAMBIGUATE_ESC_CODES : N := 32.
Definition REPORT_ALL_KEYS_AS_ESC : N := 64.
Definition all : N := 127.

Definition new (mode : TermMode) (search : bool) : N :=
  let m := empty in
  let m := TermMode.set APP_CURSOR (TermMode.contains mode TermMode.APP_CURSOR) m in
  let m := TermMode.set APP_KEYPAD (TermMode.contains mode TermMode.APP_KEYPAD) m in
  let m := TermMode.set ALT_SCREEN (TermMode.contains mode TermMode.ALT_SCREEN) m in
  let m := TermMode.set VI (TermMode.contains mode TermMode.VI) m in
  let m := TermMode.set SEARCH search m in
  let m := TermMode.set DISAMBIGUATE_ESC_CODES
             (TermMode.contains mode TermMode.DISAMBIGUATE_ESC_CODES) m in
  TermMode.set REPORT_ALL_KEYS_AS_ESC
    (TermMode.contains mode TermMode.REPORT_ALL_KEYS_AS_ESC) m.
End BindingMode.

(** * Actions *)

Module ViAction.
Inductive t :=
  | ToggleNormalSelection | ToggleLineSelection | ToggleBlockSelection | ToggleSemanticSelection
  | SearchNext | SearchPrevious | SearchStart | SearchEnd | Open | CenterAroundViCursor
  | InlineSearchForward | InlineSearchBackward | InlineSearchForwardShort
  | InlineSearchBackwardShort | InlineSearchNext | InlineSearchPrevious | SemanticSearchForward
  | SemanticSearchBackward.
#[global] Instance t_eq_dec : EqDecision t.
Proof. solve_decision. Defined.
End ViAction.

Module SearchAction.
Inductive t :=
  | SearchFocusNext | SearchFocusPrevious | SearchConfirm | SearchCancel | SearchClear
  | SearchDeleteWord | SearchHistoryPrevious | SearchHistoryNext.
#[global] Instance t_eq_dec : EqDecision t.
Proof. solve_decision. Defined.
End SearchAction.

Module MouseAction.
Inductive t := ExpandSelection.
#[global] Instance t_eq_dec : EqDecision t.
Proof. solve_decision. Defined.
End MouseAction.

Inductive Program := Just (program : text) | WithArgs (program : text) (args : list text).
#[export] Instance Program_eq_dec : EqDecision Program.
Proof. solve_decision. Defined.

(** Hints: the regular expression is its pattern, it is compiled on demand; the binding of a hint
    is kept beside it ([HintBinding]). *)
Inductive HintInternalAction := HintCopy | HintPaste | HintSelect | HintMoveViModeCursor.
Inductive HintAction := HintActionInternal (a : HintInternalAction) | HintCommand (p : Program).
Record HintContent := mkHintContent { hint_regex : option text; hint_hyperlinks : bool }.
Record HintMouse := mkHintMouse { hint_mouse_enabled : bool; hint_mouse_mods : ModifiersState }.
Record Hint := mkHint {
  hint_content : HintContent; hint_action : HintAction;
  hint_post_processing : bool; hint_persist : bool; hint_mouse : option HintMouse }.
#[export] Instance HintInternalAction_eq_dec : EqDecision HintInternalAction.
Proof. solve_decision. Defined.
#[export] Instance HintAction_eq_dec : EqDecision HintAction.
Proof. solve_decision. Defined.
#[export] Instance HintContent_eq_dec : EqDecision HintContent.
Proof. solve_decision. Defined.
#[export] Instance HintMouse_eq_dec : EqDecision HintMouse.
Proof. solve_decision. Defined.
#[export] Instance Hint_eq_dec : EqDecision Hint.
Proof. solve_decision. Defined.

Module Action.
Inductive t :=
  | Esc (s : text) | Command (p : Program) | Hint (h : Bindings.Hint) | ViMotion (m : ViMotion)
  | Vi (a : ViAction.t) | Search (a : SearchAction.t) | Mouse (a : MouseAction.t)
  | Paste | Copy | CopySelection | PasteSelection | IncreaseFontSize | DecreaseFontSize
  | ResetFontSize | ScrollPageUp | ScrollPageDown | ScrollHalfPageUp | ScrollHalfPageDown
  | ScrollLineUp | ScrollLineDown | ScrollToTop | ScrollToBottom | ClearHistory | Hide
  | HideOtherApplications | Minimize | Quit | ClearLogNotice | SpawnNewInstance | SelectNextTab
  | SelectPreviousTab | SelectTab1 | SelectTab2 | SelectTab3 | SelectTab4 | SelectTab5
  | SelectTab6 | SelectTab7 | SelectTab8 | SelectTab9 | SelectLastTab | CreateNewWindow
  | CreateNewTab | ToggleFullscreen | ToggleMaximized | ToggleSimpleFullscreen | ClearSelection
  | ToggleViMode | ReceiveChar | SearchForward | SearchBackward | NoAction.
#[global] Instance t_eq_dec : EqDecision t.
Proof. unfold EqDecision, Decision. decide equality; match goal with |- {?a = ?b} + {_} => exact (decide (a = b)) end. Defined.
End Action.

(** * Triggers *)

Module MouseEvent.
Inductive t := Button (b : MouseButton.t) | WheelUp | WheelDown.
#[global] Instance t_eq_dec : EqDecision t.
Proof. solve_decision. Defined.
End MouseEvent.

(** The location of a key a binding asks for; [PartialEq] is not transitive. *)
Module KeyLocation.
Inductive t := Standard | Numpad | Any.
#[global] Instance t_eq_dec : EqDecision t.
Proof. solve_decision. Defined.
Definition eqb (a b : t) : bool :=
  match a, b with
  | _, Any | Any, _ | Standard, Standard | Numpad, Numpad => true
  | _, _ => false
  end.
Definition from_winit (l : WinitKeyLocation.t) : t :=
  match l with
  | WinitKeyLocation.Standard => Standard
  | WinitKeyLocation.Left => Any
  | WinitKeyLocation.Right => Any
  | WinitKeyLocation.Numpad => Numpad
  end.
End KeyLocation.

Module BindingKey.
Inductive t `{Winit} := Scancode (p : PhysicalKey) | Keycode (key : Key) (location : KeyLocation.t).
Arguments Scancode {_} p.
Arguments Keycode {_} key location.
Definition eqb `{Winit} (a b : t) : bool :=
  match a, b with
  | Scancode p, Scancode q => bool_decide (p = q)
  | Keycode k l, Keycode k' l' => bool_decide (k = k') && KeyLocation.eqb l l'
  | _, _ => false
  end.
End BindingKey.

(** * Bindings *)

(** [T: Eq], the comparison of triggers.  [located] inputs are those for which the comparison
    behaves as an equivalence: every trigger but a key that could be anywhere. *)
Class Trigger (T : Type) := {
  trigger_eqb : T → T → bool;
  located : T → bool;
  trigger_eqb_refl : ∀ a, trigger_eqb a a = true;
  trigger_eqb_sym : ∀ a b, trigger_eqb a b = trigger_eqb b a;
  trigger_eqb_join : ∀ a b,
    trigger_eqb a b = true → ∃ i, trigger_eqb a i = true ∧ trigger_eqb b i = true;
  trigger_eqb_located : ∀ a b i,
    located i = true → trigger_eqb a i = true → trigger_eqb b i = true → trigger_eqb a b = true;
}.

Record Binding (T : Type) := mkBinding {
  mods : ModifiersState;
  action : Action.t;
  mode : N;
  notmode : N;
  trigger : T;
}.
Arguments mkBinding {T} _ _ _ _ _.
Arguments mods {T} _.
Arguments action {T} _.
Arguments mode {T} _.
Arguments notmode {T} _.
Arguments trigger {T} _.

Module Binding.
Section ops.
Context `{Trigger T}.
Definition is_triggered_by (b : Binding T) (m : N) (ms : ModifiersState) (input : T) : bool :=
  trigger_eqb (trigger b) input && bool_decide (mods b = ms)
  && Flags.contains m (mode b) && negb (Flags.intersects m (notmode b)).

Definition triggers_match (self binding : Binding T) : bool :=
  if negb (trigger_eqb (trigger self) (trigger binding)) || negb (bool_decide (mods self = mods binding))
  then false
  else
    let selfmode := if mode self =? 0 then BindingMode.all else mode self in
    let bindingmode := if mode binding =? 0 then BindingMode.all else mode binding in
    if negb (Flags.intersects selfmode bindingmode) then false
    else if Flags.intersects (mode self) (notmode binding)
            || Flags.intersects (mode binding) (notmode self)
    then false
    else true.
End ops.
End Binding.

Abbreviation KeyBinding := (Binding BindingKey.t).
Abbreviation MouseBinding := (Binding MouseEvent.t).

(** [HintBinding] and its conversion to a binding, which is cached. *)
Record HintBinding `{Winit} := mkHintBinding {
  hint_key : BindingKey.t; hint_mods : ModifiersState; hint_mode : N; hint_not_mode : N }.
Arguments mkHintBinding {_} _ _ _ _.
Arguments hint_key {_} _.
Arguments hint_mods {_} _.
Arguments hint_mode {_} _.
Arguments hint_not_mode {_} _.
Definition hint_key_binding `{Winit} (b : HintBinding) (hint : Hint) : KeyBinding :=
  mkBinding (hint_mods b) (Action.Hint hint) (hint_mode b) (hint_not_mode b) (hint_key b).

(** * Reading a configuration file *)

Section Deserialize.
Context `{Unicode} `{Winit}.
Import BindingMode.

(** The visitor [derive(ConfigDeserialize)] generates for an enumeration: the lowercase of the
    name of a variant. *)
Definition de_enum {A} (variants : list (text * A)) (v : TomlValue) : option A :=
  match v with
  | VString s =>
      '(_, (_, a)) ← list_find (λ e : text * A, (ascii_lowercase <$> e.1) = str_to_lowercase s)
                       variants;
      Some a
  | _ => None
  end.

Definition Program_deserialize (v : TomlValue) : option Program :=
  match v with
  | VString s => Some (Just s)
  | VTable l =>
      if forallb (λ e, bool_decide (e.1 = str "program" ∨ e.1 = str "args")) l then
        program ← match list_find (λ e, e.1 = str "program") l with
                  | Some (_, (_, VString p)) => Some p
                  | _ => None
                  end;
        args ← match list_find (λ e, e.1 = str "args") l with
               | Some (_, (_, VArray vs)) =>
                   mapM (λ v, match v with VString s => Some s | _ => None end) vs
               | Some _ => None
               | None => Some []
               end;
        Some (WithArgs program args)
      else None
  | _ => None
  end.

(** [ModsWrapper]. *)
Definition mods_step (modifier : text) (res : ModifiersState) : result ConfigError ModifiersState :=
  let m := str_to_lowercase (trim modifier) in
  if decide (m = str "command" ∨ m = str "super") then
    Ok (ModifiersState.union res ModifiersState.SUPER)
  else if decide (m = str "shift") then Ok (ModifiersState.union res ModifiersState.SHIFT)
  else if decide (m = str "alt" ∨ m = str "option") then
    Ok (ModifiersState.union res ModifiersState.ALT)
  else if decide (m = str "control") then Ok (ModifiersState.union res ModifiersState.CONTROL)
  else if decide (m = str "none") then Ok res
  else Err (InvalidValue modifier).
Definition mods_deserialize (v : TomlValue) : result ConfigError ModifiersState :=
  match v with
  | VString value => foldE mods_step (split_on 124 value) ModifiersState.empty
  | _ => Err InvalidType
  end.

(** [ModeWrapper]: the modes and the excluded modes. *)
Definition mode_step (modifier : text) (res : N * N) : result ConfigError (N * N) :=
  let '(mode, not_mode) := res in
  let m := str_to_lowercase (trim modifier) in
  if decide (m = str "appcursor") then Ok (N.lor mode APP_CURSOR, not_mode)
  else if decide (m = str "~appcursor") then Ok (mode, N.lor not_mode APP_CURSOR)
  else if decide (m = str "appkeypad") then Ok (N.lor mode APP_KEYPAD, not_mode)
  else if decide (m = str "~appkeypad") then Ok (mode, N.lor not_mode APP_KEYPAD)
  else if decide (m = str "alt") then Ok (N.lor mode ALT_SCREEN, not_mode)
  else if decide (m = str "~alt") then Ok (mode, N.lor not_mode ALT_SCREEN)
  else if decide (m = str "vi") then Ok (N.lor mode VI, not_mode)
  else if decide (m = str "~vi") then Ok (mode, N.lor not_mode VI)
  else if decide (m = str "search") then Ok (N.lor mode SEARCH, not_mode)
  else if decide (m = str "~search") then Ok (mode, N.lor not_mode SEARCH)
  else Err (InvalidValue modifier).
Definition mode_deserialize (v : TomlValue) : result ConfigError (N * N) :=
  match v with
  | VString value => foldE mode_step (split_on 124 value) (empty, empty)
  | _ => Err InvalidType
  end.

(** [value as u16] for the number of a mouse button. *)
Definition mouse_deserialize (v : TomlValue) : result ConfigError MouseEvent.t :=
  match v with
  | VInteger z =>
      if ((0 <=? z) && (z <=? 65536))%Z
      then Ok (MouseEvent.Button (MouseButton.Other (Z.to_N z mod 65536)))
      else Err (InvalidInteger z)
  | VString value =>
      if decide (value = str "Left") then Ok (MouseEvent.Button MouseButton.Left)
      else if decide (value = str "Right") then Ok (MouseEvent.Button MouseButton.Right)
      else if decide (value = str "Middle") then Ok (MouseEvent.Button MouseButton.Middle)
      else if decide (value = str "Back") then Ok (MouseEvent.Button MouseButton.Back)
      else if decide (value = str "Forward") then Ok (MouseEvent.Button MouseButton.Forward)
      else if decide (value = str "WheelUp") then Ok MouseEvent.WheelUp
      else if decide (value = str "WheelDown") then Ok MouseEvent.WheelDown
      else Err (InvalidValue value)
  | _ => Err InvalidType
  end.

(** The variants of the enumerations that are read by name. *)
Definition ViAction_variants : list (text * ViAction.t) :=
  [(str "ToggleNormalSelection", ViAction.ToggleNormalSelection);
   (str "ToggleLineSelection", ViAction.ToggleLineSelection);
   (str "ToggleBlockSelection", ViAction.ToggleBlockSelection);
   (str "ToggleSemanticSelection", ViAction.ToggleSemanticSelection);
   (str "SearchNext", ViAction.SearchNext); (str "SearchPrevious", ViAction.SearchPrevious);
   (str "SearchStart", ViAction.SearchStart); (str "SearchEnd", ViAction.SearchEnd);
   (str "Open", ViAction.Open); (str "CenterAroundViCursor", ViAction.CenterAroundViCursor);
   (str "InlineSearchForward", ViAction.InlineSearchForward);
   (str "InlineSearchBackward", ViAction.InlineSearchBackward);
   (str "InlineSearchForwardShort", ViAction.InlineSearchForwardShort);
   (str "InlineSearchBackwardShort", ViAction.InlineSearchBackwardShort);
   (str "InlineSearchNext", ViAction.InlineSearchNext);
   (str "InlineSearchPrevious", ViAction.InlineSearchPrevious);
   (str "SemanticSearchForward", ViAction.SemanticSearchForward);
   (str "SemanticSearchBackward", ViAction.SemanticSearchBackward)].
Definition ViMotion_variants : list (text * ViMotion) :=
  [(str "Up", ViModes.Up); (str "Down", ViModes.Down); (str "Left", ViModes.MoveLeft);
   (str "Right", ViModes.MoveRight); (str "First", ViModes.First); (str "Last", ViModes.Last);
   (str "FirstOccupied", ViModes.FirstOccupied); (str "High", ViModes.High);
   (str "Middle", ViModes.Middle); (str "Low", ViModes.Low);
   (str "SemanticLeft", ViModes.SemanticLeft); (str "SemanticRight", ViModes.SemanticRight);
   (str "SemanticLeftEnd", ViModes.SemanticLeftEnd);
   (str "SemanticRightEnd", ViModes.SemanticRightEnd); (str "WordLeft", ViModes.WordLeft);
   (str "WordRight", ViModes.WordRight); (str "WordLeftEnd", ViModes.WordLeftEnd);
   (str "WordRightEnd", ViModes.WordRightEnd); (str "Bracket", ViModes.Bracket);
   (str "ParagraphUp", ViModes.ParagraphUp); (str "ParagraphDown", ViModes.ParagraphDown)].
Definition SearchAction_variants : list (text * SearchAction.t) :=
  [(str "SearchFocusNext", SearchAction.SearchFocusNext);
   (str "SearchFocusPrevious", SearchAction.SearchFocusPrevious);
   (str "SearchConfirm", SearchAction.SearchConfirm);
   (str "SearchCancel", SearchAction.SearchCancel);
   (str "SearchClear", SearchAction.SearchClear);
   (str "SearchDeleteWord", SearchAction.SearchDeleteWord);
   (str "SearchHistoryPrevious", SearchAction.SearchHistoryPrevious);
   (str "SearchHistoryNext", SearchAction.SearchHistoryNext)].
Definition MouseAction_variants : list (text * MouseAction.t) :=
  [(str "ExpandSelection", MouseAction.ExpandSelection)].
Definition Action_variants : list (text * Action.t) :=
  [(str "Paste", Action.Paste); (str "Copy", Action.Copy);
   (str "CopySelection", Action.CopySelection); (str "PasteSelection", Action.PasteSelection);
   (str "IncreaseFontSize", Action.IncreaseFontSize);
   (str "DecreaseFontSize", Action.DecreaseFontSize);
   (str "ResetFontSize", Action.ResetFontSize); (str "ScrollPageUp", Action.ScrollPageUp);
   (str "ScrollPageDown", Action.ScrollPageDown);
   (str "ScrollHalfPageUp", Action.ScrollHalfPageUp);
   (str "ScrollHalfPageDown", Action.ScrollHalfPageDown);
   (str "ScrollLineUp", Action.ScrollLineUp); (str "ScrollLineDown", Action.ScrollLineDown);
   (str "ScrollToTop", Action.ScrollToTop); (str "ScrollToBottom", Action.ScrollToBottom);
   (str "ClearHistory", Action.ClearHistory); (str "Hide", Action.Hide);
   (str "HideOtherApplications", Action.HideOtherApplications);
   (str "Minimize", Action.Minimize); (str "Quit", Action.Quit);
   (str "ClearLogNotice", Action.ClearLogNotice);
   (str "SpawnNewInstance", Action.SpawnNewInstance);
   (str "SelectNextTab", Action.SelectNextTab);
   (str "SelectPreviousTab", Action.SelectPreviousTab); (str "SelectTab1", Action.SelectTab1);
   (str "SelectTab2", Action.SelectTab2); (str "SelectTab3", Action.SelectTab3);
   (str "SelectTab4", Action.SelectTab4); (str "SelectTab5", Action.SelectTab5);
   (str "SelectTab6", Action.SelectTab6); (str "SelectTab7", Action.SelectTab7);
   (str "SelectTab8", Action.SelectTab8); (str "SelectTab9", Action.SelectTab9);
   (str "SelectLastTab", Action.SelectLastTab); (str "CreateNewWindow", Action.CreateNewWindow);
   (str "CreateNewTab", Action.CreateNewTab); (str "ToggleFullscreen", Action.ToggleFullscreen);
   (str "ToggleMaximized", Action.ToggleMaximized);
   (str "ToggleSimpleFullscreen", Action.ToggleSimpleFullscreen);
   (str "ClearSelection", Action.ClearSelection); (str "ToggleViMode", Action.ToggleViMode);
   (str "ReceiveChar", Action.ReceiveChar); (str "SearchForward", Action.SearchForward);
   (str "SearchBackward", Action.SearchBackward); (str "None", Action.NoAction)].

Definition action_deserialize (v : TomlValue) : result ConfigError Action.t :=
  match de_enum ViAction_variants v with
  | Some a => Ok (Action.Vi a)
  | None =>
  match de_enum ViMotion_variants v with
  | Some m => Ok (Action.ViMotion m)
  | None =>
  match de_enum SearchAction_variants v with
  | Some a => Ok (Action.Search a)
  | None =>
  match de_enum MouseAction_variants v with
  | Some a => Ok (Action.Mouse a)
  | None =>
  match de_enum Action_variants v with
  | Some a => Ok a
  | None => Err (match v with VString s => UnknownAction s | _ => InvalidType end)
  end end end end end.

(** Names of keys. *)
Definition key_names : list (text * (Key * KeyLocation.t)) :=
  [(str "Back", (Named NamedKey.Backspace, KeyLocation.Any));
   (str "Up", (Named NamedKey.ArrowUp, KeyLocation.Any));
   (str "Down", (Named NamedKey.ArrowDown, KeyLocation.Any));
   (str "Left", (Named NamedKey.ArrowLeft, KeyLocation.Any));
   (str "Right", (Named NamedKey.ArrowRight, KeyLocation.Any));
   (str "At", (Character (str "@"), KeyLocation.Any));
   (str "Colon", (Character (str ":"), KeyLocation.Any));
   (str "Period", (Character (str "."), KeyLocation.Any));
   (str "LBracket", (Character (str "["), KeyLocation.Any));
   (str "RBracket", (Character (str "]"), KeyLocation.Any));
   (str "Semicolon", (Character (str ";"), KeyLocation.Any));
   (str "Backslash", (Character (str "\"), KeyLocation.Any));
   (str "Enter", (Named NamedKey.Enter, KeyLocation.Standard));
   (str "Return", (Named NamedKey.Enter, KeyLocation.Standard));
   (str "Plus", (Character (str "+"), KeyLocation.Standard));
   (str "Comma", (Character (str ","), KeyLocation.Standard));
   (str "Slash", (Character (str "/"), KeyLocation.Standard));
   (str "Equals", (Character (str "="), KeyLocation.Standard));
   (str "Minus", (Character (str "-"), KeyLocation.Standard));
   (str "Asterisk", (Character (str "*"), KeyLocation.Standard));
   (str "Key1", (Character (str "1"), KeyLocation.Standard));
   (str "Key2", (Character (str "2"), KeyLocation.Standard));
   (str "Key3", (Character (str "3"), KeyLocation.Standard));
   (str "Key4", (Character (str "4"), KeyLocation.Standard));
   (str "Key5", (Character (str "5"), KeyLocation.Standard));
   (str "Key6", (Character (str "6"), KeyLocation.Standard));
   (str "Key7", (Character (str "7"), KeyLocation.Standard));
   (str "Key8", (Character (str "8"), KeyLocation.Standard));
   (str "Key9", (Character (str "9"), KeyLocation.Standard));
   (str "Key0", (Character (str "0"), KeyLocation.Standard));
   (str "NumpadEnter", (Named NamedKey.Enter, KeyLocation.Numpad));
   (str "NumpadAdd", (Character (str "+"), KeyLocation.Numpad));
   (str "NumpadComma", (Character (str ","), KeyLocation.Numpad));
   (str "NumpadDecimal", (Character (str "."), KeyLocation.Numpad));
   (str "NumpadDivide", (Character (str "/"), KeyLocation.Numpad));
   (str "NumpadEquals", (Character (str "="), KeyLocation.Numpad));
   (str "NumpadSubtract", (Character (str "-"), KeyLocation.Numpad));
   (str "NumpadMultiply", (Character (str "*"), KeyLocation.Numpad));
   (str "Numpad1", (Character (str "1"), KeyLocation.Numpad));
   (str "Numpad2", (Character (str "2"), KeyLocation.Numpad));
   (str "Numpad3", (Character (str "3"), KeyLocation.Numpad));
   (str "Numpad4", (Character (str "4"), KeyLocation.Numpad));
   (str "Numpad5", (Character (str "5"), KeyLocation.Numpad));
   (str "Numpad6", (Character (str "6"), KeyLocation.Numpad));
   (str "Numpad7", (Character (str "7"), KeyLocation.Numpad));
   (str "Numpad8", (Character (str "8"), KeyLocation.Numpad));
   (str "Numpad9", (Character (str "9"), KeyLocation.Numpad));
   (str "Numpad0", (Character (str "0"), KeyLocation.Numpad))].

(** [BindingKey::deserialize]. *)
Definition keycode_deserialize (keycode : text) : result ConfigError BindingKey.t :=
  '(key, location) ←
    (if length keycode =? 1 then Ok (Character (str_to_lowercase keycode), KeyLocation.Any)
     else
       match list_find (λ e, e.1 = keycode) key_names with
       | Some (_, (_, k)) => Ok k
       | None =>
           if bool_decide (str "Dead" `prefix_of` keycode)
           then key ← ok_or UnknownKey (Key_deserialize (VString keycode));
                Ok (key, KeyLocation.Any)
           else key ← ok_or UnknownKey (NamedKey_deserialize (VString keycode));
                Ok (Named key, KeyLocation.Any)
       end)%nat;
  Ok (BindingKey.Keycode key location).
Definition BindingKey_deserialize (v : TomlValue) : result ConfigError BindingKey.t :=
  match v with
  | VInteger z =>
      if ((0 <=? z) && (z <? 4294967296))%Z then Ok (BindingKey.Scancode (from_scancode (Z.to_N z)))
      else Err InvalidType
  | VString keycode => keycode_deserialize keycode
  | _ => Err InvalidType
  end.

(** The field [key] of a binding. *)
Definition key_deserialize (v : TomlValue) : result ConfigError BindingKey.t :=
  match v with
  | VInteger scancode =>
      if ((0 <=? scancode) && (scancode <? 4294967296))%Z
      then Ok (BindingKey.Scancode (from_scancode (Z.to_N scancode)))
      else Err (ScancodeTooBig scancode)
  | _ => BindingKey_deserialize v
  end.

(** [RawBinding]. *)
Record RawBinding := mkRawBinding {
  raw_key : option BindingKey.t;
  raw_mouse : option MouseEvent.t;
  raw_mods : ModifiersState;
  raw_mode : N;
  raw_notmode : N;
  raw_action : Action.t;
}.

Definition field_of (value : text) : result ConfigError Field :=
  let f := ascii_lowercase <$> value in
  if decide (f = str "key") then Ok FKey
  else if decide (f = str "mods") then Ok FMods
  else if decide (f = str "mode") then Ok FMode
  else if decide (f = str "action") then Ok FAction
  else if decide (f = str "chars") then Ok FChars
  else if decide (f = str "mouse") then Ok FMouse
  else if decide (f = str "command") then Ok FCommand
  else Err (UnknownField value).

(** The local variables of [visit_map], one slot for each field, and how the value of a field is
    read. *)
Definition slot_type (f : Field) : Type :=
  match f with
  | FKey => BindingKey.t
  | FMods => ModifiersState
  | FMode => N * N
  | FAction => Action.t
  | FChars => text
  | FMouse => MouseEvent.t
  | FCommand => Program
  end.
Definition Slots : Type := ∀ f, option (slot_type f).
Definition read (f : Field) : TomlValue → result ConfigError (slot_type f) :=
  match f with
  | FKey => key_deserialize
  | FMods => mods_deserialize
  | FMode => mode_deserialize
  | FAction => action_deserialize
  | FChars => λ v, match v with VString s => Ok s | _ => Err InvalidType end
  | FMouse => mouse_deserialize
  | FCommand => λ v, ok_or InvalidType (Program_deserialize v)
  end.
Definition store (f : Field) (x : slot_type f) (s : Slots) : Slots :=
  λ g, match decide (f = g) with
       | left E => Some (eq_rect f slot_type x g E)
       | right _ => s g
       end.

(** One turn of the loop of [visit_map]: a field may only be given once. *)
Definition visit_entry (e : text * TomlValue) (s : Slots) : result ConfigError Slots :=
  f ← field_of e.1;
  match s f with
  | Some _ => Err (DuplicateField f)
  | None => x ← read f e.2; Ok (store f x s)
  end.

(** The rest of [visit_map]. *)
Definition finish (s : Slots) : result ConfigError RawBinding :=
  let '(mode, not_mode) := default (BindingMode.empty, BindingMode.empty) (s FMode) in
  let mods := default ModifiersState.empty (s FMods) in
  action ← match s FAction, s FChars, s FCommand with
           | Some action, None, None =>
               match action with
               | Action.Mouse _ =>
                   match s FMouse with Some _ => Ok action | None => Err OnlyForMouseBindings end
               | _ => Ok action
               end
           | None, Some chars, None => Ok (Action.Esc chars)
           | None, None, Some cmd => Ok (Action.Command cmd)
           | _, _, _ => Err NotExactlyOneAction
           end;
  if bool_decide (s FMouse = None) && bool_decide (s FKey = None) then Err MissingTrigger
  else Ok (mkRawBinding (s FKey) (s FMouse) mods mode not_mode action).

Definition visit_map (l : list (text * TomlValue)) : result ConfigError RawBinding :=
  s ← foldE visit_entry l (λ _, None); finish s.

Definition RawBinding_deserialize (v : TomlValue) : result ConfigError RawBinding :=
  match v with VTable l => visit_map l | _ => Err InvalidType end.

Definition into_mouse_binding (r : RawBinding) : option MouseBinding :=
  mouse ← raw_mouse r; Some (mkBinding (raw_mods r) (raw_action r) (raw_mode r) (raw_notmode r) mouse).
Definition into_key_binding (r : RawBinding) : option KeyBinding :=
  key ← raw_key r; Some (mkBinding (raw_mods r) (raw_action r) (raw_mode r) (raw_notmode r) key).

Definition MouseBinding_deserialize (v : TomlValue) : result ConfigError MouseBinding :=
  raw ← RawBinding_deserialize v; ok_or ExpectedMouseBinding (into_mouse_binding raw).
Definition KeyBinding_deserialize (v : TomlValue) : result ConfigError KeyBinding :=
  raw ← RawBinding_deserialize v; ok_or ExpectedKeyBinding (into_key_binding raw).
End Deserialize.

(** [deserialize_bindings]: invalid bindings are skipped, the default ones that conflict with a
    binding of the file are removed. *)
Definition valid {E A} (r : result E A) : option A := match r with Ok a => Some a | Err _ => None end.
Definition deserialize_bindings `{Trigger T} (de : TomlValue → result ConfigError (Binding T))
    (v : TomlValue) (default : list (Binding T)) : result ConfigError (list (Binding T)) :=
  match v with
  | VArray values =>
      let bindings := omap (λ v, valid (de v)) values in
      let default :=
        foldl (λ default binding, filter (λ b, Binding.triggers_match b binding = false) default)
          default bindings in
      Ok (bindings ++ default)
  | _ => Err InvalidType
  end.

(** * The triggers of the mouse and of the keyboard *)

#[export] Instance MouseEvent_trigger : Trigger MouseEvent.t.
Proof.
  refine {| trigger_eqb a b := bool_decide (a = b); located _ := true |}; intros *;
    rewrite ?bool_decide_eq_true; try congruence.
  - by apply bool_decide_ext.
  - intros ->. exists b. by rewrite !bool_decide_eq_true.
Defined.

Lemma location_eqb_sym a b : KeyLocation.eqb a b = KeyLocation.eqb b a.
Proof. by destruct a, b. Qed.

#[export] Instance BindingKey_trigger `{Winit} : Trigger BindingKey.t.
Proof.
  refine {| trigger_eqb := BindingKey.eqb;
            located i := match i with BindingKey.Keycode _ KeyLocation.Any => false | _ => true end |};
    unfold BindingKey.eqb.
  - intros [p|k []]; simpl; by rewrite ?andb_true_iff, !bool_decide_eq_true.
  - intros [p|k l] [q|k' l']; try done.
    + by apply bool_decide_ext.
    + rewrite location_eqb_sym. f_equal. by apply bool_decide_ext.
  - intros [p|k l] [q|k' l']; try done.
    + rewrite bool_decide_eq_true. intros ->. exists (BindingKey.Scancode q).
      by rewrite bool_decide_eq_true.
    + rewrite andb_true_iff, bool_decide_eq_true. intros [-> E].
      exists (BindingKey.Keycode k' (if decide (l = KeyLocation.Any) then l' else l)).
      rewrite !andb_true_iff, !bool_decide_eq_true. by destruct l, l'.
  - intros [p|k l] [q|k' l'] [r|k'' l'']; try done; rewrite ?andb_true_iff, !bool_decide_eq_true.
    + congruence.
    + intros ? [-> ?] [-> ?]. by destruct l, l', l''.
Defined.
