(* ===== verification/DefaultBindings.v ===== *)
(** The default bindings ([cutty/src/config/bindings.rs]); the macro [bindings!] is [bind]. *)
From S2P Require Import Prelude Index Cells TermData Searches ViModes Keys Bindings.
Import Stdlib.Strings.String.StringSyntax.
#[local] Open Scope N_scope.

Section Defaults.
Context `{Winit}.
Import BindingMode ModifiersState KeyLocation.
#[local] Abbreviation empty := ModifiersState.empty.

(** The macros [bindings!] and [trigger!]. *)
Definition bind {T} (trigger : T) (mods : ModifiersState) (mode notmode : list N)
    (action : Action.t) : Binding T :=
  mkBinding mods action (foldl N.lor BindingMode.empty mode)
    (foldl N.lor BindingMode.empty notmode) trigger.
#[local] Abbreviation chr s l := (BindingKey.Keycode (Character (str s)) l).
#[local] Abbreviation named k l := (BindingKey.Keycode (Named k) l).
#[local] Abbreviation button b := (MouseEvent.Button b).
#[local] Abbreviation esc s := (Action.Esc s).
#[local] Abbreviation legacy :=
  [VI; SEARCH; REPORT_ALL_KEYS_AS_ESC; DISAMBIGUATE_ESC_CODES].

Definition default_mouse_bindings : list MouseBinding :=
  [bind (button MouseButton.Right) empty [] [] (Action.Mouse MouseAction.ExpandSelection);
   bind (button MouseButton.Right) CONTROL [] [] (Action.Mouse MouseAction.ExpandSelection);
   bind (button MouseButton.Middle) empty [] [VI] Action.PasteSelection].

(** The bindings of every platform. *)
Definition terminal_key_bindings : list KeyBinding :=
  [bind (named NamedKey.Copy Any) empty [] [] Action.Copy;
   bind (named NamedKey.Copy Any) empty [VI] [] Action.ClearSelection;
   bind (named NamedKey.Paste Any) empty [] [VI] Action.Paste;
   bind (named NamedKey.Paste Any) empty [VI; SEARCH] [] Action.Paste;
   bind (chr "l" Any) CONTROL [] [] Action.ClearLogNotice;
   bind (chr "l" Any) CONTROL [] [] Action.ReceiveChar;
   bind (named NamedKey.Home Any) SHIFT [] [ALT_SCREEN] Action.ScrollToTop;
   bind (named NamedKey.End Any) SHIFT [] [ALT_SCREEN] Action.ScrollToBottom;
   bind (named NamedKey.PageUp Any) SHIFT [] [ALT_SCREEN] Action.ScrollPageUp;
   bind (named NamedKey.PageDown Any) SHIFT [] [ALT_SCREEN] Action.ScrollPageDown;
   bind (named NamedKey.Home Any) empty [APP_CURSOR] [VI; SEARCH] (esc [27; 79; 72]);
   bind (named NamedKey.End Any) empty [APP_CURSOR] [VI; SEARCH] (esc [27; 79; 70]);
   bind (named NamedKey.ArrowUp Any) empty [APP_CURSOR] [VI; SEARCH] (esc [27; 79; 65]);
   bind (named NamedKey.ArrowDown Any) empty [APP_CURSOR] [VI; SEARCH] (esc [27; 79; 66]);
   bind (named NamedKey.ArrowRight Any) empty [APP_CURSOR] [VI; SEARCH] (esc [27; 79; 67]);
   bind (named NamedKey.ArrowLeft Any) empty [APP_CURSOR] [VI; SEARCH] (esc [27; 79; 68]);
   bind (named NamedKey.F1 Any) empty [] legacy (esc [27; 79; 80]);
   bind (named NamedKey.F2 Any) empty [] legacy (esc [27; 79; 81]);
   bind (named NamedKey.F3 Any) empty [] legacy (esc [27; 79; 82]);
   bind (named NamedKey.F4 Any) empty [] legacy (esc [27; 79; 83]);
   bind (named NamedKey.Tab Any) SHIFT [] legacy (esc [27; 91; 90]);
   bind (named NamedKey.Tab Any) (union SHIFT ALT) [] legacy (esc [27; 27; 91; 90]);
   bind (named NamedKey.Backspace Any) empty [] [VI; SEARCH; REPORT_ALL_KEYS_AS_ESC] (esc [127]);
   bind (named NamedKey.Backspace Any) ALT [] legacy (esc [27; 127]);
   bind (named NamedKey.Backspace Any) SHIFT [] legacy (esc [127]);
   bind (named NamedKey.Enter Numpad) empty [] legacy (esc [10]);
   bind (named NamedKey.Space Any) (union SHIFT CONTROL) [] [SEARCH] Action.ToggleViMode;
   bind (named NamedKey.Space Any) (union SHIFT CONTROL) [VI] [SEARCH] Action.ScrollToBottom;
   bind (named NamedKey.Escape Any) empty [VI] [SEARCH] Action.ClearSelection;
   bind (chr "i" Any) empty [VI] [SEARCH] Action.ToggleViMode;
   bind (chr "i" Any) empty [VI] [SEARCH] Action.ScrollToBottom;
   bind (chr "c" Any) CONTROL [VI] [SEARCH] Action.ToggleViMode;
   bind (chr "y" Any) CONTROL [VI] [SEARCH] Action.ScrollLineUp;
   bind (chr "e" Any) CONTROL [VI] [SEARCH] Action.ScrollLineDown;
   bind (chr "g" Any) empty [VI] [SEARCH] Action.ScrollToTop;
   bind (chr "g" Any) SHIFT [VI] [SEARCH] Action.ScrollToBottom;
   bind (chr "b" Any) CONTROL [VI] [SEARCH] Action.ScrollPageUp;
   bind (chr "f" Any) CONTROL [VI] [SEARCH] Action.ScrollPageDown;
   bind (chr "u" Any) CONTROL [VI] [SEARCH] Action.ScrollHalfPageUp;
   bind (chr "d" Any) CONTROL [VI] [SEARCH] Action.ScrollHalfPageDown;
   bind (chr "y" Any) empty [VI] [SEARCH] Action.Copy;
   bind (chr "y" Any) empty [VI] [SEARCH] Action.ClearSelection;
   bind (chr "/" Any) empty [VI] [SEARCH] Action.SearchForward;
   bind (chr "?" Any) SHIFT [VI] [SEARCH] Action.SearchBackward;
   bind (chr "y" Any) SHIFT [VI] [SEARCH] (Action.Vi ViAction.ToggleNormalSelection);
   bind (chr "y" Any) SHIFT [VI] [SEARCH] (Action.ViMotion ViModes.Last);
   bind (chr "y" Any) SHIFT [VI] [SEARCH] Action.Copy;
   bind (chr "y" Any) SHIFT [VI] [SEARCH] Action.ClearSelection;
   bind (chr "v" Any) empty [VI] [SEARCH] (Action.Vi ViAction.ToggleNormalSelection);
   bind (chr "v" Any) SHIFT [VI] [SEARCH] (Action.Vi ViAction.ToggleLineSelection);
   bind (chr "v" Any) CONTROL [VI] [SEARCH] (Action.Vi ViAction.ToggleBlockSelection);
   bind (chr "v" Any) ALT [VI] [SEARCH] (Action.Vi ViAction.ToggleSemanticSelection);
   bind (chr "n" Any) empty [VI] [SEARCH] (Action.Vi ViAction.SearchNext);
   bind (chr "n" Any) SHIFT [VI] [SEARCH] (Action.Vi ViAction.SearchPrevious);
   bind (named NamedKey.Enter Any) empty [VI] [SEARCH] (Action.Vi ViAction.Open);
   bind (chr "z" Any) empty [VI] [SEARCH] (Action.Vi ViAction.CenterAroundViCursor);
   bind (chr "f" Any) empty [VI] [SEARCH] (Action.Vi ViAction.InlineSearchForward);
   bind (chr "f" Any) SHIFT [VI] [SEARCH] (Action.Vi ViAction.InlineSearchBackward);
   bind (chr "t" Any) empty [VI] [SEARCH] (Action.Vi ViAction.InlineSearchForwardShort);
   bind (chr "t" Any) SHIFT [VI] [SEARCH] (Action.Vi ViAction.InlineSearchBackwardShort);
   bind (chr ";" Any) empty [VI] [SEARCH] (Action.Vi ViAction.InlineSearchNext);
   bind (chr "," Any) empty [VI] [SEARCH] (Action.Vi ViAction.InlineSearchPrevious);
   bind (chr "*" Any) SHIFT [VI] [SEARCH] (Action.Vi ViAction.SemanticSearchForward);
   bind (chr "#" Any) SHIFT [VI] [SEARCH] (Action.Vi ViAction.SemanticSearchBackward);
   bind (chr "k" Any) empty [VI] [SEARCH] (Action.ViMotion ViModes.Up);
   bind (chr "j" Any) empty [VI] [SEARCH] (Action.ViMotion ViModes.Down);
   bind (chr "h" Any) empty [VI] [SEARCH] (Action.ViMotion MoveLeft);
   bind (chr "l" Any) empty [VI] [SEARCH] (Action.ViMotion MoveRight);
   bind (named NamedKey.ArrowUp Any) empty [VI] [SEARCH] (Action.ViMotion ViModes.Up);
   bind (named NamedKey.ArrowDown Any) empty [VI] [SEARCH] (Action.ViMotion ViModes.Down);
   bind (named NamedKey.ArrowLeft Any) empty [VI] [SEARCH] (Action.ViMotion MoveLeft);
   bind (named NamedKey.ArrowRight Any) empty [VI] [SEARCH] (Action.ViMotion MoveRight);
   bind (chr "0" Any) empty [VI] [SEARCH] (Action.ViMotion ViModes.First);
   bind (chr "$" Any) SHIFT [VI] [SEARCH] (Action.ViMotion ViModes.Last);
   bind (named NamedKey.Home Any) empty [VI] [SEARCH] (Action.ViMotion ViModes.First);
   bind (named NamedKey.End Any) empty [VI] [SEARCH] (Action.ViMotion ViModes.Last);
   bind (chr "^" Any) SHIFT [VI] [SEARCH] (Action.ViMotion ViModes.FirstOccupied);
   bind (chr "h" Any) SHIFT [VI] [SEARCH] (Action.ViMotion ViModes.High);
   bind (chr "m" Any) SHIFT [VI] [SEARCH] (Action.ViMotion ViModes.Middle);
   bind (chr "l" Any) SHIFT [VI] [SEARCH] (Action.ViMotion ViModes.Low);
   bind (chr "b" Any) empty [VI] [SEARCH] (Action.ViMotion ViModes.SemanticLeft);
   bind (chr "w" Any) empty [VI] [SEARCH] (Action.ViMotion ViModes.SemanticRight);
   bind (chr "e" Any) empty [VI] [SEARCH] (Action.ViMotion ViModes.SemanticRightEnd);
   bind (chr "b" Any) SHIFT [VI] [SEARCH] (Action.ViMotion ViModes.WordLeft);
   bind (chr "w" Any) SHIFT [VI] [SEARCH] (Action.ViMotion ViModes.WordRight);
   bind (chr "e" Any) SHIFT [VI] [SEARCH] (Action.ViMotion ViModes.WordRightEnd);
   bind (chr "%" Any) SHIFT [VI] [SEARCH] (Action.ViMotion ViModes.Bracket);
   bind (chr "{" Any) SHIFT [VI] [SEARCH] (Action.ViMotion ViModes.ParagraphUp);
   bind (chr "}" Any) SHIFT [VI] [SEARCH] (Action.ViMotion ViModes.ParagraphDown);
   bind (named NamedKey.Enter Any) empty [VI; SEARCH] [] (Action.Search SearchAction.SearchConfirm);
   bind (named NamedKey.Escape Any) empty [SEARCH] [] (Action.Search SearchAction.SearchCancel);
   bind (chr "c" Any) CONTROL [SEARCH] [] (Action.Search SearchAction.SearchCancel);
   bind (chr "u" Any) CONTROL [SEARCH] [] (Action.Search SearchAction.SearchClear);
   bind (chr "w" Any) CONTROL [SEARCH] [] (Action.Search SearchAction.SearchDeleteWord);
   bind (chr "p" Any) CONTROL [SEARCH] [] (Action.Search SearchAction.SearchHistoryPrevious);
   bind (chr "n" Any) CONTROL [SEARCH] [] (Action.Search SearchAction.SearchHistoryNext);
   bind (named NamedKey.ArrowUp Any) empty [SEARCH] [] (Action.Search SearchAction.SearchHistoryPrevious);
   bind (named NamedKey.ArrowDown Any) empty [SEARCH] [] (Action.Search SearchAction.SearchHistoryNext);
   bind (named NamedKey.Enter Any) empty [SEARCH] [VI] (Action.Search SearchAction.SearchFocusNext);
   bind (named NamedKey.Enter Any) SHIFT [SEARCH] [VI] (Action.Search SearchAction.SearchFocusPrevious)].

Definition common_keybindings : list KeyBinding :=
  [bind (chr "v" Any) (union CONTROL SHIFT) [] [VI] Action.Paste;
   bind (chr "v" Any) (union CONTROL SHIFT) [VI; SEARCH] [] Action.Paste;
   bind (chr "f" Any) (union CONTROL SHIFT) [] [SEARCH] Action.SearchForward;
   bind (chr "b" Any) (union CONTROL SHIFT) [] [SEARCH] Action.SearchBackward;
   bind (named NamedKey.Insert Any) SHIFT [] [VI] Action.PasteSelection;
   bind (chr "c" Any) (union CONTROL SHIFT) [] [] Action.Copy;
   bind (chr "c" Any) (union CONTROL SHIFT) [VI] [SEARCH] Action.ClearSelection;
   bind (chr "0" Any) CONTROL [] [] Action.ResetFontSize;
   bind (chr "=" Any) CONTROL [] [] Action.IncreaseFontSize;
   bind (chr "+" Any) CONTROL [] [] Action.IncreaseFontSize;
   bind (chr "-" Any) CONTROL [] [] Action.DecreaseFontSize;
   bind (chr "+" Numpad) CONTROL [] [] Action.IncreaseFontSize;
   bind (chr "-" Numpad) CONTROL [] [] Action.DecreaseFontSize].

Definition macos_key_bindings : list KeyBinding :=
  [bind (named NamedKey.Insert Any) SHIFT [] [VI; SEARCH] (esc [27; 91; 50; 59; 50; 126]);
   bind (chr "t" Any) SUPER [] [] Action.CreateNewTab;
   bind (chr "]" Any) (union SUPER SHIFT) [] [] Action.SelectNextTab;
   bind (chr "[" Any) (union SUPER SHIFT) [] [] Action.SelectPreviousTab;
   bind (named NamedKey.Tab Any) SUPER [] [] Action.SelectNextTab;
   bind (named NamedKey.Tab Any) (union SUPER SHIFT) [] [] Action.SelectPreviousTab;
   bind (chr "1" Any) SUPER [] [] Action.SelectTab1;
   bind (chr "2" Any) SUPER [] [] Action.SelectTab2;
   bind (chr "3" Any) SUPER [] [] Action.SelectTab3;
   bind (chr "4" Any) SUPER [] [] Action.SelectTab4;
   bind (chr "5" Any) SUPER [] [] Action.SelectTab5;
   bind (chr "6" Any) SUPER [] [] Action.SelectTab6;
   bind (chr "7" Any) SUPER [] [] Action.SelectTab7;
   bind (chr "8" Any) SUPER [] [] Action.SelectTab8;
   bind (chr "9" Any) SUPER [] [] Action.SelectLastTab;
   bind (chr "0" Any) SUPER [] [] Action.ResetFontSize;
   bind (chr "=" Any) SUPER [] [] Action.IncreaseFontSize;
   bind (chr "+" Any) SUPER [] [] Action.IncreaseFontSize;
   bind (chr "-" Any) SUPER [] [] Action.DecreaseFontSize;
   bind (chr "k" Any) SUPER [] [VI; SEARCH] (esc [12]);
   bind (chr "k" Any) SUPER [] [VI; SEARCH] Action.ClearHistory;
   bind (chr "v" Any) SUPER [] [VI] Action.Paste;
   bind (chr "v" Any) SUPER [VI; SEARCH] [] Action.Paste;
   bind (chr "n" Any) SUPER [] [] Action.CreateNewWindow;
   bind (chr "f" Any) (union CONTROL SUPER) [] [] Action.ToggleFullscreen;
   bind (chr "c" Any) SUPER [] [] Action.Copy;
   bind (chr "c" Any) SUPER [VI] [SEARCH] Action.ClearSelection;
   bind (chr "h" Any) SUPER [] [] Action.Hide;
   bind (chr "h" Any) (union SUPER ALT) [] [] Action.HideOtherApplications;
   bind (chr "m" Any) SUPER [] [] Action.Minimize;
   bind (chr "q" Any) SUPER [] [] Action.Quit;
   bind (chr "w" Any) SUPER [] [] Action.Quit;
   bind (chr "f" Any) SUPER [] [SEARCH] Action.SearchForward;
   bind (chr "b" Any) SUPER [] [SEARCH] Action.SearchBackward;
   bind (chr "+" Numpad) SUPER [] [] Action.IncreaseFontSize;
   bind (chr "-" Numpad) SUPER [] [] Action.DecreaseFontSize].

Definition platform_key_bindings (p : Platform) : list KeyBinding :=
  match p with
  | Unix => common_keybindings
  | Windows => bind (named NamedKey.Enter Any) ALT [] [] Action.ToggleFullscreen :: common_keybindings
  | MacOS => macos_key_bindings
  end.
Definition default_key_bindings (p : Platform) : list KeyBinding :=
  terminal_key_bindings ++ platform_key_bindings p.
End Defaults.
