(* ===== verification/BindingProps.v ===== *)
(** Properties of the bindings: conflicts of bindings and the priority of the user's bindings over
    the default ones, the reading of a binding, and the default bindings in vi mode. *)
From S2P Require Import Prelude Index Cells TermData Searches ViModes Keys Bindings DefaultBindings.
Import Stdlib.Strings.String.StringSyntax.
#[local] Open Scope N_scope.

(** * Sets of modes *)

Lemma intersects_false m n : Flags.intersects m n = false ↔ N.land m n = 0.
Proof. unfold Flags.intersects. by rewrite negb_false_iff, N.eqb_eq. Qed.

Lemma intersects_true m n : Flags.intersects m n = true ↔ N.land m n ≠ 0.
Proof. unfold Flags.intersects. by rewrite negb_true_iff, N.eqb_neq. Qed.

Lemma contains_true m n : Flags.contains m n = true ↔ N.land m n = n.
Proof. apply N.eqb_eq. Qed.

Lemma intersects_sym m n : Flags.intersects m n = Flags.intersects n m.
Proof. unfold Flags.intersects. by rewrite N.land_comm. Qed.

(** Equations of bit operations, bit by bit. *)
Ltac bitwise :=
  apply N.bits_inj; let j := fresh "j" in intros j;
  repeat match goal with
    | E : N.land _ _ = _ |- _ =>
        apply (f_equal (λ n, N.testbit n j)) in E; rewrite N.land_spec, ?N.bits_0 in E
    end;
  rewrite ?N.land_spec, ?N.lor_spec, ?N.land_spec, ?N.lor_spec, ?N.bits_0 in *;
  repeat match goal with
    | |- context [N.testbit ?a j] => destruct (N.testbit a j); simpl in *
    | _ : context [N.testbit ?a j] |- _ => destruct (N.testbit a j); simpl in *
    end;
  congruence.

Lemma contains_union m n : Flags.contains (N.lor m n) m = true ∧ Flags.contains (N.lor m n) n = true.
Proof. rewrite !contains_true. split; bitwise. Qed.

Lemma intersects_union m n k :
  Flags.intersects m k = false → Flags.intersects n k = false →
  Flags.intersects (N.lor m n) k = false.
Proof. rewrite !intersects_false. intros. bitwise. Qed.

(** What a set of active modes excludes, its parts exclude. *)
Lemma intersects_part m n k :
  Flags.contains m n = true → Flags.intersects m k = false → Flags.intersects n k = false.
Proof. rewrite contains_true, !intersects_false. intros. bitwise. Qed.

(** * Conflicts *)

Section Conflicts.
Context `{Trigger T}.
Implicit Types (b d u : Binding T).

(** A binding that can be triggered at all, and one whose modes are modes. *)
Definition consistent b : Prop := Flags.intersects (mode b) (notmode b) = false.
Definition typed b : Prop := Flags.contains BindingMode.all (mode b) = true.

Lemma triggered b m ms i :
  Binding.is_triggered_by b m ms i = true ↔
  trigger_eqb (trigger b) i = true ∧ mods b = ms ∧ Flags.contains m (mode b) = true
  ∧ Flags.intersects m (notmode b) = false.
Proof. unfold Binding.is_triggered_by. rewrite !andb_true_iff, bool_decide_eq_true, negb_true_iff. tauto. Qed.

Definition required b : N := if mode b =? 0 then BindingMode.all else mode b.

Lemma triggers_match_true b d :
  Binding.triggers_match b d = true ↔
  trigger_eqb (trigger b) (trigger d) = true ∧ mods b = mods d
  ∧ Flags.intersects (required b) (required d) = true
  ∧ Flags.intersects (mode b) (notmode d) = false
  ∧ Flags.intersects (mode d) (notmode b) = false.
Proof.
  unfold Binding.triggers_match, required.
  destruct (trigger_eqb (trigger b) (trigger d)); simpl; [|intuition congruence].
  case_bool_decide; simpl; [|intuition congruence].
  destruct (Flags.intersects (if mode b =? 0 then _ else _) _); simpl; [|intuition congruence].
  destruct (Flags.intersects (mode b) (notmode d)), (Flags.intersects (mode d) (notmode b));
    simpl; intuition congruence.
Qed.

(** Bindings that match are active together in the union of their modes. *)
Lemma match_active b d :
  consistent b → consistent d → Binding.triggers_match b d = true →
  ∃ m i, Binding.is_triggered_by b m (mods b) i = true
       ∧ Binding.is_triggered_by d m (mods b) i = true.
Proof.
  intros Hb Hd (Ht & Hm & _ & H1 & H2)%triggers_match_true.
  destruct (trigger_eqb_join _ _ Ht) as (i & Hi1 & Hi2).
  exists (N.lor (mode b) (mode d)), i. rewrite !triggered.
  destruct (contains_union (mode b) (mode d)) as [C1 C2].
  split; (split_and!; [done..|by apply intersects_union]).
Qed.

Lemma required_disjoint b d :
  typed b → typed d → Flags.intersects (required b) (required d) = false →
  mode b ≠ 0 ∧ mode d ≠ 0 ∧ Flags.intersects (mode b) (mode d) = false.
Proof.
  unfold typed, required. rewrite !contains_true, !intersects_false. intros Tb Td.
  destruct (N.eqb_spec (mode b) 0) as [Eb|Eb], (N.eqb_spec (mode d) 0) as [Ed|Ed];
    rewrite ?Eb, ?Ed; [done|rewrite Td; done|rewrite N.land_comm, Tb; done|done].
Qed.

(** Bindings that do not match are not active together, unless each requires modes the other
    does not. *)
Lemma mismatch_inactive b d m ms i :
  typed b → typed d → located i = true → Binding.triggers_match b d = false →
  Binding.is_triggered_by b m ms i = true → Binding.is_triggered_by d m ms i = true →
  mode b ≠ 0 ∧ mode d ≠ 0 ∧ Flags.intersects (mode b) (mode d) = false.
Proof.
  rewrite !triggered. intros Tb Td Hi Hn (B1 & B2 & B3 & B4) (D1 & D2 & D3 & D4).
  apply required_disjoint; [done..|].
  destruct (Flags.intersects (required b) (required d)) eqn:E; [|done].
  apply not_true_iff_false in Hn as []. rewrite triggers_match_true.
  rewrite B2, D2. split_and!; [by eapply trigger_eqb_located|done|done|..];
    by eapply intersects_part.
Qed.
End Conflicts.

(** * The bindings of a configuration file *)

Section Override.
Context `{Trigger T}.
Implicit Types (user default : list (Binding T)).

Definition kept user default : list (Binding T) :=
  foldl (λ default binding, filter (λ b, Binding.triggers_match b binding = false) default)
    default user.

Lemma elem_of_kept user default d :
  d ∈ kept user default ↔ d ∈ default ∧ ∀ u, u ∈ user → Binding.triggers_match d u = false.
Proof.
  unfold kept. revert default. induction user as [|u user IH]; intros default; simpl; [set_solver|].
  rewrite IH, list_elem_of_filter. setoid_rewrite elem_of_cons. naive_solver.
Qed.

Lemma kept_sublist user default : kept user default `sublist_of` default.
Proof.
  unfold kept. revert default. induction user as [|u user IH]; intros default; simpl; [done|].
  etrans; [apply IH|]. apply sublist_filter.
Qed.

(** A default binding stays unless it conflicts: if it stays it is never active together with a
    binding of the user, if it goes it would be. *)
Lemma override user default d :
  Forall typed user → Forall typed default → Forall consistent default → d ∈ default →
  (d ∈ kept user default → ∀ u m ms i, u ∈ user → located i = true →
     Binding.is_triggered_by u m ms i = true → Binding.is_triggered_by d m ms i = true →
     mode u ≠ 0 ∧ mode d ≠ 0 ∧ Flags.intersects (mode u) (mode d) = false) ∧
  (d ∉ kept user default → ∃ u, u ∈ user ∧ trigger_eqb (trigger d) (trigger u) = true ∧
     mods d = mods u ∧
     (consistent u → ∃ m i, Binding.is_triggered_by d m (mods d) i = true
                          ∧ Binding.is_triggered_by u m (mods d) i = true)).
Proof.
  rewrite !Forall_forall. intros Tu Td Cd Hd. split.
  - intros [_ Hk]%elem_of_kept u m ms i Hu Hi HU HD.
    destruct (mismatch_inactive d u m ms i) as (? & ? & E); auto.
    by rewrite intersects_sym in E.
  - intros Hn. destruct (decide (Exists (λ u, Binding.triggers_match d u = true) user)) as [He|He].
    + apply Exists_exists in He as (u & Hu & Hm). exists u.
      destruct (proj1 (triggers_match_true d u) Hm) as (? & ? & _).
      split_and!; [done..|]. intros Cu. apply match_active; auto.
    + destruct Hn. apply elem_of_kept. split; [done|]. intros u Hu.
      rewrite <- Forall_Exists_neg, Forall_forall in He. apply not_true_iff_false. by apply He.
Qed.
End Override.

(** ** What reading returns *)

(** An invariant of a loop that may return an error. *)
Lemma foldE_inv {E A St} (f : A → St → result E St) (P : St → Prop) l s s' :
  (∀ a s s', f a s = Ok s' → P s → P s') → P s → foldE f l s = Ok s' → P s'.
Proof.
  intros Hf. revert s. induction l as [|a l IH]; intros s Hs; simpl; [by intros [= <-]|].
  destruct (f a s) as [s1|e] eqn:Es; simpl; [|done]. eauto.
Qed.

Lemma result_bind_ok {E A B} (m : result E A) (k : A → result E B) b :
  (m ≫= k) = Ok b ↔ ∃ a, m = Ok a ∧ k a = Ok b.
Proof. destruct m; simpl; naive_solver. Qed.

Lemma ok_or_ok {E A} (e : E) (m : option A) a : ok_or e m = Ok a ↔ m = Some a.
Proof. destruct m; simpl; naive_solver. Qed.

Section Reading.
Context `{Unicode} `{Winit}.

Lemma mode_step_typed m s s' :
  mode_step m s = Ok s' → Flags.contains BindingMode.all s.1 = true →
  Flags.contains BindingMode.all s'.1 = true.
Proof.
  destruct s as [a b]. unfold mode_step. rewrite !contains_true. intros E Ha.
  repeat (destruct (decide _) in E; [injection E as <-|]); simpl in *;
    rewrite ?N.land_lor_distr_r, ?Ha; done.
Qed.

Lemma mode_deserialize_typed v m :
  mode_deserialize v = Ok m → Flags.contains BindingMode.all m.1 = true.
Proof.
  destruct v as [t| | | | |]; try done. simpl. intros E.
  by refine (foldE_inv mode_step (λ s, Flags.contains BindingMode.all s.1 = true) _ _ _
              mode_step_typed _ E).
Qed.

(** The value given for a field. *)
Definition known (e : text * TomlValue) : option Field := valid (field_of e.1).
Definition given (f : Field) (l : list (text * TomlValue)) : option TomlValue :=
  '(_, (_, v)) ← list_find (λ e, known e = Some f) l; Some v.

(** The slots hold what is given for the fields. *)
Definition holds (l : list (text * TomlValue)) (s : Slots) : Prop :=
  ∀ f, match given f l with
       | None => s f = None
       | Some v => ∃ x, read f v = Ok x ∧ s f = Some x
       end.

Lemma known_ok e f : field_of e.1 = Ok f ↔ known e = Some f.
Proof. unfold known. destruct (field_of e.1); simpl; naive_solver. Qed.

Lemma given_cons f e l :
  given f (e :: l) = if decide (known e = Some f) then Some e.2 else given f l.
Proof.
  unfold given. simpl. destruct (decide (known e = Some f)) as [E|E]; [by destruct e|].
  by destruct (list_find _ l) as [[i [k v]]|].
Qed.

Lemma given_none f l fs : mapM known l = Some fs → f ∉ fs → given f l = None.
Proof.
  revert fs. induction l as [|e l IH]; intros fs E Hf; [done|].
  apply mapM_Some in E. apply Forall2_cons_inv_l in E as (f' & fs' & He & Hl & ->).
  rewrite given_cons, decide_False by set_solver.
  apply (IH fs'); [by apply mapM_Some|set_solver].
Qed.

Lemma store_same f x s : store f x s f = Some x.
Proof.
  unfold store. destruct (decide (f = f)) as [E|]; [|done].
  by rewrite (proof_irrel E eq_refl).
Qed.
Lemma store_other f g x s : f ≠ g → store f x s g = s g.
Proof. intros. unfold store. by destruct (decide (f = g)). Qed.

Lemma visit_entry_ok e s s' :
  visit_entry e s = Ok s' ↔
  ∃ f x, known e = Some f ∧ s f = None ∧ read f e.2 = Ok x ∧ s' = store f x s.
Proof.
  unfold visit_entry. rewrite result_bind_ok. setoid_rewrite known_ok. split.
  - intros (f & Hf & E). exists f. destruct (s f) eqn:Es; [done|].
    apply result_bind_ok in E as (x & ? & [= <-]). eauto.
  - intros (f & x & Hf & Es & Ex & ->). exists f. split; [done|]. by rewrite Es, Ex.
Qed.

(** The loop, from slots of which [done] are filled. *)
Lemma visit_entries l s :
  (∀ s', foldE visit_entry l s = Ok s' →
     ∃ fs, mapM known l = Some fs ∧ NoDup fs ∧ (∀ f, f ∈ fs → s f = None) ∧
       ∀ f, match given f l with
            | None => s' f = s f
            | Some v => ∃ x, read f v = Ok x ∧ s' f = Some x
            end).
Proof.
  revert s. induction l as [|e l IH]; intros s s'; simpl.
  - intros [= <-]. exists []. split_and!; [done|constructor|set_solver|done].
  - rewrite result_bind_ok. intros (s1 & (f & x & Hf & Es & Ex & ->)%visit_entry_ok & E).
    destruct (IH _ _ E) as (fs & Hl & Hnd & Hfree & Hg).
    assert (f ∉ fs) as Hn.
    { intros Hin. pose proof (Hfree _ Hin) as Hs. by rewrite store_same in Hs. }
    exists (f :: fs). rewrite Hf; simpl. rewrite Hl. split_and!; [done|by constructor|..].
    + intros g [->|Hg']%elem_of_cons; [done|].
      rewrite <- (store_other f g x s) by set_solver. auto.
    + intros g. rewrite given_cons. specialize (Hg g). rewrite Hf.
      destruct (decide (Some f = Some g)) as [[= <-]|Hne].
      * exists x. split; [done|]. rewrite (given_none f l fs Hl Hn), store_same in Hg. done.
      * destruct (given g l); [done|]. rewrite store_other in Hg by congruence. done.
Qed.

Lemma visit_entries_ok l s fs :
  mapM known l = Some fs → NoDup fs → (∀ f, f ∈ fs → s f = None) →
  (∀ f v, given f l = Some v → ∃ x, read f v = Ok x) →
  ∃ s', foldE visit_entry l s = Ok s'.
Proof.
  revert s fs. induction l as [|e l IH]; intros s fs E Hnd Hfree Hr; simpl; [eauto|].
  apply mapM_Some, Forall2_cons_inv_l in E as (f & fs' & He & Hl & ->).
  apply mapM_Some in Hl. apply NoDup_cons in Hnd as [Hn Hnd].
  destruct (Hr f e.2) as [x Hx]; [by rewrite given_cons, decide_True|].
  destruct (IH (store f x s) fs') as [s' Hs']; [done|done|..].
  - intros g Hg. rewrite store_other by set_solver. apply Hfree. set_solver.
  - intros g v Hg. apply Hr. rewrite given_cons, decide_False; [done|].
    rewrite He. intros [= <-]. by rewrite (given_none f l fs' Hl Hn) in Hg.
  - exists s'. rewrite (proj2 (visit_entry_ok e s (store f x s))); [done|].
    exists f, x. split_and!; [done|apply Hfree; set_solver|done|done].
Qed.

(** [finish] looks at the slots only. *)
Lemma finish_ext s s' : (∀ f, s f = s' f) → finish s = finish s'.
Proof. intros E. unfold finish. by rewrite !E. Qed.

(** What a complete set of fields is, and the binding it gives. *)
Definition one_action (s : Slots) (a : Action.t) : Prop :=
  (s FAction = Some a ∧ s FChars = None ∧ s FCommand = None
     ∧ (∀ m, a = Action.Mouse m → s FMouse ≠ None))
  ∨ (∃ t, s FAction = None ∧ s FChars = Some t ∧ s FCommand = None ∧ a = Action.Esc t)
  ∨ (∃ p, s FAction = None ∧ s FChars = None ∧ s FCommand = Some p ∧ a = Action.Command p).
Definition complete (s : Slots) (b : RawBinding) : Prop :=
  one_action s (raw_action b) ∧ (s FMouse ≠ None ∨ s FKey ≠ None)
  ∧ raw_key b = s FKey ∧ raw_mouse b = s FMouse ∧ raw_mods b = default ModifiersState.empty (s FMods)
  ∧ (raw_mode b, raw_notmode b) = default (BindingMode.empty, BindingMode.empty) (s FMode).

Lemma finish_trigger (s : Slots) :
  bool_decide (s FMouse = None) && bool_decide (s FKey = None) = false
  ↔ s FMouse ≠ None ∨ s FKey ≠ None.
Proof.
  rewrite andb_false_iff, !bool_decide_eq_false. done.
Qed.

Lemma finish_ok s b : finish s = Ok b ↔ complete s b.
Proof.
  unfold finish, complete, one_action.
  destruct (default (BindingMode.empty, BindingMode.empty) (s FMode)) as [m nm].
  rewrite result_bind_ok, <- finish_trigger. split.
  - intros (a & Ea & Eb). destruct (_ && _); [done|]. injection Eb as <-. simpl.
    split_and!; try done.
    destruct (s FAction) as [a'|], (s FChars), (s FCommand); try done; simplify_eq; [|naive_solver..].
    left. destruct a', (s FMouse); simplify_eq; naive_solver.
  - intros (Ha & -> & Ek & Em & Es & Eq). exists (raw_action b). injection Eq as Eq1 Eq2.
    split; [|by destruct b; simpl in *; subst].
    destruct Ha as [(-> & -> & -> & Hm)|[(t & -> & -> & -> & ->)|(p & -> & -> & -> & ->)]]; [|done..].
    destruct (raw_action b), (s FMouse); try done. by destruct (Hm a eq_refl).
Qed.

(** C19.  Reading a binding: the map is accepted exactly when every field is known and given once,
    every value can be read, exactly one of action, characters and command is given, an action of
    the mouse only together with a mouse button, and there is a button or a key; the binding has
    the values that were read and no modes and modifiers by default. *)
Theorem raw_binding_ok l b :
  visit_map l = Ok b ↔
  ∃ fs s, mapM known l = Some fs ∧ NoDup fs ∧ holds l s ∧ complete s b.
Proof.
  unfold visit_map. rewrite result_bind_ok. setoid_rewrite finish_ok. split.
  - intros (s & (fs & Hl & Hnd & _ & Hh)%visit_entries & Hc). by exists fs, s.
  - intros (fs & s & Hl & Hnd & Hh & Hc).
    assert (∃ s', foldE visit_entry l (λ _, None) = Ok s') as [s' E].
    { apply (visit_entries_ok _ _ fs); [done..|]. intros f v Hv. specialize (Hh f).
      rewrite Hv in Hh. naive_solver. }
    exists s'. split; [done|]. rewrite <- finish_ok in *. rewrite <- Hc. apply finish_ext. intros f.
    apply visit_entries in E as (_ & _ & _ & _ & Hh'). specialize (Hh f). specialize (Hh' f).
    destruct (given f l); naive_solver congruence.
Qed.

(** ** The bindings of the keyboard *)

Lemma key_binding_typed v b : KeyBinding_deserialize v = Ok b → typed b.
Proof.
  unfold KeyBinding_deserialize, RawBinding_deserialize. rewrite result_bind_ok.
  intros (r & Hr & Hb). destruct v; try done. unfold visit_map in Hr.
  apply result_bind_ok in Hr as (s & Hs & (_ & _ & _ & _ & _ & Hm)%finish_ok).
  apply visit_entries in Hs as (_ & _ & _ & _ & Hh). specialize (Hh FMode).
  apply ok_or_ok in Hb. unfold into_key_binding in Hb.
  destruct (raw_key r); [|done]. injection Hb as <-. unfold typed. simpl.
  destruct (given FMode l) as [v|]; [|by rewrite Hh in Hm; injection Hm as -> _].
  destruct Hh as (x & Hx & Ex). rewrite Ex in Hm. simpl in Hm. subst x.
  by apply mode_deserialize_typed in Hx.
Qed.

Lemma default_typed p : Forall typed (default_key_bindings p).
Proof. destruct p; repeat constructor. Qed.

Lemma default_consistent p : Forall consistent (default_key_bindings p).
Proof. destruct p; repeat constructor. Qed.

(**  The bindings of a configuration file take priority: those that can be read are kept in
    order, and of the default bindings a part follows.  A default binding that is left is active
    together with one of the user only when each requires modes the other does not; a default
    binding is only removed when a binding of the user has its key and modifiers and some modes
    activate both. *)
Theorem user_bindings_override p values :
  ∃ user rest,
    deserialize_bindings KeyBinding_deserialize (VArray values) (default_key_bindings p)
      = Ok (user ++ rest) ∧
    user = omap (λ v, valid (KeyBinding_deserialize v)) values ∧
    rest `sublist_of` default_key_bindings p ∧
    (∀ d u m ms i, d ∈ rest → u ∈ user → located i = true →
       Binding.is_triggered_by u m ms i = true → Binding.is_triggered_by d m ms i = true →
       mode u ≠ 0 ∧ mode d ≠ 0 ∧ Flags.intersects (mode u) (mode d) = false) ∧
    (∀ d, d ∈ default_key_bindings p → d ∉ rest →
       ∃ u, u ∈ user ∧ trigger_eqb (trigger d) (trigger u) = true ∧ mods d = mods u ∧
         (consistent u → ∃ m i, Binding.is_triggered_by d m (mods d) i = true
                              ∧ Binding.is_triggered_by u m (mods d) i = true)).
Proof.
  set (user := omap (λ v, valid (KeyBinding_deserialize v)) values).
  assert (Forall typed user) as Ht.
  { apply Forall_forall. intros b (v & _ & Hv)%list_elem_of_omap.
    destruct (KeyBinding_deserialize v) eqn:E; simplify_eq/=. by eapply key_binding_typed. }
  exists user, (kept user (default_key_bindings p)).
  pose proof (λ d, override user (default_key_bindings p) d Ht (default_typed p)
                     (default_consistent p)) as Ho.
  pose proof (kept_sublist user (default_key_bindings p)) as Hs. split_and!; [done..| |].
  - intros d u m ms i Hd. apply (Ho d); [|done]. by apply elem_of_kept in Hd as [].
  - intros d Hd Hn. by apply (Ho d).
Qed.
End Reading.

(** * The default bindings *)

Lemma binding_mode_vi m search :
  Flags.contains (BindingMode.new m search) BindingMode.VI = TermMode.contains m TermMode.VI
  ∧ Flags.contains (BindingMode.new m search) BindingMode.SEARCH = search.
Proof.
  unfold BindingMode.new. cbv zeta.
  destruct (TermMode.contains m TermMode.APP_CURSOR), (TermMode.contains m TermMode.APP_KEYPAD),
    (TermMode.contains m TermMode.ALT_SCREEN), (TermMode.contains m TermMode.VI), search,
    (TermMode.contains m TermMode.DISAMBIGUATE_ESC_CODES),
    (TermMode.contains m TermMode.REPORT_ALL_KEYS_AS_ESC); by vm_compute.
Qed.

Definition writes (a : Action.t) : bool := match a with Action.Esc _ => true | _ => false end.
Definition pastes_hint (h : Hint) : bool := bool_decide (hint_action h = HintActionInternal HintPaste).
(** A hint that pastes is counted with the actions that do. *)
Definition pastes (a : Action.t) : bool :=
  match a with
  | Action.Paste | Action.PasteSelection => true
  | Action.Hint h => pastes_hint h
  | _ => false
  end.

(** The modes of a default binding that writes or pastes. *)
Definition quiet {T} (b : Binding T) : Prop :=
  (writes (action b) = true → Flags.contains (notmode b) BindingMode.VI = true
                            ∧ Flags.contains (notmode b) BindingMode.SEARCH = true) ∧
  (pastes (action b) = true → Flags.contains (notmode b) BindingMode.VI = true
                            ∨ Flags.contains (mode b) BindingMode.SEARCH = true).
#[export] Instance quiet_dec {T} (b : Binding T) : Decision (quiet b).
Proof. unfold quiet. apply _. Defined.

Lemma default_quiet `{Winit} p :
  Forall quiet (default_key_bindings p) ∧ Forall quiet default_mouse_bindings.
Proof.
  split; [destruct p|]; apply (bool_decide_eq_true _); vm_compute; reflexivity.
Qed.

(** An active mode is not excluded by a triggered binding, a required one is active. *)
Lemma triggered_modes `{Trigger T} (b : Binding T) m ms i f :
  Binding.is_triggered_by b m ms i = true → f ≠ 0 →
  (Flags.contains (notmode b) f = true → Flags.contains m f = false) ∧
  (Flags.contains (mode b) f = true → Flags.contains m f = true).
Proof.
  rewrite triggered, intersects_false, contains_true. intros (_ & _ & Hm & Hn) Hf. split.
  - intros E%contains_true. apply not_true_iff_false. intros E'%contains_true. apply Hf.
    clear Hf Hm. rewrite <- E'. bitwise.
  - rewrite !contains_true. intros E. clear Hf Hn. bitwise.
Qed.

Section Quiet.
Context `{Winit}.

Lemma quiet_bindings `{Trigger T} (l : list (Binding T)) b mode search ms i :
  Forall quiet l → b ∈ l → Binding.is_triggered_by b (BindingMode.new mode search) ms i = true →
  (writes (action b) = true → TermMode.contains mode TermMode.VI = false ∧ search = false) ∧
  (pastes (action b) = true → TermMode.contains mode TermMode.VI = false ∨ search = true).
Proof.
  rewrite Forall_forall. intros Hl Hb Ht. destruct (Hl _ Hb) as [Hw Hp].
  destruct (binding_mode_vi mode search) as [Ev Es].
  destruct (triggered_modes _ _ _ _ BindingMode.VI Ht) as [V1 V2]; [done|].
  destruct (triggered_modes _ _ _ _ BindingMode.SEARCH Ht) as [S1 S2]; [done|].
  rewrite Ev in *. rewrite Es in *. naive_solver.
Qed.

(**  In vi mode and during a search no default binding sends an escape sequence to the
    program in the terminal, and in vi mode none pastes except into the search. *)
Theorem default_bindings_quiet p b mode search ms i :
  b ∈ default_key_bindings p →
  Binding.is_triggered_by b (BindingMode.new mode search) ms i = true →
  (writes (action b) = true → TermMode.contains mode TermMode.VI = false ∧ search = false) ∧
  (pastes (action b) = true → TermMode.contains mode TermMode.VI = false ∨ search = true).
Proof. apply quiet_bindings, default_quiet. Qed.
End Quiet.

Section Samples.
#[local] Existing Instance ascii_unicode.
#[local] Existing Instance sample_winit.

Definition paste_binding : KeyBinding :=
  mkBinding ModifiersState.empty Action.Paste 24 0
    (BindingKey.Keycode (Named NamedKey.Paste) KeyLocation.Any).

Lemma default_bindings_quiet_witness :
  (writes Action.Paste = true → TermMode.contains TermMode.VI TermMode.VI = false ∧ true = false) ∧
  (pastes Action.Paste = true → TermMode.contains TermMode.VI TermMode.VI = false ∨ true = true).
Proof.
  apply (default_bindings_quiet Unix paste_binding TermMode.VI true ModifiersState.empty
           (BindingKey.Keycode (Named NamedKey.Paste) KeyLocation.Standard)).
  - apply list_elem_of_lookup. exists 3%nat. reflexivity.
  - vm_compute. reflexivity.
Defined.

(** A binding with the escape key and the modes [Vi|~Search], and the number of a mouse button
    that does not fit. *)
Example read_binding :
  KeyBinding_deserialize
    (VTable [(str "Key", VString (str "Escape")); (str "mode", VString (str "Vi | ~Search"));
             (str "mods", VString (str "Control|Option")); (str "chars", VString (str "x"))])
  = Ok (mkBinding (mkMods false true true false) (Action.Esc (str "x"))
          BindingMode.VI BindingMode.SEARCH
          (BindingKey.Keycode (Named NamedKey.Escape) KeyLocation.Any)).
Proof. vm_compute. reflexivity. Qed.

Example mouse_button_wraps :
  mouse_deserialize (VInteger 65536) = mouse_deserialize (VInteger 0)
  ∧ mouse_deserialize (VInteger 65537) = Err (InvalidInteger 65537).
Proof. vm_compute. split; reflexivity. Qed.

(** A binding of the keyboard with an action of the mouse, since it names a button as well. *)
Example mouse_action_on_a_key :
  KeyBinding_deserialize
    (VTable [(str "key", VString (str "Escape")); (str "mouse", VString (str "Left"));
             (str "action", VString (str "ExpandSelection"))])
  = Ok (mkBinding ModifiersState.empty (Action.Mouse MouseAction.ExpandSelection) 0 0
          (BindingKey.Keycode (Named NamedKey.Escape) KeyLocation.Any)).
Proof. vm_compute. reflexivity. Qed.
End Samples.
