(* ===== verification/Keyboards.v ===== *)
(** Keyboard input ([cutty/src/input/keyboard.rs]): which escape sequence or text a key sends to
    the terminal, by the legacy encoding and by the kitty keyboard protocol, and what happens to a
    key before that.

    Bytes and characters of a sequence are numbers; [None] is a panic.  [ActionContext] is the part
    of the trait of [input/mod.rs] the keyboard uses. *)
From S2P Require Import Prelude Index Cells TermData Searches ViModes Keys Bindings.
Import Stdlib.Strings.String.StringSyntax.
#[local] Open Scope N_scope.

(** [bitflags! SequenceModifiers]: a set over [u8]. *)
Module SequenceModifiers.
Definition SHIFT : N := 1.
Definition ALT : N := 2.
Definition CONTROL : N := 4.
Definition SUPER : N := 8.
Definition set (f : N) (b : bool) (m : N) : N := if b then N.lor m f else N.ldiff m f.
Definition from (mods : ModifiersState) : N :=
  set SUPER (super_key mods) (set CONTROL (control_key mods)
    (set ALT (alt_key mods) (set SHIFT (shift_key mods) 0))).
(** [self.bits() + 1] is an [u8]. *)
Definition encode_esc_sequence (m : N) : option N := if m + 1 <? 256 then Some (m + 1) else None.
End SequenceModifiers.

Inductive SequenceTerminator := Normal (c : char) | Kitty.
Definition terminator_char (t : SequenceTerminator) : char :=
  match t with Normal c => c | Kitty => 117 end.

Record SequenceBase := mkSequenceBase { payload : text; terminator : SequenceTerminator }.

(** [text.bytes().next().unwrap()]: the first byte of the UTF-8 encoding. *)
Definition to_bytes (t : text) : list N := concat (encode_utf8 <$> t).
Definition is_control_character (t : text) : option bool :=
  codepoint ← head (to_bytes t);
  Some ((length (to_bytes t) =? 1)%nat
        && ((codepoint <? 32) || (127 <=? codepoint) && (codepoint <=? 159))).

Record SequenceBuilder := mkSequenceBuilder {
  builder_mode : TermMode;
  kitty_seq : bool;
  kitty_encode_all : bool;
  kitty_event_type : bool;
  modifiers : N;
}.

Module SequenceBuilder.
Section ops.
Context `{Unicode} `{Winit}.
Implicit Types (self : SequenceBuilder) (key : KeyEvent).
#[local] Abbreviation mk p t := (Some (mkSequenceBase p t)).
#[local] Abbreviation kitty p := (mk p Kitty).

Definition try_build_textual self key (associated_text : option text) :
    option (option SequenceBase) :=
  match logical_key key with
  | Character character =>
      if kitty_seq self then
        match character with
        | [ch] =>
            let shift := Flags.contains (modifiers self) SequenceModifiers.SHIFT in
            unshifted_ch ← (if shift then head (char_to_lowercase ch) else Some ch);
            let unicode_key_code :=
              if shift && (ch =? unshifted_ch) then
                match key_without_modifiers key with
                | Character unmodded => default unshifted_ch (head unmodded)
                | _ => unshifted_ch
                end
              else unshifted_ch in
            let payload :=
              if TermMode.contains (builder_mode self) TermMode.REPORT_ALTERNATE_KEYS
                 && negb (ch =? unicode_key_code)
              then digits unicode_key_code ++ [58] ++ digits ch
              else digits unicode_key_code in
            Some (kitty payload)
        | _ =>
            if kitty_encode_all self && bool_decide (is_Some associated_text)
            then Some (kitty (str "0")) else Some None
        end
      else Some None
  | _ => Some None
  end.

Definition numpad_base (k : Key) : option SequenceBase :=
  match k with
  | Character [48] => kitty (str "57399")
  | Character [49] => kitty (str "57400")
  | Character [50] => kitty (str "57401")
  | Character [51] => kitty (str "57402")
  | Character [52] => kitty (str "57403")
  | Character [53] => kitty (str "57404")
  | Character [54] => kitty (str "57405")
  | Character [55] => kitty (str "57406")
  | Character [56] => kitty (str "57407")
  | Character [57] => kitty (str "57408")
  | Character [46] => kitty (str "57409")
  | Character [47] => kitty (str "57410")
  | Character [42] => kitty (str "57411")
  | Character [45] => kitty (str "57412")
  | Character [43] => kitty (str "57413")
  | Character [61] => kitty (str "57415")
  | Named NamedKey.Enter => kitty (str "57414")
  | Named NamedKey.ArrowLeft => kitty (str "57417")
  | Named NamedKey.ArrowRight => kitty (str "57418")
  | Named NamedKey.ArrowUp => kitty (str "57419")
  | Named NamedKey.ArrowDown => kitty (str "57420")
  | Named NamedKey.PageUp => kitty (str "57421")
  | Named NamedKey.PageDown => kitty (str "57422")
  | Named NamedKey.Home => kitty (str "57423")
  | Named NamedKey.End => kitty (str "57424")
  | Named NamedKey.Insert => kitty (str "57425")
  | Named NamedKey.Delete => kitty (str "57426")
  | _ => None
  end.
Definition try_build_numpad self key : option SequenceBase :=
  if negb (kitty_seq self) || negb (bool_decide (key_location key = WinitKeyLocation.Numpad))
  then None else numpad_base (logical_key key).

Definition kitty_base (named : NamedKey.t) : option SequenceBase :=
  match named with
  | NamedKey.F3 => mk (str "13") (Normal 126)
  | NamedKey.F13 => mk (str "57376") Kitty
  | NamedKey.F14 => mk (str "57377") Kitty
  | NamedKey.F15 => mk (str "57378") Kitty
  | NamedKey.F16 => mk (str "57379") Kitty
  | NamedKey.F17 => mk (str "57380") Kitty
  | NamedKey.F18 => mk (str "57381") Kitty
  | NamedKey.F19 => mk (str "57382") Kitty
  | NamedKey.F20 => mk (str "57383") Kitty
  | NamedKey.F21 => mk (str "57384") Kitty
  | NamedKey.F22 => mk (str "57385") Kitty
  | NamedKey.F23 => mk (str "57386") Kitty
  | NamedKey.F24 => mk (str "57387") Kitty
  | NamedKey.F25 => mk (str "57388") Kitty
  | NamedKey.F26 => mk (str "57389") Kitty
  | NamedKey.F27 => mk (str "57390") Kitty
  | NamedKey.F28 => mk (str "57391") Kitty
  | NamedKey.F29 => mk (str "57392") Kitty
  | NamedKey.F30 => mk (str "57393") Kitty
  | NamedKey.F31 => mk (str "57394") Kitty
  | NamedKey.F32 => mk (str "57395") Kitty
  | NamedKey.F33 => mk (str "57396") Kitty
  | NamedKey.F34 => mk (str "57397") Kitty
  | NamedKey.F35 => mk (str "57398") Kitty
  | NamedKey.ScrollLock => mk (str "57359") Kitty
  | NamedKey.PrintScreen => mk (str "57361") Kitty
  | NamedKey.Pause => mk (str "57362") Kitty
  | NamedKey.ContextMenu => mk (str "57363") Kitty
  | NamedKey.MediaPlay => mk (str "57428") Kitty
  | NamedKey.MediaPause => mk (str "57429") Kitty
  | NamedKey.MediaPlayPause => mk (str "57430") Kitty
  | NamedKey.MediaStop => mk (str "57432") Kitty
  | NamedKey.MediaFastForward => mk (str "57433") Kitty
  | NamedKey.MediaRewind => mk (str "57434") Kitty
  | NamedKey.MediaTrackNext => mk (str "57435") Kitty
  | NamedKey.MediaTrackPrevious => mk (str "57436") Kitty
  | NamedKey.MediaRecord => mk (str "57437") Kitty
  | NamedKey.AudioVolumeDown => mk (str "57438") Kitty
  | NamedKey.AudioVolumeUp => mk (str "57439") Kitty
  | NamedKey.AudioVolumeMute => mk (str "57440") Kitty
  | _ => None
  end.
Definition try_build_named_kitty self key : option SequenceBase :=
  match logical_key key with
  | Named named => if kitty_seq self then kitty_base named else None
  | _ => None
  end.

Definition normal_base (one_based : text) (named : NamedKey.t) : option SequenceBase :=
  match named with
  | NamedKey.PageUp => mk (str "5") (Normal 126)
  | NamedKey.PageDown => mk (str "6") (Normal 126)
  | NamedKey.Insert => mk (str "2") (Normal 126)
  | NamedKey.Delete => mk (str "3") (Normal 126)
  | NamedKey.Home => mk one_based (Normal 72)
  | NamedKey.End => mk one_based (Normal 70)
  | NamedKey.ArrowLeft => mk one_based (Normal 68)
  | NamedKey.ArrowRight => mk one_based (Normal 67)
  | NamedKey.ArrowUp => mk one_based (Normal 65)
  | NamedKey.ArrowDown => mk one_based (Normal 66)
  | NamedKey.F1 => mk one_based (Normal 80)
  | NamedKey.F2 => mk one_based (Normal 81)
  | NamedKey.F3 => mk one_based (Normal 82)
  | NamedKey.F4 => mk one_based (Normal 83)
  | NamedKey.F5 => mk (str "15") (Normal 126)
  | NamedKey.F6 => mk (str "17") (Normal 126)
  | NamedKey.F7 => mk (str "18") (Normal 126)
  | NamedKey.F8 => mk (str "19") (Normal 126)
  | NamedKey.F9 => mk (str "20") (Normal 126)
  | NamedKey.F10 => mk (str "21") (Normal 126)
  | NamedKey.F11 => mk (str "23") (Normal 126)
  | NamedKey.F12 => mk (str "24") (Normal 126)
  | NamedKey.F13 => mk (str "25") (Normal 126)
  | NamedKey.F14 => mk (str "26") (Normal 126)
  | NamedKey.F15 => mk (str "28") (Normal 126)
  | NamedKey.F16 => mk (str "29") (Normal 126)
  | NamedKey.F17 => mk (str "31") (Normal 126)
  | NamedKey.F18 => mk (str "32") (Normal 126)
  | NamedKey.F19 => mk (str "33") (Normal 126)
  | NamedKey.F20 => mk (str "34") (Normal 126)
  | _ => None
  end.
Definition try_build_named_normal self key (has_associated_text : bool) : option SequenceBase :=
  match logical_key key with
  | Named named =>
      let one_based :=
        if (modifiers self =? 0) && negb (kitty_event_type self) && negb has_associated_text
        then [] else str "1" in
      normal_base one_based named
  | _ => None
  end.

Definition control_base (named : NamedKey.t) : text :=
  match named with
  | NamedKey.Tab => str "9"
  | NamedKey.Enter => str "13"
  | NamedKey.Escape => str "27"
  | NamedKey.Space => str "32"
  | NamedKey.Backspace => str "127"
  | _ => []
  end.
Definition modifier_base (named : NamedKey.t) (location : WinitKeyLocation.t) (base : text) : text :=
  match named, location with
  | NamedKey.Shift, WinitKeyLocation.Left => str "57441"
  | NamedKey.Control, WinitKeyLocation.Left => str "57442"
  | NamedKey.Alt, WinitKeyLocation.Left => str "57443"
  | NamedKey.Super, WinitKeyLocation.Left => str "57444"
  | NamedKey.Hyper, WinitKeyLocation.Left => str "57445"
  | NamedKey.Meta, WinitKeyLocation.Left => str "57446"
  | NamedKey.Shift, _ => str "57447"
  | NamedKey.Control, _ => str "57448"
  | NamedKey.Alt, _ => str "57449"
  | NamedKey.Super, _ => str "57450"
  | NamedKey.Hyper, _ => str "57451"
  | NamedKey.Meta, _ => str "57452"
  | NamedKey.CapsLock, _ => str "57358"
  | NamedKey.NumLock, _ => str "57360"
  | _, _ => base
  end.
(** The modifiers of the sequence are changed even when nothing is built. *)
Definition try_build_control_char_or_mod self key (mods : N) : option SequenceBase * N :=
  if negb (kitty_encode_all self) && negb (kitty_seq self) then (None, mods)
  else
    match logical_key key with
    | Named named =>
        let base := control_base named in
        if negb (kitty_encode_all self) && bool_decide (base = []) then (None, mods)
        else
          let base := modifier_base named (key_location key) base in
          let press := bool_decide (key_state key = Pressed) in
          let mods := match named with
                      | NamedKey.Shift => SequenceModifiers.set SequenceModifiers.SHIFT press mods
                      | NamedKey.Control => SequenceModifiers.set SequenceModifiers.CONTROL press mods
                      | NamedKey.Alt => SequenceModifiers.set SequenceModifiers.ALT press mods
                      | NamedKey.Super => SequenceModifiers.set SequenceModifiers.SUPER press mods
                      | _ => mods
                      end in
          (if bool_decide (base = []) then None else kitty base, mods)
    | _ => (None, mods)
    end.

(** The chain of [or_else]. *)
Definition try_build self key (associated_text : option text) (mods : N) :
    option (option SequenceBase * N) :=
  match try_build_numpad self key with
  | Some base => Some (Some base, mods)
  | None =>
  match try_build_named_kitty self key with
  | Some base => Some (Some base, mods)
  | None =>
  match try_build_named_normal self key (bool_decide (is_Some associated_text)) with
  | Some base => Some (Some base, mods)
  | None =>
  match try_build_control_char_or_mod self key mods with
  | (Some base, mods) => Some (Some base, mods)
  | (None, mods) => base ← try_build_textual self key associated_text; Some (base, mods)
  end end end end.
End ops.
End SequenceBuilder.

Section Keyboard.
Context `{Unicode} `{Winit}.
Implicit Types (key : KeyEvent) (mode : TermMode).

(** The parts of [build_sequence]. *)
Definition kitty_modes : TermMode :=
  N.lor TermMode.REPORT_ALL_KEYS_AS_ESC
    (N.lor TermMode.DISAMBIGUATE_ESC_CODES TermMode.REPORT_EVENT_TYPES).
Definition builder key (mods : ModifiersState) mode : SequenceBuilder :=
  mkSequenceBuilder mode (Flags.intersects mode kitty_modes)
    (TermMode.contains mode TermMode.REPORT_ALL_KEYS_AS_ESC)
    (TermMode.contains mode TermMode.REPORT_EVENT_TYPES
     && (key_repeat key || bool_decide (key_state key = Released)))
    (SequenceModifiers.from mods).
Definition associated_text key mode : option (option text) :=
  match text_with_all_modifiers key with
  | None => Some None
  | Some t =>
      if TermMode.contains mode TermMode.REPORT_ASSOCIATED_TEXT
         && negb (bool_decide (key_state key = Released)) && negb (bool_decide (t = []))
      then control ← is_control_character t; Some (if control : bool then None else Some t)
      else Some None
  end.
Definition event_type key : char :=
  if key_repeat key then 50 else match key_state key with Pressed => 49 | Released => 51 end.
Definition text_parameter (t : text) : text :=
  match t with
  | [] => []
  | codepoint :: codepoints =>
      [59] ++ digits codepoint ++ concat ((λ c, 58 :: digits c) <$> codepoints)
  end.

Definition build_sequence key (mods : ModifiersState) mode : option (list N) :=
  let context := builder key mods mode in
  associated ← associated_text key mode;
  '(sequence_base, mods) ← SequenceBuilder.try_build context key associated (modifiers context);
  match sequence_base with
  | None => Some []
  | Some base =>
      let s := [ESC; 91] ++ payload base in
      s ← (if kitty_event_type context || negb (mods =? 0) || bool_decide (is_Some associated)
           then m ← SequenceModifiers.encode_esc_sequence mods; Some (s ++ [59] ++ digits m)
           else Some s);
      let s := if kitty_event_type context then s ++ [58; event_type key] else s in
      let s := match associated with Some t => s ++ text_parameter t | None => s end in
      Some (to_bytes (s ++ [terminator_char (terminator base)]))
  end.

(** ** The processing of a key *)

Definition is_modifier_key key : bool :=
  match logical_key key with
  | Named (NamedKey.Shift | NamedKey.Control | NamedKey.Alt | NamedKey.Super) => true
  | _ => false
  end.

Definition should_build_sequence key (t : text) mode (mods : ModifiersState) : bool :=
  if TermMode.contains mode TermMode.REPORT_ALL_KEYS_AS_ESC then true
  else
    let disambiguate :=
      TermMode.contains mode TermMode.DISAMBIGUATE_ESC_CODES
      && (bool_decide (logical_key key = Named NamedKey.Escape)
          || bool_decide (key_location key = WinitKeyLocation.Numpad)
          || (negb (ModifiersState.is_empty mods)
              && (negb (bool_decide (mods = ModifiersState.SHIFT))
                  || match logical_key key with
                     | Named (NamedKey.Tab | NamedKey.Enter | NamedKey.Backspace) => true
                     | _ => false
                     end))) in
    if disambiguate then true
    else match logical_key key with
         | Named named => bool_decide (to_text named = None)
         | _ => bool_decide (t = [])
         end.
End Keyboard.

(** [OptionAsAlt] of [winit], only used on macOS. *)
Inductive OptionAsAlt := OnlyLeft | OnlyRight | BothAlt | NoneAlt.
#[export] Instance OptionAsAlt_eq_dec : EqDecision OptionAsAlt.
Proof. solve_decision. Defined.

(** The context of the input processing; the configuration is borrowed and does not change.  A
    timer that was taken from the scheduler can be put back with the typing delay. *)
Class ActionContext `{Winit} := {
  platform : Platform;
  option_as_alt : OptionAsAlt;
  key_bindings : list KeyBinding;
  hints_enabled : list (Hint * option HintBinding);
  Ctx : Type;
  SearchTimer : Type;
  preedit : Ctx → bool;
  term_mode : Ctx → TermMode;
  modifiers_state : Ctx → ModifiersState;
  lalt_pressed : Ctx → bool;
  ralt_pressed : Ctx → bool;
  char_pending : Ctx → bool;
  hint_active : Ctx → bool;
  search_active : Ctx → bool;
  set_ime_inhibitor_vi : bool → Ctx → option Ctx;
  hint_input : char → Ctx → option Ctx;
  inline_search_input : text → Ctx → option Ctx;
  search_input : char → Ctx → option Ctx;
  unschedule_search : Ctx → option (option SearchTimer * Ctx);
  schedule_search : SearchTimer → Ctx → option Ctx;
  execute : Action.t → Ctx → option Ctx;
  on_terminal_input_start : Ctx → option Ctx;
  write_to_pty : list N → Ctx → option Ctx;
}.

Module Keyboard.
Section ops.
Context `{Unicode} `{Winit} `{!ActionContext}.
Implicit Types (key : KeyEvent) (ctx : Ctx).

Definition alt_send_esc key (t : text) ctx : bool :=
  let alt := alt_key (modifiers_state ctx) in
  let alt_send_esc :=
    if decide (platform = MacOS) then
      alt && (bool_decide (option_as_alt = BothAlt)
              || bool_decide (option_as_alt = OnlyLeft) && lalt_pressed ctx
              || bool_decide (option_as_alt = OnlyRight) && ralt_pressed ctx)
    else alt in
  match logical_key key with
  | Named named => if bool_decide (is_Some (to_text named)) then alt_send_esc else alt
  | _ => alt_send_esc && (length t =? 1)%nat
  end.

Definition reset_search_delay ctx : option Ctx :=
  if search_active ctx then
    '(timer, ctx) ← unschedule_search ctx;
    match timer with Some timer => schedule_search timer ctx | None => Some ctx end
  else Some ctx.

(** The key a binding is compared with. *)
Definition binding_logical_key key (mods : ModifiersState) : Key :=
  match logical_key key with
  | Character ch =>
      if (bool_decide (platform = MacOS) || bool_decide (platform = Windows) && control_key mods)
         && alt_key mods
      then key_without_modifiers key else Character (str_to_lowercase ch)
  | k => k
  end.
Definition binding_input key (logical : Key) (binding : KeyBinding) : BindingKey.t :=
  match trigger binding with
  | BindingKey.Scancode _ => BindingKey.Scancode (physical_key key)
  | _ => BindingKey.Keycode logical (KeyLocation.from_winit (key_location key))
  end.
(** [binding_action] and the execution of the action. *)
Definition run_binding key logical mode mods (b : KeyBinding) (s : option bool * Ctx) :
    option (option bool * Ctx) :=
  let '(suppress_chars, ctx) := s in
  if Binding.is_triggered_by b mode mods (binding_input key logical b) then
    ctx ← execute (action b) ctx;
    Some (Some (default true suppress_chars
                && negb (bool_decide (action b = Action.ReceiveChar))), ctx)
  else Some (suppress_chars, ctx).

Definition hint_bindings : list KeyBinding :=
  omap (λ '(hint, binding), (λ b, hint_key_binding b hint) <$> binding) hints_enabled.

Definition process_key_bindings key ctx : option (bool * Ctx) :=
  let mode := BindingMode.new (term_mode ctx) (search_active ctx) in
  let mods := modifiers_state ctx in
  let logical := binding_logical_key key mods in
  s ← foldM (run_binding key logical mode mods) key_bindings (None, ctx);
  '(suppress_chars, ctx) ← foldM (run_binding key logical mode mods) hint_bindings s;
  Some (default false suppress_chars, ctx).

(** [mods & !ALT], unless the alt key is sent as an escape. *)
Definition mask_alt key (t : text) (mods : ModifiersState) ctx : ModifiersState :=
  if alt_send_esc key t ctx then mods else ModifiersState.difference mods ModifiersState.ALT.

Definition key_release key mode mods ctx : option Ctx :=
  if negb (TermMode.contains mode TermMode.REPORT_EVENT_TYPES)
     || TermMode.contains mode TermMode.VI || search_active ctx || hint_active ctx
  then Some ctx
  else
    let t := default [] (text_with_all_modifiers key) in
    let mods := mask_alt key t mods ctx in
    match logical_key key with
    | Named (NamedKey.Enter | NamedKey.Tab | NamedKey.Backspace) =>
        if TermMode.contains mode TermMode.REPORT_ALL_KEYS_AS_ESC
        then bytes ← build_sequence key mods mode; write_to_pty bytes ctx
        else Some ctx
    | _ => bytes ← build_sequence key mods mode; write_to_pty bytes ctx
    end.

(** The bytes a pressed key sends. *)
Definition key_bytes key (t : text) mode (mods : ModifiersState) : option (list N) :=
  if should_build_sequence key t mode mods then build_sequence key mods mode
  else Some ((if alt_key mods then [ESC] else []) ++ to_bytes t).

Definition key_input key ctx : option Ctx :=
  if preedit ctx then Some ctx
  else
    let mode := term_mode ctx in
    let mods := modifiers_state ctx in
    if decide (key_state key = Released) then
      ctx ← (if char_pending ctx then set_ime_inhibitor_vi false ctx else Some ctx);
      key_release key mode mods ctx
    else
      let t := default [] (text_with_all_modifiers key) in
      if hint_active ctx then foldM hint_input t ctx
      else if char_pending ctx then inline_search_input t ctx
      else
        ctx ← reset_search_delay ctx;
        '(suppressed, ctx) ← process_key_bindings key ctx;
        if suppressed : bool then Some ctx
        else if search_active ctx then foldM search_input t ctx
        else if TermMode.contains mode TermMode.VI then Some ctx
        else
          bytes ← key_bytes key t mode (mask_alt key t mods ctx);
          if bool_decide (bytes = []) then Some ctx
          else
            ctx ← (if is_modifier_key key then Some ctx else on_terminal_input_start ctx);
            write_to_pty bytes ctx.
End ops.
End Keyboard.
