(* ===== verification/KeyProps.v ===== *)
(** Properties of the keyboard input: the sequence of a key is read back by a decoder of the
    protocol, distinct keys have distinct sequences, and the modes in which a key sends nothing. *)
From S2P Require Import Prelude Index Cells TermData Searches ViModes Keys Bindings DefaultBindings BindingProps Keyboards.
Import Stdlib.Strings.String.StringSyntax.
#[local] Open Scope N_scope.

(** * Decimal numbers *)

Definition is_digit (ch : char) : bool := (48 <=? ch) && (ch <=? 57).
Definition decimal (acc ch : N) : N := acc * 10 + (ch - 48).
Definition value (t : text) : N := foldl decimal 0 t.

Lemma digits_aux_value fuel n acc :
  n < 2 ^ N.of_nat fuel → fuel ≠ 0%nat → foldl decimal 0 (digits_aux fuel n acc) = foldl decimal n acc.
Proof.
  revert n acc. induction fuel as [|fuel IH]; intros n acc Hn Hf; [done|]. cbn [digits_aux].
  pose proof (N.div_mod' n 10). pose proof (N.mod_lt n 10 ltac:(done)).
  set (q := n / 10) in *. set (r := n mod 10) in *.
  assert (decimal q (48 + r) = n) as E by (unfold decimal; lia).
  destruct (N.eqb_spec q 0) as [E0|E0].
  - rewrite E0 in E. simpl. by rewrite E.
  - assert (fuel ≠ 0%nat) by (intros ->; change (2 ^ N.of_nat 1) with 2 in Hn; lia).
    rewrite IH; [simpl; by rewrite E| |done].
    rewrite Nat2N.inj_succ, N.pow_succ_r' in Hn. lia.
Qed.

Lemma value_digits n : value (digits n) = n.
Proof.
  unfold value, digits. rewrite digits_aux_value; [done| |done].
  destruct (decide (n = 0)) as [->|]; [done|].
  rewrite Nat2N.inj_succ, N2Nat.id. apply N.log2_spec. lia.
Qed.

Lemma digits_aux_digits fuel n acc :
  forallb is_digit acc = true → forallb is_digit (digits_aux fuel n acc) = true.
Proof.
  revert n acc. induction fuel as [|fuel IH]; intros n acc H; [done|]. cbn [digits_aux].
  assert (forallb is_digit ((48 + n mod 10) :: acc) = true) as H'.
  { cbn [forallb]. rewrite H. pose proof (N.mod_lt n 10 ltac:(done)) as Hm. revert Hm.
    generalize (n mod 10). intros r Hr. unfold is_digit. lia. }
  destruct (_ =? _); [done|]. by apply IH.
Qed.

Lemma digits_digits n : forallb is_digit (digits n) = true.
Proof. by apply digits_aux_digits. Qed.

Lemma digits_aux_nonempty fuel n acc : digits_aux fuel n acc = [] → acc = [] ∧ fuel = 0%nat.
Proof.
  revert n acc. induction fuel as [|fuel IH]; intros n acc; cbn [digits_aux]; [done|].
  destruct (_ =? _); [done|]. by intros [? _]%IH.
Qed.

Lemma digits_nonempty n : digits n ≠ [].
Proof. unfold digits. intros [_ E]%digits_aux_nonempty. done. Qed.

(** * Parameters of a sequence *)

Lemma split_on_plain sep t : sep ∉ t → split_on sep t = [t].
Proof.
  induction t as [|ch t IH]; intros Hn; [done|]. simpl. rewrite IH by set_solver.
  destruct (N.eqb_spec ch sep); [set_solver|done].
Qed.

Lemma split_on_nonempty sep t : split_on sep t ≠ [].
Proof.
  destruct t as [|ch t]; simpl; [done|]. destruct (split_on sep t), (ch =? sep); done.
Qed.

Lemma split_on_app sep t u : sep ∉ t → split_on sep (t ++ sep :: u) = t :: split_on sep u.
Proof.
  induction t as [|ch t IH]; intros Hn; simpl.
  - rewrite N.eqb_refl. pose proof (split_on_nonempty sep u). by destruct (split_on sep u).
  - rewrite IH by set_solver. destruct (N.eqb_spec ch sep); [set_solver|done].
Qed.

Lemma digit_not sep t : forallb is_digit t = true → is_digit sep = false → sep ∉ t.
Proof.
  rewrite forallb_forall. intros Ht Hs Hin. apply list_elem_of_In, Ht in Hin. congruence.
Qed.

(** The decoder: [ESC \[], parameters separated by semicolons, their parts by colons, and a
    final character.  The first number may only be left out when no other parameter follows. *)
Record Report := mkReport {
  number : N;
  alternate : option N;
  report_mods : N;
  report_event : N;
  report_text : list N;
  final : char;
}.
Definition number_or (default : N) (t : text) : N :=
  match t with [] => default | _ => value t end.
Definition part (default : N) (o : option text) : N :=
  match o with Some t => number_or default t | None => default end.
Definition decode (bytes : list N) : option Report :=
  match bytes with
  | 27 :: 91 :: rest =>
      final ← last rest;
      let params := split_on 58 <$> split_on 59 (removelast rest) in
      let key := default [] (params !! 0%nat) in
      let mods := default [] (params !! 1%nat) in
      _ ← ensure (negb (bool_decide (key = [[]])) || (length params =? 1)%nat);
      Some (mkReport (part 1 (key !! 0%nat)) (value <$> key !! 1%nat)
              (part 1 (mods !! 0%nat)) (part 1 (mods !! 1%nat))
              (value <$> default [] (params !! 2%nat)) final)
  | _ => None
  end.

(** A parameter made of its parts, and parameters put together. *)
Fixpoint join (sep : char) (l : list text) : text :=
  match l with
  | [] => []
  | [t] => t
  | t :: l => t ++ sep :: join sep l
  end.

Lemma split_on_join sep l :
  l ≠ [] → Forall (λ t, sep ∉ t) l → split_on sep (join sep l) = l.
Proof.
  intros Hl H. induction H as [|t l Ht H IH]; [done|].
  destruct l as [|u l]; [by apply split_on_plain|].
  change (join sep (t :: u :: l)) with (t ++ sep :: join sep (u :: l)).
  by rewrite split_on_app, IH.
Qed.

(** The parameters [ps], each a list of parts made of digits. *)
Definition numeric (t : text) : Prop := forallb is_digit t = true.
Definition encode_params (ps : list (list text)) : text := join 59 (join 58 <$> ps).

Lemma join_not sep ch l : sep ≠ ch → Forall (λ t, ch ∉ t) l → ch ∉ join sep l.
Proof.
  intros Hs H. induction H as [|t l Ht H IH]; [simpl; set_solver|].
  destruct l as [|u l]; [done|].
  change (join sep (t :: u :: l)) with (t ++ sep :: join sep (u :: l)). set_solver.
Qed.

Lemma numeric_not t sep : is_digit sep = false → numeric t → sep ∉ t.
Proof. intros. by apply digit_not. Qed.

Lemma split_params ps :
  ps ≠ [] → Forall (λ p, p ≠ [] ∧ Forall numeric p) ps →
  split_on 58 <$> split_on 59 (encode_params ps) = ps.
Proof.
  intros Hne H. unfold encode_params. rewrite split_on_join.
  - rewrite <- list_fmap_compose. rewrite <- (list_fmap_id ps) at 2. apply list_fmap_ext.
    intros i p Hp. rewrite Forall_lookup in H. destruct (H _ _ Hp) as [Hn Hd]. simpl.
    apply split_on_join; [done|]. eapply Forall_impl; [done|]. intros t. by apply numeric_not.
  - by destruct ps.
  - rewrite Forall_fmap. eapply Forall_impl; [done|]. intros p [_ Hd]. simpl.
    apply join_not; [done|]. eapply Forall_impl; [done|]. intros t. by apply numeric_not.
Qed.

(** * Bytes *)

Lemma to_bytes_ascii t : forallb (λ ch, ch <? 128) t = true → to_bytes t = t.
Proof.
  unfold to_bytes. induction t as [|ch t IH]; [done|]. rewrite fmap_cons. cbn [concat forallb].
  intros [Hc Ht]%andb_true_iff. unfold encode_utf8 at 1. by rewrite Hc, IH.
Qed.

Lemma ascii_app t u :
  forallb (λ ch, ch <? 128) (t ++ u) = forallb (λ ch, ch <? 128) t && forallb (λ ch, ch <? 128) u.
Proof. apply forallb_app. Qed.

Lemma numeric_ascii t : numeric t → forallb (λ ch, ch <? 128) t = true.
Proof.
  unfold numeric. rewrite !forallb_forall. intros H ch Hch. specialize (H ch Hch).
  unfold is_digit in H. lia.
Qed.

Lemma join_ascii sep l :
  sep < 128 → Forall (λ t, forallb (λ ch, ch <? 128) t = true) l →
  forallb (λ ch, ch <? 128) (join sep l) = true.
Proof.
  intros Hs H. induction H as [|t l Ht H IH]; [done|]. destruct l as [|u l]; [done|].
  change (join sep (t :: u :: l)) with (t ++ sep :: join sep (u :: l)).
  rewrite ascii_app. cbn [forallb]. rewrite Ht, IH. lia.
Qed.

Lemma params_ascii ps :
  Forall (Forall numeric) ps → forallb (λ ch, ch <? 128) (encode_params ps) = true.
Proof.
  intros H. apply join_ascii; [done|]. rewrite Forall_fmap. eapply Forall_impl; [done|].
  intros p Hp. simpl. apply join_ascii; [done|]. eapply Forall_impl; [done|]. apply numeric_ascii.
Qed.

(** A control character is one byte: the characters U+0080 to U+009F take two, so that only C0 and
    U+007F are recognised. *)
Definition control (t : text) : bool :=
  match t with [ch] => (ch <? 32) || (ch =? 127) | _ => false end.

Lemma encode_utf8_length ch :
  (length (encode_utf8 ch) = 1%nat ∧ ch < 128 ∧ encode_utf8 ch = [ch])
  ∨ (2 ≤ length (encode_utf8 ch))%nat ∧ 128 ≤ ch.
Proof.
  unfold encode_utf8. destruct (N.ltb_spec ch 128); [by left|right].
  split; [|done]. destruct (ch <? 2048); [simpl; lia|]. destruct (ch <? 65536); simpl; lia.
Qed.

Lemma is_control_character_ok t : t ≠ [] → is_control_character t = Some (control t).
Proof.
  intros Ht. destruct t as [|ch t]; [done|]. unfold is_control_character, to_bytes.
  rewrite fmap_cons. cbn [concat].
  destruct (encode_utf8_length ch) as [(El & Hc & E)|[Hl Hc]].
  - rewrite E. simpl. f_equal. destruct t as [|ch' t]; simpl.
    + lia.
    + destruct (encode_utf8_length ch') as [(El' & _)|[Hl' _]];
        rewrite length_app; destruct (Nat.eqb_spec (S (length (encode_utf8 ch') + length (concat (encode_utf8 <$> t)))) 1); lia.
  - destruct (encode_utf8 ch) as [|b bs] eqn:Eb; [simpl in Hl; lia|]. simpl. f_equal.
    rewrite length_app. simpl in Hl.
    destruct (Nat.eqb_spec (S (length bs + length (concat (encode_utf8 <$> t)))) 1); [lia|].
    simpl. destruct t; [lia|done].
Qed.


(** The payload and the parameters that follow it are decoded. *)
Definition followed (parts : list text) (rest : list (list text)) : Prop :=
  parts = [[]] → rest = [].

Lemma decode_params ps parts rest final :
  ps = parts :: rest → followed parts rest →
  Forall (λ p, p ≠ [] ∧ Forall numeric p) ps →
  decode ([ESC; 91] ++ encode_params ps ++ [final]) =
  Some (mkReport (part 1 (parts !! 0%nat)) (value <$> parts !! 1%nat)
          (part 1 (default [] (rest !! 0%nat) !! 0%nat))
          (part 1 (default [] (rest !! 0%nat) !! 1%nat))
          (value <$> default [] (rest !! 1%nat)) final).
Proof.
  intros -> Hf Hps. unfold decode, ESC. cbn [app]. rewrite last_snoc, removelast_last.
  cbn [mbind option_bind]. rewrite split_params by done. cbn -[value].
  destruct (decide (parts = [[]])) as [->|Hn].
  - assert (rest = []) as -> by auto. reflexivity.
  - rewrite bool_decide_eq_false_2 by done. reflexivity.
Qed.

(** * What is built *)

Section Sequences.
Context `{Unicode} `{Winit}.
Implicit Types (key : KeyEvent) (mode : TermMode).

(** The modifiers of a sequence: those of the event, a modifier key applied to itself. *)
Definition effective key (mods : ModifiersState) : N :=
  let m := SequenceModifiers.from mods in
  let press := bool_decide (key_state key = Pressed) in
  match logical_key key with
  | Named NamedKey.Shift => SequenceModifiers.set SequenceModifiers.SHIFT press m
  | Named NamedKey.Control => SequenceModifiers.set SequenceModifiers.CONTROL press m
  | Named NamedKey.Alt => SequenceModifiers.set SequenceModifiers.ALT press m
  | Named NamedKey.Super => SequenceModifiers.set SequenceModifiers.SUPER press m
  | _ => m
  end.

Lemma effective_bound key mods : effective key mods < 16.
Proof.
  apply N.ltb_lt. unfold effective.
  destruct mods as [[] [] [] []], (bool_decide _), (logical_key key) as [[]| |]; reflexivity.
Qed.

Lemma from_zero mods : SequenceModifiers.from mods = 0 ↔ mods = ModifiersState.empty.
Proof. by destruct mods as [[] [] [] []]. Qed.

Lemma from_shift mods :
  Flags.contains (SequenceModifiers.from mods) SequenceModifiers.SHIFT = shift_key mods.
Proof. by destruct mods as [[] [] [] []]. Qed.

Definition base_parts (b : SequenceBase) (parts : list text) : Prop :=
  payload b = join 58 parts ∧ parts ≠ [] ∧ Forall numeric parts
  ∧ (terminator_char (terminator b) <? 128) = true.

(** The tables: numbers, and no modifier key. *)
Definition plain (b : SequenceBase) : bool :=
  forallb is_digit (payload b) && (terminator_char (terminator b) <? 128).

Lemma plain_parts b : plain b = true → base_parts b [payload b].
Proof. intros [? ?]%andb_true_iff. split_and!; [done|done|by constructor|done]. Qed.

Definition own_modifier (k : Key) : bool :=
  match k with
  | Named (NamedKey.Shift | NamedKey.Control | NamedKey.Alt | NamedKey.Super) => true
  | _ => false
  end.

Lemma effective_plain key mods :
  own_modifier (logical_key key) = false → effective key mods = SequenceModifiers.from mods.
Proof. unfold effective. by destruct (logical_key key) as [[]| |]. Qed.

(** A base from a table. *)
Definition table_base (k : Key) (b : SequenceBase) : Prop :=
  plain b = true ∧ payload b ≠ [] ∧ own_modifier k = false.

Lemma numpad_base_ok k b : SequenceBuilder.numpad_base k = Some b → table_base k b.
Proof.
  unfold SequenceBuilder.numpad_base, table_base.
  repeat case_match; intros; simplify_eq; by vm_compute.
Qed.

Lemma kitty_base_ok named b : SequenceBuilder.kitty_base named = Some b → table_base (Named named) b.
Proof. unfold table_base. destruct named; intros [= <-]; by vm_compute. Qed.

Lemma normal_base_ok one named b :
  numeric one → SequenceBuilder.normal_base one named = Some b →
  plain b = true ∧ own_modifier (Named named) = false ∧ (payload b = [] → one = []).
Proof.
  intros Ho. unfold plain.
  destruct named; intros [= <-]; cbn [payload terminator]; rewrite ?Ho; by vm_compute.
Qed.

(** The character of a key is one of the numbers of its sequence, unless shift is held and the
    alternate keys are not reported. *)
Definition recovers key (mods : ModifiersState) mode (n : N) (alt : option N) : Prop :=
  ∀ ch, logical_key key = Character [ch] → key_location key ≠ WinitKeyLocation.Numpad →
    shift_key mods = false ∨ TermMode.contains mode TermMode.REPORT_ALTERNATE_KEYS = true →
    default n alt = ch.

(** What a builder returns: the parts of the number, which are only empty in a sequence without
    parameters. *)
Definition built key (mods : ModifiersState) mode (assoc : option text) (b : SequenceBase) (m : N)
    : Prop :=
  m = effective key mods ∧
  ∃ parts, base_parts b parts
    ∧ (parts = [[]] →
       m = 0 ∧ kitty_event_type (builder key mods mode) = false ∧ assoc = None)
    ∧ recovers key mods mode (part 1 (parts !! 0%nat)) (value <$> parts !! 1%nat).

Lemma built_plain key mods mode assoc b :
  plain b = true → own_modifier (logical_key key) = false →
  (payload b = [] → mods = ModifiersState.empty
                  ∧ kitty_event_type (builder key mods mode) = false ∧ assoc = None) →
  (∀ ch, logical_key key = Character [ch] → key_location key = WinitKeyLocation.Numpad) →
  built key mods mode assoc b (SequenceModifiers.from mods).
Proof.
  intros Hp Ho He Hc. split; [by rewrite effective_plain|]. exists [payload b].
  split_and!; [by apply plain_parts| |].
  - intros [= E]. destruct (He E) as (-> & ? & ?). done.
  - intros ch Hch Hl. by apply Hc in Hch.
Qed.

Lemma numpad_built key mods mode assoc b :
  SequenceBuilder.try_build_numpad (builder key mods mode) key = Some b →
  built key mods mode assoc b (SequenceModifiers.from mods).
Proof.
  unfold SequenceBuilder.try_build_numpad. destruct (_ || _) eqn:Eq; [done|].
  intros (? & ? & ?)%numpad_base_ok. apply built_plain; [done..|].
  apply orb_false_iff in Eq as [_ Eq]. rewrite negb_false_iff, bool_decide_eq_true in Eq. done.
Qed.

Lemma kitty_built key mods mode assoc b :
  SequenceBuilder.try_build_named_kitty (builder key mods mode) key = Some b →
  built key mods mode assoc b (SequenceModifiers.from mods).
Proof.
  unfold SequenceBuilder.try_build_named_kitty. destruct (logical_key key) as [named| |] eqn:El; [|done..].
  destruct (kitty_seq _); [|done]. intros (? & ? & ?)%kitty_base_ok.
  apply built_plain; rewrite ?El; done.
Qed.

Lemma normal_built key mods mode assoc b :
  SequenceBuilder.try_build_named_normal (builder key mods mode) key
    (bool_decide (is_Some assoc)) = Some b →
  built key mods mode assoc b (SequenceModifiers.from mods).
Proof.
  unfold SequenceBuilder.try_build_named_normal.
  destruct (logical_key key) as [named| |] eqn:El; [|done..].
  destruct (_ && _) eqn:Eo; (intros (Hp & Ho & He)%normal_base_ok; [|by vm_compute]);
    (apply built_plain; rewrite ?El; [done..| |done]); intros E; [|by apply He in E].
  rewrite !andb_true_iff, !negb_true_iff, N.eqb_eq, bool_decide_eq_false in Eo.
  destruct Eo as ((Em & ?) & Ea). apply from_zero in Em. rewrite eq_None_not_Some. done.
Qed.

Lemma modifier_base_ok named location base :
  numeric base → numeric (SequenceBuilder.modifier_base named location base).
Proof. intros Hb. destruct named; try exact Hb; by destruct location. Qed.

Lemma control_built key mods mode assoc b m :
  SequenceBuilder.try_build_control_char_or_mod (builder key mods mode) key
    (SequenceModifiers.from mods) = (Some b, m) →
  built key mods mode assoc b m.
Proof.
  unfold SequenceBuilder.try_build_control_char_or_mod. destruct (_ && _); [done|].
  destruct (logical_key key) as [named| |] eqn:El; [|done..].
  destruct (_ && _); [done|]. case_bool_decide as Eb; intros [= <- <-].
  split; [by unfold effective; rewrite El; destruct named|].
  exists [SequenceBuilder.modifier_base named (key_location key) (SequenceBuilder.control_base named)].
  split_and!.
  - split_and!; [done|done| |done]. constructor; [|done]. apply modifier_base_ok. by destruct named.
  - intros [= ?]. done.
  - intros ch Hch. congruence.
Qed.

Lemma number_or_digits d n : number_or d (digits n) = n.
Proof. pose proof (digits_nonempty n). rewrite <- (value_digits n) at 2. by destruct (digits n). Qed.

Lemma textual_built key mods mode assoc :
  ∃ ob, SequenceBuilder.try_build_textual (builder key mods mode) key assoc = Some ob ∧
    ∀ b, ob = Some b → built key mods mode assoc b (SequenceModifiers.from mods).
Proof.
  unfold SequenceBuilder.try_build_textual.
  destruct (logical_key key) as [|t|] eqn:El; [by exists None| |by exists None].
  destruct (kitty_seq _); [|by exists None].
  assert (∀ b parts, base_parts b parts → parts ≠ [[]] →
            recovers key mods mode (part 1 (parts !! 0%nat)) (value <$> parts !! 1%nat) →
            built key mods mode assoc b (SequenceModifiers.from mods)) as Hb.
  { intros b parts Hp Hne Hr. split; [by rewrite effective_plain; rewrite ?El|].
    exists parts. split_and!; [done|by intros|done]. }
  destruct t as [|ch [|ch' t]].
  - destruct (_ && _); [|by exists None]. eexists. split; [done|]. intros b [= <-].
    apply (Hb _ [str "0"]); [split_and!; [done|done|by repeat constructor|done]|done|].
    unfold recovers. congruence.
  - cbn [builder modifiers builder_mode]. rewrite from_shift.
    assert (∃ u, (if shift_key mods then head (char_to_lowercase ch) else Some ch) = Some u
              ∧ (shift_key mods = false → u = ch)) as (u & -> & Hu).
    { destruct (shift_key mods); [|by eauto]. pose proof (char_to_lowercase_nonempty ch).
      destruct (char_to_lowercase ch) as [|u us]; [done|]. by exists u. }
    cbn [mbind option_bind]. eexists. split; [done|]. intros b [= <-].
    set (code := if shift_key mods && (ch =? u) then _ else _).
    assert (shift_key mods = false → code = ch) as Hc.
    { intros E. unfold code. rewrite E. by apply Hu. }
    clearbody code. destruct (_ && negb _) eqn:Ea.
    + apply (Hb _ [digits code; digits ch]); [| |].
      * split_and!; [done|done| |done]. repeat constructor; apply digits_digits.
      * done.
      * unfold recovers. rewrite El. intros ? [= <-] _ _. apply value_digits.
    + apply (Hb _ [digits code]).
      * split_and!; [done|done| |done]. repeat constructor; apply digits_digits.
      * intros [= E%digits_nonempty]. done.
      * unfold recovers. rewrite El. intros ? [= <-] _ Hr. simpl. rewrite number_or_digits.
        destruct Hr as [Hr|Hr]; [by apply Hc|]. rewrite Hr in Ea. simpl in Ea.
        rewrite negb_false_iff, N.eqb_eq in Ea. done.
  - destruct (_ && _); [|by exists None]. eexists. split; [done|]. intros b [= <-].
    apply (Hb _ [str "0"]); [split_and!; [done|done|by repeat constructor|done]|done|].
    unfold recovers. congruence.
Qed.

(** A key that is not named leaves the modifiers as they are, a named one has no text. *)
Lemma control_none key mods mode assoc m b :
  SequenceBuilder.try_build_control_char_or_mod (builder key mods mode) key
    (SequenceModifiers.from mods) = (None, m) →
  SequenceBuilder.try_build_textual (builder key mods mode) key assoc = Some (Some b) →
  m = SequenceModifiers.from mods.
Proof.
  unfold SequenceBuilder.try_build_control_char_or_mod, SequenceBuilder.try_build_textual.
  destruct (_ && _); [by intros [= <-]|]. destruct (logical_key key); [done|by intros [= <-]|done].
Qed.

Lemma try_build_built key mods mode assoc :
  ∃ ob m, SequenceBuilder.try_build (builder key mods mode) key assoc
            (SequenceModifiers.from mods) = Some (ob, m) ∧
    ∀ b, ob = Some b → built key mods mode assoc b m.
Proof.
  unfold SequenceBuilder.try_build.
  destruct (SequenceBuilder.try_build_numpad _ _) as [b|] eqn:E1.
  { eexists _, _. split; [done|]. intros ? [= <-]. by apply numpad_built. }
  destruct (SequenceBuilder.try_build_named_kitty _ _) as [b|] eqn:E2.
  { eexists _, _. split; [done|]. intros ? [= <-]. by apply kitty_built. }
  destruct (SequenceBuilder.try_build_named_normal _ _ _) as [b|] eqn:E3.
  { eexists _, _. split; [done|]. intros ? [= <-]. by apply normal_built. }
  destruct (SequenceBuilder.try_build_control_char_or_mod _ _ _) as [[b|] m] eqn:E4.
  { eexists _, _. split; [done|]. intros ? [= <-]. by apply control_built. }
  destruct (textual_built key mods mode assoc) as (ob & Et & Hb). rewrite Et.
  eexists _, _. split; [done|]. intros b ->. by rewrite (control_none _ _ _ _ _ _ E4 Et); auto.
Qed.

(** ** The parameters *)

(** The event that is reported, a press by default. *)
Definition expected_event key mode : N :=
  if TermMode.contains mode TermMode.REPORT_EVENT_TYPES
  then if key_repeat key then 2 else match key_state key with Pressed => 1 | Released => 3 end
  else 1.

Definition expected_text key mode : text :=
  let t := default [] (text_with_all_modifiers key) in
  if TermMode.contains mode TermMode.REPORT_ASSOCIATED_TEXT
     && bool_decide (key_state key = Pressed) && negb (control t)
  then t else [].

Lemma associated_text_ok key mode :
  ∃ assoc, associated_text key mode = Some assoc ∧ default [] assoc = expected_text key mode
         ∧ assoc ≠ Some [].
Proof.
  unfold associated_text, expected_text. destruct (text_with_all_modifiers key) as [t|]; simpl.
  2: { exists None. split_and!; [done| |done]. by destruct (_ && _). }
  assert (negb (bool_decide (key_state key = Released)) = bool_decide (key_state key = Pressed)) as ->
    by (destruct (key_state key); done).
  destruct (TermMode.contains mode TermMode.REPORT_ASSOCIATED_TEXT
            && bool_decide (key_state key = Pressed)); cbn [andb]; [|by exists None].
  destruct (decide (t = [])) as [->|Ht]; [by exists None|].
  rewrite bool_decide_eq_false_2, is_control_character_ok by done. simpl.
  destruct (control t); simpl; [by exists None|]. exists (Some t). naive_solver.
Qed.

Lemma join_cons sep d ds : join sep (d :: ds) = d ++ concat ((λ d, sep :: d) <$> ds).
Proof.
  revert d. induction ds as [|e ds IH]; intros d; [by rewrite app_nil_r|].
  change (join sep (d :: e :: ds)) with (d ++ sep :: join sep (e :: ds)). by rewrite IH.
Qed.

Lemma encode_params_cons p ps :
  encode_params (p :: ps) = join 58 p ++ concat ((λ p, 59 :: join 58 p) <$> ps).
Proof. unfold encode_params. by rewrite fmap_cons, join_cons, <- list_fmap_compose. Qed.

Lemma text_parameter_ok t : t ≠ [] → text_parameter t = 59 :: join 58 (digits <$> t).
Proof.
  destruct t as [|ch t]; [done|]. intros _. rewrite fmap_cons, join_cons.
  by rewrite <- list_fmap_compose.
Qed.

(** The parameters after the number. *)
Definition parameters key mods mode assoc (m : N) : list (list text) :=
  let ev := kitty_event_type (builder key mods mode) in
  (if ev || negb (m =? 0) || bool_decide (is_Some assoc)
   then [digits (m + 1) :: if ev then [[event_type key]] else []] else [])
  ++ match assoc with Some t => [digits <$> t] | None => [] end.

Lemma parameters_numeric key mods mode assoc m :
  assoc ≠ Some [] →
  Forall (λ p, p ≠ [] ∧ Forall numeric p) (parameters key mods mode assoc m).
Proof.
  intros Ha. unfold parameters. apply Forall_app. split.
  - destruct (_ || _); [|done]. constructor; [|done]. split; [done|].
    constructor; [apply digits_digits|]. destruct (kitty_event_type _); [|done].
    repeat constructor. unfold event_type. by destruct (key_repeat key), (key_state key).
  - destruct assoc as [t|]; [|done]. constructor; [|done]. split; [by destruct t|].
    apply Forall_fmap, Forall_true. intros ch. apply digits_digits.
Qed.

(** The way [build_sequence] puts the parameters together. *)
Lemma put_together s key (ev : bool) assoc m :
  assoc ≠ Some [] →
  let s1 := if ev || negb (m =? 0) || bool_decide (is_Some assoc)
            then s ++ [59] ++ digits (m + 1) else s in
  let s2 := if ev then s1 ++ [58; event_type key] else s1 in
  match assoc with Some t => s2 ++ text_parameter t | None => s2 end
  = s ++ concat ((λ p, 59 :: join 58 p) <$>
      (if ev || negb (m =? 0) || bool_decide (is_Some assoc)
       then [digits (m + 1) :: if ev then [[event_type key]] else []] else [])
      ++ match assoc with Some t => [digits <$> t] | None => [] end).
Proof.
  intros Ha. destruct assoc as [t|].
  - rewrite text_parameter_ok by congruence.
    rewrite (bool_decide_eq_true_2 (is_Some (Some t))), orb_true_r by eauto.
    destruct ev; simpl; by rewrite <- ?app_assoc, ?app_nil_r.
  - rewrite (bool_decide_eq_false_2 (is_Some None)) by (intros []; done).
    destruct ev, (m =? 0); simpl; by rewrite <- ?app_assoc, ?app_nil_r.
Qed.

Lemma build_sequence_params key mods mode :
  ∃ ob m assoc, build_sequence key mods mode =
      Some (match ob with
            | None => []
            | Some (parts, final) =>
                [ESC; 91] ++ encode_params (parts :: parameters key mods mode assoc m) ++ [final]
            end)
    ∧ default [] assoc = expected_text key mode ∧ assoc ≠ Some [] ∧
    (∀ parts final, ob = Some (parts, final) →
      ∃ b, SequenceBuilder.try_build (builder key mods mode) key assoc
             (SequenceModifiers.from mods) = Some (Some b, m)
        ∧ built key mods mode assoc b m ∧ base_parts b parts
        ∧ final = terminator_char (terminator b) ∧ followed parts (parameters key mods mode assoc m)
        ∧ recovers key mods mode (part 1 (parts !! 0%nat)) (value <$> parts !! 1%nat)) ∧
    (ob = None → SequenceBuilder.try_build (builder key mods mode) key assoc
                   (SequenceModifiers.from mods) = Some (None, m)).
Proof.
  destruct (associated_text_ok key mode) as (assoc & Ea & Et & Hne).
  destruct (try_build_built key mods mode assoc) as (ob & m & Eb & Hb).
  unfold build_sequence. rewrite Ea. cbn [mbind option_bind builder modifiers].
  change (mkSequenceBuilder _ _ _ _ _) with (builder key mods mode). rewrite Eb.
  cbn [mbind option_bind]. destruct ob as [b|].
  2: { exists None, m, assoc. by split_and!. }
  destruct (Hb b eq_refl) as (-> & parts & Hp & He & Hr).
  exists (Some (parts, terminator_char (terminator b))), (effective key mods), assoc.
  assert (followed parts (parameters key mods mode assoc (effective key mods))) as Hf.
  { intros (E1 & E2 & E3)%He. unfold parameters. by rewrite E1, E2, E3. }
  split_and!; [|done|done|by intros ? ? [= <- <-]; eauto 10|done].
  pose proof (effective_bound key mods) as Hm.
  unfold SequenceModifiers.encode_esc_sequence.
  rewrite (proj2 (N.ltb_lt (effective key mods + 1) 256)) by lia. cbn [mbind option_bind].
  set (ev := kitty_event_type (builder key mods mode)).
  destruct Hp as (-> & Hpn & Hpd & Hfin).
  pose proof (put_together ([ESC; 91] ++ join 58 parts) key ev assoc (effective key mods) Hne) as Ep.
  cbv zeta in Ep.
  assert (to_bytes (([ESC; 91] ++ encode_params (parts :: parameters key mods mode assoc
                      (effective key mods))) ++ [terminator_char (terminator b)])
          = ([ESC; 91] ++ encode_params (parts :: parameters key mods mode assoc
                      (effective key mods))) ++ [terminator_char (terminator b)]) as Eby.
  { apply to_bytes_ascii. rewrite !ascii_app. cbn [forallb].
    rewrite params_ascii, Hfin; [done|]. constructor; [done|].
    eapply Forall_impl; [by apply parameters_numeric|]. by intros p []. }
  rewrite encode_params_cons, app_assoc in Eby. rewrite encode_params_cons.
  rewrite (app_assoc [ESC; 91]), (app_assoc [ESC; 91]), <- Eby.
  unfold parameters. cbv zeta. fold ev. rewrite <- Ep.
  by destruct (ev || negb (effective key mods =? 0) || bool_decide (is_Some assoc)).
Qed.

(** What the decoder reads from the parameters. *)
Lemma values_digits (t : text) : value <$> (digits <$> t) = t.
Proof.
  rewrite <- list_fmap_compose. rewrite <- (list_fmap_id t) at 2. apply list_fmap_ext.
  intros i x _. apply value_digits.
Qed.

Lemma event_read key mods mode :
  let ev := kitty_event_type (builder key mods mode) in
  part 1 ((if ev then [[event_type key]] else []) !! 0%nat) = expected_event key mode.
Proof.
  cbn [builder kitty_event_type]. unfold expected_event, event_type.
  destruct (TermMode.contains mode TermMode.REPORT_EVENT_TYPES), (key_repeat key), (key_state key);
    reflexivity.
Qed.

Lemma parameters_read key mods mode assoc m :
  let ps := parameters key mods mode assoc m in
  part 1 (default [] (ps !! 0%nat) !! 0%nat) = m + 1
  ∧ part 1 (default [] (ps !! 0%nat) !! 1%nat) = expected_event key mode
  ∧ value <$> default [] (ps !! 1%nat) = default [] assoc.
Proof.
  cbv zeta. pose proof (event_read key mods mode) as Ev. cbv zeta in Ev. unfold parameters. cbv zeta.
  destruct (kitty_event_type _ || _ || _) eqn:Ec.
  - cbn -[digits value number_or kitty_event_type]. rewrite number_or_digits.
    split_and!; [done|done|]. destruct assoc as [t|]; [|done]. simpl. apply values_digits.
  - rewrite !orb_false_iff, bool_decide_eq_false, negb_false_iff, N.eqb_eq in Ec.
    destruct Ec as ((Ee & ->) & Ea). rewrite Ee in Ev. rewrite <- eq_None_not_Some in Ea.
    rewrite Ea. by split_and!.
Qed.

Definition encodes_all mode : Prop := TermMode.contains mode TermMode.REPORT_ALL_KEYS_AS_ESC = true.

Lemma encodes_all_kitty mode : encodes_all mode → Flags.intersects mode kitty_modes = true.
Proof.
  unfold encodes_all, TermMode.contains. rewrite N.eqb_eq, intersects_true. intros E E0.
  apply (f_equal (λ n, N.testbit n 21)) in E, E0. unfold kitty_modes in E0.
  rewrite N.land_spec in E, E0. by destruct (N.testbit mode 21).
Qed.

(** Whether a key has a sequence: a named key that is in the tables for its mode, and in the modes of the
    protocol a key with one character or on the numeric pad, or any key with text when all keys are
    reported. *)
Definition has_encoding key mode : bool :=
  let protocol := Flags.intersects mode kitty_modes in
  let all := TermMode.contains mode TermMode.REPORT_ALL_KEYS_AS_ESC in
  let numpad := bool_decide (key_location key = WinitKeyLocation.Numpad)
                && bool_decide (is_Some (SequenceBuilder.numpad_base (logical_key key))) in
  match logical_key key with
  | Named named =>
      bool_decide (is_Some (SequenceBuilder.normal_base [] named))
      || protocol && (numpad || bool_decide (is_Some (SequenceBuilder.kitty_base named))
                      || negb (bool_decide (SequenceBuilder.control_base named = [])))
      || all && negb (bool_decide (SequenceBuilder.modifier_base named (key_location key) [] = []))
  | Character t =>
      protocol && (numpad || (length t =? 1)%nat || all && negb (bool_decide (expected_text key mode = [])))
  | _ => false
  end.

Lemma numpad_text_base t b :
  SequenceBuilder.numpad_base (Character t) = Some b → length t = 1%nat.
Proof. destruct t as [|ch [|ch' t]]; [done|done|]. cbn. repeat case_match; done. Qed.

Lemma try_build_encoding key mods mode assoc ob m :
  default [] assoc = expected_text key mode → assoc ≠ Some [] →
  SequenceBuilder.try_build (builder key mods mode) key assoc (SequenceModifiers.from mods)
    = Some (ob, m) →
  bool_decide (is_Some ob) = has_encoding key mode.
Proof.
  intros Et Hne E. pose proof (encodes_all_kitty mode) as Hk. unfold encodes_all in Hk. revert E.
  unfold SequenceBuilder.try_build, SequenceBuilder.try_build_numpad, has_encoding,
    SequenceBuilder.try_build_named_kitty, SequenceBuilder.try_build_named_normal,
    SequenceBuilder.try_build_control_char_or_mod, SequenceBuilder.try_build_textual.
  rewrite <- Et. cbn [kitty_seq builder kitty_encode_all modifiers builder_mode].
  set (one := if _ : bool then [] else str "1"). clearbody one.
  set (all := TermMode.contains mode TermMode.REPORT_ALL_KEYS_AS_ESC) in *. clearbody all.
  set (protocol := Flags.intersects mode kitty_modes) in *. clearbody protocol.
  assert (implb all protocol = true) as Hap by (destruct all; [by rewrite Hk|done]). clear Hk Et.
  destruct (logical_key key) as [named|t|].
  - destruct all, protocol; try discriminate Hap;
      destruct named, (key_location key); cbn; intros [= <- <-]; reflexivity.
  - destruct protocol; cbn [negb orb andb]; [|destruct all; [done|cbn; by intros [= <- <-]]].
    destruct (bool_decide (key_location key = _) && _) eqn:En.
    + apply andb_true_iff in En as [-> [b ->]%bool_decide_eq_true]. cbn. by intros [= <- <-].
    + replace (if negb (bool_decide (key_location key = WinitKeyLocation.Numpad)) then None
        else SequenceBuilder.numpad_base (Character t)) with (None : option SequenceBase)
        by (destruct (bool_decide (key_location key = _)); [|done]; symmetry;
            apply eq_None_not_Some; by apply bool_decide_eq_false in En).
      rewrite andb_false_r. cbn [mbind option_bind orb negb].
      assert (bool_decide (is_Some assoc) = negb (bool_decide (default [] assoc = []))) as ->
        by (destruct assoc as [[|ch u]|]; done).
      destruct t as [|ch [|ch' t]]; cbn [length Nat.eqb orb].
      * destruct (all && _); by intros [= <- <-].
      * destruct (if Flags.contains _ _ then _ else _); [|done]. cbn [mbind option_bind].
        by intros [= <- <-].
      * destruct (all && _); by intros [= <- <-].
  - destruct (negb protocol || _), (negb all && _); by intros [= <- <-].
Qed.

(** C17.  Every key sequence follows the protocol: building one does not panic, and it is empty exactly
    for the keys without one.  A decoder of the control sequences reads back the modifiers (a
    modifier key counts for itself), the kind of the event, and the text the key produced, where
    the control characters of one byte do not count as text, but U+0080 to U+009F do.  For a key
    with one character that is not on the numeric pad it reads back the character, unless shift is
    held and the alternate keys are not reported. *)
Theorem build_sequence_decodes key mods mode :
  ∃ bytes, build_sequence key mods mode = Some bytes ∧
    if has_encoding key mode then
      ∃ r, decode bytes = Some r
       ∧ report_mods r = effective key mods + 1
       ∧ report_event r = expected_event key mode
       ∧ report_text r = expected_text key mode
       ∧ recovers key mods mode (number r) (alternate r)
    else bytes = [].
Proof.
  destruct (build_sequence_params key mods mode) as (ob & m & assoc & -> & Et & Hne & Hb & Hn).
  eexists. split; [done|]. destruct ob as [[parts final]|].
  2: { by rewrite <- (try_build_encoding _ _ _ _ _ _ Et Hne (Hn eq_refl)). }
  destruct (Hb _ _ eq_refl) as (b & Eb & [-> _] & (_ & Hpn & Hpd & _) & _ & Hf & Hr). clear Hb.
  rewrite <- (try_build_encoding _ _ _ _ _ _ Et Hne Eb), bool_decide_true by done.
  eexists. split; [apply decode_params; [done|done|]|].
  { constructor; [done|by apply parameters_numeric]. }
  cbn [report_mods report_event report_text number alternate]. rewrite <- Et.
  destruct (parameters_read key mods mode assoc (effective key mods)) as (? & ? & ?). done.
Qed.

(** ** Named keys *)

Definition all_named : list NamedKey.t :=
  [NamedKey.Enter; NamedKey.Tab; NamedKey.Space; NamedKey.Backspace; NamedKey.Escape;
   NamedKey.Copy; NamedKey.Paste; NamedKey.Insert; NamedKey.Delete; NamedKey.Home; NamedKey.End;
   NamedKey.PageUp; NamedKey.PageDown; NamedKey.ArrowLeft; NamedKey.ArrowRight; NamedKey.ArrowUp;
   NamedKey.ArrowDown; NamedKey.F1; NamedKey.F2; NamedKey.F3; NamedKey.F4; NamedKey.F5;
   NamedKey.F6; NamedKey.F7; NamedKey.F8; NamedKey.F9; NamedKey.F10; NamedKey.F11; NamedKey.F12;
   NamedKey.F13; NamedKey.F14; NamedKey.F15; NamedKey.F16; NamedKey.F17; NamedKey.F18;
   NamedKey.F19; NamedKey.F20; NamedKey.F21; NamedKey.F22; NamedKey.F23; NamedKey.F24;
   NamedKey.F25; NamedKey.F26; NamedKey.F27; NamedKey.F28; NamedKey.F29; NamedKey.F30;
   NamedKey.F31; NamedKey.F32; NamedKey.F33; NamedKey.F34; NamedKey.F35; NamedKey.ScrollLock;
   NamedKey.PrintScreen; NamedKey.Pause; NamedKey.ContextMenu; NamedKey.CapsLock;
   NamedKey.NumLock; NamedKey.MediaPlay; NamedKey.MediaPause; NamedKey.MediaPlayPause;
   NamedKey.MediaStop; NamedKey.MediaFastForward; NamedKey.MediaRewind; NamedKey.MediaTrackNext;
   NamedKey.MediaTrackPrevious; NamedKey.MediaRecord; NamedKey.AudioVolumeDown;
   NamedKey.AudioVolumeUp; NamedKey.AudioVolumeMute; NamedKey.Shift; NamedKey.Control;
   NamedKey.Alt; NamedKey.Super; NamedKey.Hyper; NamedKey.Meta].

(** The places of a key the protocol tells apart: the numeric pad, and the left side for a
    modifier key. *)
Inductive Place := AtLeft | OnNumpad | AnyPlace.
#[local] Instance Place_eq_dec : EqDecision Place.
Proof. solve_decision. Defined.
Definition sided (named : NamedKey.t) : bool :=
  match named with
  | NamedKey.Shift | NamedKey.Control | NamedKey.Alt | NamedKey.Super | NamedKey.Hyper
  | NamedKey.Meta => true
  | _ => false
  end.
Definition place (named : NamedKey.t) (location : WinitKeyLocation.t) : Place :=
  match location with
  | WinitKeyLocation.Numpad =>
      if bool_decide (is_Some (SequenceBuilder.numpad_base (Named named))) then OnNumpad else AnyPlace
  | WinitKeyLocation.Left => if sided named then AtLeft else AnyPlace
  | _ => AnyPlace
  end.
Definition location_of (p : Place) : WinitKeyLocation.t :=
  match p with
  | AtLeft => WinitKeyLocation.Left
  | OnNumpad => WinitKeyLocation.Numpad
  | AnyPlace => WinitKeyLocation.Standard
  end.

(** The number and the final character of a named key, by the tables of the protocol. *)
Definition code (named : NamedKey.t) (location : WinitKeyLocation.t) : option (N * char) :=
  let read b := (number_or 1 (payload b), terminator_char (terminator b)) in
  let numpad := if decide (location = WinitKeyLocation.Numpad)
                then SequenceBuilder.numpad_base (Named named) else None in
  match numpad with
  | Some b => Some (read b)
  | None =>
  match SequenceBuilder.kitty_base named with
  | Some b => Some (read b)
  | None =>
  match SequenceBuilder.normal_base [] named with
  | Some b => Some (read b)
  | None =>
      match SequenceBuilder.modifier_base named location (SequenceBuilder.control_base named) with
      | [] => None
      | t => Some (value t, 117)
      end
  end end end.

(** The key with a number and a final character. *)
Definition identify (n : N) (c : char) : option (NamedKey.t * Place) :=
  head (filter (λ '(named, p), code named (location_of p) = Some (n, c))
          (p ← [AnyPlace; AtLeft; OnNumpad]; named ← all_named; [(named, p)])).

Lemma identify_code named location n c :
  code named location = Some (n, c) → identify n c = Some (named, place named location).
Proof. destruct named, location; intros [= <- <-]; vm_compute; reflexivity. Qed.

(** In the mode that reports all keys, a named key is built from the tables. *)
Lemma named_built key mods mode assoc named ob m :
  encodes_all mode → logical_key key = Named named →
  SequenceBuilder.try_build (builder key mods mode) key assoc (SequenceModifiers.from mods)
    = Some (ob, m) →
  match ob with
  | None => code named (key_location key) = None
  | Some b =>
      forallb is_digit (payload b) = true ∧
      code named (key_location key) = Some (number_or 1 (payload b), terminator_char (terminator b))
  end.
Proof.
  intros Ha El. pose proof (encodes_all_kitty mode Ha) as Hk. unfold encodes_all in Ha.
  unfold SequenceBuilder.try_build, SequenceBuilder.try_build_numpad,
    SequenceBuilder.try_build_named_kitty, SequenceBuilder.try_build_named_normal,
    SequenceBuilder.try_build_control_char_or_mod, SequenceBuilder.try_build_textual, code.
  rewrite El. cbn [kitty_seq builder kitty_encode_all modifiers]. rewrite Ha, Hk.
  set (one := if _ : bool then [] else str "1"). assert (one = [] ∨ one = str "1") as Ho.
  { unfold one. by destruct (_ && _); [left|right]. }
  clearbody one. cbn [negb orb andb].
  destruct Ho as [-> | ->], named, (key_location key); intros [= <- <-]; by vm_compute.
Qed.

(** The single part of a payload that is a number. *)
Lemma plain_part b parts :
  base_parts b parts → forallb is_digit (payload b) = true → parts = [payload b].
Proof.
  intros (E & Hn & Hd & _) Hp. rewrite <- (split_on_join 58 parts); [|done|].
  - rewrite <- E. apply split_on_plain. by apply digit_not.
  - eapply Forall_impl; [done|]. intros t. by apply numeric_not.
Qed.

(**  In the mode that reports all keys as escape sequences, every named key of the protocol
    has a sequence, and the key and its place (the numeric pad, the left one of two modifiers) can
    be identified from it; other named keys have none. *)
Theorem named_key_identified key mods mode named :
  encodes_all mode → logical_key key = Named named →
  ∃ bytes, build_sequence key mods mode = Some bytes ∧
    match code named (key_location key) with
    | None => bytes = []
    | Some _ => ∃ r, decode bytes = Some r ∧
        identify (number r) (final r) = Some (named, place named (key_location key))
    end.
Proof.
  intros Ha El. destruct (build_sequence_params key mods mode) as (ob & m & assoc & -> & _ & Hne & Hb & Hn).
  eexists. split; [done|]. destruct ob as [[parts fin]|].
  - destruct (Hb _ _ eq_refl) as (b & Et & _ & Hp & -> & Hf & _).
    destruct (named_built _ _ _ _ _ _ _ Ha El Et) as [Hd Ec]. rewrite Ec.
    rewrite (plain_part _ _ Hp Hd) in *. clear Hb.
    eexists. split; [apply decode_params; [done|done|]|].
    + constructor; [|by apply parameters_numeric]. split; [done|]. by constructor.
    + by apply identify_code.
  - by rewrite (named_built _ _ _ _ _ _ _ Ha El (Hn eq_refl)).
Qed.
End Sequences.

(** * The input of a key *)

Section Input.
Context `{Unicode} `{Winit} `{!ActionContext}.
Import Keyboard.
Implicit Types (key : KeyEvent) (ctx : Ctx).

(** The bindings a key triggers. *)
Definition triggers key ctx (b : KeyBinding) : bool :=
  let mods := modifiers_state ctx in
  Binding.is_triggered_by b (BindingMode.new (term_mode ctx) (search_active ctx)) mods
    (binding_input key (binding_logical_key key mods) b).

Lemma run_binding_off key ctx logical mode mods b s :
  Binding.is_triggered_by b mode mods (binding_input key logical b) = false →
  run_binding key logical mode mods b (s, ctx) = Some (s, ctx).
Proof. intros Hb. unfold run_binding. by rewrite Hb. Qed.

Lemma run_bindings_none key ctx logical mode mods l s :
  Forall (λ b, Binding.is_triggered_by b mode mods (binding_input key logical b) = false) l →
  foldM (run_binding key logical mode mods) l (s, ctx) = Some (s, ctx).
Proof.
  induction 1 as [|b l Hb _ IH]; [done|]. cbn [foldM].
  rewrite (run_binding_off _ _ _ _ _ _ _ Hb). apply IH.
Qed.

Lemma no_bindings key ctx :
  Forall (λ b, triggers key ctx b = false) (key_bindings ++ hint_bindings) →
  process_key_bindings key ctx = Some (false, ctx).
Proof.
  intros [Hk Hh]%Forall_app. unfold process_key_bindings.
  rewrite run_bindings_none by done. cbn [mbind option_bind].
  by rewrite run_bindings_none by done.
Qed.

(** A context in which keys go to the terminal. *)
Record typing ctx : Prop := {
  typing_preedit : preedit ctx = false;
  typing_hint : hint_active ctx = false;
  typing_inline : char_pending ctx = false;
  typing_search : search_active ctx = false;
  typing_vi : TermMode.contains (term_mode ctx) TermMode.VI = false;
}.

Definition legacy mode : Prop :=
  TermMode.contains mode TermMode.REPORT_ALL_KEYS_AS_ESC = false
  ∧ TermMode.contains mode TermMode.DISAMBIGUATE_ESC_CODES = false.

Lemma to_bytes_nonempty t : t ≠ [] → to_bytes t ≠ [].
Proof.
  destruct t as [|ch t]; [done|]. unfold to_bytes. rewrite fmap_cons. cbn [concat]. intros _.
  destruct (encode_utf8_length ch) as [(_ & _ & ->)|[Hl _]]; [done|].
  destruct (encode_utf8 ch); [simpl in Hl; lia|done].
Qed.

(**  Without the kitty protocol a key with a character that triggers no binding sends its text
    as it is, after an escape character if the alt key is held and the text is one character. *)
Theorem text_sent key ctx ch t :
  typing ctx → legacy (term_mode ctx) → platform ≠ MacOS → key_state key = Pressed →
  logical_key key = Character ch → text_with_all_modifiers key = Some t → t ≠ [] →
  Forall (λ b, triggers key ctx b = false) (key_bindings ++ hint_bindings) →
  key_input key ctx =
    (ctx' ← on_terminal_input_start ctx;
     write_to_pty ((if alt_key (modifiers_state ctx) && (length t =? 1)%nat then [ESC] else [])
                   ++ to_bytes t) ctx').
Proof.
  intros [Hp Hh Hi Hs Hv] [Hl1 Hl2] Hm Hst El Et Hne Hb. unfold key_input.
  rewrite Hp, Hst, Et, Hh, Hi. cbn [default from_option].
  unfold reset_search_delay. rewrite decide_False, Hs by done. cbn [mbind option_bind].
  rewrite no_bindings by done. cbn [mbind option_bind]. rewrite Hs, Hv.
  unfold key_bytes, should_build_sequence, mask_alt, alt_send_esc, is_modifier_key.
  rewrite Hl1, Hl2, El, (decide_False (P := platform = MacOS)) by done. cbn [andb].
  rewrite (bool_decide_eq_false_2 (t = [])) by done. cbn [mbind option_bind].
  pose proof (to_bytes_nonempty t Hne) as Hn. change (id t) with t.
  assert (alt_key (if alt_key (modifiers_state ctx) && (length t =? 1)%nat then modifiers_state ctx
                   else ModifiersState.difference (modifiers_state ctx) ModifiersState.ALT)
          = alt_key (modifiers_state ctx) && (length t =? 1)%nat) as ->.
  { destruct (alt_key _ && _) eqn:E; [by apply andb_true_iff in E as [-> _]|].
    simpl. apply andb_false_r. }
  rewrite bool_decide_eq_false_2; [done|]. intros [_ E]%app_eq_nil. done.
Qed.

(** ** Modes in which nothing is sent *)

(** A property of the context that holds as long as nothing is sent to the program in the
    terminal: every operation but those that send keeps it. *)
Record silent (P : Ctx → Prop) : Prop := {
  silent_execute a ctx ctx' :
    writes a = false → pastes a = false → P ctx → execute a ctx = Some ctx' → P ctx';
  silent_hint ch ctx ctx' : P ctx → hint_input ch ctx = Some ctx' → P ctx';
  silent_inline t ctx ctx' : P ctx → inline_search_input t ctx = Some ctx' → P ctx';
  silent_search ch ctx ctx' : P ctx → search_input ch ctx = Some ctx' → P ctx';
  silent_ime b ctx ctx' : P ctx → set_ime_inhibitor_vi b ctx = Some ctx' → P ctx';
}.

(** An invariant of a loop that may panic. *)
Lemma foldM_inv {A St} (f : A → St → option St) (P : St → Prop) l s s' :
  (∀ a s s', a ∈ l → P s → f a s = Some s' → P s') → P s → foldM f l s = Some s' → P s'.
Proof.
  revert s. induction l as [|a l IH]; intros s Hf Hs; cbn [foldM]; [by intros [= <-]|].
  destruct (f a s) as [s1|] eqn:E; cbn [mbind option_bind]; [|done].
  apply IH.
  - intros b s2 s3 Hb. apply Hf. by apply list_elem_of_further.
  - apply (Hf a s); [apply list_elem_of_here|done|done].
Qed.

(** None of the hints that are enabled pastes. *)
Definition quiet_hints : Prop := ∀ hint b, (hint, b) ∈ hints_enabled → pastes_hint hint = false.

Lemma hint_bindings_quiet b :
  quiet_hints → b ∈ hint_bindings → writes (action b) = false ∧ pastes (action b) = false.
Proof.
  intros Hq ([hint [hb|]] & Hin & E)%list_elem_of_omap; [|done]. injection E as <-.
  split; [done|]. by apply (Hq _ _ Hin).
Qed.

Section Silent.
Context (P : Ctx → Prop) (HP : silent P).

Lemma run_binding_silent key logical mode mods b s s' :
  (Binding.is_triggered_by b mode mods (binding_input key logical b) = true →
     writes (action b) = false ∧ pastes (action b) = false) →
  P s.2 → run_binding key logical mode mods b s = Some s' → P s'.2.
Proof.
  destruct s as [o ctx]. intros Hb Hs. unfold run_binding.
  destruct (Binding.is_triggered_by _ _ _ _); [|by intros [= <-]].
  destruct (execute (action b) ctx) as [ctx1|] eqn:E; cbn [mbind option_bind]; [|done].
  intros [= <-]. destruct (Hb eq_refl). by eapply (silent_execute P HP).
Qed.

Lemma bindings_silent key ctx b ctx' :
  key_bindings = default_key_bindings platform → quiet_hints →
  TermMode.contains (term_mode ctx) TermMode.VI = true → search_active ctx = false →
  P ctx → process_key_bindings key ctx = Some (b, ctx') → P ctx'.
Proof using HP.
  intros Hk Hq Hv Hs HPc. unfold process_key_bindings. rewrite Hk, Hs.
  destruct (foldM _ (default_key_bindings platform) _) as [s|] eqn:E1; cbn [mbind option_bind]; [|done].
  apply (foldM_inv _ (λ s, P s.2)) in E1; [| |done].
  2: { intros d s1 s2 Hd. apply run_binding_silent. intros Ht.
       destruct (quiet_bindings _ _ _ _ _ _ (proj1 (default_quiet platform)) Hd Ht) as [Hw Hpa].
       rewrite Hv in Hw, Hpa.
       split; apply not_true_iff_false; [by intros [? _]%Hw|by intros [?|?]%Hpa]. }
  destruct (foldM _ hint_bindings s) as [[o ctx2]|] eqn:E2; cbn [mbind option_bind]; [|done].
  intros [= _ <-]. apply (foldM_inv _ (λ s, P s.2)) in E2; [done| |done].
  intros d s1 s2 Hd. apply run_binding_silent. intros _. by apply hint_bindings_quiet.
Qed.

(** In vi mode, with the default bindings, no key sends anything to the program in the terminal,
    whether it is pressed or released, unless a search is active or a hint pastes. *)
Lemma key_input_silent key ctx ctx' :
  key_bindings = default_key_bindings platform → quiet_hints →
  TermMode.contains (term_mode ctx) TermMode.VI = true → search_active ctx = false →
  P ctx → key_input key ctx = Some ctx' → P ctx'.
Proof using HP.
  intros Hk Hq Hv Hs HPc. unfold key_input. destruct (preedit ctx); [by intros [= <-]|].
  destruct (decide (key_state key = Released)).
  - destruct (if char_pending ctx then _ else _) as [c|] eqn:Ei; cbn [mbind option_bind]; [|done].
    unfold key_release. rewrite Hv, orb_true_r. intros [= <-].
    destruct (char_pending ctx); [by eapply (silent_ime P HP)|by injection Ei as <-].
  - destruct (hint_active ctx).
    { apply foldM_inv; [|done]. intros ch c c' _. apply (silent_hint P HP). }
    destruct (char_pending ctx); [by apply (silent_inline P HP)|].
    unfold reset_search_delay. rewrite Hs. cbn [mbind option_bind].
    destruct (process_key_bindings key ctx) as [[b c]|] eqn:Eb; cbn [mbind option_bind]; [|done].
    apply bindings_silent in Eb; [|done..]. destruct b; [by intros [= <-]|].
    destruct (search_active c).
    { apply foldM_inv; [|done]. intros ch c1 c2 _. apply (silent_search P HP). }
    rewrite Hv. by intros [= <-].
Qed.
End Silent.
End Input.

(** * Examples *)

(** A context that records what is sent. *)
Module Recorder.
Record t := mk { mode : TermMode; mods : ModifiersState; search : bool; sent : list N }.
Definition send (bytes : list N) (s : t) : option t :=
  Some (mk (mode s) (mods s) (search s) (sent s ++ bytes)).
Definition run (a : Action.t) (s : t) : option t :=
  match a with
  | Action.Esc bytes => send bytes s
  | Action.Paste | Action.PasteSelection => send [112] s
  | Action.ToggleViMode =>
      Some (mk (TermMode.toggle TermMode.VI (mode s)) (mods s) (search s) (sent s))
  | _ => Some s
  end.
End Recorder.

Definition recorder : @ActionContext sample_winit :=
  @Build_ActionContext sample_winit Unix NoneAlt (@default_key_bindings sample_winit Unix) []
    Recorder.t unit (λ _, false) Recorder.mode Recorder.mods (λ _, false) (λ _, false) (λ _, false)
    (λ _, false) Recorder.search (λ _ s, Some s) (λ _ s, Some s) (λ _ s, Some s) (λ _ s, Some s)
    (λ s, Some (None, s)) (λ _ s, Some s) Recorder.run (λ s, Some s) Recorder.send.

Section KeySamples.
#[local] Existing Instance ascii_unicode.
#[local] Existing Instance sample_winit.
#[local] Existing Instance recorder.

Definition press (k : Key) (t : option text) : KeyEvent :=
  mkKeyEvent 0 k WinitKeyLocation.Standard Pressed false t k.

Lemma recorder_silent : silent (λ s : @Ctx sample_winit recorder, Recorder.sent s = []).
Proof.
  split.
  - intros [] ctx ctx' Hw Hp Hs; try discriminate; by intros [= <-].
  - by intros ? ? ? Hs [= <-].
  - by intros ? ? ? Hs [= <-].
  - by intros ? ? ? Hs [= <-].
  - by intros ? ? ? Hs [= <-].
Qed.

(** The letter i leaves the vi mode and is not sent. *)
Example vi_mode_i_silent :
  (Keyboard.key_input (press (Character (str "i")) (Some (str "i")))
    (Recorder.mk TermMode.VI ModifiersState.empty false [])) ≫= (λ s, Some (Recorder.sent s))
  = Some [].
Proof. vm_compute. reflexivity. Qed.

Lemma text_sent_witness :
  Keyboard.key_input (press (Character (str "a")) (Some (str "a")))
    (Recorder.mk 0 ModifiersState.ALT false [])
  = Some (Recorder.mk 0 ModifiersState.ALT false [27; 97]).
Proof.
  rewrite (text_sent (press (Character (str "a")) (Some (str "a")))
             (Recorder.mk 0 ModifiersState.ALT false [] : @Ctx sample_winit recorder)
             (str "a") (str "a")).
  - reflexivity.
  - split; reflexivity.
  - split; reflexivity.
  - discriminate.
  - reflexivity.
  - reflexivity.
  - reflexivity.
  - discriminate.
  - apply (bool_decide_unpack _). vm_compute. exact I.
Defined.

Lemma named_key_identified_witness :
  ∃ bytes, build_sequence (press (Named NamedKey.F5) None) ModifiersState.CONTROL
             TermMode.REPORT_ALL_KEYS_AS_ESC = Some bytes ∧
    ∃ r, decode bytes = Some r ∧ identify (number r) (final r) = Some (NamedKey.F5, AnyPlace).
Proof.
  apply (named_key_identified (press (Named NamedKey.F5) None) ModifiersState.CONTROL
           TermMode.REPORT_ALL_KEYS_AS_ESC NamedKey.F5).
  - reflexivity.
  - reflexivity.
Defined.

(** A repeated arrow key with control and shift, and a letter with its text. *)
Example arrow_sequence :
  build_sequence (mkKeyEvent 0 (Named NamedKey.ArrowUp) WinitKeyLocation.Standard Pressed true None
                    (Named NamedKey.ArrowUp))
    (ModifiersState.union ModifiersState.CONTROL ModifiersState.SHIFT) TermMode.REPORT_EVENT_TYPES
  = Some ([27] ++ str "[1;6:2A").
Proof. vm_compute. reflexivity. Qed.

Example text_sequence :
  build_sequence (mkKeyEvent 0 (Character (str "A")) WinitKeyLocation.Standard Pressed false
                    (Some (str "A")) (Character (str "a")))
    ModifiersState.SHIFT TermMode.KITTY_KEYBOARD_PROTOCOL
  = Some ([27] ++ str "[97:65;2;65u").
Proof. vm_compute. reflexivity. Qed.

(** A decoder reads back the text, shift and the two characters of the key. *)
Lemma build_sequence_decodes_witness :
  let key := mkKeyEvent 0 (Character (str "A")) WinitKeyLocation.Standard Pressed false
               (Some (str "A")) (Character (str "a")) in
  ∃ r, decode ([27] ++ str "[97:65;2;65u") = Some r ∧ report_mods r = 2 ∧ report_event r = 1 ∧
    report_text r = str "A" ∧ default (number r) (alternate r) = 65.
Proof.
  intros key.
  destruct (build_sequence_decodes key ModifiersState.SHIFT TermMode.KITTY_KEYBOARD_PROTOCOL)
    as (bytes & E & r & Er & Em & Ee & Et & Hr).
  pose proof text_sequence as E'. fold key in E'. rewrite E in E'. injection E' as ->.
  exists r. split; [exact Er|]. split; [exact Em|]. split; [exact Ee|]. split; [exact Et|].
  apply Hr; [reflexivity|discriminate|right; reflexivity].
Defined.

(** U+0085 is a C1 control character, but it has two bytes. *)
Example c1_is_not_control : is_control_character [133] = Some false.
Proof. vm_compute. reflexivity. Qed.
End KeySamples.
