(* ===== verification/EventLoops.v ===== *)
(** The event loop of the terminal ([cutty_terminal/src/event_loop.rs]): the queue of bytes for the
    pseudoterminal, the channel of messages, reading and parsing, and one turn of the loop.

    The pseudoterminal, the parser with the terminal it updates and the lock of the terminal are
    parameters: [Pty] and [Emulator].  What [std::io] documents of [Read] and [Write] are the laws
    of [Pty].  The loops of [pty_write] and [pty_read] have fuel; [None] is a panic or too little
    fuel; the theorems show that the only panic is that of a failed registration. *)
From S2P Require Import Prelude Index Cells TermData.

(** [io::ErrorKind] and the raw error the loop tests for. *)
Inductive ErrorKind := Interrupted | WouldBlock | EIO | OtherError (n : N).
#[export] Instance ErrorKind_eq_dec : EqDecision ErrorKind.
Proof. solve_decision. Defined.

Definition READ_BUFFER_SIZE : nat := N.to_nat 1048576.
Definition MAX_LOCKED_READ : nat := N.to_nat 65535.

(** [enum Msg]; the channel carries them from the user interface. *)
Inductive Msg := Input (bytes : list N) | Shutdown | ResizeMsg (size : WindowSize).

(** [tty::EventedPty]: [written_bytes] are the bytes the pseudoterminal has accepted so far, [consumed]
    those read from it; [reregister] changes the events that are polled for. *)
Class Pty := {
  PtyState : Type;
  written_bytes : PtyState → list N;
  consumed : PtyState → list N;
  pty_writer : list N → PtyState → result ErrorKind nat * PtyState;
  pty_reader : nat → PtyState → result ErrorKind (list N) * PtyState;
  on_resize : WindowSize → PtyState → PtyState;
  next_child_event : PtyState → option (option Z) * PtyState;
  reregister : bool → PtyState → result ErrorKind unit * PtyState;
  pty_writer_ok : ∀ buf s n s', pty_writer buf s = (Ok n, s') →
    n ≤ length buf ∧ written_bytes s' = written_bytes s ++ take n buf;
  pty_writer_err : ∀ buf s e s', pty_writer buf s = (Err e, s') → written_bytes s' = written_bytes s;
  pty_reader_ok : ∀ cap s got s', pty_reader cap s = (Ok got, s') →
    length got ≤ cap ∧ consumed s' = consumed s ++ got;
  pty_reader_err : ∀ cap s e s', pty_reader cap s = (Err e, s') → consumed s' = consumed s;
  pty_reader_written : ∀ cap s res s',
    pty_reader cap s = (res, s') → written_bytes s' = written_bytes s;
  on_resize_written : ∀ size s, written_bytes (on_resize size s) = written_bytes s;
  next_child_written : ∀ s ev s', next_child_event s = (ev, s') → written_bytes s' = written_bytes s;
  reregister_written : ∀ b s res s', reregister b s = (res, s') → written_bytes s' = written_bytes s;
}.

(** [vte::ansi::Processor] and the terminal it updates; whether an attempt to lock the terminal
    succeeds depends on the other threads. *)
Class Emulator := {
  Machine : Type;
  parser_advance : list N → Machine → Machine;
  sync_bytes_count : Machine → nat;
  stop_sync : Machine → Machine;
  terminal_exit : Machine → Machine;
}.

(** ** [struct Writing] *)

Module Writing.
Record t := mk { source : list N; written : nat }.
Definition new (c : list N) : t := mk c 0.
Definition advance (n : nat) (s : t) : t := mk (source s) (written s + n).
(** [&self.source[self.written..]]. *)
Definition remaining_bytes (s : t) : option (list N) :=
  if written s <=? length (source s) then Some (drop (written s) (source s)) else None.
Definition finished (s : t) : bool := length (source s) <=? written s.
End Writing.

(** ** [struct State] without the parser *)

Module WriteQueue.
Record t := mk { write_list : list (list N); writing : option Writing.t }.
Definition default : t := mk [] None.
Definition goto_next (s : t) : t :=
  match write_list s with
  | [] => mk [] None
  | c :: rest => mk rest (Some (Writing.new c))
  end.
Definition ensure_next (s : t) : t :=
  match writing s with None => goto_next s | Some _ => s end.
Definition take_current (s : t) : option Writing.t * t := (writing s, mk (write_list s) None).
Definition needs_write (s : t) : bool :=
  bool_decide (is_Some (writing s)) || negb (bool_decide (write_list s = [])).
Definition set_current (new : option Writing.t) (s : t) : t := mk (write_list s) new.
Definition push_back (input : list N) (s : t) : t := mk (write_list s ++ [input]) (writing s).
End WriteQueue.

(** ** [PeekableReceiver] *)

Module PeekableReceiver.
(** The messages in the channel, whether a sender is left, and the message that was peeked. *)
Record t := mk { rx : list Msg; connected : bool; peeked : option Msg }.
Definition new (rx : list Msg) (connected : bool) : t := mk rx connected None.
Definition peek (s : t) : option Msg * t :=
  match peeked s with
  | Some m => (Some m, s)
  | None =>
      match rx s with
      | [] => (None, s)
      | m :: rest => (Some m, mk rest (connected s) (Some m))
      end
  end.
(** A disconnected channel panics. *)
Definition recv (s : t) : option (option Msg * t) :=
  match peeked s with
  | Some m => Some (Some m, mk (rx s) (connected s) None)
  | None =>
      match rx s with
      | [] => if connected s then Some (None, s) else None
      | m :: rest => Some (Some m, mk rest (connected s) None)
      end
  end.
End PeekableReceiver.

Module EventLoop.
Section ops.
Context `{Pty} `{Emulator} `{External}.

(** ** Writing *)

(** The two loops of [pty_write]: [current] is being written. *)
Fixpoint write_many (fuel : nat) (current : Writing.t) (state : WriteQueue.t) (pty : PtyState) :
    option (result ErrorKind unit * WriteQueue.t * PtyState) :=
  match fuel with
  | O => None
  | S fuel =>
      buf ← Writing.remaining_bytes current;
      match pty_writer buf pty with
      | (Ok 0, pty) => Some (Ok tt, WriteQueue.set_current (Some current) state, pty)
      | (Ok n, pty) =>
          let current := Writing.advance n current in
          if Writing.finished current then
            let state := WriteQueue.goto_next state in
            match WriteQueue.take_current state with
            | (Some current, state) => write_many fuel current state pty
            | (None, state) => Some (Ok tt, state, pty)
            end
          else write_many fuel current state pty
      | (Err err, pty) =>
          let state := WriteQueue.set_current (Some current) state in
          match err with
          | Interrupted | WouldBlock => Some (Ok tt, state, pty)
          | _ => Some (Err err, state, pty)
          end
      end
  end.

Definition pty_write (fuel : nat) (state : WriteQueue.t) (pty : PtyState) :
    option (result ErrorKind unit * WriteQueue.t * PtyState) :=
  match WriteQueue.take_current (WriteQueue.ensure_next state) with
  | (Some current, state) => write_many fuel current state pty
  | (None, state) => Some (Ok tt, state, pty)
  end.

(** ** The channel *)

Fixpoint drain_recv_channel (fuel : nat) (rx : PeekableReceiver.t) (state : WriteQueue.t)
    (pty : PtyState) : option (bool * PeekableReceiver.t * WriteQueue.t * PtyState) :=
  match fuel with
  | O => None
  | S fuel =>
      '(msg, rx) ← PeekableReceiver.recv rx;
      match msg with
      | None => Some (true, rx, state, pty)
      | Some (Input input) => drain_recv_channel fuel rx (WriteQueue.push_back input state) pty
      | Some (ResizeMsg window_size) => drain_recv_channel fuel rx state (on_resize window_size pty)
      | Some Shutdown => Some (false, rx, state, pty)
      end
  end.

(** ** Reading *)

(** The variables of [pty_read]: the bytes of the buffer that are not parsed yet, the number of
    bytes parsed, whether the terminal is locked, the number of attempts to lock it, and the chunks
    parsed, which are also what is written to the recording. *)
Record Reading := mkReading {
  unprocessed : list N;
  processed : nat;
  locked : bool;
  attempts : nat;
  chunks : list (list N);
  machine : Machine;
  reading_pty : PtyState;
}.

(** Reading more bytes: [inl] leaves the loop. *)
Definition read_more (s : Reading) : result ErrorKind unit * Reading + Reading :=
  let '(res, pty) := pty_reader (READ_BUFFER_SIZE - length (unprocessed s)) (reading_pty s) in
  let s := mkReading (unprocessed s) (processed s) (locked s) (attempts s) (chunks s) (machine s) pty in
  match res with
  | Ok got =>
      if bool_decide (got = []) && bool_decide (unprocessed s = []) then inl (Ok tt, s)
      else inr (mkReading (unprocessed s ++ got) (processed s) (locked s) (attempts s) (chunks s)
                  (machine s) pty)
  | Err (Interrupted | WouldBlock) =>
      if bool_decide (unprocessed s = []) then inl (Ok tt, s) else inr s
  | Err err => inl (Err err, s)
  end.

(** Locking the terminal, unless it is locked: a full buffer waits for the lock. *)
Definition lock_terminal (try_lock : nat → bool) (s : Reading) : Reading :=
  if locked s then s
  else mkReading (unprocessed s) (processed s)
         (try_lock (attempts s) || (READ_BUFFER_SIZE <=? length (unprocessed s)))
         (S (attempts s)) (chunks s) (machine s) (reading_pty s).

(** Parsing the bytes of the buffer. *)
Definition process (s : Reading) : Reading :=
  mkReading [] (processed s + length (unprocessed s)) (locked s) (attempts s)
    (chunks s ++ [unprocessed s]) (parser_advance (unprocessed s) (machine s)) (reading_pty s).

Fixpoint read_loop (fuel : nat) (try_lock : nat → bool) (s : Reading) :
    option (result ErrorKind unit * Reading) :=
  match fuel with
  | O => None
  | S fuel =>
      match read_more s with
      | inl r => Some r
      | inr s =>
          let s := lock_terminal try_lock s in
          if locked s then
            let s := process s in
            if MAX_LOCKED_READ <=? processed s then Some (Ok tt, s)
            else read_loop fuel try_lock s
          else read_loop fuel try_lock s
      end
  end.

(** The result, the machine and the pseudoterminal after reading, the chunks that were parsed, and
    whether the user interface is woken up; the latter is skipped on an error. *)
Record ReadOutcome := mkReadOutcome {
  read_result : result ErrorKind unit;
  read_state : Reading;
  wakeup : bool;
}.

Definition pty_read (fuel : nat) (try_lock : nat → bool) (m : Machine) (pty : PtyState) :
    option ReadOutcome :=
  '(res, s) ← read_loop fuel try_lock (mkReading [] 0 false 0 [] m pty);
  match res with
  | Ok _ =>
      Some (mkReadOutcome res s
              ((sync_bytes_count (machine s) <? processed s) && (0 <? processed s)))
  | Err _ => Some (mkReadOutcome res s false)
  end.

(** ** One turn of the loop of [spawn] *)

(** [polling::Event]: the tokens are those of [tty/unix.rs]. *)
Inductive Token := PTY_READ_WRITE_TOKEN | PTY_CHILD_EVENT_TOKEN | OtherToken.
Record PollingEvent := mkPollingEvent {
  key : Token; readable : bool; writable : bool; is_interrupt : bool }.

(** The state of the loop: [interest_writable] is the registered interest in writing, [sent] the
    events sent to the user interface. *)
Record Loop := mkLoop {
  loop_rx : PeekableReceiver.t;
  queue : WriteQueue.t;
  loop_machine : Machine;
  loop_pty : PtyState;
  interest_writable : bool;
  sent : list Event;
}.
(** What the bytes that are still to be written need at most. *)
Definition pending (s : WriteQueue.t) : list N :=
  match WriteQueue.writing s with
  | Some w => drop (Writing.written w) (Writing.source w)
  | None => []
  end ++ concat (WriteQueue.write_list s).
Definition write_fuel (s : WriteQueue.t) : nat :=
  length (pending s) + length (WriteQueue.write_list s) + 2.

Inductive Flow := Continue | Break.

(** The readable part of an event on the pseudoterminal: whether the loop goes on, and whether the
    rest of the event is skipped. *)
Definition handle_readable (fuel : nat) (try_lock : nat → bool) (l : Loop) :
    option (Flow * bool * Loop) :=
  r ← pty_read fuel try_lock (loop_machine l) (loop_pty l);
  let s := read_state r in
  let l := mkLoop (loop_rx l) (queue l) (machine s) (reading_pty s) (interest_writable l)
             (sent l ++ if wakeup r then [Wakeup] else []) in
  Some (match read_result r with
        | Ok _ => (Continue, false, l)
        | Err EIO => (Continue, true, l)
        | Err _ => (Break, true, l)
        end).

Definition handle_writable (l : Loop) : option (Flow * Loop) :=
  '(res, state, pty) ← pty_write (write_fuel (queue l)) (queue l) (loop_pty l);
  let l := mkLoop (loop_rx l) state (loop_machine l) pty (interest_writable l) (sent l) in
  Some (match res with Ok _ => (Continue, l) | Err _ => (Break, l) end).

Definition handle_child (fuel : nat) (try_lock : nat → bool) (drain_on_exit : bool) (l : Loop) :
    option (Flow * Loop) :=
  let '(ev, pty) := next_child_event (loop_pty l) in
  let l := mkLoop (loop_rx l) (queue l) (loop_machine l) pty (interest_writable l) (sent l) in
  match ev with
  | None => Some (Continue, l)
  | Some status =>
      let events := match status with Some status => [ChildExit status] | None => [] end in
      '(m, pty, woken) ←
        (if drain_on_exit then
           r ← pty_read fuel try_lock (loop_machine l) (loop_pty l);
           Some (machine (read_state r), reading_pty (read_state r), if wakeup r then [Wakeup] else [])
         else Some (loop_machine l, loop_pty l, []));
      Some (Break, mkLoop (loop_rx l) (queue l) (terminal_exit m) pty (interest_writable l)
                     (sent l ++ events ++ woken ++ [Wakeup]))
  end.

Definition handle_event (fuel : nat) (try_lock : nat → bool) (drain_on_exit : bool)
    (event : PollingEvent) (l : Loop) : option (Flow * Loop) :=
  match key event with
  | PTY_CHILD_EVENT_TOKEN => handle_child fuel try_lock drain_on_exit l
  | PTY_READ_WRITE_TOKEN =>
      if is_interrupt event then Some (Continue, l)
      else
        '(flow, skip, l) ← (if readable event then handle_readable fuel try_lock l
                            else Some (Continue, false, l));
        match flow with
        | Break => Some (Break, l)
        | Continue => if writable event && negb skip then handle_writable l else Some (Continue, l)
        end
  | OtherToken => Some (Continue, l)
  end.

Fixpoint handle_events (fuel : nat) (try_lock : nat → bool) (drain_on_exit : bool)
    (events : list PollingEvent) (l : Loop) : option (Flow * Loop) :=
  match events with
  | [] => Some (Continue, l)
  | event :: events =>
      '(flow, l) ← handle_event fuel try_lock drain_on_exit event l;
      match flow with
      | Break => Some (Break, l)
      | Continue => handle_events fuel try_lock drain_on_exit events l
      end
  end.

(** Registering the interest in writing; the [unwrap] panics when this fails. *)
Definition register (l : Loop) : option Loop :=
  let needs_write := WriteQueue.needs_write (queue l) in
  match reregister needs_write (loop_pty l) with
  | (Ok _, pty) => Some (mkLoop (loop_rx l) (queue l) (loop_machine l) pty needs_write (sent l))
  | (Err _, _) => None
  end.

Definition turn (fuel : nat) (try_lock : nat → bool) (drain_on_exit : bool)
    (poll : result ErrorKind (list PollingEvent)) (l : Loop) : option (Flow * Loop) :=
  match poll with
  | Err Interrupted => Some (Continue, l)
  | Err _ => Some (Break, l)
  | Ok events =>
      (* The receiver is only peeked at when there are no events. *)
      let '(idle, rx) :=
        if bool_decide (events = []) then
          let '(msg, rx) := PeekableReceiver.peek (loop_rx l) in
          (match msg with None => true | Some _ => false end, rx)
        else (false, loop_rx l) in
      if idle : bool then
        Some (Continue, mkLoop rx (queue l) (stop_sync (loop_machine l)) (loop_pty l)
                          (interest_writable l) (sent l ++ [Wakeup]))
      else
        '(more, rx, state, pty) ←
          drain_recv_channel (S (S (length (PeekableReceiver.rx rx)))) rx (queue l) (loop_pty l);
        let l := mkLoop rx state (loop_machine l) pty (interest_writable l) (sent l) in
        if more : bool then
          '(flow, l) ← handle_events fuel try_lock drain_on_exit events l;
          match flow with
          | Break => Some (Break, l)
          | Continue =>
              l ← (if Bool.eqb (WriteQueue.needs_write (queue l)) (interest_writable l)
                   then Some l else register l);
              Some (Continue, l)
          end
        else Some (Break, l)
  end.
End ops.
End EventLoop.

(** ** [Notifier] *)

Module Notifier.
(** [notify] sends nothing for no bytes. *)
Definition notify (bytes : list N) : option Msg :=
  if bool_decide (bytes = []) then None else Some (Input bytes).
Definition on_resize (window_size : WindowSize) : Msg := ResizeMsg window_size.
End Notifier.
