(* ===== verification/EventLoopProps.v ===== *)
(** Properties of the event loop: the bytes for the pseudoterminal are a queue of bytes, the queue
    drains, what is read is parsed, and the interest in writing follows the queue unless it cannot
    be registered. *)
From S2P Require Import Prelude Index Cells TermData EventLoops.

Lemma MAX_LOCKED_READ_pos : 0 < MAX_LOCKED_READ.
Proof. unfold MAX_LOCKED_READ. lia. Qed.

(** The limits are large: they are never computed. *)
#[local] Opaque READ_BUFFER_SIZE MAX_LOCKED_READ.

Section WriteProps.
Context `{Pty} `{Emulator} `{External}.
Import EventLoop.
Implicit Types (q : WriteQueue.t) (w : Writing.t) (pty : PtyState).

(** * The queue *)

(** No more is marked as written than there is. *)
Definition writing_ok w : Prop := Writing.written w ≤ length (Writing.source w).
Definition queue_ok q : Prop := ∀ w, WriteQueue.writing q = Some w → writing_ok w.

Definition rest w : list N := drop (Writing.written w) (Writing.source w).

Lemma remaining_ok w : writing_ok w → Writing.remaining_bytes w = Some (rest w).
Proof. intros Hw. unfold Writing.remaining_bytes. by rewrite (proj2 (Nat.leb_le _ _) Hw). Qed.

Lemma rest_new c : rest (Writing.new c) = c.
Proof. apply drop_0. Qed.

Lemma rest_advance n w : rest (Writing.advance n w) = drop n (rest w).
Proof. unfold rest. simpl. by rewrite drop_drop. Qed.

Lemma finished_rest w : writing_ok w → Writing.finished w = true ↔ rest w = [].
Proof.
  unfold writing_ok, Writing.finished, rest. intros Hw. rewrite Nat.leb_le. split.
  - intros E. by apply drop_ge.
  - intros E. apply (f_equal length) in E. rewrite length_drop in E. simpl in E. lia.
Qed.

(** What writing needs: an iteration per byte and per input. *)
Definition work w (l : list (list N)) : nat := length (rest w) + length (concat l) + length l + 1.

(** The result of writing [stream]: what was accepted and what is left are the stream. *)
Definition conserves (stream : list N) pty (res : result ErrorKind unit * WriteQueue.t * PtyState) :
    Prop :=
  let '(_, q', pty') := res in
  queue_ok q' ∧ written_bytes pty' ++ pending q' = written_bytes pty ++ stream.

Lemma write_many_ok fuel w q pty :
  writing_ok w → WriteQueue.writing q = None → work w (WriteQueue.write_list q) ≤ fuel →
  wp (write_many fuel w q pty) (conserves (rest w ++ concat (WriteQueue.write_list q)) pty).
Proof.
  revert w q pty. induction fuel as [|fuel IH]; intros w q pty Hw Hq Hf; [unfold work in Hf; lia|].
  cbn [write_many]. rewrite remaining_ok by done. cbn [mbind option_bind].
  destruct (pty_writer (rest w) pty) as [[n|e] pty'] eqn:Ew.
  - apply pty_writer_ok in Ew as [Hn Eb].
    assert (written_bytes pty' ++ drop n (rest w) = written_bytes pty ++ rest w) as Ec.
    { by rewrite Eb, <- app_assoc, take_drop. }
    destruct n as [|n].
    + cbn [wp conserves]. split; [by intros ? [= <-]|]. unfold pending. cbn [WriteQueue.set_current
        WriteQueue.writing WriteQueue.write_list]. rewrite drop_0 in Ec. fold (rest w).
      by rewrite !app_assoc, Ec.
    + assert (writing_ok (Writing.advance (S n) w)) as Hw'.
      { unfold writing_ok in *. simpl. unfold rest in Hn. rewrite length_drop in Hn. lia. }
      destruct (Writing.finished _) eqn:Efin.
      * apply finished_rest in Efin; [|done]. rewrite rest_advance in Efin.
        rewrite Efin, app_nil_r in Ec. unfold WriteQueue.goto_next, WriteQueue.take_current.
        destruct (WriteQueue.write_list q) as [|c l] eqn:El; cbn [WriteQueue.writing WriteQueue.write_list].
        -- cbn [wp conserves]. split; [done|]. unfold pending. simpl. by rewrite !app_nil_r, Ec.
        -- eapply wp_mono; [apply IH; [unfold writing_ok; simpl; lia|done|]|].
           ++ unfold work in *. rewrite rest_new. simpl in *. rewrite length_app in Hf. lia.
           ++ intros [[res q'] pty''] [Hq' E]. split; [done|]. rewrite E, rest_new, Ec.
              cbn [concat WriteQueue.write_list]. by rewrite !app_assoc.
      * eapply wp_mono; [apply IH; [done|done|]|].
        -- unfold work in *. rewrite rest_advance, length_drop. lia.
        -- intros [[res q'] pty''] [Hq' E]. split; [done|]. rewrite E, rest_advance, !app_assoc.
           by rewrite Ec.
  - apply pty_writer_err in Ew.
    assert (conserves (rest w ++ concat (WriteQueue.write_list q)) pty
              (Err e, WriteQueue.set_current (Some w) q, pty')) as Hc.
    { split; [by intros ? [= <-]|]. by rewrite Ew. }
    by destruct e.
Qed.

Lemma ensure_next_pending q :
  queue_ok q → queue_ok (WriteQueue.ensure_next q) ∧ pending (WriteQueue.ensure_next q) = pending q
  ∧ length (WriteQueue.write_list (WriteQueue.ensure_next q)) ≤ length (WriteQueue.write_list q)
  ∧ (WriteQueue.writing (WriteQueue.ensure_next q) = None → pending q = []).
Proof.
  intros Hq. unfold WriteQueue.ensure_next, WriteQueue.goto_next, pending.
  destruct q as [[|c l] [w|]]; simpl; try by split_and!.
  split_and!; [|done|lia|done]. intros w [= <-]. unfold writing_ok. simpl. lia.
Qed.

Lemma pty_write_ok q pty :
  queue_ok q → wp (pty_write (write_fuel q) q pty) (conserves (pending q) pty).
Proof.
  intros Hq. destruct (ensure_next_pending q Hq) as (Hq' & Ep & El & En). unfold pty_write.
  unfold write_fuel. rewrite <- Ep. unfold pending.
  destruct (WriteQueue.ensure_next q) as [l [w|]] eqn:E; cbn [WriteQueue.take_current WriteQueue.writing WriteQueue.write_list] in *.
  - eapply wp_mono; [apply write_many_ok; [by apply Hq'|done|]|by intros [[??]?]].
    unfold work. cbn [WriteQueue.write_list]. fold (rest w). rewrite length_app. lia.
  - specialize (En eq_refl). rewrite <- Ep in En. unfold pending in En. simpl in En. simpl.
    rewrite En. split; [done|]. unfold pending. simpl. by rewrite En.
Qed.

(** C14.  The queue of writes is a queue of bytes: writing to the pseudoterminal always ends, and
    what it has accepted together with what is still pending is unchanged, in order, however much
    of each buffer is accepted and whatever error occurs. *)
Theorem pty_write_fifo q pty :
  queue_ok q →
  ∃ res q' pty', pty_write (write_fuel q) q pty = Some (res, q', pty') ∧ queue_ok q' ∧
    written_bytes pty' ++ pending q' = written_bytes pty ++ pending q.
Proof.
  intros Hq. destruct (proj1 (wp_some _ _) (pty_write_ok q pty Hq)) as ([[res q'] pty'] & E & Hc & Eb).
  eauto 10.
Qed.

(** ** Progress *)

(** A pseudoterminal that accepts something of every buffer. *)
Definition accepting : Prop :=
  ∀ buf s, buf ≠ [] → ∃ n s', pty_writer buf s = (Ok (S n), s').

(** Inputs with bytes, as [Notifier] sends them. *)
Definition no_empty_input q : Prop :=
  Forall (λ c, c ≠ []) (WriteQueue.write_list q) ∧
  ∀ w, WriteQueue.writing q = Some w → rest w ≠ [].

Lemma write_many_drains fuel w q pty res q' pty' :
  accepting → writing_ok w → rest w ≠ [] → WriteQueue.writing q = None →
  Forall (λ c, c ≠ []) (WriteQueue.write_list q) →
  write_many fuel w q pty = Some (res, q', pty') → res = Ok tt ∧ q' = WriteQueue.default.
Proof.
  intros Ha. revert w q pty. induction fuel as [|fuel IH]; intros w q pty Hw Hr Hq Hl; [done|].
  cbn [write_many]. rewrite remaining_ok by done. cbn [mbind option_bind].
  destruct (Ha (rest w) pty Hr) as (n & pty1 & Ew). rewrite Ew. apply pty_writer_ok in Ew as [Hn _].
  assert (writing_ok (Writing.advance (S n) w)) as Hw'.
  { unfold writing_ok in *. simpl. unfold rest in Hn. rewrite length_drop in Hn. lia. }
  destruct (Writing.finished _) eqn:Efin.
  - unfold WriteQueue.goto_next, WriteQueue.take_current.
    destruct (WriteQueue.write_list q) as [|c l] eqn:El; cbn [WriteQueue.writing WriteQueue.write_list].
    + by intros [= <- <- _].
    + apply Forall_cons in Hl as [Hc Hl].
      apply IH; [unfold writing_ok; simpl; lia|by rewrite rest_new|done|done].
  - apply IH; [done| |done|done]. intros E. apply finished_rest in E; [congruence|done].
Qed.

(**  If the pseudoterminal accepts at least a byte of every buffer and no input is empty, one
    call writes everything that is pending and leaves the queue empty, so that the loop stops
    waiting for the pseudoterminal. *)
Theorem pty_write_drains q pty :
  accepting → queue_ok q → no_empty_input q →
  ∃ pty', pty_write (write_fuel q) q pty = Some (Ok tt, WriteQueue.default, pty') ∧
    written_bytes pty' = written_bytes pty ++ pending q ∧
    WriteQueue.needs_write WriteQueue.default = false.
Proof.
  intros Ha Hq [Hl Hw]. pose proof (pty_write_ok q pty Hq) as Hwp.
  apply wp_some in Hwp as ([[res q'] pty'] & E & Hq' & Ec).
  assert (res = Ok tt ∧ q' = WriteQueue.default) as [-> ->].
  { revert E. unfold pty_write, WriteQueue.ensure_next, WriteQueue.goto_next.
    destruct q as [[|c l] [w|]]; cbn [WriteQueue.writing WriteQueue.write_list WriteQueue.take_current] in *.
    - apply write_many_drains; [done|by apply Hq|by apply Hw|done|done].
    - by intros [= <- <- _].
    - apply write_many_drains; [done|by apply Hq|by apply Hw|done|done].
    - apply Forall_cons in Hl as [Hc Hl].
      apply write_many_drains; [done|unfold writing_ok; simpl; lia|by rewrite rest_new|done|done]. }
  exists pty'. split_and!; [done| |done]. rewrite <- Ec. unfold pending. simpl. by rewrite app_nil_r.
Qed.

(** An empty input is never finished: when writing nothing succeeds, everything behind it waits. *)
Lemma empty_input_blocks fuel l pty pty' :
  pty_writer [] pty = (Ok 0, pty') →
  pty_write (S fuel) (WriteQueue.mk ([] :: l) None) pty
    = Some (Ok tt, WriteQueue.mk l (Some (Writing.new [])), pty') ∧
  pty_write (S fuel) (WriteQueue.mk l (Some (Writing.new []))) pty
    = Some (Ok tt, WriteQueue.mk l (Some (Writing.new [])), pty').
Proof.
  intros E. unfold pty_write. simpl. rewrite E. done.
Qed.

(** * The channel *)

(** The bytes a message carries, and the messages in the channel. *)
Definition input_bytes (m : Msg) : list N := match m with Input bytes => bytes | _ => [] end.
Definition messages (rx : PeekableReceiver.t) : list Msg :=
  option_list (PeekableReceiver.peeked rx) ++ PeekableReceiver.rx rx.
Definition inputs (rx : PeekableReceiver.t) : list N := concat (input_bytes <$> messages rx).

Lemma peek_messages rx m rx' :
  PeekableReceiver.peek rx = (m, rx') →
  messages rx' = messages rx ∧ PeekableReceiver.connected rx' = PeekableReceiver.connected rx
  ∧ m = head (messages rx).
Proof. destruct rx as [[|m1 l] c [m2|]]; intros [= <- <-]; done. Qed.

Lemma recv_messages rx :
  PeekableReceiver.connected rx = true →
  ∃ rx', PeekableReceiver.recv rx = Some (head (messages rx), rx')
    ∧ messages rx' = tail (messages rx) ∧ PeekableReceiver.connected rx' = true.
Proof.
  destruct rx as [[|m1 l] [] [m2|]]; intros E; try done; unfold PeekableReceiver.recv; simpl; eauto.
Qed.

Lemma push_back_pending q c :
  queue_ok q → queue_ok (WriteQueue.push_back c q)
  ∧ pending (WriteQueue.push_back c q) = pending q ++ c.
Proof.
  intros Hq. split; [exact Hq|]. unfold pending, WriteQueue.push_back. simpl.
  by rewrite concat_app, <- app_assoc; simpl; rewrite app_nil_r.
Qed.

(** Draining the channel moves the inputs, in order, to the end of the queue. *)
Lemma drain_ok fuel rx q pty :
  PeekableReceiver.connected rx = true → queue_ok q → length (messages rx) < fuel →
  wp (drain_recv_channel fuel rx q pty) (λ '(more, rx', q', pty'),
    PeekableReceiver.connected rx' = true ∧ queue_ok q'
    ∧ written_bytes pty' = written_bytes pty
    ∧ pending q' ++ inputs rx' = pending q ++ inputs rx
    ∧ (more = true → messages rx' = [])).
Proof.
  revert rx q pty. induction fuel as [|fuel IH]; intros rx q pty Hc Hq Hf; [lia|].
  cbn [drain_recv_channel]. destruct (recv_messages rx Hc) as (rx' & -> & Em & Hc').
  cbn [mbind option_bind].
  assert (inputs rx = concat (input_bytes <$> messages rx)) as Ei by done.
  assert (inputs rx' = concat (input_bytes <$> tail (messages rx))) as Ei'
    by (unfold inputs; by rewrite Em).
  destruct (messages rx) as [|m l] eqn:El; cbn [head tail] in *.
  - simpl. rewrite Ei, Ei'. by split_and!.
  - assert (length (messages rx') < fuel) as Hf' by (rewrite Em; simpl in Hf; lia).
    destruct m as [bytes| |size].
    + destruct (push_back_pending q bytes Hq) as [Hq1 Ep].
      eapply wp_mono; [by apply IH|]. intros [[[more rx1] q1] pty1] (? & ? & ? & E & ?).
      split_and!; [done..| |done]. rewrite E, Ep, Ei, Ei'. by rewrite <- app_assoc.
    + simpl. rewrite Ei, Ei'. by split_and!.
    + eapply wp_mono; [by apply IH|]. intros [[[more rx1] q1] pty1] (? & ? & Ew & E & ?).
      split_and!; [done|done|by rewrite Ew, on_resize_written| |done]. by rewrite E, Ei, Ei'.
Qed.
End WriteProps.

(** * Reading *)

Section ReadProps.
Context `{Pty} `{Emulator}.
Import EventLoop.
Implicit Types (s : Reading).

Variable (m0 : Machine) (pty0 : PtyState).

(** What was read is what was parsed, chunk by chunk, and what is in the buffer. *)
Record reading_ok s : Prop := {
  reading_consumed :
    consumed (reading_pty s) = consumed pty0 ++ concat (chunks s) ++ unprocessed s;
  reading_machine : machine s = foldl (λ m c, parser_advance c m) m0 (chunks s);
  reading_processed : processed s = length (concat (chunks s));
  reading_written : written_bytes (reading_pty s) = written_bytes pty0;
  reading_buffer : length (unprocessed s) ≤ READ_BUFFER_SIZE;
}.

(** Reading more either leaves the loop, with an empty buffer unless there was an error, or there
    are bytes in the buffer. *)
Lemma read_more_ok s :
  reading_ok s →
  match read_more s with
  | inl (res, s') => reading_ok s' ∧ (res = Ok tt → unprocessed s' = [])
  | inr s' => reading_ok s' ∧ unprocessed s' ≠ [] ∧ locked s' = locked s
              ∧ attempts s' = attempts s ∧ processed s' = processed s
  end.
Proof.
  intros [Hc Hm Hp Hw Hb]. unfold read_more.
  destruct (pty_reader _ _) as [res pty] eqn:Er.
  pose proof (pty_reader_written _ _ _ _ Er) as Hw'. destruct res as [got|e].
  - apply pty_reader_ok in Er as [Hl Ec].
    destruct (decide (got = [])) as [Eg|Eg], (decide (unprocessed s = [])) as [Eu|Eu].
    + rewrite !bool_decide_eq_true_2 by done. split; [|done]. split; simpl; [|done..|congruence|done].
      by rewrite Ec, Eg, app_nil_r, Hc.
    + rewrite (bool_decide_eq_false_2 _ Eu), andb_false_r. subst got. rewrite app_nil_r in *.
      split_and!; [|done..]. split; simpl; rewrite ?app_nil_r; [|done..|congruence|done].
      by rewrite Ec.
    + rewrite (bool_decide_eq_false_2 _ Eg). split_and!; [|by rewrite Eu|done..].
      split; simpl; [|done..|congruence|rewrite length_app; lia].
      by rewrite Ec, Hc, !app_assoc.
    + rewrite (bool_decide_eq_false_2 _ Eg). cbn [andb].
      split_and!; [|by destruct (unprocessed s)|done..].
      split; simpl; [|done..|congruence|rewrite length_app; lia].
      by rewrite Ec, Hc, !app_assoc.
  - apply pty_reader_err in Er.
    set (s' := mkReading _ _ _ _ _ _ _).
    assert (reading_ok s') as Hs' by (split; simpl; congruence).
    destruct e; try (split; [done|done]);
      (case_bool_decide as Eu; [done|]); by split_and!.
Qed.

Lemma lock_terminal_ok try_lock s :
  reading_ok s → reading_ok (lock_terminal try_lock s)
  ∧ unprocessed (lock_terminal try_lock s) = unprocessed s
  ∧ processed (lock_terminal try_lock s) = processed s.
Proof. intros [? ? ? ? ?]. unfold lock_terminal. destruct (locked s); by split_and!. Qed.

Lemma process_ok s : reading_ok s → reading_ok (process s).
Proof.
  intros [Hc Hm Hp Hw Hb]. split; simpl.
  - by rewrite Hc, concat_app; simpl; rewrite !app_nil_r.
  - by rewrite foldl_app, Hm.
  - rewrite concat_app, length_app. simpl. rewrite app_nil_r. lia.
  - done.
  - lia.
Qed.

Lemma read_loop_ok fuel try_lock s res s' :
  reading_ok s → processed s < MAX_LOCKED_READ → read_loop fuel try_lock s = Some (res, s') →
  reading_ok s' ∧ (res = Ok tt → unprocessed s' = [])
  ∧ processed s' < MAX_LOCKED_READ + READ_BUFFER_SIZE.
Proof.
  revert s. induction fuel as [|fuel IH]; intros s Hs Hm; [done|]. cbn [read_loop].
  pose proof (read_more_ok s Hs) as Hr. destruct (read_more s) as [[res1 s1]|s1] eqn:Em.
  { intros [= <- <-]. destruct Hr as [? Hu]. split_and!; [done..|].
    assert (processed s1 = processed s) as ->; [|lia].
    revert Em. unfold read_more. destruct (pty_reader _ _) as [[got|[]] pty];
      try case_bool_decide; try case_bool_decide; intros [=]; by subst. }
  destruct Hr as (Hs1 & _ & _ & _ & Ep). destruct (lock_terminal_ok try_lock s1 Hs1) as (Hs2 & _ & Ep2).
  destruct (locked _); [|apply IH; [done|lia]].
  destruct (Nat.leb_spec MAX_LOCKED_READ (processed (process (lock_terminal try_lock s1))));
    [|by apply IH; [apply process_ok|]].
  intros [= <- <-]. split_and!; [by apply process_ok|done|]. simpl.
  destruct Hs2 as [_ _ _ _ Hb]. lia.
Qed.

(** The loop ends: after the lock could be taken every iteration parses a byte. *)
Lemma read_loop_ends fuel try_lock K s :
  (∀ k, K ≤ k → try_lock k = true) → reading_ok s →
  (if locked s then 0 else K - attempts s) + (MAX_LOCKED_READ - processed s) + 1 < fuel →
  is_Some (read_loop fuel try_lock s).
Proof.
  intros HK. revert s. induction fuel as [|fuel IH]; intros s Hs Hf; [lia|]. cbn [read_loop].
  pose proof (read_more_ok s Hs) as Hr. destruct (read_more s) as [r|s1]; [by eauto|].
  destruct Hr as (Hs1 & Hne & El & Ea & Ep).
  destruct (lock_terminal_ok try_lock s1 Hs1) as (Hs2 & Eu2 & Ep2).
  destruct (locked (lock_terminal try_lock s1)) eqn:E2.
  - destruct (Nat.leb_spec MAX_LOCKED_READ (processed (process (lock_terminal try_lock s1))));
      [by eauto|]. apply IH; [by apply process_ok|].
    simpl in *. rewrite E2. rewrite Eu2, Ep2, Ep in *.
    assert (length (unprocessed s1) ≠ 0) by (by destruct (unprocessed s1)).
    destruct (locked s); lia.
  - apply IH; [done|]. rewrite E2, Ep2, Ep. unfold lock_terminal in *. rewrite El in *.
    destruct (locked s); [congruence|]. simpl in *. rewrite Ea in *.
    apply orb_false_iff in E2 as [E2 _].
    destruct (decide (K ≤ attempts s)) as [Hk|Hk]; [by rewrite HK in E2|]. lia.
Qed.
End ReadProps.

Section Turn.
Context `{Pty} `{Emulator} `{External}.
Import EventLoop.
Implicit Types (l : Loop).

Definition start m pty : Reading := mkReading [] 0 false 0 [] m pty.

Lemma start_ok m pty : reading_ok m pty (start m pty).
Proof. split; simpl; [by rewrite app_nil_r|done|done|done|lia]. Qed.

(** The lock of the terminal can be taken from the [K]-th attempt on, and the fuel is enough. *)
Definition enough_fuel (fuel : nat) (try_lock : nat → bool) : Prop :=
  ∃ K, (∀ k, K ≤ k → try_lock k = true) ∧ K + MAX_LOCKED_READ + 1 < fuel.

(** C15.  Reading from the pseudoterminal ends once the lock of the terminal can be taken.  All
    bytes that were read are parsed, in order, except those in the buffer when reading fails; the
    terminal is not locked for more than a buffer over the limit. *)
Theorem pty_read_parses fuel try_lock m pty :
  enough_fuel fuel try_lock →
  ∃ r, pty_read fuel try_lock m pty = Some r ∧
    let s := read_state r in
    consumed (reading_pty s) = consumed pty ++ concat (chunks s) ++ unprocessed s ∧
    machine s = foldl (λ m c, parser_advance c m) m (chunks s) ∧
    (read_result r = Ok tt → unprocessed s = []) ∧
    processed s = length (concat (chunks s)) ∧
    processed s < MAX_LOCKED_READ + READ_BUFFER_SIZE.
Proof.
  intros (K & HK & Hf). unfold pty_read.
  destruct (read_loop_ends m pty fuel try_lock K (start m pty) HK (start_ok m pty)) as [[res s] E].
  { simpl. lia. }
  change (mkReading _ _ _ _ _ m pty) with (start m pty). rewrite E. cbn [mbind option_bind].
  apply (read_loop_ok m pty) in E as ([Hc Hm Hp Hw Hb] & Hu & Hl);
    [|apply start_ok|apply MAX_LOCKED_READ_pos].
  destruct res as [[]|e]; eexists; (split; [done|]); by split_and!.
Qed.

Lemma pty_read_wp fuel try_lock m pty :
  enough_fuel fuel try_lock →
  wp (pty_read fuel try_lock m pty) (λ r,
    written_bytes (reading_pty (read_state r)) = written_bytes pty).
Proof.
  intros (K & HK & Hf). unfold pty_read.
  destruct (read_loop_ends m pty fuel try_lock K (start m pty) HK (start_ok m pty)) as [[res s] E].
  { simpl. lia. }
  change (mkReading _ _ _ _ _ m pty) with (start m pty). rewrite E. cbn [mbind option_bind].
  apply (read_loop_ok m pty) in E as ([_ _ _ Hw _] & _);
    [|apply start_ok|apply MAX_LOCKED_READ_pos].
  by destruct res.
Qed.

(** * A turn of the loop *)

(** The bytes on their way to the pseudoterminal: accepted, in the queue, in the channel. *)
Definition stream l : list N :=
  written_bytes (loop_pty l) ++ pending (queue l) ++ inputs (loop_rx l).

Definition loop_ok l : Prop :=
  queue_ok (queue l) ∧ PeekableReceiver.connected (loop_rx l) = true.

(** What handling an event keeps. *)
Definition keeps l l' : Prop :=
  queue_ok (queue l') ∧ loop_rx l' = loop_rx l ∧ interest_writable l' = interest_writable l
  ∧ written_bytes (loop_pty l') ++ pending (queue l') = written_bytes (loop_pty l) ++ pending (queue l).

Lemma keeps_refl l : queue_ok (queue l) → keeps l l.
Proof. by intros. Qed.

Lemma keeps_trans l1 l2 l3 : keeps l1 l2 → keeps l2 l3 → keeps l1 l3.
Proof. intros (? & ? & ? & ?) (? & ? & ? & ?). unfold keeps. split_and!; first [done|congruence]. Qed.

Section Handlers.
Context (fuel : nat) (try_lock : nat → bool) (Hfuel : enough_fuel fuel try_lock).

Lemma handle_readable_ok l :
  queue_ok (queue l) → wp (handle_readable fuel try_lock l) (λ '(_, _, l'), keeps l l').
Proof using Hfuel.
  intros Hq. unfold handle_readable. apply wp_bind.
  eapply wp_mono; [by apply pty_read_wp|]. intros r Hw. simpl.
  destruct (read_result r) as [|[]]; simpl; split_and!; simpl; first [done|congruence].
Qed.

Lemma handle_writable_ok l :
  queue_ok (queue l) → wp (handle_writable l) (λ '(_, l'), keeps l l').
Proof.
  intros Hq. unfold handle_writable. apply wp_bind.
  eapply wp_mono; [by apply pty_write_ok|]. intros [[[] q'] pty'] [Hq' E]; by split_and!.
Qed.

Lemma handle_child_ok drain l :
  queue_ok (queue l) → wp (handle_child fuel try_lock drain l) (λ '(_, l'), keeps l l').
Proof using Hfuel.
  intros Hq. unfold handle_child. destruct (next_child_event _) as [[status|] pty] eqn:E;
    apply next_child_written in E.
  - apply wp_bind. destruct drain.
    + apply wp_bind. eapply wp_mono; [by apply pty_read_wp|]. intros r Hw. unfold keeps. cbn in *.
      split_and!; first [done|congruence].
    + unfold keeps. cbn. split_and!; first [done|congruence].
  - unfold keeps. cbn. split_and!; first [done|congruence].
Qed.

Lemma handle_event_ok drain event l :
  queue_ok (queue l) → wp (handle_event fuel try_lock drain event l) (λ '(_, l'), keeps l l').
Proof using Hfuel.
  intros Hq. unfold handle_event. destruct (key event); [|by apply handle_child_ok|by apply keeps_refl].
  destruct (is_interrupt event); [by apply keeps_refl|]. apply wp_bind.
  assert (wp (if readable event then handle_readable fuel try_lock l else Some (Continue, false, l))
            (λ '(_, _, l'), keeps l l')) as Hr.
  { destruct (readable event); [by apply handle_readable_ok|by apply keeps_refl]. }
  eapply wp_mono; [exact Hr|]. intros [[[] skip] l1] Hk; [|done].
  destruct (_ && _); [|done]. eapply wp_mono; [apply handle_writable_ok, Hk|].
  intros [flow l2] Hk2. by eapply keeps_trans.
Qed.

Lemma handle_events_ok drain events l :
  queue_ok (queue l) → wp (handle_events fuel try_lock drain events l) (λ '(_, l'), keeps l l').
Proof using Hfuel.
  revert l. induction events as [|event events IH]; intros l Hq; cbn [handle_events].
  { by apply keeps_refl. }
  apply wp_bind. eapply wp_mono; [by apply handle_event_ok|]. intros [[] l1] Hk; [|done].
  eapply wp_mono; [apply IH, Hk|]. intros [flow l2] Hk2. by eapply keeps_trans.
Qed.
End Handlers.

(** The loop waits for the pseudoterminal to accept bytes exactly when a buffer is queued. *)
Definition interest_ok l : Prop := interest_writable l = WriteQueue.needs_write (queue l).

(** The new interest cannot be registered. *)
Definition registration_fails l : Prop :=
  WriteQueue.needs_write (queue l) ≠ interest_writable l ∧
  ∃ e pty, reregister (WriteQueue.needs_write (queue l)) (loop_pty l) = (Err e, pty).

Lemma register_ok l :
  queue_ok (queue l) → WriteQueue.needs_write (queue l) ≠ interest_writable l →
  match register l with
  | Some l' => loop_rx l' = loop_rx l ∧ queue l' = queue l ∧
      written_bytes (loop_pty l') = written_bytes (loop_pty l) ∧ interest_ok l'
  | None => registration_fails l
  end.
Proof.
  intros Hq Hne. unfold register, registration_fails.
  destruct (reregister _ _) as [[[]|e] pty] eqn:E; [|eauto].
  apply reregister_written in E. by split_and!.
Qed.

(** C13.  A turn of the event loop panics only when the change of its interest in writing cannot be
    registered.  The bytes of the messages reach the pseudoterminal in order, none is lost or duplicated
    between the channel, the queue and the pseudoterminal; and when the loop waits again, it waits
    for the pseudoterminal to accept bytes exactly when a buffer is queued, which may be an empty one. *)
Theorem turn_ok fuel try_lock drain poll l :
  enough_fuel fuel try_lock → loop_ok l → interest_ok l →
  match turn fuel try_lock drain poll l with
  | Some (flow, l') => loop_ok l' ∧ stream l' = stream l ∧ (flow = Continue → interest_ok l')
  | None => ∃ l1, loop_ok l1 ∧ stream l1 = stream l ∧ registration_fails l1
  end.
Proof.
  intros Hf [Hq Hc] Hi. unfold turn. destruct poll as [events|[]]; try (by split).
  destruct (if bool_decide (events = []) then _ else _) as [idle rx] eqn:Ep.
  assert (messages rx = messages (loop_rx l) ∧ PeekableReceiver.connected rx = true) as [Em Hc'].
  { case_bool_decide; [|by injection Ep as <- <-].
    destruct (PeekableReceiver.peek (loop_rx l)) as [msg rx1] eqn:Epk. injection Ep as _ <-.
    apply peek_messages in Epk as (? & ? & _). split; congruence. }
  assert (inputs rx = inputs (loop_rx l)) as Ei by (unfold inputs; by rewrite Em).
  destruct idle.
  { split; [done|]. split; [|done]. unfold stream. cbn. by rewrite Ei. }
  pose proof (drain_ok (S (S (length (PeekableReceiver.rx rx)))) rx (queue l) (loop_pty l) Hc' Hq) as Hd.
  specialize (Hd ltac:(unfold messages; rewrite length_app;
    destruct (PeekableReceiver.peeked rx); simpl; lia)).
  apply wp_some in Hd as ([[[more rx'] q'] pty'] & -> & Hc'' & Hq' & Ew & Es & _).
  cbn [mbind option_bind].
  assert (∀ l1, keeps (mkLoop rx' q' (loop_machine l) pty' (interest_writable l) (sent l)) l1 →
            loop_ok l1 ∧ stream l1 = stream l) as Hk.
  { intros l1 (Hq1 & Er & _ & E1). split; [split; [done|by rewrite Er]|]. unfold stream.
    rewrite Er, app_assoc, E1. simpl. by rewrite <- app_assoc, Es, Ew, Ei. }
  destruct more.
  2: { destruct (Hk (mkLoop rx' q' (loop_machine l) pty' (interest_writable l) (sent l)));
       [by apply keeps_refl|done]. }
  pose proof (handle_events_ok fuel try_lock Hf drain events
    (mkLoop rx' q' (loop_machine l) pty' (interest_writable l) (sent l)) Hq') as He.
  apply wp_some in He as ([flow l1] & -> & Hl1). cbn [mbind option_bind].
  destruct (Hk l1 Hl1) as [Hok Est]. destruct flow; [|done].
  destruct (Bool.eqb _ _) eqn:Eb; cbn [mbind option_bind].
  { apply eqb_prop in Eb. by split_and!. }
  apply eqb_false_iff in Eb. pose proof (register_ok l1 (proj1 Hok) Eb) as Hr.
  destruct (register l1) as [l2|]; cbn [mbind option_bind]; [|by exists l1].
  destruct Hr as (Er & Eq & Ew' & Hi2). unfold loop_ok, stream. rewrite Er, Eq, Ew'.
  split; [exact Hok|]. by split; [exact Est|].
Qed.
End Turn.

(** * Witnesses *)

(** A pseudoterminal that accepts at most [S room] bytes at a time and is read along a script. *)
Module Scripted.
Record t := mk {
  accepted : list N; room : nat; script : list (result ErrorKind (list N)); taken : list N }.

Definition write (buf : list N) (s : t) : result ErrorKind nat * t :=
  (Ok (length (take (S (room s)) buf)),
   mk (accepted s ++ take (S (room s)) buf) (room s) (script s) (taken s)).

Definition read (cap : nat) (s : t) : result ErrorKind (list N) * t :=
  match script s with
  | [] => (Err WouldBlock, s)
  | Err e :: rest => (Err e, mk (accepted s) (room s) rest (taken s))
  | Ok bytes :: rest =>
      (Ok (take cap bytes), mk (accepted s) (room s) rest (taken s ++ take cap bytes))
  end.

#[global, program] Instance pty : Pty := {
  PtyState := t;
  written_bytes := accepted;
  consumed := taken;
  pty_writer := write;
  pty_reader := read;
  on_resize _ s := s;
  next_child_event s := (None, s);
  reregister _ s := (Ok tt, s);
}.
Next Obligation.
  intros buf s n s' [= <- <-]. simpl. split; [rewrite length_take; lia|].
  f_equal. symmetry. etrans; [|apply (take_app_length (take (S (room s)) buf) (drop (S (room s)) buf))].
  by rewrite take_drop.
Qed.
Next Obligation. by intros. Qed.
Next Obligation.
  intros cap s got s'. unfold read. destruct (script s) as [|[bytes|e] rest]; intros [= <- <-].
  simpl. split; [rewrite length_take; lia|done].
Qed.
Next Obligation.
  intros cap s e s'. unfold read. by destruct (script s) as [|[bytes|e'] rest]; intros [= _ <-].
Qed.
Next Obligation.
  intros cap s res s'. unfold read. by destruct (script s) as [|[bytes|e'] rest]; intros [= _ <-].
Qed.
Next Obligation. done. Qed.
Next Obligation. by intros s ev s' [= _ <-]. Qed.
Next Obligation. by intros b s res s' [= _ <-]. Qed.

(** A machine that keeps what it has parsed. *)
#[global] Instance emulator : Emulator := {
  Machine := list N;
  parser_advance bytes m := m ++ bytes;
  sync_bytes_count _ := 0;
  stop_sync m := m;
  terminal_exit m := m;
}.
End Scripted.

Section Witnesses.
Import EventLoop Scripted.
#[local] Existing Instance Sample.external.

(** Two inputs, the first of them half written. *)
Definition two_inputs : WriteQueue.t := WriteQueue.mk [[4; 5; 6]%N] (Some (Writing.mk [1; 2; 3]%N 1)).
Definition slow (room : nat) : Scripted.t := Scripted.mk [1%N] room [] [].

Lemma two_inputs_ok : queue_ok two_inputs.
Proof. intros w [= <-]. unfold writing_ok. simpl. lia. Qed.

Lemma pty_write_fifo_witness :
  queue_ok two_inputs ∧
  ∃ res q' pty', pty_write (write_fuel two_inputs) two_inputs (slow 0) = Some (res, q', pty') ∧
    queue_ok q' ∧ accepted pty' ++ pending q' = [1; 2; 3; 4; 5; 6]%N.
Proof.
  split; [exact two_inputs_ok|]. exact (pty_write_fifo two_inputs (slow 0) two_inputs_ok).
Defined.

Lemma scripted_accepting : accepting.
Proof. intros [|b buf] s Hb; [done|by eexists _, _]. Qed.

Lemma two_inputs_filled : no_empty_input two_inputs.
Proof. split; [by repeat constructor|by intros w [= <-]]. Qed.

Lemma pty_write_drains_witness :
  accepting ∧ queue_ok two_inputs ∧ no_empty_input two_inputs ∧
  ∃ pty', pty_write (write_fuel two_inputs) two_inputs (slow 1) = Some (Ok tt, WriteQueue.default, pty') ∧
    accepted pty' = [1; 2; 3; 4; 5; 6]%N ∧ WriteQueue.needs_write WriteQueue.default = false.
Proof.
  split; [exact scripted_accepting|]. split; [exact two_inputs_ok|].
  split; [exact two_inputs_filled|].
  exact (pty_write_drains two_inputs (slow 1) scripted_accepting two_inputs_ok two_inputs_filled).
Defined.

(** A machine that has parsed nothing. *)
Definition fresh : Machine := ([] : list N).

(** The terminal can be locked from the third attempt on. *)
Definition third (k : nat) : bool := 2 <=? k.

Lemma third_enough : enough_fuel (MAX_LOCKED_READ + 4) third.
Proof. exists 2. split; [intros k Hk; by apply Nat.leb_le|lia]. Qed.

Definition reads (l : list (result ErrorKind (list N))) : PtyState := Scripted.mk [] 0 l [].

Lemma pty_read_parses_witness :
  enough_fuel (MAX_LOCKED_READ + 4) third ∧
  ∃ r, pty_read (MAX_LOCKED_READ + 4) third fresh (reads [Ok [1]; Ok [2]; Ok [3]]%N) = Some r.
Proof.
  split; [exact third_enough|].
  destruct (pty_read_parses _ third fresh (reads [Ok [1]; Ok [2]; Ok [3]]%N) third_enough) as (r & E & _).
  exists r. exact E.
Defined.

(** When reading fails before the terminal could be locked, the bytes in the buffer are dropped:
    they were read, but neither parsed nor kept, and the user interface is not woken up. *)
Example failed_read_drops_bytes :
  ∃ s, pty_read 5 third [] (reads [Ok [1; 2]; Err EIO]%N) = Some (mkReadOutcome (Err EIO) s false) ∧
    consumed (reading_pty s) = [1; 2]%N ∧ machine s = fresh.
Proof. eexists. split_and!; vm_compute; reflexivity. Qed.

(** A turn with an input, a resize and bytes to read. *)
Definition busy : Loop := mkLoop
  (PeekableReceiver.new [Input [7]%N; ResizeMsg (mkWindowSize 2 2 8 16)] true) WriteQueue.default fresh
  (reads [Ok [1; 2]]%N) false [].

Lemma busy_ok : loop_ok busy ∧ interest_ok busy.
Proof. split; [split; [by intros w|done]|done]. Qed.

Lemma turn_ok_witness :
  enough_fuel (MAX_LOCKED_READ + 4) third ∧ loop_ok busy ∧ interest_ok busy ∧
  match turn (MAX_LOCKED_READ + 4) third false
          (Ok [mkPollingEvent PTY_READ_WRITE_TOKEN true true false]) busy with
  | Some (flow, l') => loop_ok l' ∧ stream l' = [7]%N ∧ (flow = Continue → interest_ok l')
  | None => ∃ l1, loop_ok l1 ∧ stream l1 = [7]%N ∧ registration_fails l1
  end.
Proof.
  split; [exact third_enough|]. split; [apply busy_ok|]. split; [apply busy_ok|].
  exact (turn_ok _ third false (Ok [mkPollingEvent PTY_READ_WRITE_TOKEN true true false]) busy
           third_enough (proj1 busy_ok) (proj2 busy_ok)).
Defined.
End Witnesses.
