(* ===== verification/Schedulers.v ===== *)
(** The timers of the user interface ([cutty/src/scheduler.rs]).

    Instants and durations are numbers of nanoseconds.  Every call of [Instant::now] is a reading
    of [clock]; the standard library documents that the readings never decrease.  [update] is a
    loop with fuel; the theorems show that the number of timers is enough. *)
From stdpp Require Import sorting.
From S2P Require Import Prelude.
#[local] Open Scope N_scope.

(** [enum Topic] and [TimerId]. *)
Inductive Topic := SelectionScrolling | DelayedSearch | BlinkCursor | BlinkTimeout | Frame.
#[export] Instance Topic_eq_dec : EqDecision Topic.
Proof. solve_decision. Defined.

Record TimerId {W : Type} := mkTimerId { topic : Topic; window_id : W }.
Arguments TimerId : clear implicits.
Arguments mkTimerId {W}.
#[export] Instance TimerId_eq_dec {W} `{EqDecision W} : EqDecision (TimerId W).
Proof. solve_decision. Defined.

Module Timer.
Record t {E W : Type} := mk { deadline : N; event : E; id : TimerId W; interval : option N }.
Arguments t : clear implicits.
Arguments mk {E W}.
End Timer.

Module Scheduler.
Section ops.
Context {E W : Type} `{EqDecision W} (clock : nat → N).

(** The timers, the number of readings of the clock so far, and the events sent to the window
    system's event loop. *)
Record t := mk { timers : list (Timer.t E W); readings : nat; sent : list E }.
Definition new : t := mk [] 0 [].

Definition now (s : t) : N * t := (clock (readings s), mk (timers s) (S (readings s)) (sent s)).

(** [self.timers.iter().position(|timer| timer.deadline > deadline)]. *)
Definition position (deadline : N) (l : list (Timer.t E W)) : nat :=
  match list_find (λ timer, deadline < Timer.deadline timer) l with
  | Some (i, _) => i
  | None => length l
  end.

Definition schedule (event : E) (interval : N) (repeat : bool) (id : TimerId W) (s : t) : t :=
  let '(n, s) := now s in
  let deadline := n + interval in
  let index := position deadline (timers s) in
  let timer := Timer.mk deadline event id (if repeat then Some interval else None) in
  mk (take index (timers s) ++ timer :: drop index (timers s)) (readings s) (sent s).

(** The loop of [update]; [now] was read before it. *)
Fixpoint update_loop (fuel : nat) (now : N) (s : t) : option t :=
  match fuel with
  | O => None
  | S fuel =>
      match timers s with
      | timer :: rest =>
          if Timer.deadline timer <=? now then
            let s := mk rest (readings s) (sent s) in
            let s :=
              match Timer.interval timer with
              | Some interval => schedule (Timer.event timer) interval true (Timer.id timer) s
              | None => s
              end in
            update_loop fuel now (mk (timers s) (readings s) (sent s ++ [Timer.event timer]))
          else Some s
      | [] => Some s
      end
  end.

Definition update (fuel : nat) (s : t) : option (option N * t) :=
  let '(n, s) := now s in
  s ← update_loop fuel n s;
  Some (Timer.deadline <$> head (timers s), s).

Definition unschedule (id : TimerId W) (s : t) : option (Timer.t E W) * t :=
  match list_find (λ timer, Timer.id timer = id) (timers s) with
  | None => (None, s)
  | Some (index, timer) => (Some timer, mk (delete index (timers s)) (readings s) (sent s))
  end.

Definition scheduled (id : TimerId W) (s : t) : bool :=
  existsb (λ timer, bool_decide (Timer.id timer = id)) (timers s).

Definition unschedule_window (window : W) (s : t) : t :=
  mk (filter (λ timer, window_id (Timer.id timer) ≠ window) (timers s)) (readings s) (sent s).
End ops.
Arguments t : clear implicits.
Arguments new {E W}.
Arguments mk {E W}.
End Scheduler.

Section Props.
Context {E W : Type} `{EqDecision W} (clock : nat → N).
Import Scheduler.
Implicit Types (s : Scheduler.t E W) (l : list (Timer.t E W)) (x y : Timer.t E W).

(** The timers are in the order of their deadlines. *)
Definition before x y : Prop := Timer.deadline x ≤ Timer.deadline y.
Definition in_order l : Prop := StronglySorted before l.
Definition due (n : N) (x : Timer.t E W) : Prop := Timer.deadline x ≤ n.

(** * Inserting *)

(** The position is behind the timers that are not later, before all others. *)
Lemma position_spec d l :
  in_order l →
  ∃ l1 l2, l = l1 ++ l2 ∧ position d l = length l1 ∧ Forall (due d) l1
    ∧ Forall (λ x, d < Timer.deadline x) l2.
Proof.
  intros Hs. unfold position.
  destruct (list_find _ l) as [[i x]|] eqn:Ef.
  - apply list_find_Some in Ef as (Hi & Hx & Hn). exists (take i l), (drop i l).
    split; [by rewrite take_drop|]. split.
    { apply lookup_lt_Some in Hi. rewrite length_take. lia. }
    split.
    + apply Forall_lookup. intros j y [Hj Hlt]%lookup_take_Some. unfold due.
      specialize (Hn j y Hj Hlt). lia.
    + rewrite <- (take_drop_middle l i x Hi) in Hs |- *. unfold in_order in Hs.
      apply lookup_lt_Some in Hi.
      rewrite drop_app_length'; [|rewrite length_take; lia].
      apply StronglySorted_app in Hs as (_ & _ & Hs). inv Hs. constructor; [done|].
      eapply Forall_impl; [done|]. unfold before. simpl. lia.
  - apply list_find_None in Ef. exists l, []. rewrite app_nil_r. split_and!; [done|done| |done].
    eapply Forall_impl; [done|]. unfold due. simpl. lia.
Qed.

Lemma in_order_app l1 l2 :
  in_order (l1 ++ l2) ↔ (∀ x y, x ∈ l1 → y ∈ l2 → before x y) ∧ in_order l1 ∧ in_order l2.
Proof. apply StronglySorted_app. Qed.

Lemma in_order_filter P `{∀ x, Decision (P x)} l : in_order l → in_order (filter P l).
Proof.
  induction 1 as [|x l Hl IH Hx]; [constructor|]. rewrite filter_cons.
  case_decide; [|done]. constructor; [done|].
  apply list.Forall_forall. intros y [_ Hy]%list_elem_of_filter.
  by eapply list.Forall_forall in Hx.
Qed.

Lemma in_order_insert d l1 l2 x :
  in_order (l1 ++ l2) → Timer.deadline x = d → Forall (due d) l1 →
  Forall (λ y, d < Timer.deadline y) l2 → in_order (l1 ++ x :: l2).
Proof.
  intros (H12 & H1 & H2)%in_order_app Hd Hl1 Hl2. rewrite list.Forall_forall in Hl1, Hl2.
  assert (∀ y, y ∈ l2 → before x y) as Hx.
  { intros y Hy. unfold before. rewrite Hd. apply N.lt_le_incl, Hl2, Hy. }
  apply in_order_app. split; [|split; [done|constructor; [done|by apply list.Forall_forall]]].
  intros y z Hy [->|Hz]%elem_of_cons; [|by apply H12]. unfold before. rewrite Hd. by apply Hl1.
Qed.

(** The timer [schedule] adds. *)
Definition scheduled_timer (e : E) (interval : N) (repeat : bool) (id : TimerId W) s : Timer.t E W :=
  Timer.mk (clock (readings s) + interval) e id (if repeat then Some interval else None).

Lemma schedule_spec e interval repeat id s :
  in_order (timers s) →
  let x := scheduled_timer e interval repeat id s in
  ∃ l1 l2, timers s = l1 ++ l2 ∧ timers (schedule clock e interval repeat id s) = l1 ++ x :: l2 ∧
    Forall (due (Timer.deadline x)) l1 ∧ Forall (λ y, Timer.deadline x < Timer.deadline y) l2 ∧
    in_order (l1 ++ x :: l2).
Proof.
  intros Hs x. destruct (position_spec (Timer.deadline x) (timers s) Hs) as (l1 & l2 & El & Ep & H1 & H2).
  exists l1, l2. unfold schedule, now.
  split_and!; [done| |done|done|by eapply in_order_insert; rewrite <- ?El].
  cbn [timers readings sent]. change (clock (readings s) + interval) with (Timer.deadline x).
  by rewrite Ep, El, take_app_length, drop_app_length.
Qed.

(** * Updating *)

(** What [update] schedules again for a timer: the same event, later than [n]. *)
Definition again (n : N) x y : Prop :=
  Timer.event y = Timer.event x ∧ Timer.id y = Timer.id x ∧ Timer.interval y = Timer.interval x
  ∧ n < Timer.deadline y.
Definition repeats x : Prop := is_Some (Timer.interval x).
#[local] Instance due_dec n x : Decision (due n x) := _ : Decision (_ ≤ _).
#[local] Instance repeats_dec x : Decision (repeats x) := _ : Decision (is_Some _).
Definition positive x : Prop := Timer.interval x ≠ Some 0.

(** A timer later than [n] is inserted behind those that are due. *)
Lemma schedule_later e interval id s n ready later :
  timers s = ready ++ later → in_order (timers s) → Forall (due n) ready →
  Forall (λ x, n < Timer.deadline x) later → interval ≠ 0 → n ≤ clock (readings s) →
  ∃ later', timers (schedule clock e interval true id s) = ready ++ later' ∧
    in_order (ready ++ later') ∧ Forall (λ x, n < Timer.deadline x) later' ∧
    later' ≡ₚ scheduled_timer e interval true id s :: later.
Proof.
  intros Et Hs Hr Hl Hi Hn.
  destruct (schedule_spec e interval true id s Hs) as (l1 & l2 & El & -> & _ & H2 & Ho).
  set (x := scheduled_timer _ _ _ _ _) in *.
  assert (n < Timer.deadline x) as Hx by (simpl; lia).
  assert (∃ k, l1 = ready ++ k ∧ later = k ++ l2) as (k & -> & ->).
  { rewrite El in Et. apply app_eq_app in Et as [k [Hk|[-> ->]]]; [by exists k|].
    destruct k as [|y k]; [exists []; by rewrite !app_nil_r|].
    apply Forall_app in Hr as [_ Hy]. inv Hy. inv H2. unfold due in *. lia. }
  rewrite <- app_assoc in *. exists (k ++ x :: l2). apply Forall_app in Hl as [Hk Hl2].
  split_and!; [done|done|by apply Forall_app; split; [|constructor]|].
  by rewrite Permutation_middle.
Qed.

Lemma update_loop_spec fuel n s ready later :
  timers s = ready ++ later → in_order (timers s) → Forall (due n) ready →
  Forall (λ x, n < Timer.deadline x) later → Forall positive ready →
  (∀ k, (readings s ≤ k)%nat → n ≤ clock k) → (length ready < fuel)%nat →
  wp (update_loop clock fuel n s) (λ s',
    sent s' = sent s ++ (Timer.event <$> ready) ∧ in_order (timers s')
    ∧ Forall (λ x, n < Timer.deadline x) (timers s')
    ∧ ∃ new, timers s' ≡ₚ later ++ new ∧ Forall2 (again n) (filter repeats ready) new).
Proof.
  revert fuel s later. induction ready as [|x ready IH]; intros [|fuel] s later Et Hs Hr Hl Hp Hc Hf;
    cbn [update_loop length] in *; try lia.
  { rewrite Et in *. simpl in *.
    assert (wp (Some s) (λ s', sent s' = sent s ++ [] ∧ in_order (timers s')
      ∧ Forall (λ x, n < Timer.deadline x) (timers s')
      ∧ ∃ new, timers s' ≡ₚ later ++ new ∧ Forall2 (again n) [] new)) as Hdone.
    { simpl. rewrite app_nil_r, Et. split_and!; [done..|]. exists []. by rewrite app_nil_r. }
    destruct later as [|y later]; [done|]. inv Hl.
    by rewrite (proj2 (N.leb_gt _ _)). }
  rewrite Et. simpl. apply Forall_cons in Hr as [Hx Hr]. apply Forall_cons in Hp as [Hpx Hp].
  rewrite (proj2 (N.leb_le _ _) Hx). rewrite Et in Hs. inv Hs.
  destruct (Timer.interval x) as [i|] eqn:Ei.
  - destruct (schedule_later (Timer.event x) i (Timer.id x) (mk (ready ++ later) (readings s) (sent s))
      n ready later) as (later' & Et' & Ho & Hl' & Hperm); [done..| |by apply Hc|].
    { unfold positive in Hpx. congruence. }
    eapply wp_mono; [apply (IH fuel _ later'); cbn [timers readings sent]|].
    + done.
    + by rewrite Et'.
    + done.
    + done.
    + done.
    + intros k Hk. apply Hc. revert Hk. cbn. lia.
    + lia.
    + cbn [sent]. intros s' (Hsent & Ho' & Hlater & new & Hp' & Hnew). split_and!; [|done..|].
      { rewrite Hsent. simpl. by rewrite <- app_assoc. }
      exists (scheduled_timer (Timer.event x) i true (Timer.id x) s :: new). split.
      * rewrite Hp', Hperm. simpl. by rewrite Permutation_middle.
      * rewrite filter_cons_True by (unfold repeats; by rewrite Ei). constructor; [|done].
        split_and!; [done|done|done|]. unfold positive in Hpx. cbn. specialize (Hc (readings s)).
        assert (i ≠ 0) by congruence. lia.
  - eapply wp_mono; [apply (IH fuel _ later); done || lia|].
    cbn [sent]. intros s' (Hsent & Ho' & Hlater & new & Hp' & Hnew). split_and!; [|done..|].
    { rewrite Hsent. simpl. by rewrite <- app_assoc. }
    exists new. split; [done|]. rewrite filter_cons_False; [done|].
    unfold repeats. rewrite Ei. by intros [].
Qed.
Lemma filter_none P `{∀ x, Decision (P x)} l : Forall (λ x, ¬ P x) l → filter P l = [].
Proof. induction 1; [done|]. by rewrite filter_cons_False. Qed.

(** The timers that are due come first. *)
Lemma due_first n l :
  in_order l → l = filter (due n) l ++ filter (λ x, ¬ due n x) l.
Proof.
  induction 1 as [|x l Hl IH Hx]; [done|]. destruct (decide (due n x)) as [Hd|Hd].
  - rewrite filter_cons_True, filter_cons_False by (done || by intros []).
    simpl. by rewrite <- IH.
  - assert (filter (due n) l = []) as Efirst.
    { apply filter_none. eapply Forall_impl; [exact Hx|]. unfold before, due in *. simpl. lia. }
    rewrite filter_cons_False, filter_cons_True, Efirst by done. rewrite Efirst in IH. simpl in *. by rewrite <- IH.
Qed.

(** C38.  [update] ends.  It sends exactly the events of the timers that are due, in the order of
    their deadlines; what is left is the timers that were not due and one later timer for every
    repeating timer that was due, in order, and none of them is due; the instant it returns is the
    nearest deadline. *)
Theorem update_correct s :
  let n := clock (readings s) in
  in_order (timers s) → Forall positive (timers s) → (∀ k, (readings s ≤ k)%nat → n ≤ clock k) →
  ∃ s', update clock (S (length (timers s))) s = Some (Timer.deadline <$> head (timers s'), s') ∧
    sent s' = sent s ++ (Timer.event <$> filter (due n) (timers s)) ∧
    in_order (timers s') ∧ Forall (λ x, n < Timer.deadline x) (timers s') ∧
    ∃ new, timers s' ≡ₚ filter (λ x, ¬ due n x) (timers s) ++ new ∧
      Forall2 (again n) (filter (λ x, due n x ∧ repeats x) (timers s)) new.
Proof.
  intros n Hs Hp Hc. pose proof (due_first n _ Hs) as Efirst.
  assert (wp (update_loop clock (S (length (timers s))) n (mk (timers s) (S (readings s)) (sent s)))
    (λ s', sent s' = sent s ++ (Timer.event <$> filter (due n) (timers s)) ∧ in_order (timers s')
    ∧ Forall (λ x, n < Timer.deadline x) (timers s')
    ∧ ∃ new, timers s' ≡ₚ filter (λ x, ¬ due n x) (timers s) ++ new
      ∧ Forall2 (again n) (filter repeats (filter (due n) (timers s))) new)) as Hw.
  { apply (update_loop_spec _ n (mk _ _ _) (filter (due n) (timers s))); cbn [timers readings].
    - done.
    - done.
    - by apply list.Forall_forall; intros x [? _]%list_elem_of_filter.
    - apply list.Forall_forall. unfold due. intros x [? _]%list_elem_of_filter. lia.
    - rewrite Efirst in Hp. by apply Forall_app in Hp as [? _].
    - intros k Hk. apply Hc. lia.
    - pose proof (length_filter (due n) (timers s)). lia. }
  apply wp_some in Hw as (s' & Eu & Hsent & Ho & Hl & new & Hperm & Hnew). exists s'.
  unfold update, Scheduler.now. fold n. rewrite Eu. split_and!; [done..|]. exists new. split; [done|].
  rewrite list_filter_filter in Hnew. erewrite list_filter_iff; [exact Hnew|].
  intros x. naive_solver.
Qed.

(**  Scheduling keeps the order of the timers; a timer comes after those with the same
    deadline, and nothing else changes. *)
Theorem schedule_correct e interval repeat id s :
  in_order (timers s) →
  let x := scheduled_timer e interval repeat id s in
  let s' := schedule clock e interval repeat id s in
  in_order (timers s') ∧ sent s' = sent s ∧
  ∃ l1 l2, timers s = l1 ++ l2 ∧ timers s' = l1 ++ x :: l2 ∧
    Forall (λ y, Timer.deadline y ≤ Timer.deadline x) l1 ∧
    Forall (λ y, Timer.deadline x < Timer.deadline y) l2.
Proof.
  intros Hs x s'. destruct (schedule_spec e interval repeat id s Hs) as (l1 & l2 & El & Es & H1 & H2 & Ho).
  unfold s'. rewrite Es. split; [done|]. split; [done|]. by exists l1, l2.
Qed.

(** * Removing *)

Lemma unschedule_spec id s :
  match unschedule id s with
  | (Some x, s') => ∃ l1 l2, timers s = l1 ++ x :: l2 ∧ timers s' = l1 ++ l2 ∧ Timer.id x = id
                      ∧ Forall (λ y, Timer.id y ≠ id) l1
  | (None, s') => s' = s ∧ scheduled id s = false
  end.
Proof.
  unfold unschedule. destruct (list_find _ _) as [[i x]|] eqn:Ef.
  - apply list_find_Some in Ef as (Hi & Hx & Hn). exists (take i (timers s)), (drop (S i) (timers s)).
    split; [by rewrite take_drop_middle|]. split; [apply delete_take_drop|]. split; [done|].
    apply Forall_lookup. intros j y [Hj Hlt]%lookup_take_Some. by eapply Hn.
  - apply list_find_None in Ef. split; [done|]. unfold scheduled. apply not_true_is_false.
    intros (x & Hx & Eid)%existsb_exists. apply bool_decide_eq_true in Eid.
    rewrite list.Forall_forall in Ef. by apply (Ef x); [apply list_elem_of_In|].
Qed.

(** Removing timers keeps the order. *)
Lemma unschedule_in_order id s : in_order (timers s) → in_order (timers (unschedule id s).2).
Proof.
  intros Hs. pose proof (unschedule_spec id s) as Hu. destruct (unschedule id s) as [[x|] s'].
  - destruct Hu as (l1 & l2 & Es & E' & _). rewrite Es in Hs. simpl. rewrite E'.
    apply in_order_app in Hs as (H12 & H1 & H2). inv H2. apply in_order_app. split_and!; [|done..].
    intros y z Hy Hz. apply H12; [done|by constructor].
  - by destruct Hu as [-> _].
Qed.

Lemma unschedule_window_in_order window s :
  in_order (timers s) → in_order (timers (unschedule_window window s)).
Proof. apply in_order_filter. Qed.
End Props.

Section Witnesses.
Import Scheduler.

(** A clock that ticks with every reading, and three timers, two of them due. *)
Definition ticking (k : nat) : N := 100 + N.of_nat k.
Definition blinking : Timer.t N N := Timer.mk 90 1 (mkTimerId BlinkCursor 7) (Some 50).
Definition delayed : Timer.t N N := Timer.mk 90 2 (mkTimerId DelayedSearch 7) None.
Definition waiting : Timer.t N N := Timer.mk 120 3 (mkTimerId Frame 8) None.
Definition three : t N N := mk [blinking; delayed; waiting] 0 [].

Lemma three_in_order : in_order (timers three).
Proof. repeat constructor; unfold before; simpl; lia. Qed.

Lemma update_correct_witness :
  in_order (timers three) ∧
  ∃ s', update ticking 4 three = Some (Some 120, s') ∧ sent s' = [1; 2] ∧
    timers s' = [waiting; Timer.mk 151 1 (mkTimerId BlinkCursor 7) (Some 50)].
Proof.
  split; [exact three_in_order|].
  destruct (update_correct ticking three three_in_order) as (s' & E & Hsent & _).
  - by repeat constructor.
  - intros k Hk. unfold ticking. lia.
  - exists s'. vm_compute in E. injection E as _ <-. by split_and!.
Defined.

Lemma schedule_correct_witness :
  in_order (timers three) ∧
  let s' := schedule ticking 4 20 false (mkTimerId Frame 9) three in
  in_order (timers s') ∧ Timer.event <$> timers s' = [1; 2; 3; 4].
Proof.
  split; [exact three_in_order|].
  destruct (schedule_correct ticking 4 20 false (mkTimerId Frame 9) three three_in_order) as [H _].
  split; [exact H|vm_compute; reflexivity].
Defined.
End Witnesses.
