(* ===== verification/FrameDamages.v ===== *)
(** The damage of frames ([cutty/src/display/damage.rs]): the lines and rectangles that have to be
    drawn again, and the rectangles handed to the compositor.

    Pixels are [i32]; the sizes of [SizeInfo<u32>] are [u32].  Both are integers with the checks of
    the checked profile.  The origin of the rectangles is the lower left corner of the window. *)
From S2P Require Import Prelude Index Cells TermData Selections.
#[local] Open Scope Z_scope.

(** * Machine integers of the pixels *)

Definition u32_chk (z : Z) : option Z :=
  if (0 <=? z) && (z <? 4294967296) then Some z else None.
Definition u32_add (a b : Z) : option Z := u32_chk (a + b).
Definition u32_sub (a b : Z) : option Z := u32_chk (a - b).
Definition u32_mul (a b : Z) : option Z := u32_chk (a * b).
Definition i32_mul (a b : Z) : option Z := i32_chk (a * b).
(** [n as u32] for a [usize], [z as i32] for a [u32]. *)
Definition as_u32 (n : nat) : Z := Z.of_nat n mod 4294967296.
Definition wrap_i32 (z : Z) : Z := (z + 2147483648) mod 4294967296 - 2147483648.

(** [SizeInfo<u32>]. *)
Module SizeInfo.
Record t := mk {
  width : Z; height : Z; cell_width : Z; cell_height : Z; padding_x : Z; padding_y : Z;
  screen_lines : nat; columns : nat }.
End SizeInfo.

Module DamageRect.
Record t := mk { x : Z; y : Z; width : Z; height : Z }.
Definition new (x y width height : Z) : t := mk x y width height.
#[export] Instance t_eq_dec : EqDecision t.
Proof. solve_decision. Defined.
End DamageRect.

(** * [struct FrameDamage] *)

Module FrameDamage.
Record t := mk { full : bool; lines : list LineDamageBounds.t; rects : list DamageRect.t }.
Definition default : t := mk false [] [].

Definition damage_line (damage : LineDamageBounds.t) (s : t) : option t :=
  lines ← update_at (LineDamageBounds.line damage)
    (LineDamageBounds.expand (LineDamageBounds.left damage) (LineDamageBounds.right damage)) (lines s);
  Some (mk (full s) lines (rects s)).

Definition damage_point (point : GPoint nat) (s : t) : option t :=
  lines ← update_at (line point) (LineDamageBounds.expand (column point) (column point)) (lines s);
  Some (mk (full s) lines (rects s)).

Definition mark_fully_damaged (s : t) : t := mk true (lines s) (rects s).

(** [viewport_y_to_damage_y] and [damage_y_to_viewport_y]; [total_height] is the height of the
    window, converted to [i32]. *)
Definition viewport_y_to_damage_y (total_height y height : Z) : option Z :=
  y ← i32_sub total_height y; i32_sub y height.
Definition damage_y_to_viewport_y (total_height : Z) (rect : DamageRect.t) : option Z :=
  y ← i32_sub total_height (DamageRect.y rect); i32_sub y (DamageRect.height rect).

Definition add_viewport_rect (total_height x y width height : Z) (s : t) : option t :=
  y ← viewport_y_to_damage_y total_height y height;
  Some (mk (full s) (lines s) (rects s ++ [DamageRect.mk x y width height])).

Definition reset (num_lines num_cols : nat) (s : t) : t :=
  mk false ((λ line, LineDamageBounds.undamaged line num_cols) <$> seq 0 num_lines) [].

(** The range of columns of a line contains a column. *)
Definition contains (b : LineDamageBounds.t) (c : nat) : bool :=
  ((LineDamageBounds.left b <=? c) && (c <=? LineDamageBounds.right b))%nat.

Definition intersects (start end_ : GPoint nat) (s : t) : option bool :=
  start_line ← lines s !! line start;
  end_line ← lines s !! line end_;
  if full s || contains start_line (column start) || contains end_line (column end_) then Some true
  else
    foldM (λ i found, if found : bool then Some true
                      else b ← lines s !! i; Some (LineDamageBounds.is_damaged b))
      (seq (S (line start)) (line end_ - S (line start))) false.
End FrameDamage.

(** * [struct RenderDamageIterator] *)

Module RenderDamageIterator.
Import DamageRect.

Definition rect_for_line (size_info : SizeInfo.t) (line_damage : LineDamageBounds.t) : option t :=
  y_top ← u32_sub (SizeInfo.height size_info) (SizeInfo.padding_y size_info);
  left ← u32_mul (as_u32 (LineDamageBounds.left line_damage)) (SizeInfo.cell_width size_info);
  x ← u32_add (SizeInfo.padding_x size_info) left;
  lower ← u32_mul (as_u32 (LineDamageBounds.line line_damage + 1)) (SizeInfo.cell_height size_info);
  y ← u32_sub y_top lower;
  count ← usize_sub (LineDamageBounds.right line_damage) (LineDamageBounds.left line_damage);
  width ← u32_mul (as_u32 (count + 1)) (SizeInfo.cell_width size_info);
  Some (new (wrap_i32 x) (wrap_i32 y) (wrap_i32 width) (wrap_i32 (SizeInfo.cell_height size_info))).

Definition overdamage (size_info : SizeInfo.t) (rect : t) : option t :=
  let cell_width := wrap_i32 (SizeInfo.cell_width size_info) in
  let cell_height := wrap_i32 (SizeInfo.cell_height size_info) in
  x' ← i32_sub (x rect) cell_width;
  let x' := Z.max x' 0 in
  free ← i32_sub (wrap_i32 (SizeInfo.width size_info)) x';
  both ← i32_mul 2 cell_width;
  wider ← i32_add (width rect) both;
  let width' := Z.min (Z.max free 0) wider in
  y' ← i32_sub (y rect) (Z.quot cell_height 2);
  let y' := Z.max y' 0 in
  free ← i32_sub (wrap_i32 (SizeInfo.height size_info)) y';
  higher ← i32_add (height rect) cell_height;
  let height' := Z.min (Z.max free 0) higher in
  Some (mk x' y' width' height').

(** The disjunction is lazy: a test is only computed when those before it fail. *)
Definition rects_overlap (lhs rhs : t) : option bool :=
  right ← i32_add (x lhs) (width lhs);
  if right <? x rhs then Some false else
  right ← i32_add (x rhs) (width rhs);
  if right <? x lhs then Some false else
  top ← i32_add (y lhs) (height lhs);
  if top <? y rhs then Some false else
  top ← i32_add (y rhs) (height rhs);
  Some (negb (top <? y lhs)).

Definition merge_rects (lhs rhs : t) : option t :=
  let left_x := Z.min (x lhs) (x rhs) in
  right ← i32_add (x lhs) (width lhs);
  right' ← i32_add (x rhs) (width rhs);
  let right_x := Z.max right right' in
  top ← i32_add (y lhs) (height lhs);
  top' ← i32_add (y rhs) (height rhs);
  let y_top := Z.max top top' in
  let y_bottom := Z.min (y lhs) (y rhs) in
  width ← i32_sub right_x left_x;
  height ← i32_sub y_top y_bottom;
  Some (new left_x y_bottom width height).

Definition line_rect (size_info : SizeInfo.t) (line : LineDamageBounds.t) : option t :=
  rect ← rect_for_line size_info line; overdamage size_info rect.

(** The loop of [next]: merging the lines that follow; the lines left are those not yet peeked. *)
Fixpoint merge_next (size_info : SizeInfo.t) (total : t) (lines : list LineDamageBounds.t) :
    option (t * list LineDamageBounds.t) :=
  match lines with
  | [] => Some (total, [])
  | line :: rest =>
      next_rect ← line_rect size_info line;
      overlap ← rects_overlap total next_rect;
      if overlap : bool then
        total ← merge_rects total next_rect;
        merge_next size_info total rest
      else Some (total, lines)
  end.

Definition next (size_info : SizeInfo.t) (lines : list LineDamageBounds.t) :
    option (option t * list LineDamageBounds.t) :=
  match lines with
  | [] => Some (None, [])
  | line :: rest =>
      total ← line_rect size_info line;
      '(total, rest) ← merge_next size_info total rest;
      Some (Some total, rest)
  end.

(** Collecting the iterator. *)
Fixpoint collect (fuel : nat) (size_info : SizeInfo.t) (lines : list LineDamageBounds.t) :
    option (list t) :=
  match fuel with
  | O => None
  | S fuel =>
      '(item, rest) ← next size_info lines;
      match item with
      | None => Some []
      | Some rect => rects ← collect fuel size_info rest; Some (rect :: rects)
      end
  end.
End RenderDamageIterator.

(** * [struct DamageTracker] *)

#[export] Instance SelectionRange_eq_dec : EqDecision SelectionRange.t.
Proof. solve_decision. Defined.

Module DamageTracker.
(** The two frames are the active one and the next one. *)
Record t := mk {
  old_vi_cursor : option (GPoint nat);
  old_selection : option SelectionRange.t;
  debug : bool;
  frame : FrameDamage.t;
  next_frame : FrameDamage.t;
  screen_lines : nat;
  columns : nat;
}.

Definition set_frame (f : FrameDamage.t) (s : t) : t :=
  mk (old_vi_cursor s) (old_selection s) (debug s) f (next_frame s) (screen_lines s) (columns s).
Definition set_next_frame (f : FrameDamage.t) (s : t) : t :=
  mk (old_vi_cursor s) (old_selection s) (debug s) (frame s) f (screen_lines s) (columns s).

Definition resize (screen_lines columns : nat) (s : t) : t :=
  let fresh := FrameDamage.reset screen_lines columns FrameDamage.default in
  mk (old_vi_cursor s) (old_selection s) (debug s) (FrameDamage.mark_fully_damaged fresh) fresh
    screen_lines columns.

Definition new (screen_lines columns : nat) : t :=
  resize screen_lines columns
    (mk None None false FrameDamage.default FrameDamage.default screen_lines columns).

Definition swap_damage (s : t) : t :=
  mk (old_vi_cursor s) (old_selection s) (debug s) (next_frame s)
    (FrameDamage.reset (screen_lines s) (columns s) (frame s)) (screen_lines s) (columns s).

(** [if let Some(point) = point { self.frame().damage_point(point); }]. *)
Definition damage_some (point : option (GPoint nat)) (s : t) : option t :=
  match point with
  | None => Some s
  | Some point => f ← FrameDamage.damage_point point (frame s); Some (set_frame f s)
  end.

Definition damage_vi_cursor (vi_cursor : option (GPoint nat)) (s : t) : option t :=
  let previous := old_vi_cursor s in
  let s := mk vi_cursor (old_selection s) (debug s) (frame s) (next_frame s) (screen_lines s)
             (columns s) in
  if FrameDamage.full (frame s) then Some s
  else s ← damage_some (old_vi_cursor s) s; damage_some previous s.

(** The lines of a selection that are on the screen: [None] if it is invisible. *)
Definition visible_lines (screen_lines display_offset : nat) (selection : SelectionRange.t) :
    option (option (nat * nat)) :=
  let display_offset := as_i32 display_offset in
  last_visible_line ← i32_sub (as_i32 screen_lines) 1;
  bottom ← i32_add (line (SelectionRange.end_ selection)) display_offset;
  if bottom <? 0 then Some None else
  above ← i32_chk (Z.abs (line (SelectionRange.start selection)));
  limit ← i32_sub display_offset last_visible_line;
  if above <? limit then Some None else
  top ← i32_add (line (SelectionRange.start selection)) display_offset;
  bottom ← i32_add (line (SelectionRange.end_ selection)) display_offset;
  (* [clamp] panics when its bounds are not in order. *)
  _ ← ensure (0 <=? last_visible_line);
  Some (Some (as_usize (Z.max top 0), as_usize (Z.min (Z.max bottom 0) last_visible_line))).

Definition damage_lines (first last : nat) (s : t) : option t :=
  foldM (λ line s,
    right ← usize_sub (columns s) 1;
    lines ← update_at line (LineDamageBounds.expand 0 right) (FrameDamage.lines (frame s));
    Some (set_frame (FrameDamage.mk (FrameDamage.full (frame s)) lines (FrameDamage.rects (frame s))) s))
    (seq first (S last - first)) s.

Definition damage_one_selection (display_offset : nat) (selection : SelectionRange.t) (s : t) :
    option t :=
  visible ← visible_lines (screen_lines s) display_offset selection;
  match visible with
  | None => Some s
  | Some (first, last) => damage_lines first last s
  end.

Definition damage_selection (selection : option SelectionRange.t) (display_offset : nat) (s : t) :
    option t :=
  let previous := old_selection s in
  let s := mk (old_vi_cursor s) selection (debug s) (frame s) (next_frame s) (screen_lines s)
             (columns s) in
  if FrameDamage.full (frame s) || bool_decide (previous = selection) then Some s
  else foldM (damage_one_selection display_offset) (option_list selection ++ option_list previous) s.

Definition shape_frame_damage (size_info : SizeInfo.t) (s : t) : option (list DamageRect.t) :=
  if FrameDamage.full (frame s) then
    Some [DamageRect.new 0 0 (wrap_i32 (SizeInfo.width size_info)) (wrap_i32 (SizeInfo.height size_info))]
  else
    let it := TermDamageIterator.new (FrameDamage.lines (frame s)) 0 in
    let lines := TermDamageIterator.collect (S (length (FrameDamage.lines (frame s)))) it in
    rects ← RenderDamageIterator.collect (S (length lines)) size_info lines;
    Some (rects ++ FrameDamage.rects (frame s)).

(** [Display::draw]: the damage of the terminal is added to the frame. *)
Definition add_terminal_damage (damage : TermDamage) (s : t) : option t :=
  match damage with
  | DamageFull => Some (set_frame (FrameDamage.mark_fully_damaged (frame s)) s)
  | DamagePartial damaged_lines =>
      let lines := TermDamageIterator.collect (S (length (TermDamageIterator.line_damage damaged_lines)))
                     damaged_lines in
      f ← foldM FrameDamage.damage_line lines (frame s);
      Some (set_frame f s)
  end.
End DamageTracker.
