(* ===== verification/FrameDamageProps.v ===== *)
(** Properties of the damage of frames: the rectangles handed to the compositor stay on the screen
    and cover every damaged cell; the damage of selections and of the vi mode cursor. *)
From S2P Require Import Prelude Index Cells TermData Selections FrameDamages.
#[local] Open Scope Z_scope.

(** * Machine integers *)

Lemma wp_u32 z (Q : Z → Prop) : 0 <= z < 4294967296 → Q z → wp (u32_chk z) Q.
Proof. intros Hz HQ. unfold u32_chk. rewrite andb_true_intro by (split; lia). done. Qed.

Lemma wp_i32 z (Q : Z → Prop) : I32_MIN <= z <= I32_MAX → Q z → wp (i32_chk z) Q.
Proof. intros Hz HQ. unfold i32_chk, in_i32. rewrite andb_true_intro by (split; lia). done. Qed.

Lemma wrap_small z : 0 <= z <= I32_MAX → wrap_i32 z = z.
Proof. intros Hz. unfold wrap_i32. rewrite Z.mod_small by lia. lia. Qed.

Lemma as_u32_small n : Z.of_nat n < 4294967296 → as_u32 n = Z.of_nat n.
Proof. intros Hn. unfold as_u32. rewrite Z.mod_small by lia. lia. Qed.

(** A step of the computation on pixels: the result fits. *)
Ltac fits :=
  apply wp_bind; first [apply wp_i32_add | apply wp_i32_sub | apply wp_i32]; [lia|].

Section Geometry.
Context (sz : SizeInfo.t).
Abbreviation W := (SizeInfo.width sz).
Abbreviation H := (SizeInfo.height sz).
Abbreviation cw := (SizeInfo.cell_width sz).
Abbreviation ch := (SizeInfo.cell_height sz).
Abbreviation columns := (SizeInfo.columns sz).
Abbreviation lines := (SizeInfo.screen_lines sz).

(** The cells and the padding are inside a window of a reasonable size. *)
Record size_ok : Prop := {
  size_cell : 1 <= cw ∧ 1 <= ch;
  size_padding : 0 <= SizeInfo.padding_x sz ∧ 0 <= SizeInfo.padding_y sz;
  size_width : SizeInfo.padding_x sz + Z.of_nat columns * cw <= W <= 268435456;
  size_height : SizeInfo.padding_y sz + Z.of_nat lines * ch <= H <= 268435456;
}.

(** A rectangle inside the window. *)
Definition on_screen (r : DamageRect.t) : Prop :=
  0 <= DamageRect.x r ∧ 0 <= DamageRect.width r ∧ DamageRect.x r + DamageRect.width r <= W ∧
  0 <= DamageRect.y r ∧ 0 <= DamageRect.height r ∧ DamageRect.y r + DamageRect.height r <= H.

(** The rectangle [s] is inside of [r]. *)
Definition inside (r s : DamageRect.t) : Prop :=
  DamageRect.x r <= DamageRect.x s ∧ DamageRect.y r <= DamageRect.y s ∧
  DamageRect.x s + DamageRect.width s <= DamageRect.x r + DamageRect.width r ∧
  DamageRect.y s + DamageRect.height s <= DamageRect.y r + DamageRect.height r.

Lemma inside_trans r s q : inside r s → inside s q → inside r q.
Proof. unfold inside. lia. Qed.

(** The pixels of a cell; the first line is at the top. *)
Definition cell_rect (l c : nat) : DamageRect.t :=
  DamageRect.mk (SizeInfo.padding_x sz + Z.of_nat c * cw)
    (H - SizeInfo.padding_y sz - (Z.of_nat l + 1) * ch) cw ch.

(** The damage of a line is inside the screen. *)
Definition line_ok (b : LineDamageBounds.t) : Prop :=
  (LineDamageBounds.line b < lines ∧ LineDamageBounds.left b <= LineDamageBounds.right b
   ∧ LineDamageBounds.right b < columns)%nat.

Definition line_inside (r : DamageRect.t) (b : LineDamageBounds.t) : Prop :=
  ∀ c, covers c b → inside r (cell_rect (LineDamageBounds.line b) c).

Import RenderDamageIterator.

(** The products of the geometry stay inside the window. *)
Lemma geometry l c :
  size_ok → (l < lines)%nat → (c < columns)%nat →
  0 <= Z.of_nat c * cw ∧ Z.of_nat c * cw + cw <= Z.of_nat columns * cw ∧
  0 <= Z.of_nat l * ch ∧ Z.of_nat l * ch + ch <= Z.of_nat lines * ch ∧
  Z.of_nat c < W ∧ Z.of_nat l < H.
Proof. intros [[? ?] [? ?] ? ?] Hl Hc. split_and!; nia. Qed.

Lemma rect_for_line_ok b :
  size_ok → line_ok b →
  rect_for_line sz b = Some (DamageRect.mk
    (SizeInfo.padding_x sz + Z.of_nat (LineDamageBounds.left b) * cw)
    (H - SizeInfo.padding_y sz - (Z.of_nat (LineDamageBounds.line b) + 1) * ch)
    ((Z.of_nat (LineDamageBounds.right b) - Z.of_nat (LineDamageBounds.left b) + 1) * cw) ch).
Proof.
  intros Hok (Hl & Hlr & Hr). destruct (geometry _ _ Hok Hl Hr) as (G1 & G2 & G3 & G4 & G5 & G6).
  assert (0 <= Z.of_nat (LineDamageBounds.left b) * cw
          <= Z.of_nat (LineDamageBounds.right b) * cw) as Hlw.
  { destruct Hok as [[? ?] _ _ _]. nia. }
  destruct Hok as [[Hcw Hch] [Hpx Hpy] Hw Hh].
  unfold rect_for_line, u32_add, u32_sub, u32_mul, u32_chk, usize_sub.
  rewrite (proj2 (Nat.leb_le _ _) Hlr). cbn [mbind option_bind].
  rewrite !as_u32_small, !Nat2Z.inj_add, Nat2Z.inj_sub by lia.
  repeat (rewrite andb_true_intro by (split; lia); cbn [mbind option_bind]).
  unfold DamageRect.new. rewrite !wrap_small by lia. do 2 f_equal; lia.
Qed.
Lemma line_rect_ok b :
  size_ok → line_ok b → wp (line_rect sz b) (λ r, on_screen r ∧ line_inside r b).
Proof.
  intros Hok Hb. unfold line_rect. rewrite rect_for_line_ok by done. cbn [mbind option_bind].
  destruct Hb as (Hl & Hlr & Hr). destruct (geometry _ _ Hok Hl Hr) as (G1 & G2 & G3 & G4 & _ & _).
  assert (0 <= Z.of_nat (LineDamageBounds.left b) * cw
          <= Z.of_nat (LineDamageBounds.right b) * cw) as Hlw.
  { destruct Hok as [[? ?] _ _ _]. nia. }
  assert (∀ c, covers c b → Z.of_nat (LineDamageBounds.left b) * cw <= Z.of_nat c * cw
            <= Z.of_nat (LineDamageBounds.right b) * cw) as Hc.
  { destruct Hok as [[? ?] _ _ _]. unfold covers. intros c Hc. nia. }
  destruct Hok as [[Hcw Hch] [Hpx Hpy] Hw Hh].
  assert (0 <= Z.quot ch 2 <= ch) as Hq by (Z.to_euclidean_division_equations; lia).
  unfold overdamage. cbn [DamageRect.x DamageRect.y DamageRect.width DamageRect.height].
  rewrite !wrap_small by lia. unfold i32_mul. do 7 fits. simpl. unfold on_screen, line_inside, inside, cell_rect. simpl.
  split; [lia|]. intros c Hcov. specialize (Hc c Hcov). lia.
Qed.

Lemma rects_overlap_ok r q :
  size_ok → on_screen r → on_screen q → wp (rects_overlap r q) (λ _, True).
Proof.
  intros [_ _ [_ Hw] [_ Hh]] Hr Hq. unfold on_screen in *.
  unfold rects_overlap.
  fits. case_match; [done|]. fits. case_match; [done|]. fits. case_match; [done|]. by fits.
Qed.

Lemma merge_rects_ok r q :
  size_ok → on_screen r → on_screen q →
  wp (merge_rects r q) (λ m, on_screen m ∧ inside m r ∧ inside m q).
Proof.
  intros [_ _ [_ Hw] [_ Hh]] Hr Hq. unfold on_screen in *. unfold merge_rects.
  do 6 fits. simpl. unfold inside. simpl. lia.
Qed.
Lemma line_inside_mono r q b : inside r q → line_inside q b → line_inside r b.
Proof. intros Hrq Hq c Hc. eapply inside_trans; [exact Hrq|by apply Hq]. Qed.

Lemma inside_refl r : inside r r.
Proof. unfold inside. lia. Qed.

Lemma merge_next_ok total ls :
  size_ok → on_screen total → Forall line_ok ls →
  wp (merge_next sz total ls) (λ '(r, rest), on_screen r ∧ inside r total ∧
    ∃ merged, ls = merged ++ rest ∧ Forall (line_inside r) merged).
Proof.
  intros Hok. revert total. induction ls as [|b ls IH]; intros total Ht Hls; simpl.
  { split_and!; [done|apply inside_refl|by exists []]. }
  apply Forall_cons in Hls as [Hb Hls]. apply wp_bind.
  eapply wp_mono; [by apply line_rect_ok|]. intros r [Hr Hrb]. apply wp_bind.
  eapply wp_mono; [by apply rects_overlap_ok|]. intros [] _.
  - apply wp_bind. eapply wp_mono; [by apply merge_rects_ok|]. intros m (Hm & Hmt & Hmr).
    eapply wp_mono; [by apply IH|]. intros [q rest] (Hq & Hqm & merged & -> & Hin).
    split_and!; [done|by eapply inside_trans|]. exists (b :: merged). split; [done|].
    constructor; [|done]. eapply line_inside_mono; [|exact Hrb]. by eapply inside_trans.
  - simpl. split_and!; [done|apply inside_refl|by exists []].
Qed.

Lemma collect_ok fuel ls :
  size_ok → Forall line_ok ls → (length ls < fuel)%nat →
  wp (collect fuel sz ls) (λ rects, Forall on_screen rects ∧
    Forall (λ b, Exists (λ r, line_inside r b) rects) ls).
Proof.
  intros Hok. revert ls. induction fuel as [|fuel IH]; intros ls Hls Hf; [lia|]. cbn [collect].
  destruct ls as [|b ls]; [by simpl|]. cbn [next]. apply Forall_cons in Hls as [Hb Hls].
  apply wp_bind, wp_bind. eapply wp_mono; [by apply line_rect_ok|]. intros r [Hr Hrb]. apply wp_bind.
  eapply wp_mono; [by apply merge_next_ok|]. intros [q rest] (Hq & Hqr & merged & -> & Hin). simpl.
  apply Forall_app in Hls as [_ Hrest]. apply wp_bind.
  eapply wp_mono; [apply IH; [done|]|].
  { simpl in Hf. rewrite length_app in Hf. lia. }
  intros rects [Hs Hc]. simpl. split; [by constructor|]. constructor.
  - constructor. by eapply line_inside_mono.
  - apply Forall_app. split.
    + eapply Forall_impl; [exact Hin|]. intros b' Hb'. by constructor.
    + eapply Forall_impl; [exact Hc|]. intros b' Hb'. by constructor 2.
Qed.
End Geometry.

(** * The tracker *)

Section Tracker.
Implicit Types (f : FrameDamage.t) (s : DamageTracker.t).

(** A frame has a line for every line of the screen; the damage is in the columns. *)
Definition frame_ok (lines columns : nat) f : Prop :=
  length (FrameDamage.lines f) = lines ∧
  ∀ i b, FrameDamage.lines f !! i = Some b →
    LineDamageBounds.line b = i ∧ (LineDamageBounds.right b < columns)%nat.

(** The cell is damaged in the frame. *)
Definition damaged f (l c : nat) : Prop := ∃ b, FrameDamage.lines f !! l = Some b ∧ covers c b.

Definition tracker_ok s : Prop :=
  (0 < DamageTracker.columns s)%nat ∧ (0 < DamageTracker.screen_lines s)%nat ∧
  frame_ok (DamageTracker.screen_lines s) (DamageTracker.columns s) (DamageTracker.frame s) ∧
  frame_ok (DamageTracker.screen_lines s) (DamageTracker.columns s) (DamageTracker.next_frame s).

Lemma reset_ok lines columns f : (0 < columns)%nat → frame_ok lines columns (FrameDamage.reset lines columns f).
Proof.
  intros Hc. split; simpl; [by rewrite length_fmap, length_seq|].
  intros i b Hb. rewrite list_lookup_fmap, fmap_Some in Hb.
  destruct Hb as (j & [-> Hj]%lookup_seq & ->). simpl. lia.
Qed.

(** Expanding the damage of a line. *)
Lemma expand_ok lines columns f l left right :
  frame_ok lines columns f → (l < lines)%nat → (left <= right < columns)%nat →
  wp (update_at l (LineDamageBounds.expand left right) (FrameDamage.lines f)) (λ ls,
    let f' := FrameDamage.mk (FrameDamage.full f) ls (FrameDamage.rects f) in
    frame_ok lines columns f' ∧
    (∀ i c, damaged f i c ∨ (i = l ∧ (left <= c <= right)%nat) → damaged f' i c) ∧
    (∀ i, i ≠ l → ls !! i = FrameDamage.lines f !! i)).
Proof.
  intros [Hlen Hf] Hl Hr. destruct (lookup_lt_is_Some_2 (FrameDamage.lines f) l) as [b Hb]; [lia|].
  rewrite (update_at_ok _ _ _ _ Hb). cbn [wp]. split; [split|split].
  - simpl. by rewrite length_insert.
  - intros i b' Hb'. simpl in Hb'. destruct (Hf _ _ Hb) as [Hlb Hrb].
    apply list_lookup_insert_Some in Hb' as [(<- & <- & _)|[_ Hi]]; [|by apply Hf]. simpl. split; [done|lia].
  - intros i c Hic. unfold damaged. simpl. destruct (decide (i = l)) as [->|Hne].
    + rewrite list_lookup_insert_eq by lia. eexists. split; [done|]. apply expand_covers.
      destruct Hic as [(b' & Hb' & Hc)|[_ ?]]; [|by right]. left. by simplify_eq.
    + rewrite list_lookup_insert_ne by done. by destruct Hic as [?|[-> _]].
  - intros i Hi. by rewrite list_lookup_insert_ne.
Qed.
(** ** The rectangles *)

(** A rectangle of the window that is added to a frame stays inside the window, upside down. *)
Lemma add_viewport_rect_on_screen sz x y width height f :
  SizeInfo.height sz <= 268435456 → on_screen sz (DamageRect.mk x y width height) →
  Forall (on_screen sz) (FrameDamage.rects f) →
  wp (FrameDamage.add_viewport_rect (SizeInfo.height sz) x y width height f)
    (λ f', Forall (on_screen sz) (FrameDamage.rects f')).
Proof.
  intros Hh Hr Hf. unfold on_screen in Hr. simpl in Hr.
  unfold FrameDamage.add_viewport_rect, FrameDamage.viewport_y_to_damage_y.
  rewrite !i32_sub_ok by lia. cbn [mbind option_bind wp]. rewrite i32_sub_ok by lia.
  cbn [mbind option_bind wp FrameDamage.rects]. apply Forall_app. split; [done|].
  constructor; [|done]. unfold on_screen. simpl. lia.
Qed.

(** ** Adding damage *)

(** [s'] is [s] with more damage in its frame: whole lines where [whole] holds, and nothing where
    [kept] holds. *)
Definition extends (whole kept : nat → Prop) s s' : Prop :=
  tracker_ok s' ∧ DamageTracker.screen_lines s' = DamageTracker.screen_lines s ∧
  DamageTracker.columns s' = DamageTracker.columns s ∧
  DamageTracker.old_selection s' = DamageTracker.old_selection s ∧
  DamageTracker.old_vi_cursor s' = DamageTracker.old_vi_cursor s ∧
  FrameDamage.full (DamageTracker.frame s') = FrameDamage.full (DamageTracker.frame s) ∧
  DamageTracker.next_frame s' = DamageTracker.next_frame s ∧
  (∀ l c, damaged (DamageTracker.frame s) l c → damaged (DamageTracker.frame s') l c) ∧
  (∀ l c, whole l → (l < DamageTracker.screen_lines s)%nat → (c < DamageTracker.columns s)%nat →
    damaged (DamageTracker.frame s') l c) ∧
  (∀ l, kept l → FrameDamage.lines (DamageTracker.frame s') !! l
                 = FrameDamage.lines (DamageTracker.frame s) !! l).

Lemma extends_refl (whole kept : nat → Prop) s :
  tracker_ok s → (∀ l, (l < DamageTracker.screen_lines s)%nat → ¬ whole l) → extends whole kept s s.
Proof. intros Hs Hw. unfold extends. do 9 (split; [try done|]); [|done]. intros l c Hl Hlt. by destruct (Hw l Hlt). Qed.

Lemma extends_trans (whole whole' kept : nat → Prop) s1 s2 s3 :
  extends whole kept s1 s2 → extends whole' kept s2 s3 →
  extends (λ l, whole l ∨ whole' l) kept s1 s3.
Proof.
  intros (H1 & E1 & F1 & G1 & V1 & U1 & N1 & D1 & W1 & K1) (H2 & E2 & F2 & G2 & V2 & U2 & N2 & D2 & W2 & K2).
  rewrite E1, F1 in *. unfold extends. do 7 (split; [congruence|]). split; [by auto|]. split.
  - intros l c [Hl|Hl] ? ?; [by apply D2, W1|by apply W2].
  - intros l Hl. rewrite K2 by done. by apply K1.
Qed.

Lemma extends_impl (whole whole' kept kept' : nat → Prop) s s' :
  (∀ l, (l < DamageTracker.screen_lines s)%nat → whole' l → whole l) → (∀ l, kept' l → kept l) →
  extends whole kept s s' → extends whole' kept' s s'.
Proof.
  intros Hw Hk (H1 & E1 & F1 & G1 & V1 & U1 & N1 & D1 & W1 & K1). unfold extends.
  do 8 (split; [done|]). split; [|by auto]. intros l c Hl Hlt Hc. apply W1; auto.
Qed.

Lemma damage_lines_ok first last s :
  tracker_ok s → (last < DamageTracker.screen_lines s)%nat →
  wp (DamageTracker.damage_lines first last s)
    (extends (λ l, (first <= l <= last)%nat) (λ l, ¬ (first <= l <= last)%nat) s).
Proof.
  intros Hs Hlast. unfold DamageTracker.damage_lines.
  eapply wp_mono; [apply (wp_foldM _ _ (λ i, extends (λ l, (first <= l < first + i)%nat)
                            (λ l, ¬ (first <= l <= last)%nat) s))|].
  - apply extends_refl; [done|lia].
  - intros i l s1 Hl Hi. apply lookup_seq in Hl as [-> Hi2].
    pose proof Hi as ((Hc & Hl & Hf & Hn) & E1 & F1 & _).
    rewrite usize_sub_ok by lia. cbn [mbind option_bind]. apply wp_bind.
    eapply wp_mono; [apply (expand_ok (DamageTracker.screen_lines s1) (DamageTracker.columns s1)); [done|lia|lia]|].
    intros ls (Hf' & Hd & Hk). cbn [wp].
    eapply extends_impl; [| |eapply extends_trans; [exact Hi|]].
    2: { by intros. }
    + intros l Hlt Hin. instantiate (1 := λ l, l = (first + i)%nat). simpl. lia.
    + unfold extends. simpl.
      split; [by split_and!|]. do 6 (split; [done|]). split; [intros; apply Hd; by left|]. split.
      * intros l c -> _ Hcl. apply Hd. right. lia.
      * intros l Hl'. apply Hk. lia.
  - intros s'. rewrite length_seq. apply extends_impl; [lia|done].
Qed.
(** *** Selections *)

(** The ends of a selection are in order and far from the limits of [i32]. *)
Definition selection_ok (r : SelectionRange.t) : Prop :=
  -1073741824 <= line (SelectionRange.start r) <= line (SelectionRange.end_ r)
  ∧ line (SelectionRange.end_ r) <= 1073741823.

(** The line of the screen shows a line of the selection. *)
Definition shows (offset : nat) (r : SelectionRange.t) (l : nat) : Prop :=
  line (SelectionRange.start r) <= Z.of_nat l - Z.of_nat offset <= line (SelectionRange.end_ r).

Definition small (n : nat) : Prop := Z.of_nat n <= 1073741823.

Lemma visible_lines_ok lines offset r :
  (0 < lines)%nat → small lines → small offset → selection_ok r →
  wp (DamageTracker.visible_lines lines offset r) (λ v,
    match v with
    | None => ∀ l, (l < lines)%nat → ¬ shows offset r l
    | Some (first, last) => (last < lines)%nat ∧
        ∀ l, (l < lines)%nat → (first <= l <= last)%nat ↔ shows offset r l
    end).
Proof.
  intros Hl Hlines Hoffset [Hr Hr']. unfold DamageTracker.visible_lines, shows, small in *.
  rewrite !as_i32_small by lia. fits. fits. case_match; [simpl; lia|]. fits. fits.
  case_match; [simpl; lia|]. fits. fits.
  apply wp_bind, wp_ensure; [lia|]. simpl. rewrite !as_usize_small by lia.
  split; [lia|]. intros l Hlt. split; lia.
Qed.

Lemma damage_one_selection_ok offset r s :
  tracker_ok s → small (DamageTracker.screen_lines s) → small offset → selection_ok r →
  wp (DamageTracker.damage_one_selection offset r s)
    (extends (shows offset r) (λ l, (l < DamageTracker.screen_lines s)%nat ∧ ¬ shows offset r l) s).
Proof.
  intros Hs Hl Ho Hr. unfold DamageTracker.damage_one_selection. apply wp_bind.
  eapply wp_mono; [apply visible_lines_ok; [apply Hs|done..]|]. intros [[first last]|] Hv.
  - destruct Hv as [Hlast Hv]. eapply wp_mono; [by apply damage_lines_ok|]. intros s'.
    apply extends_impl; [intros l Hlt Hsh; by apply Hv|]. intros l [Hlt Hsh] Hin. by apply Hsh, Hv.
  - cbn [wp]. by apply extends_refl.
Qed.

(**  The damage of selections: when the selection changes, all columns of the lines that show
    the new or the old selection are damaged, the other lines are as before; nothing is lost, and
    the new selection is remembered. *)
Theorem damage_selection_correct selection offset s :
  tracker_ok s → small (DamageTracker.screen_lines s) → small offset →
  (∀ r, selection = Some r ∨ DamageTracker.old_selection s = Some r → selection_ok r) →
  let changed l := FrameDamage.full (DamageTracker.frame s) = false ∧
    DamageTracker.old_selection s ≠ selection ∧
    ∃ r, (selection = Some r ∨ DamageTracker.old_selection s = Some r) ∧ shows offset r l in
  ∃ s', DamageTracker.damage_selection selection offset s = Some s' ∧ tracker_ok s' ∧
    DamageTracker.old_selection s' = selection ∧
    (∀ l c, (l < DamageTracker.screen_lines s)%nat → (c < DamageTracker.columns s)%nat →
      damaged (DamageTracker.frame s) l c ∨ changed l → damaged (DamageTracker.frame s') l c) ∧
    (∀ l, (l < DamageTracker.screen_lines s)%nat → ¬ changed l →
      FrameDamage.lines (DamageTracker.frame s') !! l = FrameDamage.lines (DamageTracker.frame s) !! l).
Proof.
  intros Hs Hl Ho Hsel changed. unfold DamageTracker.damage_selection.
  set (s1 := DamageTracker.mk _ _ _ _ _ _ _). cbn [DamageTracker.frame s1].
  assert (tracker_ok s1) as Hs1 by done.
  destruct (FrameDamage.full _) eqn:Ef; [|case_bool_decide as Eq]; cbn [orb].
  1, 2: exists s1; do 3 (split; [done|]); split; [|done];
    by intros l c Hlt Hc [?|(? & ? & _)].
  cut (wp (foldM (DamageTracker.damage_one_selection offset)
             (option_list selection ++ option_list (DamageTracker.old_selection s)) s1)
         (extends changed (λ l, (l < DamageTracker.screen_lines s)%nat ∧ ¬ changed l) s1)).
  { intros (s' & -> & Hs' & _ & _ & Eold & _ & _ & _ & Hd & Hw & Hk)%wp_some.
    exists s'. split; [done|]. split; [done|]. split; [done|]. split; [|by auto].
    intros l c Hlt Hc [?|?]; [by apply Hd|by apply Hw]. }
  eapply wp_mono; [apply (wp_foldM _ _ (λ i, extends
    (λ l, Exists (λ r, shows offset r l) (take i (option_list selection ++ option_list (DamageTracker.old_selection s))))
    (λ l, (l < DamageTracker.screen_lines s)%nat ∧ ¬ changed l) s1))|].
  - apply extends_refl; [done|]. intros l _ Hex. by apply Exists_nil in Hex.
  - intros i r s2 Hi H2. pose proof H2 as (Hs2 & El & _).
    assert (selection = Some r ∨ DamageTracker.old_selection s = Some r) as Hr.
    { apply list_elem_of_lookup_2 in Hi. apply elem_of_app in Hi as [Hi|Hi];
        [left; destruct selection|right; destruct (DamageTracker.old_selection s)]; simpl in Hi; try by inv Hi.
      - by apply list_elem_of_singleton in Hi as ->.
      - by apply list_elem_of_singleton in Hi as ->. }
    eapply wp_mono; [apply damage_one_selection_ok; [done|by rewrite El|done|by apply Hsel]|].
    intros s3 H3. eapply extends_impl; [| |eapply extends_trans; [exact H2|]].
    3: { eapply extends_impl; [| |exact H3]; [intros l Hlt; exact id|].
         intros l [Hlt Hc]. rewrite El. split; [done|]. intros Hsh. apply Hc. unfold changed. eauto 6. }
    + intros l Hlt. cbn. rewrite (take_S_r _ _ _ Hi). intros Hex.
      apply Exists_app in Hex as [|Hex]; [by left|right]. by apply Exists_cons in Hex as [|?%Exists_nil].
    + done.
  - intros s'. rewrite firstn_all. apply extends_impl; [|done].
    intros l Hlt (_ & _ & r & Hr & Hsh). apply Exists_exists. exists r. split; [|done].
    apply elem_of_app. destruct Hr as [-> | ->]; [left|right]; by apply list_elem_of_singleton.
Qed.
(** *** Points and the damage of the terminal *)

Lemma frame_damage_line_ok lines columns f b :
  frame_ok lines columns f → (LineDamageBounds.line b < lines)%nat →
  (LineDamageBounds.left b <= LineDamageBounds.right b < columns)%nat →
  wp (FrameDamage.damage_line b f) (λ f', frame_ok lines columns f' ∧
    FrameDamage.full f' = FrameDamage.full f ∧
    ∀ l c, damaged f l c ∨ (l = LineDamageBounds.line b ∧ covers c b) → damaged f' l c).
Proof.
  intros Hf Hl Hr. unfold FrameDamage.damage_line. apply wp_bind.
  eapply wp_mono; [by apply (expand_ok lines columns)|]. intros ls (Hf' & Hd & _). cbn [wp].
  split; [done|]. split; [done|]. apply Hd.
Qed.

(** The damage a terminal of this size reports. *)
Definition terminal_damage_ok (lines columns : nat) (it : TermDamageIterator.t) : Prop :=
  Forall (λ b, (LineDamageBounds.line b + TermDamageIterator.display_offset it < lines)%nat
               ∧ (LineDamageBounds.right b < columns)%nat) (TermDamageIterator.line_damage it).

(** Adding the damage of the terminal to the frame does not panic, and every damaged cell of
    the terminal is damaged in the frame, on the line that shows it. *)
Lemma terminal_damage_added it s :
  tracker_ok s →
  terminal_damage_ok (DamageTracker.screen_lines s) (DamageTracker.columns s) it →
  ∃ s', DamageTracker.add_terminal_damage (DamagePartial it) s = Some s' ∧ tracker_ok s' ∧
    (∀ l c, damaged (DamageTracker.frame s) l c → damaged (DamageTracker.frame s') l c) ∧
    ∀ b c, b ∈ TermDamageIterator.line_damage it → covers c b →
      damaged (DamageTracker.frame s')
        (LineDamageBounds.line b + TermDamageIterator.display_offset it) c.
Proof.
  intros (Hc & Hl & Hf & Hn) Hit. unfold DamageTracker.add_terminal_damage.
  destruct it as [ls offset]. unfold terminal_damage_ok in Hit. cbv zeta.
  cbn [TermDamageIterator.line_damage TermDamageIterator.display_offset] in *.
  rewrite collect_filter by lia. set (bs := _ <$> filter _ _).
  assert (∀ b, b ∈ bs → (LineDamageBounds.line b < DamageTracker.screen_lines s)%nat ∧
    (LineDamageBounds.left b <= LineDamageBounds.right b < DamageTracker.columns s)%nat) as Hbs.
  { intros b' (b & -> & [Hd Hb]%list_elem_of_filter)%list_elem_of_fmap.
    rewrite list.Forall_forall in Hit. destruct (Hit b Hb). apply Nat.leb_le in Hd. simpl. lia. }
  cut (wp (foldM FrameDamage.damage_line bs (DamageTracker.frame s)) (λ f',
    frame_ok (DamageTracker.screen_lines s) (DamageTracker.columns s) f' ∧
    (∀ l c, damaged (DamageTracker.frame s) l c → damaged f' l c) ∧
    ∀ b c, b ∈ take (length bs) bs → covers c b → damaged f' (LineDamageBounds.line b) c)).
  { intros (f' & -> & Hf' & Hd & Hin)%wp_some. eexists. split; [done|]. split; [done|].
    split; [exact Hd|]. intros b c Hb Hbc. rewrite firstn_all in Hin.
    apply (Hin (LineDamageBounds.new (LineDamageBounds.line b + offset) (LineDamageBounds.left b)
                  (LineDamageBounds.right b))); [|done].
    apply list_elem_of_fmap. exists b. split; [done|]. apply list_elem_of_filter.
    split; [by eapply covers_damaged|done]. }
  apply (wp_foldM _ _ (λ i f', _ ∧ _ ∧ ∀ b c, b ∈ take i bs → covers c b →
           damaged f' (LineDamageBounds.line b) c)).
  - split; [done|]. split; [done|]. by intros b c ?%elem_of_nil.
  - intros i b f1 Hi (Hf1 & Hd1 & Hin1).
    destruct (Hbs b) as [Hb1 Hb2]; [by eapply list_elem_of_lookup_2|].
    eapply wp_mono; [by apply frame_damage_line_ok|]. intros f2 (Hf2 & _ & Hd2).
    split; [done|]. split; [by auto|]. intros b' c. rewrite (take_S_r _ _ _ Hi).
    intros [Hb'|Hb']%elem_of_app Hcov; apply Hd2.
    + left. auto.
    + apply list_elem_of_singleton in Hb' as ->. by right.
Qed.

(** A point of the screen. *)
Definition point_on_screen s (p : GPoint nat) : Prop :=
  (line p < DamageTracker.screen_lines s ∧ column p < DamageTracker.columns s)%nat.

Lemma damage_some_ok point s :
  tracker_ok s → (∀ p, point = Some p → point_on_screen s p) →
  wp (DamageTracker.damage_some point s) (λ s', tracker_ok s' ∧
    DamageTracker.screen_lines s' = DamageTracker.screen_lines s ∧
    DamageTracker.columns s' = DamageTracker.columns s ∧
    DamageTracker.old_vi_cursor s' = DamageTracker.old_vi_cursor s ∧
    ∀ l c, damaged (DamageTracker.frame s) l c ∨ point = Some (Pt l c) →
      damaged (DamageTracker.frame s') l c).
Proof.
  intros Hs Hp. destruct point as [p|]; simpl.
  2: { do 4 (split; [done|]). by intros l c [?|?]. }
  destruct Hs as (Hc & Hl & Hf & Hn). destruct (Hp p eq_refl) as [Hpl Hpc]. apply wp_bind.
  unfold FrameDamage.damage_point. apply wp_bind.
  eapply wp_mono; [by apply (expand_ok _ _ _ _ _ _ Hf)|]. intros ls (Hf' & Hd & _). cbn [wp].
  do 4 (split; [done|]). intros l c Hlc. apply Hd.
  destruct Hlc as [?|[= ->]]; [by left|right]. simpl. lia.
Qed.

(** The old and the new place of the vi mode cursor are damaged. *)
Lemma damage_vi_cursor_ok vi_cursor s :
  tracker_ok s → FrameDamage.full (DamageTracker.frame s) = false →
  (∀ p, vi_cursor = Some p ∨ DamageTracker.old_vi_cursor s = Some p → point_on_screen s p) →
  wp (DamageTracker.damage_vi_cursor vi_cursor s) (λ s', tracker_ok s' ∧
    DamageTracker.old_vi_cursor s' = vi_cursor ∧
    ∀ l c, damaged (DamageTracker.frame s) l c ∨ vi_cursor = Some (Pt l c)
        ∨ DamageTracker.old_vi_cursor s = Some (Pt l c) →
      damaged (DamageTracker.frame s') l c).
Proof.
  intros Hs Hfull Hp. unfold DamageTracker.damage_vi_cursor. cbn [DamageTracker.frame]. rewrite Hfull.
  apply wp_bind. eapply wp_mono; [apply damage_some_ok; [done|]|].
  { intros p Ep. apply Hp. by left. }
  intros s1 (Hs1 & El & Ec & Ev & Hd). eapply wp_mono; [apply damage_some_ok; [done|]|].
  { intros p Ep. unfold point_on_screen. rewrite El, Ec. apply Hp. by right. }
  intros s2 (Hs2 & _ & _ & Ev2 & Hd2). split; [done|]. split; [by rewrite Ev2, Ev|].
  intros l c [?|[?|?]]; apply Hd2; [left; apply Hd; by left|left; apply Hd; by right|by right].
Qed.

(** *** Frames *)

Lemma resize_tracker_ok lines columns s :
  (0 < lines)%nat → (0 < columns)%nat → tracker_ok (DamageTracker.resize lines columns s).
Proof. intros Hl Hc. split_and!; [done|done|by apply reset_ok..]. Qed.

Lemma swap_tracker_ok s : tracker_ok s → tracker_ok (DamageTracker.swap_damage s).
Proof. intros (Hc & Hl & Hf & Hn). split_and!; [done|done|done|by apply reset_ok]. Qed.
(** ** The methods *)

(** The calls of the display, with their arguments. *)
Inductive call :=
  | CallResize (lines columns : nat) | CallSwap
  | CallViCursor (point : option (GPoint nat))
  | CallSelection (selection : option SelectionRange.t) (offset : nat)
  | CallTerminal (damage : TermDamage)
  | CallLine (b : LineDamageBounds.t) | CallNextLine (b : LineDamageBounds.t)
  | CallPoint (point : GPoint nat) | CallFull | CallNextFull.

Definition run_call (cl : call) s : option DamageTracker.t :=
  let frame := DamageTracker.frame s in
  let next := DamageTracker.next_frame s in
  match cl with
  | CallResize lines columns => Some (DamageTracker.resize lines columns s)
  | CallSwap => Some (DamageTracker.swap_damage s)
  | CallViCursor point => DamageTracker.damage_vi_cursor point s
  | CallSelection selection offset => DamageTracker.damage_selection selection offset s
  | CallTerminal damage => DamageTracker.add_terminal_damage damage s
  | CallLine b => f ← FrameDamage.damage_line b frame; Some (DamageTracker.set_frame f s)
  | CallNextLine b => f ← FrameDamage.damage_line b next; Some (DamageTracker.set_next_frame f s)
  | CallPoint point => DamageTracker.damage_some (Some point) s
  | CallFull => Some (DamageTracker.set_frame (FrameDamage.mark_fully_damaged frame) s)
  | CallNextFull => Some (DamageTracker.set_next_frame (FrameDamage.mark_fully_damaged next) s)
  end.

(** A damaged line of the screen. *)
Definition bounds_on_screen s (b : LineDamageBounds.t) : Prop :=
  (LineDamageBounds.line b < DamageTracker.screen_lines s ∧
   LineDamageBounds.left b <= LineDamageBounds.right b < DamageTracker.columns s)%nat.

(** The arguments are those of a screen of the tracker's size, and so are the selection and the
    cursor it remembers. *)
Definition call_ok (cl : call) s : Prop :=
  match cl with
  | CallResize lines columns => (0 < lines ∧ 0 < columns)%nat
  | CallSwap | CallFull | CallNextFull | CallTerminal DamageFull => True
  | CallViCursor point =>
      ∀ p, point = Some p ∨ DamageTracker.old_vi_cursor s = Some p → point_on_screen s p
  | CallSelection selection offset =>
      small (DamageTracker.screen_lines s) ∧ small offset ∧
      ∀ r, selection = Some r ∨ DamageTracker.old_selection s = Some r → selection_ok r
  | CallTerminal (DamagePartial it) =>
      terminal_damage_ok (DamageTracker.screen_lines s) (DamageTracker.columns s) it
  | CallLine b | CallNextLine b => bounds_on_screen s b
  | CallPoint point => point_on_screen s point
  end.

Lemma damage_selection_ok selection offset s :
  tracker_ok s → call_ok (CallSelection selection offset) s →
  wp (DamageTracker.damage_selection selection offset s) tracker_ok.
Proof.
  intros Hs (Hl & Ho & Hsel). unfold DamageTracker.damage_selection.
  set (s1 := DamageTracker.mk _ _ _ _ _ _ _). cbn [DamageTracker.frame s1].
  case_match; [done|]. eapply wp_mono.
  - apply (wp_foldM_inv _ _ (λ s', tracker_ok s' ∧
      DamageTracker.screen_lines s' = DamageTracker.screen_lines s)); [done|].
    intros r s2 Hr [Hs2 El]. eapply wp_mono.
    + apply damage_one_selection_ok; [done|by rewrite El|done|]. apply Hsel.
      apply elem_of_app in Hr as [Hr|Hr]; [left; destruct selection|right; destruct (DamageTracker.old_selection s)];
        try (by apply elem_of_nil in Hr); by apply list_elem_of_singleton in Hr as ->.
    + intros s3 (Hs3 & El3 & _). split; [done|congruence].
  - by intros s' [? _].
Qed.

(** C27.  Every method of the tracker, called with arguments of the screen's size, succeeds and
    keeps the tracker well-formed: each frame has one line for every line of the screen, at its own
    index, whose damage ends before the last column. *)
Theorem calls_well_formed (cl : call) s :
  tracker_ok s → call_ok cl s → ∃ s', run_call cl s = Some s' ∧ tracker_ok s'.
Proof.
  intros Hs Hcl. apply wp_some. pose proof Hs as (Hc & Hl & Hf & Hn).
  destruct cl as [lines columns| |point|selection offset|damage|b|b|point| |]; cbn [run_call call_ok] in *.
  - destruct Hcl. by apply resize_tracker_ok.
  - by apply swap_tracker_ok.
  - destruct (FrameDamage.full (DamageTracker.frame s)) eqn:Ef.
    + unfold DamageTracker.damage_vi_cursor. cbn [DamageTracker.frame]. by rewrite Ef.
    + eapply wp_mono; [by apply damage_vi_cursor_ok|]. by intros s' [? _].
  - by apply damage_selection_ok.
  - destruct damage as [|it]; [done|].
    destruct (terminal_damage_added it s Hs Hcl) as (s' & -> & Hs' & _). done.
  - destruct Hcl as [? ?]. wp_step. eapply wp_mono; [by apply frame_damage_line_ok|].
    intros f (Hf' & _). cbn [wp]. split; [done|]. split; [done|]. by split.
  - destruct Hcl as [? ?]. wp_step. eapply wp_mono; [by apply frame_damage_line_ok|].
    intros f (Hf' & _). by split_and!.
  - eapply wp_mono; [apply damage_some_ok; [done|by intros p [= <-]]|]. by intros s' [? _].
  - done.
  - done.
Qed.
End Tracker.

(** * Witnesses *)

Section Witnesses.
Import DamageTracker.

(** Three lines of four columns, with a padding of two pixels. *)
Definition small_window : SizeInfo.t := SizeInfo.mk 44 64 10 20 2 2 3 4.

Lemma small_window_ok : size_ok small_window.
Proof. split; simpl; lia. Qed.

(** A tracker after its first, fully damaged frame. *)
Definition drawn : t := swap_damage (new 3 4).

Lemma drawn_ok : tracker_ok drawn.
Proof. apply swap_tracker_ok, resize_tracker_ok; lia. Qed.

Definition some_damage : option t := damage_vi_cursor (Some (Pt 1 2)%nat) drawn.
Definition damaged_tracker : t := default drawn some_damage.

Lemma damaged_tracker_ok : tracker_ok damaged_tracker.
Proof.
  unfold damaged_tracker, some_damage. pose proof (damage_vi_cursor_ok (Some (Pt 1 2)%nat) drawn drawn_ok eq_refl) as Hw.
  destruct (damage_vi_cursor _ _); [|exact drawn_ok]. apply Hw.
  intros p [[= <-]|[=]]. unfold point_on_screen. simpl. lia.
Qed.


Definition selected : SelectionRange.t := SelectionRange.mk (Pt (-1) 2%nat) (Pt 1 1%nat) false.

Lemma damage_selection_correct_witness :
  tracker_ok drawn ∧ selection_ok selected ∧
  ∃ s', damage_selection (Some selected) 0 drawn = Some s' ∧
    damaged (frame s') 0 3 ∧ damaged (frame s') 1 0 ∧
    FrameDamage.lines (frame s') !! 2%nat = FrameDamage.lines (frame drawn) !! 2%nat.
Proof.
  assert (selection_ok selected) as Hsel by (unfold selection_ok; simpl; lia).
  split; [exact drawn_ok|]. split; [exact Hsel|].
  destruct (damage_selection_correct (Some selected) 0 drawn drawn_ok) as (s' & E & _ & _ & Hd & Hk).
  - unfold small. simpl. lia.
  - unfold small. simpl. lia.
  - intros r [[= <-]|[=]]. exact Hsel.
  - exists s'. split; [exact E|]. split; [|split].
    + apply Hd; [simpl; lia|simpl; lia|]. right. split; [done|]. split; [done|].
      exists selected. split; [by left|]. unfold shows. simpl. lia.
    + apply Hd; [simpl; lia|simpl; lia|]. right. split; [done|]. split; [done|].
      exists selected. split; [by left|]. unfold shows. simpl. lia.
    + apply Hk; [simpl; lia|]. intros (_ & _ & r & [[= <-]|[=]] & Hsh). unfold shows in Hsh.
      simpl in Hsh. lia.
Defined.

(** The damage of a terminal that is scrolled by one line. *)
Definition scrolled : TermDamageIterator.t :=
  TermDamageIterator.mk [LineDamageBounds.mk 0 1 3; LineDamageBounds.mk 1 4 0] 1.

Lemma terminal_damage_added_sample :
  tracker_ok drawn ∧ terminal_damage_ok 3 4 scrolled ∧
  ∃ s', add_terminal_damage (DamagePartial scrolled) drawn = Some s' ∧ damaged (frame s') 1 2.
Proof.
  assert (terminal_damage_ok 3 4 scrolled) as Ht by (repeat constructor; simpl; lia).
  split; [exact drawn_ok|]. split; [exact Ht|].
  destruct (terminal_damage_added scrolled drawn drawn_ok Ht) as (s' & E & _ & _ & Hd).
  exists s'. split; [exact E|].
  apply (Hd (LineDamageBounds.mk 0 1 3) 2%nat); [by left|unfold covers; simpl; lia].
Defined.

Lemma calls_well_formed_witness :
  tracker_ok drawn ∧ call_ok (CallTerminal (DamagePartial scrolled)) drawn ∧
  ∃ s', run_call (CallTerminal (DamagePartial scrolled)) drawn = Some s' ∧ tracker_ok s'.
Proof.
  assert (call_ok (CallTerminal (DamagePartial scrolled)) drawn) as Hcl
    by (repeat constructor; simpl; lia).
  split; [exact drawn_ok|]. split; [exact Hcl|].
  exact (calls_well_formed (CallTerminal (DamagePartial scrolled)) drawn drawn_ok Hcl).
Defined.

(** The height of a window may be less than that of its only line: the subtraction overflows. *)
Example window_lower_than_a_line :
  RenderDamageIterator.rect_for_line (SizeInfo.mk 100 10 10 20 0 0 1 10) (LineDamageBounds.mk 0 0 3)
  = None.
Proof. reflexivity. Qed.
End Witnesses.
