(* ===== verification/Hints.v ===== *)
(** Hints ([cutty/src/display/hint.rs]): the labels, the selection of a match by its label, the
    matches of regular expressions and hyperlinks on the screen, and the heuristics that shorten
    them.

    The expression of a hint is compiled on demand ([LazyRegexVariant] of
    [cutty/src/config/ui_config.rs]); the compiler is a parameter.  Loops over cells have the
    number of cells of the buffer as fuel; [rfuel] is the fuel of the search for the expression and
    of the loops over its matches, which do not always end. *)
From S2P Require Import Prelude Index Cells Rows Storages Grids Resizes TermData Selections Terms.
From S2P Require Import Handlers Searches ViModes Keys Bindings.
#[local] Open Scope Z_scope.

(** * Labels *)

Module HintLabels.
Record t := mk { alphabet : list char; indices : list nat; split_point : nat }.

(** [split_ratio] is [HINT_SPLIT_PERCENTAGE], one half: the product is exact and the conversion
    rounds it down.  An empty alphabet panics. *)
Definition new (alphabet : list char) : option t :=
  last ← usize_sub (length alphabet) 1;
  Some (mk alphabet [0%nat] (last / 2)%nat).

(** The loop of [increment] over the indices after the first: [inl] when one was incremented,
    [inr] when all were reset. *)
Fixpoint carry (split_point alphabet_len : nat) (l : list nat) : list nat + list nat :=
  match l with
  | [] => inr []
  | index :: l =>
      if (index + 1 =? alphabet_len)%nat then
        match carry split_point alphabet_len l with
        | inl l => inl (split_point + 1 :: l)%nat
        | inr l => inr (split_point + 1 :: l)%nat
        end
      else inl (index + 1 :: l)%nat
  end.

Definition increment (s : t) : option t :=
  match indices s with
  | [] => None
  | tail :: rest =>
      if (tail <? split_point s)%nat then Some (mk (alphabet s) (tail + 1 :: rest)%nat (split_point s))
      else
        match carry (split_point s) (length (alphabet s)) rest with
        | inl rest => Some (mk (alphabet s) (0 :: rest)%nat (split_point s))
        | inr rest => Some (mk (alphabet s) ((0 :: rest) ++ [split_point s + 1])%nat (split_point s))
        end
  end.

Definition next (s : t) : option (list char * t) :=
  characters ← mapM (λ index, alphabet s !! index) (reverse (indices s));
  s ← increment s;
  Some (characters, s).

(** The first [n] labels. *)
Fixpoint take_labels (n : nat) (s : t) : option (list (list char)) :=
  match n with
  | O => Some []
  | S n => '(label, s) ← next s; labels ← take_labels n s; Some (label :: labels)
  end.
End HintLabels.

(** [HintsAlphabet]: characters of width one, at least two. *)
Inductive AlphabetError := NotWidthOne | TooFewCharacters.

Definition HintsAlphabet_deserialize `{External} (value : text) : result AlphabetError text :=
  if forallb (λ ch, bool_decide (char_width ch = Some 1%nat)) value then
    if (length value <? 2)%nat then Err TooFewCharacters else Ok value
  else Err NotWidthOne.

(** * Expressions that are compiled on demand *)

(** [RegexSearch::new]; [None] is the error of an expression that cannot be compiled. *)
Class RegexCompiler `{Hybrid} := { RegexSearch_new : text → option RegexSearch }.

Module LazyRegex.
Inductive t `{Hybrid} :=
  | Compiled (regex : text) (dfas : RegexSearch) | Pattern (regex : text) | Uncompilable (regex : text).
#[global] Arguments Compiled {_} _ _.
#[global] Arguments Pattern {_} _.
#[global] Arguments Uncompilable {_} _.

Section ops.
Context `{RegexCompiler}.

Definition compiled (s : t) : option RegexSearch * t :=
  match s with
  | Compiled _ dfas => (Some dfas, s)
  | Uncompilable _ => (None, s)
  | Pattern regex =>
      match RegexSearch_new regex with
      | Some dfas => (Some dfas, Compiled regex dfas)
      | None => (None, Uncompilable regex)
      end
  end.

(** The function may change the automata, and may panic. *)
Definition with_compiled {T} (f : RegexSearch → option (T * RegexSearch)) (s : t) :
    option (option T * t) :=
  match compiled s with
  | (None, s) => Some (None, s)
  | (Some dfas, s) =>
      '(x, dfas) ← f dfas;
      Some (Some x, match s with Compiled regex _ => Compiled regex dfas | _ => s end)
  end.
End ops.
End LazyRegex.

(** * Matches on the screen *)

Definition MAX_SEARCH_LINES : nat := 100.

(** [RangeInclusive::contains]. *)
Definition match_contains (m : Search.Match) (p : Point) : bool :=
  Point.leb m.1 p && Point.leb p m.2.

Module VisibleMatches.
Section ops.
Context `{External} `{Hybrid}.
Implicit Types (t : Term.t) (regex : RegexSearch).

(** The lines of the viewport, and the iterator over the matches that may be visible. *)
Definition viewport t : option (Z * Z) :=
  viewport_end ← i32_add (- as_i32 (Grid.display_offset (Term.grid t))) (bottommost_line t);
  Some (- as_i32 (Grid.display_offset (Term.grid t)), viewport_end).

Definition new t : option RegexIter.t :=
  '(viewport_start, viewport_end) ← viewport t;
  start ← Search.line_search_left (Pt viewport_start 0%nat) t;
  end_ ← Search.line_search_right (Pt viewport_end 0%nat) t;
  first ← Line.sub_usize viewport_start MAX_SEARCH_LINES;
  last ← Line.add_usize viewport_end MAX_SEARCH_LINES;
  Some (RegexIter.new (Pt (Z.max (line start) first) (column start))
          (Pt (Z.min (line end_) last) (column end_)) Right).

(** The items of the iterator with [skip_while] and [take_while], until one satisfies [stop];
    [skipping] says that [skip_while] has not let an item through yet. *)
Fixpoint items (fuel rfuel : nat) (stop : Search.Match → bool) (first last : Z) (skipping : bool) t
    regex (it : RegexIter.t) : option (list Search.Match * RegexSearch) :=
  match fuel with
  | O => None
  | S fuel =>
      '(rm, regex, it) ← RegexIter.next rfuel t regex it;
      match rm with
      | None => Some ([], regex)
      | Some rm =>
          if skipping && (line rm.2 <? first) then items fuel rfuel stop first last true t regex it
          else if line rm.1 <=? last then
            if stop rm then Some ([rm], regex)
            else
              '(rest, regex) ← items fuel rfuel stop first last false t regex it;
              Some (rm :: rest, regex)
          else Some ([], regex)
      end
  end.

(** [visible_regex_match_iter], collected. *)
Definition collect (rfuel : nat) t regex : option (list Search.Match * RegexSearch) :=
  '(viewport_start, viewport_end) ← viewport t;
  it ← new t;
  items rfuel rfuel (λ _, false) viewport_start viewport_end true t regex it.

(** The first item that contains a point. *)
Definition find (rfuel : nat) (p : Point) t regex : option (option Search.Match * RegexSearch) :=
  '(viewport_start, viewport_end) ← viewport t;
  it ← new t;
  '(l, regex) ← items rfuel rfuel (λ rm, match_contains rm p) viewport_start viewport_end true t regex it;
  Some (match last l with
        | Some rm => if match_contains rm p then Some rm else None
        | None => None
        end, regex).
End ops.
End VisibleMatches.

(** ** Hyperlinks *)

Section hyperlinks.
Context `{External}.
Implicit Types (t : Term.t) (it : Grid.GridIterator.t).

(** The cells of an iterator. *)
Fixpoint collect_cells (fuel : nat) (g : Grid.t Cell) it : option (list (Point * Cell)) :=
  match fuel with
  | O => None
  | S fuel =>
      '(item, it) ← Grid.GridIterator.next g it;
      match item with
      | None => Some []
      | Some x => rest ← collect_cells fuel g it; Some (x :: rest)
      end
  end.

(** The cells from the front of the list with this hyperlink: the last of their points, and the
    rest of the list. *)
Fixpoint same_link (hl : Hyperlink) (end_ : Point) (l : list (Point * Cell)) :
    Point * list (Point * Cell) :=
  match l with
  | (p, cell) :: rest =>
      if bool_decide (Cell.hyperlink cell = Some hl) then same_link hl p rest else (end_, l)
  | [] => (end_, [])
  end.

(** The closure of [visible_unique_hyperlinks_iter]; [seen] is the set of hyperlinks yielded. *)
Fixpoint unique_links (fuel : nat) (seen : list Hyperlink) (l : list (Point * Cell)) :
    list Search.Match :=
  match fuel, l with
  | S fuel, (p, cell) :: rest =>
      match Cell.hyperlink cell with
      | None => unique_links fuel seen rest
      | Some hl =>
          if bool_decide (hl ∈ seen) then unique_links fuel seen rest
          else
            let '(end_, rest) := same_link hl p rest in
            (p, end_) :: unique_links fuel (hl :: seen) rest
      end
  | _, _ => []
  end.

Definition visible_unique_hyperlinks_iter t : option (list Search.Match) :=
  it ← Grid.display_iter (Term.grid t);
  cells ← collect_cells (Search.fuel t) (Term.grid t) it;
  Some (unique_links (length cells) [] cells).

(** The loops of [hyperlink_at], in both directions. *)
Fixpoint link_end (fuel : nat) (forward : bool) (hl : Hyperlink) (g : Grid.t Cell) (p : Point) it :
    option Point :=
  match fuel with
  | O => None
  | S fuel =>
      '(item, it) ← Search.advance forward g it;
      match item with
      | Some (q, cell) =>
          if bool_decide (Cell.hyperlink cell = Some hl) then link_end fuel forward hl g q it else Some p
      | None => Some p
      end
  end.

Definition hyperlink_at t (p : Point) : option (option (Hyperlink * Search.Match)) :=
  cell ← Grid.index_point p (Term.grid t);
  match Cell.hyperlink cell with
  | None => Some None
  | Some hl =>
      let it := Grid.iter_from p (Term.grid t) in
      match_end ← link_end (Search.fuel t) true hl (Term.grid t) p it;
      match_start ← link_end (Search.fuel t) false hl (Term.grid t) p it;
      Some (Some (hl, (match_start, match_end)))
  end.
End hyperlinks.

(** ** Post-processing *)

(** [struct HintPostProcessor], without the references to the terminal and the expression. *)
Module HintPostProcessor.
Record t := mk { next_match : option Search.Match; start : Point; end_ : Point }.

(** The characters that are cut off at the end of a match. *)
Definition is_delimiter (ch : char) : bool :=
  existsb (N.eqb ch) [46; 44; 58; 59; 63; 33; 40; 91; 39]%N.

Section ops.
Context `{External} `{Hybrid}.
Implicit Types (term : Term.t) (regex : RegexSearch) (it : Grid.GridIterator.t) (ch : char).

(** The first loop: the iterator and the character when it ends. *)
Fixpoint brackets (fuel : nat) (g : Grid.t Cell) (end_ : Point) (open_parents open_brackets : Z)
    ch it : option (char * Grid.GridIterator.t) :=
  match fuel with
  | O => None
  | S fuel =>
      let continue_with open_parents open_brackets :=
        if bool_decide (Grid.GridIterator.point it = end_) then Some (ch, it)
        else
          '(item, it) ← Grid.GridIterator.next g it;
          match item with
          | Some (_, cell) => brackets fuel g end_ open_parents open_brackets (c cell) it
          | None => Some (ch, it)
          end in
      if (ch =? 40)%N then
        open_parents ← i32_add open_parents 1; continue_with open_parents open_brackets
      else if (ch =? 91)%N then
        open_brackets ← i32_add open_brackets 1; continue_with open_parents open_brackets
      else if (ch =? 41)%N then
        if open_parents =? 0 then '(_, it) ← Grid.GridIterator.prev g it; Some (ch, it)
        else open_parents ← i32_sub open_parents 1; continue_with open_parents open_brackets
      else if (ch =? 93)%N then
        if open_brackets =? 0 then '(_, it) ← Grid.GridIterator.prev g it; Some (ch, it)
        else open_brackets ← i32_sub open_brackets 1; continue_with open_parents open_brackets
      else continue_with open_parents open_brackets
  end.

(** The second loop. *)
Fixpoint delimiters (fuel : nat) (g : Grid.t Cell) (start : Point) ch it :
    option Grid.GridIterator.t :=
  match fuel with
  | O => None
  | S fuel =>
      if bool_decide (Grid.GridIterator.point it = start) then Some it
      else if negb (is_delimiter ch) then Some it
      else
        '(item, it) ← Grid.GridIterator.prev g it;
        match item with
        | Some (_, cell) => delimiters fuel g start (c cell) it
        | None => Some it
        end
  end.

Definition hint_post_processing term (regex_match : Search.Match) :
    option (option Search.Match) :=
  let g := Term.grid term in
  let it := Grid.iter_from regex_match.1 g in
  cell ← Grid.GridIterator.cell g it;
  '(ch, it) ← brackets (Search.fuel term) g regex_match.2 0 0 (c cell) it;
  it ← delimiters (Search.fuel term) g regex_match.1 ch it;
  Some (if Point.ltb (Grid.GridIterator.point it) regex_match.1 then None
        else Some (regex_match.1, Grid.GridIterator.point it)).

(** The loop over submatches; [next_match] is [None] when it starts. *)
Fixpoint next_processed_match (fuel rfuel : nat) term regex (regex_match : Search.Match) (s : t) :
    option (t * RegexSearch) :=
  match fuel with
  | O => None
  | S fuel =>
      m ← hint_post_processing term regex_match;
      match m with
      | Some next_match =>
          start ← Point.add term BoundaryGrid 1 next_match.2;
          Some (mk (Some next_match) start (end_ s), regex)
      | None =>
          start ← Point.add term BoundaryGrid 1 regex_match.1;
          let s := mk (next_match s) start (end_ s) in
          if Point.ltb (end_ s) start then Some (s, regex)
          else
            '(rm, regex) ← Search.regex_search_right rfuel start (end_ s) term regex;
            match rm with
            | Some rm => next_processed_match fuel rfuel term regex rm s
            | None => Some (s, regex)
            end
      end
  end.

Definition new (rfuel : nat) term regex (regex_match : Search.Match) : option (t * RegexSearch) :=
  next_processed_match rfuel rfuel term regex regex_match (mk None regex_match.1 regex_match.2).

Definition next (rfuel : nat) term regex (s : t) : option (option Search.Match * t * RegexSearch) :=
  match next_match s with
  | None => Some (None, s, regex)
  | Some m =>
      let s := mk None (start s) (end_ s) in
      '(s, regex) ←
        (if Point.leb (start s) (end_ s) then
           '(rm, regex) ← Search.regex_search_right rfuel (start s) (end_ s) term regex;
           match rm with
           | Some rm => next_processed_match rfuel rfuel term regex rm s
           | None => Some (s, regex)
           end
         else Some (s, regex));
      Some (Some m, s, regex)
  end.

(** The items of the iterator, until one satisfies [stop]. *)
Fixpoint items (fuel rfuel : nat) (stop : Search.Match → bool) term regex (s : t) :
    option (list Search.Match * RegexSearch) :=
  match fuel with
  | O => None
  | S fuel =>
      '(m, s, regex) ← next rfuel term regex s;
      match m with
      | None => Some ([], regex)
      | Some m =>
          if stop m then Some ([m], regex)
          else '(rest, regex) ← items fuel rfuel stop term regex s; Some (m :: rest, regex)
      end
  end.

Definition collect (rfuel : nat) term regex (regex_match : Search.Match) :
    option (list Search.Match * RegexSearch) :=
  '(s, regex) ← new rfuel term regex regex_match;
  items rfuel rfuel (λ _, false) term regex s.

(** The first item that contains a point. *)
Definition find (rfuel : nat) (p : Point) term regex (regex_match : Search.Match) :
    option (option Search.Match * RegexSearch) :=
  '(s, regex) ← new rfuel term regex regex_match;
  '(l, regex) ← items rfuel rfuel (λ m, match_contains m p) term regex s;
  Some (match last l with
        | Some m => if match_contains m p then Some m else None
        | None => None
        end, regex).
End ops.
End HintPostProcessor.

(** * Selecting a match *)

(** [struct HintMatch]; the expression of its hint is shared with the configuration. *)
Module HintMatch.
Record t `{Hybrid} := mk {
  bounds : Search.Match; hyperlink : option Hyperlink; hint : Bindings.Hint;
  regex : option LazyRegex.t }.
#[global] Arguments mk {_} _ _ _ _.
#[global] Arguments bounds {_} _.
#[global] Arguments hyperlink {_} _.
#[global] Arguments hint {_} _.
#[global] Arguments regex {_} _.

Definition should_highlight `{Hybrid} (s : t) (point : Point) (pointed : option Hyperlink) : bool :=
  bool_decide (hyperlink s = pointed)
  && (bool_decide (is_Some (hyperlink s)) || match_contains (bounds s) point).

Definition action `{Hybrid} (s : t) : HintAction := hint_action (hint s).
End HintMatch.

Section matches.
Context `{External} `{RegexCompiler}.
Implicit Types (t : Term.t).

Definition regex_match_at (rfuel : nat) t (point : Point) (post_processing : bool)
    (regex : RegexSearch) : option (option Search.Match * RegexSearch) :=
  '(regex_match, regex) ← VisibleMatches.find rfuel point t regex;
  match regex_match with
  | None => Some (None, regex)
  | Some regex_match =>
      if post_processing then HintPostProcessor.find rfuel point t regex regex_match
      else Some (Some regex_match, regex)
  end.

(** [hint.content.regex.as_ref()] and [with_compiled]: without an expression, nothing. *)
Definition with_regex {T} (f : RegexSearch → option (T * RegexSearch)) (regex : option LazyRegex.t) :
    option (option T * option LazyRegex.t) :=
  match regex with
  | None => Some (None, None)
  | Some regex => '(x, regex) ← LazyRegex.with_compiled f regex; Some (x, Some regex)
  end.

(** [HintMatch::text]: the text of a match that is still a match. *)
Definition hint_text (rfuel : nat) t (s : HintMatch.t) : option (option text * HintMatch.t) :=
  match HintMatch.hyperlink s with
  | Some hl =>
      found ← hyperlink_at t (HintMatch.bounds s).1;
      Some (match found with
            | Some (validated, bounds) =>
                if bool_decide (validated = hl) && bool_decide (bounds = HintMatch.bounds s)
                then Some (hl_uri hl) else None
            | None => None
            end, s)
  | None =>
      '(bounds, regex) ← with_regex
        (regex_match_at rfuel t (HintMatch.bounds s).1 (hint_post_processing (HintMatch.hint s)))
        (HintMatch.regex s);
      let s := HintMatch.mk (HintMatch.bounds s) None (HintMatch.hint s) regex in
      match mjoin bounds with
      | None => Some (None, s)
      | Some bounds =>
          if bool_decide (bounds = HintMatch.bounds s) then
            res ← Term.bounds_to_string bounds.1 bounds.2 t; Some (Some res, s)
          else Some (None, s)
      end
  end.

(** [highlighted_at]: the hints of the configuration with their expressions. *)
Fixpoint highlighted_at (rfuel : nat) t (enabled : list (Bindings.Hint * option LazyRegex.t))
    (point : Point) (mouse_mods : ModifiersState) :
    option (option HintMatch.t * list (Bindings.Hint * option LazyRegex.t)) :=
  let mouse_mode := Flags.intersects (Term.mode t) TermMode.MOUSE_MODE in
  match enabled with
  | [] => Some (None, [])
  | (hint, regex) :: rest =>
      let highlight :=
        match hint_mouse hint with
        | Some mouse =>
            hint_mouse_enabled mouse
            && ModifiersState.is_empty (ModifiersState.difference (hint_mouse_mods mouse) mouse_mods)
            && (negb mouse_mode
                || ModifiersState.is_empty
                     (ModifiersState.difference ModifiersState.SHIFT mouse_mods))
        | None => false
        end in
      let next regex :=
        '(m, rest) ← highlighted_at rfuel t rest point mouse_mods; Some (m, (hint, regex) :: rest) in
      if negb highlight then next regex
      else
        link ← (if hint_hyperlinks (hint_content hint) then hyperlink_at t point else Some None);
        match link with
        | Some (hl, bounds) =>
            Some (Some (HintMatch.mk bounds (Some hl) hint regex), (hint, regex) :: rest)
        | None =>
            '(bounds, regex) ←
              with_regex (regex_match_at rfuel t point (hint_post_processing hint)) regex;
            match mjoin bounds with
            | Some bounds => Some (Some (HintMatch.mk bounds None hint regex), (hint, regex) :: rest)
            | None => next regex
            end
        end
  end.
End matches.

(** * [struct HintState] *)

Module HintState.
Record t `{Hybrid} := mk {
  hint : option Bindings.Hint;
  regex : option LazyRegex.t;
  alphabet : list char;
  matches : list Search.Match;
  labels : list (list char);
  keys : list char;
}.
#[global] Arguments mk {_} _ _ _ _ _ _.
#[global] Arguments hint {_} _.
#[global] Arguments regex {_} _.
#[global] Arguments alphabet {_} _.
#[global] Arguments matches {_} _.
#[global] Arguments labels {_} _.
#[global] Arguments keys {_} _.

Section ops.
Context `{External} `{RegexCompiler}.
Implicit Types (s : t) (term : Term.t).

Definition new (alphabet : list char) : t := mk None None alphabet [] [] [].
Definition active s : bool := bool_decide (is_Some (hint s)).
Definition start (h : Bindings.Hint) (r : option LazyRegex.t) s : t :=
  mk (Some h) r (alphabet s) (matches s) (labels s) (keys s).
Definition stop s : t := mk None None (alphabet s) [] [] [].
Definition set_keys (keys : list char) s : t :=
  mk (hint s) (regex s) (alphabet s) (matches s) (labels s) keys.

(** [sort_by_key] is stable: by the start, longer matches first. *)
Definition key_leb (a b : Search.Match) : bool :=
  Point.ltb a.1 b.1 || (bool_decide (a.1 = b.1) && Point.leb b.2 a.2).
Fixpoint insert_by_key (m : Search.Match) (l : list Search.Match) : list Search.Match :=
  match l with
  | [] => [m]
  | x :: rest => if key_leb m x then m :: l else x :: insert_by_key m rest
  end.
Definition sort_by_key (l : list Search.Match) : list Search.Match := foldr insert_by_key [] l.

(** [dedup_by_key]: of consecutive matches with the same start, the first. *)
Fixpoint dedup_by_start (l : list Search.Match) : list Search.Match :=
  match l with
  | a :: rest =>
      match dedup_by_start rest with
      | b :: rest' => if bool_decide (a.1 = b.1) then a :: rest' else a :: b :: rest'
      | [] => [a]
      end
  | [] => []
  end.

(** The matches of an expression, post-processed if the hint asks for it. *)
Definition regex_matches (rfuel : nat) term (post_processing : bool) (regex : RegexSearch) :
    option (list Search.Match * RegexSearch) :=
  '(matches, regex) ← VisibleMatches.collect rfuel term regex;
  if post_processing then
    foldM (λ rm '(found, regex),
      '(l, regex) ← HintPostProcessor.collect rfuel term regex rm; Some (found ++ l, regex))
      matches ([], regex)
  else Some (matches, regex).

Definition find_matches (rfuel : nat) term (hint : Bindings.Hint) (regex : option LazyRegex.t) :
    option (list Search.Match * option LazyRegex.t) :=
  links ← (if hint_hyperlinks (hint_content hint) then visible_unique_hyperlinks_iter term
           else Some []);
  '(found, regex) ← with_regex (regex_matches rfuel term (hint_post_processing hint)) regex;
  Some (links ++ default [] found, regex).

(** What is left of a label after the keys; an empty label belongs to a match that is excluded. *)
Definition remaining_label (keys label : list char) : list char :=
  if (length keys <=? length label)%nat && bool_decide (take (length keys) label = keys)
  then drop (length keys) label else [].

(** The loop over the matches from the last to the first. *)
Definition assign_labels (keys : list char) (match_count : nat) (generator : HintLabels.t)
    (labels : list (list char)) : option (list (list char)) :=
  '(_, labels) ← foldM (λ i '(generator, labels),
      '(label, generator) ← HintLabels.next generator;
      labels ← update_at i (λ _, remaining_label keys label) labels;
      Some (generator, labels))
    (reverse (seq 0 match_count)) (generator, resize_with match_count [] labels);
  Some labels.

(** The part of [update_matches] after the search. *)
Definition label_matches (found : list Search.Match) s : option t :=
  match found with
  | [] => Some (stop s)
  | _ =>
      let matches := dedup_by_start (sort_by_key found) in
      generator ← HintLabels.new (alphabet s);
      labels ← assign_labels (keys s) (length matches) generator (labels s);
      Some (mk (hint s) (regex s) (alphabet s) matches labels (keys s))
  end.

Definition update_matches (rfuel : nat) term s : option t :=
  match hint s with
  | None => Some s
  | Some h =>
      '(found, regex) ← find_matches rfuel term h (regex s);
      label_matches found (mk (hint s) regex (alphabet s) [] (labels s) (keys s))
  end.

(** [find] from the last label: one that starts with the character. *)
Fixpoint find_label (ch : char) (i : nat) (labels : list (list char)) : option (nat * list char) :=
  match labels with
  | [] => None
  | label :: rest =>
      match find_label ch (S i) rest with
      | Some r => Some r
      | None => if bool_decide (head label = Some ch) then Some (i, label) else None
      end
  end.

(** The part of [keyboard_input] after the update of the matches. *)
Definition select_label term (ch : char) s : option (option HintMatch.t * t) :=
  match hint s with
  | None => Some (None, s)
  | Some h =>
      match find_label ch 0 (labels s) with
      | None => Some (None, s)
      | Some (index, label) =>
          if (length label =? 1)%nat then
            bounds ← matches s !! index;
            cell ← Grid.index_point bounds.1 (Term.grid term);
            Some (Some (HintMatch.mk bounds (Cell.hyperlink cell) h (regex s)),
                  if hint_persist h then set_keys [] s else stop s)
          else Some (None, set_keys (keys s ++ [ch]) s)
      end
  end.

Definition keyboard_input (rfuel : nat) term (ch : char) s : option (option HintMatch.t * t) :=
  let s :=
    if (ch =? 8)%N || (ch =? 31)%N then set_keys (take (length (keys s) - 1) (keys s)) s
    else if (ch =? 27)%N || (ch =? 3)%N then stop s
    else s in
  s ← update_matches rfuel term s;
  select_label term ch s.

Definition update_alphabet (new_alphabet : list char) s : t :=
  if bool_decide (alphabet s = new_alphabet) then s
  else mk (hint s) (regex s) new_alphabet (matches s) (labels s) [].
End ops.
End HintState.
