(* ===== verification/HintProps.v ===== *)
(** Properties of hints: the labels are an enumeration without prefixes, typing a label selects its
    match, and the heuristics for the end of a match agree with their description. *)
From S2P Require Import Prelude Index Cells Rows Storages Grids Resizes TermData Selections Terms.
From S2P Require Import Handlers Searches ViModes Keys Bindings Hints.

(** * Labels *)

Section Labels.
Import HintLabels.
Context (n split : nat) (Hsplit : split + 1 < n).
Implicit Types (l : list nat).

(** The number of characters for all places but the last. *)
Definition radix : nat := n - split - 1.

(** The indices of a label, the last character first: the last character is from the head of the
    alphabet, the others are from its tail. *)
Definition head_ok (i : nat) : Prop := split < i < n.
Definition indices_ok l : Prop :=
  match l with t :: heads => t ≤ split ∧ Forall head_ok heads | [] => False end.

(** The heads are a numeral with the digits from one to [radix]. *)
Fixpoint value l : nat :=
  match l with [] => 0 | i :: l => (i - split) + radix * value l end.

(** The number of a label in the enumeration. *)
Definition rank l : nat :=
  match l with [] => 0 | t :: heads => t + (split + 1) * value heads end.

Lemma carry_ok l :
  Forall head_ok l →
  match carry split n l with
  | inl l' => Forall head_ok l' ∧ value l' = value l + 1
  | inr l' => Forall head_ok (l' ++ [split + 1]) ∧ value (l' ++ [split + 1]) = value l + 1
  end.
Proof using Hsplit.
  assert (head_ok (split + 1)) as Hs by (unfold head_ok; lia).
  induction 1 as [|i l Hi Hl IH]; cbn [carry value app].
  { split; [by constructor|]. simpl. lia. }
  destruct (Nat.eqb_spec (i + 1) n) as [E|E].
  - assert (i - split = radix) as Er by (unfold radix; lia).
    destruct (carry split n l) as [l'|l']; destruct IH as [Hl' Ev]; cbn [value app];
      (split; [by constructor|rewrite Ev, Er; nia]).
  - split; [constructor; [unfold head_ok in *; lia|done]|]. unfold head_ok in Hi. cbn [value]. lia.
Qed.

Lemma value_inj l l' : Forall head_ok l → Forall head_ok l' → value l = value l' → l = l'.
Proof using Hsplit.
  intros Hl. revert l'. induction Hl as [|i l Hi Hl IH]; intros l' [|i' l'' Hi' Hl']; unfold head_ok in *;
    cbn [value]; intros E; [done|lia|lia|].
  assert (1 ≤ i - split ≤ radix ∧ 1 ≤ i' - split ≤ radix) as [H1 H2] by (unfold radix; lia).
  assert (value l = value l'' ∧ i - split = i' - split) as [Ev Ei].
  { destruct (Nat.lt_trichotomy (value l) (value l'')) as [?|[?|?]]; nia. }
  f_equal; [lia|by apply IH].
Qed.

Lemma rank_inj l l' : indices_ok l → indices_ok l' → rank l = rank l' → l = l'.
Proof using Hsplit.
  destruct l as [|t heads], l' as [|t' heads']; try done. intros [Ht Hh] [Ht' Hh'] E. simpl in E.
  assert (value heads = value heads' ∧ t = t') as [Ev ->].
  { destruct (Nat.lt_trichotomy (value heads) (value heads')) as [?|[?|?]]; nia. }
  f_equal. by apply value_inj.
Qed.

(** The word of a label: the indices in the order of the characters. *)
Lemma word_prefix l l' : indices_ok l → indices_ok l' → reverse l `prefix_of` reverse l' → l = l'.
Proof using Hsplit.
  destruct l as [|t heads], l' as [|t' heads']; try done. intros [Ht Hh] [Ht' Hh'].
  rewrite !reverse_cons. intros [k E]. destruct k as [|x k _] using rev_ind.
  - rewrite app_nil_r in E. apply app_inj_tail in E as [E ->]. f_equal.
    by apply (inj reverse) in E.
  - rewrite app_assoc in E. apply app_inj_tail in E as [E ->].
    assert (t ∈ heads') as Hin.
    { apply elem_of_reverse. rewrite E. rewrite <- !app_assoc. apply elem_of_app. right. by left. }
    rewrite list.Forall_forall in Hh'. apply Hh' in Hin. unfold head_ok in Hin. lia.
Qed.
End Labels.

Section Generator.
Import HintLabels.
Context (alphabet : list char) (Hlen : 2 ≤ length alphabet).
Abbreviation n := (length alphabet).
Abbreviation split := ((length alphabet - 1) / 2).

Lemma split_small : split + 1 < n.
Proof using Hlen. pose proof (Nat.div_mod_eq (n - 1) 2). pose proof (Nat.mod_upper_bound (n - 1) 2). lia. Qed.

Definition generator_ok (i : nat) (s : t) : Prop :=
  HintLabels.alphabet s = alphabet ∧ split_point s = split ∧ indices_ok n split (indices s)
  ∧ rank n split (indices s) = i.

Ltac fields :=
  unfold generator_ok;
  cbn [wp HintLabels.alphabet split_point indices indices_ok rank value app].

Lemma labels_new_ok : wp (new alphabet) (generator_ok 0).
Proof using Hlen.
  unfold new. rewrite usize_sub_ok by lia. cbn [mbind option_bind wp].
  fields. split_and!; [done|done|lia|done|lia].
Qed.

Lemma increment_ok i s : generator_ok i s → wp (increment s) (generator_ok (S i)).
Proof using Hlen.
  intros (Ea & Es & Hi & Er). unfold increment. destruct (indices s) as [|t heads]; [done|].
  destruct Hi as [Ht Hh]. cbn [rank] in Er. rewrite Ea, Es. destruct (Nat.ltb_spec t split).
  - fields. split_and!; [done|done|lia|done|lia].
  - pose proof (carry_ok n split split_small heads Hh) as Hc.
    destruct (carry split n heads) as [l|l]; destruct Hc as [Hl Ev];
      (fields; split_and!; [done|done|lia|done|rewrite Ev; nia]).
Qed.

(** The label with the given indices. *)
Definition label_of (l : list nat) (label : list char) : Prop :=
  mapM (λ i, alphabet !! i) (reverse l) = Some label.

Lemma labels_next_ok i s :
  generator_ok i s → wp (next s) (λ '(label, s'), label_of (indices s) label ∧ generator_ok (S i) s').
Proof using Hlen.
  intros Hs. pose proof Hs as (Ea & Es & Hi & Er). unfold next.
  assert (is_Some (mapM (λ index, HintLabels.alphabet s !! index) (reverse (indices s)))) as [label E].
  { apply mapM_is_Some. apply Forall_reverse. rewrite Ea. pose proof split_small.
    destruct (indices s) as [|t heads]; [done|]. destruct Hi as [Ht Hh].
    constructor; [apply lookup_lt_is_Some; lia|].
    eapply Forall_impl; [exact Hh|]. intros j Hj. apply lookup_lt_is_Some. unfold head_ok in Hj. lia. }
  rewrite E. cbn [mbind option_bind]. apply wp_bind.
  eapply wp_mono; [by apply increment_ok|]. intros s' Hs'. cbn [wp]. split; [|done].
  unfold label_of. by rewrite <- Ea.
Qed.

(** The [i]-th label has the indices of rank [i]. *)
Definition is_label (i : nat) (label : list char) : Prop :=
  ∃ l, indices_ok n split l ∧ rank n split l = i ∧ label_of l label.

Lemma next_label i s :
  generator_ok i s → wp (next s) (λ '(label, s'), is_label i label ∧ generator_ok (S i) s').
Proof using Hlen.
  intros Hs. pose proof Hs as (_ & _ & Hi & Er). eapply wp_mono; [by apply labels_next_ok|].
  intros [label s'] [Hl Hs']. split; [|done]. by exists (indices s).
Qed.

Lemma take_labels_ok k i s :
  generator_ok i s →
  wp (take_labels k s) (λ labels, length labels = k ∧
    ∀ j label, labels !! j = Some label → is_label (i + j) label).
Proof using Hlen.
  revert i s. induction k as [|k IH]; intros i s Hs; cbn [take_labels].
  { simpl. split; [done|]. intros j label. by rewrite lookup_nil. }
  apply wp_bind. eapply wp_mono; [by apply next_label|]. intros [label s'] [Hl Hs'].
  apply wp_bind. eapply wp_mono; [by apply IH|]. intros labels [El Hlabels]. simpl.
  split; [lia|]. intros [|j] label'; simpl.
  - intros [= <-]. by rewrite Nat.add_0_r.
  - intros Hj. apply Hlabels in Hj. by replace (i + S j) with (S i + j) by lia.
Qed.

(** The characters of labels determine their indices. *)
Lemma mapM_prefix (w w' : list nat) (label label' : list char) :
  NoDup alphabet → mapM (λ i, alphabet !! i) w = Some label →
  mapM (λ i, alphabet !! i) w' = Some label' → label `prefix_of` label' → w `prefix_of` w'.
Proof using Type.
  intros Hnd. revert w' label label'.
  induction w as [|i w IH]; intros w' label label' E E' Hp; [apply prefix_nil|].
  apply mapM_Some in E, E'. inv E as [|? x ? l Hx Hl]. apply mapM_Some in Hl.
  destruct E' as [|i' x' w' l' Hx' Hl']; [by apply prefix_nil_not in Hp|].
  apply mapM_Some in Hl'. apply prefix_cons_inv_1 in Hp as Hxx. apply prefix_cons_inv_2 in Hp.
  subst x'. rewrite (NoDup_lookup _ _ _ _ Hnd Hx Hx'). apply prefix_cons. by eapply IH.
Qed.

Lemma label_prefix i j label label' :
  NoDup alphabet → is_label i label → is_label j label' → label `prefix_of` label' → i = j.
Proof using Hlen.
  intros Hnd (l & Hl & <- & El) (l' & Hl' & <- & El') Hp. f_equal.
  apply (word_prefix n split split_small); [done|done|]. by eapply mapM_prefix.
Qed.

Lemma label_unique i label label' : is_label i label → is_label i label' → label = label'.
Proof using Hlen.
  intros (l & Hl & Er & El) (l' & Hl' & Er' & El').
  assert (l = l') as -> by (apply (rank_inj n split split_small); congruence).
  unfold label_of in *. congruence.
Qed.

Lemma label_nonempty i label : is_label i label → label ≠ [].
Proof using Type.
  intros (l & Hl & _ & El) ->. apply mapM_Some, Forall2_length in El.
  rewrite length_reverse in El. destruct l; [by destruct Hl|done].
Qed.

Lemma label_alphabet i label ch : is_label i label → ch ∈ label → ch ∈ alphabet.
Proof using Type.
  intros (l & _ & _ & El) Hch. apply mapM_Some in El. apply list_elem_of_lookup in Hch as [k Hk].
  destruct (Forall2_lookup_r _ _ _ _ _ El Hk) as (i' & _ & Hi'). by eapply list_elem_of_lookup_2.
Qed.
End Generator.

(** C24.  For an alphabet of at least two different characters, every number of labels can be
    generated; no label is empty, and none is a prefix of another one, so that typing a label
    never selects another match on the way. *)
Theorem labels_prefix_free (alphabet : list char) (count : nat) :
  2 ≤ length alphabet → NoDup alphabet →
  ∃ labels, (s ← HintLabels.new alphabet; HintLabels.take_labels count s) = Some labels ∧
    length labels = count ∧
    ∀ i j label label', labels !! i = Some label → labels !! j = Some label' →
      label ≠ [] ∧ (label `prefix_of` label' → i = j).
Proof.
  intros Hlen Hnd. apply wp_some, wp_bind. eapply wp_mono; [by apply labels_new_ok|]. intros s Hs.
  eapply wp_mono; [by eapply take_labels_ok|]. intros labels [El Hl]. split; [done|].
  intros i j label label' Hi Hj. apply Hl in Hi, Hj. split; [by eapply label_nonempty|].
  by eapply label_prefix.
Qed.

(** * Typing a label *)

Section Typing.
Context `{External} `{RegexCompiler}.
Import HintState.
Implicit Types (s : t) (keys label : list char) (regex : option LazyRegex.t).

Variable (alphabet : list char) (Hlen : 2 ≤ length alphabet) (Hnd : NoDup alphabet).

(** The label of the match [j] of [count]: the last match has the first label. *)
Definition match_label (count j : nat) label : Prop := is_label alphabet (count - 1 - j) label.

Lemma assign_labels_ok keys count old :
  wp (g ← HintLabels.new alphabet; assign_labels keys count g old) (λ labels,
    length labels = count ∧
    ∀ j, j < count → ∃ label, match_label count j label ∧
      labels !! j = Some (remaining_label keys label)).
Proof using Hlen.
  apply wp_bind. eapply wp_mono; [by apply labels_new_ok|]. intros g Hg. unfold assign_labels. apply wp_bind.
  eapply wp_mono; [apply (wp_foldM _ _ (λ k '(g, labels), generator_ok alphabet k g
    ∧ length labels = count
    ∧ ∀ j, count - k ≤ j < count → ∃ label, match_label count j label ∧
        labels !! j = Some (remaining_label keys label)))|].
  - split; [done|]. split; [apply length_resize_with|]. intros j Hj. lia.
  - intros k i [g1 labels] Hi (Hg1 & El & Hk).
    assert (k < count) as Hkc.
    { apply lookup_lt_Some in Hi. by rewrite length_reverse, length_seq in Hi. }
    rewrite reverse_lookup in Hi by (by rewrite length_seq). rewrite length_seq in Hi.
    apply lookup_seq in Hi as [-> _]. apply wp_bind.
    eapply wp_mono; [by apply next_label|]. intros [label g2] [Hl Hg2].
    destruct (lookup_lt_is_Some_2 labels (0 + (count - S k))) as [x Hx]; [lia|].
    rewrite (update_at_ok _ _ _ _ Hx). cbn [mbind option_bind wp]. split; [done|].
    split; [by rewrite length_insert|]. intros j Hj. destruct (decide (j = 0 + (count - S k))) as [->|Hne].
    + exists label. split; [unfold match_label; by replace (count - 1 - _) with k by lia|].
      by rewrite list_lookup_insert_eq by lia.
    + rewrite list_lookup_insert_ne by done. apply Hk. lia.
  - rewrite length_reverse, length_seq. intros [g1 labels] (_ & El & Hk). simpl.
    split; [done|]. intros j Hj. apply Hk. lia.
Qed.

(** ** Finding the label *)

Lemma find_label_spec ch i labels :
  match find_label ch i labels with
  | Some (k, label) => i ≤ k ∧ labels !! (k - i) = Some label ∧ head label = Some ch
  | None => Forall (λ label, head label ≠ Some ch) labels
  end.
Proof.
  revert i. induction labels as [|label labels IH]; intros i; simpl; [done|].
  specialize (IH (S i)). destruct (find_label ch (S i) labels) as [[k l]|].
  - destruct IH as (Hi & Hk & Hh). split; [lia|]. split; [|done].
    replace (k - i) with (S (k - S i)) by lia. done.
  - case_bool_decide; [|by constructor]. split; [done|]. by rewrite Nat.sub_diag.
Qed.

Lemma remaining_some keys label ch rest :
  remaining_label keys label = ch :: rest → label = keys ++ ch :: rest.
Proof.
  unfold remaining_label. destruct (_ <=? _); simpl; [|done]. case_bool_decide as E; [|done].
  intros <-. rewrite <- E at 1. by rewrite take_drop.
Qed.

Lemma remaining_app keys rest : remaining_label keys (keys ++ rest) = rest.
Proof.
  unfold remaining_label. rewrite length_app, (proj2 (Nat.leb_le _ _)) by lia.
  rewrite take_app_length, bool_decide_eq_true_2 by done. simpl. by rewrite drop_app_length.
Qed.

(** The label that is found when a character of a label is typed: the label itself when it is
    complete, otherwise one that is not complete either. *)
Lemma find_typed count labels keys i ch rest :
  length labels = count →
  (∀ j, j < count → ∃ label, match_label count j label ∧
     labels !! j = Some (remaining_label keys label)) →
  i < count → match_label count i (keys ++ ch :: rest) →
  ∃ j rest', find_label ch 0 labels = Some (j, ch :: rest') ∧
    if decide (rest = []) then j = i ∧ rest' = [] else rest' ≠ [].
Proof using Hlen Hnd.
  intros El Hl Hi Hlabel. pose proof (find_label_spec ch 0 labels) as Hf.
  destruct (find_label ch 0 labels) as [[j label]|].
  - destruct Hf as (_ & Hj & Hh). rewrite Nat.sub_0_r in Hj.
    destruct label as [|ch' rest']; [done|]. injection Hh as ->. exists j, rest'. split; [done|].
    pose proof (lookup_lt_Some _ _ _ Hj) as Hjl. rewrite El in Hjl.
    destruct (Hl j Hjl) as (label & Hlj & Hj'). rewrite Hj in Hj'. injection Hj' as Er.
    symmetry in Er. apply remaining_some in Er. subst label.
    assert (∀ r r', match_label count i (keys ++ ch :: r) → match_label count j (keys ++ ch :: r') →
      r = [] ∨ r' = [] → i = j) as Hsame.
    { intros r r' Ha Hb Hr. unfold match_label in *.
      assert (count - 1 - i = count - 1 - j); [|lia].
      destruct Hr as [->| ->].
      - eapply (label_prefix alphabet Hlen); [done|exact Ha|exact Hb|].
        apply prefix_app, prefix_cons, prefix_nil.
      - symmetry. eapply (label_prefix alphabet Hlen); [done|exact Hb|exact Ha|].
        apply prefix_app, prefix_cons, prefix_nil. }
    destruct (decide (rest = [])) as [->|Hr].
    + assert (i = j) as <- by (eapply Hsame; [exact Hlabel|exact Hlj|by left]). split; [done|].
      pose proof (label_unique alphabet Hlen _ _ _ Hlabel Hlj) as E.
      apply (inj (app keys)) in E. by injection E.
    + intros ->. assert (i = j) as <- by (eapply Hsame; [exact Hlabel|exact Hlj|by right]).
      pose proof (label_unique alphabet Hlen _ _ _ Hlabel Hlj) as E.
      apply (inj (app keys)) in E. by injection E.
  - destruct (Hl i Hi) as (label & Hli & Hk).
    rewrite (label_unique alphabet Hlen _ _ _ Hli Hlabel), remaining_app in Hk.
    rewrite list.Forall_forall in Hf. apply list_elem_of_lookup_2, Hf in Hk. done.
Qed.
(** ** Typing *)

Context (rfuel : nat) (term : Term.t) (h : Bindings.Hint) (found : list Search.Match).
Context (searchable : option LazyRegex.t → Prop).

(** The terminal does not change while the label is typed: every search finds the same matches. *)
Definition finds_same : Prop := ∀ regex, searchable regex →
  wp (find_matches rfuel term h regex) (λ '(l, regex'), l = found ∧ searchable regex').

(** The keys of the alphabet do not edit or cancel the selection. *)
Definition plain_alphabet : Prop := Forall (λ ch, ch ∉ [8; 31; 27; 3]%N) alphabet.

Definition shown : list Search.Match := dedup_by_start (sort_by_key found).
Definition in_terminal : Prop :=
  Forall (λ m, is_Some (Grid.index_point m.1 (Term.grid term))) shown.

(** The hint is being selected, and the keys were typed. *)
Definition selecting keys s : Prop :=
  hint s = Some h ∧ searchable (regex s) ∧ HintState.alphabet s = alphabet ∧ HintState.keys s = keys.

Lemma label_matches_ok keys s :
  selecting keys s → found ≠ [] →
  wp (label_matches found s) (λ s', selecting keys s' ∧ matches s' = shown ∧
    length (labels s') = length shown ∧
    ∀ j, j < length shown → ∃ label, match_label (length shown) j label ∧
      labels s' !! j = Some (remaining_label keys label)).
Proof using Hlen.
  intros (Eh & Hr & Ea & Ek) Hf. unfold label_matches. destruct found as [|m l] eqn:E; [done|].
  rewrite Ea, Ek. fold shown. rewrite <- E. fold shown.
  pose proof (assign_labels_ok keys (length shown) (labels s)) as Hw.
  destruct (HintLabels.new alphabet) as [g|]; [|done]. cbn [mbind option_bind] in *. apply wp_bind.
  eapply wp_mono; [exact Hw|]. intros labels' [El Hl]. cbn [wp]. by split_and!.
Qed.

(** Typing one character of a label. *)
Lemma type_one keys s i ch rest :
  finds_same → plain_alphabet → in_terminal → found ≠ [] →
  selecting keys s → i < length shown → match_label (length shown) i (keys ++ ch :: rest) →
  wp (keyboard_input rfuel term ch s) (λ '(m, s'),
    if decide (rest = [])
    then ∃ hm, m = Some hm ∧ shown !! i = Some (HintMatch.bounds hm) ∧ HintMatch.hint hm = h
    else m = None ∧ selecting (keys ++ [ch]) s').
Proof using Hlen Hnd.
  intros Hfind Hplain Hin Hf (Eh & Hr & Ea & Ek) Hi Hlabel. unfold keyboard_input.
  assert (ch ∉ [8; 31; 27; 3]%N) as Hch.
  { unfold plain_alphabet in Hplain. rewrite list.Forall_forall in Hplain. apply Hplain.
    eapply (label_alphabet alphabet); [exact Hlabel|]. apply elem_of_app. right. by left. }
  rewrite !not_elem_of_cons in Hch. destruct Hch as (H8 & H31 & H27 & H3 & _).
  rewrite !(proj2 (N.eqb_neq _ _)) by done. cbn [orb]. apply wp_bind. unfold update_matches.
  rewrite Eh. apply wp_bind. eapply wp_mono; [by apply Hfind|]. intros [l regex'] [-> Hr'].
  eapply wp_mono; [by apply (label_matches_ok keys)|].
  intros s' ((Eh' & Hrr & Ea' & Ek') & Em & El & Hl). unfold select_label. rewrite Eh'.
  destruct (find_typed _ _ _ _ _ _ El Hl Hi Hlabel) as (j & rest' & -> & Hd).
  destruct (decide (rest = [])) as [->|Hne].
  - destruct Hd as [-> ->]. simpl. rewrite Em.
    destruct (lookup_lt_is_Some_2 shown i) as [m Hm]; [done|]. rewrite Hm. cbn [mbind option_bind].
    unfold in_terminal in Hin. rewrite list.Forall_forall in Hin.
    destruct (Hin m) as [cell ->]; [by eapply list_elem_of_lookup_2|]. cbn [mbind option_bind wp].
    eexists. by split_and!.
  - destruct rest' as [|ch' rest']; [done|]. cbn [length Nat.eqb wp]. split; [done|].
    split_and!; [done|done|done|]. cbn [set_keys HintState.keys]. by rewrite Ek'.
Qed.

(** Typing until a match is selected: the match, the characters that are left, the state. *)
Fixpoint type_keys (chars : list char) s : option (option HintMatch.t * list char * t) :=
  match chars with
  | [] => Some (None, [], s)
  | ch :: rest =>
      '(m, s) ← keyboard_input rfuel term ch s;
      match m with Some m => Some (Some m, rest, s) | None => type_keys rest s end
  end.

Lemma type_rest keys rest s i :
  finds_same → plain_alphabet → in_terminal → found ≠ [] → rest ≠ [] →
  selecting keys s → i < length shown → match_label (length shown) i (keys ++ rest) →
  wp (type_keys rest s) (λ '(m, over, _), over = [] ∧
    ∃ hm, m = Some hm ∧ shown !! i = Some (HintMatch.bounds hm) ∧ HintMatch.hint hm = h).
Proof using Hlen Hnd.
  intros Hfind Hplain Hin Hf. revert keys s. induction rest as [|ch rest IH]; intros keys s Hne Hs Hi Hl; [done|].
  cbn [type_keys]. apply wp_bind. eapply wp_mono; [by eapply type_one|]. intros [m s'].
  destruct (decide (rest = [])) as [->|Hr].
  - intros (hm & -> & Hhm). by split; [|exists hm].
  - intros [-> Hs']. eapply IH; [done|exact Hs'|done|]. by rewrite <- app_assoc.
Qed.
End Typing.

(** C25.  While the terminal does not change, every match on the screen has a label, and typing its
    characters selects exactly this match with the last of them. *)
Theorem typing_selects `{External} `{RegexCompiler} alphabet rfuel term h found searchable s i :
  2 ≤ length alphabet → NoDup alphabet → plain_alphabet alphabet →
  finds_same rfuel term h found searchable → in_terminal term found → found ≠ [] →
  selecting alphabet h searchable [] s → i < length (shown found) →
  ∃ label hm s', match_label alphabet (length (shown found)) i label ∧
    type_keys rfuel term label s = Some (Some hm, [], s') ∧
    shown found !! i = Some (HintMatch.bounds hm) ∧ HintMatch.hint hm = h.
Proof.
  intros Hlen Hnd Hplain Hfind Hin Hf Hs Hi.
  destruct (proj1 (wp_some _ _) (assign_labels_ok alphabet Hlen [] (length (shown found)) []))
    as (labels & _ & _ & Hl). destruct (Hl i Hi) as (label & Hlabel & _). exists label.
  destruct (proj1 (wp_some _ _) (type_rest alphabet Hlen Hnd rfuel term h found searchable [] label s i
    Hfind Hplain Hin Hf (label_nonempty _ _ _ Hlabel) Hs Hi Hlabel))
    as ([[m over] s'] & E & -> & hm & -> & Hhm). by exists hm, s'.
Qed.
