(* ===== verification/HintMatchProps.v ===== *)
(** Properties of the matches of hints: the heuristics that shorten a match agree with their
    description by the nesting of brackets; the hyperlink at a point is found with all its cells;
    an expression that matches single characters is searched forever at the end of the buffer. *)
From S2P Require Import Prelude Index Cells Rows Storages Grids Resizes TermData Selections Terms.
From S2P Require Import Handlers TermSafety TermProps Searches SearchProps RegexProps ViModes Keys.
From S2P Require Import Bindings Hints HintProps.
#[local] Open Scope Z_scope.

Section PostProcessing.
Context `{External} (t : Term.t) (Hg : grid_ok row_safe (Term.grid t)).
#[local] Abbreviation g := (Term.grid t).

Implicit Types (z q a b : Z) (ch : char).

(** The number of brackets that are open after the cell [z] of a match that starts at [a]. *)
Definition level (opening closing : char) a z : Z := depth g opening closing (zrange a (z + 1)).

Definition balanced a z : Prop := 0 <= level 40 41 a z ∧ 0 <= level 91 93 a z.

Lemma level_before opening closing a : level opening closing a (a - 1) = 0.
Proof. unfold level, zrange. by rewrite seqZ_nil by lia. Qed.

Lemma level_step opening closing a z :
  a <= z → level opening closing a z = level opening closing a (z - 1) + weight g opening closing z.
Proof.
  intros Hz. unfold level, zrange. replace (z + 1 - a) with ((z - 1 + 1 - a) + 1) by lia.
  rewrite seqZ_app by lia. rewrite depth_app. f_equal. rewrite (seqZ_cons _ 1), seqZ_nil by lia.
  simpl. replace (a + (z - 1 + 1 - a)) with z by lia. lia.
Qed.

Lemma weight_char opening closing z x :
  cell_at g z = Some x →
  weight g opening closing z
    = if (c x =? opening)%N then 1 else if (c x =? closing)%N then -1 else 0.
Proof. intros Hx. unfold weight, char_at. by rewrite Hx. Qed.

(** Where the first loop ends: at the end of the match, or before the first bracket that closes
    nothing; then the character is this bracket. *)
Definition first_loop a b ch (it : Grid.GridIterator.t) : Prop :=
  (char_at g b = Some ch ∧ it = iter_at g b ∧ ∀ q, a <= q <= b → balanced a q) ∨
  ∃ z, a <= z <= b ∧ ¬ balanced a z ∧ (∀ q, a <= q < z → balanced a q) ∧
    (ch = 41 ∨ ch = 93)%N ∧ it = iter_at g (Z.max (first_cell g) (z - 1)).

Lemma unlin_eq z b : unlin g z = unlin g b ↔ z = b.
Proof using Hg.
  split; [|by intros ->]. intros E. rewrite <- (lin_unlin g Hg z), <- (lin_unlin g Hg b). by rewrite E.
Qed.

Lemma prev_at z :
  first_cell g <= z <= last_cell g →
  wp (Grid.GridIterator.prev g (iter_at g z)) (λ '(_, it), it = iter_at g (Z.max (first_cell g) (z - 1))).
Proof using Hg.
  intros Hz. change (Grid.GridIterator.prev g (iter_at g z)) with (Search.advance false g (iter_at g z)).
  rewrite (advance_at g Hg) by done. unfold step_to. case_decide; cbn [wp]; f_equal; lia.
Qed.

Lemma brackets_ok fuel a b par brk z x :
  first_cell g <= a → a <= z <= b → b <= last_cell g → b - z < Z.of_nat fuel → b - a < I32_MAX →
  cell_at g z = Some x → par = level 40 41 a (z - 1) → brk = level 91 93 a (z - 1) →
  0 <= par <= z - a → 0 <= brk <= z - a → (∀ q, a <= q < z → balanced a q) →
  wp (HintPostProcessor.brackets fuel g (unlin g b) par brk (c x) (iter_at g z)) (λ '(ch, it), first_loop a b ch it).
Proof using Hg.
  intros Ha. revert par brk z x. induction fuel as [|fuel IH]; intros par brk z x Hz Hb Hf Hsmall Hx Ep Eb Hp Hk Hbal;
    [lia|]. cbn [HintPostProcessor.brackets]. cbv zeta.
  pose proof (level_step 40 41 a z ltac:(lia)) as L1. pose proof (level_step 91 93 a z ltac:(lia)) as L2.
  rewrite <- Ep in L1. rewrite <- Eb in L2. rewrite (weight_char 40 41 z x Hx) in L1. rewrite (weight_char 91 93 z x Hx) in L2.
  pose (continue := λ par brk : Z,
    if bool_decide (Grid.GridIterator.point (iter_at g z) = unlin g b) then Some (c x, iter_at g z)
    else '(item, it) ← Grid.GridIterator.next g (iter_at g z);
         match item with
         | Some (_, cell) => HintPostProcessor.brackets fuel g (unlin g b) par brk (c cell) it
         | None => Some (c x, it)
         end).
  assert (∀ par' brk', par' = level 40 41 a z → brk' = level 91 93 a z →
    0 <= par' <= z + 1 - a → 0 <= brk' <= z + 1 - a → wp (continue par' brk') (λ '(ch, it), first_loop a b ch it)) as Hcont.
  { intros par' brk' Ep' Eb' Hp' Hk'. unfold continue.
    assert (∀ q, a <= q <= z → balanced a q) as Hbal'.
    { intros q Hq. destruct (decide (q = z)) as [->|]; [|apply Hbal; lia]. unfold balanced. lia. }
    change (Grid.GridIterator.point (iter_at g z)) with (unlin g z). case_bool_decide as Eend.
    - apply unlin_eq in Eend as ->. left. split; [unfold char_at; by rewrite Hx|]. by split.
    - assert (z ≠ b) as Hne by (intros ->; by apply Eend).
      change (Grid.GridIterator.next g (iter_at g z)) with (Search.advance true g (iter_at g z)).
      rewrite (advance_at g Hg) by lia. unfold step_to. rewrite decide_True by lia. mrun.
      destruct (cell_at_ok g Hg (z + 1)) as [y Hy]; [lia|]. rewrite Hy. mrun.
      apply IH; [lia|lia|lia|lia|done|by replace (z + 1 - 1) with z by lia
        |by replace (z + 1 - 1) with z by lia|lia|lia|]. intros q Hq. apply Hbal'. lia. }
  assert (¬ balanced a z → (c x = 41 ∨ c x = 93)%N →
    wp ('(_, it) ← Grid.GridIterator.prev g (iter_at g z); Some (c x, it))
      (λ '(ch, it), first_loop a b ch it)) as Hclose.
  { intros Hn Hch. wp_step. wp_call prev_at; [lia|]. intros [item it] ->. mrun. right. exists z.
    split; [lia|]. by split_and!. }
  destruct (N.eqb_spec (c x) 40) as [E|_]; [rewrite E in L2; simpl in L2; wp_step; wp_step; apply Hcont; lia|].
  destruct (N.eqb_spec (c x) 91) as [E|_]; [rewrite E in L1; simpl in L1; wp_step; wp_step; apply Hcont; lia|].
  destruct (N.eqb_spec (c x) 41) as [E|_].
  { rewrite E in L2. simpl in L2. destruct (Z.eqb_spec par 0).
    - apply Hclose; [unfold balanced; lia|by left].
    - wp_step. wp_step. apply Hcont; lia. }
  destruct (N.eqb_spec (c x) 93) as [E|_].
  { destruct (Z.eqb_spec brk 0).
    - apply Hclose; [unfold balanced; lia|by right].
    - wp_step. wp_step. apply Hcont; lia. }
  apply Hcont; lia.
Qed.
(** The character of the cell is one that is cut off. *)
Definition delimiter_at z : bool :=
  flag_at g (λ x, HintPostProcessor.is_delimiter (c x)) z.

Lemma delimiters_ok fuel a z ch :
  first_cell g <= a → a <= z <= last_cell g → z - a < Z.of_nat fuel → char_at g z = Some ch →
  wp (HintPostProcessor.delimiters fuel g (unlin g a) ch (iter_at g z)) (λ it, ∃ p,
    it = iter_at g p ∧ a <= p <= z ∧ (p = a ∨ delimiter_at p = false) ∧
    ∀ q, p < q <= z → delimiter_at q = true).
Proof using Hg.
  intros Ha. revert z ch. induction fuel as [|fuel IH]; intros z ch Hz Hf Hch; [lia|].
  cbn [HintPostProcessor.delimiters].
  assert (delimiter_at z = HintPostProcessor.is_delimiter ch) as Hd.
  { unfold char_at in Hch. destruct (cell_at g z) as [x|] eqn:Hx; [|done]. injection Hch as <-.
    unfold delimiter_at. by rewrite (flag_at_cell g _ z x Hx). }
  change (Grid.GridIterator.point (iter_at g z)) with (unlin g z). case_bool_decide as E.
  { apply unlin_eq in E as ->. exists a. split_and!; [done|lia|lia|by left|lia]. }
  destruct (HintPostProcessor.is_delimiter ch); cbn [negb].
  2: { exists z. split_and!; [done|lia|lia|by right|lia]. }
  assert (z ≠ a) as Hne by (intros ->; by apply E).
  change (Grid.GridIterator.prev g (iter_at g z)) with (Search.advance false g (iter_at g z)).
  rewrite (advance_at g Hg) by lia. unfold step_to. rewrite decide_True by lia. mrun.
  destruct (cell_at_ok g Hg (z - 1)) as [y Hy]; [lia|]. rewrite Hy. mrun.
  wp_call (IH (z - 1)); [lia|lia|unfold char_at; by rewrite Hy|].
  intros it (p & -> & Hp & Hend & Hq). exists p. split_and!; [done|lia|lia|done|].
  intros q Hlt. destruct (decide (q = z)) as [->|]; [done|]. apply Hq. lia.
Qed.

(** The end of the shortened match: before the first bracket that closes nothing, otherwise without
    the delimiters at the end. *)
Definition shortened a b (r : option Z) : Prop :=
  ((∀ q, a <= q <= b → balanced a q) ∧ ∃ p, r = Some p ∧ a <= p <= b ∧
     (p = a ∨ delimiter_at p = false) ∧ ∀ q, p < q <= b → delimiter_at q = true) ∨
  ∃ z, a <= z <= b ∧ ¬ balanced a z ∧ (∀ q, a <= q < z → balanced a q) ∧
    r = (if decide (z = a) then if decide (a = first_cell g) then Some a else None
         else Some (z - 1)).

(** C26.  The heuristics for the end of a match end, do not panic, and shorten the match to a part
    with the same start: a match with balanced brackets loses all delimiters at its end, another one
    ends right before the first bracket that closes nothing, and keeps the delimiters before that
    bracket, although a comment in the code says that trailing delimiters are always cut off
    ([delimiter_before_bracket_kept]).  There is no match when its first character closes nothing,
    unless it is the first of the buffer. *)
Theorem hint_post_processing_correct (m : Search.Match) :
  in_grid g m.1 → in_grid g m.2 → lin g m.1 <= lin g m.2 →
  Z.of_nat (total_lines t * columns t) < I32_MAX →
  ∃ r, HintPostProcessor.hint_post_processing t m = Some ((λ p, (m.1, unlin g p)) <$> r) ∧
    shortened (lin g m.1) (lin g m.2) r.
Proof using Hg.
  intros H1 H2 Hle Hsmall. apply (in_grid_lin g Hg) in H1 as [Hc1 Ha], H2 as [Hc2 Hb].
  set (a := lin g m.1) in *. set (b := lin g m.2) in *.
  assert (m.1 = unlin g a) as E1 by (unfold a; by rewrite unlin_lin).
  assert (m.2 = unlin g b) as E2 by (unfold b; by rewrite unlin_lin).
  pose proof (num_cells_total t Hg) as Hn. unfold num_cells in Hn.
  unfold HintPostProcessor.hint_post_processing. rewrite E1, E2.
  change (Grid.iter_from (unlin g a) g) with (iter_at g a).
  change (Grid.GridIterator.cell g (iter_at g a)) with (cell_at g a).
  destruct (cell_at_ok g Hg a) as [x Hx]; [lia|]. rewrite Hx. mrun.
  destruct (proj1 (wp_some _ _) (brackets_ok (Search.fuel t) a b 0 0 a x ltac:(lia) ltac:(lia) ltac:(lia)
    ltac:(unfold Search.fuel; lia) ltac:(lia) Hx ltac:(by rewrite level_before)
    ltac:(by rewrite level_before) ltac:(lia) ltac:(lia) ltac:(lia))) as ([ch it] & -> & Hloop). mrun.
  assert (∀ p, a <= p → Point.ltb (unlin g p) (unlin g a) = false) as Hlt.
  { intros p Hp. rewrite (ltb_lin g) by (apply (unlin_column g Hg)).
    rewrite !(lin_unlin g Hg). by apply Z.ltb_ge. }
  destruct Hloop as [(Hch & -> & Hbal)|(z & Hz & Hn1 & Hbal & Hch & ->)].
  - destruct (proj1 (wp_some _ _) (delimiters_ok (Search.fuel t) a b ch ltac:(lia) ltac:(lia)
      ltac:(unfold Search.fuel; lia) Hch)) as (it & -> & p & -> & Hp & Hend & Hq). mrun.
    change (Grid.GridIterator.point (iter_at g p)) with (unlin g p). rewrite Hlt by lia.
    exists (Some p). split; [done|]. left. split; [done|]. by exists p.
  - exists (if decide (z = a) then if decide (a = first_cell g) then Some a else None
            else Some (z - 1)). split; [|right; exists z; split; [lia|]; split; [done|]; by split].
    assert (∃ f, Search.fuel t = S f) as [f Ef] by (by exists (total_lines t * columns t)%nat).
    rewrite Ef. cbn [HintPostProcessor.delimiters].
    replace (HintPostProcessor.is_delimiter ch) with false by (by destruct Hch as [-> | ->]).
    cbn [negb].
    replace (if bool_decide _ then Some _ else Some _)
      with (Some (iter_at g (Z.max (first_cell g) (z - 1)))) by (by case_bool_decide).
    mrun. change (Grid.GridIterator.point (iter_at g ?p)) with (unlin g p).
    destruct (decide (z = a)) as [->|Hne]; [case_decide as Efirst|].
    + rewrite Hlt by lia. by replace (Z.max (first_cell g) (a - 1)) with a by lia.
    + rewrite (ltb_lin g _ _ (unlin_column g Hg _) (unlin_column g Hg _)). rewrite !(lin_unlin g Hg).
      by rewrite (proj2 (Z.ltb_lt _ _)) by lia.
    + rewrite Hlt by lia. by replace (Z.max (first_cell g) (z - 1)) with (z - 1) by lia.
Qed.
(** ** Hyperlinks *)

Definition linked (hl : Hyperlink) z : Prop := (x ← cell_at g z; Cell.hyperlink x) = Some hl.

(** [q] is the last cell of the run of linked cells in a direction from [z]. *)
Definition run_end (hl : Hyperlink) (forward : bool) z q : Prop :=
  first_cell g <= q <= last_cell g ∧ (if forward then z <= q else q <= z) ∧
  (∀ i, (if forward then z < i <= q else q <= i < z) → linked hl i) ∧
  ¬ (first_cell g <= step_to forward q <= last_cell g ∧ linked hl (step_to forward q)).

Lemma link_end_ok fuel forward hl z :
  first_cell g <= z <= last_cell g → (length (ahead g forward z) < fuel)%nat →
  wp (link_end fuel forward hl g (unlin g z) (iter_at g z)) (λ p, ∃ q, p = unlin g q ∧
    run_end hl forward z q).
Proof using Hg.
  revert z. induction fuel as [|fuel IH]; intros z Hz Hf; [lia|]. cbn [link_end].
  rewrite (advance_at g Hg) by done. rewrite ahead_step in Hf by done.
  assert (¬ (first_cell g <= step_to forward z <= last_cell g ∧ linked hl (step_to forward z)) →
    run_end hl forward z z) as Hhere.
  { intros Hn. unfold run_end. split; [done|]. split; [by destruct forward|].
    split; [destruct forward; lia|done]. }
  case_decide as Hz'; mrun; [|exists z; split; [done|]; apply Hhere; by intros [? _]].
  destruct (cell_at_ok g Hg (step_to forward z) Hz') as [x Hx]. rewrite Hx. mrun.
  case_bool_decide as Hl.
  - assert (linked hl (step_to forward z)) as Hlz by (unfold linked; by rewrite Hx).
    wp_call IH; [done|simpl in Hf; lia|]. intros p (q & -> & Hq & Hzq & Hrun & Hend).
    exists q. split; [done|]. split; [done|]. unfold step_to in *.
    split; [destruct forward; lia|]. split; [|done].
    intros i Hi. destruct (decide (i = if forward then z + 1 else z - 1)) as [->|Hne]; [done|].
    apply Hrun. destruct forward; lia.
  - exists z. split; [done|]. apply Hhere. intros [_ Hlz]. apply Hl. unfold linked in Hlz.
    by rewrite Hx in Hlz.
Qed.

(**  The hyperlink at a point is that of its cell; its range is the longest run of cells around
    the point with the same hyperlink. *)
Theorem hyperlink_at_correct (p : Point) :
  in_grid g p →
  ∃ r, hyperlink_at t p = Some r ∧
    match r with
    | None => ∀ hl, ¬ linked hl (lin g p)
    | Some (hl, (s, e)) => linked hl (lin g p) ∧ ∃ a b, s = unlin g a ∧ e = unlin g b ∧
        a <= lin g p <= b ∧ (∀ i, a <= i <= b → linked hl i) ∧
        ¬ (first_cell g <= a - 1 ∧ linked hl (a - 1)) ∧ ¬ (b + 1 <= last_cell g ∧ linked hl (b + 1))
    end.
Proof using Hg.
  intros Hp. apply (in_grid_lin g Hg) in Hp as [Hc Hz]. set (z := lin g p) in *.
  assert (p = unlin g z) as E by (unfold z; by rewrite unlin_lin).
  unfold hyperlink_at. rewrite E. change (Grid.index_point (unlin g z) g) with (cell_at g z).
  change (Grid.iter_from (unlin g z) g) with (iter_at g z).
  destruct (cell_at_ok g Hg z Hz) as [x Hx]. rewrite Hx. mrun.
  assert (∀ hl, linked hl z ↔ Cell.hyperlink x = Some hl) as Hl by (intros hl; unfold linked; by rewrite Hx).
  destruct (Cell.hyperlink x) as [hl|] eqn:Eh.
  2: { exists None. split; [done|]. by intros hl ?%Hl. }
  destruct (proj1 (wp_some _ _) (link_end_ok (Search.fuel t) true hl z Hz (fuel_ok t Hg true z Hz)))
    as (e & -> & b & -> & Hb & Hzb & Hrb & Hendb). mrun.
  destruct (proj1 (wp_some _ _) (link_end_ok (Search.fuel t) false hl z Hz (fuel_ok t Hg false z Hz)))
    as (s & -> & a & -> & Ha & Hza & Hra & Henda). mrun.
  eexists. split; [done|]. assert (linked hl z) as Hlz by (by apply Hl). split; [done|].
  exists a, b. unfold step_to in *. split; [done|]. split; [done|]. split; [lia|]. split.
  - intros i Hi. destruct (decide (i = z)) as [->|]; [done|].
    destruct (decide (i < z)); [apply Hra; lia|apply Hrb; lia].
  - split; intros [? ?]; [apply Henda|apply Hendb]; (split; [lia|done]).
Qed.
End PostProcessing.

(** * Matches at the end of the buffer *)

#[local] Existing Instance Sample.external.

(** The automaton of an expression for one character that is not a blank; the anchored one does not
    look for the first of them.  A match is reported one byte late, as [regex-automata] does. *)
Inductive single_state := Scan | Seen | Found | Dead.
#[local] Instance Single : Hybrid := {|
  DFA := bool; Cache := unit; LazyStateID := single_state;
  start_state_forward := λ _ _ x, (Some Scan, x);
  next_state := λ anchored s byte x,
    (Some match s with
          | Scan => if (byte =? 32)%N then if anchored : bool then Dead else Scan else Seen
          | Seen => Found
          | _ => Dead
          end, x);
  next_eoi_state := λ _ s x, (Some match s with Seen => Found | _ => Dead end, x);
  is_match := λ s, match s with Found => true | _ => false end;
  is_dead := λ s, match s with Dead => true | _ => false end;
|}.

Definition single : RegexSearch :=
  mkRegexSearch (mkLazyDfa false tt Left false) (mkLazyDfa true tt Right true)
    (mkLazyDfa true tt Left true) (mkLazyDfa false tt Right false).

(** A character in the last cell of a screen of three lines. *)
Definition last_char : Term.t := TermSample.typed [Goto 2 3; Input 97]%N.
Definition corner : Point := Pt 2 3%nat.

(** More fuel gives the same result. *)
Section Fuel.
Context `{External} `{Hybrid}.
Implicit Types (term : Term.t).

Lemma regex_loop_fuel fuel fuel' regex term e r x :
  (fuel <= fuel')%nat → Search.regex_loop fuel regex term e r = Some x →
  Search.regex_loop fuel' regex term e r = Some x.
Proof.
  revert fuel' r. induction fuel as [|fuel IH]; intros [|fuel'] r Hle; simpl; try done; [lia|].
  destruct (Search.regex_step _ _ _ _) as [[| |r'|r']|]; simpl; try done; apply IH; lia.
Qed.

Lemma regex_search_fuel fuel fuel' start e regex term x :
  (fuel <= fuel')%nat → Search.regex_search fuel start e regex term = Some x →
  Search.regex_search fuel' start e regex term = Some x.
Proof.
  intros Hle. unfold Search.regex_search. destruct (Search.regex_start _ _ _) as [r|]; simpl; [|done].
  destruct (Search.regex_loop fuel _ _ _ _) as [y|] eqn:E; [|done].
  by rewrite (regex_loop_fuel _ _ _ _ _ _ _ Hle E).
Qed.

Lemma regex_search_right_fuel fuel fuel' start e term s x :
  (fuel <= fuel')%nat → Search.regex_search_right fuel start e term s = Some x →
  Search.regex_search_right fuel' start e term s = Some x.
Proof.
  intros Hle. unfold Search.regex_search_right.
  destruct (Search.regex_search fuel start e _ _) as [[[m|] f]|] eqn:E; simpl; try done;
    rewrite (regex_search_fuel _ _ _ _ _ _ _ Hle E); simpl; [|done].
  destruct (Search.regex_search fuel m start _ _) as [y|] eqn:E'; [|done].
  by rewrite (regex_search_fuel _ _ _ _ _ _ _ Hle E').
Qed.

Lemma next_processed_match_fuel fuel fuel' rfuel rfuel' term regex m s x :
  (fuel <= fuel')%nat → (rfuel <= rfuel')%nat →
  HintPostProcessor.next_processed_match fuel rfuel term regex m s = Some x →
  HintPostProcessor.next_processed_match fuel' rfuel' term regex m s = Some x.
Proof.
  intros Hle Hr. revert fuel' regex m s Hle. induction fuel as [|fuel IH]; intros [|fuel'] regex m s Hle; simpl;
    try done; [lia|].
  destruct (HintPostProcessor.hint_post_processing _ _) as [[next_match|]|]; simpl; try done.
  destruct (Point.add _ _ _ _) as [start|]; simpl; [|done]. destruct (Point.ltb _ _); [done|].
  destruct (Search.regex_search_right rfuel _ _ _ _) as [[[rm|] regex']|] eqn:E; simpl; try done;
    rewrite (regex_search_right_fuel _ _ _ _ _ _ _ Hr E); simpl; [|done].
  apply IH. lia.
Qed.

Lemma next_fuel rfuel rfuel' term regex s x :
  (rfuel <= rfuel')%nat → HintPostProcessor.next rfuel term regex s = Some x →
  HintPostProcessor.next rfuel' term regex s = Some x.
Proof.
  intros Hr. unfold HintPostProcessor.next. destruct (HintPostProcessor.next_match s) as [m|]; [|done].
  cbn [HintPostProcessor.start HintPostProcessor.end_]. destruct (Point.leb _ _); [|done].
  destruct (Search.regex_search_right rfuel _ _ _ _) as [[[rm|] regex']|] eqn:E; simpl; try done;
    rewrite (regex_search_right_fuel _ _ _ _ _ _ _ Hr E); simpl; [|done].
  destruct (HintPostProcessor.next_processed_match rfuel rfuel _ _ _ _) as [y|] eqn:E'; [|done].
  by rewrite (next_processed_match_fuel _ _ _ _ _ _ _ _ _ Hr Hr E').
Qed.

Lemma new_fuel rfuel rfuel' term regex m x :
  (rfuel <= rfuel')%nat → HintPostProcessor.new rfuel term regex m = Some x →
  HintPostProcessor.new rfuel' term regex m = Some x.
Proof. intros Hr. by apply next_processed_match_fuel. Qed.

(** An iterator that does not change when it yields an item never ends. *)
Lemma items_never k fuel rfuel term regex s m :
  HintPostProcessor.next k term regex s = Some (Some m, s, regex) →
  HintPostProcessor.items fuel rfuel (λ _, false) term regex s = None.
Proof.
  intros Hk. induction fuel as [|fuel IH]; [done|]. cbn [HintPostProcessor.items].
  destruct (HintPostProcessor.next rfuel term regex s) as [x|] eqn:E; [|done].
  apply (next_fuel _ (max k rfuel)) in E; [|lia]. apply (next_fuel _ (max k rfuel)) in Hk; [|lia].
  rewrite Hk in E. injection E as <-. simpl. by rewrite IH.
Qed.

Lemma collect_never k rfuel term regex s m rm :
  HintPostProcessor.new k term regex rm = Some (s, regex) →
  HintPostProcessor.next k term regex s = Some (Some m, s, regex) →
  HintPostProcessor.collect rfuel term regex rm = None.
Proof.
  intros Hnew Hnext. unfold HintPostProcessor.collect.
  destruct (HintPostProcessor.new rfuel term regex rm) as [x|] eqn:E; [|done].
  apply (new_fuel _ (max k rfuel)) in E; [|lia]. apply (new_fuel _ (max k rfuel)) in Hnew; [|lia].
  rewrite Hnew in E. injection E as <-. simpl. by eapply items_never.
Qed.
End Fuel.

(**  A match in the last cell of the buffer: the start of the search for further matches does
    not get past it, so if the expression matches this cell on its own, the same match is found
    again and again, and collecting the matches of the hint never ends. *)
Theorem post_processing_never_ends :
  (∃ regex, VisibleMatches.collect 40 last_char single = Some ([(corner, corner)], regex)) ∧
  ∀ rfuel, HintPostProcessor.collect rfuel last_char single (corner, corner) = None.
Proof.
  split; [eexists; vm_compute; reflexivity|]. intros rfuel.
  apply (collect_never 40 rfuel last_char single
           (HintPostProcessor.mk (Some (corner, corner)) corner corner) (corner, corner));
    vm_compute; reflexivity.
Qed.

(** * Witnesses *)

(** The terminal with some characters on its first line. *)
Definition line_of (chars : list char) : Term.t := TermSample.typed (Input <$> chars).

Lemma hint_post_processing_correct_witness :
  grid_ok row_safe (Term.grid (line_of [97; 46; 46]%N)) ∧
  HintPostProcessor.hint_post_processing (line_of [97; 46; 46]%N) (Pt 0 0%nat, Pt 0 2%nat)
    = Some (Some (Pt 0 0%nat, Pt 0 0%nat)) ∧
  ∃ r, shortened (line_of [97; 46; 46]%N) 0 2 r.
Proof.
  assert (grid_ok row_safe (Term.grid (line_of [97; 46; 46]%N))) as Hg.
  { apply TermSample.typed_grid_ok; [by repeat constructor|simpl; lia]. }
  split; [exact Hg|]. split; [vm_compute; reflexivity|].
  destruct (hint_post_processing_correct (line_of [97; 46; 46]%N) Hg (Pt 0 0%nat, Pt 0 2%nat))
    as (r & _ & Hr).
  - split; [by vm_compute|by vm_compute; lia].
  - split; [by vm_compute|by vm_compute; lia].
  - by vm_compute.
  - by vm_compute.
  - exists r. exact Hr.
Defined.

(** The delimiters before a bracket that closes nothing are kept: the loop over the brackets leaves
    the bracket in the variable that the loop over the delimiters tests. *)
Example delimiter_before_bracket_kept :
  HintPostProcessor.hint_post_processing (line_of [97; 46; 41]%N) (Pt 0 0%nat, Pt 0 2%nat)
    = Some (Some (Pt 0 0%nat, Pt 0 1%nat)).
Proof. vm_compute. reflexivity. Qed.

Definition linked_line : Term.t :=
  TermSample.typed [Input 97; SetHyperlink (Some (mkVteHyperlink (Some [105]) [117])); Input 98; Input 99]%N.

Lemma hyperlink_at_correct_witness :
  in_grid (Term.grid linked_line) (Pt 0 1%nat) ∧
  hyperlink_at linked_line (Pt 0 1%nat)
    = Some (Some (mkHyperlink [105]%N [117]%N, (Pt 0 1%nat, Pt 0 2%nat))) ∧
  ∃ r, hyperlink_at linked_line (Pt 0 1%nat) = Some r.
Proof.
  assert (grid_ok row_safe (Term.grid linked_line)) as Hg.
  { apply TermSample.typed_grid_ok; [by repeat constructor|simpl; lia]. }
  assert (in_grid (Term.grid linked_line) (Pt 0 1%nat)) as Hp
    by (split; [by vm_compute|by vm_compute; lia]).
  split; [exact Hp|]. split; [vm_compute; reflexivity|].
  destruct (hyperlink_at_correct linked_line Hg (Pt 0 1%nat) Hp) as (r & E & _).
  exists r. exact E.
Defined.

(** A hint for characters, and a screen with two of them. *)
#[local] Instance single_compiler : RegexCompiler := {| RegexSearch_new := λ _, Some single |}.
Definition char_hint : Bindings.Hint :=
  mkHint (mkHintContent (Some [46]%N) false) (HintActionInternal HintCopy) false false None.
Definition two_chars : Term.t := TermSample.typed [Input 97; Goto 2 3; Input 98]%N.
Definition two_matches : list Search.Match := [(Pt 0 0%nat, Pt 0 0%nat); (corner, corner)].
Definition in_char_search (regex : option LazyRegex.t) : Prop :=
  regex = Some (LazyRegex.Pattern [46]%N) ∨ regex = Some (LazyRegex.Compiled [46]%N single).
(** The default alphabet. *)
Definition default_alphabet : list char :=
  [106; 102; 107; 100; 108; 115; 59; 97; 104; 103; 117; 114; 105; 101; 111; 119; 112; 113]%N.
Definition started : HintState.t :=
  HintState.start char_hint (Some (LazyRegex.Pattern [46]%N)) (HintState.new default_alphabet).

Lemma two_chars_found : finds_same 40 two_chars char_hint two_matches in_char_search.
Proof.
  assert (∀ r, r = Some (LazyRegex.Pattern [46]%N) ∨ r = Some (LazyRegex.Compiled [46]%N single) →
    HintState.find_matches 40 two_chars char_hint r
    = Some (two_matches, Some (LazyRegex.Compiled [46]%N single))) as E.
  { intros r [->| ->]; vm_compute; reflexivity. }
  intros regex Hr. rewrite (E regex Hr). split; [reflexivity|by right].
Qed.

(** Typing the second label, of the first match. *)
Lemma typing_selects_witness :
  NoDup default_alphabet ∧ plain_alphabet default_alphabet ∧
  finds_same 40 two_chars char_hint two_matches in_char_search ∧
  ∃ label hm s', match_label default_alphabet 2 0 label ∧
    type_keys 40 two_chars label started = Some (Some hm, [], s') ∧
    HintMatch.bounds hm = (Pt 0 0%nat, Pt 0 0%nat).
Proof.
  assert (NoDup default_alphabet) as Hnd by (apply (bool_decide_unpack _); vm_compute; exact I).
  assert (plain_alphabet default_alphabet) as Hplain
    by (apply (bool_decide_unpack (Forall _ _)); vm_compute; exact I).
  split; [exact Hnd|]. split; [exact Hplain|]. split; [exact two_chars_found|].
  destruct (typing_selects default_alphabet 40 two_chars char_hint two_matches in_char_search started 0)
    as (label & hm & s' & Hl & E & Hm & _).
  - simpl. lia.
  - exact Hnd.
  - exact Hplain.
  - exact two_chars_found.
  - apply (bool_decide_unpack (Forall _ _)). vm_compute. exact I.
  - discriminate.
  - split; [reflexivity|]. split; [by left|]. by split.
  - simpl. lia.
  - exists label, hm, s'. split; [exact Hl|]. split; [exact E|]. by injection Hm.
Defined.

Lemma labels_prefix_free_witness :
  NoDup default_alphabet ∧
  ∃ labels, (s ← HintLabels.new default_alphabet; HintLabels.take_labels 20 s) = Some labels ∧
    length labels = 20%nat.
Proof.
  assert (NoDup default_alphabet) as Hnd by (apply (bool_decide_unpack _); vm_compute; exact I).
  split; [exact Hnd|].
  destruct (labels_prefix_free default_alphabet 20 ltac:(simpl; lia) Hnd) as (labels & E & El & _).
  exists labels. split; [exact E|exact El].
Defined.
