(* ===== verification/Messages.v ===== *)
(** The message bar ([cutty/src/message_bar.rs]): the lines a message is shown on, and the queue of
    messages.

    A string is the list of its characters; the operations at a byte index ([truncate],
    [split_off]) panic when the index is inside of a character. *)
From S2P Require Import Prelude Index Cells TermData Searches Keys.

(** * Strings *)

Module Str.
Definition char_len (ch : char) : nat := length (encode_utf8 ch).
Fixpoint len (s : text) : nat :=
  match s with [] => 0 | ch :: s => char_len ch + len s end.

(** [split_off]: the part before a byte index and the part from it on. *)
Fixpoint split_off (at_ : nat) (s : text) : option (text * text) :=
  match at_ with
  | O => Some ([], s)
  | _ =>
      match s with
      | [] => None
      | ch :: s =>
          rest ← usize_sub at_ (char_len ch);
          '(a, b) ← split_off rest s;
          Some (ch :: a, b)
      end
  end.

(** [truncate] does nothing when the string is not longer. *)
Definition truncate (new_len : nat) (s : text) : option text :=
  if new_len <=? len s then fst <$> split_off new_len s else Some s.

(** [rfind(char::is_whitespace)]: the byte index of the last whitespace. *)
Fixpoint rfind_whitespace (i : nat) (s : text) : option nat :=
  match s with
  | [] => None
  | ch :: s =>
      match rfind_whitespace (i + char_len ch) s with
      | Some j => Some j
      | None => if is_whitespace ch then Some i else None
      end
  end.

Definition pop (s : text) : text := take (length s - 1) s.
End Str.

(** * [struct Message] *)

Inductive MessageType := MessageError | MessageWarning.
#[export] Instance MessageType_eq_dec : EqDecision MessageType.
Proof. solve_decision. Defined.

Definition CLOSE_BUTTON_TEXT : text := [91; 88; 93]%N.
Definition CLOSE_BUTTON_PADDING : nat := 1.
Definition MIN_FREE_LINES : nat := 3.
(** "[MESSAGE TRUNCATED]". *)
Definition TRUNCATED_MESSAGE : text :=
  [91; 77; 69; 83; 83; 65; 71; 69; 32; 84; 82; 85; 78; 67; 65; 84; 69; 68; 93]%N.

Module Message.
Record t := mk { content : text; ty : MessageType; target : option text }.
#[global] Instance t_eq_dec : EqDecision t.
Proof. solve_decision. Defined.

Definition new (content : text) (ty : MessageType) : t := mk content ty None.
Definition set_target (target : text) (s : t) : t := mk (content s) (ty s) (Some target).

(** Right-padding to a number of columns. *)
Definition pad_text (s : text) (num_cols : nat) : text :=
  s ++ replicate (num_cols - length s) 32%N.

Section text.
Context `{External}.

(** The variables of the loop: the lines, the current line and its width. *)
Record wrapping := mkWrapping { lines : list text; line : text; line_len : nat }.

(** A new line starts before a character: a linebreak, the end of the line, or the place of the
    button in the first line. *)
Definition breaks (num_cols : nat) (ch : char) (s : wrapping) : bool :=
  let button_len := length CLOSE_BUTTON_TEXT in
  (ch =? 10)%N || (line_len s =? num_cols)
  || bool_decide (lines s = []) && (button_len <=? num_cols)
     && (line_len s =? num_cols - (button_len + CLOSE_BUTTON_PADDING)).

(** Breaking the line, at a word boundary if there is one. *)
Definition break_line (num_cols : nat) (ch : char) (s : wrapping) : option wrapping :=
  '(line', new_line) ←
    (match Str.rfind_whitespace 0 (line s) with
     | Some index =>
         if is_whitespace ch then Some (line s, [])
         else '(a, b) ← Str.split_off (index + 1) (line s); Some (Str.pop a, b)
     | None => Some (line s, [])
     end);
  Some (mkWrapping (lines s ++ [pad_text line' num_cols]) new_line (length new_line)).

Definition push_char (ch : char) (s : wrapping) : wrapping :=
  let width := default 0 (char_width ch) in
  mkWrapping (lines s) (line s ++ ch :: if width =? 2 then [32%N] else []) (line_len s + width).

Definition wrap_char (num_cols : nat) (ch : char) (s : wrapping) : option wrapping :=
  if breaks num_cols ch s then
    s ← break_line num_cols ch s;
    Some (if is_whitespace ch then s else push_char ch s)
  else Some (push_char ch s).

(** Truncating the output if it is too long. *)
Definition truncate_lines (num_cols max_lines : nat) (ls : list text) : list text :=
  if max_lines <? length ls then
    let ls := take max_lines ls in
    if Str.len TRUNCATED_MESSAGE <=? num_cols then
      match reverse ls with
      | [] => ls
      | _ :: front => reverse front ++ [pad_text TRUNCATED_MESSAGE num_cols]
      end
    else ls
  else ls.

(** Appending the close button to the first line. *)
Definition append_button (num_cols : nat) (ls : list text) : option (list text) :=
  let button_len := length CLOSE_BUTTON_TEXT in
  match ls with
  | first :: rest =>
      if button_len <=? num_cols then
        first ← Str.truncate (num_cols - button_len) first;
        Some ((first ++ CLOSE_BUTTON_TEXT) :: rest)
      else Some ls
  | [] => Some ls
  end.

(** [text]; [total_lines] is the number of lines of the window, computed from its height. *)
Definition text_lines (num_cols total_lines : nat) (self : t) : option (list text) :=
  let max_lines := total_lines - MIN_FREE_LINES in
  s ← foldM (wrap_char num_cols) (trim (content self)) (mkWrapping [] [] 0);
  append_button num_cols
    (truncate_lines num_cols max_lines (lines s ++ [pad_text (line s) num_cols])).
End text.
End Message.

(** * [struct MessageBuffer] *)

Module MessageBuffer.
Definition t : Type := list Message.t.
Definition is_empty (s : t) : bool := bool_decide (s = []).
Definition message (s : t) : option Message.t := head s.
(** The first message and all its duplicates are removed. *)
Definition pop (s : t) : t :=
  match s with [] => [] | msg :: rest => filter (λ m, m ≠ msg) rest end.
Definition remove_target (target : text) (s : t) : t :=
  filter (λ m, Message.target m ≠ Some target) s.
Definition push (message : Message.t) (s : t) : t := s ++ [message].
Definition is_queued (message : Message.t) (s : t) : bool := bool_decide (message ∈ s).
End MessageBuffer.
