(* ===== verification/MessageProps.v ===== *)
(** Properties of the message bar: the lines of a printable message fill the window, keep its text
    and leave room for the button; the queue of messages. *)
From S2P Require Import Prelude Index Cells TermData Searches Keys Messages.

(** * Strings of ASCII characters *)

Section Ascii.
Implicit Types (s : text) (ch : char).

Definition is_ascii ch : Prop := (ch < 128)%N.

(** What is left of a string without whitespace. *)
Definition ink s : text := filter (λ ch, is_whitespace ch = false) s.

Lemma ink_app s s' : ink (s ++ s') = ink s ++ ink s'.
Proof. apply filter_app. Qed.

Lemma ink_spaces n : ink (replicate n 32%N) = [].
Proof. by induction n. Qed.

Lemma ink_whitespace ch s : is_whitespace ch = true → ink (ch :: s) = ink s.
Proof. intros E. unfold ink. rewrite filter_cons_False; [done|congruence]. Qed.

Lemma ascii_len ch : is_ascii ch → Str.char_len ch = 1.
Proof. intros E. unfold Str.char_len, encode_utf8. by rewrite (proj2 (N.ltb_lt _ _) E). Qed.

Lemma len_ascii s : Forall is_ascii s → Str.len s = length s.
Proof. induction 1 as [|ch s Hch Hs IH]; [done|]. simpl. by rewrite ascii_len, IH. Qed.

Lemma split_off_ascii n s :
  Forall is_ascii s → n ≤ length s → Str.split_off n s = Some (take n s, drop n s).
Proof.
  intros Hs. revert n. induction Hs as [|ch s Hch Hs IH]; intros [|n] Hn; simpl in *; try done; [lia|].
  rewrite ascii_len by done. rewrite usize_sub_ok by lia. cbn [mbind option_bind].
  rewrite Nat.sub_succ, Nat.sub_0_r, IH by lia. done.
Qed.

Lemma truncate_ascii n s : Forall is_ascii s → Str.truncate n s = Some (take n s).
Proof.
  intros Hs. unfold Str.truncate. rewrite len_ascii by done. destruct (Nat.leb_spec n (length s)).
  - by rewrite split_off_ascii.
  - by rewrite take_ge by lia.
Qed.

Lemma rfind_ascii i s :
  Forall is_ascii s →
  match Str.rfind_whitespace i s with
  | Some j => ∃ a ch b, s = a ++ ch :: b ∧ j = i + length a ∧ is_whitespace ch = true
  | None => True
  end.
Proof.
  intros Hs. revert i. induction Hs as [|ch s Hch Hs IH]; intros i; simpl; [done|].
  rewrite ascii_len by done. specialize (IH (i + 1)).
  destruct (Str.rfind_whitespace (i + 1) s) as [j|].
  - destruct IH as (a & ch' & b & -> & -> & Hw). exists (ch :: a), ch', b. split_and!; [done|simpl; lia|done].
  - destruct (is_whitespace ch) eqn:E; [|done]. exists [], ch, s. split_and!; [done|simpl; lia|done].
Qed.

Lemma drop_while_ink s : ink (drop_while is_whitespace s) = ink s.
Proof.
  induction s as [|ch s IH]; simpl; [done|]. destruct (is_whitespace ch) eqn:E; [|done].
  by rewrite IH, ink_whitespace.
Qed.

Lemma ink_reverse s : ink (reverse s) = reverse (ink s).
Proof.
  induction s as [|ch s IH]; [done|]. rewrite reverse_cons, ink_app, IH. unfold ink at 2 3.
  rewrite !filter_cons. case_decide; [by rewrite reverse_cons|]. by rewrite app_nil_r.
Qed.

Lemma trim_ink s : ink (trim s) = ink s.
Proof.
  unfold trim, trim_end. rewrite ink_reverse, drop_while_ink, ink_reverse, drop_while_ink.
  apply reverse_involutive.
Qed.

Lemma drop_while_forall (P : char → Prop) s : Forall P s → Forall P (drop_while is_whitespace s).
Proof. induction 1; simpl; [done|]. case_match; [done|by constructor]. Qed.

Lemma trim_forall (P : char → Prop) s : Forall P s → Forall P (trim s).
Proof. intros Hs. unfold trim, trim_end. by apply Forall_reverse, drop_while_forall, Forall_reverse, drop_while_forall. Qed.
End Ascii.

(** * The lines of a message *)

Section Lines.
Context `{External} (num_cols : nat) (Hcols : 0 < num_cols).
Import Message.
Implicit Types (s : wrapping) (ch : char) (l : text).

(** The characters of ASCII that can be printed, and the linebreak. *)
Definition printable ch : Prop := (32 ≤ ch ≤ 126)%N ∨ ch = 10%N.

(** What [unicode-width] documents of them. *)
Definition ascii_width : Prop := ∀ ch, (32 ≤ ch ≤ 126)%N → char_width ch = Some 1.

(** The columns of the first line that are not for the button. *)
Definition first_cols : nat := num_cols - (length CLOSE_BUTTON_TEXT + CLOSE_BUTTON_PADDING).
Definition has_button : Prop := length CLOSE_BUTTON_TEXT ≤ num_cols.

Definition blank l : Prop := Forall (λ ch, ch = 32%N) l.

(** A line of the window; in the first one the place of the button is blank. *)
Definition line_ok l : Prop := length l = num_cols ∧ Forall is_ascii l.
Definition first_ok (ls : list text) : Prop :=
  has_button → ∀ first, head ls = Some first → blank (drop first_cols first).

Record wrapping_ok (done : text) s : Prop := {
  w_ascii : Forall is_ascii (line s);
  w_len : line_len s = length (line s);
  w_cols : length (line s) ≤ num_cols;
  w_first : lines s = [] → has_button → length (line s) ≤ first_cols;
  w_lines : Forall line_ok (lines s);
  w_button : first_ok (lines s);
  w_ink : ink (concat (lines s) ++ line s) = ink done;
}.

Lemma pad_ok l : Forall is_ascii l → length l ≤ num_cols → line_ok (pad_text l num_cols).
Proof.
  intros Ha Hl. unfold pad_text. split; [rewrite length_app, length_replicate; lia|].
  apply Forall_app. split; [done|]. apply Forall_replicate. unfold is_ascii. lia.
Qed.

Lemma pad_ink l : ink (pad_text l num_cols) = ink l.
Proof. unfold pad_text. by rewrite ink_app, ink_spaces, app_nil_r. Qed.

Lemma pad_blank l n : length l ≤ n → blank (drop n (pad_text l num_cols)).
Proof.
  intros Hl. unfold pad_text, blank. rewrite drop_app_ge by done. by apply Forall_drop, Forall_replicate.
Qed.

(** Adding a padded line. *)
Lemma push_line ls l :
  Forall line_ok ls → first_ok ls → Forall is_ascii l → length l ≤ num_cols →
  (ls = [] → has_button → length l ≤ first_cols) →
  Forall line_ok (ls ++ [pad_text l num_cols]) ∧ first_ok (ls ++ [pad_text l num_cols]).
Proof.
  intros Hls Hf Ha Hl Hfirst. split.
  - apply Forall_app. split; [done|]. constructor; [by apply pad_ok|done].
  - intros Hb first. destruct ls as [|x ls]; simpl; [|by apply Hf].
    intros [= <-]. by apply pad_blank, Hfirst.
Qed.

Lemma concat_snoc (ls : list text) l : concat (ls ++ [l]) = concat ls ++ l.
Proof. rewrite concat_app. simpl. by rewrite app_nil_r. Qed.

(** Breaking the line leaves room for a character, and loses only whitespace. *)
Lemma break_ok done ch s :
  wrapping_ok done s →
  wp (break_line num_cols ch s) (λ s', wrapping_ok done s' ∧ lines s' ≠ [] ∧ line_len s' < num_cols).
Proof using Hcols.
  intros [Ha El Hl Hf Hls Hb Hi]. unfold break_line.
  assert (∀ l new, Forall is_ascii l → Forall is_ascii new → length l ≤ length (line s) →
    length new < num_cols → ink (line s) = ink (l ++ new) →
    let s' := mkWrapping (lines s ++ [pad_text l num_cols]) new (length new) in
    wrapping_ok done s' ∧ lines s' ≠ [] ∧ line_len s' < num_cols) as Hdone.
  { intros l new Hal Han Hll Hnew Hink s'.
    destruct (push_line (lines s) l) as [Hls' Hb']; [done|done|done|lia| |].
    { intros E Hbt. specialize (Hf E Hbt). lia. }
    split; [|split; [simpl; by destruct (lines s)|done]].
    split; simpl; [done|done|lia|by destruct (lines s)|done|done|].
    rewrite concat_snoc. rewrite !ink_app, pad_ink in *. rewrite <- Hi, Hink. by rewrite app_assoc. }
  pose proof (rfind_ascii 0 (line s) Ha) as Hr.
  destruct (Str.rfind_whitespace 0 (line s)) as [j|].
  - destruct (is_whitespace ch).
    { simpl. apply Hdone; [done|done|done|simpl; lia|by rewrite app_nil_r]. }
    destruct Hr as (a & w & b & E & -> & Hw). rewrite E in *. simpl in *.
    rewrite split_off_ascii by (done || rewrite length_app; simpl; lia). cbn [mbind option_bind wp].
    rewrite !Forall_app in Ha. destruct Ha as [Haa Hab]. inv Hab.
    replace (length a + 1) with (length (a ++ [w])) by (rewrite length_app; simpl; lia).
    assert (a ++ w :: b = (a ++ [w]) ++ b) as Eab by (by rewrite <- app_assoc).
    rewrite Eab, take_app_length, drop_app_length. unfold Str.pop.
    replace (length (a ++ [w]) - 1) with (length a) by (rewrite length_app; simpl; lia).
    rewrite take_app_length. rewrite length_app in *. simpl in *.
    apply Hdone; [done|done|lia|lia|]. rewrite !ink_app. unfold ink at 2. 
    rewrite filter_cons_False by congruence. done.
  - simpl. apply Hdone; [done|done|done|simpl; lia|by rewrite app_nil_r].
Qed.
(** Adding a character to a line with room. *)
Lemma push_char_ok done ch s :
  ascii_width → wrapping_ok done s → (32 ≤ ch ≤ 126)%N → line_len s < num_cols →
  (lines s = [] → has_button → line_len s < first_cols) →
  wrapping_ok (done ++ [ch]) (push_char ch s).
Proof.
  intros Hwidth [Ha El Hl Hf Hls Hb Hi] Hch Hroom Hfirst. unfold push_char. rewrite Hwidth by done.
  split; cbn -[ink app concat]; rewrite ?length_app; simpl length; [|lia|lia| |done|done|].
  - apply Forall_app. split; [done|]. constructor; [unfold is_ascii; lia|done].
  - intros E Hbt. specialize (Hfirst E Hbt). lia.
  - change (1 =? 2) with false. cbv iota. by rewrite (app_assoc _ (line s)), ink_app, Hi, ink_app.
Qed.

Lemma printable_ink ch : printable ch → is_whitespace ch = true ∨ (32 ≤ ch ≤ 126)%N.
Proof. intros [?| ->]; [by right|by left]. Qed.

Lemma skip_ink done ch s :
  wrapping_ok done s → is_whitespace ch = true → wrapping_ok (done ++ [ch]) s.
Proof.
  intros [Ha El Hl Hf Hls Hb Hi] Hw. split; try done. rewrite Hi, ink_app.
  unfold ink at 3. rewrite filter_cons_False by congruence. by rewrite app_nil_r.
Qed.

Lemma wrap_char_ok done ch s :
  ascii_width → wrapping_ok done s → printable ch →
  wp (wrap_char num_cols ch s) (wrapping_ok (done ++ [ch])).
Proof using Hcols.
  intros Hwidth Hs Hch. unfold wrap_char. destruct (breaks num_cols ch s) eqn:E.
  - wp_step. wp_call break_ok; [done|]. intros s' (Hs' & Hne & Hroom). cbn [wp].
    destruct (is_whitespace ch) eqn:Ew; [by apply skip_ink|].
    destruct (printable_ink ch Hch) as [?|Hp]; [congruence|]. by apply push_char_ok.
  - cbn [wp]. unfold breaks in E. apply orb_false_iff in E as [E E3].
    apply orb_false_iff in E as [E1 E2]. apply N.eqb_neq in E1. apply Nat.eqb_neq in E2.
    destruct Hch as [Hp|?]; [|done]. pose proof Hs as [Ha El Hl Hf Hls Hb Hi].
    apply push_char_ok; [done|done|done|lia|]. intros En Hbt. specialize (Hf En Hbt).
    rewrite bool_decide_eq_true_2 in E3 by done. cbn [andb] in E3.
    unfold has_button in Hbt. rewrite (proj2 (Nat.leb_le _ _) Hbt) in E3. cbn [andb] in E3.
    apply Nat.eqb_neq in E3. unfold first_cols in *. lia.
Qed.

Lemma wrap_text_ok l :
  ascii_width → Forall printable l →
  wp (foldM (wrap_char num_cols) l (mkWrapping [] [] 0)) (wrapping_ok l).
Proof using Hcols.
  intros Hwidth Hl. eapply wp_mono; [apply (wp_foldM _ _ (λ i, wrapping_ok (take i l)))|].
  - split; simpl; try done; lia.
  - intros i ch s Hi Hs. rewrite (take_S_r _ _ _ Hi). apply wrap_char_ok; [done|done|].
    rewrite list.Forall_forall in Hl. by eapply Hl, list_elem_of_lookup_2.
  - intros s. by rewrite firstn_all.
Qed.

(** The text of the lines: in the first one without the place of the button. *)
Definition shown_text (ls : list text) : text :=
  match ls with
  | [] => []
  | first :: rest =>
      (if decide has_button then take (num_cols - length CLOSE_BUTTON_TEXT) first else first)
        ++ concat rest
  end.

Lemma blank_ink l : blank l → ink l = [].
Proof. induction 1 as [|ch l -> _ IH]; [done|]. by rewrite ink_whitespace. Qed.

(** Truncating keeps the first lines; the last one says so. *)
Lemma truncate_lines_ok max_lines (all : list text) :
  Forall line_ok all →
  let ls := truncate_lines num_cols max_lines all in
  length ls = Nat.min (length all) max_lines ∧ Forall line_ok ls ∧
  (length all ≤ max_lines → ls = all) ∧ take (max_lines - 1) ls = take (max_lines - 1) all ∧
  (0 < max_lines < length all → length TRUNCATED_MESSAGE ≤ num_cols →
    last ls = Some (pad_text TRUNCATED_MESSAGE num_cols)).
Proof using Hcols.
  intros Hall ls. unfold ls, truncate_lines. destruct (Nat.ltb_spec max_lines (length all)) as [Hlt|Hge];
    [|split; [lia|split; [done|split; [done|split; [done|lia]]]]].
  assert (length (take max_lines all) = max_lines) as El by (rewrite length_take; lia).
  pose proof (Forall_take _ max_lines _ Hall) as Hok.
  assert (Forall is_ascii TRUNCATED_MESSAGE) as Ht by (apply (bool_decide_unpack _); vm_compute; exact I).
  rewrite (len_ascii _ Ht). destruct (Nat.leb_spec (length TRUNCATED_MESSAGE) num_cols) as [Hle|Hgt].
  - destruct (reverse (take max_lines all)) as [|x front] eqn:Er.
    + apply (f_equal reverse) in Er. rewrite reverse_involutive in Er. rewrite Er in *.
      simpl in El. subst max_lines. split; [simpl; lia|split; [done|split; [lia|split; [done|lia]]]].
    + apply (f_equal reverse) in Er. rewrite reverse_involutive, reverse_cons in Er.
      rewrite Er in El, Hok. rewrite length_app in El. simpl in El.
      assert (take (max_lines - 1) all = reverse front) as Etk.
      { replace (take (max_lines - 1) all) with (take (max_lines - 1) (take max_lines all))
          by (rewrite take_take; f_equal; lia).
        rewrite Er. apply take_app_length'. lia. }
      apply Forall_app in Hok as [Hok _].
      split; [rewrite length_app; simpl; lia|]. split; [|split; [lia|split; [|intros _ _; apply last_snoc]]].
      * apply Forall_app. split; [done|]. constructor; [by apply pad_ok|done].
      * rewrite Etk. apply take_app_length'. lia.
  - split; [rewrite El; lia|]. split; [done|split; [lia|split; [|lia]]].
    rewrite take_take. f_equal. lia.
Qed.

(** The button replaces the end of the first line. *)
Lemma append_button_ok (ls : list text) :
  Forall line_ok ls →
  ∃ ls', append_button num_cols ls = Some ls' ∧ length ls' = length ls ∧
    Forall (λ l, length l = num_cols) ls' ∧ tail ls' = tail ls ∧
    (has_button → ∀ first, head ls' = Some first →
      drop (num_cols - length CLOSE_BUTTON_TEXT) first = CLOSE_BUTTON_TEXT) ∧
    (first_ok ls → ∀ k, ink (shown_text (take k ls')) = ink (concat (take k ls))).
Proof using Hcols.
  intros Hok. destruct ls as [|first rest]; [exists []; split_and!; try done; by intros _ [|k]|]. unfold append_button.
  inv Hok as [|?? [Hl Ha] Hrest].
  assert (Forall (λ l, length l = num_cols) rest) as Hrest'.
  { eapply Forall_impl; [exact Hrest|]. by intros l []. }
  destruct (Nat.leb_spec (length CLOSE_BUTTON_TEXT) num_cols) as [Hle|Hgt].
  - rewrite (truncate_ascii _ _ Ha). cbn [mbind option_bind]. eexists. split; [done|].
    assert (length (take (num_cols - 3) first) = num_cols - 3) as El by (rewrite length_take; lia).
    change (length CLOSE_BUTTON_TEXT) with 3 in *.
    split; [done|]. split; [|split; [done|split]].
    + constructor; [|done]. rewrite length_app, El. simpl. lia.
    + intros _ first' [= <-]. rewrite drop_app_length' by done. done.
    + intros Hf [|k]; [done|]. simpl. rewrite decide_True by done. change (length CLOSE_BUTTON_TEXT) with 3.
      rewrite take_app_length' by done. rewrite !ink_app. f_equal.
      rewrite <- (take_drop (num_cols - 3) first) at 2. rewrite ink_app, (blank_ink (drop _ _)), app_nil_r; [done|].
      specialize (Hf Hle first eq_refl). unfold first_cols in Hf. change (length CLOSE_BUTTON_TEXT) with 3 in Hf.
      unfold CLOSE_BUTTON_PADDING in Hf.
      replace (drop (num_cols - 3) first) with (drop (num_cols - 3 - (num_cols - (3 + 1))) (drop (num_cols - (3 + 1)) first))
        by (rewrite drop_drop; f_equal; lia).
      by apply Forall_drop.
  - eexists. split; [done|]. split; [done|]. split; [by constructor|]. split; [done|]. split.
    + unfold has_button. lia.
    + intros _ [|k]; [done|]. simpl. rewrite decide_False; [done|]. unfold has_button. lia.
Qed.

(** The lines of a printable message are found without a panic, and not more than fit. *)
Lemma text_lines_total (m : Message.t) total_lines :
  ascii_width → Forall printable (content m) →
  ∃ ls, text_lines num_cols total_lines m = Some ls ∧ length ls ≤ total_lines - MIN_FREE_LINES.
Proof using Hcols.
  intros Hwidth Hp. unfold text_lines.
  destruct (proj1 (wp_some _ _) (wrap_text_ok (trim (content m)) Hwidth (trim_forall _ _ Hp)))
    as (s & -> & [Ha El Hl Hf Hls Hb _]). cbn [mbind option_bind].
  destruct (push_line (lines s) (line s) Hls Hb Ha Hl Hf) as [Hall _].
  destruct (truncate_lines_ok (total_lines - MIN_FREE_LINES) _ Hall) as (El' & Hok & _).
  destruct (append_button_ok _ Hok) as (ls & Els & Eln & _). exists ls. split; [exact Els|lia].
Qed.

Lemma ink_prefix l l' : l `prefix_of` l' → ink l `prefix_of` ink l'.
Proof. intros [k ->]. rewrite ink_app. by exists (ink k). Qed.

(** C39.  A message of printable ASCII characters can be shown in every window: the lines fill the window
    exactly, there are not more than fit, and the first one ends with the button if it has room for
    it.  If not all lines are used they have all characters of the message in order.  If all are
    used, at least two, and the note on the truncation fits into a line, they have them, or the
    last line says that there is more and the others have the beginning.  A narrower window, or one
    with a single line for the message, may show a part without saying so. *)
Theorem text_lines_correct (m : Message.t) total_lines :
  ascii_width → Forall printable (content m) →
  let max_lines := total_lines - MIN_FREE_LINES in
  ∃ ls, text_lines num_cols total_lines m = Some ls ∧
    Forall (λ l, length l = num_cols) ls ∧
    length ls ≤ max_lines ∧ (0 < max_lines → ls ≠ []) ∧
    (has_button → ∀ first, head ls = Some first →
      drop (num_cols - length CLOSE_BUTTON_TEXT) first = CLOSE_BUTTON_TEXT) ∧
    (length ls < max_lines → ink (shown_text ls) = ink (content m)) ∧
    (2 ≤ max_lines → length TRUNCATED_MESSAGE ≤ num_cols →
      ink (shown_text ls) = ink (content m) ∨
      last ls = Some (pad_text TRUNCATED_MESSAGE num_cols) ∧
        ink (shown_text (take (max_lines - 1) ls)) `prefix_of` ink (content m)).
Proof using Hcols.
  intros Hwidth Hp max_lines. unfold text_lines. fold max_lines.
  destruct (proj1 (wp_some _ _) (wrap_text_ok (trim (content m)) Hwidth (trim_forall _ _ Hp)))
    as (s & -> & [Ha El Hl Hf Hls Hb Hi]). cbn [mbind option_bind].
  destruct (push_line (lines s) (line s) Hls Hb Ha Hl Hf) as [Hall Hfirst].
  assert (lines s ++ [pad_text (line s) num_cols] ≠ []) as Hne by (by destruct (lines s)).
  assert (ink (concat (lines s ++ [pad_text (line s) num_cols])) = ink (content m)) as Hink.
  { by rewrite concat_snoc, ink_app, pad_ink, <- ink_app, Hi, trim_ink. }
  set (all := lines s ++ [pad_text (line s) num_cols]) in *. clearbody all.
  destruct (truncate_lines_ok max_lines all Hall) as (El' & Hok & Hsame & Htake & Hlast).
  destruct (append_button_ok _ Hok) as (ls & Els & Eln & Hlen & Etl & Hbtn & Hshown).
  assert (length all ≤ max_lines → ink (shown_text ls) = ink (content m)) as Hfull.
  { intros Hle. rewrite (Hsame Hle) in *. specialize (Hshown Hfirst (length all)).
    rewrite !firstn_all2 in Hshown by lia. by rewrite Hshown. }
  assert (length all ≠ 0) by (by destruct all).
  exists ls. split; [exact Els|]. split; [done|]. split; [lia|].
  split; [intros ? ->; simpl in Eln; lia|]. split; [done|]. split; [intros ?; apply Hfull; lia|].
  intros Hmax Hw. destruct (decide (length all ≤ max_lines)) as [|Hgt]; [left; auto|right].
  assert (head (truncate_lines num_cols max_lines all) = head all) as Eh.
  { apply (f_equal head) in Htake. destruct (truncate_lines _ _ _); [simpl in El'; lia|].
    destruct all; [done|]. by destruct (max_lines - 1) eqn:?; [lia|]. }
  split.
  - rewrite <- Hlast by (done || lia). rewrite El' in Eln.
    destruct ls as [|x [|y ls]]; simpl in Eln; [lia|lia|].
    destruct (truncate_lines _ _ _) as [|x' l']; simpl in *; [lia|]. by subst l'.
  - rewrite Hshown, Htake, <- Hink.
    + apply ink_prefix. rewrite <- (take_drop (max_lines - 1) all) at 2. rewrite concat_app.
      by eexists.
    + unfold first_ok. by rewrite Eh.
Qed.
End Lines.

(** * The queue *)

(** After [pop], the message on the screen is not anywhere in the queue, and the others are still
    there, in their order. *)
Lemma pop_correct (s : MessageBuffer.t) msg :
  MessageBuffer.message s = Some msg →
  MessageBuffer.is_queued msg (MessageBuffer.pop s) = false ∧
  MessageBuffer.pop s = filter (λ m, m ≠ msg) s.
Proof.
  destruct s as [|m rest]; [done|]. intros [= ->]. unfold MessageBuffer.is_queued, MessageBuffer.pop.
  split.
  - apply bool_decide_eq_false. rewrite list_elem_of_filter. by intros [? _].
  - symmetry. apply filter_cons_False. auto.
Qed.

(** Popping empties the queue after at most as many steps as it has messages. *)
Lemma pop_empties (s : MessageBuffer.t) :
  MessageBuffer.is_empty (Nat.iter (length s) MessageBuffer.pop s) = true.
Proof.
  assert (∀ n s, length s ≤ n → Nat.iter n MessageBuffer.pop s = []) as Hn.
  { clear s. induction n as [|n IH]; intros s Hs; [by destruct s; simpl in Hs; [|lia]|].
    rewrite Nat.iter_succ_r. apply IH. destruct s as [|m rest]; simpl in *; [lia|].
    etrans; [apply length_filter|lia]. }
  unfold MessageBuffer.is_empty. apply bool_decide_eq_true. by apply Hn.
Qed.

(** * Concrete messages *)

#[local] Existing Instance Sample.external.

(** "hello wide world" in eight columns, three lines for messages. *)
Definition hello : Message.t :=
  Message.new [104; 101; 108; 108; 111; 32; 119; 105; 100; 101; 32; 119; 111; 114; 108; 100]%N
    MessageError.

Example hello_lines :
  Message.text_lines 8 9 hello
  = Some [[104; 101; 108; 108; 32; 91; 88; 93]; [111; 32; 119; 105; 100; 101; 32; 32];
          [119; 111; 114; 108; 100; 32; 32; 32]]%N.
Proof. vm_compute. reflexivity. Qed.

Lemma text_lines_correct_witness :
  ∃ ls, Message.text_lines 8 5 hello = Some ls ∧ length ls ≤ 2.
Proof.
  destruct (text_lines_correct 8 ltac:(lia) hello 5) as (ls & E & _ & Hl & _).
  - intros ch Hch. change (Sample.width ch = Some 1). unfold Sample.width.
    destruct (N.ltb_spec ch 32); [lia|]. destruct (N.leb_spec 768 ch); [lia|].
    destruct (N.leb_spec 4352 ch); [lia|done].
  - apply (bool_decide_unpack _). vm_compute. exact I.
  - exists ls. split; [exact E|exact Hl].
Defined.

(** The place of the button is cut at a byte index: two letters of two bytes in six columns. *)
Example button_inside_character :
  Message.text_lines 6 9 (Message.new [233; 233]%N MessageError) = None.
Proof. vm_compute. reflexivity. Qed.

(** A word boundary is one byte in the source: breaking the line after a no-break space splits
    inside of a character. *)
Example no_break_space :
  Message.text_lines 8 9 (Message.new [97; 160; 98; 98; 98; 98; 98]%N MessageError) = None.
Proof. vm_compute. reflexivity. Qed.

(** A line of fullwidth characters is never as long as an odd number of columns: it grows over the
    end of the window. *)
Example fullwidth_never_wraps :
  (length <$> (Message.text_lines 5 9 (Message.new (97%N :: 10%N :: replicate 6 12354%N) MessageError) ≫= last))
  = Some 12.
Proof. vm_compute. reflexivity. Qed.
