(* ===== verification/Shorteners.v ===== *)
(** Shortening of strings to a number of columns ([cutty/src/string.rs]), for the search bar and the
    preview of hyperlinks. *)
From S2P Require Import Prelude Index Cells TermData.

Inductive TextAction := ActionSpacer | ActionTerminate | ActionShortener | ActionChar.
Inductive ShortenDirection := ShortenLeft | ShortenRight.

#[export] Instance ShortenDirection_eq_dec : EqDecision ShortenDirection.
Proof. solve_decision. Defined.

(** * [struct StrShortener] *)

Module StrShortener.
Section StrShortener.
Context `{External}.

Record t := mk {
  chars : text;
  accumulated_len : nat;
  max_width : nat;
  direction : ShortenDirection;
  shortener : option char;
  text_action : TextAction;
}.

Definition width_of (ch : char) : nat := default 1 (char_width ch).

(** What the scan from the end of the string finds: the width, the number of characters that fit,
    the shortener unless the match was exact, and the number of characters of the string as the
    rest of the iterator has it. *)
Record scanned := mkScanned {
  current_len : nat;
  offset : nat;
  left_over : option char;
  num_chars : nat;
}.

(** [rev] is the rest of the reversed string, from the character number [idx] on. *)
Fixpoint scan (max_width idx : nat) (rev : text) (s : scanned) : scanned :=
  match rev with
  | [] => mkScanned (current_len s) (offset s) (left_over s) (offset s)
  | ch :: rest =>
      let current_len := current_len s + width_of ch in
      let broken :=
        mkScanned current_len (offset s) (left_over s)
          (match rest with [] => offset s | _ => idx + length rest + 1 end) in
      match Nat.compare current_len max_width with
      | Gt => broken
      | Eq =>
          if bool_decide (is_Some (left_over s)) && bool_decide (rest ≠ []) then broken
          else scan max_width (idx + 1) rest (mkScanned current_len (idx + 1) None 0)
      | Lt => scan max_width (idx + 1) rest (mkScanned current_len (idx + 1) (left_over s) 0)
      end
  end.

Definition new (text : text) (max_width : nat) (direction : ShortenDirection)
    (shortener : option char) : option t :=
  let shortener := if bool_decide (text = []) then None else shortener in
  match direction with
  | ShortenRight => Some (mk text 0 max_width direction shortener ActionChar)
  | ShortenLeft =>
      let s := scan max_width 0 (reverse text) (mkScanned 0 0 shortener 0) in
      skip_chars ← usize_sub (num_chars s) (offset s);
      let text_action :=
        if (current_len s <? max_width) || bool_decide (left_over s = None) then ActionChar
        else ActionShortener in
      Some (mk (drop skip_chars text) 0 max_width direction (left_over s) text_action)
  end.

Definition next (self : t) : option char * t :=
  match text_action self with
  | ActionSpacer =>
      (Some 32%N, mk (chars self) (accumulated_len self) (max_width self) (direction self)
                    (shortener self) ActionChar)
  | ActionTerminate => (None, self)
  | ActionShortener =>
      let action :=
        if bool_decide (direction self = ShortenLeft) then ActionChar else ActionTerminate in
      (shortener self, mk (chars self) (accumulated_len self) (max_width self) (direction self)
                         None action)
  | ActionChar =>
      match chars self with
      | [] => (None, self)
      | ch :: chars =>
          let accumulated_len := accumulated_len self + width_of ch in
          let after := mk chars accumulated_len (max_width self) (direction self) (shortener self) in
          if max_width self <? accumulated_len then (shortener self, after ActionTerminate)
          else if (accumulated_len =? max_width self) && bool_decide (is_Some (shortener self)) then
            (match chars with [] => Some ch | _ => shortener self end, after ActionTerminate)
          else (Some ch, after (if width_of ch =? 2 then ActionSpacer else ActionChar))
      end
  end.

(** Collecting the characters. *)
Fixpoint collect (fuel : nat) (self : t) : option text :=
  match fuel with
  | O => None
  | S fuel =>
      match next self with
      | (None, _) => Some []
      | (Some ch, self) => rest ← collect fuel self; Some (ch :: rest)
      end
  end.

Definition shorten (text : text) (max_width : nat) (direction : ShortenDirection)
    (shortener : option char) : option Cells.text :=
  self ← new text max_width direction shortener;
  collect (2 * length text + 4) self.
End StrShortener.
End StrShortener.
