(* ===== verification/ShortenerProps.v ===== *)
(** Properties of the shortening of strings: what is shown is the longest beginning or end that fits
    together with the shortener. *)
From S2P Require Import Prelude Index Cells TermData Shorteners.

Import StrShortener.

Section Shortening.
Context `{External} (max : nat) (Hmax : 0 < max).
Implicit Types (text p q out : text) (ch sh : char).

(** Every character takes one or two cells. *)
Definition visible text : Prop := Forall (λ ch, width_of ch = 1 ∨ width_of ch = 2) text.

Fixpoint width text : nat :=
  match text with [] => 0 | ch :: text => width_of ch + width text end.

(** The text with a spacer after every wide character. *)
Fixpoint spaced text : Cells.text :=
  match text with
  | [] => []
  | ch :: text => ch :: (if width_of ch =? 2 then [32%N] else []) ++ spaced text
  end.

Lemma width_app p q : width (p ++ q) = width p + width q.
Proof. induction p; simpl; lia. Qed.

Lemma spaced_app p q : spaced (p ++ q) = spaced p ++ spaced q.
Proof. induction p as [|ch p IH]; simpl; [done|]. by rewrite IH, app_assoc. Qed.

(** With its spacers, the text has one character per cell. *)
Lemma length_spaced text : visible text → length (spaced text) = width text.
Proof.
  induction 1 as [|ch text Hch _ IH]; simpl; [done|]. rewrite length_app, IH.
  destruct Hch as [-> | ->]; done.
Qed.

(** [p] is the longest beginning of [p ++ q] with a width of at most [n]. *)
Definition longest_prefix (n : nat) p q : Prop :=
  width p ≤ n ∧ ∃ ch q', q = ch :: q' ∧ n < width p + width_of ch.
Definition longest_suffix (n : nat) p q : Prop :=
  width q ≤ n ∧ ∃ p' ch, p = p' ++ [ch] ∧ n < width_of ch + width q.

Implicit Types (d : ShortenDirection) (o : option char).

Lemma collect_unfold fuel s :
  collect (S fuel) s
  = match next s with
    | (None, _) => Some []
    | (Some ch, s) => rest ← collect fuel s; Some (ch :: rest)
    end.
Proof. done. Qed.


Lemma collect_char d fuel ch text a o :
  a + width_of ch ≤ max → (o = None ∨ a + width_of ch < max) →
  (width_of ch = 1 ∨ width_of ch = 2) → 2 ≤ fuel →
  collect fuel (mk (ch :: text) a max d o ActionChar)
  = (λ out, ch :: (if width_of ch =? 2 then [32%N] else []) ++ out) <$>
      collect (fuel - width_of ch) (mk text (a + width_of ch) max d o ActionChar).
Proof.
  intros Ha Hs Hw Hf. destruct fuel as [|[|fuel]]; [lia|lia|].
  rewrite collect_unfold.
  cbn [next text_action chars accumulated_len max_width shortener direction].
  destruct (Nat.ltb_spec max (a + width_of ch)); [lia|].
  assert ((a + width_of ch =? max) && bool_decide (is_Some o) = false) as ->.
  { destruct Hs as [-> |Hlt]; [apply andb_false_r|].
    apply andb_false_iff. left. apply Nat.eqb_neq. lia. }
  destruct Hw as [E|E]; rewrite E.
  - cbn [Nat.eqb app]. replace (S (S fuel) - 1) with (S fuel) by lia. by destruct (collect _ _).
  - replace (S (S fuel) - 2) with fuel by lia. change (2 =? 2) with true. cbv iota. rewrite collect_unfold.
    cbn [next text_action chars accumulated_len max_width shortener direction].
    by destruct (collect _ _).
Qed.

(** Without a shortener. *)
Lemma collect_plain d text a fuel :
  visible text → a ≤ max → 2 * length text < fuel →
  ∃ p q, text = p ++ q ∧ collect fuel (mk text a max d None ActionChar) = Some (spaced p) ∧
    (q = [] ∧ width p ≤ max - a ∨ longest_prefix (max - a) p q).
Proof.
  intros Hv. revert a fuel. induction Hv as [|ch text Hch Hv IH]; intros a fuel Ha Hf; simpl in Hf.
  { exists [], []. split; [done|]. destruct fuel; [lia|]. split; [done|]. left. split; [done|simpl; lia]. }
  destruct (decide (a + width_of ch ≤ max)) as [Hle|Hgt].
  - destruct (IH (a + width_of ch) (fuel - width_of ch)) as (p & q & -> & E & Hpq); [lia|lia|].
    exists (ch :: p), q. split; [done|]. rewrite collect_char by (auto || lia). rewrite E. split; [done|].
    destruct Hpq as [[-> ?]|(Hp & ch' & q' & -> & Hq)]; [left|right].
    + split; [done|simpl; lia].
    + split; [simpl; lia|]. exists ch', q'. split; [done|simpl; lia].
  - exists [], (ch :: text). split; [done|]. destruct fuel as [|fuel]; [lia|]. split.
    + rewrite collect_unfold. cbn [next text_action chars accumulated_len max_width shortener].
      by destruct (Nat.ltb_spec max (a + width_of ch)); [|lia].
    + right. split; [simpl; lia|]. exists ch, text. split; [done|simpl; lia].
Qed.

(** With a shortener: the text if it fits (the last spacer is left out when the match is exact),
    otherwise what fits together with the shortener. *)
Lemma collect_shortener d text a sh fuel :
  visible text → a < max → 2 * length text < fuel →
  ∃ out, collect fuel (mk text a max d (Some sh) ActionChar) = Some out ∧
    (width text ≤ max - a →
      out = spaced text ∨ width text = max - a ∧ out ++ [32%N] = spaced text) ∧
    (max - a < width text →
      ∃ p q, text = p ++ q ∧ longest_prefix (max - a - 1) p q ∧ out = spaced p ++ [sh]).
Proof.
  intros Hv. revert a fuel. induction Hv as [|ch text Hch Hv IH]; intros a fuel Ha Hf; simpl in Hf.
  { exists []. destruct fuel; [lia|]. split; [done|]. split; [by left|simpl; lia]. }
  destruct (decide (a + width_of ch < max)) as [Hlt|Hge].
  - destruct (IH (a + width_of ch) (fuel - width_of ch)) as (out & E & Hfit & Hcut); [lia|lia|].
    eexists. split; [rewrite collect_char by (auto || lia); by rewrite E|]. simpl. split.
    + intros Hw. destruct Hfit as [-> |[Hw' Eo]]; [lia|by left|right]. split; [lia|].
      by rewrite <- Eo, <- app_assoc.
    + intros Hw. destruct Hcut as (p & q & -> & (Hp & ch' & q' & -> & Hq) & ->); [lia|].
      exists (ch :: p), (ch' :: q'). split; [done|]. split; [|simpl; by rewrite <- app_assoc].
      split; [simpl; lia|]. exists ch', q'. split; [done|simpl; lia].
  - destruct fuel as [|fuel]; [lia|]. rewrite collect_unfold.
    cbn [next text_action chars accumulated_len max_width shortener direction].
    assert (∃ p q, ch :: text = p ++ q ∧ longest_prefix (max - a - 1) p q ∧ [sh] = spaced p ++ [sh])
      as Hempty.
    { exists [], (ch :: text). split; [done|]. split; [|done]. split; [simpl; lia|].
      exists ch, text. split; [done|simpl; lia]. }
    destruct fuel as [|fuel]; [lia|].
    destruct (Nat.ltb_spec max (a + width_of ch)).
    + exists [sh]. split; [done|]. split; [simpl; lia|done].
    + rewrite (proj2 (Nat.eqb_eq _ _)) by lia. cbn [is_Some bool_decide andb]. simpl.
      destruct text as [|ch' text].
      * exists [ch]. split; [done|]. split; [|simpl; lia]. intros _. simpl.
        destruct (width_of ch =? 2); [right|by left]. split; [lia|done].
      * exists [sh]. split; [done|]. split; [|done]. inv Hv. simpl. lia.
Qed.
Lemma width_reverse text : width (reverse text) = width text.
Proof. induction text as [|ch text IH]; [done|]. rewrite reverse_cons, width_app, IH. simpl. lia. Qed.

Lemma width_rev text : visible text → text ≠ [] → 0 < width (reverse text).
Proof. rewrite width_reverse. destruct 1; [done|]. simpl. lia. Qed.

(** The columns for the text, when a shortener is needed. *)
Definition room o : nat := match o with Some _ => max - 1 | None => max end.
Definition shortener_text o : Cells.text := match o with Some sh => [sh] | None => [] end.

(** The scan from the end: either the whole text fits, or the longest end that does is found.  The
    number of characters is wrong if it is the first character that does not fit. *)
Lemma scan_ok rev q o :
  visible rev → width q ≤ max → (width q = max → o = None) →
  let r := scan max (length q) rev (mkScanned (width q) (length q) o 0) in
  let text := reverse rev ++ q in
  (width text ≤ max →
    r = mkScanned (width text) (length text) (if width text =? max then None else o) (length text)) ∧
  (max < width text →
    ∃ p q', text = p ++ q' ∧ longest_suffix (room o) p q' ∧ max ≤ current_len r ∧
      offset r = length q' ∧ left_over r = o ∧
      num_chars r = (if length p =? 1 then length q' else length text)).
Proof using Hmax.
  intros Hv. revert q o. induction Hv as [|ch rev Hch Hv IH]; intros q o Hq Ho r text.
  { unfold r, text. split; [|simpl; lia]. intros _. simpl. f_equal.
    destruct (Nat.eqb_spec (width q) max); auto. }
  assert (text = reverse rev ++ (ch :: q)) as Et.
  { unfold text. by rewrite reverse_cons, <- app_assoc. }
  assert (∀ o', scan max (length q + 1) rev (mkScanned (width q + width_of ch) (length q + 1) o' 0)
    = scan max (length (ch :: q)) rev (mkScanned (width (ch :: q)) (length (ch :: q)) o' 0)) as Enext.
  { intros o'. simpl. by rewrite (Nat.add_comm (width q)), (Nat.add_comm (length q)). }
  assert (width text = width (reverse rev) + width_of ch + width q) as Ew.
  { rewrite Et, width_app. simpl. lia. }
  pose proof (width_rev rev Hv) as Hrev.
  unfold r. cbn [scan Shorteners.StrShortener.current_len offset left_over]. rewrite !Enext.
  (* Going on, and breaking. *)
  assert (∀ o', width q + width_of ch ≤ max → (width q + width_of ch = max → o' = None) →
    (o' = o ∨ rev = [] ∧ o' = None ∧ width q + width_of ch = max) →
    let r := scan max (length (ch :: q)) rev (mkScanned (width (ch :: q)) (length (ch :: q)) o' 0) in
    (width text ≤ max →
      r = mkScanned (width text) (length text) (if width text =? max then None else o) (length text)) ∧
    (max < width text →
      ∃ p q', text = p ++ q' ∧ longest_suffix (room o) p q' ∧ max ≤ current_len r ∧
        offset r = length q' ∧ left_over r = o ∧
        num_chars r = (if length p =? 1 then length q' else length text))) as Hgo.
  { intros o' Hle Ho' Ho'' r'. destruct (IH (ch :: q) o') as [IH1 IH2]; [simpl; lia|simpl; intros; apply Ho'; lia|].
    rewrite <- Et in *. fold r' in IH1, IH2. destruct Ho'' as [-> |(-> & -> & Em)]; [done|].
    change (width (reverse [])) with 0 in Ew. split; [|lia]. intros Hw. rewrite (IH1 Hw).
    by rewrite (proj2 (Nat.eqb_eq (width text) max)) by lia. }
  assert (width q ≤ room o → room o < width_of ch + width q → max < width text →
    ∃ p q', text = p ++ q' ∧ longest_suffix (room o) p q' ∧ max ≤ width q + width_of ch ∧
      length q = length q' ∧ o = o ∧
      (match rev with [] => length q | _ => length q + length rev + 1 end)
      = (if length p =? 1 then length q' else length text)) as Hbreak.
  { intros Hr Hr' Hw. exists (reverse (ch :: rev)), q. split; [done|].
    split; [split; [done|]; exists (reverse rev), ch; split; [apply reverse_cons|done]|].
    split; [destruct o; simpl in Hr'; lia|]. split; [done|]. split; [done|].
    unfold text. rewrite length_app, !length_reverse. destruct rev; simpl; [done|lia]. }
  destruct (Nat.compare_spec (width q + width_of ch) max) as [E|E|E].
  - destruct o as [sh|]; [|apply Hgo; auto; lia].
    destruct rev as [|ch' rev]; [apply Hgo; auto; lia|].
    cbn [bool_decide is_Some andb]. specialize (Hrev ltac:(done)).
    simpl. split; [lia|]. intros Hw. apply Hbreak; simpl; lia.
  - apply Hgo; [lia|lia|by left].
  - split; [lia|]. apply Hbreak; destruct o; simpl; try lia.
    destruct (decide (width q = max)) as [Eq|]; [by specialize (Ho Eq)|lia].
Qed.
Lemma shorten_right text o :
  visible text → text ≠ [] →
  ∃ out, shorten text max ShortenRight o = Some out ∧
    (width text ≤ max →
      out = spaced text ∨ width text = max ∧ out ++ [32%N] = spaced text) ∧
    (max < width text → ∃ p q, text = p ++ q ∧ longest_prefix (room o) p q ∧
      out = spaced p ++ shortener_text o).
Proof using Hmax.
  intros Hv Hne. unfold shorten, new. rewrite bool_decide_eq_false_2 by done.
  cbn [mbind option_bind]. destruct o as [sh|].
  - destruct (collect_shortener ShortenRight text 0 sh (2 * length text + 4)) as (out & E & Hfit & Hcut);
      [done|done|lia|]. rewrite Nat.sub_0_r in *. by exists out.
  - destruct (collect_plain ShortenRight text 0 (2 * length text + 4)) as (p & q & Et & E & Hpq);
      [done|lia|lia|]. rewrite Nat.sub_0_r in *. exists (spaced p). split; [done|].
    assert (width text = width p + width q) as Ew by (by rewrite Et, width_app).
    destruct Hpq as [[-> Hp]|Hpq].
    + rewrite app_nil_r in Et. subst p. split; [by left|simpl in Ew; lia].
    + split.
      * destruct Hpq as (? & ch & q' & -> & ?). simpl in Ew. lia.
      * intros _. exists p, q. split; [done|]. split; [done|]. by rewrite app_nil_r.
Qed.

Lemma collect_all d text a fuel :
  visible text → a + width text ≤ max → 2 * length text < fuel →
  collect fuel (mk text a max d None ActionChar) = Some (spaced text).
Proof.
  intros Hv Ha Hf. destruct (collect_plain d text a fuel) as (p & q & -> & E & [[-> _]|Hpq]);
    [done|lia|done|by rewrite app_nil_r in *|].
  destruct Hpq as (? & ch & q' & -> & ?). rewrite width_app in Ha. simpl in Ha. lia.
Qed.

Lemma scan_text text o :
  visible text →
  let r := scan max 0 (reverse text) (mkScanned 0 0 o 0) in
  (width text ≤ max →
    r = mkScanned (width text) (length text) (if width text =? max then None else o) (length text)) ∧
  (max < width text →
    ∃ p q, text = p ++ q ∧ longest_suffix (room o) p q ∧ max ≤ current_len r ∧
      offset r = length q ∧ left_over r = o ∧
      num_chars r = (if length p =? 1 then length q else length text)).
Proof using Hmax.
  intros Hv. pose proof (scan_ok (reverse text) [] o) as Hs.
  rewrite reverse_involutive, app_nil_r in Hs. apply Hs; [by apply Forall_reverse|simpl; lia|simpl; lia].
Qed.

Lemma shorten_left_fits text o :
  visible text → text ≠ [] → width text ≤ max →
  shorten text max ShortenLeft o = Some (spaced text).
Proof using Hmax.
  intros Hv Hne Hw. unfold shorten, new. rewrite bool_decide_eq_false_2 by done.
  rewrite (proj1 (scan_text text o Hv) Hw).
  cbn [num_chars offset left_over Shorteners.StrShortener.current_len].
  rewrite usize_sub_ok by lia. cbn [mbind option_bind]. rewrite Nat.sub_diag, drop_0.
  destruct (Nat.eqb_spec (width text) max) as [E|E].
  - rewrite bool_decide_eq_true_2, orb_true_r by done. apply collect_all; [done|lia|lia].
  - rewrite (proj2 (Nat.ltb_lt (width text) max)) by lia. cbn [orb].
    destruct o as [sh|]; [|apply collect_all; [done|lia|lia]].
    destruct (collect_shortener ShortenLeft text 0 sh (2 * length text + 4)) as (out & E' & Hf & _);
      [done|done|lia|]. destruct Hf as [-> |[? _]]; [lia|done|lia].
Qed.

Lemma shorten_left_cut text o :
  visible text → text ≠ [] → max < width text →
  ∃ p q fuel, text = p ++ q ∧ longest_suffix (room o) p q ∧ 2 * length text < fuel ∧
    shorten text max ShortenLeft o
    = (λ out, shortener_text o ++ out) <$>
        collect fuel (mk (if length p =? 1 then text else q) 0 max ShortenLeft None ActionChar).
Proof using Hmax.
  intros Hv Hne Hw. destruct (proj2 (scan_text text o Hv) Hw) as (p & q & Et & Hpq & Hcl & Ho & Hlo & Hn).
  exists p, q, (2 * length text + match o with Some _ => 3 | None => 4 end).
  split; [done|]. split; [done|]. split; [destruct o; lia|].
  unfold shorten, new. rewrite bool_decide_eq_false_2 by done. rewrite Hn, Ho.
  assert (length text = length p + length q) as El by (by rewrite Et, length_app).
  rewrite usize_sub_ok by (destruct (length p =? 1); lia).
  cbn [mbind option_bind]. rewrite (proj2 (Nat.ltb_ge _ _) Hcl), Hlo. cbn [orb].
  replace (drop ((if length p =? 1 then length q else length text) - length q) text)
    with (if length p =? 1 then text else q).
  2: { destruct (length p =? 1); [by rewrite Nat.sub_diag|].
       replace (length text - length q) with (length p) by lia. by rewrite Et, drop_app_length. }
  destruct o as [sh|].
  - rewrite bool_decide_eq_false_2 by done.
    replace (2 * length text + 4) with (S (2 * length text + 3)) by lia.
    rewrite collect_unfold. cbn [next text_action chars accumulated_len max_width shortener direction].
    rewrite bool_decide_eq_true_2 by done. by destruct (collect _ _).
  - rewrite bool_decide_eq_true_2 by done. by destruct (collect _ _).
Qed.

Lemma shorten_left text o :
  visible text → text ≠ [] → max < width text →
  ∃ p q, text = p ++ q ∧
    if decide (room o < width (tail text)) then
      longest_suffix (room o) p q ∧ shorten text max ShortenLeft o = Some (shortener_text o ++ spaced q)
    else
      longest_prefix max p q ∧ shorten text max ShortenLeft o = Some (shortener_text o ++ spaced p).
Proof using Hmax.
  intros Hv Hne Hw. destruct (shorten_left_cut text o Hv Hne Hw) as (p & q & fuel & Et & Hpq & Hf & E).
  pose proof Hpq as (Hq & p' & ch & Ep & Hch).
  assert (room o ≤ max) by (destruct o; simpl; lia). rewrite E. case_decide as Htl.
  - exists p, q. split; [done|]. split; [done|].
    assert (length p ≠ 1) as Hp.
    { subst p. rewrite length_app. simpl. destruct p' as [|x p']; simpl; [|lia].
      subst text. simpl in Htl. lia. }
    rewrite (proj2 (Nat.eqb_neq _ _) Hp). subst text. apply Forall_app in Hv as [_ Hv].
    rewrite length_app in Hf. by rewrite collect_all by (done || lia).
  - assert (p' = []) as ->.
    { destruct p' as [|x p']; [done|]. subst text p. simpl in Htl. rewrite !width_app in Htl. simpl in Htl. lia. }
    subst p. change (length ([] ++ [ch]) =? 1) with true. cbv iota.
    destruct (collect_plain ShortenLeft text 0 fuel) as (p & q' & Et' & Ec & Hpq'); [done|lia|done|].
    rewrite Nat.sub_0_r in *. exists p, q'. split; [done|]. rewrite Ec. split; [|done].
    destruct Hpq' as [[-> Hp]|]; [|done]. subst text. rewrite Et', app_nil_r in Hw. lia.
Qed.

(** C40.  Shortening a text of characters that take one or two columns to a positive number of columns
    ends.  A text that fits is kept, but for the spacer of a wide character in the last column;
    otherwise the longest beginning, or the longest end, that fits together with the shortener is
    shown.  If to the left only the first character does not fit, the beginning is shown instead of the
    end.  A character without a width at the end of a text that just fits makes it count as too
    long ([combining_mark_shortened]). *)
Theorem shorten_correct text d o :
  visible text →
  ∃ out, shorten text max d o = Some out ∧
    (width text ≤ max → out = spaced text ∨ width text = max ∧ out ++ [32%N] = spaced text) ∧
    (max < width text →
      ∃ p q, text = p ++ q ∧
        match d with
        | ShortenRight => longest_prefix (room o) p q ∧ out = spaced p ++ shortener_text o
        | ShortenLeft =>
            if decide (room o < width (tail text)) then
              longest_suffix (room o) p q ∧ out = shortener_text o ++ spaced q
            else longest_prefix max p q ∧ out = shortener_text o ++ spaced p
        end).
Proof using Hmax.
  intros Hv. destruct (decide (text = [])) as [-> |Hne].
  { exists []. split; [|split; [by left|simpl; lia]].
    destruct d; [|done]. unfold shorten, new. rewrite bool_decide_eq_true_2 by done. simpl.
    by rewrite orb_true_r. }
  destruct d; [|by apply shorten_right].
  destruct (decide (width text ≤ max)) as [Hw|Hw].
  - exists (spaced text). split; [by apply shorten_left_fits|]. split; [by left|lia].
  - destruct (shorten_left text o) as (p & q & Et & Hc); [done|done|lia|].
    destruct (decide (room o < width (tail text))) as [Htl|Htl];
      destruct Hc as [Hpq E]; (eexists; split; [exact E|]; split; [lia|]);
      intros _; by exists p, q.
Qed.
End Shortening.

(** * Concrete strings *)

#[local] Existing Instance Sample.external.

(** "ab" does not fit into one column: its beginning is shown instead of its end. *)
Example first_character_kept : shorten [97; 98]%N 1 ShortenLeft None = Some [97%N].
Proof. vm_compute. reflexivity. Qed.

(** A wide character and a letter in two columns: three cells are used. *)
Example left_too_wide :
  (length <$> shorten [12385; 80]%N 2 ShortenLeft (Some 46%N)) = Some 3.
Proof. vm_compute. reflexivity. Qed.

(** "abc" with a combining accent takes three columns, but the character without a width after the
    last column that is used makes the text count as too long. *)
Example combining_mark_shortened :
  sum_list_with StrShortener.width_of [97; 98; 99; 769]%N = 3 ∧
  shorten [97; 98; 99; 769]%N 3 ShortenRight (Some 46%N) = Some [97; 98; 46]%N.
Proof. split; vm_compute; reflexivity. Qed.

(** "Hello" in three columns, from both sides. *)
Lemma shorten_correct_witness :
  ∃ out, shorten [72; 101; 108; 108; 111]%N 3 ShortenRight (Some 46%N) = Some out.
Proof.
  destruct (shorten_correct 3 ltac:(lia) [72; 101; 108; 108; 111]%N ShortenRight (Some 46%N))
    as (out & E & _).
  - repeat (apply Forall_cons; split; [left; vm_compute; reflexivity|]). apply Forall_nil. exact I.
  - exists out. exact E.
Defined.

Example hello_right :
  shorten [72; 101; 108; 108; 111]%N 3 ShortenRight (Some 46%N) = Some [72; 101; 46]%N.
Proof. vm_compute. reflexivity. Qed.
Example hello_left :
  shorten [72; 101; 108; 108; 111]%N 3 ShortenLeft (Some 46%N) = Some [46; 108; 111]%N.
Proof. vm_compute. reflexivity. Qed.
