(* ===== verification/Mice.v ===== *)
(** The mouse ([cutty/src/event.rs], [cutty/src/input/mod.rs]): its state, the cell under it, and
    the reports of the mouse that are sent to the program in the terminal.

    The sizes of [SizeInfo<f32>], the scrolling accumulated so far and the positions of touches are
    whole numbers of pixels, on which the arithmetic of [f32] and [f64] is exact; positions of the
    mouse are [usize]. *)
From stdpp Require Import gmap.
From S2P Require Import Prelude Index Cells TermData Keys FrameDamages.
#[local] Open Scope nat_scope.

(** [enum ClickState] and [struct Mouse]. *)
Inductive ClickState := NoClick | Click | DoubleClick | TripleClick.
#[export] Instance ClickState_eq_dec : EqDecision ClickState.
Proof. solve_decision. Defined.

Module Mouse.
Record t := mk {
  left_button_state : ElementState;
  middle_button_state : ElementState;
  right_button_state : ElementState;
  last_click_timestamp : N;
  last_click_button : MouseButton.t;
  click_state : ClickState;
  cell_side : Side;
  block_hint_launcher : bool;
  hint_highlight_dirty : bool;
  inside_text_area : bool;
  x : nat;
  y : nat;
  accumulated_scroll : Z * Z;
}.

(** [now] is the reading of the clock. *)
Definition default (now : N) : t :=
  mk Released Released Released now MouseButton.Left NoClick Left false false false 0 0 (0, 0)%Z.

Section setters.
Implicit Types (s : t).
Definition set_left_button_state (b : ElementState) s : t :=
  mk b (middle_button_state s) (right_button_state s) (last_click_timestamp s) (last_click_button s)
    (click_state s) (cell_side s) (block_hint_launcher s) (hint_highlight_dirty s)
    (inside_text_area s) (x s) (y s) (accumulated_scroll s).
Definition set_middle_button_state (b : ElementState) s : t :=
  mk (left_button_state s) b (right_button_state s) (last_click_timestamp s) (last_click_button s)
    (click_state s) (cell_side s) (block_hint_launcher s) (hint_highlight_dirty s)
    (inside_text_area s) (x s) (y s) (accumulated_scroll s).
Definition set_right_button_state (b : ElementState) s : t :=
  mk (left_button_state s) (middle_button_state s) b (last_click_timestamp s) (last_click_button s)
    (click_state s) (cell_side s) (block_hint_launcher s) (hint_highlight_dirty s)
    (inside_text_area s) (x s) (y s) (accumulated_scroll s).
Definition set_click (timestamp : N) (button : MouseButton.t) (c : ClickState) s : t :=
  mk (left_button_state s) (middle_button_state s) (right_button_state s) timestamp button c
    (cell_side s) (block_hint_launcher s) (hint_highlight_dirty s) (inside_text_area s) (x s) (y s) (accumulated_scroll s).
Definition set_click_state (c : ClickState) s : t :=
  set_click (last_click_timestamp s) (last_click_button s) c s.
Definition set_cell_side (side : Side) s : t :=
  mk (left_button_state s) (middle_button_state s) (right_button_state s) (last_click_timestamp s)
    (last_click_button s) (click_state s) side (block_hint_launcher s) (hint_highlight_dirty s)
    (inside_text_area s) (x s) (y s) (accumulated_scroll s).
Definition set_block_hint_launcher (b : bool) s : t :=
  mk (left_button_state s) (middle_button_state s) (right_button_state s) (last_click_timestamp s)
    (last_click_button s) (click_state s) (cell_side s) b (hint_highlight_dirty s)
    (inside_text_area s) (x s) (y s) (accumulated_scroll s).
Definition set_hint_highlight_dirty (b : bool) s : t :=
  mk (left_button_state s) (middle_button_state s) (right_button_state s) (last_click_timestamp s)
    (last_click_button s) (click_state s) (cell_side s) (block_hint_launcher s) b
    (inside_text_area s) (x s) (y s) (accumulated_scroll s).
Definition set_inside_text_area (b : bool) s : t :=
  mk (left_button_state s) (middle_button_state s) (right_button_state s) (last_click_timestamp s)
    (last_click_button s) (click_state s) (cell_side s) (block_hint_launcher s)
    (hint_highlight_dirty s) b (x s) (y s) (accumulated_scroll s).
Definition set_position (x y : nat) s : t :=
  mk (left_button_state s) (middle_button_state s) (right_button_state s) (last_click_timestamp s)
    (last_click_button s) (click_state s) (cell_side s) (block_hint_launcher s)
    (hint_highlight_dirty s) (inside_text_area s) x y (accumulated_scroll s).
Definition set_accumulated_scroll (scroll : Z * Z) s : t :=
  mk (left_button_state s) (middle_button_state s) (right_button_state s) (last_click_timestamp s)
    (last_click_button s) (click_state s) (cell_side s) (block_hint_launcher s)
    (hint_highlight_dirty s) (inside_text_area s) (x s) (y s) scroll.
End setters.

(** [as usize] of a size; dividing by zero panics. *)
Definition div_size (n : nat) (size : Z) : option nat :=
  let size := Z.to_nat size in if size =? 0 then None else Some (n / size).
Definition mod_size (n : nat) (size : Z) : option nat :=
  let size := Z.to_nat size in if size =? 0 then None else Some (n mod size).

(** [Mouse::point]: the cell under the mouse, clamped to the screen. *)
Definition point (size : SizeInfo.t) (display_offset : nat) (s : t) : option Point :=
  col ← div_size (x s - Z.to_nat (SizeInfo.padding_x size)) (SizeInfo.cell_width size);
  last_column ← usize_sub (SizeInfo.columns size) 1;
  line ← div_size (y s - Z.to_nat (SizeInfo.padding_y size)) (SizeInfo.cell_height size);
  bottommost_line ← usize_sub (SizeInfo.screen_lines size) 1;
  viewport_to_point display_offset
    (Pt (Nat.min line bottommost_line) (Nat.min col last_column)).
End Mouse.

(** * Touches *)

(** [winit::event::TouchPhase] and [winit::event::Touch]. *)
Inductive TouchPhase := PhaseStarted | PhaseMoved | PhaseEnded | PhaseCancelled.
Record TouchEvent := mkTouchEvent { touch_id : N; location : Z * Z }.

(** [struct TouchZoom], without the fractions of a change of the size of the font. *)
Module TouchZoom.
Definition t : Type := TouchEvent * TouchEvent.
(** The first part of [font_delta]: the new position of one of the fingers. *)
Definition update_slots (slot : TouchEvent) (slots : t) : t :=
  if (touch_id slot =? touch_id (fst slots))%N then (slot, snd slots) else (fst slots, slot).
End TouchZoom.

(** [enum TouchPurpose]; a set of fingers is the set of their numbers. *)
Module TouchPurpose.
Inductive t :=
  | NoPurpose
  | Select (event : TouchEvent)
  | Scroll (event : TouchEvent)
  | Zoom (zoom : TouchZoom.t)
  | ZoomPendingSlot (slot : TouchEvent)
  | Tap (start : TouchEvent)
  | Invalid (slots : gset N).
End TouchPurpose.

(** [SizeInfo::contains_point]. *)
Definition contains_point (size : SizeInfo.t) (x y : nat) : bool :=
  (Z.of_nat x <=? SizeInfo.padding_x size
                  + Z.of_nat (SizeInfo.columns size) * SizeInfo.cell_width size)%Z
  && (SizeInfo.padding_x size <? Z.of_nat x)%Z
  && (Z.of_nat y <=? SizeInfo.padding_y size
                     + Z.of_nat (SizeInfo.screen_lines size) * SizeInfo.cell_height size)%Z
  && (SizeInfo.padding_y size <? Z.of_nat y)%Z.

(** [Processor::cell_side]. *)
Definition cell_side (size : SizeInfo.t) (x : nat) : option Side :=
  cell_x ← Mouse.mod_size (x - Z.to_nat (SizeInfo.padding_x size)) (SizeInfo.cell_width size);
  let half_cell_width := Z.to_nat (SizeInfo.cell_width size / 2) in
  let additional_padding :=
    Z.rem (SizeInfo.width size - SizeInfo.padding_x size * 2) (SizeInfo.cell_width size) in
  let end_of_grid := (SizeInfo.width size - SizeInfo.padding_x size - additional_padding)%Z in
  Some (if (half_cell_width <? cell_x) || (end_of_grid <=? Z.of_nat x)%Z then Right else Left).

(** * Reports *)

Module MouseReport.
#[local] Open Scope N_scope.

Definition u8_add (a b : N) : option N := if a + b <? 256 then Some (a + b) else None.
Definition as_u8 (n : N) : N := n mod 256.

Definition sgr_mouse_report (point : Point) (button : N) (state : ElementState) : option (list N) :=
  let c := match state with Pressed => 77 | Released => 109 end in
  line ← i32_add (line point) 1;
  Some ([27; 91; 60] ++ digits button ++ [59] ++ digits (N.of_nat (column point + 1))
        ++ [59] ++ (if (line <? 0)%Z then [45] else []) ++ digits (Z.abs_N line) ++ [c]).

Definition mouse_pos_encode (pos : N) : list N :=
  let pos := 32 + 1 + pos in
  [as_u8 (192 + pos / 64); as_u8 (128 + N.land pos 63)].

(** One coordinate of a report. *)
Definition encode_coordinate (utf8 : bool) (pos : N) : option (list N) :=
  if utf8 && (95 <=? pos) then Some (mouse_pos_encode pos)
  else b ← u8_add 33 (as_u8 pos); Some [b].

(** [None] inside: the position cannot be reported. *)
Definition normal_mouse_report (mode : TermMode) (point : Point) (button : N) :
    option (option (list N)) :=
  let utf8 := TermMode.contains mode TermMode.UTF8_MOUSE in
  let max_point := if utf8 then 2015 else 223 in
  if (Z.of_N max_point <=? line point)%Z || (max_point <=? N.of_nat (column point)) then Some None
  else
    button ← u8_add 32 button;
    x ← encode_coordinate utf8 (N.of_nat (column point));
    y ← encode_coordinate utf8 (Z.to_N (line point));
    Some (Some ([27; 91; 77; button] ++ x ++ y)).

Definition mods_value (modifiers : ModifiersState) : N :=
  (if shift_key modifiers then 4 else 0) + (if alt_key modifiers then 8 else 0)
  + (if control_key modifiers then 16 else 0).

(** [mouse_report], from the cell under the mouse on. *)
Definition mouse_report (mode : TermMode) (modifiers : ModifiersState) (point : Point) (button : N)
    (state : ElementState) : option (option (list N)) :=
  if (line point <? 0)%Z then Some None
  else
    let mods := mods_value modifiers in
    if TermMode.contains mode TermMode.SGR_MOUSE then
      button ← u8_add button mods;
      report ← sgr_mouse_report point button state;
      Some (Some report)
    else
      match state with
      | Released => button ← u8_add 3 mods; normal_mouse_report mode point button
      | Pressed => button ← u8_add button mods; normal_mouse_report mode point button
      end.

(** [on_focus_change]: the report of the focus. *)
Definition focus_report (mode : TermMode) (is_focused : bool) : option (list N) :=
  if TermMode.contains mode TermMode.FOCUS_IN_OUT
  then Some [27; 91; if is_focused then 73 else 79] else None.
End MouseReport.
