(* ===== verification/MouseProps.v ===== *)
(** Properties of the reports of the mouse: a program that follows the documented encodings reads
    back the button, the modifiers and the cell. *)
From S2P Require Import Prelude Index Cells TermData Keys Keyboards KeyProps FrameDamages Mice.
Import MouseReport.
#[local] Open Scope N_scope.

(** * The decoder *)

(** What a report says; only the SGR encoding tells which button was released. *)
Record MouseReading := mkMouseReading {
  reading_button : N;
  reading_mods : bool * bool * bool;
  reading_column : N;
  reading_line : N;
  reading_released : option bool;
}.

(** The bits 2, 3 and 4 are the modifiers. *)
Definition reading (button x y : N) (released : option bool) : MouseReading :=
  mkMouseReading (N.ldiff button 28) (N.testbit button 2, N.testbit button 3, N.testbit button 4)
    x y released.

Definition decode_coordinate (utf8 : bool) (bytes : list N) : option (N * list N) :=
  match bytes with
  | [] => None
  | b :: rest =>
      if utf8 && (128 <=? b) then
        match rest with
        | c :: rest => Some ((b - 192) * 64 + (c - 128) - 33, rest)
        | [] => None
        end
      else Some (b - 33, rest)
  end.

Definition decode_mouse (mode : TermMode) (bytes : list N) : option MouseReading :=
  match bytes with
  | 27 :: 91 :: 60 :: rest =>
      final ← last rest;
      match split_on 59 (removelast rest) with
      | [button; x; y] =>
          Some (reading (value button) (value x - 1) (value y - 1) (Some (final =? 109)))
      | _ => None
      end
  | 27 :: 91 :: 77 :: button :: rest =>
      let utf8 := TermMode.contains mode TermMode.UTF8_MOUSE in
      '(x, rest) ← decode_coordinate utf8 rest;
      '(y, rest) ← decode_coordinate utf8 rest;
      _ ← ensure (bool_decide (rest = []));
      Some (reading (button - 32) x y None)
  | _ => None
  end.

(** * The reports *)

(** The codes of the buttons, of motion with a button, and of the wheel. *)
Definition mouse_codes : list N := [0; 1; 2; 32; 33; 34; 35; 64; 65; 66; 67].

Lemma mods_value_cases mods : mods_value mods ≤ 28.
Proof. by destruct mods as [[] [] [] []]. Qed.

Lemma reading_mods_ok button mods x y released :
  button ∈ 3 :: mouse_codes →
  reading (button + mods_value mods) x y released
  = mkMouseReading button (shift_key mods, alt_key mods, control_key mods) x y released.
Proof.
  intros Hb. assert (∀ m1 m2 m3 m4, let mods := mkMods m1 m2 m3 m4 in
    N.ldiff (button + mods_value mods) 28 = button ∧
    (N.testbit (button + mods_value mods) 2, N.testbit (button + mods_value mods) 3,
      N.testbit (button + mods_value mods) 4) = (m1, m3, m2)) as Hall.
  { repeat (apply elem_of_cons in Hb as [-> |Hb];
      [intros [] [] [] []; split; vm_compute; reflexivity|]). by apply elem_of_nil in Hb. }
  unfold reading. destruct mods as [m1 m2 m3 m4]. destruct (Hall m1 m2 m3 m4) as [-> ->]. done.
Qed.

Lemma code_bound button : button ∈ 3 :: mouse_codes → button ≤ 67.
Proof.
  intros Hb. repeat (apply elem_of_cons in Hb as [-> |Hb]; [lia|]). by apply elem_of_nil in Hb.
Qed.

Lemma decode_encode (utf8 : bool) (pos : N) rest :
  pos < (if utf8 then 2015 else 223) →
  ∃ bytes, encode_coordinate utf8 pos = Some bytes ∧
    decode_coordinate utf8 (bytes ++ rest) = Some (pos, rest).
Proof.
  intros Hpos. unfold encode_coordinate. destruct utf8; cbn [andb].
  - destruct (N.leb_spec 95 pos) as [Hge|Hlt].
    + eexists. split; [done|]. unfold mouse_pos_encode, as_u8. change 63 with (N.ones 6).
      rewrite N.land_ones. change (2 ^ 6) with 64. simpl app.
      set (q := (32 + 1 + pos) / 64). set (r := (32 + 1 + pos) mod 64).
      assert (32 + 1 + pos = 64 * q + r) as Eq by (apply N.div_mod'; lia).
      assert (r < 64) by (by apply N.mod_lt). clearbody q r.
      rewrite !N.mod_small by lia. unfold decode_coordinate. cbn [andb].
      rewrite (proj2 (N.leb_le 128 (192 + q))) by lia. do 2 f_equal. lia.
    + unfold u8_add, as_u8. rewrite N.mod_small by lia.
      rewrite (proj2 (N.ltb_lt (33 + pos) 256)) by lia. cbn [mbind option_bind].
      eexists. split; [done|]. simpl.
      destruct (N.leb_spec 128 (33 + pos)); [lia|]. do 2 f_equal. lia.
  - unfold u8_add, as_u8. rewrite N.mod_small by lia.
    rewrite (proj2 (N.ltb_lt (33 + pos) 256)) by lia. cbn [mbind option_bind].
    eexists. split; [done|]. cbn [app decode_coordinate andb]. do 2 f_equal. lia.
Qed.

Lemma decode_sgr mode button mods p state :
  button ∈ mouse_codes → (0 ≤ line p < 2147483647)%Z →
  ∃ bytes, sgr_mouse_report p (button + mods_value mods) state = Some bytes ∧
    decode_mouse mode bytes
    = Some (mkMouseReading button (shift_key mods, alt_key mods, control_key mods)
        (N.of_nat (column p)) (Z.to_N (line p)) (Some (bool_decide (state = Released)))).
Proof.
  intros Hb Hl. unfold sgr_mouse_report. rewrite i32_add_ok by (unfold in_i32; lia).
  cbn [mbind option_bind].
  eexists. split; [done|]. rewrite (proj2 (Z.ltb_ge _ _)) by lia. cbn [app].
  set (b := digits (button + mods_value mods)). set (x := digits (N.of_nat (column p + 1))).
  set (y := digits (Z.abs_N (line p + 1))). set (c := match state with Pressed => 77 | _ => 109 end).
  assert (b ++ 59 :: x ++ 59 :: y ++ [c] = (b ++ 59 :: x ++ 59 :: y) ++ [c]) as E.
  { by rewrite <- app_assoc, <- app_comm_cons, <- app_assoc. }
  unfold decode_mouse. rewrite E, last_snoc. cbn [mbind option_bind]. rewrite removelast_last.
  assert (∀ n, 59 ∉ digits n) as Hsep by (intros n; apply digit_not; [apply digits_digits|done]).
  rewrite split_on_app, split_on_app, split_on_plain by apply Hsep.
  unfold b, x, y. rewrite !value_digits, reading_mods_ok by (by constructor).
  do 3 f_equal; [lia|lia|]. f_equal. by destruct state.
Qed.

Lemma decode_normal mode button p mods :
  button ∈ 3 :: mouse_codes → (0 ≤ line p)%Z →
  let max := if TermMode.contains mode TermMode.UTF8_MOUSE then 2015 else 223 in
  ∃ report, normal_mouse_report mode p (button + mods_value mods) = Some report ∧
    match report with
    | None => (Z.of_N max ≤ line p)%Z ∨ max ≤ N.of_nat (column p)
    | Some bytes =>
        decode_mouse mode bytes
        = Some (mkMouseReading button (shift_key mods, alt_key mods, control_key mods)
            (N.of_nat (column p)) (Z.to_N (line p)) None)
    end.
Proof.
  intros Hb Hl max. unfold normal_mouse_report. fold max.
  destruct (Z.leb_spec (Z.of_N max) (line p)) as [Hm|Hm]; [exists None; auto|].
  destruct (N.leb_spec max (N.of_nat (column p))) as [Hc|Hc]; [exists None; auto|]. cbn [orb].
  pose proof (code_bound _ Hb). pose proof (mods_value_cases mods).
  unfold u8_add at 1. rewrite (proj2 (N.ltb_lt _ 256)) by lia. cbn [mbind option_bind].
  destruct (decode_encode (TermMode.contains mode TermMode.UTF8_MOUSE) (Z.to_N (line p)) [])
    as (y & Ey & Dy); [fold max; lia|].
  destruct (decode_encode (TermMode.contains mode TermMode.UTF8_MOUSE) (N.of_nat (column p)) y)
    as (x & Ex & Dx); [done|].
  rewrite Ex, Ey. cbn [mbind option_bind]. eexists. split; [done|]. cbn [app].
  cbn [decode_mouse]. rewrite Dx. cbn [mbind option_bind]. rewrite app_nil_r in Dy.
  rewrite Dy. cbn [mbind option_bind]. rewrite bool_decide_eq_true_2 by done. cbn [ensure mbind option_bind].
  replace (32 + (button + mods_value mods) - 32) with (button + mods_value mods) by lia.
  by rewrite reading_mods_ok.
Qed.

(** C23.  Whatever button, modifiers and cell, computing a report of the mouse does not panic, and a
    program that follows the encoding of its mode reads back the button, the modifiers and the
    cell; with the SGR encoding also whether the button was released, with the others a release
    is the code 3.  There is no report exactly for cells of the history, and without SGR for
    those behind the last column or line that can be encoded. *)
Theorem mouse_report_decodes mode mods p button state :
  button ∈ mouse_codes → (line p < 2147483647)%Z →
  let sgr := TermMode.contains mode TermMode.SGR_MOUSE in
  let max := if TermMode.contains mode TermMode.UTF8_MOUSE then 2015 else 223 in
  ∃ report, mouse_report mode mods p button state = Some report ∧
    match report with
    | None => (line p < 0)%Z ∨ sgr = false ∧ ((Z.of_N max ≤ line p)%Z ∨ max ≤ N.of_nat (column p))
    | Some bytes =>
        (0 ≤ line p)%Z ∧
        decode_mouse mode bytes
        = Some (mkMouseReading
            (if negb sgr && bool_decide (state = Released) then 3 else button)
            (shift_key mods, alt_key mods, control_key mods)
            (N.of_nat (column p)) (Z.to_N (line p))
            (if sgr then Some (bool_decide (state = Released)) else None))
    end.
Proof.
  intros Hb Hl sgr max. unfold mouse_report.
  destruct (Z.ltb_spec (line p) 0) as [Hneg|Hpos]; [exists None; auto|]. fold sgr.
  pose proof (mods_value_cases mods). assert (button ∈ 3 :: mouse_codes) as Hb' by (by constructor).
  pose proof (code_bound _ Hb').
  assert (∀ code, code ≤ 67 → u8_add code (mods_value mods) = Some (code + mods_value mods)) as Hu8.
  { intros code Hc. unfold u8_add. by rewrite (proj2 (N.ltb_lt _ 256)) by lia. }
  destruct sgr.
  - rewrite Hu8 by done. cbn [mbind option_bind].
    destruct (decode_sgr mode button mods p state) as (bytes & -> & Hd); [done|lia|].
    exists (Some bytes). split; [done|]. split; [lia|]. by rewrite Hd.
  - assert (∀ code, code ∈ 3 :: mouse_codes →
      ∃ report, (b ← u8_add code (mods_value mods); normal_mouse_report mode p b) = Some report ∧
      match report with
      | None => (line p < 0)%Z ∨ false = false ∧ ((Z.of_N max ≤ line p)%Z ∨ max ≤ N.of_nat (column p))
      | Some bytes =>
          (0 ≤ line p)%Z ∧
          decode_mouse mode bytes
          = Some (mkMouseReading code (shift_key mods, alt_key mods, control_key mods)
              (N.of_nat (column p)) (Z.to_N (line p)) None)
      end) as Hcode.
    { intros code Hc. rewrite Hu8 by (by apply code_bound). cbn [mbind option_bind].
      destruct (decode_normal mode code p mods Hc ltac:(lia)) as ([bytes|] & -> & Hd).
      - exists (Some bytes). split; [done|]. split; [lia|done].
      - exists None. split; [done|]. right. split; [done|]. exact Hd. }
    destruct state; cbn [negb andb]; [by apply Hcode|].
    apply Hcode. apply list_elem_of_here.
Qed.

(** Releasing a button with control in the third column of the second line. *)
Lemma mouse_report_decodes_witness :
  ∃ report, mouse_report TermMode.SGR_MOUSE ModifiersState.CONTROL (Pt 1%Z 2%nat) 0 Released
      = Some (Some report) ∧
    decode_mouse TermMode.SGR_MOUSE report
    = Some (mkMouseReading 0 (false, false, true) 2 1 (Some true)).
Proof.
  destruct (mouse_report_decodes TermMode.SGR_MOUSE ModifiersState.CONTROL (Pt 1%Z 2%nat) 0 Released)
    as ([report|] & E & Hr).
  - apply list_elem_of_here.
  - reflexivity.
  - exists report. split; [exact E|]. destruct Hr as [_ Hd]. rewrite Hd. vm_compute. reflexivity.
  - discriminate E.
Defined.

Example release_report :
  mouse_report TermMode.SGR_MOUSE ModifiersState.CONTROL (Pt 1%Z 2%nat) 0 Released
  = Some (Some [27; 91; 60; 49; 54; 59; 51; 59; 50; 109]).
Proof. vm_compute. reflexivity. Qed.
