(* ===== verification/Contexts.v ===== *)
(** The context of the input of a window ([cutty/src/event.rs], [cutty/src/display/mod.rs],
    [cutty/src/display/window.rs]): the state the handlers of the user interface share, the events
    they schedule and what they send to the outside.

    The borrowed parts of [ActionContext] are one record.  What leaves the model is a list of
    effects in order: bytes for the pseudoterminal, stores into the clipboard, programs that are
    started, and calls of the window system. *)
From S2P Require Import Prelude Index Cells TermData Grids Terms Searches ViModes Selections Keys Bindings Schedulers FrameDamages Hints Messages Mice.
#[local] Open Scope nat_scope.

(** [enum EventType], as far as the window handles it itself. *)
Inductive EventType `{External} :=
  | TerminalEvent (e : Event)
  | MessageEvent (m : Message.t)
  | ScrollEvent (s : Scroll)
  | BlinkCursorEvent
  | BlinkCursorTimeoutEvent
  | SearchNextEvent
  | FrameEvent.
#[global] Arguments TerminalEvent {_} e.
#[global] Arguments MessageEvent {_} m.
#[global] Arguments ScrollEvent {_} s.
#[global] Arguments BlinkCursorEvent {_}.
#[global] Arguments BlinkCursorTimeoutEvent {_}.
#[global] Arguments SearchNextEvent {_}.
#[global] Arguments FrameEvent {_}.

(** [winit::window::CursorIcon], the icons the source uses. *)
Inductive CursorIcon := IconDefault | IconText | IconPointer.
#[export] Instance CursorIcon_eq_dec : EqDecision CursorIcon.
Proof. solve_decision. Defined.

(** [bitflags! ImeInhibitor]. *)
Module ImeInhibitor.
Definition FOCUS : N := 1.
Definition TOUCH : N := 2.
Definition VI : N := 4.
Definition set (f : N) (b : bool) (m : N) : N := if b then N.lor m f else N.ldiff m f.
End ImeInhibitor.

(** Calls of the window system without an answer the source looks at. *)
Inductive WindowCall :=
  | ToggleFullscreenCall | ToggleMaximizedCall | ToggleSimpleFullscreenCall | HideApplicationCall
  | HideOtherApplicationsCall | SetInvisibleCall | MinimizeCall | SelectNextTabCall
  | SelectPreviousTabCall | SelectTabCall (index : nat) | SelectLastTabCall | CreateNewWindowCall
  | CreateNewTabCall | SetImeAllowed (b : bool) | SetUrgent (b : bool) | SetTitle (t : text)
  | RingVisualBell.

Inductive Effect :=
  | WriteToPty (bytes : list N)
  | StoreClipboard (ty : ClipboardType) (t : text)
  | SpawnDaemon (program : text) (args : list text)
  | SpawnNewInstanceEffect
  | ChangeFontSize (delta : Z)
  | ResetFontSizeEffect
  | ZoomFontSize (before after : TouchZoom.t)
  | Window (call : WindowCall).

(** * [struct SearchState] *)

Module SearchState.
Section ops.
Context `{Hybrid}.

Record t := mk {
  direction : Direction;
  history_index : option nat;
  display_offset_delta : Z;
  origin : Point;
  focused_match : option Search.Match;
  history : list text;
  dfas : option RegexSearch;
}.

Implicit Types (s : t).
Definition default : t := mk Right None 0 (Pt 0%Z 0) None [] None.

Definition set_direction (x : Direction) s : t :=
  mk x (history_index s) (display_offset_delta s) (origin s) (focused_match s) (history s)
    (dfas s).
Definition set_history_index (x : option nat) s : t :=
  mk (direction s) x (display_offset_delta s) (origin s) (focused_match s) (history s) (dfas s).
Definition set_display_offset_delta (x : Z) s : t :=
  mk (direction s) (history_index s) x (origin s) (focused_match s) (history s) (dfas s).
Definition set_origin (x : Point) s : t :=
  mk (direction s) (history_index s) (display_offset_delta s) x (focused_match s) (history s)
    (dfas s).
Definition set_focused_match (x : option Search.Match) s : t :=
  mk (direction s) (history_index s) (display_offset_delta s) (origin s) x (history s) (dfas s).
Definition set_history (x : list text) s : t :=
  mk (direction s) (history_index s) (display_offset_delta s) (origin s) (focused_match s) x
    (dfas s).
Definition set_dfas (x : option RegexSearch) s : t :=
  mk (direction s) (history_index s) (display_offset_delta s) (origin s) (focused_match s)
    (history s) x.

(** [regex]: the expression the user sees. *)
Definition regex s : option text := i ← history_index s; history s !! i.
End ops.
#[global] Arguments t {_}.
#[global] Arguments mk {_} _ _ _ _ _ _ _.
End SearchState.

(** * [struct InlineSearchState] *)

Module InlineSearchState.
Record t := mk {
  char_pending : bool;
  character : option char;
  inline_direction : Direction;
  stop_short : bool;
}.
Definition default : t := mk false None Right false.
Definition set_char_pending (x : bool) s : t :=
  mk x (character s) (inline_direction s) (stop_short s).
Definition set_character (x : option char) s : t :=
  mk (char_pending s) x (inline_direction s) (stop_short s).
Definition set_inline_direction (x : Direction) s : t :=
  mk (char_pending s) (character s) x (stop_short s).
Definition set_stop_short (x : bool) s : t :=
  mk (char_pending s) (character s) (inline_direction s) x.
End InlineSearchState.

(** * [struct Display], the state the input changes *)

Module Display.
Section ops.
Context `{Hybrid}.

Record t := mk {
  size_info : SizeInfo.t;
  cursor_hidden : bool;
  hint_state : HintState.t;
  highlighted_hint : option HintMatch.t;
  vi_highlighted_hint : option HintMatch.t;
  pending_dirty : bool;
  damage_tracker : DamageTracker.t;
  preedit : option (text * option (nat * nat));
  mouse_visible : bool;
  ime_inhibitor : N;
  mouse_cursor : CursorIcon;
  hold : bool;
}.

Definition set_size_info (x : SizeInfo.t) s : t :=
  mk x (cursor_hidden s) (hint_state s) (highlighted_hint s) (vi_highlighted_hint s)
    (pending_dirty s) (damage_tracker s) (preedit s) (mouse_visible s) (ime_inhibitor s)
    (mouse_cursor s) (hold s).
Definition set_cursor_hidden (x : bool) s : t :=
  mk (size_info s) x (hint_state s) (highlighted_hint s) (vi_highlighted_hint s)
    (pending_dirty s) (damage_tracker s) (preedit s) (mouse_visible s) (ime_inhibitor s)
    (mouse_cursor s) (hold s).
Definition set_hint_state (x : HintState.t) s : t :=
  mk (size_info s) (cursor_hidden s) x (highlighted_hint s) (vi_highlighted_hint s)
    (pending_dirty s) (damage_tracker s) (preedit s) (mouse_visible s) (ime_inhibitor s)
    (mouse_cursor s) (hold s).
Definition set_highlighted_hint (x : option HintMatch.t) s : t :=
  mk (size_info s) (cursor_hidden s) (hint_state s) x (vi_highlighted_hint s) (pending_dirty s)
    (damage_tracker s) (preedit s) (mouse_visible s) (ime_inhibitor s) (mouse_cursor s) (hold s).
Definition set_vi_highlighted_hint (x : option HintMatch.t) s : t :=
  mk (size_info s) (cursor_hidden s) (hint_state s) (highlighted_hint s) x (pending_dirty s)
    (damage_tracker s) (preedit s) (mouse_visible s) (ime_inhibitor s) (mouse_cursor s) (hold s).
Definition set_pending_dirty (x : bool) s : t :=
  mk (size_info s) (cursor_hidden s) (hint_state s) (highlighted_hint s) (vi_highlighted_hint s)
    x (damage_tracker s) (preedit s) (mouse_visible s) (ime_inhibitor s) (mouse_cursor s)
    (hold s).
Definition set_damage_tracker (x : DamageTracker.t) s : t :=
  mk (size_info s) (cursor_hidden s) (hint_state s) (highlighted_hint s) (vi_highlighted_hint s)
    (pending_dirty s) x (preedit s) (mouse_visible s) (ime_inhibitor s) (mouse_cursor s)
    (hold s).
Definition set_preedit (x : option (text * option (nat * nat))) s : t :=
  mk (size_info s) (cursor_hidden s) (hint_state s) (highlighted_hint s) (vi_highlighted_hint s)
    (pending_dirty s) (damage_tracker s) x (mouse_visible s) (ime_inhibitor s) (mouse_cursor s)
    (hold s).
Definition set_mouse_visible (x : bool) s : t :=
  mk (size_info s) (cursor_hidden s) (hint_state s) (highlighted_hint s) (vi_highlighted_hint s)
    (pending_dirty s) (damage_tracker s) (preedit s) x (ime_inhibitor s) (mouse_cursor s)
    (hold s).
Definition set_ime_inhibitor (x : N) s : t :=
  mk (size_info s) (cursor_hidden s) (hint_state s) (highlighted_hint s) (vi_highlighted_hint s)
    (pending_dirty s) (damage_tracker s) (preedit s) (mouse_visible s) x (mouse_cursor s)
    (hold s).
Definition set_mouse_cursor (x : CursorIcon) s : t :=
  mk (size_info s) (cursor_hidden s) (hint_state s) (highlighted_hint s) (vi_highlighted_hint s)
    (pending_dirty s) (damage_tracker s) (preedit s) (mouse_visible s) (ime_inhibitor s) x
    (hold s).
Definition set_hold (x : bool) s : t :=
  mk (size_info s) (cursor_hidden s) (hint_state s) (highlighted_hint s) (vi_highlighted_hint s)
    (pending_dirty s) (damage_tracker s) (preedit s) (mouse_visible s) (ime_inhibitor s)
    (mouse_cursor s) x.

(** [damage_tracker.frame().mark_fully_damaged()]. *)
Definition mark_fully_damaged s : t :=
  set_damage_tracker (DamageTracker.set_frame
    (FrameDamage.mark_fully_damaged (DamageTracker.frame (damage_tracker s))) (damage_tracker s)) s.
End ops.
#[global] Arguments t {_}.
#[global] Arguments mk {_} _ _ _ _ _ _ _ _ _ _ _ _.
End Display.

(** * [struct ActionContext] *)

Module Context.
Section ops.
Context `{External} `{Hybrid} {W : Type} `{EqDecision W}.

Record t := mk {
  terminal : Term.t;
  mouse : Mouse.t;
  touch : TouchPurpose.t;
  modifiers : ModifiersState;
  alt_pressed : bool * bool;
  display : Display.t;
  message_buffer : MessageBuffer.t;
  cursor_blink_timed_out : bool;
  prev_bell_cmd : option N;
  scheduler : Scheduler.t EventType W;
  search_state : SearchState.t;
  inline_search_state : InlineSearchState.t;
  dirty : bool;
  occluded : bool;
  effects : list Effect;
}.

Definition set_terminal (x : Term.t) s : t :=
  mk x (mouse s) (touch s) (modifiers s) (alt_pressed s) (display s) (message_buffer s)
    (cursor_blink_timed_out s) (prev_bell_cmd s) (scheduler s) (search_state s)
    (inline_search_state s) (dirty s) (occluded s) (effects s).
Definition set_mouse (x : Mouse.t) s : t :=
  mk (terminal s) x (touch s) (modifiers s) (alt_pressed s) (display s) (message_buffer s)
    (cursor_blink_timed_out s) (prev_bell_cmd s) (scheduler s) (search_state s)
    (inline_search_state s) (dirty s) (occluded s) (effects s).
Definition set_touch (x : TouchPurpose.t) s : t :=
  mk (terminal s) (mouse s) x (modifiers s) (alt_pressed s) (display s) (message_buffer s)
    (cursor_blink_timed_out s) (prev_bell_cmd s) (scheduler s) (search_state s)
    (inline_search_state s) (dirty s) (occluded s) (effects s).
Definition set_modifiers (x : ModifiersState) s : t :=
  mk (terminal s) (mouse s) (touch s) x (alt_pressed s) (display s) (message_buffer s)
    (cursor_blink_timed_out s) (prev_bell_cmd s) (scheduler s) (search_state s)
    (inline_search_state s) (dirty s) (occluded s) (effects s).
Definition set_alt_pressed (x : bool * bool) s : t :=
  mk (terminal s) (mouse s) (touch s) (modifiers s) x (display s) (message_buffer s)
    (cursor_blink_timed_out s) (prev_bell_cmd s) (scheduler s) (search_state s)
    (inline_search_state s) (dirty s) (occluded s) (effects s).
Definition set_display (x : Display.t) s : t :=
  mk (terminal s) (mouse s) (touch s) (modifiers s) (alt_pressed s) x (message_buffer s)
    (cursor_blink_timed_out s) (prev_bell_cmd s) (scheduler s) (search_state s)
    (inline_search_state s) (dirty s) (occluded s) (effects s).
Definition set_message_buffer (x : MessageBuffer.t) s : t :=
  mk (terminal s) (mouse s) (touch s) (modifiers s) (alt_pressed s) (display s) x
    (cursor_blink_timed_out s) (prev_bell_cmd s) (scheduler s) (search_state s)
    (inline_search_state s) (dirty s) (occluded s) (effects s).
Definition set_cursor_blink_timed_out (x : bool) s : t :=
  mk (terminal s) (mouse s) (touch s) (modifiers s) (alt_pressed s) (display s)
    (message_buffer s) x (prev_bell_cmd s) (scheduler s) (search_state s)
    (inline_search_state s) (dirty s) (occluded s) (effects s).
Definition set_prev_bell_cmd (x : option N) s : t :=
  mk (terminal s) (mouse s) (touch s) (modifiers s) (alt_pressed s) (display s)
    (message_buffer s) (cursor_blink_timed_out s) x (scheduler s) (search_state s)
    (inline_search_state s) (dirty s) (occluded s) (effects s).
Definition set_scheduler (x : Scheduler.t EventType W) s : t :=
  mk (terminal s) (mouse s) (touch s) (modifiers s) (alt_pressed s) (display s)
    (message_buffer s) (cursor_blink_timed_out s) (prev_bell_cmd s) x (search_state s)
    (inline_search_state s) (dirty s) (occluded s) (effects s).
Definition set_search_state (x : SearchState.t) s : t :=
  mk (terminal s) (mouse s) (touch s) (modifiers s) (alt_pressed s) (display s)
    (message_buffer s) (cursor_blink_timed_out s) (prev_bell_cmd s) (scheduler s) x
    (inline_search_state s) (dirty s) (occluded s) (effects s).
Definition set_inline_search_state (x : InlineSearchState.t) s : t :=
  mk (terminal s) (mouse s) (touch s) (modifiers s) (alt_pressed s) (display s)
    (message_buffer s) (cursor_blink_timed_out s) (prev_bell_cmd s) (scheduler s)
    (search_state s) x (dirty s) (occluded s) (effects s).
Definition set_dirty (x : bool) s : t :=
  mk (terminal s) (mouse s) (touch s) (modifiers s) (alt_pressed s) (display s)
    (message_buffer s) (cursor_blink_timed_out s) (prev_bell_cmd s) (scheduler s)
    (search_state s) (inline_search_state s) x (occluded s) (effects s).
Definition set_occluded (x : bool) s : t :=
  mk (terminal s) (mouse s) (touch s) (modifiers s) (alt_pressed s) (display s)
    (message_buffer s) (cursor_blink_timed_out s) (prev_bell_cmd s) (scheduler s)
    (search_state s) (inline_search_state s) (dirty s) x (effects s).
Definition set_effects (x : list Effect) s : t :=
  mk (terminal s) (mouse s) (touch s) (modifiers s) (alt_pressed s) (display s)
    (message_buffer s) (cursor_blink_timed_out s) (prev_bell_cmd s) (scheduler s)
    (search_state s) (inline_search_state s) (dirty s) (occluded s) x.

Definition emit (e : Effect) s : t := set_effects (effects s ++ [e]) s.
Definition mark_dirty s : t := set_dirty true s.
Definition upd_display (f : Display.t → Display.t) s : t := set_display (f (display s)) s.
Definition upd_mouse (f : Mouse.t → Mouse.t) s : t := set_mouse (f (mouse s)) s.
Definition upd_search (f : SearchState.t → SearchState.t) s : t :=
  set_search_state (f (search_state s)) s.
Definition upd_inline (f : InlineSearchState.t → InlineSearchState.t) s : t :=
  set_inline_search_state (f (inline_search_state s)) s.
Definition upd_terminal (f : Term.t → option Term.t) s : option t :=
  x ← f (terminal s); Some (set_terminal x s).
Definition has_mode (m : TermMode) s : bool := TermMode.contains (Term.mode (terminal s)) m.
Definition vi_mode : t → bool := has_mode TermMode.VI.
Definition vi_point s : Point := Term.vi_mode_cursor (terminal s).
Definition display_offset s : nat := Grid.display_offset (Term.grid (terminal s)).

(** [write_to_pty]: an empty message is not sent. *)
Definition write_to_pty (bytes : list N) s : t :=
  match bytes with [] => s | _ => emit (WriteToPty bytes) s end.

(** [Window::set_ime_inhibitor]. *)
Definition set_ime_inhibitor (inhibitor : N) (inhibit : bool) s : t :=
  let inhibitors := Display.ime_inhibitor (display s) in
  if Bool.eqb (Flags.contains inhibitors inhibitor) inhibit then s
  else
    let inhibitors := ImeInhibitor.set inhibitor inhibit inhibitors in
    emit (Window (SetImeAllowed (inhibitors =? 0)%N))
      (upd_display (Display.set_ime_inhibitor inhibitors) s).
End ops.
#[global] Arguments t {_ _} W.
#[global] Arguments mk {_ _ _} _ _ _ _ _ _ _ _ _ _ _ _ _ _ _.
End Context.
