(* ===== verification/Actions.v ===== *)
(** What the input does to a window: the methods of [ActionContext] ([cutty/src/event.rs]) and
    [Action::execute] ([cutty/src/input/mod.rs]).

    [None] is a panic or too little fuel.  [rfuel] bounds the loops of the search for regular
    expressions; what the clipboard answers may depend on all effects so far. *)
From S2P Require Import Prelude Index Cells TermData Grids Terms Handlers Searches ViModes Selections Keys Bindings Schedulers FrameDamages Hints Messages Mice Contexts.
#[local] Open Scope nat_scope.

(** * The configuration ([cutty/src/config/cursor.rs] and the options that are used here) *)

Inductive CursorBlinking := BlinkNever | BlinkOff | BlinkOn | BlinkAlways.
Definition blinking_override_of (b : CursorBlinking) : option bool :=
  match b with BlinkNever => Some false | BlinkOff | BlinkOn => None | BlinkAlways => Some true end.

(** The shapes are not looked at here. *)
Inductive ConfigCursorStyle := ShapeStyle (shape : N) | WithBlinking (shape : N) (blinking : CursorBlinking).
Definition blinking_override (s : ConfigCursorStyle) : option bool :=
  match s with ShapeStyle _ => None | WithBlinking _ b => blinking_override_of b end.

Module CursorConfig.
#[local] Open Scope N_scope.
Record t := mk {
  style : ConfigCursorStyle;
  vi_mode_style : option ConfigCursorStyle;
  unfocused_hollow : bool;
  interval : N;
  timeout : N;
}.
Definition MIN_BLINK_INTERVAL : N := 10.
Definition MIN_BLINK_CYCLES_BEFORE_PAUSE : N := 1.
Definition u64_mul (a b : N) : option N := if a * b <? 18446744073709551616 then Some (a * b) else None.

(** Milliseconds. *)
Definition blink_interval (s : t) : N := N.max (interval s) MIN_BLINK_INTERVAL.
(** Nanoseconds. *)
Definition blink_timeout (s : t) : option N :=
  if timeout s =? 0 then Some 0
  else
    x ← u64_mul (interval s) 2; x ← u64_mul x MIN_BLINK_CYCLES_BEFORE_PAUSE;
    Some (N.max (x * 1000000) (timeout s * 1000000000)).
End CursorConfig.

Module UiConfig.
Record t `{Winit} := mk {
  platform : Platform;
  cursor : CursorConfig.t;
  save_to_clipboard : bool;
  hide_when_typing : bool;
  no_decorations : bool;
  dynamic_title : bool;
  title : text;
  bell_command : option Program;
  mouse_bindings : list MouseBinding;
  multiplier : N;
}.
End UiConfig.

Definition program_of (p : Program) : text := match p with Just x => x | WithArgs x _ => x end.
Definition args_of (p : Program) : list text := match p with Just _ => [] | WithArgs _ l => l end.

(** [TYPING_SEARCH_DELAY] in nanoseconds. *)
Definition TYPING_SEARCH_DELAY : N := 500000000.
Definition MAX_SEARCH_WHILE_TYPING : option nat := Some 1000.
Definition MAX_SEARCH_HISTORY_SIZE : nat := 255.

(** [str::replace] of a pair of characters. *)
Fixpoint replace_pair (a b by_ : char) (s : text) : text :=
  match s with
  | x :: (y :: rest) as s' =>
      if (x =? a)%N && (y =? b)%N then by_ :: replace_pair a b by_ rest else x :: replace_pair a b by_ s'
  | _ => s
  end.

(** [rfind(' ')] and [truncate] behind it. *)
Fixpoint upto_last_space (s : text) : text :=
  match s with
  | [] => []
  | ch :: s => if bool_decide (32%N ∈ ch :: s) then ch :: upto_last_space s else []
  end.

(** The characters that are escaped when a search is seeded with a text. *)
Definition needs_escape (ch : char) : bool :=
  (ch =? 36)%N || (40 <=? ch)%N && (ch <=? 43)%N || (ch =? 63)%N || (91 <=? ch)%N && (ch <=? 94)%N
  || (123 <=? ch)%N && (ch <=? 125)%N.

(** * [impl ActionContext] *)

Module Actions.
Section ops.
Context `{External} `{Winit} `{RegexCompiler} {W : Type} `{EqDecision W}.
Context (window : W) (clock : nat → N) (clipboard_load : list Effect → ClipboardType → text).
Context (config : UiConfig.t) (rfuel : nat).
Import Context.
#[local] Abbreviation ctx := (Context.t W).
Implicit Types (s : ctx) (d : Direction).

Definition millis (n : N) : N := (n * 1000000)%N.

(** ** Timers *)

Definition timer_id (topic : Topic) : TimerId W := mkTimerId topic window.
Definition schedule (event : EventType) (interval : N) (repeat : bool) (topic : Topic) s : ctx :=
  set_scheduler (Scheduler.schedule clock event interval repeat (timer_id topic) (scheduler s)) s.
Definition unschedule (topic : Topic) s : option (Timer.t EventType W) * ctx :=
  let '(timer, sch) := Scheduler.unschedule (timer_id topic) (scheduler s) in
  (timer, set_scheduler sch s).
Definition scheduled (topic : Topic) s : bool :=
  Scheduler.scheduled (timer_id topic) (scheduler s).
Definition unscheduled (topic : Topic) s : ctx := (unschedule topic s).2.

Definition schedule_blinking s : ctx :=
  schedule BlinkCursorEvent (millis (CursorConfig.blink_interval (UiConfig.cursor config))) true
    BlinkCursor s.

Definition schedule_blinking_timeout s : option ctx :=
  timeout ← CursorConfig.blink_timeout (UiConfig.cursor config);
  Some (if (timeout =? 0)%N then s
        else schedule BlinkCursorTimeoutEvent timeout false BlinkTimeout s).

Definition update_cursor_blinking s : option ctx :=
  let cursor := UiConfig.cursor config in
  let cursor_style :=
    if vi_mode s then default (CursorConfig.style cursor) (CursorConfig.vi_mode_style cursor)
    else CursorConfig.style cursor in
  let terminal_blinking := Cells.blinking (Term.active_cursor_style (terminal s)) in
  let blinking := default terminal_blinking (blinking_override cursor_style) in
  let blinking :=
    blinking && ((vi_mode s || has_mode TermMode.SHOW_CURSOR s)
                 && negb (bool_decide (is_Some (Display.preedit (display s))))) in
  let s := unscheduled BlinkTimeout (unscheduled BlinkCursor s) in
  let s := set_cursor_blink_timed_out false s in
  if blinking && Term.is_focused (terminal s) then
    schedule_blinking_timeout (schedule_blinking s)
  else Some (mark_dirty (upd_display (Display.set_cursor_hidden false) s)).

Definition on_typing_start s : option ctx :=
  let '(timer, s) := unschedule BlinkCursor s in
  s ← (match timer with
       | Some _ =>
           let s := schedule_blinking s in
           Some (if Display.cursor_hidden (display s) then
                   mark_dirty (upd_display (Display.set_cursor_hidden false) s)
                 else s)
       | None =>
           if cursor_blink_timed_out s then update_cursor_blinking s else Some s
       end);
  Some (if UiConfig.hide_when_typing config && Display.mouse_visible (display s) then
          upd_mouse (Mouse.set_hint_highlight_dirty true)
            (upd_display (Display.set_mouse_visible false) s)
        else s).

(** ** Selections and scrolling *)

Definition search_active s : bool :=
  bool_decide (is_Some (SearchState.history_index (search_state s))).
Definition search_direction s : Direction := SearchState.direction (search_state s).

Definition mouse_mode s : bool :=
  Flags.intersects (Term.mode (terminal s)) TermMode.MOUSE_MODE && negb (vi_mode s).

Definition mouse_point s : option Point :=
  Mouse.point (Display.size_info (display s)) (display_offset s) (mouse s).

Definition set_selection (sel : option Selection.t) s : ctx :=
  set_terminal (Term.set_selection sel (terminal s)) s.
Definition set_vi_point (p : Point) s : ctx :=
  set_terminal (Term.set_vi_mode_cursor p (terminal s)) s.

Definition selection_is_empty s : bool :=
  match Term.selection (terminal s) with None => true | Some sel => Selection.is_empty sel end.

Definition copy_selection (ty : ClipboardType) s : option ctx :=
  res ← SelectionText.selection_to_string (terminal s);
  match res with
  | None | Some [] => Some s
  | Some t =>
      let s :=
        if match ty with ClipboardSelection => UiConfig.save_to_clipboard config | Clipboard => false end
        then emit (StoreClipboard Clipboard t) s else s in
      Some (emit (StoreClipboard ty t) s)
  end.

Definition clear_selection s : ctx :=
  let selection := Term.selection (terminal s) in
  let s := set_selection None s in
  match selection with
  | Some sel => set_dirty (dirty s || negb (Selection.is_empty sel)) s
  | None => s
  end.

Definition update_selection (point : Point) (side : Side) s : ctx :=
  match Term.selection (terminal s) with
  | None => s
  | Some selection =>
      let point := Pt (Z.min (line point) (bottommost_line (terminal s))) (column point) in
      let selection := Selection.update point side selection in
      let '(selection, s) :=
        if vi_mode s && negb (search_active s)
        then (Selection.include_all selection, set_vi_point point s) else (selection, s) in
      mark_dirty (set_selection (Some selection) s)
  end.

Definition start_selection (ty : SelectionType) (point : Point) (side : Side) s : option ctx :=
  copy_selection ClipboardSelection
    (mark_dirty (set_selection (Some (Selection.new ty point side)) s)).

Definition toggle_selection (ty : SelectionType) (point : Point) (side : Side) s : option ctx :=
  match Term.selection (terminal s) with
  | Some sel =>
      if Selection.is_empty sel then start_selection ty point side s
      else if bool_decide (Selection.ty sel = ty) then Some (clear_selection s)
      else
        copy_selection ClipboardSelection
          (mark_dirty (set_selection
            (Some (Selection.mk ty (Selection.start sel) (Selection.end_ sel))) s))
  | None => start_selection ty point side s
  end.

Definition scroll (sc : Scroll) s : option ctx :=
  let old_offset := as_i32 (display_offset s) in
  let old_vi_cursor := vi_point s in
  s ← upd_terminal (Term.scroll_display sc) s;
  lines_changed ← i32_sub old_offset (as_i32 (display_offset s));
  s ← (if search_active s then
         delta ← i32_add (SearchState.display_offset_delta (search_state s)) lines_changed;
         Some (upd_search (SearchState.set_display_offset_delta delta) s)
       else Some s);
  let vi := vi_mode s in
  s ← (if vi && negb (selection_is_empty s) then Some (update_selection (vi_point s) Right s)
       else if bool_decide (Mouse.left_button_state (mouse s) = Pressed)
               || bool_decide (Mouse.right_button_state (mouse s) = Pressed) then
         point ← mouse_point s;
         Some (update_selection point (Mouse.cell_side (mouse s)) s)
       else Some s);
  s ← (if vi then on_typing_start s else Some s);
  Some (set_dirty (dirty s || negb (lines_changed =? 0)%Z
                   || vi && negb (bool_decide (old_vi_cursor = vi_point s))) s).

Definition expand_selection s : option ctx :=
  let control := control_key (modifiers s) in
  match Mouse.click_state (mouse s) with
  | NoClick => Some s
  | click =>
      let selection_type :=
        if control then Block
        else match click with DoubleClick => Semantic | TripleClick => Lines | _ => Simple end in
      point ← mouse_point s;
      match Term.selection (terminal s) with
      | None => Some s
      | Some sel =>
          let s := set_selection
            (Some (Selection.mk selection_type (Selection.start sel) (Selection.end_ sel))) s in
          let s := update_selection point (Mouse.cell_side (mouse s)) s in
          Some (if vi_mode s && negb (search_active s) then set_vi_point point s else s)
      end
  end.

(** ** Search *)

Definition vi_goto_point (p : Point) s : option ctx := upd_terminal (Term.vi_goto_point p) s.

Definition search_next (origin : Point) d (side : Side) s : option (option Search.Match * ctx) :=
  match SearchState.dfas (search_state s) with
  | None => Some (None, s)
  | Some dfas =>
      '(m, dfas) ← SearchNext.search_next rfuel origin d side None (terminal s) dfas;
      Some (m, upd_search (SearchState.set_dfas (Some dfas)) s)
  end.

Definition search_reset_state s : option ctx :=
  let s := unscheduled DelayedSearch s in
  let s := upd_search (SearchState.set_focused_match None) s in
  if negb (vi_mode s) then Some s
  else
    let s := set_vi_point (SearchState.origin (search_state s)) s in
    s ← upd_terminal
          (Term.scroll_display (ScrollDelta (SearchState.display_offset_delta (search_state s)))) s;
    Some (mark_dirty (upd_search (SearchState.set_display_offset_delta 0) s)).

Definition goto_match (limit : option nat) s : option ctx :=
  match SearchState.dfas (search_state s) with
  | None => Some s
  | Some dfas =>
      let limit := n ← limit; if n <=? total_lines (terminal s) then Some n else None in
      clamped_origin ←
        Point.grid_clamp (terminal s) BoundaryGrid (SearchState.origin (search_state s));
      '(found, dfas) ←
        SearchNext.search_next rfuel clamped_origin (search_direction s) Left limit (terminal s) dfas;
      let s := upd_search (SearchState.set_dfas (Some dfas)) s in
      s ← (match found with
           | Some regex_match =>
               let old_offset := as_i32 (display_offset s) in
               s ← (if vi_mode s then vi_goto_point regex_match.1 s
                    else upd_terminal (Term.scroll_to_point regex_match.1) s);
               let s := upd_search (SearchState.set_focused_match (Some regex_match)) s in
               moved ← i32_sub old_offset (as_i32 (display_offset s));
               delta ← i32_add (SearchState.display_offset_delta (search_state s)) moved;
               Some (unscheduled DelayedSearch
                       (upd_search (SearchState.set_display_offset_delta delta) s))
           | None =>
               match limit with
               | None => search_reset_state s
               | Some _ =>
                   let s :=
                     if scheduled DelayedSearch s then s
                     else schedule SearchNextEvent TYPING_SEARCH_DELAY false DelayedSearch s in
                   Some (upd_search (SearchState.set_focused_match None) s)
               end
           end);
      Some (mark_dirty s)
  end.

Definition exit_search s : ctx :=
  let s := set_ime_inhibitor ImeInhibitor.VI (vi_mode s) s in
  let s := upd_display (λ x, Display.set_pending_dirty true (Display.mark_fully_damaged x)) s in
  let s := upd_search (SearchState.set_history_index None) s in
  upd_search (SearchState.set_focused_match None) s.

Definition update_search s : option ctx :=
  match SearchState.regex (search_state s) with
  | None => Some s
  | Some regex =>
      let s :=
        if UiConfig.hide_when_typing config then upd_display (Display.set_mouse_visible false) s
        else s in
      s ← (match regex with
           | [] =>
               s ← search_reset_state s;
               Some (upd_search (SearchState.set_dfas None) s)
           | _ =>
               goto_match MAX_SEARCH_WHILE_TYPING
                 (upd_search (SearchState.set_dfas (RegexSearch_new regex)) s)
           end);
      Some (mark_dirty s)
  end.

(** The first part of [start_search]: the entry of the history for the new expression. *)
Definition new_history_entry (history : list text) : list text :=
  if match history with [] => true | regex :: _ => negb (bool_decide (regex = [])) end
  then take MAX_SEARCH_HISTORY_SIZE ([] :: history) else history.

(** The position the search starts from. *)
Definition search_origin d s : option (Point * Z) :=
  let t := terminal s in
  let delta := SearchState.display_offset_delta (search_state s) in
  if vi_mode s then
    let origin := Term.vi_mode_cursor t in
    below ← i32_add (line (Term.cursor_point t)) 1;
    if (below =? as_i32 (screen_lines t))%Z then
      l ← i32_sub (line origin) 1; Some (Pt l (column origin), 0%Z)
    else Some (origin, 0%Z)
  else
    viewport_top ← i32_sub (- as_i32 (display_offset s)) 1;
    viewport_bottom ← i32_add viewport_top (bottommost_line t);
    last_column ← usize_sub (columns t) 1;
    Some (match d with Right => Pt viewport_top 0 | Left => Pt viewport_bottom last_column end, delta).

Definition start_search d s : option ctx :=
  let s := upd_search (λ x,
    SearchState.set_focused_match None (SearchState.set_direction d
      (SearchState.set_history_index (Some 0)
        (SearchState.set_history (new_history_entry (SearchState.history x)) x)))) s in
  '(origin, delta) ← search_origin d s;
  let s := upd_search (λ x,
    SearchState.set_display_offset_delta delta (SearchState.set_origin origin x)) s in
  let s := set_ime_inhibitor ImeInhibitor.VI false s in
  Some (upd_display (λ x, Display.set_pending_dirty true (Display.mark_fully_damaged x)) s).

Definition cancel_search s : option ctx :=
  s ← (if vi_mode s then search_reset_state s
       else
         match SearchState.focused_match (search_state s) with
         | Some (start, end_) =>
             s ← start_selection Simple start Left s;
             copy_selection ClipboardSelection (update_selection end_ Right s)
         | None => Some s
         end);
  Some (exit_search (upd_search (SearchState.set_dfas None) s)).

Definition confirm_search s : option ctx :=
  if negb (vi_mode s) then cancel_search s
  else
    s ← (if scheduled DelayedSearch s then goto_match None s else Some s);
    Some (exit_search s).

(** What a character does to the expression; [None]: it is ignored. *)
Definition edit_regex (ch : char) (regex : text) : option text :=
  if (ch =? 8)%N || (ch =? 127)%N then Some (take (length regex - 1) regex)
  else if (32 <=? ch)%N && (ch <=? 126)%N || (160 <=? ch)%N && (ch <=? 1114111)%N
  then Some (regex ++ [ch])
  else None.

Definition search_input (ch : char) s : option ctx :=
  match SearchState.history_index (search_state s) with
  | None => Some s
  | Some index =>
      let history := SearchState.history (search_state s) in
      s ← (match index with
           | O => Some s
           | _ =>
               regex ← history !! index;
               history ← update_at 0 (λ _, regex) history;
               Some (upd_search (λ x, SearchState.set_history_index (Some 0)
                                        (SearchState.set_history history x)) s)
           end);
      regex ← SearchState.history (search_state s) !! 0;
      match edit_regex ch regex with
      | None => Some s
      | Some regex =>
          history ← update_at 0 (λ _, regex) (SearchState.history (search_state s));
          let s := upd_search (SearchState.set_history history) s in
          let s := if vi_mode s then s else set_selection None s in
          update_search s
      end
  end.

Definition search_pop_word s : option ctx :=
  match SearchState.history_index (search_state s), SearchState.regex (search_state s) with
  | Some index, Some regex =>
      history ← update_at index (λ _, upto_last_space (trim_end regex))
                  (SearchState.history (search_state s));
      update_search (upd_search (SearchState.set_history history) s)
  | _, _ => Some s
  end.

Definition search_history_previous s : option ctx :=
  match SearchState.history_index (search_state s) with
  | None => Some s
  | Some index =>
      if length (SearchState.history (search_state s)) <=? index + 1 then Some s
      else update_search (upd_search (SearchState.set_history_index (Some (index + 1))) s)
  end.

Definition search_history_next s : option ctx :=
  match SearchState.history_index (search_state s) with
  | None | Some 0 => Some s
  | Some index => update_search (upd_search (SearchState.set_history_index (Some (index - 1))) s)
  end.

(** The cell behind a match, or before it. *)
Definition beyond d (m : Search.Match) s : option Point :=
  match d with
  | Right => Point.add (terminal s) BoundaryNone 1 m.2
  | Left => Point.sub (terminal s) BoundaryNone 1 m.1
  end.

Definition advance_search_origin d s : option ctx :=
  s ← (match SearchState.focused_match (search_state s) with
       | Some (start, end_) =>
           new_origin ← beyond d (start, end_) s;
           s ← upd_terminal (Term.scroll_to_point new_origin) s;
           Some (upd_search (λ x, SearchState.set_origin new_origin
                                    (SearchState.set_display_offset_delta 0 x)) s)
       | None => Some s
       end);
  let search_direction := SearchState.direction (search_state s) in
  s ← goto_match None (upd_search (SearchState.set_direction d) s);
  let s := upd_search (SearchState.set_direction search_direction) s in
  match SearchState.focused_match (search_state s) with
  | None => Some s
  | Some (start, end_) =>
      let new_origin := match search_direction with Right => start | Left => end_ end in
      let old_display_offset := as_i32 (display_offset s) in
      s ← upd_terminal (Term.scroll_to_point new_origin) s;
      delta ← i32_sub (as_i32 (display_offset s)) old_display_offset;
      let s := upd_search (SearchState.set_display_offset_delta delta) s in
      back ← i32_sub 0 delta;
      s ← upd_terminal (Term.scroll_display (ScrollDelta back)) s;
      Some (upd_search (SearchState.set_origin new_origin) s)
  end.

(** The target of the cursor: from the next match on. *)
Definition seeded_target d (origin : Point) s : option (option Point * ctx) :=
  '(found, s) ← search_next origin Right Right s;
  match found with
  | None => Some (None, s)
  | Some rm =>
      origin ← beyond d rm s;
      '(target, s) ← search_next origin d Left s;
      Some (option_map fst target, s)
  end.

Definition start_seeded_search d (t : text) s : option ctx :=
  let origin := vi_point s in
  s ← start_search d (clear_selection s);
  s ← foldM (λ ch s,
        s ← (if needs_escape ch then search_input 92%N s else Some s);
        search_input ch s) t s;
  s ← confirm_search s;
  if negb (vi_mode s) then Some s
  else
    '(target, s) ← seeded_target d origin s;
    match target with
    | Some target => s ← vi_goto_point target s; Some (mark_dirty s)
    | None => Some s
    end.

(** ** Inline search *)

Definition start_inline_search d (stop_short : bool) s : ctx :=
  upd_inline (λ _, InlineSearchState.mk true None d stop_short) s.

Definition inline_search d s : option ctx :=
  match InlineSearchState.character (inline_search_state s) with
  | None => Some s
  | Some c =>
      let t := terminal s in
      point ← (match d with
               | Right => Search.inline_search_right (vi_point s) [c] t
               | Left => Search.inline_search_left (vi_point s) [c] t
               end);
      match point with
      | inr _ => Some s
      | inl point =>
          point ← (if InlineSearchState.stop_short (inline_search_state s) then
                     let it := Grid.iter_from point (Term.grid t) in
                     '(item, _) ← (match d with
                                   | Right => Grid.GridIterator.prev (Term.grid t) it
                                   | Left => Grid.GridIterator.next (Term.grid t) it
                                   end);
                     Some (default point (fst <$> item))
                   else Some point);
          s ← vi_goto_point point s;
          Some (mark_dirty s)
      end
  end.

Definition inline_search_next s : option ctx :=
  inline_search (InlineSearchState.inline_direction (inline_search_state s)) s.
Definition inline_search_previous s : option ctx :=
  inline_search (Direction.opposite (InlineSearchState.inline_direction (inline_search_state s))) s.

Definition inline_search_input (t : text) s : option ctx :=
  match t with
  | [] => Some s
  | c :: _ =>
      let s := upd_inline (λ x, InlineSearchState.set_character (Some c)
                                  (InlineSearchState.set_char_pending false x)) s in
      inline_search_next (set_ime_inhibitor ImeInhibitor.VI true s)
  end.

(** ** Text for the terminal *)

Definition on_terminal_input_start s : option ctx :=
  s ← on_typing_start s;
  let s := clear_selection s in
  if display_offset s =? 0 then Some s else scroll Bottom s.

Definition to_bytes (t : text) : list N := concat (encode_utf8 <$> t).

(** The text of a paste that is not bracketed. *)
Definition paste_payload (bracketed : bool) (t : text) : text :=
  if bracketed then (λ ch, if (ch =? 10)%N then 13%N else ch) <$> replace_pair 13 10 13 t else t.
(** The text of a bracketed paste, without escape characters and ^C. *)
Definition paste_filtered (t : text) : text := filter (λ ch, ch ≠ 27%N ∧ ch ≠ 3%N) t.

Definition BRACKETED_PASTE_START : list N := [27; 91; 50; 48; 48; 126]%N.
Definition BRACKETED_PASTE_END : list N := [27; 91; 50; 48; 49; 126]%N.

Definition paste (t : text) (bracketed : bool) s : option ctx :=
  if search_active s then foldM search_input t s
  else if InlineSearchState.char_pending (inline_search_state s) then inline_search_input t s
  else if bracketed && has_mode TermMode.BRACKETED_PASTE s then
    s ← on_terminal_input_start s;
    let s := write_to_pty BRACKETED_PASTE_START s in
    let s := write_to_pty (to_bytes (paste_filtered t)) s in
    Some (write_to_pty BRACKETED_PASTE_END s)
  else
    s ← on_terminal_input_start s;
    Some (write_to_pty (to_bytes (paste_payload bracketed t)) s).

Definition spawn_daemon (program : text) (args : list text) s : ctx := emit (SpawnDaemon program args) s.

Definition pop_message s : ctx :=
  if MessageBuffer.is_empty (message_buffer s) then s
  else set_message_buffer (MessageBuffer.pop (message_buffer s))
         (upd_display (Display.set_pending_dirty true) s).

Definition toggle_vi_mode s : option ctx :=
  let was_in_vi_mode := vi_mode s in
  let s :=
    if was_in_vi_mode then
      match SearchState.dfas (search_state s) with
      | Some _ => upd_display Display.mark_fully_damaged (upd_search (SearchState.set_dfas None) s)
      | None => s
      end
    else clear_selection s in
  s ← (if search_active s then cancel_search s else Some s);
  let s := set_ime_inhibitor ImeInhibitor.VI (negb was_in_vi_mode) s in
  s ← upd_terminal Term.toggle_vi_mode s;
  Some (mark_dirty s).

(** ** Hints *)

Definition trigger_hint (hint : HintMatch.t) s : option ctx :=
  if Mouse.block_hint_launcher (mouse s) then Some s
  else
    '(t, _) ← hint_text rfuel (terminal s) hint;
    match t with
    | None => Some s
    | Some t =>
        let bounds := HintMatch.bounds hint in
        match HintMatch.action hint with
        | HintCommand command => Some (spawn_daemon (program_of command) (args_of command ++ [t]) s)
        | HintActionInternal HintCopy => Some (emit (StoreClipboard Clipboard t) s)
        | HintActionInternal HintPaste => paste t true s
        | HintActionInternal HintSelect =>
            s ← start_selection Simple bounds.1 Left s;
            copy_selection ClipboardSelection (update_selection bounds.2 Right s)
        | HintActionInternal HintMoveViModeCursor =>
            s ← (if vi_mode s then Some s else upd_terminal Term.toggle_vi_mode s);
            s ← vi_goto_point bounds.1 s;
            Some (mark_dirty s)
        end
    end.

Definition hint_input (ch : char) s : option ctx :=
  '(hint, hs) ← HintState.keyboard_input rfuel (terminal s) ch (Display.hint_state (display s));
  let s := upd_display (Display.set_hint_state hs) s in
  s ← (match hint with
       | Some hint => trigger_hint hint (upd_mouse (Mouse.set_block_hint_launcher false) s)
       | None => Some s
       end);
  Some (mark_dirty s).

(** ** The word under the cursor *)

Fixpoint skip_escape_chars (fuel : nat) (search_end end_ : Point) s : option (option Point) :=
  match fuel with
  | O => None
  | S fuel =>
      let t := terminal s in
      cell ← Grid.index_point end_ (Term.grid t);
      c ← (if Flags.contains (flags cell) Flags.WIDE_CHAR_SPACER then
             p ← Point.sub t BoundaryNone 1 end_;
             cell ← Grid.index_point p (Term.grid t); Some (c cell)
           else Some (c cell));
      if negb (bool_decide (c ∈ Config.semantic_escape_chars (Term.config t))) then Some (Some end_)
      else
        p ← Point.add t BoundaryNone 1 end_;
        end_ ← Search.semantic_search_right p t;
        if bool_decide (end_ = search_end) then Some None
        else skip_escape_chars fuel search_end end_ s
  end.

Definition semantic_word (point : Point) s : option text :=
  let t := terminal s in
  end_ ← Search.semantic_search_right point t;
  start_cell ← Grid.index_point point (Term.grid t);
  search_end ←
    (if Flags.intersects (flags start_cell) Flags.LEADING_WIDE_CHAR_SPACER
     then Point.add t BoundaryNone 2 point
     else if Flags.intersects (flags start_cell) Flags.WIDE_CHAR
     then Point.add t BoundaryNone 1 point else Some point);
  end_ ← skip_escape_chars rfuel search_end end_ s;
  match end_ with
  | None => Some []
  | Some end_ =>
      start ← Search.semantic_search_left end_ t;
      Term.bounds_to_string start end_ t
  end.
End ops.
End Actions.
