(* ===== verification/Inputs.v ===== *)
(** The processing of input ([cutty/src/input/mod.rs]) and of events ([handle_event] in
    [cutty/src/event.rs]): actions, mouse buttons, motion and the wheel, focus, and the events the
    terminal and the timers send.

    Positions of the mouse and distances to scroll are whole pixels, lines and columns, on which the
    arithmetic of [f64] is exact. *)
From S2P Require Import Prelude Index Cells TermData Grids Terms Handlers Searches ViModes Selections Keys Bindings Schedulers FrameDamages Hints Messages Mice Contexts Actions.
#[local] Open Scope nat_scope.

(** [winit::event::MouseScrollDelta]. *)
Inductive MouseScrollDelta := LineDelta (columns lines : Z) | PixelDelta (x y : Z).

Module Inputs.
Section ops.
Context `{External} `{Winit} `{RegexCompiler} {W : Type} `{EqDecision W}.
Context (window : W) (clock : nat → N) (clipboard_load : list Effect → ClipboardType → text).
Context (config : UiConfig.t) (rfuel : nat).
Import Context.
#[local] Abbreviation ctx := (Context.t W).
#[local] Abbreviation on_typing_start := (Actions.on_typing_start window clock config).
#[local] Abbreviation copy_selection := (Actions.copy_selection config).
#[local] Abbreviation scroll := (Actions.scroll window clock config).
#[local] Abbreviation paste := (Actions.paste window clock config rfuel).
#[local] Abbreviation trigger_hint := (Actions.trigger_hint window clock config rfuel).
#[local] Abbreviation search_next := (Actions.search_next rfuel).
#[local] Abbreviation start_selection := (Actions.start_selection config).
Implicit Types (s : ctx).

(** * [Action::execute] *)

(** [Action::toggle_selection]. *)
Definition toggle_selection_action (ty : SelectionType) s : option ctx :=
  s ← Actions.toggle_selection config ty (vi_point s) Left s;
  Some (match Term.selection (terminal s) with
        | Some selection => Actions.set_selection (Some (Selection.include_all selection)) s
        | None => s
        end).

(** Going to the next match from beside the vi mode cursor; [pick] is its start or its end. *)
Definition goto_next_match (step d : Direction) (side : Side) (pick : Search.Match → Point) s :
    option ctx :=
  let t := terminal s in
  origin ← (match step with
            | Right => Point.add t BoundaryNone 1 (vi_point s)
            | Left => Point.sub t BoundaryNone 1 (vi_point s)
            end);
  '(found, s) ← search_next origin d side s;
  match found with
  | Some regex_match => s ← Actions.vi_goto_point (pick regex_match) s; Some (mark_dirty s)
  | None => Some s
  end.

Definition start_hint (h : Hint) s : ctx :=
  let regex := option_map LazyRegex.Pattern (hint_regex (hint_content h)) in
  mark_dirty (upd_display (λ x,
    Display.set_hint_state (HintState.start h regex (Display.hint_state x)) x) s).

Definition execute_vi (a : ViAction.t) s : option ctx :=
  match a with
  | ViAction.ToggleNormalSelection => toggle_selection_action Simple s
  | ViAction.ToggleLineSelection => toggle_selection_action Lines s
  | ViAction.ToggleBlockSelection => toggle_selection_action Block s
  | ViAction.ToggleSemanticSelection => toggle_selection_action Semantic s
  | ViAction.Open =>
      let hint := Display.vi_highlighted_hint (display s) in
      let s := upd_display (Display.set_vi_highlighted_hint None) s in
      s ← (match hint with
           | Some hint => trigger_hint hint (upd_mouse (Mouse.set_block_hint_launcher false) s)
           | None => Some s
           end);
      Some (upd_display (Display.set_vi_highlighted_hint hint) s)
  | ViAction.SearchNext =>
      s ← on_typing_start s;
      let d := Actions.search_direction s in goto_next_match d d Left fst s
  | ViAction.SearchPrevious =>
      s ← on_typing_start s;
      let d := Direction.opposite (Actions.search_direction s) in goto_next_match d d Left fst s
  | ViAction.SearchStart => goto_next_match Left Left Left fst s
  | ViAction.SearchEnd => goto_next_match Right Right Right snd s
  | ViAction.CenterAroundViCursor =>
      middle ← i32_sub (- as_i32 (display_offset s) + as_i32 (screen_lines (terminal s)) ÷ 2) 1;
      scroll_lines ← i32_sub middle (line (vi_point s));
      scroll (ScrollDelta scroll_lines) s
  | ViAction.InlineSearchForward => Some (Actions.start_inline_search Right false s)
  | ViAction.InlineSearchBackward => Some (Actions.start_inline_search Left false s)
  | ViAction.InlineSearchForwardShort => Some (Actions.start_inline_search Right true s)
  | ViAction.InlineSearchBackwardShort => Some (Actions.start_inline_search Left true s)
  | ViAction.InlineSearchNext => Actions.inline_search_next s
  | ViAction.InlineSearchPrevious => Actions.inline_search_previous s
  | ViAction.SemanticSearchForward | ViAction.SemanticSearchBackward =>
      selection ← SelectionText.selection_to_string (terminal s);
      seed_text ← (match selection with
                   | None | Some [] => Actions.semantic_word rfuel (vi_point s) s
                   | Some selection => Some selection
                   end);
      match seed_text with
      | [] => Some s
      | _ =>
          let d := match a with ViAction.SemanticSearchForward => Right | _ => Left end in
          Actions.start_seeded_search window clock config rfuel d seed_text s
      end
  end.

Definition execute_search (a : SearchAction.t) s : option ctx :=
  match a with
  | SearchAction.SearchFocusNext =>
      Actions.advance_search_origin window clock rfuel (Actions.search_direction s) s
  | SearchAction.SearchFocusPrevious =>
      Actions.advance_search_origin window clock rfuel
        (Direction.opposite (Actions.search_direction s)) s
  | SearchAction.SearchConfirm => Actions.confirm_search window clock config rfuel s
  | SearchAction.SearchCancel => Actions.cancel_search window config s
  | SearchAction.SearchClear =>
      let direction := Actions.search_direction s in
      s ← Actions.cancel_search window config s;
      Actions.start_search direction s
  | SearchAction.SearchDeleteWord => Actions.search_pop_word window clock config rfuel s
  | SearchAction.SearchHistoryPrevious =>
      Actions.search_history_previous window clock config rfuel s
  | SearchAction.SearchHistoryNext => Actions.search_history_next window clock config rfuel s
  end.

(** The scrolling by pages: [amount] is how far the vi mode cursor moves. *)
Definition scroll_page (sc : Scroll) (amount : Z) s : option ctx :=
  let old_vi_cursor := vi_point s in
  p ← Vi.scroll (terminal s) amount old_vi_cursor;
  let s := Actions.set_vi_point p s in
  let s := if bool_decide (old_vi_cursor = p) then s else mark_dirty s in
  scroll sc s.

Definition vi_motion (m : ViMotion) s : option ctx := upd_terminal (Vi.vi_motion m) s.
Definition call (c : WindowCall) s : ctx := emit (Window c) s.

(** The actions of the window system; some exist on one platform only. *)
Definition execute_window (a : Action.t) s : ctx :=
  let mac := bool_decide (UiConfig.platform config = MacOS) in
  let on_mac (c : WindowCall) := if mac then call c s else s in
  match a with
  | Action.ToggleFullscreen => call ToggleFullscreenCall s
  | Action.ToggleMaximized => call ToggleMaximizedCall s
  | Action.ToggleSimpleFullscreen => on_mac ToggleSimpleFullscreenCall
  | Action.Hide => call (if mac then HideApplicationCall else SetInvisibleCall) s
  | Action.HideOtherApplications => on_mac HideOtherApplicationsCall
  | Action.Minimize => call MinimizeCall s
  | Action.IncreaseFontSize => emit (ChangeFontSize 1) s
  | Action.DecreaseFontSize => emit (ChangeFontSize (-1)) s
  | Action.ResetFontSize => emit ResetFontSizeEffect s
  | Action.CreateNewWindow => call CreateNewWindowCall s
  | Action.SpawnNewInstance => emit SpawnNewInstanceEffect s
  | Action.CreateNewTab => if UiConfig.no_decorations config then s else on_mac CreateNewTabCall
  | Action.SelectNextTab => on_mac SelectNextTabCall
  | Action.SelectPreviousTab => on_mac SelectPreviousTabCall
  | Action.SelectTab1 => on_mac (SelectTabCall 0)
  | Action.SelectTab2 => on_mac (SelectTabCall 1)
  | Action.SelectTab3 => on_mac (SelectTabCall 2)
  | Action.SelectTab4 => on_mac (SelectTabCall 3)
  | Action.SelectTab5 => on_mac (SelectTabCall 4)
  | Action.SelectTab6 => on_mac (SelectTabCall 5)
  | Action.SelectTab7 => on_mac (SelectTabCall 6)
  | Action.SelectTab8 => on_mac (SelectTabCall 7)
  | Action.SelectTab9 => on_mac (SelectTabCall 8)
  | Action.SelectLastTab => on_mac SelectLastTabCall
  | _ => s
  end.

Definition execute (a : Action.t) s : option ctx :=
  match a with
  | Action.Esc t => paste t false s
  | Action.Command program =>
      Some (Actions.spawn_daemon (program_of program) (args_of program) s)
  | Action.Hint h => Some (start_hint h s)
  | Action.ToggleViMode => s ← on_typing_start s; Actions.toggle_vi_mode window config s
  | Action.ViMotion m =>
      if negb (vi_mode s) then Some s
      else s ← on_typing_start s; s ← vi_motion m s; Some (mark_dirty s)
  | Action.Vi a => if negb (vi_mode s) then Some s else execute_vi a s
  | Action.Search a => if negb (Actions.search_active s) then Some s else execute_search a s
  | Action.Mouse MouseAction.ExpandSelection => Actions.expand_selection s
  | Action.SearchForward => Actions.start_search Right s
  | Action.SearchBackward => Actions.start_search Left s
  | Action.Copy => copy_selection Clipboard s
  | Action.CopySelection =>
      if bool_decide (UiConfig.platform config = Unix) then copy_selection ClipboardSelection s
      else Some s
  | Action.ClearSelection => Some (Actions.clear_selection s)
  | Action.Paste => paste (clipboard_load (effects s) Clipboard) true s
  | Action.PasteSelection => paste (clipboard_load (effects s) ClipboardSelection) true s
  | Action.Quit =>
      Some (set_terminal (Term.exit (terminal s)) (upd_display (Display.set_hold false) s))
  | Action.ScrollPageUp => scroll_page PageUp (as_i32 (screen_lines (terminal s))) s
  | Action.ScrollPageDown => scroll_page PageDown (- as_i32 (screen_lines (terminal s))) s
  | Action.ScrollHalfPageUp =>
      let amount := (as_i32 (screen_lines (terminal s)) ÷ 2)%Z in
      scroll_page (ScrollDelta amount) amount s
  | Action.ScrollHalfPageDown =>
      let amount := (- (as_i32 (screen_lines (terminal s)) ÷ 2))%Z in
      scroll_page (ScrollDelta amount) amount s
  | Action.ScrollLineUp => scroll (ScrollDelta 1) s
  | Action.ScrollLineDown => scroll (ScrollDelta (-1)) s
  | Action.ScrollToTop =>
      s ← scroll Top s;
      let s := Actions.set_vi_point (Pt (topmost_line (terminal s)) (column (vi_point s))) s in
      s ← vi_motion FirstOccupied s;
      Some (mark_dirty s)
  | Action.ScrollToBottom =>
      s ← scroll Bottom s;
      let s := Actions.set_vi_point (Pt (bottommost_line (terminal s)) (column (vi_point s))) s in
      s ← vi_motion FirstOccupied s;
      s ← vi_motion FirstOccupied s;
      Some (mark_dirty s)
  | Action.ClearHistory => upd_terminal (Handler.clear_screen ClearSaved) s
  | Action.ClearLogNotice => Some (Actions.pop_message s)
  | a => Some (execute_window a s)
  end.
(** * The mouse *)

(** [mouse_report], with the cell under the mouse. *)
Definition mouse_report (button : N) (state : ElementState) s : option ctx :=
  point ← Actions.mouse_point s;
  report ← MouseReport.mouse_report (Term.mode (terminal s)) (modifiers s) point button state;
  Some (match report with Some bytes => write_to_pty bytes s | None => s end).

Definition button_code (b : MouseButton.t) : option N :=
  match b with
  | MouseButton.Left => Some 0%N
  | MouseButton.Middle => Some 1%N
  | MouseButton.Right => Some 2%N
  | _ => None
  end.

Definition run_mouse_binding (mode : N) (mods : ModifiersState) (event : MouseEvent.t)
    (allowed : bool) (b : MouseBinding) (st : bool * ctx) : option (bool * ctx) :=
  if Binding.is_triggered_by b mode mods event && allowed then
    s ← execute (action b) st.2; Some (true, s)
  else Some st.

(** [process_mouse_bindings]. *)
Definition process_mouse_bindings (event : MouseEvent.t) s : option (bool * ctx) :=
  let mode := BindingMode.new (Term.mode (terminal s)) (Actions.search_active s) in
  let mouse_mode := Actions.mouse_mode s in
  let mods := modifiers s in
  let bindings := UiConfig.mouse_bindings config in
  let fallback_allowed := mouse_mode && shift_key mods in
  st ← foldM (run_mouse_binding mode mods event (fallback_allowed || negb mouse_mode)) bindings
         (false, s);
  if fallback_allowed && negb st.1 then
    foldM (run_mouse_binding mode (ModifiersState.difference mods ModifiersState.SHIFT) event true)
      bindings st
  else Some st.

Definition on_left_click (point : Point) s : option ctx :=
  let side := Mouse.cell_side (mouse s) in
  let control := control_key (modifiers s) in
  let block b := upd_mouse (Mouse.set_block_hint_launcher b) in
  s ← (match Mouse.click_state (mouse s) with
       | Click =>
           let s := block (negb (Actions.selection_is_empty s)) s in
           start_selection (if control then Block else Simple) point side (Actions.clear_selection s)
       | DoubleClick =>
           if control then Some s else start_selection Semantic point side (block true s)
       | TripleClick =>
           if control then Some s else start_selection Lines point side (block true s)
       | NoClick => Some s
       end);
  Some (if vi_mode s && negb (Actions.search_active s)
        then mark_dirty (Actions.set_vi_point point s) else s).

(** 400 ms. *)
Definition CLICK_THRESHOLD : N := 400000000.

Definition next_click (button : MouseButton.t) (elapsed : N) (m : Mouse.t) : ClickState :=
  if negb (bool_decide (button = Mouse.last_click_button m)) then Click
  else
    match Mouse.click_state m with
    | Click => if (elapsed <? CLICK_THRESHOLD)%N then DoubleClick else Click
    | DoubleClick => if (elapsed <? CLICK_THRESHOLD)%N then TripleClick else Click
    | _ => Click
    end.

Definition on_mouse_press (button : MouseButton.t) s : option ctx :=
  if negb (shift_key (modifiers s)) && Actions.mouse_mode s then
    let s := upd_mouse (Mouse.set_click_state NoClick) s in
    match button_code button with
    | Some code => mouse_report code Pressed s
    | None => Some s
    end
  else
    let '(now, sch) := Scheduler.now clock (scheduler s) in
    let s := set_scheduler sch s in
    let elapsed := (now - Mouse.last_click_timestamp (mouse s))%N in
    let click := next_click button elapsed (mouse s) in
    let s := upd_mouse (Mouse.set_click now button click) s in
    point ← Actions.mouse_point s;
    match button with MouseButton.Left => on_left_click point s | _ => Some s end.

Definition on_mouse_release (button : MouseButton.t) s : option ctx :=
  if negb (shift_key (modifiers s)) && Actions.mouse_mode s then
    match button_code button with
    | Some code => mouse_report code Released s
    | None => Some s
    end
  else
    let hint := Display.highlighted_hint (display s) in
    let s := upd_display (Display.set_highlighted_hint None) s in
    s ← (match hint, button with
         | Some hint, MouseButton.Left => trigger_hint hint s
         | _, _ => Some s
         end);
    let s := upd_display (Display.set_highlighted_hint hint) s in
    let s := Actions.unscheduled window SelectionScrolling s in
    match button with
    | MouseButton.Left | MouseButton.Right => copy_selection ClipboardSelection s
    | _ => Some s
    end.

(** The number of lines the current message takes. *)
Definition message_lines s : option nat :=
  match MessageBuffer.message (message_buffer s) with
  | None => Some 0
  | Some m =>
      let size := Display.size_info (display s) in
      total_lines ← Mouse.div_size
        (Z.to_nat (SizeInfo.height size - 2 * SizeInfo.padding_y size)) (SizeInfo.cell_height size);
      ls ← Message.text_lines (SizeInfo.columns size) total_lines m;
      Some (length ls)
  end.

Definition message_bar_cursor_state s : option (option CursorIcon) :=
  let search_height := if Actions.search_active s then 1 else 0 in
  let size := Display.size_info (display s) in
  let cell_height := Z.to_nat (SizeInfo.cell_height size) in
  let terminal_end :=
    Z.to_nat (SizeInfo.padding_y size) + cell_height * (SizeInfo.screen_lines size + search_height) in
  let y := Mouse.y (mouse s) in
  point ← Actions.mouse_point s;
  Some (if MessageBuffer.is_empty (message_buffer s) || (y <=? terminal_end) then None
        else if (y <=? terminal_end + cell_height)
                && (SizeInfo.columns size <=? column point + length CLOSE_BUTTON_TEXT)
        then Some IconPointer else Some IconDefault).

Definition cursor_state s : option CursorIcon :=
  point ← Actions.mouse_point s;
  cell ← Grid.index_point point (Term.grid (terminal s));
  let hyperlink := Cell.hyperlink cell in
  message_bar ← message_bar_cursor_state s;
  Some (match message_bar with
        | Some icon => icon
        | None =>
            if match Display.highlighted_hint (display s) with
               | Some hint => HintMatch.should_highlight hint point hyperlink
               | None => false
               end then IconPointer
            else if negb (shift_key (modifiers s)) && Actions.mouse_mode s then IconDefault
            else IconText
        end).

Definition reset_mouse_cursor s : option ctx :=
  icon ← cursor_state s; Some (upd_display (Display.set_mouse_cursor icon) s).

(** The modifiers, and whether the left and the right alt key are pressed. *)
Definition modifiers_input (m : ModifiersState) (alt : bool * bool) s : option ctx :=
  reset_mouse_cursor
    (upd_mouse (Mouse.set_hint_highlight_dirty true) (set_alt_pressed alt (set_modifiers m s))).

Definition set_button_state (button : MouseButton.t) (state : ElementState) s : ctx :=
  match button with
  | MouseButton.Left => upd_mouse (Mouse.set_left_button_state state) s
  | MouseButton.Middle => upd_mouse (Mouse.set_middle_button_state state) s
  | MouseButton.Right => upd_mouse (Mouse.set_right_button_state state) s
  | _ => s
  end.

Definition mouse_input (state : ElementState) (button : MouseButton.t) s : option ctx :=
  let s := set_button_state button state s in
  bar ← message_bar_cursor_state s;
  if bool_decide (bar = Some IconPointer) && bool_decide (state = Pressed) then
    current_lines ← message_lines s;
    let s := Actions.pop_message (Actions.clear_selection s) in
    new_lines ← message_lines s;
    let new_icon :=
      match Nat.compare current_lines new_lines with
      | Datatypes.Lt => IconDefault
      | Datatypes.Eq => IconPointer
      | Datatypes.Gt => if Actions.mouse_mode s then IconDefault else IconText
      end in
    Some (upd_display (Display.set_mouse_cursor new_icon) s)
  else
    match state with
    | Pressed =>
        s ← on_mouse_press button s;
        '(_, s) ← process_mouse_bindings (MouseEvent.Button button) s;
        Some s
    | Released => on_mouse_release button s
    end.

(** ** Motion *)

(** 15 ms. *)
Definition SELECTION_SCROLLING_INTERVAL : N := 15000000.

(** [min_height] and [step] are the constants scaled by the factor of the window. *)
Definition update_selection_scrolling (min_height step mouse_y : Z) s : option ctx :=
  let size := Display.size_info (display s) in
  let end_top := Z.max min_height (SizeInfo.padding_y size) in
  let text_area_bottom :=
    (SizeInfo.padding_y size
     + Z.of_nat (SizeInfo.screen_lines size) * SizeInfo.cell_height size)%Z in
  height ← i32_sub (SizeInfo.height size) min_height;
  let start_bottom := Z.min height text_area_bottom in
  if (mouse_y <? end_top)%Z || (start_bottom <=? mouse_y)%Z then
    delta ← (if (mouse_y <? end_top)%Z
             then x ← i32_sub end_top mouse_y; i32_add x step
             else x ← i32_sub start_bottom mouse_y; i32_sub x step);
    _ ← ensure (negb (step =? 0)%Z);
    Some (Actions.schedule window clock (ScrollEvent (ScrollDelta (delta ÷ step)%Z))
            SELECTION_SCROLLING_INTERVAL true SelectionScrolling
            (Actions.unscheduled window SelectionScrolling s))
  else Some (Actions.unscheduled window SelectionScrolling s).

(** [i32::clamp] panics when the bounds are not in order. *)
Definition clamp (x lo hi : Z) : option Z :=
  if (lo <=? hi)%Z then Some (Z.max lo (Z.min x hi)) else None.

Definition report_motion s : option ctx :=
  let mode := Term.mode (terminal s) in
  if bool_decide (Mouse.left_button_state (mouse s) = Pressed) then mouse_report 32 Pressed s
  else if bool_decide (Mouse.middle_button_state (mouse s) = Pressed) then mouse_report 33 Pressed s
  else if bool_decide (Mouse.right_button_state (mouse s) = Pressed) then mouse_report 34 Pressed s
  else if TermMode.contains mode TermMode.MOUSE_MOTION then mouse_report 35 Pressed s
  else Some s.

Definition mouse_moved (min_height step : Z) (x y : Z) s : option ctx :=
  let size_info := Display.size_info (display s) in
  let pressed :=
    bool_decide (Mouse.left_button_state (mouse s) = Pressed)
    || bool_decide (Mouse.right_button_state (mouse s) = Pressed) in
  s ← (if negb (Actions.selection_is_empty s) && pressed
       then update_selection_scrolling min_height step y s else Some s);
  old_point ← Actions.mouse_point s;
  x ← clamp x 0 (SizeInfo.width size_info - 1);
  y ← clamp y 0 (SizeInfo.height size_info - 1);
  let s := upd_mouse (Mouse.set_position (Z.to_nat x) (Z.to_nat y)) s in
  let inside_text_area := contains_point size_info (Z.to_nat x) (Z.to_nat y) in
  side ← cell_side size_info (Z.to_nat x);
  point ← Actions.mouse_point s;
  let cell_changed := negb (bool_decide (old_point = point)) in
  if negb cell_changed && bool_decide (Mouse.cell_side (mouse s) = side)
     && Bool.eqb (Mouse.inside_text_area (mouse s)) inside_text_area
  then Some s
  else
    let s := upd_mouse (λ m, Mouse.set_cell_side side (Mouse.set_inside_text_area inside_text_area m)) s in
    s ← reset_mouse_cursor s;
    let s := upd_mouse (λ m, Mouse.set_block_hint_launcher true
                               (Mouse.set_hint_highlight_dirty true m)) s in
    if pressed && (shift_key (modifiers s) || negb (Actions.mouse_mode s)) then
      Some (Actions.update_selection point side s)
    else if cell_changed
            && Flags.intersects (Term.mode (terminal s))
                 (N.lor TermMode.MOUSE_MOTION TermMode.MOUSE_DRAG)
    then report_motion s
    else Some s.

(** ** The wheel *)

Definition repeated (n : nat) (bytes : list N) : list N := concat (replicate n bytes).

Fixpoint repeatM (n : nat) (f : ctx → option ctx) s : option ctx :=
  match n with O => Some s | S n => s ← f s; repeatM n f s end.

(** What [scroll_terminal] does once the lines and columns to scroll are known. *)
Definition scroll_cells (lines columns : nat) (is_scroll_up is_scroll_left : bool) s : option ctx :=
  let event := if is_scroll_up then MouseEvent.WheelUp else MouseEvent.WheelDown in
  '(bound, s) ← (if lines =? 0 then Some (false, s) else process_mouse_bindings event s);
  if bound : bool then
    repeatM (lines - 1) (λ s, '(_, s) ← process_mouse_bindings event s; Some s) s
  else if Actions.mouse_mode s then
    s ← repeatM lines (mouse_report (if is_scroll_up then 64 else 65) Pressed) s;
    repeatM columns (mouse_report (if is_scroll_left then 66 else 67) Pressed) s
  else if TermMode.contains (Term.mode (terminal s))
            (N.lor TermMode.ALT_SCREEN TermMode.ALTERNATE_SCROLL)
          && negb (shift_key (modifiers s)) then
    let line_cmd := (if is_scroll_up then 65 else 66)%N in
    let column_cmd := (if is_scroll_left then 68 else 67)%N in
    Some (write_to_pty (repeated lines [27; 79; line_cmd]%N ++ repeated columns [27; 79; column_cmd]%N) s)
  else if lines =? 0 then Some s
  else
    let n := as_i32 lines in
    scroll (ScrollDelta (if is_scroll_up then n else (- n)%Z)) s.

(** [acc / size] and [acc %= size] of the scrolling [acc] accumulated in pixels. *)
Definition scrolled_cells (acc size : Z) : nat := Z.to_nat (Z.abs (acc ÷ size)).

(** The size of a cell is at least one pixel. *)
Definition scroll_terminal (new_scroll_x_px new_scroll_y_px multiplier : Z) s : option ctx :=
  let size := Display.size_info (display s) in
  let width := SizeInfo.cell_width size in
  let height := SizeInfo.cell_height size in
  _ ← ensure ((0 <? width)%Z && (0 <? height)%Z);
  let multiplier := if Actions.mouse_mode s then 1%Z else multiplier in
  let s := upd_mouse (λ m, Mouse.set_accumulated_scroll
    ((Mouse.accumulated_scroll m).1 + new_scroll_x_px * multiplier,
     (Mouse.accumulated_scroll m).2 + new_scroll_y_px * multiplier)%Z m) s in
  let lines := scrolled_cells (Mouse.accumulated_scroll (mouse s)).2 height in
  let columns := scrolled_cells (Mouse.accumulated_scroll (mouse s)).1 width in
  s ← scroll_cells lines columns (0 <? new_scroll_y_px)%Z (0 <? new_scroll_x_px)%Z s;
  Some (upd_mouse (λ m, Mouse.set_accumulated_scroll
    (Z.rem (Mouse.accumulated_scroll m).1 width, Z.rem (Mouse.accumulated_scroll m).2 height) m) s).

(** [x.abs() / x.hypot(y) > 0.9]; both zero give a NaN, which is not larger. *)
Definition is_horizontal (x y : Z) : bool := (81 * (x * x + y * y) <? 100 * (x * x))%Z.

Definition mouse_wheel_input (delta : MouseScrollDelta) (phase : TouchPhase) s : option ctx :=
  let size := Display.size_info (display s) in
  let multiplier := Z.of_N (UiConfig.multiplier config) in
  match delta with
  | LineDelta columns lines =>
      scroll_terminal (columns * SizeInfo.cell_width size)%Z (lines * SizeInfo.cell_height size)%Z
        multiplier s
  | PixelDelta x y =>
      match phase with
      | PhaseStarted => Some (upd_mouse (Mouse.set_accumulated_scroll (0, 0)%Z) s)
      | PhaseMoved =>
          if is_horizontal x y then scroll_terminal x 0 multiplier s
          else scroll_terminal 0 y multiplier s
      | _ => Some s
      end
  end.

Definition on_focus_change (is_focused : bool) s : ctx :=
  match MouseReport.focus_report (Term.mode (terminal s)) is_focused with
  | Some bytes => write_to_pty bytes s
  | None => s
  end.
End ops.
End Inputs.
