(* ===== verification/Touches.v ===== *)
(** Touch input ([touch] and the functions below it in [cutty/src/input/mod.rs], [TouchPurpose] in
    [cutty/src/event.rs]): what the fingers on the screen mean, simulated mouse input, scrolling and
    zooming.

    Locations are whole pixels.  What a zoom makes of the size of the font is outside of the model:
    its effect carries the positions of the fingers before and after the motion. *)
From stdpp Require Import gmap.
From S2P Require Import Prelude Index Cells TermData Grids Terms Handlers Searches ViModes Selections Keys Bindings Schedulers FrameDamages Hints Messages Mice Contexts Actions Inputs.
#[local] Open Scope nat_scope.

Definition MAX_TAP_DISTANCE : Z := 20.

Module Touches.
Section ops.
Context `{External} `{Winit} `{RegexCompiler} {W : Type} `{EqDecision W}.
Context (window : W) (clock : nat → N) (clipboard_load : list Effect → ClipboardType → text).
Context (config : UiConfig.t) (rfuel : nat) (min_height step : Z).
Import Context.
#[local] Abbreviation ctx := (Context.t W).
#[local] Abbreviation mouse_moved := (Inputs.mouse_moved window clock min_height step).
#[local] Abbreviation mouse_input := (Inputs.mouse_input window clock clipboard_load config rfuel).
#[local] Abbreviation scroll_terminal :=
  (Inputs.scroll_terminal window clock clipboard_load config rfuel).
Implicit Types (s : ctx).

(** What one more finger changes. *)
Definition start_purpose (event : TouchEvent) (p : TouchPurpose.t) : TouchPurpose.t :=
  match p with
  | TouchPurpose.NoPurpose => TouchPurpose.Tap event
  | TouchPurpose.Tap start => TouchPurpose.Zoom (start, event)
  | TouchPurpose.ZoomPendingSlot slot => TouchPurpose.Zoom (slot, event)
  | TouchPurpose.Zoom slots => TouchPurpose.Invalid {[ touch_id slots.1; touch_id slots.2 ]}
  | TouchPurpose.Scroll e | TouchPurpose.Select e => TouchPurpose.Invalid {[ touch_id e ]}
  | TouchPurpose.Invalid slots => TouchPurpose.Invalid ({[ touch_id event ]} ∪ slots)
  end.

Definition on_touch_start (event : TouchEvent) s : ctx :=
  let s :=
    if Term.is_focused (terminal s) then s else set_ime_inhibitor ImeInhibitor.TOUCH true s in
  set_touch (start_purpose event (touch s)) s.

(** The motion of a finger calls itself again after a tap has become a selection or a scroll: two
    calls are enough. *)
Fixpoint on_touch_motion (fuel : nat) (event : TouchEvent) s : option ctx :=
  match fuel with
  | O => None
  | S fuel =>
      match touch s with
      | TouchPurpose.NoPurpose => Some s
      | TouchPurpose.Tap start =>
          let '(delta_x, delta_y) :=
            ((location event).1 - (location start).1, (location event).2 - (location start).2)%Z in
          if (MAX_TAP_DISTANCE <? Z.abs delta_x)%Z then
            let s := set_touch (TouchPurpose.Select start) s in
            s ← mouse_moved (location start).1 (location start).2 s;
            s ← mouse_input Pressed MouseButton.Left s;
            on_touch_motion fuel event s
          else if (MAX_TAP_DISTANCE <? Z.abs delta_y)%Z then
            on_touch_motion fuel event (set_touch (TouchPurpose.Scroll start) s)
          else Some s
      | TouchPurpose.Zoom zoom =>
          let moved := TouchZoom.update_slots event zoom in
          Some (emit (ZoomFontSize zoom moved) (set_touch (TouchPurpose.Zoom moved) s))
      | TouchPurpose.Scroll last_touch =>
          let delta_y := ((location event).2 - (location last_touch).2)%Z in
          scroll_terminal 0 delta_y 1 (set_touch (TouchPurpose.Scroll event) s)
      | TouchPurpose.Select _ => mouse_moved (location event).1 (location event).2 s
      | TouchPurpose.ZoomPendingSlot _ | TouchPurpose.Invalid _ => Some s
      end
  end.

Definition MOTION_FUEL : nat := 2.

Definition on_touch_end (event : TouchEvent) s : option ctx :=
  s ← on_touch_motion MOTION_FUEL event s;
  match touch s with
  | TouchPurpose.Tap start =>
      let s := set_touch TouchPurpose.NoPurpose s in
      s ← mouse_moved (location start).1 (location start).2 s;
      s ← mouse_input Pressed MouseButton.Left s;
      s ← mouse_input Released MouseButton.Left s;
      Some (set_ime_inhibitor ImeInhibitor.TOUCH false s)
  | TouchPurpose.Zoom slots =>
      let remaining := if (touch_id slots.1 =? touch_id event)%N then slots.2 else slots.1 in
      Some (set_touch (TouchPurpose.ZoomPendingSlot remaining) s)
  | TouchPurpose.ZoomPendingSlot _ => Some (set_touch TouchPurpose.NoPurpose s)
  | TouchPurpose.Invalid slots =>
      let slots := slots ∖ {[ touch_id event ]} in
      Some (set_touch (if bool_decide (slots = ∅) then TouchPurpose.NoPurpose
                       else TouchPurpose.Invalid slots) s)
  | TouchPurpose.Select _ =>
      mouse_input Released MouseButton.Left (set_touch TouchPurpose.NoPurpose s)
  | TouchPurpose.Scroll _ => Some (set_touch TouchPurpose.NoPurpose s)
  | TouchPurpose.NoPurpose => Some s
  end.

Definition on_touch (phase : TouchPhase) (event : TouchEvent) s : option ctx :=
  match phase with
  | PhaseStarted => Some (on_touch_start event s)
  | PhaseMoved => on_touch_motion MOTION_FUEL event s
  | PhaseEnded | PhaseCancelled => on_touch_end event s
  end.
End ops.
End Touches.
