(* ===== verification/WindowEvents.v ===== *)
(** The events of a window ([handle_event] in [cutty/src/event.rs]): those the terminal and the
    timers send, and those of the window system; the context of the window as the context the
    keyboard input is written against. *)
From S2P Require Import Prelude Index Cells TermData Grids Terms Handlers Searches ViModes Selections Keys Bindings Keyboards Schedulers FrameDamages Hints Messages Mice Contexts Actions Inputs Touches.
#[local] Open Scope nat_scope.

(** 100 ms. *)
Definition BELL_CMD_COOLDOWN : N := 100000000.

(** [NamedColor::Cursor as usize]. *)
Definition NAMED_CURSOR : nat := 258.

(** The events of [winit::event::WindowEvent] that reach the handlers modelled here. *)
Inductive WindowEvent `{Winit} :=
  | CloseRequested
  | KeyboardInput (key : KeyEvent)
  | ModifiersChanged (m : ModifiersState) (alt : bool * bool)
  | MouseInput (state : ElementState) (button : MouseButton.t)
  | CursorMoved (x y : Z)
  | MouseWheel (delta : MouseScrollDelta) (phase : TouchPhase)
  | Touch (phase : TouchPhase) (event : TouchEvent)
  | Focused (is_focused : bool)
  | Occluded (b : bool)
  | DroppedFile (path : text)
  | CursorLeft
  | ImeCommit (t : text)
  | ImePreedit (t : text) (cursor_offset : option (nat * nat))
  | ImeEnabled
  | ImeDisabled.

Module WindowEvents.
Section ops.
Context `{External} `{Unicode} `{Winit} `{RegexCompiler} {W : Type} `{EqDecision W}.
Context (window : W) (clock : nat → N) (clipboard_load : list Effect → ClipboardType → text).
Context (config : UiConfig.t) (rfuel : nat).
(** The configuration of the keyboard, the colours of the display, and the constants of the
    scrolling selection scaled by the factor of the window. *)
Context (alt_option : OptionAsAlt) (bindings : list KeyBinding).
Context (enabled : list (Hint * option HintBinding)) (colors : list Rgb) (min_height step : Z).
Import Context.
#[local] Abbreviation ctx := (Context.t W).
Implicit Types (s : ctx).

(** * The context of the keyboard *)

#[export] Instance window_context : ActionContext := {|
  platform := UiConfig.platform config;
  option_as_alt := alt_option;
  key_bindings := bindings;
  hints_enabled := enabled;
  Ctx := ctx;
  SearchTimer := Timer.t EventType W;
  Keyboards.preedit := λ s, bool_decide (is_Some (Display.preedit (display s)));
  term_mode := λ s, Term.mode (terminal s);
  modifiers_state := λ s, modifiers s;
  lalt_pressed := λ s, (alt_pressed s).1;
  ralt_pressed := λ s, (alt_pressed s).2;
  Keyboards.char_pending := λ s, InlineSearchState.char_pending (inline_search_state s);
  hint_active := λ s, HintState.active (Display.hint_state (display s));
  Keyboards.search_active := Actions.search_active;
  set_ime_inhibitor_vi := λ b s, Some (set_ime_inhibitor ImeInhibitor.VI b s);
  Keyboards.hint_input := Actions.hint_input window clock config rfuel;
  Keyboards.inline_search_input := Actions.inline_search_input;
  Keyboards.search_input := Actions.search_input window clock config rfuel;
  unschedule_search := λ s, Some (Actions.unschedule window DelayedSearch s);
  schedule_search := λ timer s,
    Some (set_scheduler (Scheduler.schedule clock (Timer.event timer) TYPING_SEARCH_DELAY false
                           (Timer.id timer) (scheduler s)) s);
  Keyboards.execute := Inputs.execute window clock clipboard_load config rfuel;
  Keyboards.on_terminal_input_start := Actions.on_terminal_input_start window clock config;
  Keyboards.write_to_pty := λ bytes s, Some (write_to_pty bytes s);
|}.

(** * Events of the terminal and of the timers *)

Definition update_cursor_blinking := Actions.update_cursor_blinking window clock config.
Definition paste := Actions.paste window clock config rfuel.

(** [From<SizeInfo> for WindowSize]: the sizes saturate, the numbers of cells are truncated. *)
Definition window_size s : WindowSize :=
  let size := Display.size_info (display s) in
  let saturate z := Z.to_N (Z.min 65535 z) in
  mkWindowSize (N.of_nat (SizeInfo.screen_lines size) mod 65536)%N
    (N.of_nat (SizeInfo.columns size) mod 65536)%N
    (saturate (SizeInfo.cell_width size)) (saturate (SizeInfo.cell_height size)).

Definition bell s : ctx :=
  let s :=
    if negb (Term.is_focused (terminal s)) && has_mode TermMode.URGENCY_HINTS s
    then emit (Window (SetUrgent true)) s else s in
  let s := emit (Window RingVisualBell) s in
  match UiConfig.bell_command config with
  | None => s
  | Some command =>
      let '(ready, s) :=
        match prev_bell_cmd s with
        | None => (true, s)
        | Some i =>
            let '(now, sch) := Scheduler.now clock (scheduler s) in
            ((BELL_CMD_COOLDOWN <=? now - i)%N, set_scheduler sch s)
        end in
      if ready : bool then
        let s := Actions.spawn_daemon (program_of command) (args_of command) s in
        let '(now, sch) := Scheduler.now clock (scheduler s) in
        set_prev_bell_cmd (Some now) (set_scheduler sch s)
      else s
  end.

(** [preserve_title] is an option of the window. *)
Definition handle_terminal_event (preserve_title : bool) (e : Event) s : option ctx :=
  let title (t : text) :=
    Some (if negb preserve_title && UiConfig.dynamic_title config
          then emit (Window (SetTitle t)) s else s) in
  let answer (t : text) s := write_to_pty (Actions.to_bytes t) s in
  match e with
  | Title t => title t
  | ResetTitle => title (UiConfig.title config)
  | Bell => Some (bell s)
  | ClipboardStore ty content =>
      Some (if Term.is_focused (terminal s) then emit (StoreClipboard ty content) s else s)
  | ClipboardLoad ty format =>
      Some (if Term.is_focused (terminal s)
            then answer (format (clipboard_load (effects s) ty)) s else s)
  | ColorRequest index format =>
      color ← Term.colors (terminal s) !! index;
      match color with
      | Some color => Some (answer (format color) s)
      | None =>
          if index =? NAMED_CURSOR then Some s
          else color ← colors !! index; Some (answer (format color) s)
      end
  | TextAreaSizeRequest format => t ← format (window_size s); Some (answer t s)
  | PtyWrite t => Some (answer t s)
  | MouseCursorDirty => Inputs.reset_mouse_cursor s
  | CursorBlinkingChange => update_cursor_blinking s
  | Exit | ChildExit _ | Wakeup => Some s
  end.

Definition handle_user_event (preserve_title : bool) (e : EventType) s : option ctx :=
  match e with
  | SearchNextEvent => Actions.goto_match window clock rfuel None s
  | ScrollEvent sc => Actions.scroll window clock config sc s
  | BlinkCursorEvent =>
      Some (if cursor_blink_timed_out s then s
            else mark_dirty (upd_display
                   (λ x, Display.set_cursor_hidden (negb (Display.cursor_hidden x)) x) s))
  | BlinkCursorTimeoutEvent =>
      let s := Actions.unscheduled window BlinkCursor s in
      let s := set_cursor_blink_timed_out true s in
      Some (mark_dirty (upd_display (Display.set_cursor_hidden false) s))
  | MessageEvent message =>
      Some (if MessageBuffer.is_queued message (message_buffer s) then s
            else upd_display (Display.set_pending_dirty true)
                   (set_message_buffer (MessageBuffer.push message (message_buffer s)) s))
  | TerminalEvent e => handle_terminal_event preserve_title e s
  | FrameEvent => Some s
  end.

(** * Events of the window system *)

(** [Window::set_mouse_visible]. *)
Definition show_mouse s : ctx := upd_display (Display.set_mouse_visible true) s.

Definition focused (is_focused : bool) s : option ctx :=
  let s := set_terminal (Term.set_is_focused is_focused (terminal s)) s in
  let s := if CursorConfig.unfocused_hollow (UiConfig.cursor config) then mark_dirty s else s in
  let s := if is_focused then emit (Window (SetUrgent false)) s else s in
  s ← update_cursor_blinking s;
  let s := Inputs.on_focus_change is_focused s in
  Some (set_ime_inhibitor ImeInhibitor.FOCUS (negb is_focused) s).

Definition set_preedit (p : option (text * option (nat * nat))) s : option ctx :=
  if bool_decide (Display.preedit (display s) = p) then Some s
  else
    s ← update_cursor_blinking (upd_display (Display.set_preedit p) s);
    Some (mark_dirty s).

(** [Ime::set_enabled]: without the input method there is no text before it is committed. *)
Definition set_ime_enabled (is_enabled : bool) s : ctx :=
  if is_enabled then s else upd_display (Display.set_preedit None) s.

Definition handle_window_event (e : WindowEvent) s : option ctx :=
  match e with
  | CloseRequested =>
      let s := upd_display (Display.set_hold false) s in
      Some (set_terminal (Term.exit (terminal s)) s)
  | KeyboardInput key => Keyboard.key_input key s
  | ModifiersChanged m alt => Inputs.modifiers_input m alt s
  | MouseInput state button =>
      Inputs.mouse_input window clock clipboard_load config rfuel state button (show_mouse s)
  | CursorMoved x y => Inputs.mouse_moved window clock min_height step x y (show_mouse s)
  | MouseWheel delta phase =>
      Inputs.mouse_wheel_input window clock clipboard_load config rfuel delta phase (show_mouse s)
  | Touch phase event =>
      Touches.on_touch window clock clipboard_load config rfuel min_height step phase event s
  | Focused is_focused => focused is_focused s
  | Occluded b => Some (set_occluded b s)
  | DroppedFile path => paste (path ++ [32%N]) true s
  | CursorLeft =>
      let s := upd_mouse (Mouse.set_inside_text_area false) s in
      Some (if bool_decide (is_Some (Display.highlighted_hint (display s))) then mark_dirty s else s)
  | ImeCommit t =>
      s ← paste t (1 <? length t) (mark_dirty s);
      update_cursor_blinking s
  | ImePreedit t offset => set_preedit (match t with [] => None | _ => Some (t, offset) end) s
  | ImeEnabled => Some (mark_dirty (set_ime_enabled true s))
  | ImeDisabled => Some (mark_dirty (set_ime_enabled false s))
  end.
End ops.
End WindowEvents.
