(* ===== verification/ContextProps.v ===== *)
(** What every operation of a window keeps: the entries of the search history, one timer for each
    purpose, in order; and which operations can send bytes to the pseudoterminal.

    No operation touches the timers for frames.  [keeps w m] says this of a computation of the kind [w]: a quiet one sends nothing, and only a
    free one changes what the touches and the accumulated scrolling are. *)
From stdpp Require Import sorting.
From S2P Require Import Prelude Index Cells TermData Grids Terms Handlers Searches ViModes Selections Keys Bindings DefaultBindings BindingProps Schedulers FrameDamages Hints Messages Mice Contexts Actions.
#[local] Open Scope nat_scope.
#[local] Set Default Proof Using "Type".

Inductive Kind := Quiet | Loud | Free.

Section Invariant.
Context `{External} `{Winit} `{RegexCompiler} {W : Type} `{EqDecision W}.
Context (window : W) (clock : nat → N) (clipboard_load : list Effect → ClipboardType → text).
Context (config : UiConfig.t) (rfuel : nat).
Import Context.
#[local] Abbreviation ctx := (Context.t W).
Implicit Types (s : ctx) (w : Kind).

(** * The invariant *)

Definition effect_bytes (e : Effect) : list N := match e with WriteToPty bytes => bytes | _ => [] end.
(** All bytes for the pseudoterminal. *)
Definition written s : list N := concat (effect_bytes <$> effects s).

(** What only the touches and the wheel change. *)
Definition fingers s : TouchPurpose.t * (Z * Z) := (touch s, Mouse.accumulated_scroll (mouse s)).

(** The hints that can be triggered by the keyboard do not paste. *)
Definition hints_quiet (d : Display.t) : Prop :=
  (∀ h, HintState.hint (Display.hint_state d) = Some h → pastes_hint h = false) ∧
  (∀ m, Display.vi_highlighted_hint d = Some m → pastes_hint (HintMatch.hint m) = false).

(** The history has at most 255 entries, and the index is inside of it. *)
Definition history_ok (x : SearchState.t) : Prop :=
  length (SearchState.history x) ≤ MAX_SEARCH_HISTORY_SIZE ∧
  ∀ i, SearchState.history_index x = Some i → i < length (SearchState.history x).

(** The timers for frames; only drawing sets them. *)
Definition frames (x : Scheduler.t EventType W) : list (Timer.t EventType W) :=
  filter (λ y, topic (Timer.id y) = Frame) (Scheduler.timers x).
(** What the other timers are for. *)
Definition purposes (l : list (Timer.t EventType W)) : list (TimerId W) :=
  filter (λ i, topic i ≠ Frame) (Timer.id <$> l).

Definition timers_ok (x : Scheduler.t EventType W) : Prop :=
  in_order (Scheduler.timers x) ∧ NoDup (purposes (Scheduler.timers x)).

Record ctx_inv w s : Prop := {
  inv_history : history_ok (search_state s);
  inv_timers : timers_ok (scheduler s);
  inv_hints : w ≠ Quiet ∨ hints_quiet (display s);
}.

(** The relation between the contexts before and after an operation. *)
Definition ok_step w s s' : Prop :=
  ctx_inv w s → ctx_inv w s' ∧ (w = Quiet → written s' = written s) ∧ (w ≠ Free → fingers s' = fingers s)
    ∧ frames (scheduler s') = frames (scheduler s).

Lemma ok_refl w s : ok_step w s s.
Proof. by intros Hs. Qed.

Lemma ok_trans w s1 s2 s3 : ok_step w s1 s2 → ok_step w s2 s3 → ok_step w s1 s3.
Proof.
  intros H12 H23 Hs1. destruct (H12 Hs1) as (Hs2 & E12 & F12 & T12).
  destruct (H23 Hs2) as (Hs3 & E23 & F23 & T23).
  split_and!; [done|..|by rewrite T23]; intros Hw; [by rewrite E23, E12|by rewrite F23, F12].
Qed.

(** ** Computations *)

Definition keeps w s (m : option ctx) : Prop := ∀ s', m = Some s' → ok_step w s s'.
Definition keeps_snd {A} w s (m : option (A * ctx)) : Prop := ∀ a s', m = Some (a, s') → ok_step w s s'.

Lemma keeps_some w s s' : ok_step w s s' → keeps w s (Some s').
Proof. intros Hs s'' [= <-]. done. Qed.
Lemma keeps_none w s : keeps w s None.
Proof. intros s'. done. Qed.
Lemma keeps_snd_some {A} w s (a : A) s' : ok_step w s s' → keeps_snd w s (Some (a, s')).
Proof. intros Hs a' s'' [= <- <-]. done. Qed.
Lemma keeps_snd_none {A} w s : keeps_snd w s (None : option (A * ctx)).
Proof. intros a s'. done. Qed.

Lemma keeps_intro w s m : (∀ s', m = Some s' → ok_step w s s') → keeps w s m.
Proof. done. Qed.
Lemma keeps_elim w s m : keeps w s m → ∀ s', m = Some s' → ok_step w s s'.
Proof. done. Qed.
Lemma keeps_snd_elim {A} w s (m : option (A * ctx)) :
  keeps_snd w s m → ∀ a s', m = Some (a, s') → ok_step w s s'.
Proof. done. Qed.

(** A loud computation is a free one. *)
Lemma ok_louder w s s' : w ≠ Quiet → ok_step Loud s s' → ok_step w s s'.
Proof.
  intros Hw Hs [Hh Ht Hi]. destruct Hs as ([Hh' Ht' Hi'] & _ & Hf & Hr); [split; [done..|by left]|].
  split_and!; [split; [done..|by left]|done|by intros _; apply Hf|exact Hr].
Qed.
Lemma keeps_louder w s m : w ≠ Quiet → keeps Loud s m → keeps w s m.
Proof. intros Hw Hm s' E. by apply ok_louder, Hm. Qed.
Lemma keeps_snd_louder {A} w s (m : option (A * ctx)) : w ≠ Quiet → keeps_snd Loud s m → keeps_snd w s m.
Proof. intros Hw Hm a s' E. by eapply ok_louder, Hm. Qed.

(** Starting from a context that was reached by pure changes. *)
Lemma keeps_from w s s1 m : ok_step w s s1 → keeps w s1 m → keeps w s m.
Proof. intros Hs1 Hm s' E. eapply ok_trans; [done|by apply Hm]. Qed.
Lemma keeps_snd_from {A} w s s1 (m : option (A * ctx)) :
  ok_step w s s1 → keeps_snd w s1 m → keeps_snd w s m.
Proof. intros Hs1 Hm a s' E. eapply ok_trans; [done|by eapply Hm]. Qed.

Lemma keeps_bind w s (m : option ctx) f :
  keeps w s m → (∀ s', keeps w s' (f s')) → keeps w s (m ≫= f).
Proof.
  intros Hm Hf s'. destruct m as [s1|]; cbn [mbind option_bind]; [|done].
  intros E. eapply ok_trans; [by apply Hm|by apply Hf].
Qed.
Lemma keeps_snd_bind {A} w s (m : option ctx) (f : ctx → option (A * ctx)) :
  keeps w s m → (∀ s', keeps_snd w s' (f s')) → keeps_snd w s (m ≫= f).
Proof.
  intros Hm Hf a s'. destruct m as [s1|]; cbn [mbind option_bind]; [|done].
  intros E. eapply ok_trans; [by apply Hm|by eapply Hf].
Qed.
Lemma keeps_bind_pair {A} w s (m : option (A * ctx)) (f : A * ctx → option ctx) :
  keeps_snd w s m → (∀ a s', keeps w s' (f (a, s'))) → keeps w s (m ≫= f).
Proof.
  intros Hm Hf s'. destruct m as [[a s1]|]; cbn [mbind option_bind]; [|done].
  intros E. eapply ok_trans; [by eapply Hm|by apply (Hf a)].
Qed.
Lemma keeps_snd_bind_pair {A B} w s (m : option (A * ctx)) (f : A * ctx → option (B * ctx)) :
  keeps_snd w s m → (∀ a s', keeps_snd w s' (f (a, s'))) → keeps_snd w s (m ≫= f).
Proof.
  intros Hm Hf b s'. destruct m as [[a s1]|]; cbn [mbind option_bind]; [|done].
  intros E. eapply ok_trans; [by eapply Hm|by eapply (Hf a)].
Qed.
Lemma keeps_any {A} w s (m : option A) (f : A → option ctx) :
  (∀ a, m = Some a → keeps w s (f a)) → keeps w s (m ≫= f).
Proof. intros Hf s'. destruct m as [a|]; cbn [mbind option_bind]; [|done]. by apply Hf. Qed.
Lemma keeps_snd_any {A B} w s (m : option A) (f : A → option (B * ctx)) :
  (∀ a, m = Some a → keeps_snd w s (f a)) → keeps_snd w s (m ≫= f).
Proof. intros Hf b s'. destruct m as [a|]; cbn [mbind option_bind]; [|done]. by apply Hf. Qed.

Lemma keeps_foldM {A} w s (f : A → ctx → option ctx) l :
  (∀ a s', keeps w s' (f a s')) → keeps w s (foldM f l s).
Proof.
  intros Hf. revert s. induction l as [|a l IH]; intros s; cbn [foldM].
  - apply keeps_some, ok_refl.
  - apply keeps_bind; [done|]. intros s'. apply IH.
Qed.

(** ** Changes of the parts the invariant does not look at *)

Lemma ok_view w s s1 s2 :
  ok_step w s s1 →
  search_state s2 = search_state s1 → scheduler s2 = scheduler s1 → display s2 = display s1 →
  effects s2 = effects s1 → (w = Free ∨ fingers s2 = fingers s1) → ok_step w s s2.
Proof.
  intros Hs1 E1 E2 E3 E4 Hf. eapply ok_trans; [exact Hs1|]. intros [Hh Ht Hi]. split_and!.
  - split; by rewrite ?E1, ?E2, ?E3.
  - intros _. unfold written. by rewrite E4.
  - destruct Hf as [?|Hf]; [done|by intros _].
  - by rewrite E2.
Qed.

Lemma ok_set_terminal w s s1 x : ok_step w s s1 → ok_step w s (set_terminal x s1).
Proof. intros Hs1. by eapply ok_view; [..|right]. Qed.
Lemma ok_set_mouse w s s1 x :
  ok_step w s s1 → Mouse.accumulated_scroll x = Mouse.accumulated_scroll (mouse s1) →
  ok_step w s (set_mouse x s1).
Proof. intros Hs1 E. eapply ok_view; [done..|right]. unfold fingers. simpl. by rewrite E. Qed.
Lemma ok_set_touch s s1 x : ok_step Free s s1 → ok_step Free s (set_touch x s1).
Proof. intros Hs1. by eapply ok_view; [..|left]. Qed.
Lemma ok_accumulated s s1 f :
  ok_step Free s s1 → ok_step Free s (upd_mouse (λ m, Mouse.set_accumulated_scroll (f m) m) s1).
Proof. intros Hs1. by eapply ok_view; [..|left]. Qed.
Lemma ok_set_dirty w s s1 x : ok_step w s s1 → ok_step w s (set_dirty x s1).
Proof. intros Hs1. by eapply ok_view; [..|right]. Qed.
Lemma ok_set_message_buffer w s s1 x : ok_step w s s1 → ok_step w s (set_message_buffer x s1).
Proof. intros Hs1. by eapply ok_view; [..|right]. Qed.
Lemma ok_set_timed_out w s s1 x : ok_step w s s1 → ok_step w s (set_cursor_blink_timed_out x s1).
Proof. intros Hs1. by eapply ok_view; [..|right]. Qed.
Lemma ok_set_prev_bell w s s1 x : ok_step w s s1 → ok_step w s (set_prev_bell_cmd x s1).
Proof. intros Hs1. by eapply ok_view; [..|right]. Qed.
Lemma ok_upd_inline w s s1 f : ok_step w s s1 → ok_step w s (upd_inline f s1).
Proof. intros Hs1. by eapply ok_view; [..|right]. Qed.
Lemma ok_set_modifiers w s s1 x : ok_step w s s1 → ok_step w s (set_modifiers x s1).
Proof. intros Hs1. by eapply ok_view; [..|right]. Qed.
Lemma ok_set_alt w s s1 x : ok_step w s s1 → ok_step w s (set_alt_pressed x s1).
Proof. intros Hs1. by eapply ok_view; [..|right]. Qed.
Lemma ok_set_occluded w s s1 x : ok_step w s s1 → ok_step w s (set_occluded x s1).
Proof. intros Hs1. by eapply ok_view; [..|right]. Qed.

(** The display, if the hints are not changed to ones that paste. *)
Lemma ok_upd_display w s s1 f :
  ok_step w s s1 → (w ≠ Quiet ∨ ∀ d, hints_quiet d → hints_quiet (f d)) →
  ok_step w s (upd_display f s1).
Proof.
  intros Hs1 Hf. eapply ok_trans; [exact Hs1|]. intros [Hh Ht Hi]. split; [|done].
  split; [done|done|]. destruct Hf as [?|Hf], Hi as [?|Hi]; [by left|by left|by left|right; by apply Hf].
Qed.

Lemma quiet_view d d' :
  HintState.hint (Display.hint_state d') = HintState.hint (Display.hint_state d) →
  Display.vi_highlighted_hint d' = Display.vi_highlighted_hint d →
  hints_quiet d → hints_quiet d'.
Proof. intros E1 E2 [Hq1 Hq2]. split; rewrite ?E1, ?E2; done. Qed.

(** The search, if its history stays valid. *)
Lemma ok_upd_search w s s1 f :
  ok_step w s s1 → (∀ x, history_ok x → history_ok (f x)) → ok_step w s (upd_search f s1).
Proof.
  intros Hs1 Hf. eapply ok_trans; [exact Hs1|]. intros [Hh Ht Hi]. split; [|done].
  split; [by apply Hf|done|done].
Qed.

Lemma ok_emit w s s1 e :
  ok_step w s s1 → (w ≠ Quiet ∨ effect_bytes e = []) → ok_step w s (emit e s1).
Proof.
  intros Hs1 He. eapply ok_trans; [exact Hs1|]. intros [Hh Ht Hi].
  split; [done|split; [|done]]. intros Hw. destruct He as [?|He]; [congruence|]. unfold written, emit.
  cbn [effects set_effects]. rewrite fmap_app, concat_app. simpl. by rewrite He, !app_nil_r.
Qed.

Lemma ok_write w s s1 bytes : w ≠ Quiet → ok_step w s s1 → ok_step w s (write_to_pty bytes s1).
Proof. intros Hw Hs1. destruct bytes; [done|]. apply ok_emit; auto. Qed.

(** ** Timers *)

Lemma ok_set_scheduler w s s1 x :
  ok_step w s s1 → (timers_ok (scheduler s1) → timers_ok x) → frames x = frames (scheduler s1) →
  ok_step w s (set_scheduler x s1).
Proof.
  intros Hs1 Hx Hf. eapply ok_trans; [exact Hs1|]. intros [Hh Ht Hi]. split; [|done].
  split; [done|by apply Hx|done].
Qed.

Lemma purposes_app l1 l2 : purposes (l1 ++ l2) = purposes l1 ++ purposes l2.
Proof. unfold purposes. by rewrite fmap_app, filter_app. Qed.
Lemma purposes_cons (y : Timer.t EventType W) l :
  purposes (y :: l) = if decide (topic (Timer.id y) = Frame) then purposes l else Timer.id y :: purposes l.
Proof. unfold purposes. rewrite fmap_cons, filter_cons. by repeat case_decide. Qed.
Lemma elem_of_purposes i l : i ∈ purposes l ↔ topic i ≠ Frame ∧ i ∈ (Timer.id <$> l).
Proof. unfold purposes. by rewrite list_elem_of_filter. Qed.

Lemma scheduled_elem (x : Scheduler.t EventType W) id :
  Scheduler.scheduled id x = false ↔ id ∉ (Timer.id <$> Scheduler.timers x).
Proof.
  unfold Scheduler.scheduled. rewrite <- not_true_iff_false. apply not_iff_compat.
  rewrite existsb_exists. split.
  - intros (y & Hy & E). apply bool_decide_eq_true in E. apply list_elem_of_fmap.
    exists y. split; [done|by apply list_elem_of_In].
  - intros (y & E & Hy)%list_elem_of_fmap. exists y. split; [by apply list_elem_of_In|].
    by apply bool_decide_eq_true.
Qed.

(** A timer for a frame, or for a purpose that has none. *)
Lemma schedule_timers_or (x : Scheduler.t EventType W) e iv rep id :
  topic id = Frame ∨ Scheduler.scheduled id x = false → timers_ok x →
  timers_ok (Scheduler.schedule clock e iv rep id x).
Proof.
  intros Hid [Ho Hn]. destruct (schedule_spec clock e iv rep id x Ho)
    as (l1 & l2 & El & Es & _ & _ & Ho'). unfold timers_ok. rewrite Es. split; [exact Ho'|].
  rewrite El, purposes_app in Hn. rewrite purposes_app, purposes_cons. cbn [Timer.id scheduled_timer].
  case_decide as Hf; [done|]. destruct Hid as [?|Hid]; [done|].
  rewrite <- Permutation_middle. apply NoDup_cons. split; [|done].
  rewrite <- purposes_app, <- El, elem_of_purposes. intros [_ Hi]. by apply scheduled_elem in Hid.
Qed.
Lemma schedule_timers (x : Scheduler.t EventType W) e iv rep id :
  Scheduler.scheduled id x = false → timers_ok x → timers_ok (Scheduler.schedule clock e iv rep id x).
Proof. intros Hid. apply schedule_timers_or. by right. Qed.

Lemma schedule_frames (x : Scheduler.t EventType W) e iv rep id :
  topic id ≠ Frame → frames (Scheduler.schedule clock e iv rep id x) = frames x.
Proof.
  intros Hid. unfold frames, Scheduler.schedule, Scheduler.now. cbn [Scheduler.timers].
  rewrite filter_app, filter_cons_False by done. by rewrite <- filter_app, take_drop.
Qed.

Lemma unschedule_frames (x : Scheduler.t EventType W) id :
  topic id ≠ Frame → frames (Scheduler.unschedule id x).2 = frames x.
Proof.
  intros Hid. pose proof (unschedule_spec id x) as Hu. unfold frames.
  destruct (Scheduler.unschedule id x) as [[y|] x']; cbn [snd] in *; [|by destruct Hu as [-> _]].
  destruct Hu as (l1 & l2 & -> & -> & <- & _). by rewrite !filter_app, filter_cons_False.
Qed.

Lemma unschedule_timers (x : Scheduler.t EventType W) id :
  timers_ok x →
  timers_ok (Scheduler.unschedule id x).2 ∧
  (topic id ≠ Frame → Scheduler.scheduled id (Scheduler.unschedule id x).2 = false).
Proof.
  intros [Ho Hn]. pose proof (unschedule_in_order id x Ho) as Ho'.
  pose proof (unschedule_spec id x) as Hu.
  destruct (Scheduler.unschedule id x) as [[y|] x']; cbn [snd] in *; [|by destruct Hu as [-> Hs]].
  destruct Hu as (l1 & l2 & El & El' & Eid & Hl1). rewrite El, purposes_app, purposes_cons in Hn.
  split; [split; [done|]|].
  - rewrite El', purposes_app. case_decide; [done|]. eapply sublist_NoDup; [exact Hn|].
    apply sublist_app; [done|]. by apply sublist_cons.
  - intros Hid. apply scheduled_elem. rewrite El', fmap_app. rewrite decide_False in Hn by congruence.
    apply NoDup_app in Hn as (_ & _ & Hn2). apply NoDup_cons in Hn2 as [Hn2 _].
    rewrite elem_of_purposes in Hn2. intros [(z & Ez & Hz)%list_elem_of_fmap|Hz]%elem_of_app.
    + rewrite list.Forall_forall in Hl1. by apply (Hl1 z).
    + apply Hn2. rewrite Eid. done.
Qed.
Lemma unschedule_other (x : Scheduler.t EventType W) id id' :
  Scheduler.scheduled id x = false → Scheduler.scheduled id (Scheduler.unschedule id' x).2 = false.
Proof.
  rewrite !scheduled_elem. intros Hn Hi. apply Hn. pose proof (unschedule_spec id' x) as Hu.
  destruct (Scheduler.unschedule id' x) as [[y|] x']; cbn [snd] in *.
  - destruct Hu as (l1 & l2 & El & El' & _). rewrite El, El' in *. rewrite fmap_app in *.
    apply elem_of_app in Hi as [?|?]; apply elem_of_app; [by left|right].
    rewrite fmap_cons. by apply elem_of_cons; right.
  - by destruct Hu as [-> _].
Qed.

Lemma schedule_other (x : Scheduler.t EventType W) e iv rep id id' :
  id ≠ id' → in_order (Scheduler.timers x) → Scheduler.scheduled id x = false →
  Scheduler.scheduled id (Scheduler.schedule clock e iv rep id' x) = false.
Proof.
  intros Hid Ho. rewrite !scheduled_elem.
  destruct (schedule_spec clock e iv rep id' x Ho) as (l1 & l2 & El & -> & _).
  rewrite El, !fmap_app, fmap_cons, !not_elem_of_app, not_elem_of_cons. intros [H1' H2'].
  split; [done|]. split; [done|done].
Qed.

End Invariant.

(** * The operations of the context *)

#[global] Opaque keeps keeps_snd.

(** The operations without a result; extended below. *)
Ltac ok_more := fail.

(** A change of the context without sending. *)
Ltac ok_pure :=
  repeat first
    [ apply ok_refl | assumption | ok_more
    | apply ok_set_terminal | (apply ok_set_mouse; [|reflexivity]) | apply ok_set_dirty | apply ok_set_message_buffer
    | apply ok_set_timed_out | apply ok_set_prev_bell | apply ok_upd_inline
    | apply ok_set_modifiers | apply ok_set_alt | apply ok_set_occluded
    | (apply ok_upd_display;
       [|first [by left | right; intros ?; apply quiet_view; reflexivity]])
    | (apply ok_upd_search; [|let Hx := fresh in intros ? Hx; exact Hx])
    | (apply ok_emit; [|first [by left | by right]])
    | (apply ok_write; [done|])
    | case_match ].

(** A computation, step by step. *)
Ltac keeps_step :=
  first
    [ apply keeps_none | apply keeps_snd_none
    | (apply keeps_some; ok_pure) | (apply keeps_snd_some; ok_pure)
    | solve [eauto with ctx]
    | (first [eapply keeps_from | eapply keeps_snd_from]; [|solve [eauto with ctx]]; solve [ok_pure])
    | (apply keeps_bind; [|intros ?]) | (apply keeps_snd_bind; [|intros ?])
    | (apply keeps_bind_pair; [|intros ??]) | (apply keeps_snd_bind_pair; [|intros ??])
    | (apply keeps_any; intros ??) | (apply keeps_snd_any; intros ??)
    | case_match ].
Ltac keeps := repeat keeps_step.

Create HintDb ctx discriminated.

Section Operations.
Context `{External} `{Winit} `{RegexCompiler} {W : Type} `{EqDecision W}.
Context (window : W) (clock : nat → N) (clipboard_load : list Effect → ClipboardType → text).
Context (config : UiConfig.t) (rfuel : nat).
Import Context.
#[local] Abbreviation ctx := (Context.t W).
Implicit Types (s : ctx) (w : Kind).

Lemma ok_unscheduled w s s1 topic :
  ok_step w s s1 → topic ≠ Frame → ok_step w s (Actions.unscheduled window topic s1).
Proof.
  intros Hs Hf. unfold Actions.unscheduled, Actions.unschedule.
  pose proof (unschedule_timers (scheduler s1) (Actions.timer_id window topic)) as Hu.
  pose proof (unschedule_frames (scheduler s1) (Actions.timer_id window topic) Hf) as Hfr.
  destruct (Scheduler.unschedule _ _) as [timer x]. cbn [snd] in *.
  apply ok_set_scheduler; [done| |done]. intros Ht. by apply Hu.
Qed.

(** A timer for another purpose than a frame, if there is none for it. *)
Lemma ok_schedule w s s1 e iv rep topic :
  ok_step w s s1 → topic ≠ Frame → (ctx_inv w s → Actions.scheduled window topic s1 = false) →
  ok_step w s (Actions.schedule window clock e iv rep topic s1).
Proof.
  intros Hs Hf Hn Hi. revert Hi. unfold Actions.schedule. intros Hi.
  apply ok_set_scheduler; [done| |by apply schedule_frames|done].
  intros Ht. apply schedule_timers; [by apply Hn|done].
Qed.
Ltac ok_more ::= (apply ok_unscheduled; [|discriminate]).

Lemma ok_set_ime w s s1 i b : ok_step w s s1 → ok_step w s (set_ime_inhibitor i b s1).
Proof. intros Hs. unfold set_ime_inhibitor. ok_pure. Qed.
Ltac ok_more ::= first [(apply ok_unscheduled; [|discriminate]) | apply ok_set_ime].

Lemma keeps_upd_terminal w s f : keeps w s (upd_terminal f s).
Proof. unfold upd_terminal. keeps. Qed.
#[local] Hint Resolve keeps_upd_terminal : ctx.

(** ** The blinking cursor *)

(** After the timers are removed, there are none for their purposes. *)
Lemma unscheduled_free w s topic :
  ctx_inv w s → topic ≠ Frame →
  Actions.scheduled window topic (Actions.unscheduled window topic s) = false.
Proof.
  intros Hi Hf. unfold Actions.scheduled, Actions.unscheduled, Actions.unschedule.
  pose proof (unschedule_timers (scheduler s) (Actions.timer_id window topic) (inv_timers w s Hi)) as [_ Hu].
  destruct (Scheduler.unschedule _ _). by apply Hu.
Qed.
Lemma unscheduled_other s topic topic' :
  Actions.scheduled window topic s = false →
  Actions.scheduled window topic (Actions.unscheduled window topic' s) = false.
Proof.
  intros Hs. unfold Actions.scheduled, Actions.unscheduled, Actions.unschedule.
  pose proof (unschedule_other (scheduler s) _ (Actions.timer_id window topic') Hs) as Hu.
  by destruct (Scheduler.unschedule _ _).
Qed.

Lemma keeps_update_cursor_blinking w s : keeps w s (Actions.update_cursor_blinking window clock config s).
Proof.
  unfold Actions.update_cursor_blinking. set (s0 := Actions.unscheduled window BlinkCursor s).
  set (s1 := Actions.unscheduled window BlinkTimeout _).
  assert (ok_step w s s0) as Hs0 by (by apply ok_unscheduled; [apply ok_refl|]).
  assert (ok_step w s s1) as Hs1 by (by apply ok_unscheduled).
  destruct (_ && _); [|keeps].
  unfold Actions.schedule_blinking_timeout. apply keeps_any. intros timeout _.
  set (s2 := set_cursor_blink_timed_out false s1).
  assert (ok_step w s s2) as Hs2 by (by apply ok_set_timed_out).
  assert (ctx_inv w s → Actions.scheduled window BlinkTimeout s2 = false) as Hf2.
  { intros Hs. destruct (Hs0 Hs) as [Hi _]. by apply (unscheduled_free w s0). }
  unfold Actions.schedule_blinking. set (s3 := Actions.schedule _ _ _ _ _ BlinkCursor s2).
  assert (ok_step w s s3) as Hs3.
  { apply ok_schedule; [done..|]. intros Hs. apply (unscheduled_other s0 BlinkCursor BlinkTimeout).
    by apply (unscheduled_free w s). }
  apply keeps_some. destruct (timeout =? 0)%N; [done|]. apply ok_schedule; [done..|]. intros Hs.
  apply schedule_other; [by intros [=]| |by apply Hf2].
  destruct (Hs2 Hs) as [[_ [Ho _] _] _]. exact Ho.
Qed.
#[local] Hint Resolve keeps_update_cursor_blinking : ctx.

Lemma keeps_on_typing_start w s : keeps w s (Actions.on_typing_start window clock config s).
Proof.
  unfold Actions.on_typing_start.
  pose proof (ok_unscheduled w s s BlinkCursor (ok_refl w s) ltac:(discriminate)) as Hs.
  pose proof (unscheduled_free w s BlinkCursor) as Hf.
  unfold Actions.unscheduled in *. destruct (Actions.unschedule window BlinkCursor s) as [timer s1].
  cbn [snd] in *. apply keeps_bind.
  - destruct timer as [timer|].
    + apply keeps_some.
      assert (ok_step w s (Actions.schedule_blinking window clock config s1)) as Hs'
        by (apply ok_schedule; [done..|]; intros Hi; by apply Hf).
      ok_pure.
    + destruct (cursor_blink_timed_out s1).
      * eapply keeps_from; [exact Hs|]. apply keeps_update_cursor_blinking.
      * by apply keeps_some.
  - intros s'. keeps.
Qed.
#[local] Hint Resolve keeps_on_typing_start : ctx.

(** ** Selections and scrolling *)

Lemma keeps_copy_selection w s ty : keeps w s (Actions.copy_selection config ty s).
Proof. unfold Actions.copy_selection. keeps. Qed.
#[local] Hint Resolve keeps_copy_selection : ctx.

Lemma ok_clear_selection w s s1 : ok_step w s s1 → ok_step w s (Actions.clear_selection s1).
Proof. intros Hs. unfold Actions.clear_selection, Actions.set_selection. ok_pure. Qed.

Lemma ok_update_selection w s s1 p side :
  ok_step w s s1 → ok_step w s (Actions.update_selection p side s1).
Proof.
  intros Hs. unfold Actions.update_selection, Actions.set_selection, Actions.set_vi_point.
  destruct (Term.selection (terminal s1)); [|done]. destruct (vi_mode s1 && _); ok_pure.
Qed.

Lemma ok_set_selection w s s1 x : ok_step w s s1 → ok_step w s (Actions.set_selection x s1).
Proof. intros Hs. unfold Actions.set_selection. ok_pure. Qed.
Lemma ok_set_vi_point w s s1 x : ok_step w s s1 → ok_step w s (Actions.set_vi_point x s1).
Proof. intros Hs. unfold Actions.set_vi_point. ok_pure. Qed.
Ltac ok_more ::=
  first
    [ (apply ok_unscheduled; [|discriminate]) | apply ok_set_ime | apply ok_clear_selection | apply ok_update_selection
    | apply ok_set_selection | apply ok_set_vi_point ].

(** From pure changes on, the lemmas for whole operations apply. *)
Lemma keeps_start_selection w s ty p side : keeps w s (Actions.start_selection config ty p side s).
Proof.
  unfold Actions.start_selection. eapply keeps_from; [|apply keeps_copy_selection]. ok_pure.
Qed.
#[local] Hint Resolve keeps_start_selection : ctx.

Lemma keeps_toggle_selection w s ty p side : keeps w s (Actions.toggle_selection config ty p side s).
Proof.
  unfold Actions.toggle_selection. destruct (Term.selection (terminal s)) as [sel|]; [|keeps].
  destruct (Selection.is_empty sel); [keeps|]. destruct (bool_decide _); [keeps|].
  eapply keeps_from; [|apply keeps_copy_selection]. ok_pure.
Qed.
#[local] Hint Resolve keeps_toggle_selection : ctx.

Lemma keeps_scroll w s sc : keeps w s (Actions.scroll window clock config sc s).
Proof. unfold Actions.scroll. keeps. Qed.
#[local] Hint Resolve keeps_scroll : ctx.

Lemma keeps_expand_selection w s : keeps w s (Actions.expand_selection s).
Proof. unfold Actions.expand_selection. keeps. Qed.
#[local] Hint Resolve keeps_expand_selection : ctx.

(** ** Search *)

Lemma keeps_vi_goto_point w s p : keeps w s (Actions.vi_goto_point p s).
Proof. unfold Actions.vi_goto_point. keeps. Qed.
#[local] Hint Resolve keeps_vi_goto_point : ctx.

Lemma keeps_search_next w s p d side : keeps_snd w s (Actions.search_next rfuel p d side s).
Proof. unfold Actions.search_next. keeps. Qed.
#[local] Hint Resolve keeps_search_next : ctx.

Lemma keeps_search_reset_state w s : keeps w s (Actions.search_reset_state window s).
Proof.
  unfold Actions.search_reset_state. destruct (negb _); [keeps|].
  eapply keeps_from; [|apply keeps_bind; [apply keeps_upd_terminal|intros s'; keeps]]. ok_pure.
Qed.
#[local] Hint Resolve keeps_search_reset_state : ctx.

Lemma keeps_goto_match w s limit : keeps w s (Actions.goto_match window clock rfuel limit s).
Proof.
  unfold Actions.goto_match. destruct (SearchState.dfas (search_state s)) as [dfas|]; [|keeps].
  apply keeps_any. intros origin _. apply keeps_any. intros [found dfas'] _.
  set (s1 := upd_search (SearchState.set_dfas (Some dfas')) s).
  assert (ok_step w s s1) as Hs1 by (unfold s1; ok_pure). apply keeps_bind; [|intros; keeps].
  eapply keeps_from; [exact Hs1|]. destruct found as [m|]; [destruct (vi_mode s1); keeps|].
  destruct (n ← limit; _) as [n|]; [|keeps]. apply keeps_some.
  apply ok_upd_search; [|by intros]. destruct (Actions.scheduled window DelayedSearch s1) eqn:E; [ok_pure|].
  by apply ok_schedule; [apply ok_refl|..].
Qed.
#[local] Hint Resolve keeps_goto_match : ctx.

Lemma ok_exit_search w s s1 : ok_step w s s1 → ok_step w s (Actions.exit_search s1).
Proof.
  intros Hs. unfold Actions.exit_search. cbv zeta. apply ok_upd_search; [|by intros].
  apply ok_upd_search; [ok_pure|]. intros x [Hl _]. split; [done|]. by intros i.
Qed.
Ltac ok_more ::=
  first
    [ (apply ok_unscheduled; [|discriminate]) | apply ok_set_ime | apply ok_clear_selection | apply ok_update_selection
    | apply ok_set_selection | apply ok_set_vi_point | apply ok_exit_search ].

Lemma keeps_update_search w s : keeps w s (Actions.update_search window clock config rfuel s).
Proof.
  unfold Actions.update_search. destruct (SearchState.regex _) as [regex|]; [|keeps].
  set (s1 := if UiConfig.hide_when_typing config then _ else _).
  assert (ok_step w s s1) as Hs1 by (unfold s1; ok_pure).
  eapply keeps_from; [exact Hs1|]. apply keeps_bind; [|intros; keeps].
  destruct regex; [keeps|]. eapply keeps_from; [|apply keeps_goto_match]. ok_pure.
Qed.
#[local] Hint Resolve keeps_update_search : ctx.

Lemma new_history_ok (history : list text) :
  length history ≤ MAX_SEARCH_HISTORY_SIZE →
  0 < length (Actions.new_history_entry history) ≤ MAX_SEARCH_HISTORY_SIZE.
Proof.
  intros Hl. unfold Actions.new_history_entry.
  assert (∀ l : list text, 0 < length (take MAX_SEARCH_HISTORY_SIZE ([] :: l)) ≤ MAX_SEARCH_HISTORY_SIZE)
    as Htake.
  { intros l. rewrite length_take. cbn [length]. unfold MAX_SEARCH_HISTORY_SIZE. lia. }
  destruct history as [|regex rest]; [apply Htake|].
  destruct (negb _); [apply Htake|]. cbn [length] in *. lia.
Qed.

Lemma keeps_start_search w s d : keeps w s (Actions.start_search d s).
Proof.
  unfold Actions.start_search. cbv zeta. set (s1 := upd_search _ s).
  assert (ok_step w s s1) as Hs1.
  { unfold s1. apply ok_upd_search; [apply ok_refl|]. intros x [Hl _].
    destruct (new_history_ok _ Hl). split; [done|]. intros i [= <-]. done. }
  apply keeps_any. intros [origin delta] _. ok_pure. apply keeps_some. ok_pure.
Qed.
#[local] Hint Resolve keeps_start_search : ctx.

Lemma keeps_cancel_search w s : keeps w s (Actions.cancel_search window config s).
Proof. unfold Actions.cancel_search. keeps. Qed.
#[local] Hint Resolve keeps_cancel_search : ctx.

Lemma keeps_confirm_search w s : keeps w s (Actions.confirm_search window clock config rfuel s).
Proof. unfold Actions.confirm_search. keeps. Qed.
#[local] Hint Resolve keeps_confirm_search : ctx.

(** An entry of the history is edited; the index stays, or becomes the first entry. *)
Lemma ok_set_history w s s1 l f :
  ok_step w s s1 → length l = length (SearchState.history (search_state s1)) →
  (∀ x, SearchState.history (f x) = l ∧
    (SearchState.history_index (f x) = SearchState.history_index x
     ∨ SearchState.history_index (f x) = Some 0 ∧ 0 < length l)) →
  ok_step w s (upd_search f s1).
Proof.
  intros Hs El Hf. eapply ok_trans; [exact Hs|]. intros [[Hl Hx] Ht Hi]. split; [|done].
  split; [|done|done]. destruct (Hf (search_state s1)) as [E1 E2].
  unfold history_ok. cbn [search_state upd_search set_search_state]. rewrite E1, El.
  split; [done|]. destruct E2 as [-> |[-> Hpos]]; [done|]. intros i [= <-]. lia.
Qed.

Lemma update_at_length {A} i (f : A → A) l l' :
  update_at i f l = Some l' → length l' = length l ∧ 0 < length l.
Proof.
  unfold update_at. destruct (l !! i) as [x|] eqn:E; cbn [mbind option_bind]; [|done].
  intros [= <-]. rewrite length_insert. apply lookup_lt_Some in E. lia.
Qed.

Lemma keeps_search_input w s ch : keeps w s (Actions.search_input window clock config rfuel ch s).
Proof.
  unfold Actions.search_input. destruct (SearchState.history_index (search_state s)) as [index|]; [|keeps].
  apply keeps_bind.
  - destruct index as [|index]; [keeps|]. apply keeps_any. intros regex _. apply keeps_any.
    intros l [El Hl]%update_at_length. apply keeps_some. apply (ok_set_history _ _ _ l); [ok_pure|done|].
    intros x. split; [done|]. right. split; [done|lia].
  - intros s1. apply keeps_any. intros regex _. destruct (Actions.edit_regex ch regex) as [edited|]; [|keeps].
    apply keeps_any. intros l [El _]%update_at_length.
    assert (ok_step w s1 (upd_search (SearchState.set_history l) s1)) as Hs1.
    { apply (ok_set_history _ _ _ l); [ok_pure|done|]. intros x. split; [done|by left]. }
    cbv zeta. eapply keeps_from; [|apply keeps_update_search]. ok_pure.
Qed.
#[local] Hint Resolve keeps_search_input : ctx.

Lemma keeps_search_pop_word w s : keeps w s (Actions.search_pop_word window clock config rfuel s).
Proof.
  unfold Actions.search_pop_word. destruct (SearchState.history_index _) as [index|]; [|keeps].
  destruct (SearchState.regex _) as [regex|]; [|keeps]. apply keeps_any. intros l [El _]%update_at_length.
  eapply keeps_from; [|apply keeps_update_search].
  apply (ok_set_history _ _ _ l); [ok_pure|done|]. intros x. split; [done|by left].
Qed.
#[local] Hint Resolve keeps_search_pop_word : ctx.

(** Moving in the history. *)
Lemma ok_set_index w s i :
  i < length (SearchState.history (search_state s)) →
  ok_step w s (upd_search (SearchState.set_history_index (Some i)) s).
Proof.
  intros Hi [[Hl Hx] Ht Hq]. split; [|done]. split; [|done|done]. split; [done|]. by intros j [= <-].
Qed.

Lemma keeps_search_history_previous w s :
  keeps w s (Actions.search_history_previous window clock config rfuel s).
Proof.
  unfold Actions.search_history_previous. destruct (SearchState.history_index _) as [index|]; [|keeps].
  destruct (Nat.leb_spec (length (SearchState.history (search_state s))) (index + 1)); [keeps|].
  eapply keeps_from; [|apply keeps_update_search]. by apply ok_set_index.
Qed.
#[local] Hint Resolve keeps_search_history_previous : ctx.

Lemma keeps_search_history_next w s :
  keeps w s (Actions.search_history_next window clock config rfuel s).
Proof.
  unfold Actions.search_history_next. destruct (SearchState.history_index _) as [[|index]|] eqn:E; [keeps| |keeps].
  eapply keeps_from; [|apply keeps_update_search]. intros Hs. apply ok_set_index; [|done].
  destruct Hs as [[_ Hx] _ _]. apply Hx in E. lia.
Qed.
#[local] Hint Resolve keeps_search_history_next : ctx.

Lemma keeps_advance_search_origin w s d :
  keeps w s (Actions.advance_search_origin window clock rfuel d s).
Proof. unfold Actions.advance_search_origin. keeps. Qed.
#[local] Hint Resolve keeps_advance_search_origin : ctx.

Lemma keeps_seeded_target w s d p : keeps_snd w s (Actions.seeded_target rfuel d p s).
Proof. unfold Actions.seeded_target. keeps. Qed.
#[local] Hint Resolve keeps_seeded_target : ctx.

Lemma keeps_start_seeded_search w s d t :
  keeps w s (Actions.start_seeded_search window clock config rfuel d t s).
Proof.
  unfold Actions.start_seeded_search. apply keeps_bind; [keeps|]. intros s1.
  apply keeps_bind; [apply keeps_foldM; intros; keeps|]. intros s2. keeps.
Qed.
#[local] Hint Resolve keeps_start_seeded_search : ctx.

(** ** Inline search, text, hints *)

Lemma ok_start_inline_search w s s1 d b :
  ok_step w s s1 → ok_step w s (Actions.start_inline_search d b s1).
Proof. intros Hs. unfold Actions.start_inline_search. ok_pure. Qed.

Lemma keeps_inline_search w s d : keeps w s (Actions.inline_search d s).
Proof. unfold Actions.inline_search. keeps. Qed.
#[local] Hint Resolve keeps_inline_search : ctx.

Lemma keeps_inline_search_input w s t : keeps w s (Actions.inline_search_input t s).
Proof.
  unfold Actions.inline_search_input. destruct t as [|c t]; [keeps|].
  unfold Actions.inline_search_next. eapply keeps_from; [|apply keeps_inline_search]. ok_pure.
Qed.
#[local] Hint Resolve keeps_inline_search_input : ctx.

Lemma keeps_on_terminal_input_start w s :
  keeps w s (Actions.on_terminal_input_start window clock config s).
Proof. unfold Actions.on_terminal_input_start. keeps. Qed.
#[local] Hint Resolve keeps_on_terminal_input_start : ctx.

(** Pasting sends. *)
Lemma keeps_paste s t b : keeps Loud s (Actions.paste window clock config rfuel t b s).
Proof.
  unfold Actions.paste. destruct (Actions.search_active s).
  { apply keeps_foldM. intros; keeps. }
  keeps.
Qed.
#[local] Hint Resolve keeps_paste : ctx.

Lemma ok_pop_message w s s1 : ok_step w s s1 → ok_step w s (Actions.pop_message s1).
Proof. intros Hs. unfold Actions.pop_message. ok_pure. Qed.

Lemma keeps_toggle_vi_mode w s : keeps w s (Actions.toggle_vi_mode window config s).
Proof.
  unfold Actions.toggle_vi_mode. set (s1 := if vi_mode s then _ else _).
  assert (ok_step w s s1) as Hs1 by (unfold s1; ok_pure).
  eapply keeps_from; [exact Hs1|]. clearbody s1. cbv zeta. keeps.
Qed.
#[local] Hint Resolve keeps_toggle_vi_mode : ctx.

(** A hint pastes only if its action says so. *)
Lemma keeps_trigger_hint w s hint :
  w ≠ Quiet ∨ pastes_hint (HintMatch.hint hint) = false →
  keeps w s (Actions.trigger_hint window clock config rfuel hint s).
Proof.
  intros Hw. unfold Actions.trigger_hint. destruct (Mouse.block_hint_launcher _); [keeps|].
  apply keeps_any. intros [[t|] m] _; [|keeps]. unfold HintMatch.action.
  unfold pastes_hint in Hw. destruct (hint_action (HintMatch.hint hint)) as [[]|]; [keeps| |keeps..].
  destruct Hw as [Hw|Hw]; [by apply keeps_louder, keeps_paste|]. by apply bool_decide_eq_false in Hw.
Qed.

(** A property of the context can be used for the operation. *)
Lemma keeps_inv w s m : (ctx_inv w s → keeps w s m) → keeps w s m.
Proof. intros Hm. apply keeps_intro. intros s' E Hs. by apply (keeps_elim _ _ _ (Hm Hs)). Qed.

(** The hint state keeps its hint, or stops. *)
Lemma keyboard_input_hint term ch (hs hs' : HintState.t) r :
  HintState.keyboard_input rfuel term ch hs = Some (r, hs') →
  (HintState.hint hs' = HintState.hint hs ∨ HintState.hint hs' = None) ∧
  (∀ m, r = Some m → HintState.hint hs = Some (HintMatch.hint m)).
Proof.
  unfold HintState.keyboard_input. cbv zeta.
  set (hs1 := if ((ch =? 8)%N || (ch =? 31)%N) then _ else _).
  assert (HintState.hint hs1 = HintState.hint hs ∨ HintState.hint hs1 = None) as Hs1.
  { unfold hs1. repeat case_match; auto. }
  clearbody hs1.
  destruct (HintState.update_matches rfuel term hs1) as [hs2|] eqn:Eu; cbn [mbind option_bind]; [|done].
  assert (HintState.hint hs2 = HintState.hint hs1 ∨ HintState.hint hs2 = None) as Hs2.
  { revert Eu. unfold HintState.update_matches. destruct (HintState.hint hs1) as [h|] eqn:Eh;
      [|intros [= <-]; auto].
    destruct (HintState.find_matches _ _ _ _) as [[found regex]|]; cbn [mbind option_bind]; [|done].
    unfold HintState.label_matches. destruct found; [intros [= <-]; auto|].
    destruct (HintLabels.new _) as [g|]; cbn [mbind option_bind]; [|done].
    destruct (HintState.assign_labels _ _ _ _) as [l|]; cbn [mbind option_bind]; [|done].
    intros [= <-]. auto. }
  unfold HintState.select_label. intros Es.
  assert ((HintState.hint hs' = HintState.hint hs2 ∨ HintState.hint hs' = None) ∧
    ∀ m, r = Some m → HintState.hint hs2 = Some (HintMatch.hint m)) as [H1' H2'].
  { destruct (HintState.hint hs2) as [h|] eqn:Eh; [|injection Es as <- <-; split; [by left|by intros]].
    destruct (HintState.find_label _ _ _) as [[index label]|]; [|injection Es as <- <-; split; [by left|by intros]].
    destruct (length label =? 1); [|injection Es as <- <-; split; [by left|by intros]].
    destruct (HintState.matches hs2 !! index) as [bounds|]; cbn [mbind option_bind] in Es; [|done].
    destruct (Grid.index_point _ _) as [cell|]; cbn [mbind option_bind] in Es; [|done].
    injection Es as <- <-. split; [|by intros m [= <-]]. destruct (hint_persist h); auto. }
  split.
  - destruct H1', Hs2, Hs1; first [left; congruence|right; congruence].
  - intros m Em. pose proof (H2' m Em) as E2.
    destruct Hs2 as [E|E]; [|congruence]. destruct Hs1 as [E'|E']; congruence.
Qed.

Lemma keeps_hint_input w s ch : keeps w s (Actions.hint_input window clock config rfuel ch s).
Proof.
  apply keeps_inv. intros Hs. unfold Actions.hint_input. apply keeps_any. intros [r hs] Er.
  destruct (keyboard_input_hint _ _ _ _ _ Er) as [Hh Hr].
  set (s1 := upd_display _ s).
  assert (ok_step w s s1) as Hs1.
  { intros [H1' H2' Hq]. split; [|done]. split; [done|done|]. destruct Hq as [?|[Hq1 Hq2]]; [by left|right].
    split; [|exact Hq2]. intros h Eh. change (HintState.hint hs = Some h) in Eh.
    destruct Hh as [E|E]; [|congruence]. apply Hq1. congruence. }
  cbv zeta. eapply keeps_from; [exact Hs1|]. apply keeps_bind; [|intros; keeps].
  destruct r as [m|]; [|keeps]. eapply keeps_from; [|apply keeps_trigger_hint]; [ok_pure|].
  destruct (inv_hints _ _ Hs) as [?|[Hq _]]; [by left|right]. apply Hq. by apply Hr.
Qed.
End Operations.

#[export] Hint Resolve keeps_upd_terminal keeps_update_cursor_blinking keeps_on_typing_start
  keeps_copy_selection keeps_start_selection keeps_toggle_selection keeps_scroll
  keeps_expand_selection keeps_vi_goto_point keeps_search_next keeps_goto_match keeps_start_search
  keeps_cancel_search keeps_confirm_search keeps_search_input keeps_search_pop_word
  keeps_search_history_previous keeps_search_history_next keeps_advance_search_origin
  keeps_start_seeded_search keeps_inline_search keeps_inline_search_input
  keeps_on_terminal_input_start keeps_paste keeps_toggle_vi_mode keeps_hint_input : ctx.

Ltac ok_more ::=
  first
    [ (apply ok_unscheduled; [|discriminate]) | apply ok_set_ime | apply ok_clear_selection | apply ok_update_selection
    | apply ok_set_selection | apply ok_set_vi_point | apply ok_exit_search | apply ok_pop_message
    | apply ok_start_inline_search ].
