(* ===== verification/InputProps.v ===== *)
(** Every action, every event of the mouse and of the window keeps the invariant of the context; in
    vi mode no key sends anything to the program in the terminal. *)
From S2P Require Import Prelude Index Cells TermData Grids Terms Handlers Searches ViModes Selections Keys Bindings DefaultBindings BindingProps Keyboards KeyProps Schedulers FrameDamages Hints Messages Mice Contexts Actions Inputs WindowEvents ContextProps.
#[local] Open Scope nat_scope.
#[local] Set Default Proof Using "Type".

Section Actions.
Context `{External} `{Winit} `{RegexCompiler} {W : Type} `{EqDecision W}.
Context (window : W) (clock : nat → N) (clipboard_load : list Effect → ClipboardType → text).
Context (config : UiConfig.t) (rfuel : nat).
Import Context.
#[local] Abbreviation ctx := (Context.t W).
Implicit Types (s : ctx) (w : Kind).

(** * Actions *)

Lemma keeps_select w s ty : keeps w s (Inputs.toggle_selection_action config ty s).
Proof. unfold Inputs.toggle_selection_action. keeps. Qed.
#[local] Hint Resolve keeps_select : ctx.

Lemma keeps_goto_next_match w s step d side pick :
  keeps w s (Inputs.goto_next_match rfuel step d side pick s).
Proof. unfold Inputs.goto_next_match. keeps. Qed.
#[local] Hint Resolve keeps_goto_next_match : ctx.

Lemma keeps_execute_vi w s a : keeps w s (Inputs.execute_vi window clock config rfuel a s).
Proof.
  apply keeps_inv. intros Hs. destruct a; unfold Inputs.execute_vi; try solve [keeps].
  (* Opening the highlighted hint. *)
  assert (w ≠ Quiet ∨ ∀ m, Display.vi_highlighted_hint (display s) = Some m →
    pastes_hint (HintMatch.hint m) = false) as Hq by (destruct (inv_hints _ _ Hs) as [|[]]; auto).
  eapply keeps_from; [|apply keeps_bind].
  - apply ok_refl.
  - destruct (Display.vi_highlighted_hint (display s)) as [m|]; [|apply keeps_some].
    + eapply keeps_from; [|apply keeps_trigger_hint; destruct Hq; auto].
      apply ok_set_mouse; [|reflexivity]. apply ok_upd_display; [ok_pure|]. right. intros d [Hd1 _]. by split.
    + apply ok_upd_display; [ok_pure|]. right. intros d [Hd1 _]. by split.
  - intros s'. apply keeps_some, ok_upd_display; [ok_pure|].
    destruct Hq as [|Hq]; [by left|right]. intros d [Hd1 _]. by split.
Qed.
#[local] Hint Resolve keeps_execute_vi : ctx.

Lemma keeps_execute_search w s a : keeps w s (Inputs.execute_search window clock config rfuel a s).
Proof. destruct a; unfold Inputs.execute_search; keeps. Qed.
#[local] Hint Resolve keeps_execute_search : ctx.

Lemma keeps_scroll_page w s sc n : keeps w s (Inputs.scroll_page window clock config sc n s).
Proof.
  unfold Inputs.scroll_page. apply keeps_any. intros p _. cbv zeta.
  eapply keeps_from; [|apply keeps_scroll]. ok_pure.
Qed.
#[local] Hint Resolve keeps_scroll_page : ctx.

Lemma keeps_vi_motion w s m : keeps w s (Inputs.vi_motion m s).
Proof. unfold Inputs.vi_motion. keeps. Qed.
#[local] Hint Resolve keeps_vi_motion : ctx.

Lemma ok_call w s s1 c : ok_step w s s1 → ok_step w s (Inputs.call c s1).
Proof. intros Hs. unfold Inputs.call. ok_pure. Qed.

Lemma ok_execute_window w s s1 a : ok_step w s s1 → ok_step w s (Inputs.execute_window config a s1).
Proof.
  intros Hs. unfold Inputs.execute_window.
  destruct a; first [exact Hs|apply ok_emit; [exact Hs|by right]|repeat case_match; auto using ok_call].
Qed.

Lemma ok_start_hint w s h :
  w ≠ Quiet ∨ pastes_hint h = false → ok_step w s (Inputs.start_hint h s).
Proof.
  intros Hh. unfold Inputs.start_hint. apply ok_set_dirty, ok_upd_display; [ok_pure|].
  destruct Hh as [|Hh]; [by left|right]. intros d [_ Hd2]. split; [|exact Hd2]. by intros h' [= <-].
Qed.

Lemma keeps_execute w s a :
  w ≠ Quiet ∨ writes a = false ∧ pastes a = false →
  keeps w s (Inputs.execute window clock clipboard_load config rfuel a s).
Proof.
  intros Hw. unfold Inputs.execute.
  destruct a; try solve [apply keeps_some, ok_execute_window, ok_refl | keeps];
    try (destruct Hw as [Hw|[Hw1 Hw2]]; [apply keeps_louder; [exact Hw|keeps]|discriminate]).
  apply keeps_some, ok_start_hint. destruct Hw as [|[_ Hw]]; [by left|by right].
Qed.

(** * The mouse *)

Lemma keeps_loud_execute s a :
  keeps Loud s (Inputs.execute window clock clipboard_load config rfuel a s).
Proof. apply keeps_execute. by left. Qed.
#[local] Hint Resolve keeps_loud_execute : ctx.

(** A loop with a context in its state. *)
Lemma keeps_snd_foldM {A B} w s (f : A → B * ctx → option (B * ctx)) l b :
  (∀ a b s', keeps_snd w s' (f a (b, s'))) → keeps_snd w s (foldM f l (b, s)).
Proof.
  intros Hf. revert b s. induction l as [|a l IH]; intros b s; cbn [foldM].
  - apply keeps_snd_some, ok_refl.
  - apply keeps_snd_bind_pair; [done|]. intros b' s'. apply IH.
Qed.

Lemma keeps_process_mouse_bindings s e :
  keeps_snd Loud s (Inputs.process_mouse_bindings window clock clipboard_load config rfuel e s).
Proof.
  assert (∀ mode mods allowed b found s', keeps_snd Loud s'
    (Inputs.run_mouse_binding window clock clipboard_load config rfuel mode mods e allowed b (found, s')))
    as Hrun by (intros; unfold Inputs.run_mouse_binding; keeps).
  unfold Inputs.process_mouse_bindings. apply keeps_snd_bind_pair; [by apply keeps_snd_foldM|].
  intros found s'. destruct (_ && _); [by apply keeps_snd_foldM|]. keeps.
Qed.
#[local] Hint Resolve keeps_process_mouse_bindings : ctx.

Lemma keeps_mouse_report s code state : keeps Loud s (Inputs.mouse_report code state s).
Proof. unfold Inputs.mouse_report. keeps. Qed.
#[local] Hint Resolve keeps_mouse_report : ctx.

Lemma keeps_trigger_true s hint : keeps Loud s (Actions.trigger_hint window clock config rfuel hint s).
Proof. apply keeps_trigger_hint. by left. Qed.
#[local] Hint Resolve keeps_trigger_true : ctx.

Lemma keeps_on_left_click w s p : keeps w s (Inputs.on_left_click config p s).
Proof. unfold Inputs.on_left_click. keeps. Qed.
#[local] Hint Resolve keeps_on_left_click : ctx.

(** Reading the clock does not change the timers. *)
Lemma ok_now w s s1 now x :
  ok_step w s s1 → Scheduler.now clock (scheduler s1) = (now, x) → ok_step w s (set_scheduler x s1).
Proof. intros Hs [= <- <-]. by apply ok_set_scheduler. Qed.

Lemma keeps_on_mouse_press s b : keeps Loud s (Inputs.on_mouse_press clock config b s).
Proof.
  unfold Inputs.on_mouse_press. destruct (_ && _); [keeps|].
  destruct (Scheduler.now clock (scheduler s)) as [now x] eqn:En.
  assert (ok_step Loud s (set_scheduler x s)) as Hs by (eapply ok_now; [ok_pure|done]).
  cbv zeta. apply keeps_any. intros p _. destruct b; [|apply keeps_some; ok_pure..].
  eapply keeps_from; [|apply keeps_on_left_click]. ok_pure.
Qed.
#[local] Hint Resolve keeps_on_mouse_press : ctx.

Lemma keeps_on_mouse_release s b :
  keeps Loud s (Inputs.on_mouse_release window clock config rfuel b s).
Proof.
  unfold Inputs.on_mouse_release. destruct (_ && _); [keeps|]. cbv zeta. apply keeps_bind; [keeps|].
  intros s'. destruct b; try solve [keeps];
    (eapply keeps_from; [|apply keeps_copy_selection]; ok_pure).
Qed.
#[local] Hint Resolve keeps_on_mouse_release : ctx.

Lemma ok_set_button_state w s s1 b st :
  ok_step w s s1 → ok_step w s (Inputs.set_button_state b st s1).
Proof. intros Hs. unfold Inputs.set_button_state. ok_pure. Qed.

Lemma keeps_reset_mouse_cursor w s : keeps w s (Inputs.reset_mouse_cursor s).
Proof. unfold Inputs.reset_mouse_cursor. keeps. Qed.
#[local] Hint Resolve keeps_reset_mouse_cursor : ctx.

Lemma keeps_mouse_input s st b :
  keeps Loud s (Inputs.mouse_input window clock clipboard_load config rfuel st b s).
Proof.
  unfold Inputs.mouse_input. cbv zeta. apply keeps_any. intros bar _. destruct (_ && _).
  - apply keeps_any. intros n _. apply keeps_any. intros n' _. apply keeps_some.
    apply ok_upd_display; [|by left]. apply ok_pop_message, ok_clear_selection, ok_set_button_state, ok_refl.
  - eapply keeps_from; [apply ok_set_button_state, ok_refl|]. keeps.
Qed.

Lemma keeps_update_selection_scrolling w s h st y :
  keeps w s (Inputs.update_selection_scrolling window clock h st y s).
Proof.
  unfold Inputs.update_selection_scrolling. cbv zeta. apply keeps_any. intros n _.
  destruct (_ || _); [|keeps]. apply keeps_any. intros delta _. apply keeps_any. intros _ _.
  apply keeps_some. apply ok_schedule; [by apply ok_unscheduled; [apply ok_refl|]|done|].
  intros Hs. by apply (unscheduled_free window w).
Qed.
#[local] Hint Resolve keeps_update_selection_scrolling : ctx.

Lemma keeps_report_motion s : keeps Loud s (Inputs.report_motion s).
Proof. unfold Inputs.report_motion. keeps. Qed.
#[local] Hint Resolve keeps_report_motion : ctx.

Lemma keeps_mouse_moved s h st x y : keeps Loud s (Inputs.mouse_moved window clock h st x y s).
Proof. unfold Inputs.mouse_moved. keeps. Qed.

Lemma keeps_repeatM w n f s : (∀ s', keeps w s' (f s')) → keeps w s (Inputs.repeatM n f s).
Proof.
  intros Hf. revert s. induction n as [|n IH]; intros s; cbn [Inputs.repeatM]; [keeps|].
  apply keeps_bind; [done|]. intros s'. apply IH.
Qed.

Lemma keeps_scroll_cells s lines columns up left_ :
  keeps Loud s (Inputs.scroll_cells window clock clipboard_load config rfuel lines columns up left_ s).
Proof.
  unfold Inputs.scroll_cells. cbv zeta. apply keeps_bind_pair; [keeps|]. intros bound s'.
  destruct bound; [apply keeps_repeatM; intros; keeps|]. destruct (Actions.mouse_mode s').
  - apply keeps_bind; [apply keeps_repeatM; intros; keeps|]. intros s2.
    apply keeps_repeatM. intros. keeps.
  - keeps.
Qed.
End Actions.
