(* ===== verification/TouchProps.v ===== *)
(** Properties of touch input and of the wheel: no scrolling is lost or made up, and the fingers
    that are tracked are on the screen, so that nothing is left once all of them are lifted. *)
From stdpp Require Import gmap.
From S2P Require Import Prelude Index Cells TermData Grids Terms Handlers Searches ViModes Selections Keys Bindings Schedulers FrameDamages Hints Messages Mice Contexts Actions Inputs Touches ContextProps InputProps.
#[local] Open Scope nat_scope.
#[local] Set Default Proof Using "Type".

(** * The wheel *)

(** The lines or columns of a scroll in a direction. *)
Definition signed (positive : bool) (n : nat) : Z := if positive then Z.of_nat n else (- Z.of_nat n)%Z.

(** What is scrolled, and what is accumulated afterwards, add up. *)
Lemma scrolled_exact (acc d m size : Z) :
  (0 < size → Z.abs acc < size → 0 ≤ m →
   signed (0 <? d) (Inputs.scrolled_cells (acc + d * m) size) * size + Z.rem (acc + d * m) size
   = acc + d * m
   ∧ Z.abs (Z.rem (acc + d * m) size) < size)%Z.
Proof.
  intros Hs Ha Hm. unfold Inputs.scrolled_cells, signed.
  pose proof (Z.quot_rem' (acc + d * m) size) as E.
  pose proof (Z.rem_bound_abs (acc + d * m) size ltac:(lia)) as Hr.
  split; [|lia]. rewrite Z2Nat.id by lia.
  assert (0 ≤ (acc + d * m) → 0 ≤ (acc + d * m) ÷ size)%Z as Hp by (intros; apply Z.quot_pos; lia).
  assert ((acc + d * m) ≤ 0 → (acc + d * m) ÷ size ≤ 0)%Z as Hn.
  { intros. rewrite <- (Z.opp_involutive (acc + d * m)) at 1. rewrite Z.quot_opp_l by lia.
    pose proof (Z.quot_pos (- (acc + d * m)) size). lia. }
  assert (Z.abs (acc + d * m) < size → (acc + d * m) ÷ size = 0)%Z as H0
    by (intros; by apply Z.quot_small_iff; lia).
  set (q := ((acc + d * m) ÷ size)%Z) in *. set (r := Z.rem (acc + d * m) size) in *.
  destruct (Z_lt_le_dec (Z.abs (acc + d * m)) size) as [Hlt|Hge].
  { rewrite H0 in * by done. destruct (_ <? _)%Z; lia. }
  destruct (Z.ltb_spec 0 d) as [Hd|Hd].
  - assert (0 ≤ acc + d * m)%Z by nia. rewrite Z.abs_eq by lia. lia.
  - assert (acc + d * m ≤ 0)%Z by nia. rewrite Z.abs_neq by lia. lia.
Qed.

Section Touches.
Context `{External} `{Winit} `{RegexCompiler} {W : Type} `{EqDecision W}.
Context (window : W) (clock : nat → N) (clipboard_load : list Effect → ClipboardType → text).
Context (config : UiConfig.t) (rfuel : nat) (min_height step : Z).
Import Context.
#[local] Abbreviation ctx := (Context.t W).
#[local] Abbreviation scroll_terminal :=
  (Inputs.scroll_terminal window clock clipboard_load config rfuel).
#[local] Abbreviation scroll_cells := (Inputs.scroll_cells window clock clipboard_load config rfuel).
#[local] Abbreviation mouse_moved := (Inputs.mouse_moved window clock min_height step).
#[local] Abbreviation mouse_input := (Inputs.mouse_input window clock clipboard_load config rfuel).
#[local] Abbreviation on_touch :=
  (Touches.on_touch window clock clipboard_load config rfuel min_height step).
#[local] Abbreviation on_touch_motion :=
  (Touches.on_touch_motion window clock clipboard_load config rfuel min_height step).
Implicit Types (s : ctx) (w : Kind).

Lemma keeps_scroll_terminal s x y m : keeps Free s (scroll_terminal x y m s).
Proof.
  unfold Inputs.scroll_terminal. apply keeps_any. intros _ _. cbv zeta.
  eapply keeps_from; [apply ok_accumulated, ok_refl|]. apply keeps_bind.
  - apply keeps_louder; [done|]. apply keeps_scroll_cells.
  - intros s'. apply keeps_some, ok_accumulated, ok_refl.
Qed.

Lemma keeps_mouse_wheel_input s delta phase :
  keeps Free s (Inputs.mouse_wheel_input window clock clipboard_load config rfuel delta phase s).
Proof.
  unfold Inputs.mouse_wheel_input. destruct delta as [columns lines|x y].
  - apply keeps_scroll_terminal.
  - destruct phase; [|destruct (Inputs.is_horizontal x y); apply keeps_scroll_terminal|..];
      apply keeps_some; [|apply ok_refl..].
    apply (ok_accumulated s s (λ _, (0, 0)%Z)), ok_refl.
Qed.

Lemma keeps_free_moved s x y : keeps Free s (mouse_moved x y s).
Proof. apply keeps_louder; [done|]. apply keeps_mouse_moved. Qed.
Lemma keeps_free_input s st b : keeps Free s (mouse_input st b s).
Proof. apply keeps_louder; [done|]. apply keeps_mouse_input. Qed.

Lemma keeps_on_touch_motion fuel e s : keeps Free s (on_touch_motion fuel e s).
Proof.
  revert s. induction fuel as [|fuel IH]; intros s; cbn [Touches.on_touch_motion]; [apply keeps_none|].
  destruct (touch s); try solve [apply keeps_some, ok_refl].
  - apply keeps_free_moved.
  - eapply keeps_from; [apply ok_set_touch, ok_refl|]. apply keeps_scroll_terminal.
  - apply keeps_some, ok_emit; [apply ok_set_touch, ok_refl|by right].
  - destruct (_ <? _)%Z.
    { cbv zeta. eapply keeps_from; [apply ok_set_touch, ok_refl|].
      apply keeps_bind; [apply keeps_free_moved|]. intros s1.
      apply keeps_bind; [apply keeps_free_input|]. intros s2. apply IH. }
    destruct (_ <? _)%Z; [|apply keeps_some, ok_refl].
    eapply keeps_from; [apply ok_set_touch, ok_refl|apply IH].
Qed.

Lemma keeps_on_touch phase e s : keeps Free s (on_touch phase e s).
Proof.
  assert (keeps Free s (Touches.on_touch_end window clock clipboard_load config rfuel min_height step e s))
    as Hend.
  { unfold Touches.on_touch_end. apply keeps_bind; [apply keeps_on_touch_motion|]. intros s1.
    destruct (touch s1); try solve [apply keeps_some; first [apply ok_refl|apply ok_set_touch, ok_refl]].
    - eapply keeps_from; [apply ok_set_touch, ok_refl|apply keeps_free_input].
    - cbv zeta. eapply keeps_from; [apply ok_set_touch, ok_refl|].
      apply keeps_bind; [apply keeps_free_moved|]. intros s2.
      apply keeps_bind; [apply keeps_free_input|]. intros s3.
      apply keeps_bind; [apply keeps_free_input|]. intros s4. apply keeps_some, ok_set_ime, ok_refl. }
  unfold Touches.on_touch. destruct phase; [|apply keeps_on_touch_motion|exact Hend..].
  apply keeps_some. unfold Touches.on_touch_start. cbv zeta. apply ok_set_touch.
  destruct (Term.is_focused _); [apply ok_refl|apply ok_set_ime, ok_refl].
Qed.

(** ** What the wheel scrolls *)

Lemma ok_fingers w s s' : w ≠ Free → ctx_inv w s → ok_step w s s' → ctx_inv w s' ∧ fingers s' = fingers s.
Proof. intros Hw Hs Hk. destruct (Hk Hs) as (Hs' & _ & Hf & _). auto. Qed.

(**  Scrolling with the wheel loses nothing and makes nothing up: the lines and columns that are
    scrolled, in the direction of the motion, and the pixels that stay accumulated, fewer than a
    cell, are together what was accumulated before and the motion times the multiplier (one when the
    program in the terminal handles the mouse).  The rest of the window changes as scrolling by
    these lines and columns changes it. *)
Theorem scroll_terminal_exact (x y multiplier : Z) s s' :
  let size := Display.size_info (display s) in
  let m := if Actions.mouse_mode s then 1%Z else multiplier in
  let '(ax, ay) := Mouse.accumulated_scroll (mouse s) in
  (0 ≤ multiplier)%Z → (Z.abs ax < SizeInfo.cell_width size)%Z →
  (Z.abs ay < SizeInfo.cell_height size)%Z →
  history_ok (search_state s) → timers_ok (scheduler s) →
  scroll_terminal x y multiplier s = Some s' →
  ∃ columns lines rx ry s1,
    (signed (0 <? x) columns * SizeInfo.cell_width size + rx = ax + x * m)%Z ∧
    (Z.abs rx < SizeInfo.cell_width size)%Z ∧
    (signed (0 <? y) lines * SizeInfo.cell_height size + ry = ay + y * m)%Z ∧
    (Z.abs ry < SizeInfo.cell_height size)%Z ∧
    scroll_cells lines columns (0 <? y)%Z (0 <? x)%Z
      (upd_mouse (Mouse.set_accumulated_scroll (ax + x * m, ay + y * m)%Z) s) = Some s1 ∧
    s' = upd_mouse (Mouse.set_accumulated_scroll (rx, ry)) s1.
Proof.
  cbv zeta. destruct (Mouse.accumulated_scroll (mouse s)) as [ax ay] eqn:Ea.
  intros Hm Hx Hy Hh Ht E. set (size := Display.size_info (display s)) in *.
  assert (0 ≤ if Actions.mouse_mode s then 1 else multiplier)%Z as Hm' by (by destruct (Actions.mouse_mode s)).
  unfold Inputs.scroll_terminal in E. fold size in E.
  destruct (ensure _) as [_u|]; cbn [mbind option_bind] in E; [|done].
  cbv zeta in E. set (m := if Actions.mouse_mode s then 1%Z else multiplier) in *.
  set (s0 := upd_mouse _ s) in E.
  assert (s0 = upd_mouse (Mouse.set_accumulated_scroll (ax + x * m, ay + y * m)%Z) s) as Es0.
  { unfold s0, upd_mouse. by rewrite Ea. }
  assert (Mouse.accumulated_scroll (mouse s0) = (ax + x * m, ay + y * m)%Z) as Ea0 by (by rewrite Es0).
  clearbody s0. rewrite Ea0 in E. cbn [fst snd] in E.
  destruct (scroll_cells _ _ _ _ s0) as [s1|] eqn:E1; cbn [mbind option_bind] in E; [|done].
  injection E as <-.
  destruct (scrolled_exact ax x m (SizeInfo.cell_width size)) as [Ex Rx]; [lia..|].
  destruct (scrolled_exact ay y m (SizeInfo.cell_height size)) as [Ey Ry]; [lia..|].
  do 4 eexists. exists s1. split_and!; [exact Ex|exact Rx|exact Ey|exact Ry|by rewrite <- Es0|].
  assert (ctx_inv Loud s0) as Hi by (rewrite Es0; split; [done|done|by left]).
  pose proof (keeps_elim _ _ _ (keeps_scroll_cells window clock clipboard_load config rfuel s0 _ _ _ _)
    _ E1) as Hk.
  apply ok_fingers in Hk as [_ Hf]; [|done|done]. unfold fingers in Hf. rewrite Ea0 in Hf.
  injection Hf as _ Ea1. unfold upd_mouse. by rewrite Ea1.
Qed.

(** ** The purpose of a touch *)

(** The gestures as an automaton of their own, without the input they simulate. *)
Definition moved_purpose (e : TouchEvent) (p : TouchPurpose.t) : TouchPurpose.t :=
  match p with
  | TouchPurpose.Tap start =>
      if (MAX_TAP_DISTANCE <? Z.abs ((location e).1 - (location start).1))%Z
      then TouchPurpose.Select start
      else if (MAX_TAP_DISTANCE <? Z.abs ((location e).2 - (location start).2))%Z
      then TouchPurpose.Scroll e else p
  | TouchPurpose.Zoom slots => TouchPurpose.Zoom (TouchZoom.update_slots e slots)
  | TouchPurpose.Scroll _ => TouchPurpose.Scroll e
  | p => p
  end.

Definition ended_purpose (e : TouchEvent) (p : TouchPurpose.t) : TouchPurpose.t :=
  match moved_purpose e p with
  | TouchPurpose.Zoom slots =>
      TouchPurpose.ZoomPendingSlot (if (touch_id slots.1 =? touch_id e)%N then slots.2 else slots.1)
  | TouchPurpose.Invalid slots =>
      let slots := slots ∖ {[ touch_id e ]} in
      if bool_decide (slots = ∅) then TouchPurpose.NoPurpose else TouchPurpose.Invalid slots
  | _ => TouchPurpose.NoPurpose
  end.

Definition gesture (phase : TouchPhase) (e : TouchEvent) (p : TouchPurpose.t) : TouchPurpose.t :=
  match phase with
  | PhaseStarted => Touches.start_purpose e p
  | PhaseMoved => moved_purpose e p
  | PhaseEnded | PhaseCancelled => ended_purpose e p
  end.

Lemma loud_touch s s' : ctx_inv Loud s → ok_step Loud s s' → ctx_inv Loud s' ∧ touch s' = touch s.
Proof. intros Hs Hk. destruct (ok_fingers Loud s s') as [Hs' [= E _]]; done. Qed.

Lemma moved_touch s x y s' :
  ctx_inv Loud s → mouse_moved x y s = Some s' → ctx_inv Loud s' ∧ touch s' = touch s.
Proof.
  intros Hs E. apply (loud_touch s); [done|]. eapply keeps_elim; [apply keeps_mouse_moved|exact E].
Qed.
Lemma input_touch s st b s' :
  ctx_inv Loud s → mouse_input st b s = Some s' → ctx_inv Loud s' ∧ touch s' = touch s.
Proof.
  intros Hs E. apply (loud_touch s); [done|]. eapply keeps_elim; [apply keeps_mouse_input|exact E].
Qed.
Lemma set_touch_inv s p : ctx_inv Loud s → ctx_inv Loud (set_touch p s).
Proof. intros [Hh Ht Hi]. split; [exact Hh|exact Ht|exact Hi]. Qed.
Lemma upd_mouse_inv s f : ctx_inv Loud s → ctx_inv Loud (upd_mouse f s).
Proof. intros [Hh Ht Hi]. split; [exact Hh|exact Ht|exact Hi]. Qed.
Lemma scroll_touch s x y m s' :
  ctx_inv Loud s → scroll_terminal x y m s = Some s' → ctx_inv Loud s' ∧ touch s' = touch s.
Proof.
  intros Hs. unfold Inputs.scroll_terminal. destruct (ensure _); cbn [mbind option_bind]; [|done].
  cbv zeta. set (s0 := upd_mouse _ s).
  assert (ctx_inv Loud s0) as Hs0 by by apply upd_mouse_inv.
  destruct (Inputs.scroll_cells _ _ _ _ _ _ _ _ _ _) as [s1|] eqn:E1; cbn [mbind option_bind]; [|done].
  intros [= <-]. apply (keeps_elim _ _ _ (keeps_scroll_cells _ _ _ _ _ _ _ _ _ _)) in E1.
  apply loud_touch in E1 as [Hs1 Et]; [|done]. split; [by apply upd_mouse_inv|exact Et].
Qed.

Definition is_tap (p : TouchPurpose.t) : bool := match p with TouchPurpose.Tap _ => true | _ => false end.

(** A motion that does not start a gesture. *)
Lemma motion_continues n e s s' :
  is_tap (touch s) = false → ctx_inv Loud s → on_touch_motion (S n) e s = Some s' →
  ctx_inv Loud s' ∧ touch s' = moved_purpose e (touch s).
Proof.
  intros Hn Hs. cbn [Touches.on_touch_motion].
  destruct (touch s) eqn:Et; try discriminate; cbn [moved_purpose];
    try (intros [= <-]; by rewrite ?Et).
  - intros E%moved_touch; [|done]. by rewrite Et in E.
  - intros E%scroll_touch; [done|]. by apply set_touch_inv.
  - intros [= <-]. split; [|done]. destruct Hs as [Hh Ht Hi]. split; [exact Hh|exact Ht|exact Hi].
Qed.

Lemma motion_gesture n e s s' :
  ctx_inv Loud s → on_touch_motion (S (S n)) e s = Some s' →
  ctx_inv Loud s' ∧ touch s' = moved_purpose e (touch s).
Proof.
  intros Hs. destruct (is_tap (touch s)) eqn:Hn; [|by apply motion_continues].
  remember (S n) as fuel eqn:Ef. cbn [Touches.on_touch_motion].
  destruct (touch s) as [| | | | |start|] eqn:Et; try discriminate. cbn [moved_purpose].
  destruct (_ <? _)%Z.
  - cbv zeta. set (s0 := set_touch _ s). assert (ctx_inv Loud s0) as Hs0 by by apply set_touch_inv.
    destruct (mouse_moved _ _ s0) as [s1|] eqn:E1; cbn [mbind option_bind]; [|done].
    apply moved_touch in E1 as [Hs1 Et1]; [|done].
    destruct (mouse_input _ _ s1) as [s2|] eqn:E2; cbn [mbind option_bind]; [|done].
    apply input_touch in E2 as [Hs2 Et2]; [|done]. rewrite Et1 in Et2. subst fuel.
    intros E%motion_continues; [by rewrite Et2 in E|by rewrite Et2|done].
  - destruct (_ <? _)%Z.
    + subst fuel. intros E%motion_continues; [done|done|by apply set_touch_inv].
    + intros [= <-]. by rewrite Et.
Qed.

(** Touch input implements the gestures. *)
Lemma on_touch_gesture phase e s s' :
  ctx_inv Loud s → on_touch phase e s = Some s' →
  ctx_inv Loud s' ∧ touch s' = gesture phase e (touch s).
Proof.
  intros Hs.
  assert (Touches.on_touch_end window clock clipboard_load config rfuel min_height step e s = Some s' →
    ctx_inv Loud s' ∧ touch s' = ended_purpose e (touch s)) as Hend.
  { unfold Touches.on_touch_end, ended_purpose.
    destruct (on_touch_motion _ e s) as [s1|] eqn:E1; cbn [mbind option_bind]; [|done].
    apply motion_gesture in E1 as [Hs1 <-]; [|done].
    destruct (touch s1) eqn:Et1; try (intros [= <-]; split; [by apply set_touch_inv|done]).
    - intros [= <-]. done.
    - intros E%input_touch; [done|by apply set_touch_inv].
    - cbv zeta. set (s2 := set_touch _ s1).
      assert (ctx_inv Loud s2 ∧ touch s2 = TouchPurpose.NoPurpose) as [Hs2 Et2]
        by (split; [by apply set_touch_inv|done]). clearbody s2.
      destruct (mouse_moved _ _ s2) as [s3|] eqn:E3; cbn [mbind option_bind]; [|done].
      apply moved_touch in E3 as [Hs3 Et3]; [|done].
      destruct (mouse_input _ _ s3) as [s4|] eqn:E4; cbn [mbind option_bind]; [|done].
      apply input_touch in E4 as [Hs4 Et4]; [|done].
      destruct (mouse_input _ _ s4) as [s5|] eqn:E5; cbn [mbind option_bind]; [|done].
      apply input_touch in E5 as [Hs5 Et5]; [|done]. intros [= <-].
      destruct (loud_touch s5 (set_ime_inhibitor ImeInhibitor.TOUCH false s5)) as [Hs6 Et6];
        [done|apply ok_set_ime, ok_refl|]. split; [done|congruence]. }
  unfold Touches.on_touch. destruct phase; [|by apply motion_gesture|exact Hend..].
  intros [= <-]. unfold Touches.on_touch_start. cbv zeta.
  set (s0 := if Term.is_focused _ then _ else _).
  assert (ctx_inv Loud s0 ∧ touch s0 = touch s) as [Hs0 Et0].
  { unfold s0. destruct (Term.is_focused _); [done|]. apply loud_touch; [done|apply ok_set_ime, ok_refl]. }
  split; [by apply set_touch_inv|]. cbn. by rewrite Et0.
Qed.

(** Two calls are enough for a motion. *)
Lemma motion_enough n e s :
  ctx_inv Loud s → on_touch_motion (S (S n)) e s = on_touch_motion Touches.MOTION_FUEL e s.
Proof.
  intros Hs. unfold Touches.MOTION_FUEL.
  assert (∀ k s, is_tap (touch s) = false → on_touch_motion (S k) e s = on_touch_motion 1 e s) as Hone.
  { intros k s0 Hn. cbn [Touches.on_touch_motion]. by destruct (touch s0). }
  destruct (is_tap (touch s)) eqn:Hn; [|by rewrite (Hone (S n) s), (Hone 1 s)].
  remember (S n) as fuel eqn:Ef. remember 1 as one eqn:E1. cbn [Touches.on_touch_motion].
  destruct (touch s) as [| | | | |start|] eqn:Et; try discriminate.
  destruct (_ <? _)%Z; [|destruct (_ <? _)%Z; [|done]; subst; by apply Hone].
  cbv zeta. set (s0 := set_touch _ s). assert (ctx_inv Loud s0) as Hs0 by by apply set_touch_inv.
  destruct (mouse_moved _ _ s0) as [s1|] eqn:Em; cbn [mbind option_bind]; [|done].
  apply moved_touch in Em as [Hs1 Et1]; [|done].
  destruct (mouse_input _ _ s1) as [s2|] eqn:Ei; cbn [mbind option_bind]; [|done].
  apply input_touch in Ei as [Hs2 Et2]; [|done]. subst. apply Hone. by rewrite Et2, Et1.
Qed.

End Touches.

(** ** Fingers *)

(** The fingers a purpose remembers. *)
Definition tracked (p : TouchPurpose.t) : gset N :=
  match p with
  | TouchPurpose.NoPurpose => ∅
  | TouchPurpose.Select e | TouchPurpose.Scroll e | TouchPurpose.ZoomPendingSlot e
  | TouchPurpose.Tap e => {[ touch_id e ]}
  | TouchPurpose.Zoom slots => {[ touch_id slots.1; touch_id slots.2 ]}
  | TouchPurpose.Invalid slots => slots
  end.

(** Zooming takes two fingers, and an invalid gesture has one. *)
Definition purpose_ok (p : TouchPurpose.t) : Prop :=
  match p with
  | TouchPurpose.Zoom slots => touch_id slots.1 ≠ touch_id slots.2
  | TouchPurpose.Invalid slots => slots ≠ ∅
  | _ => True
  end.

Definition tracks (F : gset N) (p : TouchPurpose.t) : Prop := purpose_ok p ∧ tracked p ⊆ F.

Lemma tracks_start F e p :
  touch_id e ∉ F → tracks F p → tracks ({[ touch_id e ]} ∪ F) (Touches.start_purpose e p).
Proof.
  intros He [Hp Ht]. destruct p as [|x|x|slots|x|x|slots]; split; simpl in *;
    first [done|set_solver].
Qed.

Lemma tracks_moved F e p : touch_id e ∈ F → tracks F p → tracks F (moved_purpose e p).
Proof.
  intros He [Hp Ht]. destruct p as [|x|x|slots|x|x|slots]; simpl in *; try done.
  - split; [done|]. simpl. set_solver.
  - unfold TouchZoom.update_slots. case_match eqn:E.
    + apply N.eqb_eq in E. split; simpl in *; [congruence|set_solver].
    + apply N.eqb_neq in E. split; simpl in *; [congruence|set_solver].
  - repeat case_match; split; simpl; first [done|set_solver].
Qed.

Lemma tracks_ended F e p :
  touch_id e ∈ F → tracks F p → tracks (F ∖ {[ touch_id e ]}) (ended_purpose e p).
Proof.
  intros He Hp. apply (tracks_moved F e) in Hp; [|done]. unfold ended_purpose.
  destruct (moved_purpose e p) as [|x|x|slots|x|x|slots] eqn:Em;
    try (split; [done|simpl; set_solver]).
  - destruct Hp as [Hn Ht]. simpl in *. split; [done|]. simpl.
    assert (touch_id slots.1 ∈ F ∧ touch_id slots.2 ∈ F) as [H1 H2] by set_solver.
    apply singleton_subseteq_l, elem_of_difference. rewrite elem_of_singleton.
    destruct (N.eqb_spec (touch_id slots.1) (touch_id e)) as [E|E]; [split; congruence|].
    split; [done|]. assert (touch_id slots.2 = touch_id e) as E2; [|congruence].
    (* The finger that is lifted is one of the two. *)
    destruct p; simpl in Em; try discriminate; [|by repeat case_match].
    injection Em as <-. unfold TouchZoom.update_slots in *.
    destruct (touch_id e =? touch_id zoom.1)%N; [by simpl in *|done].
  - destruct Hp as [Hn Ht]. simpl in *. case_bool_decide; split; simpl; first [done|set_solver].
Qed.

Lemma tracks_none p : tracks ∅ p → p = TouchPurpose.NoPurpose.
Proof.
  intros [Hp Ht]. destruct p as [|x|x|slots|x|x|slots]; simpl in *; first [done|set_solver].
Qed.
