(* ===== verification/ColorLists.v ===== *)
(** The colours of the display ([cutty/src/display/color.rs], [cutty/src/config/color.rs]): the list
    of all colours, the notation of a colour, and colours that refer to those of a cell.

    The colours of the escape sequences, their brighter and dimmer variants and the product of a
    colour and [DIM_FACTOR] are those of the crate vte: its named colours are numbered as documented
    there, and the functions on them are parameters. *)
From S2P Require Import Prelude Index Cells TermData Searches.
#[local] Open Scope nat_scope.

(** * [vte::ansi] *)

(** [enum NamedColor]. *)
Inductive NamedColor :=
  | Black | Red | Green | Yellow | Blue | Magenta | Cyan | White
  | BrightBlack | BrightRed | BrightGreen | BrightYellow | BrightBlue | BrightMagenta | BrightCyan
  | BrightWhite | Foreground | Background | CursorColor
  | DimBlack | DimRed | DimGreen | DimYellow | DimBlue | DimMagenta | DimCyan | DimWhite
  | BrightForeground | DimForeground.
#[export] Instance NamedColor_eq_dec : EqDecision NamedColor.
Proof. solve_decision. Defined.

Definition named_index (n : NamedColor) : nat :=
  match n with
  | Black => 0 | Red => 1 | Green => 2 | Yellow => 3 | Blue => 4 | Magenta => 5 | Cyan => 6
  | White => 7 | BrightBlack => 8 | BrightRed => 9 | BrightGreen => 10 | BrightYellow => 11
  | BrightBlue => 12 | BrightMagenta => 13 | BrightCyan => 14 | BrightWhite => 15
  | Foreground => 256 | Background => 257 | CursorColor => 258
  | DimBlack => 259 | DimRed => 260 | DimGreen => 261 | DimYellow => 262 | DimBlue => 263
  | DimMagenta => 264 | DimCyan => 265 | DimWhite => 266
  | BrightForeground => 267 | DimForeground => 268
  end.

(** [enum Color]. *)
Inductive ColorView `{External} := Spec (rgb : Rgb) | Named (n : NamedColor) | Indexed (index : N).

Class VteColors `{External} := {
  color_view : Color → ColorView;
  (** An index is a byte. *)
  color_view_byte c i : color_view c = Indexed i → (i < 256)%N;
  (** [Color::Named(NamedColor::Background)]. *)
  color_view_background c : color_view c = Named Background ↔ c = NamedBackground;
  to_bright : NamedColor → NamedColor;
  to_dim : NamedColor → NamedColor;
  rgb_new : N → N → N → Rgb;
  rgb_parts c : rgb_new (rgb_r c) (rgb_g c) (rgb_b c) = c;
  rgb_of_parts r g b :
    (r < 256 → g < 256 → b < 256 →
     rgb_r (rgb_new r g b) = r ∧ rgb_g (rgb_new r g b) = g ∧ rgb_b (rgb_new r g b) = b)%N;
  (** [Rgb * DIM_FACTOR]. *)
  rgb_dim : Rgb → Rgb;
  (** The contrast of two colours, a positive [f64], by its bits: their order is that of the
      numbers. *)
  rgb_contrast : Rgb → Rgb → N;
  CursorShape_HollowBlock : CursorShape;
}.

(** * The configuration ([cutty/src/config/color.rs]) *)

Section Config.
Context `{VteColors}.

(** [enum CellRgb]. *)
Inductive CellRgb := CellForeground | CellBackground | CellRgbOf (rgb : Rgb).
#[global] Instance CellRgb_eq_dec : EqDecision CellRgb.
Proof. solve_decision. Defined.

Definition cell_color (c : CellRgb) (foreground background : Rgb) : Rgb :=
  match c with CellForeground => foreground | CellBackground => background | CellRgbOf rgb => rgb end.

(** A foreground and a background. *)
Record CellColors := mkCellColors { colors_fg : CellRgb; colors_bg : CellRgb }.
Definition inverted_cell_colors : CellColors := mkCellColors CellBackground CellForeground.

(** [NormalColors], [BrightColors] and [DimColors]. *)
Record Palette := mkPalette {
  black : Rgb; red : Rgb; green : Rgb; yellow : Rgb; blue : Rgb; magenta : Rgb; cyan : Rgb;
  white : Rgb;
}.
Record PrimaryColors := mkPrimaryColors {
  primary_foreground : Rgb;
  primary_background : Rgb;
  bright_foreground : option Rgb;
  dim_foreground : option Rgb;
}.

Record ColorsConfig := mkColorsConfig {
  primary : PrimaryColors;
  cursor_colors : CellColors;
  vi_mode_cursor_colors : CellColors;
  selection_colors : CellColors;
  normal : Palette;
  bright : Palette;
  dim : option Palette;
  indexed_colors : list (N * Rgb);
  matches_colors : CellColors;
  focused_match_colors : CellColors;
  hint_start_colors : CellColors;
  hint_end_colors : CellColors;
  transparent_background_colors : bool;
  draw_bold_text_with_bright_colors : bool;
  line_indicator_foreground : option Rgb;
  line_indicator_background : option Rgb;
  footer_foreground : option Rgb;
  footer_background : option Rgb;
}.

Definition footer_bar_foreground (colors : ColorsConfig) : Rgb :=
  default (primary_background (primary colors)) (footer_foreground colors).
Definition footer_bar_background (colors : ColorsConfig) : Rgb :=
  default (primary_foreground (primary colors)) (footer_background colors).

#[local] Open Scope N_scope.
Definition default_primary : PrimaryColors :=
  mkPrimaryColors (rgb_new 216 216 216) (rgb_new 24 24 24) None None.
Definition default_normal : Palette :=
  mkPalette (rgb_new 24 24 24) (rgb_new 172 66 66) (rgb_new 144 169 89) (rgb_new 244 191 117)
    (rgb_new 106 159 181) (rgb_new 170 117 159) (rgb_new 117 181 170) (rgb_new 216 216 216).
Definition default_bright : Palette :=
  mkPalette (rgb_new 107 107 107) (rgb_new 197 85 85) (rgb_new 170 196 116) (rgb_new 254 202 136)
    (rgb_new 130 184 200) (rgb_new 194 140 184) (rgb_new 147 211 195) (rgb_new 248 248 248).
Definition default_dim : Palette :=
  mkPalette (rgb_new 15 15 15) (rgb_new 113 43 43) (rgb_new 95 111 58) (rgb_new 161 126 77)
    (rgb_new 69 104 119) (rgb_new 112 77 104) (rgb_new 77 119 112) (rgb_new 142 142 142).
Definition default_hint_start : CellColors :=
  mkCellColors (CellRgbOf (rgb_new 24 24 24)) (CellRgbOf (rgb_new 244 191 117)).
Definition default_hint_end : CellColors :=
  mkCellColors (CellRgbOf (rgb_new 24 24 24)) (CellRgbOf (rgb_new 172 66 66)).
Definition default_focused_match : CellColors :=
  mkCellColors (CellRgbOf (rgb_new 24 24 24)) (CellRgbOf (rgb_new 244 191 117)).
Definition default_matches : CellColors :=
  mkCellColors (CellRgbOf (rgb_new 24 24 24)) (CellRgbOf (rgb_new 172 66 66)).

(** An index below 16 is refused by [ColorIndex]. *)
Definition ColorIndex_deserialize (index : N) : result text N :=
  if (index <? 16) then Err [] else Ok index.
End Config.
#[global] Arguments ColorsConfig {_}.
#[global] Arguments CellRgb {_}.

(** * [struct List] *)

Module ColorList.
Section ops.
Context `{VteColors}.
Implicit Types (l : list Rgb) (colors : ColorsConfig).

(** [term::color::COUNT]. *)
Definition COUNT : nat := 269.

Definition set (i : nat) (c : Rgb) l : option (list Rgb) := update_at i (λ _, c) l.

Definition palette_colors (p : Palette) : list Rgb :=
  [black p; red p; green p; yellow p; blue p; magenta p; cyan p; white p].

(** The assignments of [fill_named], in order. *)
Definition named_colors colors : list (NamedColor * Rgb) :=
  zip [Black; Red; Green; Yellow; Blue; Magenta; Cyan; White] (palette_colors (normal colors))
  ++ zip [BrightBlack; BrightRed; BrightGreen; BrightYellow; BrightBlue; BrightMagenta; BrightCyan;
          BrightWhite] (palette_colors (bright colors))
  ++ [(BrightForeground,
       default (primary_foreground (primary colors)) (bright_foreground (primary colors)));
      (Foreground, primary_foreground (primary colors));
      (Background, primary_background (primary colors));
      (DimForeground,
       default (rgb_dim (primary_foreground (primary colors))) (dim_foreground (primary colors)))]
  ++ zip [DimBlack; DimRed; DimGreen; DimYellow; DimBlue; DimMagenta; DimCyan; DimWhite]
       (match dim colors with
        | Some dim => palette_colors dim
        | None => rgb_dim <$> palette_colors (normal colors)
        end).

Definition fill_named colors l : option (list Rgb) :=
  foldM (λ '(n, c), set (named_index n) c) (named_colors colors) l.

(** The colour the configuration gives an index, the first one that is found. *)
Definition find_indexed colors (index : N) : option Rgb :=
  option_map (λ x, x.2.2) (list_find (λ ic, ic.1 = index) (indexed_colors colors)).

Definition cube_value (x : nat) : N := if x =? 0 then 0%N else (N.of_nat x * 40 + 55)%N.
Definition cube : list (nat * nat * nat) :=
  r ← seq 0 6; g ← seq 0 6; b ← seq 0 6; [(r, g, b)].

(** One turn of a loop that fills the list from [index] on. *)
Definition fill_next {A} (color : nat → A → Rgb) (x : A) (st : nat * list Rgb) :
    option (nat * list Rgb) :=
  let '(index, l) := st in
  l ← set index (color index x) l; Some (index + 1, l).

Definition cube_color colors (index : nat) (rgb : nat * nat * nat) : Rgb :=
  let '(r, g, b) := rgb in
  match find_indexed colors (N.of_nat index mod 256)%N with
  | Some c => c
  | None => rgb_new (cube_value r) (cube_value g) (cube_value b)
  end.
Definition fill_cube colors l : option (list Rgb) :=
  '(index, l) ← foldM (fill_next (cube_color colors)) cube (16, l);
  _ ← ensure (index =? 232); Some l.

Definition gray_color colors (index i : nat) : Rgb :=
  match find_indexed colors (N.of_nat (16 + 216 + i)) with
  | Some c => c
  | None => let value := (N.of_nat i * 10 + 8)%N in rgb_new value value value
  end.
Definition fill_gray_ramp colors l : option (list Rgb) :=
  '(index, l) ← foldM (fill_next (gray_color colors)) (seq 0 24) (232, l);
  _ ← ensure (index =? 256); Some l.

Definition from colors : option (list Rgb) :=
  l ← fill_named colors (replicate COUNT (rgb_new 0 0 0));
  l ← fill_cube colors l;
  fill_gray_ramp colors l.
End ops.
End ColorList.

(** * The notation of a colour *)

Module RgbText.
Section ops.
Context `{VteColors}.
#[local] Open Scope N_scope.

Definition hex_digit (n : N) : char := if n <? 10 then 48 + n else 87 + n.
Definition hex_byte (n : N) : text := [hex_digit (n / 16); hex_digit (n mod 16)].

(** [Display]: [#rrggbb]. *)
Definition to_string (c : Rgb) : text :=
  35 :: hex_byte (rgb_r c) ++ hex_byte (rgb_g c) ++ hex_byte (rgb_b c).

Definition digit_value (ch : char) : option N :=
  if (48 <=? ch) && (ch <=? 57) then Some (ch - 48)
  else if (97 <=? ch) && (ch <=? 102) then Some (ch - 87)
  else if (65 <=? ch) && (ch <=? 70) then Some (ch - 55)
  else None.

Definition parse_digits (s : text) : option N :=
  foldM (λ ch n,
    d ← digit_value ch;
    let n := n * 16 + d in
    if n <? 4294967296 then Some n else None) s 0.

(** [u32::from_str_radix] in base 16: a plus sign may come first. *)
Definition from_str_radix (s : text) : option N :=
  match s with
  | [] => None
  | [43] => None
  | 43 :: s => parse_digits s
  | s => parse_digits s
  end.

Definition byte_length (s : text) : nat := length (concat (encode_utf8 <$> s)).

(** [FromStr]. *)
Definition from_str (s : text) : option Rgb :=
  chars ← (match s with
           | 48 :: 120 :: rest => if (byte_length s =? 8)%nat then Some rest else None
           | 35 :: rest => if (byte_length s =? 7)%nat then Some rest else None
           | _ => None
           end);
  color ← from_str_radix chars;
  let b := color mod 256 in
  let color := N.shiftr color 8 in
  let g := color mod 256 in
  let color := N.shiftr color 8 in
  let r := color mod 256 in
  Some (rgb_new r g b).
End ops.
End RgbText.

(** * Colours for examples *)

(** The colours of [Sample]: the background, the foreground, the indices from 2 on, then shades of
    gray. *)
Module ColorSample.
#[local] Existing Instance Sample.external.
#[local] Open Scope N_scope.

Definition view (c : Color) : ColorView :=
  if c =? 0 then Named Background else if c =? 1 then Named Foreground
  else if c <? 258 then Indexed (c - 2) else Spec (c - 258, c - 258, c - 258).

Lemma view_byte c i : view c = Indexed i → i < 256.
Proof. unfold view. repeat case_match; intros [= <-]; bools; lia. Qed.
Lemma view_background c : view c = Named Background ↔ c = NamedBackground.
Proof. unfold view. simpl. repeat case_match; bools; split; intros; simplify_eq; done || lia. Qed.

Definition bright (n : NamedColor) : NamedColor :=
  match n with
  | Black => BrightBlack | Red => BrightRed | Green => BrightGreen | Yellow => BrightYellow
  | Blue => BrightBlue | Magenta => BrightMagenta | Cyan => BrightCyan | White => BrightWhite
  | Foreground => BrightForeground | n => n
  end.
Definition dimmed (n : NamedColor) : NamedColor :=
  match n with
  | Black => DimBlack | Red => DimRed | Green => DimGreen | Yellow => DimYellow
  | Blue => DimBlue | Magenta => DimMagenta | Cyan => DimCyan | White => DimWhite
  | Foreground => DimForeground | n => n
  end.

#[export] Instance colors : VteColors := {|
  color_view := view; color_view_byte := view_byte; color_view_background := view_background;
  to_bright := bright; to_dim := dimmed;
  rgb_new := λ r g b, (r, g, b);
  rgb_parts := λ c, match c with (_, _, _) => eq_refl end;
  rgb_of_parts := λ r g b _ _ _, conj eq_refl (conj eq_refl eq_refl);
  rgb_dim := λ '(r, g, b), (r * 66 / 100, g * 66 / 100, b * 66 / 100);
  rgb_contrast := λ a b, if bool_decide (a = b) then 4607182418800017408 else 4626604192193052672;
  CursorShape_HollowBlock := 3;
|}.

(** The default configuration. *)
Definition config : ColorsConfig :=
  mkColorsConfig default_primary inverted_cell_colors inverted_cell_colors inverted_cell_colors
    default_normal default_bright None [] default_matches default_focused_match default_hint_start
    default_hint_end false false None None None None.
End ColorSample.
