(* ===== verification/ColorProps.v ===== *)
(** Properties of the colours: every entry of the list of colours, and the round trip of their
    notation. *)
From S2P Require Import Prelude Index Cells TermData Searches ColorLists.
#[local] Open Scope nat_scope.
#[local] Set Default Proof Using "Type".

Section Colors.
Context `{VteColors}.
Implicit Types (l : list Rgb) (colors : ColorsConfig) (c : Rgb).
Import ColorList.

(** * The list *)

Lemma set_lookup i c l :
  i < length l →
  ∃ l', set i c l = Some l' ∧ length l' = length l ∧ l' !! i = Some c ∧
    ∀ j, j ≠ i → l' !! j = l !! j.
Proof.
  intros Hi. destruct (lookup_lt_is_Some_2 l i Hi) as [x Ex]. eexists. unfold set.
  rewrite (update_at_ok _ _ _ _ Ex). split_and!; [done|apply length_insert|by apply list_lookup_insert_eq|].
  intros j Hj. by apply list_lookup_insert_ne.
Qed.

(** Assignments to distinct entries. *)
Lemma assign_lookup (ps : list (NamedColor * Rgb)) l :
  NoDup (named_index <$> ps.*1) → Forall (λ p, named_index p.1 < length l) ps →
  ∃ l', foldM (λ '(n, c), set (named_index n) c) ps l = Some l' ∧ length l' = length l ∧
    (∀ n c, (n, c) ∈ ps → l' !! named_index n = Some c) ∧
    ∀ j, j ∉ (named_index <$> ps.*1) → l' !! j = l !! j.
Proof.
  revert l. induction ps as [|[n c] ps IH]; intros l Hn Hp; cbn [foldM].
  { exists l. split_and!; [done|done| |done]. intros n c Hin. by apply elem_of_nil in Hin. }
  rewrite !fmap_cons in Hn. apply NoDup_cons in Hn as [Hni Hn]. apply Forall_cons in Hp as [Hl Hp].
  destruct (set_lookup (named_index n) c l Hl) as (l1 & -> & El & Ec & Eo). cbn [mbind option_bind].
  destruct (IH l1 Hn) as (l2 & -> & El2 & Ein & Eout); [by rewrite El|].
  exists l2. split_and!; [done|congruence| |].
  - intros m d [[= -> ->]|Hin]%elem_of_cons; [|by apply Ein]. by rewrite Eout.
  - intros j. rewrite !fmap_cons, not_elem_of_cons. intros [Hj Hjs]. rewrite Eout by done. by apply Eo.
Qed.

(** A loop that fills the list from an index on. *)
Lemma fill_loop_lookup {A} (color : nat → A → Rgb) xs i l :
  i + length xs <= length l →
  ∃ l', foldM (fill_next color) xs (i, l) = Some (i + length xs, l') ∧ length l' = length l ∧
    (∀ k x, xs !! k = Some x → l' !! (i + k) = Some (color (i + k) x)) ∧
    ∀ j, j < i ∨ i + length xs <= j → l' !! j = l !! j.
Proof.
  revert i l. induction xs as [|x xs IH]; intros i l Hi; cbn [foldM length] in *.
  { exists l. rewrite Nat.add_0_r. split_and!; [done|done| |done]. intros k x Hx. by rewrite lookup_nil in Hx. }
  unfold fill_next at 2. cbn beta iota.
  destruct (set_lookup i (color i x) l ltac:(lia)) as (l1 & -> & El & Ec & Eo). cbn [mbind option_bind].
  destruct (IH (i + 1) l1 ltac:(lia)) as (l2 & E & El2 & Ein & Eout).
  exists l2. rewrite E. split_and!; [do 2 f_equal; lia|congruence| |].
  - intros [|k] y; cbn [lookup list_lookup].
    + intros [= ->]. rewrite Nat.add_0_r, Eout by lia. done.
    + intros Hk. replace (i + S k) with (i + 1 + k) by lia. by apply Ein.
  - intros j Hj. rewrite Eout by lia. apply Eo. lia.
Qed.

Lemma cube_lookup k :
  k < 216 → cube !! k = Some (k / 36, (k / 6) mod 6, k mod 6).
Proof.
  intros Hk. assert (forallb (λ k, bool_decide (cube !! k = Some (k / 36, (k / 6) mod 6, k mod 6)))
    (seq 0 216) = true) as Hall by (vm_compute; reflexivity).
  rewrite forallb_forall in Hall. specialize (Hall k). rewrite bool_decide_eq_true in Hall.
  apply Hall, in_seq. lia.
Qed.

Lemma named_colors_indices colors :
  named_index <$> (named_colors colors).*1 =
  seq 0 16 ++ [267; 256; 257; 268] ++ seq 259 8.
Proof. unfold named_colors. destruct (dim colors); reflexivity. Qed.

(** The six levels of the cube. *)
Definition cube_level (k : nat) : N := default 0%N ([0; 95; 135; 175; 215; 255]%N !! k).
Lemma cube_value_level k : k < 6 → cube_value k = cube_level k.
Proof. intros Hk. do 6 (destruct k; [reflexivity|]). lia. Qed.

(** The colour of an index from the specification of 256 colours. *)
Definition standard_color (i : nat) : Rgb :=
  if i <? 232 then
    let k := i - 16 in
    rgb_new (cube_level (k / 36)) (cube_level ((k / 6) mod 6)) (cube_level (k mod 6))
  else let value := (N.of_nat (i - 232) * 10 + 8)%N in rgb_new value value value.

(**  The list of colours is computed without a panic and has an entry for every index: the named
    colours with their bright and dim variants, dim colours derived from the normal ones unless they
    are configured, the colours the configuration gives for the indices from 16 on, and otherwise
    the cube of 216 colours and 24 shades of gray.  The colour of the cursor stays black. *)
Theorem color_list_correct colors :
  ∃ l, from colors = Some l ∧ length l = COUNT ∧
    (∀ n c, (n, c) ∈ named_colors colors → l !! named_index n = Some c) ∧
    (∀ i, 16 <= i < 256 → l !! i = Some (default (standard_color i) (find_indexed colors (N.of_nat i)))) ∧
    l !! named_index CursorColor = Some (rgb_new 0 0 0).
Proof.
  unfold from, fill_named, fill_cube, fill_gray_ramp.
  destruct (assign_lookup (named_colors colors) (replicate COUNT (rgb_new 0 0 0)))
    as (l1 & -> & El1 & Ein1 & Eout1).
  { rewrite named_colors_indices. apply (bool_decide_unpack _). by vm_compute. }
  { apply Forall_forall. intros p Hp%(list_elem_of_fmap_2 fst)%(list_elem_of_fmap_2 named_index).
    rewrite named_colors_indices in Hp. rewrite length_replicate.
    assert (Forall (λ i, i < COUNT) (seq 0 16 ++ [267; 256; 257; 268] ++ seq 259 8)) as Hall
      by (apply (bool_decide_unpack _); by vm_compute).
    rewrite Forall_forall in Hall. by apply Hall. }
  rewrite length_replicate in El1. unfold COUNT in *. cbn [mbind option_bind].
  destruct (fill_loop_lookup (cube_color colors) cube 16 l1) as (l2 & -> & El2 & Ein2 & Eout2).
  { rewrite El1. apply Nat.leb_le. by vm_compute. }
  change (length cube) with 216 in *. cbn [mbind option_bind].
  destruct (fill_loop_lookup (gray_color colors) (seq 0 24) 232 l2) as (l3 & E3 & El3 & Ein3 & Eout3).
  { rewrite El2, El1, length_seq. lia. }
  change (ensure (16 + 216 =? 232)) with (Some tt). cbn [mbind option_bind]. rewrite E3.
  rewrite length_seq in *. change (ensure (232 + 24 =? 256)) with (Some tt). cbn [mbind option_bind].
  exists l3. split_and!; [done|congruence| | |].
  - intros n c Hn. assert (named_index n < 16 ∨ 256 <= named_index n) as Hb by (destruct n; simpl; lia).
    rewrite Eout3, Eout2 by lia. by apply Ein1.
  - intros i Hi. unfold standard_color. destruct (Nat.ltb_spec i 232) as [Hlt|Hge].
    + rewrite Eout3 by lia. replace i with (16 + (i - 16)) at 1 by lia.
      rewrite (Ein2 _ _ (cube_lookup (i - 16) ltac:(lia))).
      replace (16 + (i - 16)) with i by lia. f_equal. unfold cube_color.
      rewrite N.mod_small by lia. rewrite !cube_value_level; [by destruct (find_indexed _ _)|..].
      all: try (apply Nat.mod_upper_bound; lia). apply Nat.Div0.div_lt_upper_bound; lia.
    + replace i with (232 + (i - 232)) at 1 by lia.
      rewrite (Ein3 (i - 232) (i - 232)) by (rewrite lookup_seq_lt by lia; f_equal; lia).
      f_equal. unfold gray_color. replace (16 + 216 + (i - 232)) with i by lia.
      by destruct (find_indexed _ _).
  - rewrite Eout3, Eout2 by (simpl; lia). rewrite Eout1.
    + by rewrite lookup_replicate_2 by (simpl; lia).
    + rewrite named_colors_indices. apply (bool_decide_unpack _). by vm_compute.
Qed.

(** * The notation *)

Import RgbText.
#[local] Open Scope N_scope.

Lemma hex_digit_value n : n < 16 → digit_value (hex_digit n) = Some n ∧ hex_digit n < 128
  ∧ hex_digit n ≠ 43.
Proof.
  intros Hn. unfold hex_digit, digit_value. destruct (N.ltb_spec n 10).
  - replace ((48 <=? 48 + n) && (48 + n <=? 57)) with true by (symmetry; apply andb_true_iff; lia).
    split_and!; [f_equal; lia|lia|lia].
  - replace ((48 <=? 87 + n) && (87 + n <=? 57)) with false
      by (symmetry; apply andb_false_iff; right; apply N.leb_gt; lia).
    replace ((97 <=? 87 + n) && (87 + n <=? 102)) with true by (symmetry; apply andb_true_iff; lia).
    split_and!; [f_equal; lia|lia|lia].
Qed.

Lemma ascii_length (t : text) : Forall (λ ch, ch < 128) t → byte_length t = length t.
Proof.
  unfold byte_length. induction 1 as [|ch t Hch Ht IH]; [done|]. rewrite fmap_cons. cbn [concat].
  rewrite length_app, IH. unfold encode_utf8. by destruct (N.ltb_spec ch 128); [|lia].
Qed.

Lemma hex_byte_digits n :
  n < 256 → ∃ a b, hex_byte n = [hex_digit a; hex_digit b] ∧ a < 16 ∧ b < 16 ∧ n = a * 16 + b.
Proof.
  intros Hn. exists (n / 16), (n mod 16). split_and!; [done| |by apply N.mod_lt|].
  - by apply N.Div0.div_lt_upper_bound.
  - rewrite N.mul_comm. apply N.div_mod'.
Qed.

Lemma radix_no_sign ch (s : text) :
  ch ≠ 43 → from_str_radix (ch :: s) = parse_digits (ch :: s).
Proof. intros Hch. unfold from_str_radix. repeat case_match; simplify_eq; congruence. Qed.

Lemma byte_split n b :
  b < 256 → (n * 256 + b) mod 256 = b ∧ N.shiftr (n * 256 + b) 8 = n.
Proof.
  intros Hb. rewrite N.shiftr_div_pow2. change (2 ^ 8) with 256. split.
  - rewrite N.add_comm, N.Div0.mod_add. by apply N.mod_small.
  - rewrite N.div_add_l by done. rewrite N.div_small by done. lia.
Qed.

(**  A colour of bytes that is written as a string is read back. *)
Theorem rgb_text_roundtrip (c : Rgb) :
  rgb_r c < 256 → rgb_g c < 256 → rgb_b c < 256 → from_str (to_string c) = Some c.
Proof.
  intros Hr Hg Hb. rewrite <- (rgb_parts c) at 2.
  unfold to_string.
  destruct (hex_byte_digits _ Hr) as (a1 & b1 & -> & Ha1 & Hb1 & ->).
  destruct (hex_byte_digits _ Hg) as (a2 & b2 & -> & Ha2 & Hb2 & ->).
  destruct (hex_byte_digits _ Hb) as (a3 & b3 & -> & Ha3 & Hb3 & ->).
  destruct (hex_digit_value a1 Ha1) as (V1 & L1 & P1), (hex_digit_value b1 Hb1) as (V2 & L2 & _),
    (hex_digit_value a2 Ha2) as (V3 & L3 & _), (hex_digit_value b2 Hb2) as (V4 & L4 & _),
    (hex_digit_value a3 Ha3) as (V5 & L5 & _), (hex_digit_value b3 Hb3) as (V6 & L6 & _).
  cbn [app]. unfold from_str.
  rewrite ascii_length by (repeat constructor; first [done|lia]).
  change ((length _ =? 7)%nat) with true. cbn [mbind option_bind].
  rewrite radix_no_sign by done.
  unfold parse_digits. cbn [foldM]. rewrite V1, V2, V3, V4, V5, V6. cbn [mbind option_bind].
  repeat match goal with |- context [N.ltb ?a ?b] =>
    rewrite (proj2 (N.ltb_lt a b)) by lia; cbn [mbind option_bind] end.
  replace (_ * 16 + b3) with (((a1 * 16 + b1) * 256 + (a2 * 16 + b2)) * 256 + (a3 * 16 + b3)) by lia.
  destruct (byte_split ((a1 * 16 + b1) * 256 + (a2 * 16 + b2)) (a3 * 16 + b3)) as [-> ->]; [lia|].
  destruct (byte_split (a1 * 16 + b1) (a2 * 16 + b2)) as [-> ->]; [lia|].
  by rewrite N.mod_small by lia.
Qed.
End Colors.

#[local] Existing Instances Sample.external ColorSample.colors.
Import RgbText.

Lemma rgb_text_roundtrip_witness :
  to_string (255, 0, 171)%N = [35; 102; 102; 48; 48; 97; 98]%N ∧
  from_str (to_string (255, 0, 171)%N) = Some (255, 0, 171)%N.
Proof.
  split; [by vm_compute|].
  exact (rgb_text_roundtrip (255, 0, 171)%N eq_refl eq_refl eq_refl).
Defined.

(** A plus sign is accepted in place of a digit: [#+12345] is read as [#012345]. *)
Example plus_sign_accepted :
  from_str [35; 43; 49; 50; 51; 52; 53]%N = Some (1, 35, 69)%N.
Proof. by vm_compute. Qed.

(** The dim colours of the default configuration are the dimmed normal ones. *)
Example default_dim_is_dimmed :
  ColorList.palette_colors default_dim = rgb_dim <$> ColorList.palette_colors default_normal.
Proof. by vm_compute. Qed.
