(* ===== verification/Contents.v ===== *)
(** The cells of a frame ([cutty/src/display/content.rs]): the colours of the cells on the screen,
    the cursor, and the matches of the search and the labels of hints in them.

    The transparency of a cell is a non-negative [f32], represented by its bits: zero is 0, and the
    order of the bits is the order of the numbers. *)
From S2P Require Import Prelude Index Cells Rows Storages Grids TermData Selections Terms Handlers Searches.
From S2P Require Import Keys Bindings Hints ColorLists.
#[local] Open Scope Z_scope.

(** [1.0] as [f32], and [MIN_CURSOR_CONTRAST], 1.5 as [f64]. *)
Definition ALPHA_ONE : N := 1065353216.
Definition MIN_CURSOR_CONTRAST : N := 4609434218613702656.

(** * Matches *)

(** [struct HintMatches], without the matches it borrows. *)
Module HintMatches.
Record t := mk { matches : list Search.Match; index : nat }.
Definition new (matches : list Search.Match) : t := mk matches 0%nat.

(** The loop over the rest of the matches: whether the point is in one of them, and the number of
    matches that end before it. *)
Fixpoint advance_loop (point : Point) (rest : list Search.Match) (index : nat) : bool * nat :=
  match rest with
  | [] => (false, index)
  | bounds :: rest =>
      if Point.ltb point bounds.1 then (false, index)
      else if Point.ltb bounds.2 point then advance_loop point rest (index + 1)%nat
      else (true, index)
  end.
Definition advance (point : Point) (s : t) : bool * t :=
  let '(inside, index) := advance_loop point (drop (index s) (matches s)) (index s) in
  (inside, mk (matches s) index).
End HintMatches.

(** [struct Hint]. *)
Module HintOverlay.
Record t := mk { matches : HintMatches.t; labels : list (list char) }.

Definition from `{Hybrid} (hint_state : HintState.t) : t :=
  mk (HintMatches.new (HintState.matches hint_state)) (HintState.labels hint_state).

(** The position in the label: the number of cells from the start of the match, or from the top of
    the screen. *)
Definition label_position (viewport_start : Point) (num_cols : nat) (point : Point)
    (bounds : Search.Match) : option nat :=
  let start := if Point.leb bounds.1 viewport_start then viewport_start else bounds.1 in
  line_delta ← i32_sub (line point) (line start);
  col_delta ← i32_sub (as_i32 (column point)) (as_i32 (column start));
  lines ← i32_chk (line_delta * as_i32 num_cols);
  offset ← i32_add lines col_delta;
  Some (if offset <? 0 then 0%nat else Z.to_nat offset).

(** The character of the label at a point of a match, and whether it is the first. *)
Definition advance (viewport_start : Point) (num_cols : nat) (point : Point) (s : t) :
    option (option (option char * bool) * t) :=
  let '(inside, m) := HintMatches.advance point (matches s) in
  let s := mk m (labels s) in
  if negb inside then Some (None, s)
  else
    match HintMatches.matches m !! HintMatches.index m with
    | None => Some (None, s)
    | Some bounds =>
        label_position ← label_position viewport_start num_cols point bounds;
        label ← labels s !! HintMatches.index m;
        Some (Some (match label !! label_position with
                    | Some ch => (Some ch, (label_position =? 0)%nat)
                    | None => (None, false)
                    end), s)
    end.
End HintOverlay.

(** * Cells *)

(** The part of the configuration the content uses. *)
Record ContentConfig `{External} := mkContentConfig {
  colors_config : ColorsConfig;
  window_opacity : N;
  unfocused_hollow : bool;
}.
#[global] Arguments colors_config {_} _.
#[global] Arguments window_opacity {_} _.
#[global] Arguments unfocused_hollow {_} _.

(** [struct RenderableCell]; the extra attributes are the characters of width zero and the
    hyperlink. *)
Module RenderableCell.
Record t `{External} := mk {
  character : char;
  point : GPoint nat;
  fg : Rgb;
  bg : Rgb;
  bg_alpha : N;
  underline : Rgb;
  flags : Flags;
  extra : option (option (list char) * option Hyperlink);
}.
#[global] Arguments mk {_} _ _ _ _ _ _ _ _.
#[global] Arguments character {_} _.
#[global] Arguments point {_} _.
#[global] Arguments fg {_} _.
#[global] Arguments bg {_} _.
#[global] Arguments bg_alpha {_} _.
#[global] Arguments underline {_} _.
#[global] Arguments flags {_} _.
#[global] Arguments extra {_} _.

Definition is_empty `{External} (s : t) : bool :=
  (bg_alpha s =? 0)%N && (character s =? 32)%N && Cell.is_none (extra s)
  && negb (Flags.intersects (flags s) (N.lor Flags.ALL_UNDERLINES Flags.STRIKEOUT)).
End RenderableCell.

(** [struct RenderableCursor] of the display. *)
Module CursorCell.
Record t `{External} := mk {
  shape : CursorShape;
  cursor_color : Rgb;
  text_color : Rgb;
  width : nat;
  point : GPoint nat;
}.
#[global] Arguments mk {_} _ _ _ _ _.
#[global] Arguments shape {_} _.
#[global] Arguments cursor_color {_} _.
#[global] Arguments text_color {_} _.
#[global] Arguments width {_} _.
#[global] Arguments point {_} _.

Definition new_hidden `{VteColors} : t :=
  mk CursorShape_Hidden (rgb_new 0 0 0) (rgb_new 0 0 0) 1 (Pt 0%nat 0%nat).
Definition new `{External} (point : GPoint nat) (shape : CursorShape) (color : Rgb) (width : nat) :
    t := mk shape color color width point.
End CursorCell.

(** * Content *)

(** [struct RenderableContent] of the display. *)
Module Content.
Record t `{External} := mk {
  terminal_content : RenderableContent.t;
  cursor : CursorCell.t;
  cursor_shape : CursorShape;
  cursor_point : GPoint nat;
  search : option HintMatches.t;
  hint : option HintOverlay.t;
  config : ContentConfig;
  colors : list Rgb;
  focused_match : option Search.Match;
  num_cols : nat;
}.
#[global] Arguments mk {_} _ _ _ _ _ _ _ _ _ _.
#[global] Arguments terminal_content {_} _.
#[global] Arguments cursor {_} _.
#[global] Arguments cursor_shape {_} _.
#[global] Arguments cursor_point {_} _.
#[global] Arguments search {_} _.
#[global] Arguments hint {_} _.
#[global] Arguments config {_} _.
#[global] Arguments colors {_} _.
#[global] Arguments focused_match {_} _.
#[global] Arguments num_cols {_} _.

Section updates.
Context `{External}.
Implicit Types s : t.
Definition set_iter (it : Grid.GridIterator.t) s : t :=
  let tc := terminal_content s in
  mk (RenderableContent.mk _ it (RenderableContent.selection tc) (RenderableContent.cursor tc)
        (RenderableContent.display_offset tc) (RenderableContent.colors tc)
        (RenderableContent.mode tc))
     (cursor s) (cursor_shape s) (cursor_point s) (search s) (hint s) (config s) (colors s)
     (focused_match s) (num_cols s).
Definition set_cursor (x : CursorCell.t) s : t :=
  mk (terminal_content s) x (cursor_shape s) (cursor_point s) (search s) (hint s) (config s)
     (colors s) (focused_match s) (num_cols s).
Definition set_search (x : option HintMatches.t) s : t :=
  mk (terminal_content s) (cursor s) (cursor_shape s) (cursor_point s) x (hint s) (config s)
     (colors s) (focused_match s) (num_cols s).
Definition set_hint (x : option HintOverlay.t) s : t :=
  mk (terminal_content s) (cursor s) (cursor_shape s) (cursor_point s) (search s) x (config s)
     (colors s) (focused_match s) (num_cols s).
End updates.

Section ops.
Context `{VteColors}.
Implicit Types (s : t) (f : Flags).

(** The colours and the transparency of a cell while they are computed. *)
Definition Look : Type := Rgb * Rgb * N.

(** The cursor of the window: hidden, hollow, or the one of the terminal. *)
Definition window_shape (terminal_shape : CursorShape) (hide unfocused : bool) : CursorShape :=
  if bool_decide (terminal_shape = CursorShape_Hidden) || hide then CursorShape_Hidden
  else if unfocused then CursorShape_HollowBlock
  else terminal_shape.

(** The regular expression of the search, if one is active, is [searching]; the matches of the hints
    have been updated. *)
Definition new (config : ContentConfig) (term : Term.t) (cursor_hidden searching has_preedit : bool)
    (visible_matches : option (list Search.Match)) (focused_match : option Search.Match)
    (hint : option HintOverlay.t) (colors : list Rgb) (num_cols : nat) : option t :=
  tc ← RenderableContent.new term;
  let shape := RenderableCursor.shape (RenderableContent.cursor tc) in
  cp ← point_to_viewport (RenderableContent.display_offset tc)
         (RenderableCursor.point (RenderableContent.cursor tc));
  cursor_point ← cp;
  Some (mk tc CursorCell.new_hidden
          (window_shape shape (cursor_hidden || searching || has_preedit)
             (negb (Term.is_focused term) && unfocused_hollow config))
          cursor_point (HintMatches.new <$> visible_matches) hint config colors focused_match
          num_cols).

Definition color (i : nat) s : option Rgb :=
  c ← RenderableContent.colors (terminal_content s) !! i;
  d ← colors s !! i;
  Some (default d c).
Definition named (n : NamedColor) s : option Rgb := color (named_index n) s.

Definition colors_of s : ColorsConfig := colors_config (config s).

(** [compute_cell_rgb]. *)
Definition compute_cell_rgb (c : CellColors) (look : Look) : Look :=
  let '(cell_fg, cell_bg, bg_alpha) := look in
  (cell_color (colors_fg c) cell_fg cell_bg, cell_color (colors_bg c) cell_fg cell_bg,
   if bool_decide (colors_bg c = CellBackground) then bg_alpha else ALPHA_ONE).

(** [compute_fg_rgb]. *)
Definition named_fg (ansi : NamedColor) f s : NamedColor :=
  let style := N.land f Flags.DIM_BOLD in
  let bold_is_bright := draw_bold_text_with_bright_colors (colors_of s) in
  if (style =? Flags.DIM_BOLD)%N && bool_decide (ansi = Foreground)
     && Cell.is_none (bright_foreground (primary (colors_of s)))
  then DimForeground
  else if bold_is_bright && (style =? Flags.BOLD)%N then to_bright ansi
  else if (style =? Flags.DIM)%N || (negb bold_is_bright && (style =? Flags.DIM_BOLD)%N)
  then to_dim ansi
  else ansi.

Definition indexed_fg (idx : N) f s : nat :=
  let style := N.land f Flags.DIM_BOLD in
  let bold_is_bright := draw_bold_text_with_bright_colors (colors_of s) in
  let idx := N.to_nat idx in
  if bold_is_bright && (style =? Flags.BOLD)%N && (idx <=? 7)%nat then (idx + 8)%nat
  else if negb bold_is_bright && (style =? Flags.DIM)%N && (8 <=? idx)%nat && (idx <=? 15)%nat
  then (idx - 8)%nat
  else if negb bold_is_bright && (style =? Flags.DIM)%N && (idx <=? 7)%nat
  then (named_index DimBlack + idx)%nat
  else idx.

Definition compute_fg_rgb (fg : Color) f s : option Rgb :=
  match color_view fg with
  | Spec rgb => Some (if (N.land f Flags.DIM =? Flags.DIM)%N then rgb_dim rgb else rgb)
  | Named ansi => named (named_fg ansi f s) s
  | Indexed idx => color (indexed_fg idx f s) s
  end.

Definition compute_bg_rgb (bg : Color) s : option Rgb :=
  match color_view bg with
  | Spec rgb => Some rgb
  | Named ansi => named ansi s
  | Indexed idx => color (N.to_nat idx) s
  end.

Definition compute_bg_alpha (config : ContentConfig) (bg : Color) : N :=
  if bool_decide (bg = NamedBackground) then 0%N
  else if transparent_background_colors (colors_config config) then window_opacity config
  else ALPHA_ONE.

(** The character of the label at a point; the matches of the hint advance. *)
Definition advance_hint (p : Point) s : option (option (option char * bool) * t) :=
  match hint s with
  | None => Some (None, s)
  | Some h =>
      let start := Pt (- as_i32 (RenderableContent.display_offset (terminal_content s))) 0%nat in
      '(r, h) ← HintOverlay.advance start (num_cols s) p h;
      Some (r, set_hint (Some h) s)
  end.
Definition advance_search (p : Point) s : bool * t :=
  match search s with
  | None => (false, s)
  | Some m => let '(inside, m) := HintMatches.advance p m in (inside, set_search (Some m) s)
  end.

(** A cell with a character of a label, or in a match after its label. *)
Definition with_label (label : option char * bool) (cell : Cell) (look : Look) s :
    Look * Flags * char :=
  let '(ch, is_first) := label in
  let '(look, f) :=
    if is_first then (compute_cell_rgb (hint_start_colors (colors_of s)) look, flags cell)
    else if negb (Cell.is_none ch)
    then (compute_cell_rgb (hint_end_colors (colors_of s)) look, flags cell)
    else (look, Flags.insert (flags cell) Flags.UNDERLINE) in
  (look, f, default (c cell) ch).

(** What covers a cell decides on its colours, its flags and its character. *)
Definition overlay (p : Point) (cell : Cell) (look : Look) s :
    option (Look * Flags * char * t) :=
  let is_selected :=
    match RenderableContent.selection (terminal_content s) with
    | Some r =>
        SelectionRange.contains_cell r (p, cell)
          (RenderableCursor.point (RenderableContent.cursor (terminal_content s))) (cursor_shape s)
    | None => false
    end in
  '(label, s) ← advance_hint p s;
  match label with
  | Some label => let '(look, f, character) := with_label label cell look s in Some (look, f, character, s)
  | None =>
      if is_selected then
        let '(fg, bg, bg_alpha) := compute_cell_rgb (selection_colors (colors_of s)) look in
        if bool_decide (fg = bg) && negb (Flags.contains (flags cell) Flags.HIDDEN) then
          background ← named Background s;
          foreground ← named Foreground s;
          Some (background, foreground, ALPHA_ONE, flags cell, c cell, s)
        else Some (fg, bg, bg_alpha, flags cell, c cell, s)
      else
        let '(matched, s) := advance_search p s in
        if matched then
          let focused := match focused_match s with Some m => match_contains m p | None => false end in
          Some (compute_cell_rgb (if focused then focused_match_colors (colors_of s)
                                  else matches_colors (colors_of s)) look,
                flags cell, c cell, s)
        else Some (look, flags cell, c cell, s)
  end.

(** The colours of the cell, before anything covers it. *)
Definition base_look (cell : Cell) s : option Look :=
  fg ← compute_fg_rgb (Cells.fg cell) (flags cell) s;
  bg ← compute_bg_rgb (Cells.bg cell) s;
  Some (if Flags.contains (flags cell) Flags.INVERSE then (bg, fg, ALPHA_ONE)
        else (fg, bg, compute_bg_alpha (config s) (Cells.bg cell))).

Definition cell_extra (cell : Cell) : option (option (list char) * option Hyperlink) :=
  if Cell.is_none (Cell.zerowidth cell) && Cell.is_none (Cell.hyperlink cell) then None
  else Some (Cell.zerowidth cell, Cell.hyperlink cell).

(** [RenderableCell::new]. *)
Definition renderable_cell (p : Point) (cell : Cell) s : option (RenderableCell.t * t) :=
  look ← base_look cell s;
  '(fg, bg, bg_alpha, f, character, s) ← overlay p cell look s;
  let bg_alpha :=
    if (0 <? bg_alpha)%N && transparent_background_colors (colors_of s)
    then window_opacity (config s) else bg_alpha in
  vp ← point_to_viewport (RenderableContent.display_offset (terminal_content s)) p;
  point ← vp;
  underline ← (match Cell.underline_color cell with
               | Some u => compute_fg_rgb u f s
               | None => Some fg
               end);
  Some (RenderableCell.mk character point fg bg bg_alpha underline f (cell_extra cell), s).

(** The colours of the cursor are those of the configuration, the colour an escape sequence has set,
    or inverted ones. *)
Definition renderable_cursor (cell : RenderableCell.t) s : option CursorCell.t :=
  set ← RenderableContent.colors (terminal_content s) !! named_index CursorColor;
  let colors :=
    if TermMode.contains (RenderableContent.mode (terminal_content s)) TermMode.VI
    then vi_mode_cursor_colors (colors_of s) else cursor_colors (colors_of s) in
  let cursor_color := match set with Some rgb => CellRgbOf rgb | None => colors_bg colors end in
  let text_color := colors_fg colors in
  let is_fixed c := match c with CellRgbOf _ => true | _ => false end in
  let fg := RenderableCell.fg cell in
  let bg := RenderableCell.bg cell in
  let insufficient_contrast :=
    (negb (is_fixed cursor_color) || negb (is_fixed text_color))
    && (rgb_contrast fg bg <? MIN_CURSOR_CONTRAST)%N in
  let '(text_rgb, cursor_rgb) :=
    if insufficient_contrast
    then (primary_background (primary (colors_of s)), primary_foreground (primary (colors_of s)))
    else (cell_color text_color fg bg, cell_color cursor_color fg bg) in
  Some (CursorCell.mk (cursor_shape s) cursor_rgb text_rgb
          (if Flags.contains (RenderableCell.flags cell) Flags.WIDE_CHAR then 2 else 1)
          (cursor_point s)).

(** One turn of the loop of [next]: the cell, if it is drawn. *)
Definition visit (p : Point) (cell : Cell) s : option (option RenderableCell.t * t) :=
  '(cell, s) ← renderable_cell p cell s;
  if bool_decide (cursor_point s = RenderableCell.point cell) then
    cursor ← renderable_cursor cell s;
    let s := set_cursor cursor s in
    let cell :=
      if bool_decide (CursorCell.shape cursor = CursorShape_Block) then
        RenderableCell.mk (RenderableCell.character cell) (RenderableCell.point cell)
          (CursorCell.text_color cursor) (CursorCell.cursor_color cursor) ALPHA_ONE
          (RenderableCell.underline cell) (RenderableCell.flags cell) (RenderableCell.extra cell)
      else cell in
    Some (Some cell, s)
  else if negb (RenderableCell.is_empty cell)
          && negb (Flags.contains (RenderableCell.flags cell) Flags.WIDE_CHAR_SPACER)
  then Some (Some cell, s)
  else Some (None, s).

Fixpoint next (fuel : nat) (g : Grid.t Cell) s : option (option RenderableCell.t * t) :=
  match fuel with
  | O => None
  | S fuel =>
      '(item, it) ← Grid.GridIterator.next g (RenderableContent.display_iter (terminal_content s));
      let s := set_iter it s in
      match item with
      | None => Some (None, s)
      | Some (p, cell) =>
          '(drawn, s) ← visit p cell s;
          match drawn with
          | Some cell => Some (Some cell, s)
          | None => next fuel g s
          end
      end
  end.

(** The loop over the content in [Display::draw]: the cells that are drawn, and the content at the
    end of the iterator. *)
Fixpoint drain (fuel fuel' : nat) (g : Grid.t Cell) s : option (list RenderableCell.t * t) :=
  match fuel with
  | O => None
  | S fuel =>
      '(cell, s) ← next fuel' g s;
      match cell with
      | None => Some ([], s)
      | Some cell => '(cells, s) ← drain fuel fuel' g s; Some (cell :: cells, s)
      end
  end.

(** The iterator has been drained. *)
Definition into_cursor (fuel : nat) (g : Grid.t Cell) s : option CursorCell.t :=
  '(cell, s) ← next fuel g s;
  _ ← ensure (Cell.is_none cell);
  Some (cursor s).
End ops.
End Content.
