(* ===== verification/ContentProps.v ===== *)
(** Properties of the content of a frame: the match tracking finds every point of a match, the cells
    of the screen are drawn in order as if each was looked at on its own, with the look a description
    without positions gives them ([looks_like], [drawn_as]), and nothing panics. *)
From S2P Require Import Prelude Index Cells Rows Storages Grids Resizes TermData Selections Terms.
From S2P Require Import Handlers TermSafety TermProps Searches SearchProps Keys Bindings Hints.
From S2P Require Import ColorLists Contents.
From stdpp Require Import sorting.
#[local] Open Scope Z_scope.
#[local] Set Default Proof Using "Type".

(** * Tracking matches *)

(** Reading order of points. *)
Definition before (p q : Point) : Prop :=
  line p < line q ∨ line p = line q ∧ (column p < column q)%nat.

Lemma ltb_before p q : Point.ltb p q = true ↔ before p q.
Proof.
  unfold before. destruct (Point.ltb p q) eqn:E; [|].
  - split; [intros _|done]. unfold Point.ltb, Point.cmp in E.
    destruct (Z.compare_spec (line p) (line q)); [|lia|done].
    destruct (Nat.compare_spec (column p) (column q)); [done|lia|done].
  - apply ltb_false in E. split; [done|lia].
Qed.

Lemma not_before p q : Point.ltb p q = false ↔ ¬ before p q.
Proof. rewrite <- ltb_before. by destruct (Point.ltb p q). Qed.

Lemma leb_ltb p q : Point.leb p q = negb (Point.ltb q p).
Proof.
  unfold Point.leb, Point.ltb, Point.cmp.
  rewrite (Z.compare_antisym (line p)), (Nat.compare_antisym (column p)).
  by destruct (_ ?= _), (_ ?= _)%nat.
Qed.

Lemma before_trans p q r : before p q → before q r → before p r.
Proof. unfold before. lia. Qed.

(** The matches start in reading order. *)
Definition starts_sorted (ms : list Search.Match) : Prop :=
  StronglySorted (λ a b : Search.Match, Point.ltb b.1 a.1 = false) ms.

(** The matches before the index end before the point. *)
Definition passed (p : Point) (s : HintMatches.t) : Prop :=
  ∀ k m, (k < HintMatches.index s)%nat → HintMatches.matches s !! k = Some m → before m.2 p.

Lemma passed_new p ms : passed p (HintMatches.new ms).
Proof. intros k m Hk. simpl in Hk. lia. Qed.

Lemma passed_mono p q s : passed p s → Point.ltb q p = false → passed q s.
Proof.
  intros Hp Hq k m Hk Hm. specialize (Hp k m Hk Hm). apply not_before in Hq.
  unfold before in *. lia.
Qed.

(** The first match that contains the point. *)
Definition match_at (p : Point) (ms : list Search.Match) : option nat :=
  position (λ m, match_contains m p) ms.

Lemma match_contains_false (m : Search.Match) p :
  match_contains m p = false ↔ before p m.1 ∨ before m.2 p.
Proof.
  unfold match_contains. rewrite !leb_ltb, andb_false_iff, !negb_false_iff, !ltb_before. tauto.
Qed.

Lemma not_inside p ms (m : Search.Match) :
  Point.ltb p m.1 = true → Forall (λ b : Search.Match, Point.ltb b.1 m.1 = false) ms → match_at p ms = None.
Proof.
  intros Hp. induction 1 as [|b ms Hb Hms IH]; [done|]. unfold match_at in *. cbn [position].
  replace (match_contains b p) with false; [by rewrite IH|]. symmetry. apply match_contains_false.
  left. apply ltb_before in Hp. apply not_before in Hb. unfold before in *. lia.
Qed.

Lemma advance_loop_spec p rest i :
  starts_sorted rest →
  ∃ k, HintMatches.advance_loop p rest i = (bool_decide (is_Some (match_at p rest)), (i + k)%nat) ∧
    Forall (λ m : Search.Match, before m.2 p) (take k rest) ∧ ∀ j, match_at p rest = Some j → k = j.
Proof.
  intros Hs. revert i. induction Hs as [|m rest Hs IH Hm]; intros i.
  { exists 0%nat. rewrite Nat.add_0_r. by split_and!. }
  cbn [HintMatches.advance_loop]. unfold match_at. cbn [position].
  destruct (Point.ltb p m.1) eqn:E1; [|destruct (Point.ltb m.2 p) eqn:E2].
  - replace (match_contains m p) with false
      by (symmetry; apply match_contains_false; left; by apply ltb_before).
    change (position _ rest) with (match_at p rest). rewrite (not_inside p rest m E1 Hm).
    exists 0%nat. rewrite Nat.add_0_r. by split_and!.
  - replace (match_contains m p) with false
      by (symmetry; apply match_contains_false; right; by apply ltb_before).
    change (position _ rest) with (match_at p rest).
    destruct (IH (i + 1)%nat) as (k & -> & Hk & Hj). exists (S k). split_and!.
    + f_equal; [|lia]. apply bool_decide_ext. by destruct (match_at p rest).
    + constructor; [by apply ltb_before|done].
    + destruct (match_at p rest) as [j|]; [|done]. cbn. intros ? [= <-]. f_equal. by apply Hj.
  - replace (match_contains m p) with true.
    + exists 0%nat. rewrite Nat.add_0_r. split_and!; [done|done|by intros j [= <-]].
    + symmetry. apply not_false_iff_true. rewrite match_contains_false.
      apply not_before in E1, E2. tauto.
Qed.

Lemma position_drop {A} (f : A → bool) (l : list A) i :
  Forall (λ x, f x = false) (take i l) → position f l = Nat.add i <$> position f (drop i l).
Proof.
  revert i. induction l as [|x l IH]; intros i Hi; [by rewrite drop_nil|].
  destruct i as [|i]; [by rewrite option_fmap_id|]. cbn [take drop position] in *.
  apply Forall_cons in Hi as [-> Hi]. rewrite (IH i Hi). by destruct (position f (drop i l)).
Qed.

Lemma starts_sorted_drop i ms : starts_sorted ms → starts_sorted (drop i ms).
Proof. intros Hs. rewrite <- (take_drop i ms) in Hs. by apply StronglySorted_app_1_r in Hs. Qed.

(** Advancing to a point that is not before the last one finds the first match with the point. *)
Lemma advance_spec p s :
  starts_sorted (HintMatches.matches s) → passed p s →
  ∃ s', HintMatches.advance p s
        = (bool_decide (is_Some (match_at p (HintMatches.matches s))), s') ∧
    HintMatches.matches s' = HintMatches.matches s ∧ passed p s' ∧
    ∀ j, match_at p (HintMatches.matches s) = Some j → HintMatches.index s' = j.
Proof.
  intros Hs Hp. destruct s as [ms i]. unfold HintMatches.advance, passed in *. cbn [HintMatches.matches HintMatches.index] in *.
  destruct (advance_loop_spec p (drop i ms) i (starts_sorted_drop _ _ Hs)) as (k & -> & Hk & Hj).
  assert (match_at p ms = Nat.add i <$> match_at p (drop i ms)) as E.
  { apply position_drop, Forall_forall. intros m [j Hm]%list_elem_of_lookup.
    apply lookup_take_Some in Hm as [Hm Hlt]. apply match_contains_false. right. by apply (Hp j). }
  exists (HintMatches.mk ms (i + k)). split_and!; [rewrite E|reflexivity| |].
  - f_equal. apply bool_decide_ext. by rewrite fmap_is_Some.
  - cbn. intros j m Hlt Hm. destruct (decide (j < i)%nat); [by apply (Hp j)|].
    rewrite Forall_lookup in Hk. apply (Hk (j - i)%nat m). rewrite lookup_take_lt by lia.
    rewrite lookup_drop. replace (i + (j - i))%nat with j by lia. done.
  - cbn. rewrite E. intros j Hj'. apply fmap_Some in Hj' as (j' & Ej & ->). f_equal. by apply Hj.
Qed.

Lemma match_at_exists p ms :
  bool_decide (is_Some (match_at p ms)) = existsb (λ m, match_contains m p) ms.
Proof.
  unfold match_at. induction ms as [|m ms IH]; [done|]. cbn [position existsb].
  destruct (match_contains m p); [done|]. cbn [orb]. rewrite <- IH. apply bool_decide_ext.
  by rewrite fmap_is_Some.
Qed.

(** A walk over points: where the walk is inside of a match. *)
Fixpoint advance_all (ps : list Point) (s : HintMatches.t) : list bool :=
  match ps with
  | [] => []
  | p :: ps => let '(inside, s) := HintMatches.advance p s in inside :: advance_all ps s
  end.

(**  Walking over points in reading order, the tracking of matches that start in reading order
    reports exactly the points that are in some match. *)
Theorem match_tracking_correct ms ps :
  starts_sorted ms → StronglySorted (λ p q, Point.ltb q p = false) ps →
  advance_all ps (HintMatches.new ms) = (λ p, existsb (λ m, match_contains m p) ms) <$> ps.
Proof.
  intros Hms Hps. assert (HintMatches.matches (HintMatches.new ms) = ms) as Ems by done.
  assert (∀ p, p ∈ ps → passed p (HintMatches.new ms)) as Hpass by (intros; apply passed_new).
  revert Ems Hpass. generalize (HintMatches.new ms) as s.
  induction Hps as [|p ps Hps IH Hp]; intros s Ems Hpass; [done|].
  cbn [advance_all]. rewrite fmap_cons. rewrite <- Ems in Hms.
  destruct (advance_spec p s Hms) as (s' & -> & Em & Hp' & _); [apply Hpass; left|].
  f_equal.
  - by rewrite match_at_exists, Ems.
  - apply IH; [congruence|].
    intros q Hq. apply (passed_mono p); [done|]. rewrite Forall_forall in Hp. by apply Hp.
Qed.

(** * The cells of the screen *)

(** The cells that are left in an iterator. *)
Fixpoint yields `{External} (g : Grid.t Cell) (it : Grid.GridIterator.t) (l : list (Point * Cell)) :
    Prop :=
  match l with
  | [] => Grid.GridIterator.next g it = Some (None, it)
  | x :: l => ∃ it', Grid.GridIterator.next g it = Some (Some x, it') ∧ yields g it' l
  end.

Section Screen.
Context `{External} (g : Grid.t Cell) (Hg : grid_ok row_safe g).
Implicit Types (p e : Point).

(** A step to the next cell; the iterator may start right before the first cell. *)
Lemma next_cell p e :
  (column p < columns g)%nat → in_grid g e → first_cell g - 1 <= lin g p < lin g e →
  ∃ x, cell_at g (lin g p + 1) = Some x ∧
    Grid.GridIterator.next g (Grid.GridIterator.mk p e)
    = Some (Some (unlin g (lin g p + 1), x), Grid.GridIterator.mk (unlin g (lin g p + 1)) e).
Proof using Hg.
  intros Hp He Hl. pose proof (grid_dims _ Hg) as Hd. pose proof He as He'.
  apply (in_grid_lin g Hg) in He' as [Hec He'].
  assert (first_cell g <= lin g p + 1 <= last_cell g) as Hz by lia.
  destruct (cell_at_ok g Hg _ Hz) as [x Hx]. exists x. split; [done|].
  unfold Grid.GridIterator.next. cbn [Grid.GridIterator.point Grid.GridIterator.end_].
  rewrite leb_ltb, (ltb_lin g p e) by done. destruct (Z.ltb_spec (lin g p) (lin g e)); [|lia]. cbn [negb].
  assert (unlin g (lin g p + 1) = if (last_column g <=? column p)%nat then Pt (line p + 1) 0%nat
    else Pt (line p) (column p + 1)%nat) as Eu.
  { apply (lin_inj g); [apply (unlin_column g Hg)|..]; dims Hd; unfold last_column in *;
      destruct (_ <=? _)%nat eqn:E; bools; rewrite ?(lin_unlin g Hg); unfold lin; simpl in *; nia. }
  unfold cell_at in Hx. rewrite Eu in *.
  destruct (_ <=? _)%nat; cbn [mbind option_bind]; [|by rewrite Hx].
  assert (in_i32 (line p + 1) = true) as Hi. {
    assert (in_grid g (unlin g (lin g p + 1))) as [Hlu _] by (apply (in_grid_unlin g Hg); lia).
    rewrite Eu in Hlu. dims Hd. unfold in_i32. simpl in *. lia. }
  unfold i32_add, i32_chk. rewrite Hi. cbn [mbind option_bind]. by rewrite Hx.
Qed.

(** The cells from a number on, before another. *)
Definition cells_between (a b : Z) : list (Point * Cell) :=
  omap (λ z, pair (unlin g z) <$> cell_at g z) (zrange a b).

Lemma cells_between_cons a b x :
  a < b → cell_at g a = Some x → cells_between a b = (unlin g a, x) :: cells_between (a + 1) b.
Proof using Type.
  intros Hab Hx. unfold cells_between, zrange. rewrite seqZ_cons by lia. cbn [omap list_omap].
  rewrite Hx. cbn. repeat f_equal; lia.
Qed.

Lemma yields_between p e :
  (column p < columns g)%nat → in_grid g e → first_cell g - 1 <= lin g p <= lin g e →
  yields g (Grid.GridIterator.mk p e) (cells_between (lin g p + 1) (lin g e + 1)).
Proof using Hg.
  intros Hp He. remember (Z.to_nat (lin g e - lin g p)) as n eqn:En. revert p Hp En.
  induction n as [|n IH]; intros p Hp En Hl.
  - unfold cells_between, zrange. rewrite seqZ_nil by lia. cbn [omap list_omap yields].
    unfold Grid.GridIterator.next. cbn [Grid.GridIterator.point Grid.GridIterator.end_].
    rewrite leb_ltb, (ltb_lin g p e) by (try apply He; done).
    by destruct (Z.ltb_spec (lin g p) (lin g e)); [lia|].
  - destruct (next_cell p e Hp He ltac:(lia)) as (x & Hx & Hnext).
    rewrite (cells_between_cons _ _ x) by (done || lia). cbn [yields].
    eexists. split; [exact Hnext|]. pose proof (lin_unlin g Hg (lin g p + 1)) as Eu.
    rewrite <- Eu at 2. apply IH; [apply (unlin_column g Hg)|lia|lia].
Qed.

Lemma elem_of_between a b p x :
  (p, x) ∈ cells_between a b → a <= lin g p < b ∧ (column p < columns g)%nat ∧
  Grid.index_point p g = Some x.
Proof using Hg.
  intros (z & Hz & Hx)%list_elem_of_omap. apply elem_of_zrange in Hz.
  apply fmap_Some in Hx as (y & Hy & [= -> ->]). rewrite (lin_unlin g Hg).
  split; [done|]. split; [apply (unlin_column g Hg)|done].
Qed.

Lemma between_in_order a b : StronglySorted (λ e e' : Point * Cell, before e.1 e'.1) (cells_between a b).
Proof using Hg.
  remember (Z.to_nat (b - a)) as n eqn:En. revert a En. induction n as [|n IH]; intros a En.
  { unfold cells_between, zrange. rewrite seqZ_nil by lia. constructor. }
  unfold cells_between, zrange. rewrite seqZ_cons by lia. cbn [omap list_omap].
  replace (seqZ (Z.succ a) (Z.pred (b - a))) with (zrange (a + 1) b) by (unfold zrange; f_equal; lia).
  change (omap _ (zrange (a + 1) b)) with (cells_between (a + 1) b).
  specialize (IH (a + 1) ltac:(lia)). destruct (cell_at g a) as [x|]; [|done]. cbn.
  constructor; [done|]. apply Forall_forall. intros [p y] Hp. apply elem_of_between in Hp as (Hl & Hc & _).
  cbn. apply ltb_before. rewrite (ltb_lin g) by (try apply (unlin_column g Hg); done).
  rewrite (lin_unlin g Hg). lia.
Qed.

Lemma length_between a b : (length (cells_between a b) <= Z.to_nat (b - a))%nat.
Proof using Type.
  unfold cells_between. rewrite <- (length_zrange a b). generalize (zrange a b) as l.
  induction l as [|z l IH]; [done|]. cbn [omap list_omap].
  destruct (pair _ <$> _); cbn [length]; lia.
Qed.

(** The cells on the screen, line by line. *)
Definition screen_cells : list (Point * Cell) :=
  let first := - Z.of_nat (Grid.display_offset g * columns g) in
  cells_between first (first + Z.of_nat (screen_lines g * columns g)).

Lemma display_iter_at :
  Z.of_nat (Grid.display_offset g) + Z.of_nat (Grid.lines g) <= 268435455 →
  Grid.display_iter g = Some (Grid.GridIterator.mk
    (Pt (- Z.of_nat (Grid.display_offset g) - 1) (last_column g))
    (Pt (Z.min (- Z.of_nat (Grid.display_offset g) - 1 + Z.of_nat (Grid.lines g)) (bottommost_line g))
       (last_column g))).
Proof using Type.
  intros Hs. unfold Grid.display_iter, Line.add_usize. simpl. casts. unfold i32_sub, i32_add, i32_chk.
  rewrite (proj2 (in_i32_true _)) by lia. cbn [mbind option_bind].
  by rewrite (proj2 (in_i32_true _)) by lia.
Qed.

Lemma display_yields :
  (Grid.display_offset g <= history_size g)%nat →
  ∃ it, Grid.display_iter g = Some it ∧ yields g it screen_cells.
Proof using Hg.
  intros Ho. pose proof (grid_dims _ Hg) as Hd. pose proof (g_small _ Hg) as Hs. dims Hd.
  assert (Z.of_nat (Grid.display_offset g) + Z.of_nat (Grid.lines g) <= Z.of_nat (Storage.len (Grid.raw g)))
    as Hoff by (unfold history_size in Ho; simpl in *; lia).
  rewrite display_iter_at by (simpl in *; lia). eexists. split; [done|].
  set (p := Pt _ _). set (e := Pt (_ `min` _) _).
  assert (lin g p + 1 = - Z.of_nat (Grid.display_offset g * columns g)) as Ep
    by (unfold lin, p, last_column; simpl in *; nia).
  assert (lin g e + 1 = - Z.of_nat (Grid.display_offset g * columns g)
    + Z.of_nat (screen_lines g * columns g)) as Ee
    by (unfold lin, e, last_column; simpl in *; rewrite Z.min_l by lia; nia).
  unfold screen_cells. rewrite <- Ee, <- Ep. apply yields_between.
  - unfold p, last_column. simpl in *. lia.
  - unfold e, in_grid, last_column. simpl in *. lia.
  - unfold first_cell, first_point, lin in *. simpl in *. nia.
Qed.
End Screen.

(** * The content without its positions *)

Section Content.
Context `{VteColors}.
Implicit Types (s x : Content.t) (p : Point) (cell : Cell).
Import Content.

Definition rewind (m : HintMatches.t) : HintMatches.t := HintMatches.new (HintMatches.matches m).
Definition rewind_hint (h : HintOverlay.t) : HintOverlay.t :=
  HintOverlay.mk (rewind (HintOverlay.matches h)) (HintOverlay.labels h).

(** The content with the iterator, the cursor and the matches at their start. *)
Definition frozen s : t :=
  let tc := terminal_content s in
  mk (RenderableContent.mk _ (Grid.GridIterator.mk (Pt 0 0%nat) (Pt 0 0%nat))
        (RenderableContent.selection tc) (RenderableContent.cursor tc)
        (RenderableContent.display_offset tc) (RenderableContent.colors tc)
        (RenderableContent.mode tc))
     CursorCell.new_hidden (cursor_shape s) (cursor_point s) (rewind <$> search s)
     (rewind_hint <$> hint s) (config s) (colors s) (focused_match s) (num_cols s).

Lemma rewind_eq m m' : HintMatches.matches m' = HintMatches.matches m → rewind m' = rewind m.
Proof. unfold rewind. by intros ->. Qed.

(** The matches are in order, and those before the positions end before the point. *)
Definition tracks p (m : HintMatches.t) : Prop :=
  starts_sorted (HintMatches.matches m) ∧ passed p m.
Definition tracked p s : Prop :=
  from_option (tracks p) True (search s) ∧
  from_option (tracks p ∘ HintOverlay.matches) True (hint s).

Lemma tracks_mono p q m : tracks p m → Point.ltb q p = false → tracks q m.
Proof. intros [Hs Hp] Hq. split; [done|]. by apply (passed_mono p). Qed.
Lemma tracked_mono p q s : tracked p s → Point.ltb q p = false → tracked q s.
Proof.
  intros [Hs Hh] Hq. split; [destruct (search s)|destruct (hint s)]; try done;
    simpl in *; by apply (tracks_mono p).
Qed.

(** The content after a step that only moves the positions of the matches. *)
Record agree p s s' : Prop := {
  a_frozen : frozen s' = frozen s;
  a_iter : RenderableContent.display_iter (terminal_content s')
           = RenderableContent.display_iter (terminal_content s);
  a_cursor : cursor s' = cursor s;
  a_tracked : tracked p s';
}.

Lemma frozen_frozen s : frozen (frozen s) = frozen s.
Proof.
  destruct s as [tc cu sh cp [m|] [h|] cfg cs fm n]; reflexivity.
Qed.

(** What the computations read. *)
Lemma frozen_reads s s' :
  frozen s' = frozen s →
  config s' = config s ∧ colors s' = colors s ∧ cursor_shape s' = cursor_shape s ∧
  cursor_point s' = cursor_point s ∧ focused_match s' = focused_match s ∧ num_cols s' = num_cols s ∧
  RenderableContent.selection (terminal_content s') = RenderableContent.selection (terminal_content s) ∧
  RenderableContent.cursor (terminal_content s') = RenderableContent.cursor (terminal_content s) ∧
  RenderableContent.display_offset (terminal_content s')
    = RenderableContent.display_offset (terminal_content s) ∧
  RenderableContent.colors (terminal_content s') = RenderableContent.colors (terminal_content s) ∧
  RenderableContent.mode (terminal_content s') = RenderableContent.mode (terminal_content s).
Proof. unfold frozen. intros E. injection E. intros. by split_and!. Qed.

Lemma frozen_matches s s' :
  frozen s' = frozen s →
  rewind <$> search s' = rewind <$> search s ∧ rewind_hint <$> hint s' = rewind_hint <$> hint s.
Proof. intros E. split; [by apply (f_equal search) in E|by apply (f_equal hint) in E]. Qed.

Lemma color_frozen i s s' : frozen s' = frozen s → color i s' = color i s.
Proof.
  intros Hf. destruct (frozen_reads _ _ Hf) as (_ & Ec & _ & _ & _ & _ & _ & _ & _ & Et & _).
  unfold color. by rewrite Ec, Et.
Qed.

Lemma compute_fg_frozen c f s s' : frozen s' = frozen s → compute_fg_rgb c f s' = compute_fg_rgb c f s.
Proof.
  intros Hf. destruct (frozen_reads _ _ Hf) as (Ec & _).
  unfold compute_fg_rgb, named, named_fg, indexed_fg, colors_of. rewrite Ec.
  destruct (color_view c); [done|apply (color_frozen _ _ _ Hf)..].
Qed.

Lemma compute_bg_frozen c s s' : frozen s' = frozen s → compute_bg_rgb c s' = compute_bg_rgb c s.
Proof.
  intros Hf. unfold compute_bg_rgb, named.
  destruct (color_view c); [done|apply (color_frozen _ _ _ Hf)..].
Qed.

Lemma base_look_frozen cell s s' : frozen s' = frozen s → base_look cell s' = base_look cell s.
Proof.
  intros Hf. destruct (frozen_reads _ _ Hf) as (Ec & _). unfold base_look.
  by rewrite (compute_fg_frozen _ _ _ _ Hf), (compute_bg_frozen _ _ _ Hf), Ec.
Qed.

Lemma renderable_cursor_frozen rc s s' :
  frozen s' = frozen s → renderable_cursor rc s' = renderable_cursor rc s.
Proof.
  intros Hf. destruct (frozen_reads _ _ Hf) as (Ec & _ & Es & Ep & _ & _ & _ & _ & _ & Et & Em).
  unfold renderable_cursor, colors_of. by rewrite Ec, Es, Ep, Et, Em.
Qed.

(** ** One cell *)

Lemma hint_advance_spec start n p g h :
  tracks p (HintOverlay.matches h) → tracks p (HintOverlay.matches g) → rewind_hint g = rewind_hint h →
  match HintOverlay.advance start n p g, HintOverlay.advance start n p h with
  | None, None => True
  | Some (r, g'), Some (r', h') => r = r' ∧
      (rewind_hint g' = rewind_hint g ∧ tracks p (HintOverlay.matches g')) ∧
      rewind_hint h' = rewind_hint h ∧ tracks p (HintOverlay.matches h')
  | _, _ => False
  end.
Proof.
  destruct g as [m0 labels0], h as [m labels]. intros [Hs Hp] [Hs0 Hp0] [= Em El]. cbn in *. subst labels0.
  unfold HintOverlay.advance, rewind_hint. cbn.
  destruct (advance_spec p m Hs Hp) as (m' & -> & E1 & P1 & I1).
  destruct (advance_spec p m0 Hs0 Hp0) as (m0' & -> & E0 & P0 & I0). rewrite Em in *.
  assert (tracks p m' ∧ tracks p m0') as [Ht Ht0] by (split; (split; [congruence|done])).
  assert (rewind m0' = rewind m0 ∧ rewind m' = rewind m) as [R0 R1] by (split; apply rewind_eq; congruence).
  destruct (match_at p (HintMatches.matches m)) as [j|] eqn:Ej.
  - rewrite !bool_decide_true by eauto. cbn [negb].
    rewrite (I1 j eq_refl), (I0 j eq_refl), E0, E1.
    destruct (HintMatches.matches m !! j) as [bounds|]; [|cbn; by rewrite R0, R1].
    destruct (HintOverlay.label_position _ _ _ _); [|done]. cbn [mbind option_bind].
    destruct (labels !! j); [|done]. cbn. by rewrite R0, R1.
  - rewrite !bool_decide_false by (by intros [? ?]). cbn. by rewrite R0, R1.
Qed.

Lemma agree_refl p s : tracked p s → agree p s s.
Proof. done. Qed.

Lemma agree_trans p s1 s2 s3 : agree p s1 s2 → agree p s2 s3 → agree p s1 s3.
Proof. intros [F I C T] [F' I' C' T']. split; congruence. Qed.

(** Contents that differ only in their positions. *)
Definition alike p x s : Prop := frozen x = frozen s ∧ tracked p x ∧ tracked p s.

(** The same result, and only positions change. *)
Definition mimics {A} p x s (m0 m : option (A * t)) : Prop :=
  match m0, m with
  | None, None => True
  | Some (a, x'), Some (b, s') => a = b ∧ agree p x x' ∧ agree p s s'
  | _, _ => False
  end.

Lemma alike_agree p x s x' s' : alike p x s → agree p x x' → agree p s s' → alike p x' s'.
Proof. intros (F & _ & _) [F1 _ _ T1] [F2 _ _ T2]. split; [congruence|done]. Qed.

Lemma mimics_bind {A B} p x s (m0 m : option (A * t)) (k0 k : A → t → option (B * t)) :
  mimics p x s m0 m →
  (∀ a x' s', agree p x x' → agree p s s' → mimics p x' s' (k0 a x') (k a s')) →
  mimics p x s ('(a, x) ← m0; k0 a x) ('(a, x) ← m; k a x).
Proof.
  destruct m0 as [[a x']|], m as [[a' s']|]; cbn; try done. intros (<- & Hx & Hs) Hk.
  specialize (Hk a x' s' Hx Hs). unfold mimics in *.
  destruct (k0 a x') as [[b y]|], (k a s') as [[b' y']|]; try done.
  destruct Hk as (<- & Hy & Hy'). split; [done|]. by split; eapply agree_trans.
Qed.

Lemma mimics_pure {A B} p x s (m : option A) (k0 k : A → option (B * t)) :
  (∀ a, m = Some a → mimics p x s (k0 a) (k a)) → mimics p x s (m ≫= k0) (m ≫= k).
Proof. destruct m; [|done]. intros Hk. by apply Hk. Qed.

Lemma mimics_ret {A} p x s (a : A) : alike p x s → mimics p x s (Some (a, x)) (Some (a, s)).
Proof. intros (_ & Hx & Hs). by split_and!. Qed.

(** New positions that agree with the old ones. *)
Lemma agree_set_hint p s h h' :
  tracked p s → hint s = Some h → rewind_hint h' = rewind_hint h → tracks p (HintOverlay.matches h') →
  agree p s (set_hint (Some h') s).
Proof.
  intros [Hm _] Eh Er Ht. split; try done. unfold frozen. rewrite Eh. cbn -[rewind rewind_hint]. by rewrite Er.
Qed.
Lemma agree_set_search p s m m' :
  tracked p s → search s = Some m → rewind m' = rewind m → tracks p m' →
  agree p s (set_search (Some m') s).
Proof.
  intros [_ Hh] Em Er Ht. split; try done. unfold frozen. rewrite Em. cbn -[rewind rewind_hint]. by rewrite Er.
Qed.

Lemma advance_hint_mimics p x s :
  alike p x s → mimics p x s (advance_hint p x) (advance_hint p s).
Proof.
  intros Hal. pose proof Hal as (Hf & Hx & Hs). pose proof (frozen_matches _ _ Hf) as [_ Eh].
  destruct (frozen_reads _ _ Hf) as (_ & _ & _ & _ & _ & En & _ & _ & Eo & _).
  unfold advance_hint. rewrite En, Eo.
  destruct (hint x) as [h0|] eqn:E0, (hint s) as [h|] eqn:E1; cbn -[rewind_hint] in Eh; try done.
  pose proof (inj Some _ _ Eh) as Er. pose proof Hx as [_ Hhx]. pose proof Hs as [_ Hhs].
  rewrite E0 in Hhx. rewrite E1 in Hhs.
  pose proof (hint_advance_spec (Pt (- as_i32 (RenderableContent.display_offset (terminal_content s))) 0%nat)
    (num_cols s) p h0 h Hhs Hhx Er) as Hspec.
  destruct (HintOverlay.advance _ _ _ h0) as [[r g']|], (HintOverlay.advance _ _ _ h) as [[r' h']|]; try done.
  destruct Hspec as (<- & [R0 T0] & R1 & T1). cbn. split; [done|].
  split; [by apply (agree_set_hint p x h0)|by apply (agree_set_hint p s h)].
Qed.

Lemma advance_search_mimics p x s :
  alike p x s → mimics p x s (Some (advance_search p x)) (Some (advance_search p s)).
Proof.
  intros Hal. pose proof Hal as (Hf & Hx & Hs). pose proof (frozen_matches _ _ Hf) as [Eh _].
  unfold advance_search.
  destruct (search x) as [m0|] eqn:E0, (search s) as [m|] eqn:E1; cbn -[rewind] in Eh; try done.
  pose proof (inj Some _ _ Eh) as Er0. pose proof Er0 as [= Er]. pose proof Hx as [Hmx _]. pose proof Hs as [Hms _].
  rewrite E0 in Hmx. rewrite E1 in Hms. destruct Hmx as [Sx Px], Hms as [Ss Ps].
  destruct (advance_spec p m0 Sx Px) as (m0' & -> & F0 & P0 & _).
  destruct (advance_spec p m Ss Ps) as (m' & -> & F1 & P1 & _). cbn. rewrite Er. split; [done|].
  split; [apply (agree_set_search p x m0)|apply (agree_set_search p s m)]; try done;
    try (by apply rewind_eq); by (split; [congruence|]).
Qed.

Lemma overlay_mimics p cell look x s :
  alike p x s → mimics p x s (overlay p cell look x) (overlay p cell look s).
Proof.
  intros Hal. destruct (frozen_reads _ _ (proj1 Hal)) as (_ & _ & Esh & _ & _ & _ & Esel & Ecu & _).
  unfold overlay. rewrite Esh, Esel, Ecu. apply mimics_bind; [by apply advance_hint_mimics|].
  intros label x1 s1 Ha Ha'. pose proof (alike_agree _ _ _ _ _ Hal Ha Ha') as Hal1.
  destruct (frozen_reads _ _ (proj1 Hal1)) as (Ec & _).
  unfold named, with_label, colors_of. rewrite Ec. destruct label as [[ch first]|].
  { destruct first; [|destruct (negb _)]; by apply mimics_ret. }
  destruct (match RenderableContent.selection _ with Some _ => _ | None => _ end).
  - destruct (compute_cell_rgb _ _) as [[fg bg] alpha]. destruct (_ && _); [|by apply mimics_ret].
    rewrite !(color_frozen _ _ _ (proj1 Hal1)). do 2 (apply mimics_pure; intros ? _).
    by apply mimics_ret.
  - pose proof (advance_search_mimics p x1 s1 Hal1) as Hm.
    destruct (advance_search p x1) as [b x2], (advance_search p s1) as [b' s2].
    destruct Hm as (<- & Hx2 & Hs2). pose proof (alike_agree _ _ _ _ _ Hal1 Hx2 Hs2) as Hal2.
    destruct (frozen_reads _ _ (proj1 Hal2)) as (Ec2 & _ & _ & _ & Efm & _). rewrite Ec2, Efm.
    by destruct b.
Qed.

Lemma renderable_cell_mimics p cell x s :
  alike p x s → mimics p x s (renderable_cell p cell x) (renderable_cell p cell s).
Proof.
  intros Hal. unfold renderable_cell. rewrite (base_look_frozen _ _ _ (proj1 Hal)).
  apply mimics_pure. intros look _. apply mimics_bind; [by apply overlay_mimics|].
  intros [[[[fg bg] alpha] f] ch] x1 s1 Ha Ha'. pose proof (alike_agree _ _ _ _ _ Hal Ha Ha') as Hal1.
  destruct (frozen_reads _ _ (proj1 Hal1)) as (Ec & _ & _ & _ & _ & _ & _ & _ & Eo & _).
  unfold colors_of. rewrite Ec, Eo. do 2 (apply mimics_pure; intros ? _).
  destruct (Cell.underline_color cell) as [u|].
  - rewrite (compute_fg_frozen _ _ _ _ (proj1 Hal1)). apply mimics_pure. intros ? _. by apply mimics_ret.
  - by apply mimics_ret.
Qed.

(** The cell is drawn where it is on the screen. *)
Definition at_point p s (vp : GPoint nat) : Prop :=
  point_to_viewport (RenderableContent.display_offset (terminal_content s)) p = Some (Some vp).

Lemma renderable_cell_point p cell s rc s' :
  tracked p s → renderable_cell p cell s = Some (rc, s') → at_point p s (RenderableCell.point rc).
Proof.
  intros Ht. unfold renderable_cell, at_point.
  destruct (base_look cell s) as [look|]; [|done]. cbn [mbind option_bind].
  assert (alike p s s) as Hal by done.
  pose proof (overlay_mimics p cell look s s Hal) as Hm.
  destruct (overlay p cell look s) as [[[[[[fg bg] alpha] f] ch] s1]|]; [|done].
  destruct Hm as (_ & Ha & _). cbn [mbind option_bind]. destruct (frozen_reads _ _ (a_frozen _ _ _ Ha)) as (_ & _ & _ & _ & _ & _ & _ & _ & -> & _).
  destruct (point_to_viewport _ p) as [[vp|]|]; [|done..]. cbn [mbind option_bind].
  destruct (match Cell.underline_color cell with Some _ => _ | None => _ end); [|done].
  by intros [= <- <-].
Qed.

(** The cursor after a cell. *)
Definition visited p x' s s' : Prop :=
  frozen s' = frozen s ∧ tracked p s' ∧
  RenderableContent.display_iter (terminal_content s')
    = RenderableContent.display_iter (terminal_content s) ∧
  (at_point p s (cursor_point s) → cursor s' = cursor x') ∧
  (¬ at_point p s (cursor_point s) → cursor s' = cursor s).

Lemma visit_alike p cell x s :
  alike p x s →
  match visit p cell x, visit p cell s with
  | None, None => True
  | Some (r, x'), Some (r', s') => r = r' ∧ visited p x' s s'
  | _, _ => False
  end.
Proof.
  intros Hal. pose proof (renderable_cell_mimics p cell x s Hal) as Hm. pose proof Hal as (_ & _ & Ht).
  pose proof (renderable_cell_point p cell s) as Hpt. unfold visit.
  destruct (renderable_cell p cell x) as [[rc x1]|], (renderable_cell p cell s) as [[rc' s1]|]; try done.
  destruct Hm as (<- & Hx1 & Hs1). specialize (Hpt _ _ Ht eq_refl). cbn [mbind option_bind].
  pose proof (alike_agree _ _ _ _ _ Hal Hx1 Hs1) as Hal1.
  destruct (frozen_reads _ _ (proj1 Hal1)) as (_ & _ & _ & -> & _).
  destruct (frozen_reads _ _ (a_frozen _ _ _ Hs1)) as (_ & _ & _ & Ecp & _). rewrite Ecp.
  destruct Hs1 as [Fs Is Cs Ts]. case_bool_decide as Ep.
  - rewrite (renderable_cursor_frozen _ _ _ (proj1 Hal1)).
    destruct (renderable_cursor rc s1) as [cur|]; [|done]. cbn [mbind option_bind].
    case_bool_decide; (split; [done|]; split_and!; [exact Fs|exact Ts|exact Is|done|]);
      intros Hno; (exfalso; apply Hno; by rewrite Ep).
  - destruct (_ && _); (split; [done|]; split_and!; [done|done|done| |done]);
      intros Hat; exfalso; apply Ep; unfold at_point in *; rewrite Hat in Hpt; congruence.
Qed.

(** ** The whole screen *)

(** A cell looked at on its own, with every match still ahead. *)
Definition alone s (e : Point * Cell) : option (option RenderableCell.t * t) :=
  visit e.1 e.2 (frozen s).

Definition in_order (l : list (Point * Cell)) : Prop :=
  StronglySorted (λ e e' : Point * Cell, before e.1 e'.1) l.

Lemma at_point_inj p q s vp : at_point p s vp → at_point q s vp → p = q.
Proof.
  unfold at_point, point_to_viewport, i32_add, i32_chk. destruct p as [l c], q as [l' c']. simpl.
  destruct (in_i32 (l + _)), (in_i32 (l' + _)); try done. cbn [mbind option_bind].
  destruct (Z.leb_spec 0 (l + as_i32 (RenderableContent.display_offset (terminal_content s)))),
    (Z.leb_spec 0 (l' + as_i32 (RenderableContent.display_offset (terminal_content s)))); try done.
  intros [= <-] [= El Ec]. f_equal; [lia|done].
Qed.

Lemma tracked_frozen p s : tracked p s → tracked p (frozen s).
Proof.
  intros [Hm Hh]. split; cbn; [destruct (search s)|destruct (hint s)]; cbn in *; try done.
  - destruct Hm as [Hs _]. split; [done|]. apply passed_new.
  - destruct Hh as [Hs _]. split; [done|]. apply passed_new.
Qed.

Lemma alike_frozen p s : tracked p s → alike p (frozen s) s.
Proof. intros Ht. split; [apply frozen_frozen|]. split; [by apply tracked_frozen|done]. Qed.

Lemma tracked_frozen_eq p s s' : frozen s' = frozen s → tracked p (frozen s) → tracked p (frozen s').
Proof. by intros ->. Qed.

(** What is left of [drain] inside of a turn. *)
Definition drain_from (n F F' : nat) (g : Grid.t Cell) s : option (list RenderableCell.t * t) :=
  '(cell, s) ← next n g s;
  match cell with
  | None => Some ([], s)
  | Some cell => '(cells, s) ← drain F F' g s; Some (cell :: cells, s)
  end.

(** The cursor is that of the cell at its point. *)
Definition cursor_found (l : list (Point * Cell)) s s' : Prop :=
  (∀ e r s0, e ∈ l → at_point e.1 s (cursor_point s) → alone s e = Some (r, s0) →
    cursor s' = cursor s0) ∧
  ((∀ e, e ∈ l → ¬ at_point e.1 s (cursor_point s)) → cursor s' = cursor s).

Lemma drain_from_spec g l drawn : ∀ n F F' s,
  yields g (RenderableContent.display_iter (terminal_content s)) l → in_order l →
  Forall (λ e, tracked e.1 s) l →
  mapM (λ e, fst <$> alone s e) l = Some drawn →
  (length l < n)%nat → (length l <= F)%nat → (length l < F')%nat →
  ∃ s', drain_from n F F' g s = Some (omap id drawn, s') ∧ frozen s' = frozen s ∧
    yields g (RenderableContent.display_iter (terminal_content s')) [] ∧ cursor_found l s s'.
Proof.
  revert drawn. induction l as [|[p cell] l IH]; intros drawn [|n] F F' s Hy Ho Ht Hd Hn HF HF'; try lia.
  { injection Hd as <-. unfold drain_from. cbn [next]. cbn [yields] in Hy. rewrite Hy.
    eexists. split; [done|]. split; [done|]. split; [done|]. split; [|done].
    intros e r s0 He. by apply elem_of_nil in He. }
  cbn [length] in *. destruct Hy as (it & Hit & Hy). apply Forall_cons in Ht as [Htp Ht].
  apply StronglySorted_inv in Ho as [Ho Hp].
  cbn [mapM] in Hd. apply bind_Some in Hd as (d & Hv & Hd). apply bind_Some in Hd as (ds & Hds & [= <-]).
  apply fmap_Some in Hv as ([d' s0] & Hv & ->). unfold alone in Hv. cbn [fst snd] in Hv.
  unfold drain_from. cbn [next]. rewrite Hit. cbn [mbind option_bind].
  set (s1 := set_iter it s). assert (tracked p s1) as Ht1 by done.
  pose proof (visit_alike p cell (frozen s) s1 (alike_frozen p s1 Ht1)) as Hs2. rewrite Hv in Hs2.
  destruct (visit p cell s1) as [[r s2]|] eqn:E2; [|done].
  destruct Hs2 as (<- & F2 & T2 & I2 & C2 & N2). cbn [mbind option_bind fst].
  change (frozen s1) with (frozen s) in F2.
  change (RenderableContent.display_iter (terminal_content s1)) with it in I2.
  assert (∀ q vp, at_point q s2 vp ↔ at_point q s vp) as Hat.
  { intros q vp. unfold at_point. by destruct (frozen_reads _ _ F2) as (_ & _ & _ & _ & _ & _ & _ & _ & -> & _). }
  assert (cursor_point s2 = cursor_point s) as Ecp by (by destruct (frozen_reads _ _ F2) as (_ & _ & _ & -> & _)).
  assert (∀ s', cursor_found l s2 s' → cursor_found ((p, cell) :: l) s s') as Hfound.
  { intros s' [H1 H2]. setoid_rewrite Hat in H1. setoid_rewrite Hat in H2. rewrite Ecp in *.
    unfold alone in H1. rewrite F2 in H1. rewrite Forall_forall in Hp. split.
    - intros e r' s3 [->|He]%elem_of_cons Hpt Ha; [|by apply (H1 e r' s3)].
      cbn [fst snd] in *. unfold alone in Ha. cbn [fst snd] in Ha. rewrite Hv in Ha. injection Ha as _ <-.
      rewrite H2; [by apply C2|]. intros e He Hpe. pose proof (at_point_inj _ _ _ _ Hpt Hpe) as Epe.
      specialize (Hp e He). cbn [fst] in Hp. rewrite Epe in Hp. unfold before in Hp. lia.
    - intros Hno. rewrite H2; [|intros e He; apply Hno; by right]. apply N2. apply (Hno (p, cell)). left. }
  assert (Forall (λ e, tracked e.1 s2) l) as Ht2.
  { eapply Forall_impl; [exact Hp|]. intros e He. apply (tracked_mono p); [done|]. apply not_before.
    cbn [fst] in He. unfold before in *. lia. }
  assert (mapM (λ e, fst <$> alone s2 e) l = Some ds) as Hds2 by (unfold alone in *; by rewrite F2).
  rewrite <- I2 in Hy.
  destruct d' as [rc|].
  - destruct F as [|F]; [lia|].
    destruct (IH ds F' F F' s2 Hy Ho Ht2 Hds2 ltac:(lia) ltac:(lia) ltac:(lia)) as (s' & E & Ef & Hend & Hc).
    exists s'. cbn [mbind option_bind]. change (drain (S F) F' g s2) with (drain_from F' F F' g s2).
    rewrite E. split; [done|].
    split; [by rewrite Ef|]. split; [done|]. by apply Hfound.
  - destruct (IH ds n F F' s2 Hy Ho Ht2 Hds2 ltac:(lia) ltac:(lia) ltac:(lia)) as (s' & E & Ef & Hend & Hc).
    exists s'. unfold drain_from in E. split; [exact E|].
    split; [by rewrite Ef|]. split; [done|]. by apply Hfound.
Qed.

(** ** What a cell looks like *)

(** What covers a cell: the first character of a label, another one, the rest of a match with a
    label, the selection, or a match of the search. *)
Inductive Cover :=
  | LabelStart (ch : char) | LabelEnd (ch : char) | AfterLabel
  | InSelection | InFocusedMatch | InMatch | Uncovered.

(** The number of cells from the start of a match, or of the screen, to a point. *)
Definition label_distance s (bounds : Search.Match) p : nat :=
  let top := Pt (- Z.of_nat (RenderableContent.display_offset (terminal_content s))) 0%nat in
  let start := if Point.ltb top bounds.1 then bounds.1 else top in
  Z.to_nat ((line p - line start) * Z.of_nat (num_cols s) + Z.of_nat (column p) - Z.of_nat (column start)).

(** The label of the first hint with the point, and the point's position in it. *)
Definition label_at s p : option (list char * nat) :=
  h ← hint s;
  k ← match_at p (HintMatches.matches (HintOverlay.matches h));
  bounds ← HintMatches.matches (HintOverlay.matches h) !! k;
  label ← HintOverlay.labels h !! k;
  Some (label, label_distance s bounds p).

Definition is_selected s p cell : bool :=
  match RenderableContent.selection (terminal_content s) with
  | Some r => SelectionRange.contains_cell r (p, cell)
      (RenderableCursor.point (RenderableContent.cursor (terminal_content s))) (cursor_shape s)
  | None => false
  end.

Definition in_match s p : bool :=
  existsb (λ m, match_contains m p) (from_option HintMatches.matches [] (search s)).

Definition cover s p cell : Cover :=
  match label_at s p with
  | Some (label, k) =>
      match label !! k with
      | Some ch => if (k =? 0)%nat then LabelStart ch else LabelEnd ch
      | None => AfterLabel
      end
  | None =>
      if is_selected s p cell then InSelection
      else if negb (in_match s p) then Uncovered
      else if from_option (λ m, match_contains m p) false (focused_match s) then InFocusedMatch
      else InMatch
  end.

Definition cover_colors s (cv : Cover) : option CellColors :=
  match cv with
  | LabelStart _ => Some (hint_start_colors (colors_of s))
  | LabelEnd _ => Some (hint_end_colors (colors_of s))
  | InSelection => Some (selection_colors (colors_of s))
  | InFocusedMatch => Some (focused_match_colors (colors_of s))
  | InMatch => Some (matches_colors (colors_of s))
  | AfterLabel | Uncovered => None
  end.

(** The colours of what covers a cell over the cell's own; text that is selected is made readable
    unless it is hidden. *)
Definition covered s (cv : Cover) cell (fg bg : Rgb) (alpha : N) : option Look :=
  match cover_colors s cv with
  | None => Some (fg, bg, alpha)
  | Some c =>
      let fg' := cell_color (colors_fg c) fg bg in
      let bg' := cell_color (colors_bg c) fg bg in
      let alpha := if bool_decide (colors_bg c = CellBackground) then alpha else ALPHA_ONE in
      match cv with
      | InSelection =>
          if bool_decide (fg' = bg') && negb (Flags.contains (flags cell) Flags.HIDDEN) then
            b ← named Background s; f ← named Foreground s; Some (b, f, ALPHA_ONE)
          else Some (fg', bg', alpha)
      | _ => Some (fg', bg', alpha)
      end
  end.

Record looks_like s p cell (rc : RenderableCell.t) : Prop := {
  ll_point : at_point p s (RenderableCell.point rc);
  ll_character : RenderableCell.character rc
    = match cover s p cell with LabelStart ch | LabelEnd ch => ch | _ => c cell end;
  ll_flags : RenderableCell.flags rc
    = match cover s p cell with
      | AfterLabel => Flags.insert (flags cell) Flags.UNDERLINE
      | _ => flags cell
      end;
  ll_extra : RenderableCell.extra rc = cell_extra cell;
  ll_colors : ∃ fg bg alpha,
    compute_fg_rgb (Cells.fg cell) (flags cell) s = Some fg ∧
    compute_bg_rgb (Cells.bg cell) s = Some bg ∧
    (if Flags.contains (flags cell) Flags.INVERSE
     then covered s (cover s p cell) cell bg fg ALPHA_ONE
     else covered s (cover s p cell) cell fg bg (compute_bg_alpha (config s) (Cells.bg cell)))
    = Some (RenderableCell.fg rc, RenderableCell.bg rc, alpha) ∧
    RenderableCell.bg_alpha rc
    = if (0 <? alpha)%N && transparent_background_colors (colors_of s)
      then window_opacity (config s) else alpha;
  ll_underline :
    match Cell.underline_color cell with
    | Some u => compute_fg_rgb u (RenderableCell.flags rc) s = Some (RenderableCell.underline rc)
    | None => RenderableCell.underline rc = RenderableCell.fg rc
    end;
}.

(** There is nothing to see: no background, no character, no mark, no link, no line. *)
Definition blank (rc : RenderableCell.t) : Prop :=
  RenderableCell.bg_alpha rc = 0%N ∧ RenderableCell.character rc = 32%N ∧ RenderableCell.extra rc = None ∧
  N.land (RenderableCell.flags rc) (N.lor Flags.ALL_UNDERLINES Flags.STRIKEOUT) = 0%N.

(** The second half of a fullwidth character. *)
Definition second_half (rc : RenderableCell.t) : Prop :=
  Flags.contains (RenderableCell.flags rc) Flags.WIDE_CHAR_SPACER = true.

(** A block cursor covers the colours of its cell. *)
Definition under_cursor (cur : CursorCell.t) (rc : RenderableCell.t) : RenderableCell.t :=
  if bool_decide (CursorCell.shape cur = CursorShape_Block) then
    RenderableCell.mk (RenderableCell.character rc) (RenderableCell.point rc)
      (CursorCell.text_color cur) (CursorCell.cursor_color cur) ALPHA_ONE
      (RenderableCell.underline rc) (RenderableCell.flags rc) (RenderableCell.extra rc)
  else rc.

(** What is drawn of a cell: the cell at the cursor always, another one unless it is blank or the
    second half of a fullwidth character. *)
Inductive drawn_as s : Point * Cell → option RenderableCell.t → Prop :=
  | drawn_at_cursor p cell rc cur :
      looks_like s p cell rc → at_point p s (cursor_point s) → renderable_cursor rc s = Some cur →
      drawn_as s (p, cell) (Some (under_cursor cur rc))
  | drawn_visible p cell rc :
      looks_like s p cell rc → ¬ at_point p s (cursor_point s) → ¬ blank rc → ¬ second_half rc →
      drawn_as s (p, cell) (Some rc)
  | drawn_left_out p cell rc :
      looks_like s p cell rc → ¬ at_point p s (cursor_point s) → blank rc ∨ second_half rc →
      drawn_as s (p, cell) None.

(** ** Nothing panics *)

(** The matches of the hints have labels, and lie in a grid of [C] columns. *)
Record hint_ready (C : nat) (h : HintOverlay.t) : Prop := {
  hr_start : HintMatches.index (HintOverlay.matches h) = 0%nat;
  hr_sorted : starts_sorted (HintMatches.matches (HintOverlay.matches h));
  hr_labels : (length (HintMatches.matches (HintOverlay.matches h)) <= length (HintOverlay.labels h))%nat;
  hr_columns : Forall (λ m : Search.Match, (column m.1 < C)%nat)
    (HintMatches.matches (HintOverlay.matches h));
}.

Record content_ready (L C : nat) s : Prop := {
  cr_palette : length (colors s) = ColorList.COUNT;
  cr_set : length (RenderableContent.colors (terminal_content s)) = ColorList.COUNT;
  cr_search : from_option (λ m, HintMatches.index m = 0%nat ∧ starts_sorted (HintMatches.matches m))
    True (search s);
  cr_hint : from_option (hint_ready C) True (hint s);
  cr_columns : num_cols s = C;
  cr_size : Z.of_nat (L * C) <= I32_MAX;
  cr_wide : (1 <= C)%nat;
}.

(** The points of the screen. *)
Definition on_screen (L C : nat) p s : Prop :=
  0 <= line p + Z.of_nat (RenderableContent.display_offset (terminal_content s)) < Z.of_nat L ∧
  (column p < C)%nat ∧
  Z.of_nat (RenderableContent.display_offset (terminal_content s)) <= 268435455 ∧
  Z.of_nat L <= 268435455.

Lemma color_total L C i s : content_ready L C s → (i < ColorList.COUNT)%nat → is_Some (color i s).
Proof.
  intros [Hp Hs _ _ _ _ _] Hi. unfold color.
  destruct (lookup_lt_is_Some_2 (RenderableContent.colors (terminal_content s)) i) as [x ->]; [by rewrite Hs|].
  destruct (lookup_lt_is_Some_2 (colors s) i) as [y ->]; [by rewrite Hp|]. by eexists.
Qed.

Lemma named_total L C n s : content_ready L C s → is_Some (named n s).
Proof. intros Hs. apply (color_total L C); [done|]. unfold ColorList.COUNT. destruct n; simpl; lia. Qed.

Lemma compute_fg_total L C c f s : content_ready L C s → is_Some (compute_fg_rgb c f s).
Proof.
  intros Hs. unfold compute_fg_rgb. destruct (color_view c) as [rgb|n|i] eqn:E; [by eexists| |].
  - by apply (named_total L C).
  - apply (color_total L C); [done|]. apply color_view_byte in E. unfold indexed_fg, ColorList.COUNT.
    change (named_index DimBlack) with 259%nat. repeat case_match; bools; lia.
Qed.

Lemma compute_bg_total L C c s : content_ready L C s → is_Some (compute_bg_rgb c s).
Proof.
  intros Hs. unfold compute_bg_rgb. destruct (color_view c) as [rgb|n|i] eqn:E; [by eexists| |].
  - by apply (named_total L C).
  - apply (color_total L C); [done|]. apply color_view_byte in E. unfold ColorList.COUNT. lia.
Qed.

Lemma as_i32_columns (L C n : nat) : Z.of_nat (L * C) <= I32_MAX → (1 <= L)%nat → (n <= C)%nat →
  as_i32 n = Z.of_nat n.
Proof. intros Hm HL Hn. apply as_i32_small. nia. Qed.

Lemma label_position_spec (L C : nat) p s (m : Search.Match) :
  content_ready L C s → on_screen L C p s → match_contains m p = true → (column m.1 < C)%nat →
  HintOverlay.label_position
    (Pt (- Z.of_nat (RenderableContent.display_offset (terminal_content s))) 0%nat) C p m
  = Some (label_distance s m p).
Proof.
  intros [_ _ _ _ En Hm Hw] (Hl & Hc & Ho & HL) Hin Hmc. unfold HintOverlay.label_position, label_distance.
  rewrite En. set (vs := Pt _ 0%nat).
  replace (if Point.ltb vs m.1 then m.1 else vs) with (if Point.leb m.1 vs then vs else m.1)
    by (rewrite leb_ltb; by destruct (Point.ltb vs m.1)).
  set (start := if Point.leb m.1 vs then vs else m.1).
  assert (Point.leb m.1 p = true) as Hp by (by apply andb_true_iff in Hin as [? _]).
  rewrite leb_ltb, negb_true_iff, not_before in Hp.
  assert (- Z.of_nat (RenderableContent.display_offset (terminal_content s)) <= line start <= line p
    ∧ (column start < C)%nat) as [Hs Hsc].
  { unfold start. destruct (Point.leb m.1 vs) eqn:E; rewrite leb_ltb in E.
    - unfold vs. cbn. lia.
    - apply negb_false_iff, ltb_before in E. unfold before, vs in *. cbn in *. lia. }
  assert (Z.of_nat L * Z.of_nat C <= I32_MAX) as Hm' by lia.
  assert (0 <= (line p - line start) * Z.of_nat C <= (Z.of_nat L - 1) * Z.of_nat C) as Hd by nia.
  unfold i32_sub, i32_add, i32_chk.
  rewrite !(as_i32_columns L C) by lia.
  rewrite (proj2 (in_i32_true _)) by lia. cbn [mbind option_bind].
  rewrite (proj2 (in_i32_true _)) by nia. cbn [mbind option_bind].
  rewrite (proj2 (in_i32_true _)) by nia. cbn [mbind option_bind].
  rewrite (proj2 (in_i32_true _)) by nia. cbn [mbind option_bind]. f_equal.
  destruct (_ <? 0) eqn:E; bools; f_equal; lia.
Qed.

Lemma position_found {A} (f : A → bool) (l : list A) k :
  position f l = Some k → ∃ a, l !! k = Some a ∧ f a = true.
Proof.
  revert k. induction l as [|a l IH]; intros k; [done|]. cbn [position]. destruct (f a) eqn:E.
  - intros [= <-]. by exists a.
  - intros Hk. apply fmap_Some in Hk as (j & Hj & ->). by apply IH.
Qed.

(** The character of the label at a point, and whether it is the first. *)
Lemma advance_hint_spec (L C : nat) p s :
  content_ready L C s → on_screen L C p s → ∃ s', advance_hint p s
    = Some ((λ '(label, k), (label !! k, bool_decide (is_Some (label !! k)) && (k =? 0)%nat)) <$> label_at s p,
            s').
Proof.
  intros Hs Hp. pose proof (cr_hint _ _ _ Hs) as Hh. unfold advance_hint, label_at.
  destruct (hint s) as [h|]; [|by eexists]. destruct Hh as [Hi Ho Hl Hc]. destruct h as [m labels]. cbn in *.
  rewrite (cr_columns _ _ _ Hs). rewrite as_i32_small by (destruct Hp; lia). unfold HintOverlay.advance. cbn.
  destruct (advance_spec p m Ho) as (m' & -> & E1 & P1 & I1); [intros k x Hk; lia|].
  destruct (match_at p (HintMatches.matches m)) as [k|] eqn:E.
  - rewrite bool_decide_true by eauto. cbn [negb mbind option_bind]. rewrite (I1 k eq_refl), E1.
    apply position_found in E as (b & Hb & Hin). rewrite Hb. cbn [mbind option_bind].
    rewrite Forall_lookup in Hc. specialize (Hc k b Hb).
    rewrite (label_position_spec L C p s b Hs Hp Hin Hc). cbn [mbind option_bind].
    destruct (lookup_lt_is_Some_2 labels k) as [label ->].
    { apply lookup_lt_Some in Hb. lia. }
    cbn. eexists. do 2 f_equal. by destruct (label !! _).
  - rewrite bool_decide_false by (by intros [? ?]). cbn [negb mbind option_bind]. by eexists.
Qed.

Lemma overlay_total (L C : nat) p cell look s :
  content_ready L C s → tracked p s → on_screen L C p s → is_Some (overlay p cell look s).
Proof using All.
  intros Hs Ht Hp. unfold overlay. 
  destruct (advance_hint_spec L C p s Hs Hp) as [s1 E]. set (label := _ <$> label_at s p) in E.
  clearbody label.
  assert (alike p s s) as Hal by done. pose proof (advance_hint_mimics p s s Hal) as Hm. rewrite E in Hm.
  destruct Hm as (_ & Ha & _). rewrite E. cbn [mbind option_bind].
  destruct label as [label|].
  { destruct (with_label label cell look s1) as [[? ?] ?]. by eexists. }
  destruct (match RenderableContent.selection _ with Some _ => _ | None => _ end).
  - destruct (compute_cell_rgb _ _) as [[fg bg] alpha]. destruct (_ && _); [|by eexists].
    destruct (named_total L C Background s Hs) as [x Ex], (named_total L C Foreground s Hs) as [y Ey].
    unfold named in *. rewrite !(color_frozen _ _ _ (a_frozen _ _ _ Ha)), Ex, Ey. by eexists.
  - destruct (advance_search p s1) as [[] s2]; by eexists.
Qed.

Lemma visit_total (L C : nat) p cell s :
  content_ready L C s → tracked p s → on_screen L C p s → is_Some (visit p cell s).
Proof.
  intros Hs Ht Hp. assert (alike p s s) as Hal by done. unfold visit, renderable_cell, base_look.
  destruct (compute_fg_total L C (Cells.fg cell) (flags cell) s Hs) as [fg ->].
  destruct (compute_bg_total L C (Cells.bg cell) s Hs) as [bg ->]. cbn [mbind option_bind].
  set (look := if Flags.contains _ _ then _ else _). clearbody look.
  pose proof (overlay_mimics p cell look s s Hal) as Hm.
  destruct (overlay_total L C p cell look s Hs Ht Hp) as [[[[l f] ch] s1] E]. rewrite E in *.
  destruct l as [[fg1 bg1] alpha]. destruct Hm as (_ & Ha & _). cbn [mbind option_bind].
  pose proof (a_frozen _ _ _ Ha) as Hf.
  destruct (frozen_reads _ _ Hf) as (Ec & _ & _ & _ & _ & _ & _ & _ & Eo & Et & Em).
  rewrite Eo. unfold point_to_viewport. destruct Hp as (Hl & Hc & Hoff & HL).
  rewrite as_i32_small by lia. unfold i32_add, i32_chk. rewrite (proj2 (in_i32_true _)) by lia.
  cbn [mbind option_bind]. destruct (Z.leb_spec 0 (line p + Z.of_nat (RenderableContent.display_offset (terminal_content s)))); [|lia].
  cbn [mbind option_bind].
  assert (∀ u f0, is_Some (compute_fg_rgb u f0 s1)) as Hfg
    by (intros u f0; rewrite (compute_fg_frozen _ _ _ _ Hf); by apply (compute_fg_total L C)).
  destruct (match Cell.underline_color cell with Some _ => _ | None => _ end) as [u|] eqn:Eu.
  2: { exfalso. destruct (Cell.underline_color cell) as [u|]; [|done]. destruct (Hfg u f). congruence. }
  cbn [mbind option_bind]. set (rc := RenderableCell.mk _ _ _ _ _ _ _ _). clearbody rc.
  case_bool_decide; [|by destruct (_ && _); eexists].
  rewrite (renderable_cursor_frozen _ _ _ Hf). unfold renderable_cursor.
  destruct (lookup_lt_is_Some_2 (RenderableContent.colors (terminal_content s)) (named_index CursorColor)) as [x ->].
  { rewrite (cr_set _ _ _ Hs). unfold ColorList.COUNT. simpl. lia. }
  cbn [mbind option_bind]. destruct (_ && (rgb_contrast _ _ <? _)%N); cbn [mbind option_bind];
    case_bool_decide; by eexists.
Qed.

Lemma in_match_frozen s s' p : frozen s' = frozen s → in_match s' p = in_match s p.
Proof.
  intros Hf. apply frozen_matches in Hf as [E _]. unfold in_match.
  destruct (search s') as [m'|], (search s) as [m|]; try done. cbn in *. by injection E as ->.
Qed.

Lemma advance_search_spec p s : tracked p s → ∃ s', advance_search p s = (in_match s p, s').
Proof.
  intros [Ht _]. unfold advance_search, in_match. destruct (search s) as [m|]; [|by eexists].
  destruct Ht as [Hs Hp]. destruct (advance_spec p m Hs Hp) as (m' & -> & _). cbn.
  rewrite match_at_exists. by eexists.
Qed.

Lemma overlay_spec (L C : nat) p cell fg bg alpha s look f ch s' :
  content_ready L C s → tracked p s → on_screen L C p s →
  overlay p cell (fg, bg, alpha) s = Some (look, f, ch, s') →
  covered s (cover s p cell) cell fg bg alpha = Some look ∧
  f = match cover s p cell with
      | AfterLabel => Flags.insert (flags cell) Flags.UNDERLINE | _ => flags cell end ∧
  ch = match cover s p cell with LabelStart ch | LabelEnd ch => ch | _ => c cell end.
Proof using All.
  intros Hs Ht Hp. unfold overlay, cover. change (match RenderableContent.selection _ with
    Some _ => _ | None => _ end) with (is_selected s p cell).
  destruct (advance_hint_spec L C p s Hs Hp) as [s1 E]. pose proof (advance_hint_mimics p s s ltac:(done)) as Hm.
  rewrite E in *. destruct Hm as (_ & Ha & _). cbn [mbind option_bind].
  destruct (frozen_reads _ _ (a_frozen _ _ _ Ha)) as (Ec & _ & _ & _ & Efm & _).
  unfold with_label, covered, cover_colors, colors_of. rewrite Ec.
  destruct (label_at s p) as [[label k]|]; cbn [fmap option_fmap option_map].
  { destruct (label !! k) as [ch'|]; cbn; [|by intros [= <- <- <- <-]].
    destruct (k =? 0)%nat; by intros [= <- <- <- <-]. }
  destruct (is_selected s p cell).
  - cbn. unfold named. rewrite !(color_frozen _ _ _ (a_frozen _ _ _ Ha)).
    destruct (_ && _); [|by intros [= <- <- <- <-]].
    destruct (color (named_index Background) s) as [x|]; [|done]. cbn [mbind option_bind].
    destruct (color _ s) as [y|]; [|done]. cbn [mbind option_bind]. by intros [= <- <- <- <-].
  - destruct (advance_search_spec p s1 (a_tracked _ _ _ Ha)) as [s2 E2].
    assert (alike p s1 s1) as Hal by (split; [done|split; apply Ha]).
    pose proof (advance_search_mimics p s1 s1 Hal) as Hm2. rewrite E2 in *.
    rewrite (in_match_frozen _ _ _ (a_frozen _ _ _ Ha)) in *. destruct Hm2 as (_ & Ha2 & _).
    destruct (frozen_reads _ _ (a_frozen _ _ _ Ha2)) as (Ec2 & _ & _ & _ & Efm2 & _).
    rewrite Ec2, Efm2, Ec, Efm. destruct (in_match s p); cbn; [|by intros [= <- <- <- <-]].
    destruct (focused_match s) as [m|]; cbn; [destruct (match_contains m p)|]; by intros [= <- <- <- <-].
Qed.

Lemma renderable_cell_spec (L C : nat) p cell s rc s' :
  content_ready L C s → tracked p s → on_screen L C p s →
  renderable_cell p cell s = Some (rc, s') → looks_like s p cell rc ∧ agree p s s'.
Proof using All.
  intros Hs Ht Hp E. pose proof (renderable_cell_point p cell s rc s' Ht E) as Hpt.
  pose proof (renderable_cell_mimics p cell s s ltac:(done)) as Hm. rewrite E in Hm.
  destruct Hm as (_ & Ha & _). split; [|done]. revert E. unfold renderable_cell, base_look.
  destruct (compute_fg_rgb (Cells.fg cell) _ s) as [fg|] eqn:Efg; [|done].
  destruct (compute_bg_rgb (Cells.bg cell) s) as [bg|] eqn:Ebg; [|done]. cbn [mbind option_bind].
  destruct (if Flags.contains _ _ then _ else _) as [[fg1 bg1] alpha1] eqn:El.
  pose proof (overlay_mimics p cell (fg1, bg1, alpha1) s s ltac:(done)) as Hm.
  destruct (overlay p cell _ s) as [[[[[[fg2 bg2] alpha2] f] ch] s1]|] eqn:Eo; [|done].
  destruct Hm as (_ & Ha1 & _). apply (overlay_spec L C) in Eo as (Hcol & Hf & Hch); try done.
  destruct (frozen_reads _ _ (a_frozen _ _ _ Ha1)) as (Ec & _). cbn [mbind option_bind].
  destruct (point_to_viewport _ p) as [[vp|]|]; [|done..]. cbn [mbind option_bind].
  destruct (match Cell.underline_color cell with Some _ => _ | None => _ end) as [u|] eqn:Eu; [|done].
  cbn [mbind option_bind]. intros [= <- <-]. split; try done; cbn.
  - exists fg, bg, alpha2. split; [done|]. split; [done|]. unfold colors_of. rewrite Ec. split; [|done].
    destruct (Flags.contains _ Flags.INVERSE); by injection El as -> -> ->.
  - destruct (Cell.underline_color cell); [|by injection Eu as <-].
    by rewrite (compute_fg_frozen _ _ _ _ (a_frozen _ _ _ Ha1)) in Eu.
Qed.

Lemma is_empty_blank rc : RenderableCell.is_empty rc = true ↔ blank rc.
Proof.
  unfold RenderableCell.is_empty, blank, Flags.intersects, Cell.is_none.
  rewrite !andb_true_iff, !N.eqb_eq, negb_involutive.
  destruct (RenderableCell.extra rc); rewrite ?negb_true_iff, ?negb_false_iff, ?N.eqb_eq;
    intuition congruence.
Qed.

(** Looking at a cell draws it as it is specified. *)
Lemma visit_spec (L C : nat) p cell s r s' :
  content_ready L C s → tracked p s → on_screen L C p s → visit p cell s = Some (r, s') →
  drawn_as s (p, cell) r ∧ (at_point p s (cursor_point s) → ∃ rc, looks_like s p cell rc ∧
    renderable_cursor rc s = Some (cursor s')).
Proof using All.
  intros Hs Ht Hp. unfold visit. destruct (renderable_cell p cell s) as [[rc s1]|] eqn:E; [|done].
  apply (renderable_cell_spec L C) in E as [Hl Ha]; try done. cbn [mbind option_bind].
  pose proof (ll_point _ _ _ _ Hl) as Hpt.
  destruct (frozen_reads _ _ (a_frozen _ _ _ Ha)) as (_ & _ & _ & Ep & _).
  rewrite (renderable_cursor_frozen _ _ _ (a_frozen _ _ _ Ha)), Ep. case_bool_decide as Hc.
  - rewrite <- Hc in Hpt. destruct (renderable_cursor rc s) as [cur|] eqn:Ecur; [|done].
    cbn [mbind option_bind]. intros [= <- <-]. split; [by apply drawn_at_cursor|].
    intros _. by exists rc.
  - assert (¬ at_point p s (cursor_point s)) as Hno
      by (intros Hat; apply Hc; unfold at_point in *; congruence).
    destruct (_ && _) eqn:Ev; intros [= <- <-]; (split; [|done]).
    + apply andb_true_iff in Ev as [E1%negb_true_iff E2%negb_true_iff].
      apply drawn_visible; [done|done| |].
      * rewrite <- is_empty_blank. congruence.
      * unfold second_half. congruence.
    + apply drawn_left_out with rc; [done|done|]. unfold second_half. rewrite <- is_empty_blank.
      apply andb_false_iff in Ev as [Ev%negb_false_iff|Ev%negb_false_iff]; auto.
Qed.

(** The cell at the cursor is always drawn. *)
Lemma visit_at_cursor p cell s r s' :
  tracked p s → at_point p s (cursor_point s) → visit p cell s = Some (r, s') →
  is_Some r ∧ CursorCell.shape (cursor s') = cursor_shape s ∧
  CursorCell.point (cursor s') = cursor_point s.
Proof.
  intros Ht Hp. unfold visit. assert (alike p s s) as Hal by done.
  pose proof (renderable_cell_mimics p cell s s Hal) as Hm.
  pose proof (renderable_cell_point p cell s) as Hpt.
  destruct (renderable_cell p cell s) as [[rc s1]|]; [|done]. destruct Hm as (_ & Ha & _).
  specialize (Hpt _ _ Ht eq_refl). cbn [mbind option_bind].
  destruct (frozen_reads _ _ (a_frozen _ _ _ Ha)) as (_ & _ & Es & Ep & _). rewrite Ep.
  unfold at_point in *. rewrite bool_decide_true by congruence.
  destruct (renderable_cursor rc s1) as [cur|] eqn:Ec; [|done]. cbn [mbind option_bind].
  intros [= <- <-]. split; [by eexists|]. cbn. unfold renderable_cursor in Ec.
  apply bind_Some in Ec as (set & _ & Ec). destruct (_ && (rgb_contrast _ _ <? _)%N);
    injection Ec as <-; by rewrite <- Es, <- Ep.
Qed.

(** ** A frame *)

Section Frame.
Context (L C : nat) (b : Z) (t : Term.t) (config : ContentConfig) (cursor_hidden searching preedit : bool).
Context (ms : option (list Search.Match)) (fm : option Search.Match) (h : option HintOverlay.t).
Context (palette : list Rgb) (s0 : Content.t).

(** A terminal with its display in its history, the matches in order, and a palette of all
    colours. *)
Record frame_ready : Prop := {
  fr_term : term_ok L C b t;
  fr_offset : (Grid.display_offset (Term.grid t) <= history_size (Term.grid t))%nat;
  fr_size : Z.of_nat (L * C) <= I32_MAX;
  fr_palette : length palette = ColorList.COUNT;
  fr_matches : from_option starts_sorted True ms;
  fr_hint : from_option (hint_ready C) True h;
  fr_new : Content.new config t cursor_hidden searching preedit ms fm h palette C = Some s0;
}.

Lemma new_ready :
  frame_ready → content_ready L C s0 ∧ (∀ p, tracked p s0) ∧ cursor s0 = CursorCell.new_hidden ∧
  RenderableContent.display_offset (terminal_content s0) = Grid.display_offset (Term.grid t) ∧
  Grid.display_iter (Term.grid t) = Some (RenderableContent.display_iter (terminal_content s0)) ∧
  (column (cursor_point s0) < C)%nat.
Proof using All.
  intros [Ht Ho Hm Hp Hms Hh Hn]. unfold Content.new in Hn.
  apply bind_Some in Hn as (tc & Htc & Hn). apply bind_Some in Hn as (cp & Hcp & Hn).
  apply bind_Some in Hn as (vp & -> & Hn). injection Hn as <-.
  unfold RenderableContent.new in Htc. apply bind_Some in Htc as (it & Hit & Htc).
  apply bind_Some in Htc as (cur & Hcur & Htc). apply bind_Some in Htc as (range & _ & Htc).
  injection Htc as <-. cbn in *.
  pose proof (sc_columns _ _ _ (t_grid _ _ _ _ Ht)) as HC.
  assert (column (RenderableCursor.point cur) < C)%nat as Hcol.
  { unfold RenderableCursor.new in Hcur. apply bind_Some in Hcur as (cell & _ & Hcur).
    apply bind_Some in Hcur as (p & Hpt & [= <-]). cbn.
    assert (column (if Term.has_mode TermMode.VI t then Term.vi_mode_cursor t else Term.cursor_point t) < C)%nat
      as Hb.
    { destruct (Term.has_mode _ t); [apply (t_vi _ _ _ _ Ht)|]. rewrite <- HC.
      apply (g_cursor _ (sc_grid _ _ _ (t_grid _ _ _ _ Ht))). }
    destruct (Flags.contains _ _); [|by injection Hpt as <-].
    apply bind_Some in Hpt as (c & Hc & [= <-]). unfold usize_sub in Hc. cbn. destruct (1 <=? _)%nat; [|done].
    injection Hc as <-. lia. }
  split_and!; [split; cbn| |done|done|done|].
  - done.
  - apply (t_colors _ _ _ _ Ht).
  - by destruct ms.
  - done.
  - done.
  - done.
  - pose proof (t_wide _ _ _ _ Ht). lia.
  - intros p. split; cbn.
    + destruct ms; [|exact I]. split; [done|]. apply passed_new.
    + destruct h as [h'|]; [|exact I]. cbn in Hh. split; [apply Hh|].
      intros k m Hk. rewrite (hr_start _ _ Hh) in Hk. lia.
  - unfold point_to_viewport in Hcp. apply bind_Some in Hcp as (l & _ & Hcp).
    destruct (0 <=? l); [|done]. by injection Hcp as <-.
Qed.

Lemma screen_on_screen p cell :
  frame_ready → (p, cell) ∈ screen_cells (Term.grid t) → on_screen L C p s0.
Proof using All.
  intros Hf Hin. destruct (new_ready Hf) as (_ & _ & _ & Eo & _).
  destruct Hf as [Ht Ho _ _ _ _ _]. destruct (t_grid _ _ _ _ Ht) as [Hg HL HC].
  apply (elem_of_between _ Hg) in Hin as (Hl & Hc & _). pose proof (grid_dims _ Hg) as Hd. dims Hd.
  unfold on_screen. rewrite Eo. unfold history_size, lin in *. simpl in *.
  split; [|split; [lia|lia]]. split; nia.
Qed.

Lemma alone_total p cell :
  frame_ready → (p, cell) ∈ screen_cells (Term.grid t) → is_Some (alone s0 (p, cell)).
Proof using All.
  intros Hf Hin. destruct (new_ready Hf) as (Hr & Htr & _). unfold alone. cbn [fst snd].
  pose proof (visit_alike p cell (frozen s0) s0 (alike_frozen _ _ (Htr p))) as Hv.
  destruct (visit_total L C p cell s0 Hr (Htr p) (screen_on_screen p cell Hf Hin)) as [[r s1] E].
  rewrite E in Hv. destruct (visit p cell (frozen s0)) as [[r' s2]|]; [by eexists|done].
Qed.

(** The cell under the cursor, if the cursor is on the screen. *)
Lemma cursor_on_screen :
  frame_ready → (line (cursor_point s0) < L)%nat →
  ∃ p cell, (p, cell) ∈ screen_cells (Term.grid t) ∧ at_point p s0 (cursor_point s0).
Proof using All.
  intros Hf Hv. destruct (new_ready Hf) as (_ & _ & _ & Eo & _ & Hcol).
  destruct Hf as [Ht Ho _ _ _ _ _]. destruct (t_grid _ _ _ _ Ht) as [Hg HL HC].
  pose proof (grid_dims _ Hg) as Hd. dims Hd.
  set (off := Grid.display_offset (Term.grid t)) in *.
  set (p := Pt (Z.of_nat (line (cursor_point s0)) - Z.of_nat off) (column (cursor_point s0)) : Point).
  assert (in_grid (Term.grid t) p) as Hp.
  { unfold in_grid, p, history_size in *. simpl in *. lia. }
  destruct (index_point_ok _ p Hg Hp) as [cell Hcell]. exists p, cell. split.
  - apply list_elem_of_omap. exists (lin (Term.grid t) p). split.
    + apply elem_of_zrange. unfold lin, p, off in *. simpl in *. nia.
    + unfold cell_at. rewrite (unlin_lin _ Hg) by (simpl in *; lia). by rewrite Hcell.
  - unfold at_point, point_to_viewport. rewrite Eo. fold off.
    rewrite as_i32_small by (unfold history_size in *; simpl in *; lia). unfold p. cbn [line column].
    unfold i32_add, i32_chk. rewrite Z.sub_add, (proj2 (in_i32_true _)) by (simpl in *; lia). cbn [mbind option_bind].
    destruct (Z.leb_spec 0 (Z.of_nat (line (cursor_point s0)))); [|lia]. rewrite Nat2Z.id.
    by destruct (cursor_point s0).
Qed.

(** Every cell that is looked at on its own is drawn as it is specified, and gives the cursor. *)
Lemma alone_spec p cell r x :
  frame_ready → (p, cell) ∈ screen_cells (Term.grid t) → alone s0 (p, cell) = Some (r, x) →
  drawn_as s0 (p, cell) r ∧ (at_point p s0 (cursor_point s0) → ∃ rc, looks_like s0 p cell rc ∧
    renderable_cursor rc s0 = Some (cursor x)).
Proof using All.
  intros Hf Hin Ha. destruct (new_ready Hf) as (Hr & Htr & _). unfold alone in Ha. cbn [fst snd] in Ha.
  pose proof (visit_alike p cell (frozen s0) s0 (alike_frozen _ _ (Htr p))) as Hv. rewrite Ha in Hv.
  destruct (visit p cell s0) as [[r' s1]|] eqn:E; [|done].
  destruct Hv as (<- & _ & _ & _ & Hcur & _).
  apply (visit_spec L C) in E as [Hd Hc]; [|done|done|by apply screen_on_screen with cell].
  split; [done|]. intros Hat. rewrite <- (Hcur Hat). by apply Hc.
Qed.

(** C29.  With the display inside the history and the matches in reading order, the loop over the cells
    of a frame ends without a panic and goes over the cells of the screen once, in reading order.  A cell has the character of the label that covers it or its own, and
    the colours of its label, of the selection, of the focused match or another match, in this order
    of precedence, over its own colours, which are swapped if it is inverse.  It is left out exactly
    if the cursor is elsewhere and it is the second half of a fullwidth character, or has no
    background, character, mark, link or line.  The cursor is the one of the cell at its point, which
    is drawn; if the cursor is below the screen, it is hidden. *)
Theorem content_drawn :
  frame_ready →
  ∃ drawn, Forall2 (drawn_as s0) (screen_cells (Term.grid t)) drawn ∧
  ∀ fuel, (L * C < fuel)%nat → ∃ s' cur,
    drain fuel fuel (Term.grid t) s0 = Some (omap id drawn, s') ∧
    into_cursor 1 (Term.grid t) s' = Some cur ∧
    if (line (cursor_point s0) <? L)%nat then
      CursorCell.shape cur = cursor_shape s0 ∧ CursorCell.point cur = cursor_point s0 ∧
      ∃ p cell rc, (p, cell) ∈ screen_cells (Term.grid t) ∧ at_point p s0 (cursor_point s0) ∧
        looks_like s0 p cell rc ∧ renderable_cursor rc s0 = Some cur
    else cur = CursorCell.new_hidden.
Proof using All.
  intros Hf. destruct (new_ready Hf) as (Hr & Htr & Ecur & Eo & Eit & _). pose proof Hf as [Ht Ho _ _ _ _ _].
  pose proof (t_grid _ _ _ _ Ht) as [Hg HL HC].
  destruct (display_yields _ Hg Ho) as (it & Eit' & Hy). rewrite Eit in Eit'. injection Eit' as <-.
  assert (∃ drawn, mapM (λ e, fst <$> alone s0 e) (screen_cells (Term.grid t)) = Some drawn) as [drawn Hd].
  { apply mapM_is_Some. apply Forall_forall. intros [p cell] Hin. unfold compose.
    destruct (alone_total p cell Hf Hin) as [[r s1] ->]. by eexists. }
  exists drawn. split.
  { apply mapM_Some_1 in Hd. apply Forall2_same_length_lookup. split; [by eapply Forall2_length|].
    intros i [p cell] d Hi Hdi. pose proof (Forall2_lookup_lr _ _ _ _ _ _ Hd Hi Hdi) as Ha.
    apply fmap_Some in Ha as ([r x] & Ha & ->). cbn. apply (alone_spec p cell r x); try done.
    by eapply list_elem_of_lookup_2. }
  intros fuel Hfuel.
  assert (length (screen_cells (Term.grid t)) <= L * C)%nat as Hlen.
  { etrans; [apply length_between|]. rewrite <- HL, <- HC. simpl. lia. }
  destruct fuel as [|fuel]; [lia|].
  destruct (drain_from_spec (Term.grid t) (screen_cells (Term.grid t)) drawn (S fuel) fuel (S fuel) s0)
    as (s' & Es & Fs & Hend & Hc1 & Hc2); try done; try lia.
  { apply (between_in_order _ Hg). }
  { by apply Forall_forall. }
  assert (into_cursor 1 (Term.grid t) s' = Some (cursor s')) as Hcur.
  { unfold into_cursor. cbn [next]. cbn [yields] in Hend. by rewrite Hend. }
  exists s', (cursor s'). split; [exact Es|]. split; [done|].
  destruct (Nat.ltb_spec (line (cursor_point s0)) L) as [Hv|Hv].
  - destruct (cursor_on_screen Hf Hv) as (p & cell & Hin & Hat).
    assert (tracked p (frozen s0)) as Htf by (by apply tracked_frozen).
    destruct (alone_total p cell Hf Hin) as [[r x] Ea].
    destruct (visit_at_cursor p cell (frozen s0) r x Htf Hat Ea) as (_ & Esh & Ept).
    destruct (alone_spec p cell r x Hf Hin Ea) as [_ Hrc]. destruct (Hrc Hat) as (rc & Hl & Hcur').
    rewrite (Hc1 (p, cell) r x Hin Hat Ea). split; [done|]. split; [done|].
    by exists p, cell, rc.
  - rewrite Hc2; [done|]. intros [p cell] Hin Hat.
    destruct (screen_on_screen p cell Hf Hin) as (Hl & _ & Hb & _).
    unfold at_point, point_to_viewport in Hat. cbn [fst] in Hat. rewrite as_i32_small in Hat by lia.
    apply bind_Some in Hat as (z & Hz & Hat). unfold i32_add, i32_chk in Hz. destruct (in_i32 _); [|done].
    injection Hz as <-. destruct (0 <=? _); [|done]. injection Hat as Ecp. rewrite <- Ecp in Hv. simpl in Hv. lia.
Qed.
End Frame.
End Content.

(** * Examples *)

Lemma match_tracking_correct_witness :
  advance_all [Pt 0 1%nat; Pt 0 2%nat; Pt 1 0%nat; Pt 2 0%nat]
    (HintMatches.new [(Pt 0 2%nat, Pt 0 3%nat); (Pt 1 0%nat, Pt 1 2%nat)])
  = (λ p, existsb (λ m, match_contains m p) [(Pt 0 2%nat, Pt 0 3%nat); (Pt 1 0%nat, Pt 1 2%nat)])
      <$> [Pt 0 1%nat; Pt 0 2%nat; Pt 1 0%nat; Pt 2 0%nat].
Proof.
  apply match_tracking_correct; repeat constructor; by vm_compute.
Defined.

Module FrameSample.
#[local] Existing Instances Sample.external ColorSample.colors.

(** Three letters on the first line, the last two in a match. *)
Definition term : Term.t := TermSample.typed [Input 97; Input 98; Input 99]%N.
Definition matches : list Search.Match := [(Pt 0 1%nat, Pt 0 2%nat)].
Definition palette : list Rgb := default [] (ColorList.from ColorSample.config).
Definition config : ContentConfig := mkContentConfig _ ColorSample.config ALPHA_ONE false.

Definition content : Content.t.
Proof.
  let x := eval vm_compute in
    (Content.new config term false false false (Some matches) None None palette 4) in
  match x with Some ?s => exact s end.
Defined.
Lemma content_is_new :
  Content.new config term false false false (Some matches) None None palette 4 = Some content.
Proof.
  vm_cast_no_check (eq_refl (Some content)).
Qed.

Lemma ready : ∃ b, frame_ready 3 4 b term config
  false false false (Some matches) None None palette content.
Proof.
  destruct (TermSample.typed_ok [Input 97; Input 98; Input 99]%N) as [b Hb].
  { repeat constructor; simpl; lia. }
  { simpl. lia. }
  exists b. split; [exact Hb|by vm_compute|by vm_compute|by vm_compute| |exact I|exact content_is_new].
  cbn. repeat constructor.
Qed.
End FrameSample.

#[local] Existing Instances Sample.external ColorSample.colors.

(** The characters that are drawn, and their backgrounds. *)
Definition looks (cells : list RenderableCell.t) : list (char * Rgb) :=
  (λ cell, (RenderableCell.character cell, RenderableCell.bg cell)) <$> cells.

Lemma content_drawn_witness :
  ∃ drawn s cur,
    Content.drain 13 13 (Term.grid FrameSample.term) FrameSample.content = Some (omap id drawn, s) ∧
    Content.into_cursor 1 (Term.grid FrameSample.term) s = Some cur ∧
    looks (omap id drawn)
    = [(97, (24, 24, 24)); (98, (172, 66, 66)); (99, (172, 66, 66)); (32, (24, 24, 24))]%N.
Proof.
  destruct FrameSample.ready as [b Hready].
  destruct (content_drawn 3 4 b _ _ _ _ _ _ _ _ _ _ Hready) as (drawn & _ & Hdrawn).
  destruct (Hdrawn 13%nat ltac:(lia)) as (s & cur & Hs & Hcur & _). exists drawn, s, cur.
  split; [exact Hs|]. split; [exact Hcur|].
  assert (match Content.drain 13 13 (Term.grid FrameSample.term) FrameSample.content with
    | Some (cells, _) => bool_decide (looks cells
        = [(97, (24, 24, 24)); (98, (172, 66, 66)); (99, (172, 66, 66)); (32, (24, 24, 24))]%N)
    | None => false end = true) as Hlooks by (vm_compute; reflexivity).
  rewrite Hs in Hlooks. exact (bool_decide_eq_true_1 _ Hlooks).
Defined.
