(* ===== verification/Texts.v ===== *)
(** The text of a frame ([cutty/src/display/text.rs]): the layouts of the characters and their cache,
    the fonts that are tried for a character, and the locale.

    Layouts are made by parley from a collection of fonts of fontique, which are parameters; a
    layout is a function of what its builder is given.  Sizes are represented by the bits of their
    [f32], measures by multiples of 1/65536 of a pixel. *)
From stdpp Require Import gmap.
From S2P Require Import Prelude Index Cells TermData Searches Keys ColorLists Contents.
#[local] Open Scope nat_scope.

(** * Fonts *)

Inductive FontVariant := VariantNormal | VariantBold | VariantItalic | VariantBoldItalic.
#[export] Instance FontVariant_eq_dec : EqDecision FontVariant.
Proof. solve_decision. Defined.

Definition as_index (v : FontVariant) : nat :=
  match v with VariantNormal => 0 | VariantBold => 1 | VariantItalic => 2 | VariantBoldItalic => 3 end.

Definition font_variant_from_style (bold italic : bool) : FontVariant :=
  match bold, italic with
  | true, true => VariantBoldItalic
  | true, false => VariantBold
  | false, true => VariantItalic
  | false, false => VariantNormal
  end.

Definition font_variant (f : Flags) : FontVariant :=
  font_variant_from_style (Flags.intersects f (N.lor Flags.BOLD Flags.DIM_BOLD))
    (Flags.contains f Flags.ITALIC).

(** [font_style]: whether the style is italic and the weight is bold. *)
Definition font_style (v : FontVariant) : bool * bool :=
  match v with
  | VariantNormal => (false, false)
  | VariantBold => (false, true)
  | VariantItalic => (true, false)
  | VariantBoldItalic => (true, true)
  end.

(** [config/font.rs]: the families, the size in pixels by its bits, and the offsets. *)
Record Font := mkFont {
  normal_family : text;
  bold_family : option text;
  italic_family : option text;
  bold_italic_family : option text;
  size_px : N;
  font_offset : Z * Z;
  glyph_offset : Z * Z;
}.

(** [SecondaryFontDescription::desc]. *)
Definition secondary (family : option text) (font : Font) : text := default (normal_family font) family.

Definition variant_family_spec (font : Font) (v : FontVariant) : text :=
  match v with
  | VariantNormal => normal_family font
  | VariantBold => secondary (bold_family font) font
  | VariantItalic => secondary (italic_family font) font
  | VariantBoldItalic => secondary (bold_italic_family font) font
  end.

Inductive GenericFamily := UiMonospace | Monospace | SystemUi | Emoji | OtherGeneric (n : N).
#[export] Instance GenericFamily_eq_dec : EqDecision GenericFamily.
Proof. solve_decision. Defined.
Inductive FontFamily := FamilyNamed (name : text) | FamilyGeneric (g : GenericFamily).
#[export] Instance FontFamily_eq_dec : EqDecision FontFamily.
Proof. solve_decision. Defined.

(** A script is a tag of four bytes. *)
Definition Script : Type := list N.

Inductive LayoutTextKey := KeyChar (ch : char) | KeyString (s : text).
Record LayoutKey := mkLayoutKey { key_text : LayoutTextKey; key_variant : FontVariant; key_size : N }.
#[export] Instance LayoutTextKey_eq_dec : EqDecision LayoutTextKey.
Proof. solve_decision. Defined.
#[export] Instance LayoutKey_eq_dec : EqDecision LayoutKey.
Proof. solve_decision. Defined.
#[export] Instance LayoutKey_countable : Countable LayoutKey.
Proof.
  refine (inj_countable'
    (λ k, (match key_text k with KeyChar ch => inl ch | KeyString s => inr s end,
           as_index (key_variant k), key_size k))
    (λ '(t, v, n), mkLayoutKey (match t with inl ch => KeyChar ch | inr s => KeyString s end)
       (match v with 0 => VariantNormal | 1 => VariantBold | 2 => VariantItalic
        | _ => VariantBoldItalic end) n) _).
  by intros [[] [] n].
Defined.

(** What the text of a key is. *)
Definition text_of_key (k : LayoutKey) : text :=
  match key_text k with KeyChar ch => [ch] | KeyString s => s end.

(** The measures of a line of text: the width, the height, the baseline and the descent, and the
    offsets and thicknesses of the underline and of the strikethrough of its first run. *)
Record LineMeasures := mkLineMeasures {
  full_width : Z; line_height : Z; line_baseline : Z; line_descent : Z;
  run_measures : option (Z * Z * Z * Z);
}.

(** parley and fontique. *)
Class Fontique := {
  FamilyId : Type;
  FamilyId_eq_dec :: EqDecision FamilyId;
  FallbackKey : Type;
  FallbackKey_eq_dec :: EqDecision FallbackKey;
  FallbackKey_countable :: Countable FallbackKey;
  fallback_key : Script → option text → FallbackKey;
  key_script : FallbackKey → Script;
  is_tracked : FallbackKey → bool;
  script_sample : Script → option text;
  (** [Script::to_opentype], a number of 32 bits. *)
  opentype_tag : char → N;
  (** The characters of the fonts of a family that can be loaded. *)
  family_charmaps : FamilyId → list (char → option N);
  Collection : Type;
  generic_families : Collection → GenericFamily → list FamilyId;
  family_names : Collection → list text;
  family_id : Collection → text → option FamilyId;
  fallback_families : Collection → FallbackKey → list FamilyId;
  append_fallbacks : Collection → FallbackKey → list FamilyId → bool * Collection;
  (** Fallbacks are appended for tracked keys only, and the result says so. *)
  append_untracked coll k fs : is_tracked k = false → append_fallbacks coll k fs = (false, coll);
  append_tracked coll k fs : is_tracked k = true →
    (append_fallbacks coll k fs).1 = true ∧
    ∀ k', fallback_families (append_fallbacks coll k fs).2 k'
      = if decide (k' = k) then fallback_families coll k ++ fs else fallback_families coll k';
  parse_list : text → list FontFamily;
  Layout : Type;
  build_layout : Collection → list FontFamily → text → N → bool * bool → option text → Z → Layout;
  measure_line : Collection → list FontFamily → text → N → option text → LineMeasures;
}.

(** * Families *)

Section families.
Context `{Fontique}.

Definition push_family_name (families : list FontFamily) (family : FontFamily) : list FontFamily :=
  if bool_decide (family ∈ families) then families else families ++ [family].

Definition push_configured_family_names (families : list FontFamily) (spec : text) : list FontFamily :=
  let spec := trim spec in
  if Cell.is_nil spec then families
  else
    match parse_list spec with
    | [] => push_family_name families (FamilyNamed spec)
    | parsed => foldl push_family_name families parsed
    end.

Definition font_family_stack (font : Font) (v : FontVariant) : list FontFamily :=
  let families := push_configured_family_names [] (variant_family_spec font v) in
  let families := if bool_decide (v = VariantNormal) then families
                  else push_configured_family_names families (normal_family font) in
  foldl push_family_name families
    [FamilyGeneric UiMonospace; FamilyGeneric Monospace; FamilyGeneric SystemUi; FamilyGeneric Emoji].

Definition variants : list FontVariant := [VariantNormal; VariantBold; VariantItalic; VariantBoldItalic].
Definition family_stacks_for_font (font : Font) : list (list FontFamily) :=
  font_family_stack font <$> variants.

(** The order of the names: names with a leading dot last, then by the name in lower case. *)
Definition family_name_sort_key (name : text) : bool * text :=
  (match name with 46%N :: _ => true | _ => false end, ascii_lowercase <$> name).

Fixpoint text_leb (a b : text) : bool :=
  match a, b with
  | [], _ => true
  | _, [] => false
  | x :: a, y :: b => if (x <? y)%N then true else if (y <? x)%N then false else text_leb a b
  end.
Definition sort_key_leb (a b : bool * text) : bool :=
  if a.1 then b.1 && text_leb a.2 b.2 else b.1 || text_leb a.2 b.2.
Fixpoint insert_name (name : text) (l : list text) : list text :=
  match l with
  | [] => [name]
  | x :: l' => if sort_key_leb (family_name_sort_key name) (family_name_sort_key x) then name :: l
               else x :: insert_name name l'
  end.
Fixpoint dedup (l : list text) : list text :=
  match l with
  | a :: rest =>
      match dedup rest with
      | b :: rest' => if bool_decide (a = b) then b :: rest' else a :: b :: rest'
      | [] => [a]
      end
  | [] => []
  end.

(** [seen.insert(family_id)] and [families.push(family_id)]. *)
Definition push_new (families : list FamilyId) (id : FamilyId) : list FamilyId :=
  if bool_decide (id ∈ families) then families else families ++ [id].

Definition fallback_search_families (coll : Collection) : list FamilyId :=
  let families := foldl push_new []
    (concat (generic_families coll <$> [UiMonospace; Monospace; SystemUi; Emoji])) in
  foldl push_new families
    (omap (family_id coll) (dedup (foldr insert_name [] (family_names coll)))).
End families.

(** * The locale *)

(** [split_once], the part before the first separator. *)
Fixpoint before_char (sep : char) (s : text) : text :=
  match s with
  | [] => []
  | ch :: s => if (ch =? sep)%N then [] else ch :: before_char sep s
  end.

Definition normalize_locale (locale : text) : option text :=
  let locale := trim locale in
  if Cell.is_nil locale || bool_decide (locale = [67%N])
     || bool_decide (locale = [80; 79; 83; 73; 88]%N)
  then None
  else
    let locale := before_char 46 locale in
    let locale := before_char 64 locale in
    let locale := (λ ch, if (ch =? 95)%N then 45%N else ch) <$> locale in
    if Cell.is_nil locale then None else Some locale.

(** [text_locale]: the first variable of the environment that is set. *)
Definition text_locale (lc_all lc_ctype lang : option text) : option text :=
  let value := match lc_all with Some v => Some v | None =>
    match lc_ctype with Some v => Some v | None => lang end end in
  value ← value; normalize_locale value.

(** * [struct TextSystem] *)

Module TextSystem.
Section record.
Context `{Fontique}.

Record TextMetrics := mkTextMetrics {
  cell_width : Z; cell_height : Z; baseline : Z; descent : Z;
  underline_position : Z; underline_thickness : Z;
  strikeout_position : Z; strikeout_thickness : Z;
  glyph_offset_x : Z; glyph_offset_y : Z;
}.

Record t := mk {
  font : Font;
  collection : Collection;
  metrics : TextMetrics;
  locale : option text;
  search_families : list FamilyId;
  checked_fallbacks : gset (FallbackKey * char);
  family_stacks : list (list FontFamily);
  cache : gmap LayoutKey Layout;
}.
Implicit Types s : t.

Definition set_collection (x : Collection) s : t :=
  mk (font s) x (metrics s) (locale s) (search_families s) (checked_fallbacks s) (family_stacks s)
     (cache s).
Definition set_checked (x : gset (FallbackKey * char)) s : t :=
  mk (font s) (collection s) (metrics s) (locale s) (search_families s) x (family_stacks s) (cache s).
Definition set_cache (x : gmap LayoutKey Layout) s : t :=
  mk (font s) (collection s) (metrics s) (locale s) (search_families s) (checked_fallbacks s)
     (family_stacks s) x.
End record.

Section ops.
Context `{Fontique}.
Implicit Types (s : t) (ch : char) (k : FallbackKey).

(** One pixel. *)
Definition PIXEL : Z := 65536.

(** [measure_metrics], of the letter M. *)
Definition measure_metrics (coll : Collection) (stack : list FontFamily) (locale : option text)
    (font : Font) : TextMetrics :=
  let m := measure_line coll stack [77%N] (size_px font) locale in
  let '(underline, underline_size, strikeout, strikeout_size) := default (0, 0, 0, 0)%Z (run_measures m) in
  (mkTextMetrics (Z.max (full_width m + (font_offset font).1 * PIXEL) PIXEL)
     (Z.max (line_height m + (font_offset font).2 * PIXEL) PIXEL)
     (line_baseline m) (line_descent m) underline (Z.max underline_size PIXEL) strikeout
     (Z.max strikeout_size PIXEL) ((glyph_offset font).1 * PIXEL) ((glyph_offset font).2 * PIXEL))%Z.

Definition normal_stack (font : Font) : list FontFamily := font_family_stack font VariantNormal.

Definition new (coll : Collection) (locale : option text) (font : Font) : t :=
  mk font coll (measure_metrics coll (normal_stack font) locale font) locale
     (fallback_search_families coll) ∅ (family_stacks_for_font font) ∅.

Definition update_font (font : Font) s : t :=
  mk font (collection s) (measure_metrics (collection s) (normal_stack font) (locale s) font) (locale s)
     (search_families s) ∅ (family_stacks_for_font font) ∅.

(** ** Fallbacks *)

Definition to_ascii_uppercase (b : N) : N := if ((97 <=? b) && (b <=? 122))%N then (b - 32)%N else b.

(** [fontique_script_for_char]: common, inherited and unknown characters have no script. *)
Definition script_for_char ch : option Script :=
  let tag := opentype_tag ch in
  let byte n := N.land (N.shiftr tag n) 255 in
  let script := [to_ascii_uppercase (byte 24); ascii_lowercase (byte 16);
                 ascii_lowercase (byte 8); ascii_lowercase (byte 0)]%N in
  if bool_decide (script ∈ [[90; 121; 121; 121]; [90; 105; 110; 104]; [90; 122; 122; 122]]%N)
  then None else Some script.

Definition fallback_key_for_char ch s : option FallbackKey :=
  script ← script_for_char ch;
  match (λ l, fallback_key script (Some l)) <$> locale s with
  | Some k => if is_tracked k then Some k else Some (fallback_key script None)
  | None => Some (fallback_key script None)
  end.

Definition family_supports_text (id : FamilyId) (text : list char) : bool :=
  existsb (λ charmap, forallb (λ ch, match charmap ch with
    | Some glyph_id => negb (glyph_id =? 0)%N | None => false end) text) (family_charmaps id).

Definition fallbacks_support_character k ch s : bool :=
  existsb (λ id, family_supports_text id [ch]) (fallback_families (collection s) k).

Definition find_fallback_families (script : Script) ch s : list FamilyId :=
  let sample_text := default [ch] (script_sample script) in
  let use_sample_text := negb (bool_decide (sample_text = [ch])) in
  let supporting := filter (λ id, family_supports_text id [ch] = true) (search_families s) in
  let is_preferred id := use_sample_text && family_supports_text id sample_text in
  filter (λ id, is_preferred id = true) supporting ++ filter (λ id, is_preferred id = false) supporting.

Definition seed_fontique_fallbacks k ch s : bool * t :=
  let fallback_families := find_fallback_families (key_script k) ch s in
  if Cell.is_nil fallback_families then (false, s)
  else
    let '(added, coll) := append_fallbacks (collection s) k fallback_families in
    (added, set_collection coll s).

(** The body of the loop of [ensure_fontique_fallbacks]. *)
Definition ensure_fallback ch (st : bool * t) : bool * t :=
  let '(changed, s) := st in
  match fallback_key_for_char ch s with
  | None => (changed, s)
  | Some k =>
      if bool_decide ((k, ch) ∈ checked_fallbacks s) then (changed, s)
      else
        let s := set_checked ({[(k, ch)]} ∪ checked_fallbacks s) s in
        if fallbacks_support_character k ch s then (changed, s)
        else let '(added, s) := seed_fontique_fallbacks k ch s in (changed || added, s)
  end.

Definition ensure_fontique_fallbacks (text : list char) s : t :=
  let '(changed, s) := foldl (λ st ch, ensure_fallback ch st) (false, s) text in
  if changed then set_cache ∅ (set_checked ∅ s) else s.

(** ** Layouts *)

(** The layout of a text with the fonts as they are. *)
Definition layout_of (v : FontVariant) (text : list char) s : option Layout :=
  family ← family_stacks s !! as_index v;
  Some (build_layout (collection s) family text (size_px (font s)) (font_style v) (locale s)
          (cell_height (metrics s))).

Definition build_and_cache_layout (key : LayoutKey) (text : list char) (v : FontVariant) s :
    option (Layout * t) :=
  layout ← layout_of v text s;
  Some (layout, set_cache (<[key := layout]> (cache s)) s).

(** [shape_char_with_order] and [shape_text_with_order]. *)
Definition shape_with_order (text_key : LayoutTextKey) (v : FontVariant) (cache_first : bool) s :
    option (Layout * t) :=
  let key := mkLayoutKey text_key v (size_px (font s)) in
  let text := text_of_key key in
  let build s := build_and_cache_layout key text v s in
  if cache_first then
    match cache s !! key with
    | Some layout => Some (layout, s)
    | None => build (ensure_fontique_fallbacks text s)
    end
  else
    let s := ensure_fontique_fallbacks text s in
    match cache s !! key with
    | Some layout => Some (layout, s)
    | None => build s
    end.

Definition shape_char (ch : char) (v : FontVariant) s : option (Layout * t) :=
  shape_with_order (KeyChar ch) v true s.
Definition shape_character (ch : char) (bold italic : bool) s : option (Layout * t) :=
  shape_char ch (font_variant_from_style bold italic) s.

(** [None] inside is a cell without a layout. *)
Definition shape_cell_with_options `{External} (cell : RenderableCell.t)
    (skip_whitespace cache_first : bool) s : option (option Layout * t) :=
  let f := RenderableCell.flags cell in
  let ch := RenderableCell.character cell in
  if Flags.contains f Flags.HIDDEN then Some (None, s)
  else if (ch =? 9)%N then Some (None, s)
  else
    match (extra ← RenderableCell.extra cell; extra.1) with
    | Some zerowidth =>
        '(layout, s) ← shape_with_order (KeyString (ch :: zerowidth)) (font_variant f) cache_first s;
        Some (Some layout, s)
    | None =>
        if skip_whitespace && (ch =? 32)%N then Some (None, s)
        else
          '(layout, s) ← shape_with_order (KeyChar ch) (font_variant f) cache_first s;
          Some (Some layout, s)
    end.
Definition shape_cell `{External} (cell : RenderableCell.t) s : option (option Layout * t) :=
  shape_cell_with_options cell true true s.
End ops.
End TextSystem.
