(* ===== verification/TextProps.v ===== *)
(** Properties of the text of a frame: the cache of layouts never shows, the families of a font, and
    the locale. *)
From stdpp Require Import gmap.
From S2P Require Import Prelude Index Cells TermData Searches Keys ColorLists Contents Texts.
#[local] Open Scope nat_scope.
#[local] Set Default Proof Using "Type".

Section Shaping.
Context `{Fontique}.
Implicit Types (s : TextSystem.t) (ch : char) (k : FallbackKey) (v : FontVariant).
Import TextSystem.

(** * Fallbacks *)

(** Checking a character again would not add a fallback. *)
Definition settled_at s k ch : Prop :=
  fallbacks_support_character k ch s = true ∨ is_tracked k = false ∨
  find_fallback_families (key_script k) ch s = [].
Definition settled s ch : Prop :=
  ∀ k, fallback_key_for_char ch s = Some k → settled_at s k ch.

(** The state without what only saves work: the cache and the record of what was checked. *)
Definition bare s : t := set_cache ∅ (set_checked ∅ s).

Lemma bare_settled s s' k ch : bare s' = bare s → settled_at s k ch → settled_at s' k ch.
Proof.
  intros E. injection E as _ Ec _ _ Es _. unfold settled_at, fallbacks_support_character,
    find_fallback_families. by rewrite Ec, Es.
Qed.
Lemma bare_key s s' ch : bare s' = bare s → fallback_key_for_char ch s' = fallback_key_for_char ch s.
Proof. intros E. injection E as _ _ _ El _ _. unfold fallback_key_for_char. by rewrite El. Qed.

(** The families that are found support the character. *)
Lemma found_support script ch s id :
  id ∈ find_fallback_families script ch s → family_supports_text id [ch] = true.
Proof.
  unfold find_fallback_families. rewrite elem_of_app, !list_elem_of_filter. by intros [(_ & Hs & _)|(_ & Hs & _)].
Qed.

(** The state after the fallbacks of some characters were added. *)
Record grown s s' : Prop := {
  gr_same : set_collection (collection s) (bare s') = bare s;
  gr_more : ∀ k, fallback_families (collection s) k `prefix_of` fallback_families (collection s') k;
}.

Lemma grown_refl s s' : bare s' = bare s → grown s s'.
Proof.
  intros E. pose proof E as E'. injection E' as _ Ec _ _ _ _. split; [by rewrite E|].
  intros k. by rewrite Ec.
Qed.

Lemma grown_trans s1 s2 s3 : grown s1 s2 → grown s2 s3 → grown s1 s3.
Proof.
  intros [E1 P1] [E2 P2]. split; [|intros k; by transitivity (fallback_families (collection s2) k)].
  destruct s1, s2, s3. unfold bare, set_collection, set_checked, set_cache in *. cbn in *. injection E2 as -> -> -> -> ->.
  by injection E1 as -> -> -> -> ->.
Qed.

Lemma grown_settled s s' k ch : grown s s' → settled_at s k ch → settled_at s' k ch.
Proof.
  intros [E P]. injection E as _ _ _ Es _. unfold settled_at.
  assert (find_fallback_families (key_script k) ch s' = find_fallback_families (key_script k) ch s) as ->
    by (unfold find_fallback_families; by rewrite Es).
  intros [Hs|Hs]; [left|by right]. unfold fallbacks_support_character in *.
  destruct (P k) as [more ->]. rewrite existsb_app. by rewrite Hs.
Qed.

(** What the state records is right. *)
Record wf s : Prop := {
  wf_stacks : family_stacks s = family_stacks_for_font (font s);
  wf_checked : ∀ k ch, (k, ch) ∈ checked_fallbacks s → settled_at s k ch;
  wf_cache : ∀ key l, cache s !! key = Some l →
    layout_of (key_variant key) (text_of_key key) s = Some l ∧ Forall (settled s) (text_of_key key);
}.

(** Seeding a key adds a family that supports the character, or changes nothing. *)
Lemma seed_ok k ch s :
  let '(added, s') := seed_fontique_fallbacks k ch s in
  grown s s' ∧ settled_at s' k ch ∧ checked_fallbacks s' = checked_fallbacks s ∧ cache s' = cache s ∧
  (added = false → s' = s) ∧
  (added = true → fallbacks_support_character k ch s = false → ¬ settled_at s k ch).
Proof.
  unfold seed_fontique_fallbacks. set (fs := find_fallback_families (key_script k) ch s).
  assert (∀ c, find_fallback_families (key_script k) ch (set_collection c s) = fs) as Hfs by done.
  destruct fs as [|f fs'] eqn:Efs; cbn [Cell.is_nil].
  { split; [by apply grown_refl|]. split; [right; by right|done]. }
  rewrite <- Efs. destruct (is_tracked k) eqn:Et.
  - destruct (append_tracked (collection s) k fs Et) as [Ea Ef].
    destruct (append_fallbacks (collection s) k fs) as [added coll]. cbn in Ea, Ef. subst added.
    split_and!; try done.
    + split; [done|]. intros k'. cbn. rewrite Ef. case_decide; [subst k'|done]. by apply prefix_app_r.
    + left. unfold fallbacks_support_character. cbn. rewrite Ef, decide_True by done.
      rewrite existsb_app. apply orb_true_iff. right. rewrite Efs. cbn. apply orb_true_iff. left.
      apply (found_support (key_script k) ch s). fold fs. rewrite Efs. left.
    + intros _ Hno [Hs|[Hs|Hs]]; [congruence|congruence|]. fold fs in Hs. congruence.
  - rewrite append_untracked by done. split; [by apply grown_refl|]. split; [right; by left|].
    split_and!; [done|done|by destruct s|done].
Qed.

(** One character; [x] is a state that differs in what was checked only. *)
Lemma ensure_fallback_ok changed ch s :
  (∀ k c, (k, c) ∈ checked_fallbacks s → settled_at s k c) →
  let '(changed', s') := ensure_fallback ch (changed, s) in
  grown s s' ∧ settled s' ch ∧ cache s' = cache s ∧
  (∀ k c, (k, c) ∈ checked_fallbacks s' → settled_at s' k c) ∧
  (changed' = false → changed = false ∧ bare s' = bare s) ∧
  (settled s ch → changed' = changed ∧ bare s' = bare s).
Proof.
  intros Hc. unfold ensure_fallback. destruct (fallback_key_for_char ch s) as [k|] eqn:Ek.
  2: { split_and!; [by apply grown_refl|intros k; by rewrite Ek|done..]. }
  case_bool_decide as Hin.
  { split_and!; [by apply grown_refl| |done..]. intros k'. rewrite Ek. intros [= <-]. by apply Hc. }
  set (s1 := set_checked _ s). assert (bare s1 = bare s) as Eb by done.
  assert (∀ s', grown s1 s' → settled_at s' k ch → checked_fallbacks s' = checked_fallbacks s1 →
    ∀ k' c, (k', c) ∈ checked_fallbacks s' → settled_at s' k' c) as Hchk.
  { intros s' Hg Hs Ecs k' c. rewrite Ecs. unfold s1. cbn. rewrite elem_of_union, elem_of_singleton.
    intros [[= -> ->]|Hin']; [done|]. apply (grown_settled s1); [done|].
    apply (bare_settled s); [done|]. by apply Hc. }
  assert (∀ s', grown s1 s' → settled_at s' k ch → settled s' ch) as Hset.
  { intros s' [Eg _] Hs k'. injection Eg as _ _ El _ _. unfold fallback_key_for_char in *.
    unfold s1 in El. cbn in El. rewrite El, Ek. by intros [= <-]. }
  destruct (fallbacks_support_character k ch s1) eqn:Esup.
  - assert (settled_at s1 k ch) as Hs by by left.
    split_and!; [by apply grown_refl|apply Hset; [by apply grown_refl|done]|done| |done|done].
    apply Hchk; [by apply grown_refl|done|done].
  - pose proof (seed_ok k ch s1) as Hseed. destruct (seed_fontique_fallbacks k ch s1) as [added s2].
    destruct Hseed as (Hg & Hs & Ecs & Eca & Hno & Hyes).
    split_and!; [|by apply Hset|by rewrite Eca|by apply Hchk|..].
    + eapply grown_trans; [by apply grown_refl|done].
    + intros [-> ->]%orb_false_iff. split; [done|]. by rewrite Hno.
    + intros Hsettled. destruct added; [|rewrite orb_false_r; split; [done|]; by rewrite Hno].
      exfalso. apply Hyes; [done|done|]. apply (bare_settled s); [done|]. by apply Hsettled.
Qed.

Lemma grown_key s s' ch : grown s s' → fallback_key_for_char ch s' = fallback_key_for_char ch s.
Proof. intros [E _]. injection E as _ _ El _ _. unfold fallback_key_for_char. by rewrite El. Qed.
Lemma grown_settled_char s s' ch : grown s s' → settled s ch → settled s' ch.
Proof.
  intros Hg Hs k Hk. rewrite (grown_key s s' ch Hg) in Hk. by apply (grown_settled s), Hs.
Qed.

(** The loop over the characters. *)
Definition ensure_loop (text : list char) (st : bool * t) : bool * t :=
  foldl (λ st ch, ensure_fallback ch st) st text.

Lemma ensure_loop_ok text : ∀ changed s,
  (∀ k c, (k, c) ∈ checked_fallbacks s → settled_at s k c) →
  let '(changed', s') := ensure_loop text (changed, s) in
  grown s s' ∧ Forall (settled s') text ∧ cache s' = cache s ∧
  (∀ k c, (k, c) ∈ checked_fallbacks s' → settled_at s' k c) ∧
  (changed' = false → changed = false ∧ bare s' = bare s) ∧
  (Forall (settled s) text → changed' = changed ∧ bare s' = bare s).
Proof.
  unfold ensure_loop. induction text as [|ch text IH]; intros changed s Hc; cbn [foldl].
  { split_and!; [by apply grown_refl|constructor|done..]. }
  pose proof (ensure_fallback_ok changed ch s Hc) as H1.
  destruct (ensure_fallback ch (changed, s)) as [c1 s1]. destruct H1 as (G1 & S1 & K1 & C1 & N1 & Q1).
  specialize (IH c1 s1 C1). destruct (foldl _ (c1, s1) text) as [c2 s2].
  destruct IH as (G2 & S2 & K2 & C2 & N2 & Q2). split_and!.
  - by eapply grown_trans.
  - constructor; [by apply (grown_settled_char s1)|done].
  - by rewrite K2.
  - done.
  - intros E2. destruct (N2 E2) as [E1 B2], (N1 (proj1 (N2 E2))) as [E0 B1]. split; [done|by rewrite B2].
  - intros [Hs Ht]%Forall_cons. destruct (Q1 Hs) as [-> B1]. destruct Q2 as [-> B2]; [|by rewrite B2].
    eapply Forall_impl; [exact Ht|]. intros c. by apply grown_settled_char.
Qed.

Lemma bare_layout v text s s' : bare s' = bare s → layout_of v text s' = layout_of v text s.
Proof.
  intros E. injection E as E1 E2 E3 E4 _ E5. unfold layout_of. by rewrite E1, E2, E3, E4, E5.
Qed.
Lemma bare_settled_char s s' ch : bare s' = bare s → settled s ch → settled s' ch.
Proof. intros E. apply grown_settled_char. by apply grown_refl. Qed.

Lemma fontique_ok text s :
  wf s →
  wf (ensure_fontique_fallbacks text s) ∧
  Forall (settled (ensure_fontique_fallbacks text s)) text ∧
  (Forall (settled s) text →
    bare (ensure_fontique_fallbacks text s) = bare s ∧
    cache (ensure_fontique_fallbacks text s) = cache s).
Proof.
  intros [Hst Hch Hca]. unfold ensure_fontique_fallbacks.
  pose proof (ensure_loop_ok text false s Hch) as Hl. unfold ensure_loop in Hl.
  destruct (foldl _ (false, s) text) as [changed s']. destruct Hl as (G & S & K & C & N & Q).
  destruct changed.
  - split; [split|split].
    + destruct G as [E _]. injection E as E1 _ _ _ E5.
      change (family_stacks s' = family_stacks_for_font (font s')). congruence.
    + intros k ch Hin. by apply elem_of_empty in Hin.
    + intros key l Hkey. cbn in Hkey. by rewrite lookup_empty in Hkey.
    + eapply Forall_impl; [exact S|]. done.
    + intros Ht. by destruct (Q Ht).
  - destruct (N eq_refl) as [_ B]. split; [split|split; [done|by intros]].
    + injection B as E1 _ _ _ _ E5. congruence.
    + done.
    + intros key l. rewrite K. intros Hkey. destruct (Hca key l Hkey) as [El Hs].
      rewrite (bare_layout _ _ _ _ B). split; [done|].
      eapply Forall_impl; [exact Hs|]. intros ch. by apply bare_settled_char.
Qed.

(** ** What was checked does not matter *)

#[local] Instance settled_at_dec s k ch : Decision (settled_at s k ch).
Proof. unfold settled_at. apply _. Defined.

Lemma ensure_fallback_bare changed ch s x :
  bare x = bare s →
  (∀ k c, (k, c) ∈ checked_fallbacks s → settled_at s k c) →
  (∀ k c, (k, c) ∈ checked_fallbacks x → settled_at x k c) →
  (ensure_fallback ch (changed, x)).1 = (ensure_fallback ch (changed, s)).1 ∧
  bare (ensure_fallback ch (changed, x)).2 = bare (ensure_fallback ch (changed, s)).2.
Proof.
  intros Hb Hs Hx. pose proof (ensure_fallback_ok changed ch s Hs) as Ps.
  pose proof (ensure_fallback_ok changed ch x Hx) as Px.
  pose proof (bare_key s x ch Hb) as Ek.
  destruct (fallback_key_for_char ch s) as [k|] eqn:Eks.
  2: { unfold ensure_fallback. rewrite Ek, Eks. split; [reflexivity|exact Hb]. }
  destruct (decide (settled_at s k ch)) as [Hk|Hk].
  - assert (settled s ch) as Hset by (intros k'; rewrite Eks; by intros [= <-]).
    destruct (ensure_fallback ch (changed, s)) as [c1 s1], (ensure_fallback ch (changed, x)) as [c2 x1].
    destruct Ps as (_ & _ & _ & _ & _ & Qs), Px as (_ & _ & _ & _ & _ & Qx).
    destruct (Qs Hset) as [-> Bs], (Qx (bare_settled_char _ _ _ Hb Hset)) as [-> Bx].
    cbn. split; [done|]. congruence.
  - clear Ps Px. assert (¬ settled_at x k ch) as Hkx by (intros Hsx; by apply Hk, (bare_settled x)).
    unfold ensure_fallback. rewrite Ek, Eks.
    rewrite !bool_decide_false by (intros Hin; first [by apply Hk, Hs|by apply Hkx, Hx]).
    set (s1 := set_checked _ s). set (x1 := set_checked _ x). assert (bare x1 = bare s1) as Hb1 by exact Hb.
    injection Hb as B1 B2 B3 B4 B5 B6.
    assert (fallbacks_support_character k ch x1 = fallbacks_support_character k ch s1) as ->
      by (unfold fallbacks_support_character, s1, x1; cbn; by rewrite B2).
    destruct (fallbacks_support_character k ch s1); [done|]. unfold seed_fontique_fallbacks.
    assert (find_fallback_families (key_script k) ch x1 = find_fallback_families (key_script k) ch s1) as ->
      by (unfold find_fallback_families, s1, x1; cbn; by rewrite B5).
    destruct (Cell.is_nil _); [done|]. unfold s1, x1. cbn. rewrite B2.
    destruct (append_fallbacks _ k _) as [added coll]. cbn. split; [done|].
    unfold bare, set_collection, set_checked, set_cache. cbn. congruence.
Qed.

Lemma ensure_loop_bare text : ∀ changed s x,
  bare x = bare s →
  (∀ k c, (k, c) ∈ checked_fallbacks s → settled_at s k c) →
  (∀ k c, (k, c) ∈ checked_fallbacks x → settled_at x k c) →
  (ensure_loop text (changed, x)).1 = (ensure_loop text (changed, s)).1 ∧
  bare (ensure_loop text (changed, x)).2 = bare (ensure_loop text (changed, s)).2.
Proof.
  unfold ensure_loop. induction text as [|ch text IH]; intros changed s x Hb Hs Hx; [done|]. cbn [foldl].
  pose proof (ensure_fallback_bare changed ch s x Hb Hs Hx) as [Ec Eb].
  pose proof (ensure_fallback_ok changed ch s Hs) as Ps. pose proof (ensure_fallback_ok changed ch x Hx) as Px.
  destruct (ensure_fallback ch (changed, s)) as [c1 s1], (ensure_fallback ch (changed, x)) as [c2 x1].
  cbn in Ec, Eb. subst c2. apply IH; [done|apply Ps|apply Px].
Qed.

Lemma ensure_bare text s x :
  wf s → wf x → bare x = bare s →
  bare (ensure_fontique_fallbacks text x) = bare (ensure_fontique_fallbacks text s).
Proof.
  intros Hs Hx Hb.
  pose proof (ensure_loop_bare text false s x Hb (wf_checked _ Hs) (wf_checked _ Hx)) as [Ec Eb].
  unfold ensure_fontique_fallbacks. fold (ensure_loop text (false, x)). fold (ensure_loop text (false, s)).
  destruct (ensure_loop text (false, x)) as [c1 x1], (ensure_loop text (false, s)) as [c2 s1].
  cbn in Ec, Eb. subst c2. by destruct c1.
Qed.

(** ** Shaping *)

(** Shaping without a cache: the fallbacks are ensured and a layout is built every time. *)
Definition shape_uncached (text_key : LayoutTextKey) v s : option (Layout * t) :=
  let text := text_of_key (mkLayoutKey text_key v (size_px (font s))) in
  let s := ensure_fontique_fallbacks text s in
  l ← layout_of v text s; Some (l, s).

Lemma layout_total v text s : wf s → is_Some (layout_of v text s).
Proof.
  intros Hs. unfold layout_of. rewrite (wf_stacks _ Hs). destruct v; by eexists.
Qed.

Lemma build_wf key s l :
  wf s → layout_of (key_variant key) (text_of_key key) s = Some l → Forall (settled s) (text_of_key key) →
  wf (set_cache (<[key := l]> (cache s)) s).
Proof.
  intros [Hst Hch Hca] Hl Hs. split; [done|done|]. intros key' l'. cbn. rewrite lookup_insert. case_decide as E.
  - subst key'. by intros [= <-].
  - intros Hkey. by apply Hca.
Qed.

(** With the cache, in either order, shaping gives what it gives without. *)
Lemma shape_transparent tk v first s x :
  wf s → wf x → bare x = bare s →
  ∃ l s' x', shape_with_order tk v first s = Some (l, s') ∧ shape_uncached tk v x = Some (l, x') ∧
    wf s' ∧ wf x' ∧ bare x' = bare s'.
Proof.
  intros Hs Hx Hb. set (key := mkLayoutKey tk v (size_px (font s))).
  assert (mkLayoutKey tk v (size_px (font x)) = key) as Ek by (injection Hb as E _ _ _ _ _; unfold key; by rewrite E).
  unfold shape_uncached. rewrite Ek. set (text := text_of_key key).
  destruct (fontique_ok text s Hs) as (Hs1 & Ss1 & Qs). destruct (fontique_ok text x Hx) as (Hx1 & _ & _).
  pose proof (ensure_bare text s x Hs Hx Hb) as Hb1.
  set (s1 := ensure_fontique_fallbacks text s) in *. set (x1 := ensure_fontique_fallbacks text x) in *.
  rewrite (bare_layout _ _ _ _ Hb1).
  (* a hit in a state whose layouts are those of [s1] *)
  assert (∀ s' l, wf s' → bare s1 = bare s' → cache s' !! key = Some l → layout_of v text s1 = Some l) as Hhit.
  { intros s' l Hs' Hb' Hkey. destruct (wf_cache _ Hs' key l Hkey) as [Hl _].
    by rewrite (bare_layout _ _ _ _ Hb'). }
  (* a miss *)
  assert (∃ l s' x', build_and_cache_layout key text v s1 = Some (l, s') ∧
    (l ← layout_of v text s1; Some (l, x1)) = Some (l, x') ∧ wf s' ∧ wf x' ∧ bare x' = bare s') as Hmiss.
  { unfold build_and_cache_layout. destruct (layout_total v text s1 Hs1) as [l El]. rewrite El.
    exists l, (set_cache (<[key := l]> (cache s1)) s1), x1. split_and!; [done|done| |done|done].
    by apply (build_wf key). }
  unfold shape_with_order. fold key text. destruct first.
  - destruct (cache s !! key) as [l|] eqn:E; [|exact Hmiss].
    destruct (wf_cache _ Hs key l E) as [_ Hset]. destruct (Qs Hset) as [Hbs _].
    rewrite (Hhit s l Hs Hbs E). exists l, s, x1. by rewrite <- Hbs.
  - fold s1. destruct (cache s1 !! key) as [l|] eqn:E; [|exact Hmiss].
    rewrite (Hhit s1 l Hs1 eq_refl E). by exists l, s1, x1.
Qed.

(** The requests to the text system. *)
Inductive request := Shape (tk : LayoutTextKey) (v : FontVariant) | SetFont (f : Font).

Fixpoint serve (shape : LayoutTextKey → FontVariant → t → option (Layout * t)) (rs : list request) s :
    option (list Layout * t) :=
  match rs with
  | [] => Some ([], s)
  | Shape tk v :: rs =>
      '(l, s) ← shape tk v s; '(ls, s) ← serve shape rs s; Some (l :: ls, s)
  | SetFont f :: rs => serve shape rs (update_font f s)
  end.

Lemma new_wf coll loc f : wf (new coll loc f).
Proof.
  split; [done| |].
  - intros k ch Hin. by apply elem_of_empty in Hin.
  - intros key l Hkey. cbn in Hkey. by rewrite lookup_empty in Hkey.
Qed.
Lemma update_font_wf f s : wf (update_font f s).
Proof.
  split; [done| |].
  - intros k ch Hin. by apply elem_of_empty in Hin.
  - intros key l Hkey. cbn in Hkey. by rewrite lookup_empty in Hkey.
Qed.

Lemma update_font_bare f s x : bare x = bare s → bare (update_font f x) = bare (update_font f s).
Proof. intros E. injection E as _ E1 _ E2 E3 _. unfold update_font. by rewrite E1, E2, E3. Qed.

Lemma serve_transparent first rs : ∀ s x,
  wf s → wf x → bare x = bare s →
  ∃ ls s' x', serve (λ tk v, shape_with_order tk v first) rs s = Some (ls, s') ∧
    serve shape_uncached rs x = Some (ls, x') ∧ bare x' = bare s'.
Proof.
  induction rs as [|[tk v|f] rs IH]; intros s x Hs Hx Hb; cbn [serve].
  - by exists [], s, x.
  - destruct (shape_transparent tk v first s x Hs Hx Hb) as (l & s1 & x1 & -> & -> & Hs1 & Hx1 & Hb1).
    cbn [mbind option_bind].
    destruct (IH s1 x1 Hs1 Hx1 Hb1) as (ls & s2 & x2 & -> & -> & Hb2). by exists (l :: ls), s2, x2.
  - apply IH; [apply update_font_wf..|]. by apply update_font_bare.
Qed.

(** C30.  The cache of layouts never shows: for every sequence of characters and texts to shape and
    changes of the font, shaping does not panic and gives the layouts it would give without a
    cache, with the fallback fonts of every character added each time, whether the cache is
    looked at before or after the fallbacks are added. *)
Theorem cache_never_shows coll loc f rs first :
  ∃ ls s s', serve (λ tk v, shape_with_order tk v first) rs (new coll loc f) = Some (ls, s) ∧
    serve shape_uncached rs (new coll loc f) = Some (ls, s') ∧ bare s' = bare s.
Proof. apply serve_transparent; [apply new_wf..|done]. Qed.

(** * Families *)

(** Families without repetition, that start with the old ones and contain the new ones. *)
Lemma push_families_ok (new old : list FontFamily) :
  NoDup old →
  let families := foldl push_family_name old new in
  NoDup families ∧ old `prefix_of` families ∧ ∀ x, x ∈ families ↔ x ∈ old ∨ x ∈ new.
Proof.
  revert old. induction new as [|y new IH]; intros old Hn; cbn [foldl].
  { split_and!; [done|done|]. intros x. rewrite elem_of_nil. tauto. }
  assert (NoDup (push_family_name old y) ∧ old `prefix_of` push_family_name old y ∧
    ∀ x, x ∈ push_family_name old y ↔ x ∈ old ∨ x = y) as (Hn1 & Hp1 & He1).
  { unfold push_family_name. case_bool_decide as Hy.
    - split_and!; [done|done|]. intros x. split; [tauto|]. by intros [Hx| ->].
    - split_and!.
      + apply NoDup_app. split; [done|]. split; [|apply NoDup_singleton].
        intros x Hx ->%list_elem_of_singleton. by apply Hy.
      + by apply prefix_app_r.
      + intros x. by rewrite elem_of_app, list_elem_of_singleton. }
  destruct (IH _ Hn1) as (Hn2 & Hp2 & He2). split_and!; [done|by etrans|].
  intros x. rewrite He2, He1, elem_of_cons. tauto.
Qed.

Lemma configured_ok (spec : text) old :
  NoDup old →
  NoDup (push_configured_family_names old spec) ∧
  old `prefix_of` push_configured_family_names old spec.
Proof.
  intros Hn. unfold push_configured_family_names. destruct (Cell.is_nil _); [done|].
  destruct (parse_list (trim spec)) as [|x l].
  - pose proof (push_families_ok [FamilyNamed (trim spec)] old Hn) as (? & ? & _). done.
  - pose proof (push_families_ok (x :: l) old Hn) as (? & ? & _). done.
Qed.

(** The families that are tried for a variant: without repetition, first the ones configured for it,
    and the generic families in any case. *)
Theorem family_stack_correct font v :
  NoDup (font_family_stack font v) ∧
  push_configured_family_names [] (variant_family_spec font v) `prefix_of` font_family_stack font v ∧
  ∀ g, g ∈ [UiMonospace; Monospace; SystemUi; Emoji] → FamilyGeneric g ∈ font_family_stack font v.
Proof.
  unfold font_family_stack.
  destruct (configured_ok (variant_family_spec font v) []) as [Hn0 _]; [constructor|].
  set (l0 := push_configured_family_names [] _) in *.
  set (l1 := if bool_decide (v = VariantNormal) then l0
             else push_configured_family_names l0 (normal_family font)).
  assert (NoDup l1 ∧ l0 `prefix_of` l1) as [Hn1 Hp1].
  { unfold l1. destruct (bool_decide _); [done|]. by apply configured_ok. }
  destruct (push_families_ok [FamilyGeneric UiMonospace; FamilyGeneric Monospace; FamilyGeneric SystemUi;
    FamilyGeneric Emoji] l1 Hn1) as (Hn2 & Hp2 & He2).
  split_and!; [done|by etrans|]. intros g Hg. apply He2. right.
  rewrite !elem_of_cons in *. destruct Hg as [->|[->|[->|[->|Hg]]]]; [tauto..|].
  by apply elem_of_nil in Hg.
Qed.
End Shaping.

(** * Findings *)

(** A dim cell that is not bold is drawn with the bold font: [DIM_BOLD] contains [DIM]. *)
Example dim_is_drawn_bold :
  Flags.contains Flags.DIM Flags.BOLD = false ∧ font_variant Flags.DIM = VariantBold.
Proof. by vm_compute. Qed.

(** The locale [C.UTF-8] is not treated like [C]. *)
Example c_utf8_is_a_locale :
  normalize_locale [67]%N = None ∧ normalize_locale [67; 46; 85; 84; 70; 45; 56]%N = Some [67]%N.
Proof. by vm_compute. Qed.

(** Two families: 0 has the characters of ASCII and is the monospace family, 1 has the others.  A
    collection is the list of its fallbacks, the newest first. *)
Module FontSample.
#[local] Open Scope N_scope.

Definition Key : Type := Script * option text.
Definition tracked (k : Key) : bool := bool_decide (k.2 = None).
Fixpoint fallbacks (coll : list (Key * list N)) (k : Key) : list N :=
  match coll with
  | [] => []
  | (k', fs) :: coll => if decide (k = k') then fs else fallbacks coll k
  end.
Definition append (coll : list (Key * list N)) (k : Key) (fs : list N) : bool * list (Key * list N) :=
  if tracked k then (true, (k, fallbacks coll k ++ fs) :: coll) else (false, coll).

Lemma append_untracked_ok coll k fs : tracked k = false → append coll k fs = (false, coll).
Proof. intros E. unfold append. by rewrite E. Qed.
Lemma append_tracked_ok coll k fs :
  tracked k = true →
  (append coll k fs).1 = true ∧
  ∀ k', fallbacks (append coll k fs).2 k'
    = if decide (k' = k) then fallbacks coll k ++ fs else fallbacks coll k'.
Proof. intros E. unfold append. rewrite E. done. Qed.

Definition charmap (id : N) (ch : char) : option N :=
  if (if id =? 0 then ch <? 128 else 128 <=? ch) then Some ch else None.

(** The tag of a character is that of the Latin or of the Han script. *)
#[export] Instance fonts : Fontique := {|
  FamilyId := N;
  FallbackKey := Key;
  fallback_key s l := (s, l);
  key_script := fst;
  is_tracked := tracked;
  script_sample _ := None;
  opentype_tag ch := if ch <? 128 then 1818326126 else 1751215721;
  family_charmaps id := [charmap id];
  Collection := list (Key * list N);
  generic_families _ g := match g with Monospace => [0] | _ => [] end;
  family_names _ := [[72; 97; 110]; [77; 111; 110; 111]];
  family_id _ name := match name with 72 :: _ => Some 1 | _ => Some 0 end;
  fallback_families := fallbacks;
  append_fallbacks := append;
  append_untracked := append_untracked_ok;
  append_tracked := append_tracked_ok;
  parse_list _ := [];
  Layout := list N * list FontFamily * text;
  build_layout coll stack text _ _ _ _ := (concat (snd <$> coll), stack, text);
  measure_line _ _ _ _ _ := mkLineMeasures 655360 1310720 983040 (-327680) None;
|}.

Definition font : Font := mkFont [77] None (Some [73]) None 4 (0%Z, 0%Z) (0%Z, 0%Z).
Definition system : TextSystem.t := @TextSystem.new fonts [] None font.

(** Shaping a character of the Han script adds a fallback, so that the layout that was built for an
    ASCII character before is dropped from the cache. *)
Definition requests : list request :=
  [Shape (KeyChar 77) VariantNormal; Shape (KeyChar 77) VariantNormal; Shape (KeyChar 26085) VariantBold;
   Shape (KeyChar 77) VariantNormal; SetFont font; Shape (KeyString [77; 26085]) VariantItalic].
End FontSample.

Lemma cache_never_shows_witness :
  ∃ ls s s', serve (λ tk v, TextSystem.shape_with_order tk v true) FontSample.requests FontSample.system
      = Some (ls, s) ∧
    serve shape_uncached FontSample.requests FontSample.system = Some (ls, s') ∧ bare s' = bare s.
Proof. exact (@cache_never_shows FontSample.fonts [] None FontSample.font FontSample.requests true). Defined.

(** The fallbacks of the requests were found, and one layout is cached in the end. *)
Example requests_served :
  (λ '((ls, s) : list Layout * TextSystem.t), (length ls, fallback_families (Fontique := FontSample.fonts) (TextSystem.collection s) ([72; 97; 110; 105]%N, None),
     size (TextSystem.cache s)))
    <$> serve (λ tk v, TextSystem.shape_with_order tk v true) FontSample.requests FontSample.system
  = Some (5, [1%N], 1).
Proof. by vm_compute. Qed.
