(* ===== verification/Rects.v ===== *)
(** Sizes and rectangles of the display ([SizeInfo] of [cutty/src/display/mod.rs],
    [cutty/src/display/rects.rs], [cutty/src/display/cursor.rs]).

    Lengths on the screen are [f32]; they are multiples of 1/65536 of a pixel here, computed without
    rounding.  Edges of cells are rounded to whole pixels, which [f32] represents exactly. *)
From S2P Require Import Prelude Index Cells TermData ColorLists Contents Texts.
#[local] Open Scope Z_scope.

Abbreviation PIXEL := TextSystem.PIXEL.

(** [z] divided by [d], rounded to a whole pixel, half a pixel away from zero. *)
Definition round_div (d z : Z) : Z :=
  let nearest z := (2 * z + d * PIXEL) / (2 * d * PIXEL) * PIXEL in
  if 0 <=? z then nearest z else - nearest (- z).
Definition round (z : Z) : Z := round_div 1 z.
Definition floor_pixel (z : Z) : Z := z / PIXEL * PIXEL.
(** [z as usize] of a quotient: rounded towards zero, negative numbers are 0. *)
Definition quotient (a b : Z) : nat := Z.to_nat (Z.quot a b).

Definition snap_cell_edge (index : nat) (cell_size : Z) : Z := round (Z.of_nat index * cell_size).

(** * [SizeInfo<f32>] *)

Module DisplaySize.
Record t := mk {
  width : Z; height : Z; cell_width : Z; cell_height : Z; padding_x : Z; padding_y : Z;
  screen_lines : nat; columns : nat;
}.
#[global] Instance t_eq_dec : EqDecision t.
Proof. solve_decision. Defined.

Definition MIN_COLUMNS : nat := 2.
Definition MIN_SCREEN_LINES : nat := 1.

(** Twice the dynamic padding, so that halving it is exact. *)
Definition dynamic_padding2 (padding dimension cell_dimension : Z) : Z :=
  2 * padding + Z.rem (dimension - 2 * padding) cell_dimension.

Definition new (width height cell_width cell_height padding_x padding_y : Z) (dynamic_padding : bool) :
    t :=
  let '(padding_x2, padding_y2) :=
    if dynamic_padding
    then (dynamic_padding2 (floor_pixel padding_x) width cell_width,
          dynamic_padding2 (floor_pixel padding_y) height cell_height)
    else (2 * padding_x, 2 * padding_y) in
  mk width height cell_width cell_height (floor_pixel (padding_x2 / 2)) (floor_pixel (padding_y2 / 2))
     (Nat.max (quotient (height - padding_y2) cell_height) MIN_SCREEN_LINES)
     (Nat.max (quotient (width - padding_x2) cell_width) MIN_COLUMNS).

Definition reserve_lines (count : nat) (s : t) : t :=
  mk (width s) (height s) (cell_width s) (cell_height s) (padding_x s) (padding_y s)
     (Nat.max (screen_lines s - count) MIN_SCREEN_LINES) (columns s).

(** [x] and [y] are whole pixels. *)
Definition contains_point (x y : nat) (s : t) : bool :=
  (x <=? quotient (padding_x s + Z.of_nat (columns s) * cell_width s) PIXEL)%nat
  && (quotient (padding_x s) PIXEL <? x)%nat
  && (y <=? quotient (padding_y s + Z.of_nat (screen_lines s) * cell_height s) PIXEL)%nat
  && (quotient (padding_y s) PIXEL <? y)%nat.

(** [window_size] of a configured number of columns and lines, in pixels. *)
Definition window_size (columns lines : nat) (padding : Z * Z) (cell_width cell_height : Z) : Z * Z :=
  ((padding.1 * 2 + cell_width * Z.of_nat (Nat.max columns MIN_COLUMNS)) / PIXEL,
   (padding.2 * 2 + cell_height * Z.of_nat (Nat.max lines MIN_SCREEN_LINES)) / PIXEL).

#[global] Instance dimensions : Dimensions t := {
  columns := columns; screen_lines := screen_lines; total_lines := screen_lines;
}.
End DisplaySize.

(** * Rectangles *)

Inductive RectKind := RectNormal | Undercurl | DottedUnderline | DashedUnderline.

Section rects.
Context `{External}.

Record RenderRect := mkRenderRect {
  rect_x : Z; rect_y : Z; rect_width : Z; rect_height : Z; rect_color : Rgb; rect_alpha : N;
  rect_kind : RectKind;
}.
Definition RenderRect_new (x y width height : Z) (color : Rgb) (alpha : N) : RenderRect :=
  mkRenderRect x y width height color alpha RectNormal.
Definition set_kind (k : RectKind) (r : RenderRect) : RenderRect :=
  mkRenderRect (rect_x r) (rect_y r) (rect_width r) (rect_height r) (rect_color r) (rect_alpha r) k.

Record RenderLine := mkRenderLine { run_start : GPoint nat; run_end : GPoint nat; run_color : Rgb }.

(** [create_rect]; the position of the line is given four times, for the fractions of the descent. *)
Definition create_rect (size : DisplaySize.t) (descent : Z) (start end_ : GPoint nat) (position4 thickness : Z)
    (color : Rgb) : RenderRect :=
  let start_x := Z.of_nat (column start) * DisplaySize.cell_width size in
  let end_x := Z.of_nat (column end_ + 1) * DisplaySize.cell_width size in
  let thickness := Z.max thickness PIXEL in
  let line_bottom := Z.of_nat (line start + 1) * DisplaySize.cell_height size in
  let baseline := line_bottom + descent in
  let y := round_div 4 (4 * baseline - position4 - 2 * thickness) in
  let y := Z.min y (line_bottom - thickness) in
  RenderRect_new (start_x + DisplaySize.padding_x size) (y + DisplaySize.padding_y size)
    (end_x - start_x) thickness color ALPHA_ONE.

(** The rectangles of a line of a kind, [None] for flags that are not those of a line. *)
Definition line_rects (metrics : TextSystem.TextMetrics) (size : DisplaySize.t) (flag : Flags)
    (start end_ : GPoint nat) (color : Rgb) : option (list RenderRect) :=
  let descent := TextSystem.descent metrics in
  let rect position4 thickness := create_rect size descent start end_ position4 thickness color in
  if (flag =? Flags.DOUBLE_UNDERLINE)%N then
    Some [rect descent (TextSystem.underline_thickness metrics);
          rect (3 * descent) (TextSystem.underline_thickness metrics)]
  else if (flag =? Flags.UNDERCURL)%N then
    Some [set_kind Undercurl (rect (4 * descent) (Z.abs descent))]
  else if (flag =? Flags.UNDERLINE)%N then
    Some [rect (4 * TextSystem.underline_position metrics) (TextSystem.underline_thickness metrics)]
  else if (flag =? Flags.DOTTED_UNDERLINE)%N then
    Some [set_kind DottedUnderline (rect (4 * descent) (Z.abs descent))]
  else if (flag =? Flags.DASHED_UNDERLINE)%N then
    Some [set_kind DashedUnderline
            (rect (4 * TextSystem.underline_position metrics) (TextSystem.underline_thickness metrics))]
  else if (flag =? Flags.STRIKEOUT)%N then
    Some [rect (4 * TextSystem.strikeout_position metrics) (TextSystem.strikeout_thickness metrics)]
  else None.

(** The loop of [RenderLine::rects] over the lines; [n] is the number of lines before the last. *)
Fixpoint run_rects (n : nat) (metrics : TextSystem.TextMetrics) (size : DisplaySize.t) (flag : Flags)
    (start end_ : GPoint nat) (color : Rgb) : option (list RenderRect) :=
  match n with
  | O => line_rects metrics size flag start end_ color
  | S n =>
      first ← line_rects metrics size flag start (Pt (line start) (last_column size)) color;
      rest ← run_rects n metrics size flag (Pt (line start + 1)%nat 0%nat) end_ color;
      Some (first ++ rest)
  end.
Definition rects (metrics : TextSystem.TextMetrics) (size : DisplaySize.t) (flag : Flags) (l : RenderLine) :
    option (list RenderRect) :=
  run_rects (line (run_end l) - line (run_start l)) metrics size flag (run_start l) (run_end l) (run_color l).

(** * [struct RenderLines] *)

Definition LINE_FLAGS : list Flags :=
  [Flags.UNDERLINE; Flags.DOUBLE_UNDERLINE; Flags.STRIKEOUT; Flags.UNDERCURL; Flags.DOTTED_UNDERLINE;
   Flags.DASHED_UNDERLINE].

Definition line_flag_index (flag : Flags) : option nat := position (N.eqb flag) LINE_FLAGS.

(** The runs of lines of every flag; the last run is first. *)
Definition RenderLines : Type := list (list RenderLine).
Definition RenderLines_new : RenderLines := replicate (length LINE_FLAGS) [].

(** The runs of a flag with a cell that has it. *)
Definition extend_runs (cell : RenderableCell.t) (flag : Flags) (runs : list RenderLine) : list RenderLine :=
  let color := if Flags.contains flag Flags.STRIKEOUT then RenderableCell.fg cell
               else RenderableCell.underline cell in
  let point := RenderableCell.point cell in
  let end_ := if Flags.contains (RenderableCell.flags cell) Flags.WIDE_CHAR
              then Pt (line point) (column point + 1)%nat else point in
  match runs with
  | last :: before =>
      if bool_decide (color = run_color last) && (column point =? column (run_end last) + 1)%nat
         && (line point =? line (run_end last))%nat
      then mkRenderLine (run_start last) end_ (run_color last) :: before
      else mkRenderLine point end_ color :: runs
  | [] => [mkRenderLine point end_ color]
  end.

Definition update_flag (cell : RenderableCell.t) (flag : Flags) (s : RenderLines) : option RenderLines :=
  if negb (Flags.contains (RenderableCell.flags cell) flag) then Some s
  else index ← line_flag_index flag; update_at index (extend_runs cell flag) s.

Definition update (cell : RenderableCell.t) (s : RenderLines) : option RenderLines :=
  foldM (update_flag cell) LINE_FLAGS s.

(** The rectangles of all runs. *)
Definition all_rects (metrics : TextSystem.TextMetrics) (size : DisplaySize.t) (s : RenderLines) :
    option (list RenderRect) :=
  l ← mapM (λ '(flag, runs), mapM (rects metrics size flag) (reverse runs)) (zip LINE_FLAGS s);
  Some (concat (concat l)).

(** * The cursor *)

End rects.

(** Shapes of cursors that are drawn by rectangles. *)
Class CursorShapes `{External} := { shape_Beam : CursorShape; shape_Underline : CursorShape }.

Section cursor_rects.
Context `{External} `{!VteColors} `{!CursorShapes}.

Definition beam (x y height thickness : Z) (color : Rgb) : list RenderRect :=
  [RenderRect_new x y thickness height color ALPHA_ONE].
Definition underline (x y width height thickness : Z) (color : Rgb) : list RenderRect :=
  [RenderRect_new x (y + height - thickness) width thickness color ALPHA_ONE].
Definition hollow (x y width height thickness : Z) (color : Rgb) : list RenderRect :=
  let vertical_y := y + thickness in
  let vertical_height := height - 2 * thickness in
  [RenderRect_new x y width thickness color ALPHA_ONE;
   RenderRect_new x (y + height - thickness) width thickness color ALPHA_ONE;
   RenderRect_new x vertical_y thickness vertical_height color ALPHA_ONE;
   RenderRect_new (x + width - thickness) vertical_y thickness vertical_height color ALPHA_ONE].

(** The thickness is a fraction of the width of a cell, in 1/65536. *)
Definition cursor_rects (size : DisplaySize.t) (thickness : Z) (cursor : CursorCell.t) : list RenderRect :=
  let p := CursorCell.point cursor in
  let cell_width := DisplaySize.cell_width size in
  let cell_height := DisplaySize.cell_height size in
  let x := DisplaySize.padding_x size + snap_cell_edge (column p) cell_width in
  let y := DisplaySize.padding_y size + snap_cell_edge (line p) cell_height in
  let width := snap_cell_edge (column p + CursorCell.width cursor) cell_width
               - snap_cell_edge (column p) cell_width in
  let height := snap_cell_edge (line p + 1) cell_height - snap_cell_edge (line p) cell_height in
  let one_cell_width := snap_cell_edge (column p + 1) cell_width - snap_cell_edge (column p) cell_width in
  let thickness := Z.max (round (thickness * (one_cell_width / PIXEL))) PIXEL in
  let shape := CursorCell.shape cursor in
  let color := CursorCell.cursor_color cursor in
  if bool_decide (shape = shape_Beam) then beam x y height thickness color
  else if bool_decide (shape = shape_Underline) then underline x y width height thickness color
  else if bool_decide (shape = CursorShape_HollowBlock) then hollow x y width height thickness color
  else [].
End cursor_rects.
