(* ===== verification/RectProps.v ===== *)
(** Properties of sizes and rectangles: the grid fits into the window, cells tile, and the runs of
    lines cover exactly the cells that have them. *)
From S2P Require Import Prelude Index Cells TermData ColorLists Contents Texts Rects.
#[local] Open Scope Z_scope.
#[local] Set Default Proof Using "Type".

(** * Rounding *)

Lemma pixel_pos : 0 < PIXEL.
Proof. done. Qed.

Lemma round_spec z : 0 <= z → ∃ n, round z = n * PIXEL ∧ 2 * z - PIXEL < 2 * (n * PIXEL) <= 2 * z + PIXEL.
Proof.
  intros Hz. unfold round, round_div. destruct (Z.leb_spec 0 z); [|lia].
  exists ((2 * z + 1 * PIXEL) / (2 * 1 * PIXEL)). split; [done|]. unfold TextSystem.PIXEL.
  change (1 * 65536) with 65536. change (2 * 1 * 65536) with 131072.
  pose proof (Z.div_mod (2 * z + 65536) 131072). pose proof (Z.mod_pos_bound (2 * z + 65536) 131072). lia.
Qed.

Lemma round_mono a b : 0 <= a <= b → round a <= round b.
Proof.
  intros H. unfold round, round_div. rewrite !(proj2 (Z.leb_le _ _)) by lia.
  apply Z.mul_le_mono_nonneg_r; [done|]. apply Z.div_le_mono; [done|lia].
Qed.

(**  The edges of cells tile: a cell ends where the next one begins, edges are whole pixels, and a
    cell is as wide as its size rounded down or up. *)
Theorem edges_tile (cell_size : Z) (i : nat) :
  0 <= cell_size →
  ∃ a w, snap_cell_edge i cell_size = a * PIXEL ∧
    snap_cell_edge (i + 1) cell_size = (a + w) * PIXEL ∧
    cell_size / PIXEL <= w <= (cell_size + PIXEL - 1) / PIXEL.
Proof.
  intros Hc. unfold snap_cell_edge.
  destruct (round_spec (Z.of_nat i * cell_size)) as (a & Ea & Ha); [nia|].
  destruct (round_spec (Z.of_nat (i + 1) * cell_size)) as (b & Eb & Hb); [nia|].
  exists a, (b - a). rewrite Ea, Eb. replace (a + (b - a)) with b by lia.
  replace (Z.of_nat (i + 1) * cell_size) with (Z.of_nat i * cell_size + cell_size) in Hb by lia.
  generalize dependent (Z.of_nat i * cell_size). intros x Ea Ha Hb. clear Ea Eb.
  split; [done|]. split; [done|]. unfold TextSystem.PIXEL in *.
  pose proof (Z.div_mod cell_size 65536). pose proof (Z.mod_pos_bound cell_size 65536).
  pose proof (Z.div_mod (cell_size + 65536 - 1) 65536). pose proof (Z.mod_pos_bound (cell_size + 65536 - 1) 65536).
  lia.
Qed.

Lemma edge_mono cell_size i j : 0 <= cell_size → (i <= j)%nat → snap_cell_edge i cell_size <= snap_cell_edge j cell_size.
Proof. intros Hc Hij. apply round_mono. nia. Qed.

(** * Sizes *)

Section Sizes.
Import DisplaySize.

Lemma quotient_spec a b n : 0 < b → quotient a b = n → 0 <= a → Z.of_nat n * b <= a < (Z.of_nat n + 1) * b.
Proof.
  intros Hb <- Ha. unfold quotient. rewrite Z2Nat.id by (apply Z.quot_pos; lia).
  rewrite Z.quot_div_nonneg by lia.
  pose proof (Z.div_mod a b ltac:(lia)). pose proof (Z.mod_pos_bound a b Hb). lia.
Qed.

Lemma floor_half z2 : 0 <= z2 → 2 * floor_pixel (z2 / 2) <= z2 < 2 * floor_pixel (z2 / 2) + 2 * PIXEL.
Proof.
  intros Hz. unfold floor_pixel, TextSystem.PIXEL. rewrite Z.div_div by done. change (2 * 65536) with 131072.
  pose proof (Z.div_mod z2 131072). pose proof (Z.mod_pos_bound z2 131072). lia.
Qed.

(** One dimension of a window: [p2] is twice the padding. *)
Lemma dimension_fits (d c p2 : Z) (m : nat) :
  0 < c → 0 <= p2 → Z.of_nat m * c + p2 <= d →
  let n := Nat.max (quotient (d - p2) c) m in
  Z.of_nat n * c + p2 <= d < (Z.of_nat n + 1) * c + p2.
Proof.
  intros Hc Hp Hd n. pose proof (quotient_spec (d - p2) c _ Hc eq_refl) as Hq.
  assert (0 <= d - p2) as Hnn by nia. specialize (Hq Hnn).
  assert (m <= quotient (d - p2) c)%nat by nia.
  unfold n. rewrite Nat.max_l by done. lia.
Qed.

(** Twice the dynamic padding leaves a multiple of the size of a cell. *)
Lemma dynamic_fits (d c p : Z) (m : nat) :
  0 < c → 0 <= p → Z.of_nat m * c + 2 * p <= d →
  0 <= dynamic_padding2 p d c ∧ Z.of_nat m * c + dynamic_padding2 p d c <= d ∧
  d - dynamic_padding2 p d c = Z.of_nat (quotient (d - dynamic_padding2 p d c) c) * c.
Proof.
  intros Hc Hp Hd. unfold dynamic_padding2. set (r := d - 2 * p).
  assert (Z.of_nat m * c <= r) as Hr by (unfold r; lia). assert (0 <= r) as Hr0 by nia.
  pose proof (Z.rem_bound_pos r c Hr0 Hc) as Hb. pose proof (Z.quot_rem' r c) as Hq.
  assert (0 <= Z.quot r c) as Hq0 by (apply Z.quot_pos; lia).
  replace (d - (2 * p + Z.rem r c)) with (Z.quot r c * c) by (unfold r in *; lia).
  unfold quotient. rewrite Z.quot_mul by lia. rewrite Z2Nat.id by done.
  split; [lia|]. split; [|lia]. replace d with (r + 2 * p) by (unfold r; lia). 
  assert (Z.of_nat m <= Z.quot r c) by nia. nia.
Qed.

(**  In a window that holds the smallest grid, the grid with its padding fits into the window, and
    there is no room for another column or line, up to the fractions of pixels in the padding.
    With dynamic padding the grid is centred: less than two pixels are left besides the padding. *)
Theorem grid_fits width height cw ch px py dynamic :
  0 < cw → 0 < ch → 0 <= px → 0 <= py →
  Z.of_nat MIN_COLUMNS * cw + 2 * px <= width → Z.of_nat MIN_SCREEN_LINES * ch + 2 * py <= height →
  let s := new width height cw ch px py dynamic in
  let rest_x := width - 2 * padding_x s - Z.of_nat (columns s) * cw in
  let rest_y := height - 2 * padding_y s - Z.of_nat (screen_lines s) * ch in
  0 <= rest_x < (if dynamic then 0 else cw) + 2 * PIXEL ∧
  0 <= rest_y < (if dynamic then 0 else ch) + 2 * PIXEL.
Proof.
  intros Hcw Hch Hpx Hpy Hw Hh s. unfold s, new. clear s. destruct dynamic.
  - assert (∀ p, 0 <= p → 0 <= floor_pixel p <= p) as Hfl
      by (intros p Hp; unfold floor_pixel, TextSystem.PIXEL; pose proof (Z.div_mod p 65536);
          pose proof (Z.mod_pos_bound p 65536); lia).
    pose proof (Hfl px Hpx) as Fx. pose proof (Hfl py Hpy) as Fy.
    destruct (dynamic_fits width cw (floor_pixel px) MIN_COLUMNS) as (P1 & D1 & E1); [done|lia|lia|].
    destruct (dynamic_fits height ch (floor_pixel py) MIN_SCREEN_LINES) as (P2 & D2 & E2); [done|lia|lia|].
    pose proof (floor_half _ P1) as H1. pose proof (floor_half _ P2) as H2. cbn.
    rewrite !Nat.max_l by nia. lia.
  - pose proof (dimension_fits width cw (2 * px) MIN_COLUMNS Hcw ltac:(lia) Hw) as H1.
    pose proof (dimension_fits height ch (2 * py) MIN_SCREEN_LINES Hch ltac:(lia) Hh) as H2.
    pose proof (floor_half (2 * px) ltac:(lia)) as F1. pose proof (floor_half (2 * py) ltac:(lia)) as F2.
    cbn in *. lia.
Qed.
End Sizes.

(** * Lines of text *)

Section Lines.
Context `{External}.
Implicit Types (cell : RenderableCell.t) (flag : Flags) (runs : list RenderLine).

(** The color of the line of a cell, and the columns that a cell and a run of cells take. *)
Definition line_color flag cell : Rgb :=
  if Flags.contains flag Flags.STRIKEOUT then RenderableCell.fg cell else RenderableCell.underline cell.
Definition cell_width_columns cell : nat :=
  if Flags.contains (RenderableCell.flags cell) Flags.WIDE_CHAR then 2 else 1.
Definition cell_span flag cell : list (nat * nat * Rgb) :=
  if Flags.contains (RenderableCell.flags cell) flag
  then (λ c, (line (RenderableCell.point cell), c, line_color flag cell))
         <$> seq (column (RenderableCell.point cell)) (cell_width_columns cell)
  else [].
Definition run_span (run : RenderLine) : list (nat * nat * Rgb) :=
  (λ c, (line (run_start run), c, run_color run))
    <$> seq (column (run_start run)) (column (run_end run) + 1 - column (run_start run)).
Definition covered runs : list (nat * nat * Rgb) := concat (run_span <$> reverse runs).

(** A run is within a line. *)
Definition run_ok (run : RenderLine) : Prop :=
  line (run_end run) = line (run_start run) ∧ (column (run_start run) <= column (run_end run))%nat.

Lemma covered_cons run runs : covered (run :: runs) = covered runs ++ run_span run.
Proof. unfold covered. by rewrite reverse_cons, fmap_app, concat_app, fmap_cons, fmap_nil, concat_cons, app_nil_r. Qed.

Lemma extend_runs_ok cell flag runs :
  Forall run_ok runs → Flags.contains (RenderableCell.flags cell) flag = true →
  Forall run_ok (extend_runs cell flag runs) ∧
  covered (extend_runs cell flag runs) = covered runs ++ cell_span flag cell.
Proof.
  intros Hok Hf. unfold extend_runs, cell_span. rewrite Hf. fold (line_color flag cell).
  set (point := RenderableCell.point cell). set (color := line_color flag cell).
  assert (∃ end_, (if Flags.contains (RenderableCell.flags cell) Flags.WIDE_CHAR
      then Pt (line point) (column point + 1)%nat else point) = end_ ∧ line end_ = line point ∧
    (column end_ + 1 = column point + cell_width_columns cell)%nat ∧ (1 <= cell_width_columns cell)%nat)
    as (end_ & -> & El & Ec & Hw).
  { unfold cell_width_columns. destruct (Flags.contains _ Flags.WIDE_CHAR); eexists; (split; [reflexivity|]);
      cbn [line column]; lia. }
  assert (run_ok (mkRenderLine point end_ color) ∧
    run_span (mkRenderLine point end_ color)
    = (λ c, (line point, c, color)) <$> seq (column point) (cell_width_columns cell)) as [Hnew Enew].
  { unfold run_ok, run_span. cbn. split; [split; [done|lia]|]. do 2 f_equal. lia. }
  destruct runs as [|last before].
  { split; [constructor; [exact Hnew|constructor]|]. by rewrite covered_cons, Enew. }
  destruct (_ && _) eqn:E.
  - rewrite !andb_true_iff, bool_decide_eq_true, !Nat.eqb_eq in E. destruct E as [[Ecol Ecolumn] Eline].
    apply Forall_cons in Hok as [[Hl Hc] Hok]. split.
    + constructor; [|done]. unfold run_ok. cbn. split; [congruence|lia].
    + rewrite !covered_cons, <- app_assoc. f_equal. unfold run_span. cbn.
      rewrite <- Ecol, <- Hl, <- Eline. fold point. rewrite <- fmap_app. f_equal. rewrite Ecolumn.
      replace (column (run_end last) + 1)%nat with
        (column (run_start last) + (column (run_end last) + 1 - column (run_start last)))%nat at 2 by lia.
      rewrite <- seq_app. f_equal. lia.
  - split; [by constructor|]. rewrite covered_cons. by rewrite Enew.
Qed.

(** The runs of a flag after some cells. *)
Definition step flag cell runs : list RenderLine :=
  if Flags.contains (RenderableCell.flags cell) flag then extend_runs cell flag runs else runs.

Lemma step_ok flag cell runs :
  Forall run_ok runs →
  Forall run_ok (step flag cell runs) ∧ covered (step flag cell runs) = covered runs ++ cell_span flag cell.
Proof.
  intros Hok. unfold step. destruct (Flags.contains (RenderableCell.flags cell) flag) eqn:E.
  - by apply extend_runs_ok.
  - unfold cell_span. by rewrite E, app_nil_r.
Qed.

Lemma update_flag_at cell flag (s : RenderLines) i runs :
  line_flag_index flag = Some i → s !! i = Some runs →
  update_flag cell flag s = Some (<[i := step flag cell runs]> s).
Proof.
  intros Hi Hs. unfold update_flag, step. destruct (Flags.contains _ flag); cbn [negb].
  - rewrite Hi. cbn [mbind option_bind]. by rewrite (update_at_ok _ _ _ _ Hs).
  - f_equal. symmetry. by apply (list_insert_id s i runs).
Qed.

Lemma update_ok cell (s : RenderLines) :
  length s = length LINE_FLAGS →
  update cell s = Some (zip_with (λ flag, step flag cell) LINE_FLAGS s).
Proof.
  intros Hl. destruct s as [|a [|b [|c [|d [|e [|f [|]]]]]]]; try done. unfold update, LINE_FLAGS.
  cbn [foldM]. rewrite (update_flag_at cell Flags.UNDERLINE _ 0%nat a) by done. cbn [mbind option_bind].
  rewrite (update_flag_at cell Flags.DOUBLE_UNDERLINE _ 1%nat b) by done. cbn [mbind option_bind].
  rewrite (update_flag_at cell Flags.STRIKEOUT _ 2%nat c) by done. cbn [mbind option_bind].
  rewrite (update_flag_at cell Flags.UNDERCURL _ 3%nat d) by done. cbn [mbind option_bind].
  rewrite (update_flag_at cell Flags.DOTTED_UNDERLINE _ 4%nat e) by done. cbn [mbind option_bind].
  by rewrite (update_flag_at cell Flags.DASHED_UNDERLINE _ 5%nat f) by done.
Qed.

(** The runs cover what the cells have. *)
Definition covers (cells : list RenderableCell.t) flag runs : Prop :=
  Forall run_ok runs ∧ covered runs = concat (cell_span flag <$> cells).

Lemma update_covers done_ cell (s : RenderLines) :
  Forall2 (covers done_) LINE_FLAGS s →
  ∃ s', update cell s = Some s' ∧ Forall2 (covers (done_ ++ [cell])) LINE_FLAGS s'.
Proof.
  intros Hs. rewrite update_ok by (symmetry; by eapply Forall2_length). eexists. split; [done|].
  revert Hs. generalize LINE_FLAGS as flags. intros flags Hs. induction Hs as [|flag runs flags s [Hok Hc] Hs IH];
    cbn [zip_with]; constructor; [|done].
  destruct (step_ok flag cell runs Hok) as [Hok' Hc']. split; [done|].
  by rewrite Hc', Hc, fmap_app, concat_app, fmap_cons, fmap_nil, concat_cons, app_nil_r.
Qed.

Lemma updates_cover cells : ∀ done_ (s : RenderLines),
  Forall2 (covers done_) LINE_FLAGS s →
  ∃ s', foldM update cells s = Some s' ∧ Forall2 (covers (done_ ++ cells)) LINE_FLAGS s'.
Proof.
  induction cells as [|cell cells IH]; intros done_ s Hs; cbn [foldM].
  { exists s. by rewrite app_nil_r. }
  destruct (update_covers done_ cell s Hs) as (s1 & -> & Hs1). cbn [mbind option_bind].
  destruct (IH _ _ Hs1) as (s2 & -> & Hs2). exists s2. split; [done|]. by rewrite <- app_assoc in Hs2.
Qed.

(** Runs of a flag have rectangles. *)
Lemma line_rects_total metrics size flag start end_ color :
  flag ∈ LINE_FLAGS → is_Some (line_rects metrics size flag start end_ color).
Proof. unfold LINE_FLAGS. intros Hf. rewrite !elem_of_cons, elem_of_nil in Hf. unfold line_rects. destruct_or! Hf; subst flag; try done; by eexists. Qed.
Lemma run_rects_total metrics size flag n : ∀ start end_ color,
  flag ∈ LINE_FLAGS → is_Some (run_rects n metrics size flag start end_ color).
Proof.
  induction n as [|n IH]; intros start end_ color Hf; cbn [run_rects]; [by apply line_rects_total|].
  destruct (line_rects_total metrics size flag start (Pt (line start) (last_column size)) color Hf) as [a ->].
  cbn [mbind option_bind]. destruct (IH (Pt (line start + 1)%nat 0%nat) end_ color Hf) as [b ->]. by eexists.
Qed.
Lemma all_rects_total metrics size (s : RenderLines) : is_Some (all_rects metrics size s).
Proof.
  unfold all_rects. assert (is_Some (mapM (λ '(flag, runs), mapM (rects metrics size flag) (reverse runs))
    (zip LINE_FLAGS s))) as [l ->]; [|by eexists].
  apply mapM_is_Some, Forall_forall. intros [flag runs] Hin. apply mapM_is_Some, Forall_forall. intros run _.
  apply run_rects_total. apply elem_of_zip_l in Hin. done.
Qed.
End Lines.

Section LineTheorem.
Context `{External}.

(** C33.  The runs of lines under and through the text of a frame take exactly the cells with the flag of
    the line, with both columns of wide characters, in the color of the line of the cell, once and
    in the order of the cells.  Neither collecting the runs nor drawing them panics. *)
Theorem lines_cover (cells : list RenderableCell.t) metrics size :
  ∃ s rs, foldM update cells RenderLines_new = Some s ∧ all_rects metrics size s = Some rs ∧
    Forall2 (λ flag runs, covered runs = concat (cell_span flag <$> cells)) LINE_FLAGS s.
Proof.
  destruct (updates_cover cells [] RenderLines_new) as (s & E & Hs).
  { unfold RenderLines_new, LINE_FLAGS. cbn. repeat (constructor; [by split|]). constructor. }
  destruct (all_rects_total metrics size s) as [rs Ers]. exists s, rs. split; [done|]. split; [done|].
  eapply Forall2_impl; [exact Hs|]. by intros flag runs [_ Hc].
Qed.
End LineTheorem.

(** Cells of 9.5 pixels are 9 or 10 pixels wide. *)
Lemma edges_tile_witness :
  0 <= 622592 ∧
  ∃ a w, snap_cell_edge 3 622592 = a * PIXEL ∧ snap_cell_edge (3 + 1) 622592 = (a + w) * PIXEL ∧
    622592 / PIXEL <= w <= (622592 + PIXEL - 1) / PIXEL.
Proof. split; [lia|]. apply (edges_tile 622592 3). lia. Defined.

(** A window of 100.5 by 45 pixels with cells of 10 by 20 pixels. *)
Lemma grid_fits_witness :
  let s := DisplaySize.new 6586368 2949120 655360 1310720 65536 0 true in
  (DisplaySize.columns s = 9 ∧ DisplaySize.screen_lines s = 2)%nat ∧
  0 <= 6586368 - 2 * DisplaySize.padding_x s - Z.of_nat (DisplaySize.columns s) * 655360 < 0 + 2 * PIXEL.
Proof.
  split; [vm_compute; done|].
  apply (grid_fits 6586368 2949120 655360 1310720 65536 0 true); unfold DisplaySize.MIN_COLUMNS,
    DisplaySize.MIN_SCREEN_LINES; lia.
Defined.
