(* ===== verification/Paints.v ===== *)
(** Painting a frame ([cutty/src/display/mod.rs]): the backgrounds of the cells, their glyphs in
    batches, and strings.

    A scene is the list of what was drawn; the scene, the brushes and the rasterizer of vello are
    not modelled.  A font is its index and the identifier of its data. *)
From S2P Require Import Prelude Index Cells TermData Searches Keys Shorteners ColorLists Contents.
From S2P Require Import Texts Rects.
#[local] Open Scope Z_scope.

(** * Backgrounds *)

Section backgrounds.
Context `{External}.

(** The rectangle of the background of a cell. *)
Definition background_rect (size : DisplaySize.t) (cell : RenderableCell.t) : RenderRect :=
  let column := column (RenderableCell.point cell) in
  let line := line (RenderableCell.point cell) in
  let width_cells := if Flags.contains (RenderableCell.flags cell) Flags.WIDE_CHAR then 2%nat else 1%nat in
  let x0 := snap_cell_edge column (DisplaySize.cell_width size) in
  let x1 := snap_cell_edge (column + width_cells) (DisplaySize.cell_width size) in
  let y0 := snap_cell_edge line (DisplaySize.cell_height size) in
  let y1 := snap_cell_edge (line + 1) (DisplaySize.cell_height size) in
  RenderRect_new (DisplaySize.padding_x size + x0) (DisplaySize.padding_y size + y0) (x1 - x0) (y1 - y0)
    (RenderableCell.bg cell) (RenderableCell.bg_alpha cell).

Definition extends_pending (pending rect : RenderRect) : bool :=
  (rect_y pending =? rect_y rect) && (rect_height pending =? rect_height rect)
  && (rect_x pending + rect_width pending =? rect_x rect)
  && bool_decide (rect_color pending = rect_color rect) && (rect_alpha pending =? rect_alpha rect)%N.

Definition widen (w : Z) (r : RenderRect) : RenderRect :=
  mkRenderRect (rect_x r) (rect_y r) (rect_width r + w) (rect_height r) (rect_color r) (rect_alpha r)
    (rect_kind r).

(** The loop of [paint_cell_backgrounds]: the rectangles that are painted. *)
Fixpoint background_loop (size : DisplaySize.t) (pending : option RenderRect) (cells : list RenderableCell.t) :
    list RenderRect :=
  match cells with
  | [] => option_list pending
  | cell :: cells =>
      if (RenderableCell.bg_alpha cell <=? 0)%N then option_list pending ++ background_loop size None cells
      else
        let rect := background_rect size cell in
        match pending with
        | Some p =>
            if extends_pending p rect
            then background_loop size (Some (widen (rect_width rect) p)) cells
            else p :: background_loop size (Some rect) cells
        | None => background_loop size (Some rect) cells
        end
  end.
Definition paint_cell_backgrounds (size : DisplaySize.t) (cells : list RenderableCell.t) : list RenderRect :=
  background_loop size None cells.

(** [paint_cell_background], of one cell. *)
Definition paint_cell_background (size : DisplaySize.t) (cell : RenderableCell.t) : list RenderRect :=
  if (RenderableCell.bg_alpha cell <=? 0)%N then [] else [background_rect size cell].
End backgrounds.

(** * Glyphs *)

(** The glyph runs of a layout of parley. *)
Definition FontData : Type := N * N.
Record LayoutGlyph := mkLayoutGlyph { lg_id : N; lg_x : Z; lg_y : Z; lg_advance : Z }.
Record GlyphRun := mkGlyphRun {
  run_font : FontData; run_font_size : N; run_coords : list Z;
  run_offset : Z; run_baseline : Z; run_glyphs : list LayoutGlyph;
}.
Class GlyphRuns `{Fontique} := { layout_runs : Layout → list GlyphRun }.

Record Glyph := mkGlyph { glyph_id : N; glyph_x : Z; glyph_y : Z }.

Definition scene_glyph_from_layout (cursor_x baseline : Z) (glyph : LayoutGlyph) : Glyph * Z :=
  (mkGlyph (lg_id glyph) (cursor_x + lg_x glyph) (baseline - lg_y glyph), cursor_x + lg_advance glyph).
Fixpoint scene_glyphs (x y : Z) (glyphs : list LayoutGlyph) : list Glyph :=
  match glyphs with
  | [] => []
  | g :: glyphs => let '(glyph, x) := scene_glyph_from_layout x y g in glyph :: scene_glyphs x y glyphs
  end.
Definition glyphs_of_run (run : GlyphRun) : list Glyph :=
  scene_glyphs (run_offset run) (run_baseline run) (run_glyphs run).

Definition translate (dx dy : Z) (g : Glyph) : Glyph := mkGlyph (glyph_id g) (glyph_x g + dx) (glyph_y g + dy).

Section glyphs.
Context `{External}.

(** One call that draws glyphs, with the translation of its transformation. *)
Record DrawGlyphs := mkDrawGlyphs {
  draw_font : FontData; draw_size : N; draw_coords : list Z; draw_color : Rgb;
  draw_origin : Z * Z; draw_glyphs : list Glyph;
}.
Definition GlyphScene : Type := list DrawGlyphs.
End glyphs.

(** [struct GlyphBatch]. *)
Module GlyphBatch.
Section ops.
Context `{External}.

Record t := mk {
  font : option FontData; font_size : N; normalized_coords : list Z; color : Rgb;
  origin : Z * Z; absolute_positions : bool; glyphs : list Glyph;
}.
Implicit Types (s : t) (scene : GlyphScene).

Definition reset s : t := mk None (font_size s) [] (color s) (origin s) false [].

(** A batch of glyphs without a font panics. *)
Definition flush scene s : option (GlyphScene * t) :=
  match glyphs s with
  | [] => Some (scene, s)
  | _ =>
      font ← font s;
      Some (scene ++ [mkDrawGlyphs font (font_size s) (normalized_coords s) (color s)
                        (if absolute_positions s then (0, 0) else origin s) (glyphs s)],
            mk (Some font) (font_size s) (normalized_coords s) (color s) (origin s) (absolute_positions s) [])
  end.

Definition compatible (f : FontData) (size : N) (coords : list Z) (c : Rgb) s : bool :=
  bool_decide (font s = Some f) && (font_size s =? size)%N && bool_decide (normalized_coords s = coords)
  && bool_decide (color s = c).

Definition push scene (f : FontData) (size : N) (coords : list Z) (c : Rgb) (o : Z * Z) (new : list Glyph) s :
    option (GlyphScene * t) :=
  if negb (compatible f size coords c s) then
    '(scene, s) ← flush scene s;
    Some (scene, mk (Some f) size coords c o false (glyphs s ++ new))
  else
    let old := if absolute_positions s then glyphs s else translate (origin s).1 (origin s).2 <$> glyphs s in
    Some (scene, mk (font s) (font_size s) (normalized_coords s) (color s) (origin s) true
                   (old ++ (translate o.1 o.2 <$> new))).
End ops.
End GlyphBatch.

Section painting.
Context `{External} `{GlyphRuns}.
Implicit Types (scene : GlyphScene) (cell : RenderableCell.t) (batch : GlyphBatch.t) (s : TextSystem.t).

(** The origin of a cell. *)
Definition cell_origin (metrics : TextSystem.TextMetrics) (size : DisplaySize.t) (line column : nat) : Z * Z :=
  (DisplaySize.padding_x size + Z.of_nat column * DisplaySize.cell_width size
     + TextSystem.glyph_offset_x metrics,
   DisplaySize.padding_y size + Z.of_nat line * DisplaySize.cell_height size
     + TextSystem.glyph_offset_y metrics).

Definition paint_layout (layout : Layout) (metrics : TextSystem.TextMetrics) (size : DisplaySize.t)
    (line column : nat) (fg : Rgb) scene : GlyphScene :=
  scene ++ ((λ run, mkDrawGlyphs (run_font run) (run_font_size run) (run_coords run) fg
                      (cell_origin metrics size line column) (glyphs_of_run run)) <$> layout_runs layout).

Definition batch_layout (layout : Layout) (metrics : TextSystem.TextMetrics) (size : DisplaySize.t)
    (line column : nat) (fg : Rgb) (st : GlyphScene * GlyphBatch.t) : option (GlyphScene * GlyphBatch.t) :=
  foldM (λ run '(scene, batch),
    GlyphBatch.push scene (run_font run) (run_font_size run) (run_coords run) fg
      (cell_origin metrics size line column) (glyphs_of_run run) batch) (layout_runs layout) st.

(** The scene, the batch and the text system. *)
Definition Painter : Type := GlyphScene * GlyphBatch.t * TextSystem.t.

Definition paint_cell_text (size : DisplaySize.t) cell (st : Painter) : option Painter :=
  let '(scene, batch, s) := st in
  '(layout, s) ← TextSystem.shape_cell cell s;
  Some (match layout with
        | None => (scene, batch, s)
        | Some layout =>
            (paint_layout layout (TextSystem.metrics s) size (line (RenderableCell.point cell))
               (column (RenderableCell.point cell)) (RenderableCell.fg cell) scene, batch, s)
        end).

Definition batch_cell_text (size : DisplaySize.t) cell (st : Painter) : option Painter :=
  let '(scene, batch, s) := st in
  '(layout, s) ← TextSystem.shape_cell cell s;
  match layout with
  | None => Some (scene, batch, s)
  | Some layout =>
      '(scene, batch) ← batch_layout layout (TextSystem.metrics s) size (line (RenderableCell.point cell))
         (column (RenderableCell.point cell)) (RenderableCell.fg cell) (scene, batch);
      Some (scene, batch, s)
  end.

Definition flush_batch (st : Painter) : option Painter :=
  let '(scene, batch, s) := st in
  '(scene, batch) ← GlyphBatch.flush scene batch; Some (scene, batch, s).

Definition cell_has_visible_text cell : bool :=
  if Flags.contains (RenderableCell.flags cell) Flags.HIDDEN || (RenderableCell.character cell =? 9)%N
  then false
  else negb (RenderableCell.character cell =? 32)%N
       || negb (Cell.is_none (extra ← RenderableCell.extra cell; extra.1)).

Definition FONT_STYLE_FLAGS : Flags := N.lor Flags.BOLD (N.lor Flags.DIM_BOLD Flags.ITALIC).
Definition cells_have_compatible_text_style (first second : RenderableCell.t) : bool :=
  bool_decide (RenderableCell.fg first = RenderableCell.fg second)
  && (N.land (RenderableCell.flags first) FONT_STYLE_FLAGS
      =? N.land (RenderableCell.flags second) FONT_STYLE_FLAGS)%N.

(** The loop of [paint_cell_texts]; [batching] without a cell pending panics. *)
Fixpoint text_loop (size : DisplaySize.t) (pending : option RenderableCell.t) (batching : bool)
    (cells : list RenderableCell.t) (st : Painter) : option Painter :=
  match cells with
  | [] =>
      st ← (match pending with
            | Some cell => if batching then Some st else paint_cell_text size cell st
            | None => Some st
            end);
      flush_batch st
  | cell :: cells =>
      if batching then
        previous ← pending;
        if cells_have_compatible_text_style previous cell then
          st ← batch_cell_text size cell st; text_loop size (Some cell) true cells st
        else st ← flush_batch st; text_loop size (Some cell) false cells st
      else
        match pending with
        | Some previous =>
            if cells_have_compatible_text_style previous cell then
              st ← batch_cell_text size previous st;
              st ← batch_cell_text size cell st;
              text_loop size (Some cell) true cells st
            else st ← paint_cell_text size previous st; text_loop size (Some cell) false cells st
        | None => text_loop size (Some cell) false cells st
        end
  end.

Definition paint_cell_texts (size : DisplaySize.t) (cells : list RenderableCell.t) (st : Painter) :
    option Painter :=
  let '(scene, batch, s) := st in
  text_loop size None false (filter (λ cell, cell_has_visible_text cell = true) cells)
    (scene, GlyphBatch.reset batch, s).

(** * Strings *)

Definition char_cell_width (ch : char) : nat := Nat.max (default 1%nat (char_width ch)) 1.
Definition text_cell_width (s : text) : nat := sum_list (char_cell_width <$> s).

(** The characters of [paint_string_cells], from a column on. *)
Fixpoint string_loop (size : DisplaySize.t) (line column : nat) (fg : Rgb) (chars : text) (st : Painter) :
    option Painter :=
  match chars with
  | [] => Some st
  | ch :: chars =>
      let '(scene, batch, s) := st in
      st ← (if is_whitespace ch then Some st
            else
              '(layout, s') ← TextSystem.shape_character ch false false s;
              Some (paint_layout layout (TextSystem.metrics s) size line column fg scene, batch, s'));
      string_loop size line (column + char_cell_width ch) fg chars st
  end.

(** The rectangle behind the string, and its glyphs. *)
Definition paint_string_cells (size : DisplaySize.t) (point : GPoint nat) (fg bg : Rgb) (s : text)
    (st : Painter) : option (list RenderRect * Painter) :=
  let width := text_cell_width s in
  if (width =? 0)%nat then Some ([], st)
  else
    let x0 := snap_cell_edge (column point) (DisplaySize.cell_width size) in
    let x1 := snap_cell_edge (column point + width) (DisplaySize.cell_width size) in
    let y0 := snap_cell_edge (line point) (DisplaySize.cell_height size) in
    let y1 := snap_cell_edge (line point + 1) (DisplaySize.cell_height size) in
    st ← string_loop size (line point) (column point) fg s st;
    Some ([RenderRect_new (DisplaySize.padding_x size + x0) (DisplaySize.padding_y size + y0)
             (x1 - x0) (y1 - y0) bg ALPHA_ONE], st).

(** * The search bar and previews *)

Definition SHORTENER : char := 8230%N.

(** [max_width.wrapping_sub(n)]. *)
Definition wrapping_sub (a b : nat) : nat :=
  if (b <=? a)%nat then (a - b)%nat else Z.to_nat ((Z.of_nat a - Z.of_nat b) mod 18446744073709551616).

(** The labels are ASCII: their length in bytes is their number of characters. *)
Definition FORWARD_SEARCH_LABEL : text := [83; 101; 97; 114; 99; 104; 58; 32]%N.
Definition BACKWARD_SEARCH_LABEL : text :=
  [66; 97; 99; 107; 119; 97; 114; 100; 32; 83; 101; 97; 114; 99; 104; 58; 32]%N.
Definition search_label (d : Direction) : text :=
  match d with Right => FORWARD_SEARCH_LABEL | Left => BACKWARD_SEARCH_LABEL end.

Definition format_search (search_regex label : text) (max_width : nat) : option text :=
  if (max_width <? length label)%nat then Some (take max_width label)
  else
    shortened ← StrShortener.shorten search_regex (wrapping_sub max_width (length label + 1)) ShortenLeft
      (Some SHORTENER);
    Some (label ++ shortened ++ [32%N]).

(** [format!("{text:<num_cols$}")]: padded with spaces to a number of characters. *)
Definition pad_right (n : nat) (s : text) : text := s ++ replicate (n - length s) 32%N.

(** The lines of the previews of hyperlinks: from the bottom of the screen up, without the lines of
    the mouse and of the cursor unless the screen is small. *)
Definition preview_lines (screen_lines display_offset n : nat) (mouse_line cursor_line : option Z) : list Z :=
  let bottom := Z.of_nat screen_lines - 1 - Z.of_nat display_offset in
  let top := bottom - (Z.of_nat screen_lines - 1) in
  let protected := if (n * 2 <? screen_lines)%nat then option_list mouse_line ++ option_list cursor_line else [] in
  take n (filter (λ l, l ∉ protected) (reverse (zrange top (bottom + 1)))).
End painting.
