(* ===== verification/PaintProps.v ===== *)
(** Properties of painting: the joined backgrounds and the batches of glyphs paint what painting every
    cell on its own paints, and the lines under and through text cover exactly the cells that have
    them. *)
From stdpp Require Import gmap.
From S2P Require Import Prelude Index Cells TermData Searches Keys Shorteners ColorLists Contents.
From S2P Require Import Texts Rects Paints ShortenerProps TextProps RectProps.
#[local] Open Scope Z_scope.
#[local] Set Default Proof Using "Type".

(** * Backgrounds *)

Section Backgrounds.
Context `{External}.
Implicit Types (r : RenderRect) (cell : RenderableCell.t).
Context (size : DisplaySize.t) (Hw : 0 <= DisplaySize.cell_width size).

Definition inside r (x y : Z) : bool :=
  (rect_x r <=? x) && (x <? rect_x r + rect_width r) && (rect_y r <=? y) && (y <? rect_y r + rect_height r).

(** What is painted at a point, one colour over the other. *)
Definition layers (x y : Z) (rs : list RenderRect) : list (Rgb * N) :=
  omap (λ r, if inside r x y then Some (rect_color r, rect_alpha r) else None) rs.

Lemma layers_app x y rs rs' : layers x y (rs ++ rs') = layers x y rs ++ layers x y rs'.
Proof. apply omap_app. Qed.

Lemma layers_widen x y p r :
  extends_pending p r = true → 0 <= rect_width p → 0 <= rect_width r →
  layers x y [widen (rect_width r) p] = layers x y [p] ++ layers x y [r].
Proof.
  unfold extends_pending. rewrite !andb_true_iff, !Z.eqb_eq, N.eqb_eq, bool_decide_eq_true.
  intros [[[[Ey Eh] Ex] Ec] Ea] Hp Hr. unfold layers. cbn [omap list_omap].
  unfold inside, widen. cbn [rect_x rect_y rect_width rect_height rect_color rect_alpha].
  rewrite <- Ey, <- Eh, <- Ex, <- Ec, <- Ea.
  destruct (Z.leb_spec (rect_x p) x), (Z.ltb_spec x (rect_x p + rect_width p)),
    (Z.leb_spec (rect_y p) y), (Z.ltb_spec y (rect_y p + rect_height p)),
    (Z.ltb_spec x (rect_x p + (rect_width p + rect_width r))), (Z.leb_spec (rect_x p + rect_width p) x),
    (Z.ltb_spec x (rect_x p + rect_width p + rect_width r)); done || lia.
Qed.

Lemma background_rect_width cell : 0 <= rect_width (background_rect size cell).
Proof using Hw.
  unfold background_rect. cbn. set (w := if Flags.contains (RenderableCell.flags cell) Flags.WIDE_CHAR then 2%nat else 1%nat).
  pose proof (edge_mono (DisplaySize.cell_width size) (column (RenderableCell.point cell))
    (column (RenderableCell.point cell) + w) Hw ltac:(lia)). lia.
Qed.

Lemma background_loop_layers x y cells : ∀ pending,
  from_option (λ p, 0 <= rect_width p) True pending →
  layers x y (background_loop size pending cells)
  = layers x y (option_list pending) ++ layers x y (concat (paint_cell_background size <$> cells)).
Proof using Hw.
  induction cells as [|cell cells IH]; intros pending Hp; cbn [background_loop].
  { cbn. by rewrite app_nil_r. }
  rewrite fmap_cons. cbn [concat]. unfold paint_cell_background at 1.
  destruct (_ <=? 0)%N.
  - rewrite layers_app, IH by done. done.
  - rewrite layers_app. pose proof (background_rect_width cell) as Hr. destruct pending as [p|].
    + destruct (extends_pending p (background_rect size cell)) eqn:E.
      * rewrite IH by (cbn in *; lia). cbn [option_list].
        rewrite (layers_widen _ _ _ _ E) by done. by rewrite <- app_assoc.
      * change (p :: background_loop size (Some (background_rect size cell)) cells)
          with ([p] ++ background_loop size (Some (background_rect size cell)) cells).
        rewrite layers_app, IH by done. done.
    + rewrite IH by done. done.
Qed.
End Backgrounds.

Section BackgroundTheorem.
Context `{External}.

(** C32.  The backgrounds that are joined paint every point of the window with the same colours, in the
    same order, as the backgrounds of the cells one by one. *)
Theorem backgrounds_coalesced (size : DisplaySize.t) (cells : list RenderableCell.t) (x y : Z) :
  0 <= DisplaySize.cell_width size →
  layers x y (paint_cell_backgrounds size cells)
  = layers x y (concat (paint_cell_background size <$> cells)).
Proof. intros Hw. unfold paint_cell_backgrounds. by rewrite background_loop_layers. Qed.
End BackgroundTheorem.

(** * Glyphs *)

Section Glyphs.
Context `{External} `{GlyphRuns}.
Implicit Types (scene : GlyphScene) (cell : RenderableCell.t) (batch : GlyphBatch.t) (s : TextSystem.t).

(** The glyphs of a scene, with what they are drawn with and their place on the screen. *)
Definition ink_of (d : DrawGlyphs) : list (FontData * N * list Z * Rgb * Glyph) :=
  (λ g, (draw_font d, draw_size d, draw_coords d, draw_color d,
         translate (draw_origin d).1 (draw_origin d).2 g)) <$> draw_glyphs d.
Definition ink scene : list (FontData * N * list Z * Rgb * Glyph) := concat (ink_of <$> scene).

Lemma glyph_ink_app scene scene' : ink (scene ++ scene') = ink scene ++ ink scene'.
Proof. unfold ink. by rewrite fmap_app, concat_app. Qed.

(** The glyphs that wait in a batch. *)
Definition batch_draw batch : list DrawGlyphs :=
  match GlyphBatch.font batch with
  | None => []
  | Some f =>
      [mkDrawGlyphs f (GlyphBatch.font_size batch) (GlyphBatch.normalized_coords batch)
         (GlyphBatch.color batch)
         (if GlyphBatch.absolute_positions batch then (0, 0) else GlyphBatch.origin batch)
         (GlyphBatch.glyphs batch)]
  end.
Definition batch_ok batch : Prop := GlyphBatch.glyphs batch ≠ [] → is_Some (GlyphBatch.font batch).

Lemma translate_zero g : translate 0 0 g = g.
Proof. destruct g. unfold translate. cbn. f_equal; lia. Qed.

Lemma empty_batch_ink batch : GlyphBatch.glyphs batch = [] → ink (batch_draw batch) = [].
Proof.
  intros E. unfold batch_draw, ink. destruct (GlyphBatch.font batch); [|done]. cbn. unfold ink_of. cbn.
  by rewrite E.
Qed.

Lemma flush_ok scene batch :
  batch_ok batch →
  ∃ scene' batch', GlyphBatch.flush scene batch = Some (scene', batch') ∧ GlyphBatch.glyphs batch' = [] ∧
    ink scene' = ink scene ++ ink (batch_draw batch).
Proof.
  intros Hok. unfold GlyphBatch.flush. destruct (GlyphBatch.glyphs batch) as [|g gs] eqn:E.
  - exists scene, batch. split; [done|]. split; [done|]. by rewrite empty_batch_ink, app_nil_r.
  - destruct Hok as [f Ef]; [by rewrite E|]. rewrite Ef. cbn [mbind option_bind]. eexists _, _.
    split; [done|]. split; [done|]. rewrite glyph_ink_app. unfold batch_draw. by rewrite Ef, E.
Qed.

Lemma push_ok scene f n coords c o new batch :
  batch_ok batch →
  ∃ scene' batch', GlyphBatch.push scene f n coords c o new batch = Some (scene', batch') ∧
    batch_ok batch' ∧
    ink scene' ++ ink (batch_draw batch')
    = ink scene ++ ink (batch_draw batch) ++ ink [mkDrawGlyphs f n coords c o new].
Proof.
  intros Hok. unfold GlyphBatch.push.
  destruct (GlyphBatch.compatible f n coords c batch) eqn:Ec; cbn [negb].
  - unfold GlyphBatch.compatible in Ec.
    rewrite !andb_true_iff, !bool_decide_eq_true, N.eqb_eq in Ec. destruct Ec as [[[Ef En] Eco] Ecol].
    eexists _, _. split; [done|]. split; [intros _; cbn; rewrite Ef; by eexists|].
    f_equal. unfold batch_draw, ink, ink_of. cbn. rewrite Ef, En, Eco, Ecol. cbn.
    rewrite !app_nil_r, fmap_app. f_equal.
    + destruct (GlyphBatch.absolute_positions batch); [done|]. rewrite <- list_fmap_compose.
      apply list_fmap_ext. intros _ g _. unfold compose. by rewrite translate_zero.
    + rewrite <- list_fmap_compose. apply list_fmap_ext. intros _ g _. unfold compose. by rewrite translate_zero.
  - destruct (flush_ok scene batch Hok) as (scene' & batch' & -> & Eg & Es). cbn [mbind option_bind].
    eexists _, _. split; [done|]. split; [intros _; by eexists|]. rewrite Es, Eg, <- app_assoc. done.
Qed.

(** A layout that is batched is a layout that is painted. *)
Lemma batch_layout_ok layout metrics size line column fg scene batch :
  batch_ok batch →
  ∃ scene' batch', batch_layout layout metrics size line column fg (scene, batch) = Some (scene', batch') ∧
    batch_ok batch' ∧
    ink scene' ++ ink (batch_draw batch')
    = ink scene ++ ink (batch_draw batch) ++ ink (paint_layout layout metrics size line column fg []).
Proof.
  unfold batch_layout, paint_layout. cbn [app]. revert scene batch.
  induction (layout_runs layout) as [|run runs IH]; intros scene batch Hok; cbn [foldM].
  { exists scene, batch. split; [done|]. split; [done|]. by rewrite app_nil_r. }
  destruct (push_ok scene (run_font run) (run_font_size run) (run_coords run) fg
    (cell_origin metrics size line column) (glyphs_of_run run) batch Hok) as (s1 & b1 & -> & Hb1 & E1).
  cbn [mbind option_bind]. destruct (IH s1 b1 Hb1) as (s2 & b2 & -> & Hb2 & E2).
  exists s2, b2. split; [done|]. split; [done|]. rewrite E2, fmap_cons.
  change (?x :: ?l) with ([x] ++ l). rewrite glyph_ink_app, !app_assoc. f_equal. rewrite <- app_assoc. by rewrite E1, app_assoc.
Qed.

(** ** Cells in order *)

(** Two painters: what the first one has drawn and keeps in its batch is what the second has drawn. *)
Record related (p p' : Painter) : Prop := {
  rel_ink : ink p.1.1 ++ ink (batch_draw p.1.2) = ink p'.1.1;
  rel_same : p.2 = p'.2;
  rel_wf : wf p.2;
  rel_batch : batch_ok p.1.2;
}.

Lemma shape_cell_total cell s :
  wf s → ∃ r s', TextSystem.shape_cell cell s = Some (r, s') ∧ wf s'.
Proof.
  intros Hs. unfold TextSystem.shape_cell, TextSystem.shape_cell_with_options.
  destruct (Flags.contains _ _); [by eexists _, _|]. destruct (_ =? 9)%N; [by eexists _, _|].
  assert (∀ tk v, ∃ l s', TextSystem.shape_with_order tk v true s = Some (l, s') ∧ wf s') as Hshape.
  { intros tk v. destruct (shape_transparent tk v true s s Hs Hs eq_refl) as (l & s' & _ & E & _ & Hs' & _).
    by exists l, s'. }
  destruct (_ ≫= _) as [zerowidth|].
  - destruct (Hshape (KeyString (RenderableCell.character cell :: zerowidth))
      (font_variant (RenderableCell.flags cell))) as (l & s' & -> & Hs'). by eexists _, _.
  - destruct (_ && _); [by eexists _, _|].
    destruct (Hshape (KeyChar (RenderableCell.character cell))
      (font_variant (RenderableCell.flags cell))) as (l & s' & -> & Hs'). by eexists _, _.
Qed.

Lemma paint_layout_app layout metrics size line column fg scene :
  ink (paint_layout layout metrics size line column fg scene)
  = ink scene ++ ink (paint_layout layout metrics size line column fg []).
Proof. unfold paint_layout. by rewrite glyph_ink_app. Qed.

(** A cell that is painted at once, when no glyph waits, and a cell that is batched. *)
Lemma paint_cell_text_ok size cell p p' :
  related p p' → GlyphBatch.glyphs p.1.2 = [] →
  ∃ q q', paint_cell_text size cell p = Some q ∧ paint_cell_text size cell p' = Some q' ∧
    related q q' ∧ GlyphBatch.glyphs q.1.2 = [].
Proof.
  destruct p as [[scene batch] s], p' as [[scene' batch'] s']. intros [Hi Hsame Hw Hb] Eg. cbn [fst snd] in *. subst s'. unfold paint_cell_text.
  destruct (shape_cell_total cell s Hw) as (r & s1 & -> & Hw1). cbn [mbind option_bind].
  eexists _, _. split; [done|]. split; [done|]. destruct r as [layout|].
  - split; [|done]. split; cbn [fst snd]; try done. rewrite paint_layout_app, (paint_layout_app _ _ _ _ _ _ scene').
    rewrite <- Hi, (empty_batch_ink _ Eg), !app_nil_r. done.
  - split; [|done]. split; done.
Qed.

Lemma batch_cell_text_ok size cell p p' :
  related p p' →
  ∃ q q', batch_cell_text size cell p = Some q ∧ paint_cell_text size cell p' = Some q' ∧ related q q'.
Proof.
  destruct p as [[scene batch] s], p' as [[scene' batch'] s']. intros [Hi Hsame Hw Hb]. cbn [fst snd] in *. subst s'.
  unfold paint_cell_text, batch_cell_text.
  destruct (shape_cell_total cell s Hw) as (r & s1 & -> & Hw1). cbn [mbind option_bind].
  destruct r as [layout|]; [|by eexists _, _].
  destruct (batch_layout_ok layout (TextSystem.metrics s1) size (line (RenderableCell.point cell))
    (column (RenderableCell.point cell)) (RenderableCell.fg cell) scene batch Hb) as (s2 & b2 & -> & Hb2 & E2).
  cbn [mbind option_bind]. eexists _, _. split; [done|]. split; [done|]. split; cbn [fst snd]; try done.
  by rewrite E2, (paint_layout_app _ _ _ _ _ _ scene'), app_assoc, Hi.
Qed.

Lemma flush_batch_ok p p' :
  related p p' → ∃ q, flush_batch p = Some q ∧ related q p' ∧ GlyphBatch.glyphs q.1.2 = [].
Proof.
  destruct p as [[scene batch] s]. intros [Hi Hsame Hw Hb]. cbn [fst snd] in *.
  destruct (flush_ok scene batch Hb) as (s1 & b1 & E & Eg & E1). unfold flush_batch. rewrite E.
  cbn [mbind option_bind]. eexists. split; [done|]. split; [|done]. split; cbn [fst snd]; try done.
  - by rewrite (empty_batch_ink _ Eg), app_nil_r, E1.
  - intros Hne. by rewrite Eg in Hne.
Qed.

(** The cells that the loop has not painted yet. *)
Definition unpainted (pending : option RenderableCell.t) (batching : bool) (cells : list RenderableCell.t) :
    list RenderableCell.t :=
  match pending with
  | Some cell => if batching then cells else cell :: cells
  | None => cells
  end.

Lemma text_loop_ok size cells : ∀ pending batching p p',
  related p p' → (batching = true → is_Some pending) → (batching = false → GlyphBatch.glyphs p.1.2 = []) →
  ∃ q q', text_loop size pending batching cells p = Some q ∧
    foldM (paint_cell_text size) (unpainted pending batching cells) p' = Some q' ∧
    related q q' ∧ GlyphBatch.glyphs q.1.2 = [].
Proof.
  induction cells as [|cell cells IH]; intros pending batching p p' Hr Hp Hg; cbn [text_loop].
  - destruct pending as [cell|], batching; cbn [unpainted foldM].
    + destruct (flush_batch_ok p p' Hr) as (q & E & Hq & Gq). cbn [mbind option_bind]. by exists q, p'.
    + destruct (paint_cell_text_ok size cell p p' Hr (Hg eq_refl)) as (q & q' & -> & -> & Hq & Gq).
      cbn [mbind option_bind]. destruct (flush_batch_ok q q' Hq) as (q1 & E & Hq1 & Gq1). by exists q1, q'.
    + by destruct (Hp eq_refl).
    + destruct (flush_batch_ok p p' Hr) as (q & E & Hq & Gq). cbn [mbind option_bind]. by exists q, p'.
  - destruct batching.
    + destruct (Hp eq_refl) as [previous ->]. cbn [mbind option_bind unpainted foldM].
      destruct (cells_have_compatible_text_style _ _).
      * destruct (batch_cell_text_ok size cell p p' Hr) as (q & q' & -> & -> & Hq). cbn [mbind option_bind].
        apply (IH (Some cell) true q q'); done.
      * destruct (flush_batch_ok p p' Hr) as (q & -> & Hq & Gq). cbn [mbind option_bind].
        apply (IH (Some cell) false q p'); done.
    + specialize (Hg eq_refl). destruct pending as [previous|]; cbn [unpainted].
      * destruct (cells_have_compatible_text_style _ _); cbn [foldM].
        -- destruct (batch_cell_text_ok size previous p p' Hr) as (q & q' & -> & -> & Hq).
           cbn [mbind option_bind].
           destruct (batch_cell_text_ok size cell q q' Hq) as (q1 & q1' & -> & -> & Hq1).
           cbn [mbind option_bind]. apply (IH (Some cell) true q1 q1'); done.
        -- destruct (paint_cell_text_ok size previous p p' Hr Hg) as (q & q' & -> & -> & Hq & Gq).
           cbn [mbind option_bind]. apply (IH (Some cell) false q q'); done.
      * apply (IH (Some cell) false p p'); done.
Qed.

(** Cells without a visible text are not drawn. *)
Lemma invisible_cell size cell p :
  cell_has_visible_text cell = false → paint_cell_text size cell p = Some p.
Proof.
  destruct p as [[scene batch] s]. unfold cell_has_visible_text, paint_cell_text, TextSystem.shape_cell,
    TextSystem.shape_cell_with_options.
  destruct (Flags.contains _ _); [done|]. destruct (_ =? 9)%N; [done|]. cbn [orb].
  intros [Hch He]%orb_false_iff. rewrite !negb_false_iff in Hch, He.
  destruct (_ ≫= _); [done|]. by rewrite Hch.
Qed.

Lemma visible_fold size cells : ∀ p,
  foldM (paint_cell_text size) (filter (λ cell, cell_has_visible_text cell = true) cells) p
  = foldM (paint_cell_text size) cells p.
Proof.
  induction cells as [|cell cells IH]; intros p; [done|]. rewrite filter_cons. case_decide as E.
  - cbn [foldM]. destruct (paint_cell_text size cell p) as [q|]; cbn [mbind option_bind]; [apply IH|done].
  - rewrite IH. cbn [foldM]. rewrite invisible_cell by (by destruct (cell_has_visible_text cell)). done.
Qed.
End Glyphs.

Section GlyphTheorem.
Context `{External} `{GlyphRuns}.

(** C31.  The glyphs of the cells of a frame, in batches, are the glyphs of the cells one by one: the
    same glyphs of the same fonts with the same colours at the same places, in the same order, and
    the text system is left in the same state.  No cell panics. *)
Theorem glyphs_batched (size : DisplaySize.t) (cells : list RenderableCell.t) (batch : GlyphBatch.t)
    (s : TextSystem.t) :
  wf s →
  ∃ scene batch1 scene' batch' s',
    paint_cell_texts size cells ([], batch, s) = Some (scene, batch1, s') ∧
    foldM (paint_cell_text size) cells ([], batch, s) = Some (scene', batch', s') ∧
    ink scene = ink scene' ∧ GlyphBatch.glyphs batch1 = [].
Proof.
  intros Hs.
  destruct (text_loop_ok size (filter (λ cell, cell_has_visible_text cell = true) cells) None false
    ([], GlyphBatch.reset batch, s) ([], batch, s)) as (q & q' & E & E' & Hq & Gq);
    [|done|done|].
  { split; [reflexivity|reflexivity|exact Hs|]. intros Hne. by cbn in Hne. }
  destruct q as [[scene batch1] s1], q' as [[scene' batch'] s1'], Hq as [Hi Hsame _ _].
  cbn [fst snd] in *. subst s1'. rewrite (empty_batch_ink _ Gq), app_nil_r in Hi.
  exists scene, batch1, scene', batch', s1. split; [exact E|]. split; [|done].
  rewrite <- visible_fold. exact E'.
Qed.
End GlyphTheorem.

(** * The search bar *)

Section Bar.
Context `{External}.
Implicit Types (regex label : text).
Import StrShortener.

(** Every character takes one cell. *)
Definition narrow regex : Prop := Forall (λ ch, width_of ch = 1%nat) regex.

Lemma narrow_visible regex : narrow regex → visible regex.
Proof. intros Hn. eapply Forall_impl; [exact Hn|]. intros ch. by left. Qed.
Lemma narrow_app p q : narrow (p ++ q) → narrow p ∧ narrow q.
Proof. apply Forall_app. Qed.
Lemma narrow_spaced regex : narrow regex → spaced regex = regex ∧ width regex = length regex.
Proof.
  induction 1 as [|ch regex Hch _ [IH1 IH2]]; [done|]. cbn [spaced width length]. rewrite Hch, IH1, IH2.
  done.
Qed.

(** The end of a narrow text that fits into some columns. *)
Lemma narrow_suffix n p q : longest_suffix n p q → narrow p → narrow q → length q = n.
Proof.
  intros (Hle & p' & ch & -> & Hlt) [_ Hch]%narrow_app Hq. apply Forall_cons in Hch as [Hch _].
  rewrite (proj2 (narrow_spaced q Hq)) in Hle, Hlt. rewrite Hch in Hlt. lia.
Qed.

(** A narrow text, shortened from the left. *)
Lemma shorten_narrow regex m sh :
  narrow regex → (0 < m)%nat →
  shorten regex m ShortenLeft (Some sh)
  = Some (if (length regex <=? m)%nat then regex else sh :: drop (length regex - (m - 1)) regex).
Proof.
  intros Hn Hm. destruct (narrow_spaced regex Hn) as [Hs Hw].
  destruct (decide (regex = [])) as [-> |Hne].
  { unfold shorten, new. cbn. destruct (_ || _); [done|]. by destruct m. }
  destruct (Nat.leb_spec (length regex) m) as [Hle|Hgt].
  - rewrite shorten_left_fits; [by rewrite Hs|done|by apply narrow_visible|done|lia].
  - destruct (shorten_left m Hm regex (Some sh)) as (p & q & E & Hpq); [by apply narrow_visible|done|lia|].
    assert (width (tail regex) = length regex - 1)%nat as Ht.
    { destruct regex as [|ch regex]; [done|]. apply Forall_cons in Hn as [_ Hn]. cbn [tail].
      rewrite (proj2 (narrow_spaced _ Hn)). cbn. lia. }
    unfold room in Hpq. destruct (decide _) as [Hd|Hd]; [|lia]. destruct Hpq as [Hq ->].
    rewrite E in Hn. apply narrow_app in Hn as [Hnp Hnq].
    pose proof (narrow_suffix _ _ _ Hq Hnp Hnq) as El. cbn [shortener_text app]. f_equal. f_equal.
    rewrite (proj1 (narrow_spaced q Hnq)), E, length_app, <- El.
    by replace (length p + length q - length q)%nat with (length p) by lia; rewrite drop_app_length.
Qed.
End Bar.

Section BarTheorem.
Context `{External}.

(**  In a window with room for the label and two more columns, the bar of a search for characters
    that take one cell is the label, the text and the cursor when they fit; otherwise the last
    characters of the text with the shortener before them, and the bar is as wide as the window.
    In a window that is narrower than the label the bar is the beginning of the label. *)
Theorem format_search_fits (regex label : text) (max_width : nat) :
  narrow regex →
  (length label + 1 < max_width →
    ∃ bar, format_search regex label max_width = Some bar ∧
      (length label + length regex + 1 <= max_width → bar = label ++ regex ++ [32%N]) ∧
      (max_width < length label + length regex + 1 →
        ∃ start end_, regex = start ++ end_ ∧ bar = label ++ [SHORTENER] ++ end_ ++ [32%N] ∧
          length bar = max_width))%nat ∧
  (max_width < length label → format_search regex label max_width = Some (take max_width label))%nat.
Proof.
  intros Hn. unfold format_search. split; intros Hl.
  - rewrite (proj2 (Nat.ltb_ge _ _)) by lia. unfold wrapping_sub. rewrite (proj2 (Nat.leb_le _ _)) by lia.
    set (m := (max_width - (length label + 1))%nat).
    rewrite (shorten_narrow regex m SHORTENER Hn) by (unfold m; lia). cbn [mbind option_bind].
    eexists. split; [done|]. split; intros Hfit.
    + rewrite (proj2 (Nat.leb_le _ _)) by (unfold m; lia). done.
    + rewrite (proj2 (Nat.leb_gt _ _)) by (unfold m; lia).
      exists (take (length regex - (m - 1)) regex), (drop (length regex - (m - 1)) regex).
      split; [by rewrite take_drop|]. split; [done|].
      rewrite !length_app. cbn [length]. rewrite length_drop. unfold m. lia.
  - by rewrite (proj2 (Nat.ltb_lt _ _)) by lia.
Qed.

(** In a window that is as wide as the label, the width for the text wraps around, and the bar is
    wider than the window. *)
Lemma label_fills_window (regex label : text) :
  narrow regex → Z.of_nat (length regex) < 18446744073709551615 →
  format_search regex label (length label) = Some (label ++ regex ++ [32%N]).
Proof.
  intros Hn Hl. unfold format_search. rewrite Nat.ltb_irrefl. unfold wrapping_sub.
  rewrite (proj2 (Nat.leb_gt _ _)) by lia.
  replace (Z.of_nat (length label) - Z.of_nat (length label + 1)) with (-1) by lia.
  change ((-1) mod 18446744073709551616) with 18446744073709551615.
  rewrite shorten_narrow by (done || lia). rewrite (proj2 (Nat.leb_le _ _)) by lia. done.
Qed.
End BarTheorem.

(** * The lines of previews *)

Section Previews.

Lemma length_filter_not_in {A} `{EqDecision A} (ps l : list A) :
  NoDup l → (length l <= length (filter (λ x, x ∉ ps) l) + length ps)%nat.
Proof.
  intros Hl. rewrite <- length_app. apply submseteq_length, NoDup_submseteq; [done|]. intros x Hx.
  rewrite elem_of_app, list_elem_of_filter. destruct (decide (x ∈ ps)); [by right|by left].
Qed.

(**  The previews of [n] hyperlinks take [n] different lines of the viewport, or all lines of a
    smaller screen; when the screen has more than twice as many lines, no preview is on the line of
    the mouse or of the cursor. *)
Theorem preview_lines_free (screen_lines display_offset n : nat) (mouse_line cursor_line : option Z) :
  let ls := preview_lines screen_lines display_offset n mouse_line cursor_line in
  length ls = Nat.min n screen_lines ∧ NoDup ls ∧
  ∀ l, l ∈ ls →
    - Z.of_nat display_offset <= l < Z.of_nat screen_lines - Z.of_nat display_offset ∧
    ((n * 2 < screen_lines)%nat → mouse_line ≠ Some l ∧ cursor_line ≠ Some l).
Proof.
  unfold preview_lines. set (bottom := Z.of_nat screen_lines - 1 - Z.of_nat display_offset).
  set (lines := reverse (zrange (bottom - (Z.of_nat screen_lines - 1)) (bottom + 1))).
  set (ps := if (n * 2 <? screen_lines)%nat then option_list mouse_line ++ option_list cursor_line else []).
  assert (NoDup lines) as Hnd.
  { unfold lines. rewrite reverse_Permutation. unfold zrange. apply NoDup_seqZ. }
  assert (length lines = screen_lines) as Hlen by (unfold lines; rewrite length_reverse, length_zrange; lia).
  split; [|split].
  - rewrite length_take. pose proof (length_filter_not_in ps lines Hnd) as Hf.
    pose proof (length_filter (λ l, l ∉ ps) lines) as Hle. unfold ps in *. revert Hf Hle.
    destruct (Nat.ltb_spec (n * 2) screen_lines).
    + rewrite length_app. destruct mouse_line, cursor_line; cbn; lia.
    + cbn [length]. rewrite Hlen. lia.
  - apply (sublist_NoDup _ (filter (λ l, l ∉ ps) lines)); [by apply NoDup_filter|]. apply sublist_take.
  - intros l Hl. apply (subseteq_take n) in Hl. apply list_elem_of_filter in Hl as [Hp Hl]. split.
    + unfold lines in Hl. rewrite elem_of_reverse, elem_of_zrange in Hl. unfold bottom in Hl. lia.
    + intros Hsmall. unfold ps in Hp. rewrite (proj2 (Nat.ltb_lt _ _)) in Hp by lia.
      rewrite not_elem_of_app in Hp. destruct Hp as [Hm Hc].
      split; intros ->; [apply Hm|apply Hc]; by apply list_elem_of_singleton.
Qed.
End Previews.

(** * A sample *)

Module PaintSample.
#[export] Existing Instances Sample.external FontSample.fonts.
#[local] Open Scope N_scope.

(** A layout of characters that are ten pixels wide, in the font of the first family. *)
#[export] Instance runs : GlyphRuns := {|
  layout_runs '(_, text) :=
    [mkGlyphRun (0, 0) 12 [] 0%Z 983040%Z ((λ ch, mkLayoutGlyph ch 0 0 655360) <$> text)];
|}.

(** Cells of 10 by 20 pixels. *)
Definition size : DisplaySize.t :=
  DisplaySize.new 6553600 2621440 655360 1310720 0 0 false.
Definition cell (column : nat) (ch : char) (fg bg alpha : N) : RenderableCell.t :=
  RenderableCell.mk ch (Pt 0%nat column) (fg, fg, fg) (bg, bg, bg) alpha (fg, fg, fg) 0 None.
Definition cells : list RenderableCell.t :=
  [cell 0 97 9 1 ALPHA_ONE; cell 1 98 9 1 ALPHA_ONE; cell 2 32 9 0 0; cell 3 99 7 1 ALPHA_ONE;
   cell 4 100 9 2 ALPHA_ONE].
Definition batch : GlyphBatch.t := GlyphBatch.mk None 0 [] (0, 0, 0) (0, 0)%Z false [].
End PaintSample.

#[local] Existing Instances Sample.external FontSample.fonts PaintSample.runs.

(** Five backgrounds, one of them transparent, are three rectangles. *)
Lemma backgrounds_coalesced_witness :
  (length (paint_cell_backgrounds PaintSample.size PaintSample.cells) = 3)%nat ∧
  layers 655360 0 (paint_cell_backgrounds PaintSample.size PaintSample.cells)
  = layers 655360 0 (concat (paint_cell_background PaintSample.size <$> PaintSample.cells)).
Proof.
  split; [vm_compute; reflexivity|]. apply (backgrounds_coalesced PaintSample.size PaintSample.cells).
  vm_compute. intros [=].
Defined.

(** Four glyphs are drawn by three calls. *)
Lemma glyphs_batched_witness :
  ∃ scene batch1 scene' batch' s',
    paint_cell_texts PaintSample.size PaintSample.cells ([], PaintSample.batch, FontSample.system)
      = Some (scene, batch1, s') ∧
    foldM (paint_cell_text PaintSample.size) PaintSample.cells
      ([], PaintSample.batch, FontSample.system) = Some (scene', batch', s') ∧
    ink scene = ink scene' ∧ GlyphBatch.glyphs batch1 = [].
Proof.
  apply (glyphs_batched PaintSample.size PaintSample.cells PaintSample.batch FontSample.system).
  apply new_wf.
Defined.

Example batches :
  (λ st : Painter, (length ∘ draw_glyphs) <$> st.1.1)
    <$> paint_cell_texts PaintSample.size PaintSample.cells ([], PaintSample.batch, FontSample.system)
  = Some [2; 1; 1]%nat.
Proof. by vm_compute. Qed.

(** Eight columns: with the label of the same length the bar has twelve characters. *)
Example label_as_wide_as_window :
  format_search [97; 98; 99]%N FORWARD_SEARCH_LABEL 8 = Some (FORWARD_SEARCH_LABEL ++ [97; 98; 99; 32]%N).
Proof. apply (label_fills_window [97; 98; 99]%N FORWARD_SEARCH_LABEL); [by repeat constructor|done]. Qed.

(** A wide character comes with a spacer that is painted in a cell of its own: the text for ten columns
    takes eleven. *)
Example wide_search_too_wide :
  (text_cell_width <$> format_search [12385]%N [] 10, text_cell_width <$> StrShortener.shorten
    [12385; 12385; 12385; 12385; 12385]%N 10 ShortenRight (Some SHORTENER)) = (Some 4, Some 14)%nat.
Proof. by vm_compute. Qed.

Lemma format_search_fits_witness :
  ∃ bar, format_search [97; 98; 99; 100]%N FORWARD_SEARCH_LABEL 12 = Some bar ∧ length bar = 12%nat.
Proof.
  destruct (format_search_fits [97; 98; 99; 100]%N FORWARD_SEARCH_LABEL 12) as [Hroom _]; [by repeat constructor|].
  destruct Hroom as (bar & E & _ & Hcut); [cbn; lia|]. exists bar. split; [exact E|].
  destruct Hcut as (start & end_ & _ & _ & Hl); [cbn; lia|]. exact Hl.
Defined.
