(* ===== verification/Displays.v ===== *)
(** The display of a window ([cutty/src/display/mod.rs]): pending changes of its size and its font,
    the highlighted hints, the damage of a frame, and the pace of the frames.

    [Context] has what the input changes of [struct Display]; the rest is here.  Lengths are
    multiples of 1/65536 of a pixel, as for the rectangles; instants are nanoseconds. *)
From stdpp Require Import gmap.
From S2P Require Import Prelude Index Cells TermData Selections Grids Terms Searches Keys Bindings Schedulers.
From S2P Require Import FrameDamages Hints Messages Mice Contexts Contents Texts Rects.
#[local] Open Scope Z_scope.

(** * [struct DisplayUpdate] *)

(** Whether an update is pending is [pending_dirty] of the context. *)
Module DisplayUpdate.
Record t := mk { dimensions : option (Z * Z); font : option Font }.
Definition default : t := mk None None.
End DisplayUpdate.

(** Calls of the window system and of the pseudoterminal. *)
Inductive DisplayCall :=
  | PtyResize (lines columns cell_width cell_height : Z)
  | SetResizeIncrements (increments : Z * Z).

(** What the configuration says on sizes: the padding is scaled by the factor of the window. *)
Record DisplayConfig := mkDisplayConfig {
  padding : Z * Z; dynamic_padding : bool; resize_increments : bool;
}.

(** * The rest of [struct Display] *)

Module Screen.
Section ops.
Context `{Fontique}.
Record t := mk {
  size : DisplaySize.t;
  text_system : TextSystem.t;
  pending : DisplayUpdate.t;
  renderer_update : option bool;
  highlighted_hint_age : nat;
  vi_highlighted_hint_age : nat;
  hint_mouse_point : option Point;
  max_surface_dimension : Z;
  calls : list DisplayCall;
}.
Implicit Types s : t.
Definition set_size (x : DisplaySize.t) s : t :=
  mk x (text_system s) (pending s) (renderer_update s) (highlighted_hint_age s)
    (vi_highlighted_hint_age s) (hint_mouse_point s) (max_surface_dimension s) (calls s).
Definition set_text_system (x : TextSystem.t) s : t :=
  mk (size s) x (pending s) (renderer_update s) (highlighted_hint_age s)
    (vi_highlighted_hint_age s) (hint_mouse_point s) (max_surface_dimension s) (calls s).
Definition set_pending (x : DisplayUpdate.t) s : t :=
  mk (size s) (text_system s) x (renderer_update s) (highlighted_hint_age s)
    (vi_highlighted_hint_age s) (hint_mouse_point s) (max_surface_dimension s) (calls s).
Definition set_renderer_update (x : option bool) s : t :=
  mk (size s) (text_system s) (pending s) x (highlighted_hint_age s)
    (vi_highlighted_hint_age s) (hint_mouse_point s) (max_surface_dimension s) (calls s).
Definition set_ages (x y : nat) s : t :=
  mk (size s) (text_system s) (pending s) (renderer_update s) x y (hint_mouse_point s)
    (max_surface_dimension s) (calls s).
Definition set_hint_mouse_point (x : option Point) s : t :=
  mk (size s) (text_system s) (pending s) (renderer_update s) (highlighted_hint_age s)
    (vi_highlighted_hint_age s) x (max_surface_dimension s) (calls s).
Definition call (x : DisplayCall) s : t :=
  mk (size s) (text_system s) (pending s) (renderer_update s) (highlighted_hint_age s)
    (vi_highlighted_hint_age s) (hint_mouse_point s) (max_surface_dimension s) (calls s ++ [x]).
End ops.
#[global] Arguments t {_}.
#[global] Arguments mk {_} _ _ _ _ _ _ _ _ _.
End Screen.

(** * Sizes *)

(** [x as u32] and [x as u16] of an [f32]: rounded towards zero and saturating. *)
Definition saturate (max z : Z) : Z := Z.min max (Z.max 0 (Z.quot z PIXEL)).

(** [From<SizeInfo<f32>> for SizeInfo<u32>]. *)
Definition size_u32 (s : DisplaySize.t) : SizeInfo.t :=
  let u32 := saturate 4294967295 in
  SizeInfo.mk (u32 (DisplaySize.width s)) (u32 (DisplaySize.height s)) (u32 (DisplaySize.cell_width s))
    (u32 (DisplaySize.cell_height s)) (u32 (DisplaySize.padding_x s)) (u32 (DisplaySize.padding_y s))
    (DisplaySize.screen_lines s) (DisplaySize.columns s).

(** [From<SizeInfo<f32>> for WindowSize]: the number of cells is truncated to 16 bits. *)
Definition pty_resize (s : DisplaySize.t) : DisplayCall :=
  PtyResize (Z.of_nat (DisplaySize.screen_lines s) mod 65536) (Z.of_nat (DisplaySize.columns s) mod 65536)
    (saturate 65535 (DisplaySize.cell_width s)) (saturate 65535 (DisplaySize.cell_height s)).

Definition clamp_render_size (size : Z * Z) (max_dimension : Z) : Z * Z :=
  (Z.min size.1 max_dimension, Z.min size.2 max_dimension).

(** The lines of the message bar: [Message::text] for a size. *)
Definition message_text `{External} (m : Message.t) (size : DisplaySize.t) : option (list text) :=
  Message.text_lines (DisplaySize.columns size)
    (quotient (DisplaySize.height size - 2 * DisplaySize.padding_y size) (DisplaySize.cell_height size)) m.

Section displays.
Context `{External} `{RegexCompiler} `{Fontique} {W : Type} `{EqDecision W}.
Import Context.
#[local] Abbreviation ctx := (Context.t W).
Implicit Types (c : ctx) (s : Screen.t).

Definition search_shown c : bool := bool_decide (is_Some (SearchState.history_index (search_state c))).

(** The size of the window, of the pending update or as it was. *)
Definition window_pixels (dimensions : option (Z * Z)) s : Z * Z :=
  match dimensions with
  | Some d => let d := clamp_render_size d (Screen.max_surface_dimension s) in (d.1 * PIXEL, d.2 * PIXEL)
  | None => (DisplaySize.width (Screen.size s), DisplaySize.height (Screen.size s))
  end.

Definition message_bar_lines (size : DisplaySize.t) c : option nat :=
  match MessageBuffer.message (message_buffer c) with
  | Some m => length <$> message_text m size
  | None => Some 0%nat
  end.

(** The part of [handle_update] that finds the new size. *)
Definition updated_size (config : DisplayConfig) (dimensions : option (Z * Z)) c s :
    option DisplaySize.t :=
  let metrics := TextSystem.metrics (Screen.text_system s) in
  let pixels := window_pixels dimensions s in
  let size :=
    DisplaySize.new pixels.1 pixels.2 (TextSystem.cell_width metrics) (TextSystem.cell_height metrics)
      (padding config).1 (padding config).2 (dynamic_padding config) in
  message_bar_lines ← message_bar_lines size c;
  Some (DisplaySize.reserve_lines (message_bar_lines + (if search_shown c then 1 else 0)) size).

(** When the number of lines or columns changes, the pseudoterminal, the terminal and the damage are
    resized. *)
Definition resize_cells (size : DisplaySize.t) c s : option (ctx * Screen.t) :=
  let old := Screen.size s in
  if (DisplaySize.screen_lines old =? DisplaySize.screen_lines size)%nat
     && (DisplaySize.columns old =? DisplaySize.columns size)%nat
  then Some (c, s)
  else
    c ← upd_terminal (Term.resize (DisplaySize.screen_lines size) (DisplaySize.columns size)) c;
    let tracker := DamageTracker.resize (DisplaySize.screen_lines size) (DisplaySize.columns size)
                     (Display.damage_tracker (display c)) in
    Some (upd_display (Display.set_damage_tracker tracker) c, Screen.call (pty_resize size) s).

(** The part of [handle_update] after the size is known. *)
Definition change_size (size : DisplaySize.t) c s : option (ctx * Screen.t) :=
  let old := Screen.size s in
  '(c, s) ← resize_cells size c s;
  let '(c, s) :=
    if bool_decide (size = old) then (c, s)
    else (upd_search (SearchState.set_focused_match None) c, Screen.set_renderer_update (Some true) s) in
  Some (upd_display (Display.set_size_info (size_u32 size)) c, Screen.set_size size s).

(** [handle_update]. *)
Definition handle_update (config : DisplayConfig) c s : option (ctx * Screen.t) :=
  let pending := Screen.pending s in
  let c := upd_display (Display.set_pending_dirty false) c in
  let s := Screen.set_pending DisplayUpdate.default s in
  let '(c, s) :=
    match DisplayUpdate.font pending with
    | Some font =>
        (upd_display Display.mark_fully_damaged c,
         Screen.set_text_system (TextSystem.update_font font (Screen.text_system s)) s)
    | None => (c, s)
    end in
  size ← updated_size config (DisplayUpdate.dimensions pending) c s;
  let metrics := TextSystem.metrics (Screen.text_system s) in
  let s := if resize_increments config
           then Screen.call (SetResizeIncrements (TextSystem.cell_width metrics, TextSystem.cell_height metrics)) s
           else s in
  change_size size c s.

(** [process_renderer_update]: the size the surface gets, if it changes. *)
Definition process_renderer_update s : option (Z * Z) * Screen.t :=
  match Screen.renderer_update s with
  | None => (None, s)
  | Some resize =>
      (if resize : bool
       then Some (saturate 4294967295 (DisplaySize.width (Screen.size s)),
                  saturate 4294967295 (DisplaySize.height (Screen.size s)))
       else None, Screen.set_renderer_update None s)
  end.

(** [WindowContext::submit_display_update]. *)
Definition submit_display_update (config : DisplayConfig) (old_is_searching : bool) c s :
    option (ctx * Screen.t) :=
  let t := terminal c in
  let num_lines := Z.of_nat (screen_lines t) in
  bottom ← i32_add (line (Term.cursor_point t)) 1;
  let cursor_at_bottom := bottom =? num_lines in
  origin_at_bottom ←
    (if vi_mode c
     then last ← i32_sub num_lines 1; Some (line (vi_point c) =? last)
     else Some (bool_decide (SearchState.direction (search_state c) = Left)));
  '(c, s) ← handle_update config c s;
  if negb old_is_searching && search_shown c then
    if (display_offset c =? 0)%nat && cursor_at_bottom && negb origin_at_bottom then
      c ← upd_terminal (Term.scroll_display (ScrollDelta 1)) c; Some (c, s)
    else if negb (display_offset c =? 0)%nat && origin_at_bottom then
      c ← upd_terminal (Term.scroll_display (ScrollDelta (-1))) c; Some (c, s)
    else Some (c, s)
  else Some (c, s).

(** * Highlighted hints *)

(** [PartialEq] of hint matches: the compiled expression does not count. *)
Definition same_match (a b : option HintMatch.t) : bool :=
  let key m := (HintMatch.bounds m, HintMatch.hyperlink m, HintMatch.hint m) in
  bool_decide (key <$> a = key <$> b).

Definition ALL_MODIFIERS : ModifiersState := mkMods true true true true.

(** [update_highlighted_hints]; the configuration keeps the compiled expressions. *)
Definition update_highlighted_hints (rfuel : nat) (enabled : list (Bindings.Hint * option LazyRegex.t))
    c s : option (bool * list (Bindings.Hint * option LazyRegex.t) * ctx * Screen.t) :=
  let t := terminal c in
  '(vi_hint, enabled) ←
    (if vi_mode c then highlighted_at rfuel t enabled (vi_point c) ALL_MODIFIERS else Some (None, enabled));
  let dirty := negb (same_match vi_hint (Display.vi_highlighted_hint (display c))) in
  let c := upd_display (Display.set_vi_highlighted_hint vi_hint) c in
  let s := Screen.set_ages (Screen.highlighted_hint_age s) 0 s in
  let c := if dirty then upd_display Display.mark_fully_damaged c else c in
  let selected := match Term.selection t with Some sel => negb (Selection.is_empty sel) | None => false end in
  if negb (Display.mouse_visible (display c)) || negb (Mouse.inside_text_area (mouse c)) || selected then
    match Display.highlighted_hint (display c) with
    | Some _ =>
        Some (true, enabled,
              upd_display Display.mark_fully_damaged (upd_display (Display.set_highlighted_hint None) c), s)
    | None => Some (dirty, enabled, c, s)
    end
  else
    point ← Mouse.point (Display.size_info (display c)) (display_offset c) (mouse c);
    '(hint, enabled) ← highlighted_at rfuel t enabled point (modifiers c);
    let '(dirty, c, s) :=
      match hint, Display.highlighted_hint (display c) with
      | Some _, _ =>
          (match Screen.hint_mouse_point s with
           | Some p => negb (line p =? line point)
           | None => false
           end,
           upd_display (Display.set_mouse_cursor IconPointer) c,
           Screen.set_hint_mouse_point (Some point) s)
      | None, Some _ =>
          (dirty,
           upd_display (Display.set_mouse_cursor
             (if Flags.intersects (Term.mode t) TermMode.MOUSE_MODE
                 && negb (TermMode.contains (Term.mode t) TermMode.VI)
              then IconDefault else IconText)) c,
           Screen.set_hint_mouse_point None s)
      | None, None => (dirty, c, s)
      end in
    let mouse_highlight_dirty := negb (same_match (Display.highlighted_hint (display c)) hint) in
    let c := upd_display (Display.set_highlighted_hint hint) c in
    let s := Screen.set_ages 0 (Screen.vi_highlighted_hint_age s) s in
    let c := if mouse_highlight_dirty then upd_display Display.mark_fully_damaged c else c in
    Some (dirty || mouse_highlight_dirty, enabled, c, s).

(** The corners of a hint on the screen, or those of the screen. *)
Definition hint_corners (display_offset num_lines last_column : nat) (m : HintMatch.t) :
    option (GPoint nat * GPoint nat) :=
  let on_screen p := match p with
    | Some p => if (line p <? num_lines)%nat then Some p else None
    | None => None end in
  start ← point_to_viewport display_offset (HintMatch.bounds m).1;
  end_ ← point_to_viewport display_offset (HintMatch.bounds m).2;
  match on_screen end_ with
  | Some end_ => Some (default (Pt 0%nat 0%nat) (on_screen start), end_)
  | None =>
      last ← usize_sub num_lines 1;
      Some (default (Pt 0%nat 0%nat) (on_screen start), Pt last last_column)
  end.

(** One turn of the loop of [validate_hint_highlights]: the hint, its age, and whether it was removed. *)
Definition validate_hint (display_offset num_lines last_column : nat) (hint : option HintMatch.t)
    (age : nat) (frame : FrameDamage.t) : option (option HintMatch.t * nat * FrameDamage.t * bool) :=
  match hint with
  | None => Some (None, age, frame, false)
  | Some m =>
      let age := S age in
      if (age =? 1)%nat then Some (Some m, age, frame, false)
      else
        '(start, end_) ← hint_corners display_offset num_lines last_column m;
        hit ← FrameDamage.intersects start end_ frame;
        if hit : bool then Some (None, age, FrameDamage.mark_fully_damaged frame, true)
        else Some (Some m, age, frame, false)
  end.

(** [validate_hint_highlights]. *)
Definition validate_hint_highlights (display_offset : nat) c s : option (ctx * Screen.t) :=
  let d := display c in
  let num_lines := DisplaySize.screen_lines (Screen.size s) in
  let right := last_column (Screen.size s) in
  let tracker := Display.damage_tracker d in
  '(hint, age, frame, removed) ←
    validate_hint display_offset num_lines right (Display.highlighted_hint d)
      (Screen.highlighted_hint_age s) (DamageTracker.frame tracker);
  '(vi_hint, vi_age, frame, _) ←
    validate_hint display_offset num_lines right (Display.vi_highlighted_hint d)
      (Screen.vi_highlighted_hint_age s) frame;
  let d := if removed : bool then Display.set_mouse_cursor IconDefault d else d in
  let d := Display.set_highlighted_hint hint (Display.set_vi_highlighted_hint vi_hint d) in
  let d := Display.set_damage_tracker (DamageTracker.set_frame frame tracker) d in
  Some (set_display d c, Screen.set_ages age vi_age s).
End displays.

(** * [struct FrameTimer] *)

(** Instants and durations are nanoseconds; [as_micros] rounds down. *)
Module FrameTimer.
Record t := mk { base : N; last_synced_timestamp : N; refresh_interval : N }.
Definition new (now : N) : t := mk now now 0.

(** A refresh interval of less than a microsecond panics, by the remainder of a division by zero. *)
Definition compute_timeout (now interval : N) (s : t) : option (N * t) :=
  (if negb (refresh_interval s =? interval) then Some (interval, mk now now interval)
   else
     let next_frame := last_synced_timestamp s + refresh_interval s in
     if next_frame <? now then
       let elapsed_micros := (now - base s) / 1000 mod 18446744073709551616 in
       let refresh_micros := refresh_interval s / 1000 mod 18446744073709551616 in
       _ ← ensure (negb (refresh_micros =? 0)%N);
       let late := elapsed_micros mod refresh_micros * 1000 in
       _ ← ensure (late <=? now);
       Some (0, mk (base s) (now - late) (refresh_interval s))
     else Some (next_frame - now, mk (base s) next_frame (refresh_interval s)))%N.
End FrameTimer.

(** * The visual bell *)

(** The start of the animation, and its duration. *)
Module VisualBell.
Record t := mk { duration : N; start_time : option N }.
Definition ring (now : N) (s : t) : t := mk (duration s) (Some now).
(** [completed]; [duration_since] of a later instant is zero. *)
Definition completed (now : N) (s : t) : bool * t :=
  match start_time s with
  | Some earlier => (false, if (duration s <=? now - earlier)%N then mk (duration s) None else s)
  | None => (true, s)
  end.
End VisualBell.

(** * [struct Meter] *)

(** The times are the bits of numbers in microseconds; the average is updated with the one that is
    replaced and the new one. *)
Module Meter.
Definition NUM_SAMPLES : nat := 10.
Record t (A : Type) := mk { times : list A; avg : A; index : nat }.
#[global] Arguments mk {_} _ _ _.
#[global] Arguments times {_} _.
#[global] Arguments avg {_} _.
#[global] Arguments index {_} _.
Definition add_sample {A} (replace : A → A → A → A) (usec : A) (s : t A) : option (t A) :=
  prev ← times s !! index s;
  times ← update_at (index s) (λ _, usec) (times s);
  Some (mk times (replace (avg s) prev usec) ((index s + 1) mod NUM_SAMPLES)%nat).
End Meter.

(** * [struct Preedit] *)

(** The text after an offset in bytes; an offset inside of a character panics. *)
Fixpoint text_from (offset : nat) (s : text) : option text :=
  match offset, s with
  | O, _ => Some s
  | _, [] => None
  | _, ch :: s => n ← usize_sub offset (length (encode_utf8 ch)); text_from n s
  end.

Module Preedit.
Record t := mk {
  text : Cells.text; cursor_byte_offset : option (nat * nat); cursor_end_offset : option (nat * nat) }.
(** The columns to the end of the text; a character without a width counts one. *)
Definition columns `{External} (s : Cells.text) : nat := sum_list (default 1%nat ∘ char_width <$> s).
Definition new `{External} (text : Cells.text) (cursor_byte_offset : option (nat * nat)) : option t :=
  match cursor_byte_offset with
  | None => Some (mk text None None)
  | Some (a, b) =>
      from_a ← text_from a text; from_b ← text_from b text;
      Some (mk text cursor_byte_offset (Some (columns from_a, columns from_b)))
  end.
End Preedit.
