(* ===== verification/SearchInputProps.v ===== *)
(** Properties of the search a user types: cancelling a search in vi mode brings back the display
    and the cursor as they were when it was started and the display had made room for it. *)
From S2P Require Import Prelude Index Cells TermData Grids Terms Handlers Searches ViModes ViProps Selections Keys Bindings Schedulers FrameDamages Hints Messages Mice Contexts Actions.
From S2P Require Import Contents Texts Rects Displays.
#[local] Open Scope Z_scope.
#[local] Set Default Proof Using "Type".

(** * Scrolling the display *)

(** The display of a terminal whose lines are numbers of 32 bits, inside of the history. *)
Definition small_view `{External} (t : Term.t) : Prop :=
  Z.of_nat (total_lines t) < I32_MAX ∧ (screen_lines t <= total_lines t)%nat ∧
  (Grid.display_offset (Term.grid t) <= history_size t)%nat.

Section View.
Context `{External}.
Implicit Types (t : Term.t) (p : Point).

(** Only the display moves, not the text nor the modes. *)
Definition same_text t t' : Prop := rescrolled t t' ∧ Term.mode t' = Term.mode t.

Lemma rescrolled_refl t :
  (Grid.display_offset (Term.grid t) <= history_size t)%nat → rescrolled t t.
Proof. intros Ho. split; [by destruct (Term.grid t)|done]. Qed.

Lemma rescrolled_trans t1 t2 t3 : rescrolled t1 t2 → rescrolled t2 t3 → rescrolled t1 t3.
Proof.
  intros H12 [E23 O23]. destruct (rescrolled_size _ _ H12) as (Eh & _). destruct H12 as [E12 O12].
  split; [|by rewrite <- Eh]. rewrite E23 at 1. by rewrite E12.
Qed.

Lemma screen_rescrolled t t' : rescrolled t t' → screen_lines t' = screen_lines t.
Proof.
  intros [E _]. change (screen_lines t') with (Grid.lines (Term.grid t')). by rewrite E.
Qed.

Lemma small_view_rescrolled t t' : small_view t → rescrolled t t' → small_view t'.
Proof.
  intros (Hs & Hst & _) Hr. pose proof (rescrolled_size _ _ Hr) as (Eh & Et & _).
  unfold small_view. rewrite (screen_rescrolled _ _ Hr), Et, Eh. destruct Hr as [_ Ho]. done.
Qed.

Lemma recompute_view t :
  Term.grid (Term.vi_mode_recompute_selection t) = Term.grid t ∧
  Term.mode (Term.vi_mode_recompute_selection t) = Term.mode t ∧
  Term.vi_mode_cursor (Term.vi_mode_recompute_selection t) = Term.vi_mode_cursor t.
Proof. unfold Term.vi_mode_recompute_selection. by repeat case_match. Qed.

(** What scrolling does to the display and to the cursor of the vi mode. *)
Lemma scroll_display_view sc t t' :
  small_view t → Term.scroll_display sc t = Some t' →
  same_text t t' ∧
  (∀ delta, sc = ScrollDelta delta →
     0 <= Z.of_nat (Grid.display_offset (Term.grid t)) + delta <= Z.of_nat (history_size t) →
     Z.of_nat (Grid.display_offset (Term.grid t'))
     = Z.of_nat (Grid.display_offset (Term.grid t)) + delta) ∧
  (displayed t' (Term.vi_mode_cursor t) → Term.vi_mode_cursor t' = Term.vi_mode_cursor t).
Proof.
  intros (Hs & Hst & Ho) E. unfold Term.scroll_display, Term.upd_grid in E. cbv zeta in E.
  destruct (Grid.scroll_display sc (Term.grid t)) as [g|] eqn:Eg; cbn [mbind option_bind] in E; [|done].
  assert (Z.of_nat (history_size t) < I32_MAX) as Hh by (unfold history_size; lia).
  assert (g = Grid.set_display_offset (Grid.display_offset g) (Term.grid t) ∧
    (Grid.display_offset g <= history_size t)%nat ∧
    (∀ delta, sc = ScrollDelta delta →
     0 <= Z.of_nat (Grid.display_offset (Term.grid t)) + delta <= Z.of_nat (history_size t) →
     Z.of_nat (Grid.display_offset g) = Z.of_nat (Grid.display_offset (Term.grid t)) + delta))
    as (Eset & Hg & Hd).
  { unfold Grid.scroll_display in Eg. change (history_size (Term.grid t)) with (history_size t) in Eg.
    destruct sc as [delta| | | |]; cbn [mbind option_bind] in Eg; [|injection Eg as <-..].
    - destruct (i32_add _ _) as [x|] eqn:Ex; cbn [mbind option_bind] in Eg; [|done].
      injection Eg as <-. apply i32_chk_inv in Ex as [-> Hx]. rewrite as_i32_small in * by lia.
      split; [done|]. split; [simpl; lia|]. intros d [= ->] Hd. simpl.
      rewrite as_usize_small by lia. lia.
    - split; [done|]. split; [simpl; lia|done].
    - split; [done|]. split; [simpl; lia|done].
    - split; [done|]. split; [simpl; lia|done].
    - split; [done|]. split; [simpl; lia|done]. }
  clear Eg. simpl in E.
  set (t1 := Term.send_event MouseCursorDirty (Term.set_grid g t)) in E.
  change (bottommost_line t1) with (as_i32 (Grid.lines g) - 1) in E.
  change (Term.grid t1) with g in E. rewrite as_i32_small in E by lia.
  assert (Grid.lines g = screen_lines t) as El by (by rewrite Eset). rewrite El in E.
  destruct (i32_add _ _) as [x|] eqn:Ex; cbn [mbind option_bind] in E; [|done].
  apply i32_chk_inv in Ex as [-> Hx]. injection E as E.
  match type of E with (if _ then Term.vi_mode_recompute_selection ?x else _) = _ =>
    pose proof (recompute_view x) as (R1 & R2 & R3); set (t2 := Term.vi_mode_recompute_selection x) in * end.
  assert (Term.grid t' = g ∧ Term.mode t' = Term.mode t ∧ Term.vi_mode_cursor t'
    = Pt (Z.min (- Z.of_nat (Grid.display_offset g) + (as_i32 (screen_lines t) - 1))
           (Z.max (- Z.of_nat (Grid.display_offset g)) (line (Term.vi_mode_cursor t))))
         (column (Term.vi_mode_cursor t))) as (Eg & Em & Ev).
  { destruct (_ =? _)%nat; subst t'; split_and!; first [exact R1|exact R2|exact R3]. }
  split; [split; [split|]|].
  - by rewrite Eg.
  - by rewrite Eg.
  - exact Em.
  - rewrite Eg. split; [exact Hd|]. unfold displayed. rewrite Eg.
    change (screen_lines t') with (Grid.lines (Term.grid t')). rewrite Eg, El, Ev.
    rewrite as_i32_small by lia. destruct (Term.vi_mode_cursor t) as [l c]; simpl.
    intros Hl. f_equal. lia.
Qed.
End View.

Section View.
Context `{External}.
Implicit Types (t : Term.t) (p : Point).

Lemma scroll_to_point_view p t t' :
  small_view t → Term.scroll_to_point p t = Some t' → same_text t t'.
Proof.
  intros Hs E. unfold Term.scroll_to_point in E. cbv zeta in E.
  repeat match type of E with
    | (if ?b then _ else _) = _ => destruct b
    | (?m ≫= _) = _ => destruct m eqn:?; cbn [mbind option_bind] in E; [|done]
    end; try (by destruct (scroll_display_view _ _ _ Hs E) as [? _]).
  injection E as <-. split; [by apply rescrolled_refl, Hs|done].
Qed.

Lemma vi_goto_point_view p t t' :
  small_view t → Term.vi_goto_point p t = Some t' → same_text t t'.
Proof.
  intros Hs E. unfold Term.vi_goto_point in E.
  destruct (Term.scroll_to_point p t) as [t1|] eqn:E1; cbn [mbind option_bind] in E; [|done].
  apply scroll_to_point_view in E1 as [Hr Em]; [|done]. cbv zeta in E. injection E as <-.
  destruct (recompute_view (Term.set_vi_mode_cursor p t1)) as (R1 & R2 & _).
  split; [|by rewrite R2]. destruct Hr as [Eg Ho]. split; by rewrite R1.
Qed.
End View.

(** * Cancelling a search *)

Section Cancel.
Context `{External} `{Winit} `{RegexCompiler} {W : Type} `{EqDecision W}.
Context (window : W) (clock : nat → N) (config : UiConfig.t) (rfuel : nat).
Import Context.
#[local] Abbreviation ctx := (Context.t W).
Implicit Types (s : ctx).

(** The display offset a search started at. *)
Definition start_offset s : Z :=
  Z.of_nat (display_offset s) + SearchState.display_offset_delta (search_state s).

(** A search in vi mode that can go back to where it started. *)
Record searching s : Prop := {
  v_small : small_view (terminal s);
  v_vi : vi_mode s = true;
  v_active : Actions.search_active s = true;
  v_start : 0 <= start_offset s <= Z.of_nat (history_size (terminal s));
}.

(** What every step of a search keeps. *)
Definition keeps_start s s' : Prop :=
  searching s' ∧ same_text (terminal s) (terminal s') ∧ start_offset s' = start_offset s ∧
  SearchState.origin (search_state s') = SearchState.origin (search_state s).

Lemma keeps_start_trans s1 s2 s3 : keeps_start s1 s2 → keeps_start s2 s3 → keeps_start s1 s3.
Proof.
  intros (_ & [R12 M12] & E12 & O12) (H3 & [R23 M23] & E23 & O23).
  split; [done|]. split; [split; [by eapply rescrolled_trans|congruence]|]. split; congruence.
Qed.

(** From a change of the terminal's view. *)
Lemma keeps_start_intro s s' :
  searching s → same_text (terminal s) (terminal s') →
  Actions.search_active s' = true → start_offset s' = start_offset s →
  SearchState.origin (search_state s') = SearchState.origin (search_state s) → keeps_start s s'.
Proof.
  intros [Hs Hv Ha Ht] [Hr Em] Ha' E Eo. destruct (rescrolled_size _ _ Hr) as (Eh & _).
  split; [|done]. split; [by eapply small_view_rescrolled| |done|by rewrite Eh, E].
  unfold vi_mode, has_mode in *. by rewrite Em.
Qed.

(** A change that the view does not notice. *)
Lemma keeps_start_pure s s' :
  searching s → terminal s' = terminal s →
  Actions.search_active s' = true →
  SearchState.display_offset_delta (search_state s') = SearchState.display_offset_delta (search_state s) →
  SearchState.origin (search_state s') = SearchState.origin (search_state s) → keeps_start s s'.
Proof.
  intros Hs Et Ha Ed Eo. apply keeps_start_intro; [done| |done| |done].
  - rewrite Et. split; [apply rescrolled_refl, Hs|done].
  - unfold start_offset, display_offset. by rewrite Et, Ed.
Qed.

Lemma keeps_start_refl s : searching s → keeps_start s s.
Proof. intros Hs. apply keeps_start_pure; [done|done|apply Hs|done|done]. Qed.

Lemma unscheduled_view topic s :
  terminal (Actions.unscheduled window topic s) = terminal s ∧
  search_state (Actions.unscheduled window topic s) = search_state s.
Proof.
  unfold Actions.unscheduled, Actions.unschedule. by destruct (Scheduler.unschedule _ _).
Qed.

(** Going back to the start. *)
Lemma search_reset_state_view s s' :
  searching s → Actions.search_reset_state window s = Some s' →
  keeps_start s s' ∧ SearchState.display_offset_delta (search_state s') = 0 ∧
  (displayed (terminal s') (SearchState.origin (search_state s)) →
   vi_point s' = SearchState.origin (search_state s)).
Proof.
  intros Hs E. unfold Actions.search_reset_state in E. cbv zeta in E.
  pose proof (unscheduled_view DelayedSearch s) as [Et Es].
  set (s1 := upd_search _ _) in E.
  assert (keeps_start s s1) as Hk.
  { apply keeps_start_pure; [done|exact Et|..]; unfold s1, Actions.search_active; simpl; rewrite ?Es;
      first [done|apply Hs]. }
  assert (SearchState.origin (search_state s1) = SearchState.origin (search_state s)
    ∧ start_offset s1 = start_offset s) as [Eo Eof] by (by destruct Hk as (_ & _ & ? & ?)).
  clearbody s1. destruct Hk as (Hs1 & Hsame & _ & _). rewrite (v_vi _ Hs1) in E. simpl negb in E. cbn match in E.
  unfold upd_terminal in E.
  destruct (Term.scroll_display _ _) as [t|] eqn:E1; cbn [mbind option_bind] in E; [|done].
  injection E as <-. apply scroll_display_view in E1 as (Ht & Hd & Hv); [|exact (v_small _ Hs1)].
  assert (same_text (terminal s1) t) as Ht1 by exact Ht.
  specialize (Hd _ eq_refl).
  match type of Hd with _ <= ?a <= _ → _ => change a with (start_offset s1) in Hd end.
  specialize (Hd (v_start _ Hs1)). rewrite Eo in Hv.
  split; [|split; [done|exact Hv]].
  eapply keeps_start_trans; [exact (conj Hs1 (conj Hsame (conj Eof Eo)))|].
  apply keeps_start_intro; [done|exact Ht1|exact (v_active _ Hs1)| |done].
  unfold start_offset at 1, display_offset. simpl. rewrite Hd. lia.
Qed.

(** A search state with the same start. *)
Lemma start_search_state s f :
  searching s →
  (∀ x, SearchState.display_offset_delta (f x) = SearchState.display_offset_delta x ∧
        SearchState.origin (f x) = SearchState.origin x) →
  is_Some (SearchState.history_index (f (search_state s))) → keeps_start s (upd_search f s).
Proof.
  intros Hs Hf Ha. destruct (Hf (search_state s)) as [Ed Eo].
  apply keeps_start_pure; [done|done| |exact Ed|exact Eo].
  unfold Actions.search_active. by apply bool_decide_eq_true.
Qed.

Lemma searching_index s : searching s → is_Some (SearchState.history_index (search_state s)).
Proof. intros Hs. pose proof (v_active _ Hs) as Ha. by apply bool_decide_eq_true in Ha. Qed.

Lemma keeps_start_unscheduled topic s :
  searching s → keeps_start s (Actions.unscheduled window topic s).
Proof.
  intros Hs. destruct (unscheduled_view topic s) as [Et Es].
  apply keeps_start_pure; [done|done|..]; unfold Actions.search_active; rewrite Es; first [done|apply Hs].
Qed.

Lemma keeps_start_dirty s s' : keeps_start s s' → keeps_start s (mark_dirty s').
Proof.
  intros Hk. eapply keeps_start_trans; [exact Hk|]. destruct Hk as [Hs' _].
  apply keeps_start_pure; [done|done|apply Hs'|done|done].
Qed.

(** Going to a match. *)
Lemma goto_match_found s m s1 delta moved :
  searching s → small_view (terminal s) →
  Actions.vi_goto_point m.1 s = Some s1 →
  i32_sub (as_i32 (display_offset s)) (as_i32 (display_offset s1)) = Some moved →
  i32_add (SearchState.display_offset_delta (search_state s)) moved = Some delta →
  keeps_start s (upd_search (λ x, SearchState.set_display_offset_delta delta
                                    (SearchState.set_focused_match (Some m) x)) s1).
Proof.
  intros Hs Hv E1 Em Ed. unfold Actions.vi_goto_point, upd_terminal in E1.
  destruct (Term.vi_goto_point _ _) as [t|] eqn:Et; cbn [mbind option_bind] in E1; [|done].
  injection E1 as <-. apply vi_goto_point_view in Et as Hsame; [|done].
  pose proof (small_view_rescrolled _ _ Hv (proj1 Hsame)) as (Hb & _ & Ho). destruct Hv as (Ha & _ & Ho').
  apply i32_chk_inv in Em as [-> _]. apply i32_chk_inv in Ed as [-> _].
  unfold display_offset, history_size in *. simpl in *.
  apply keeps_start_intro; [done|exact Hsame|exact (v_active _ Hs)| |done].
  unfold start_offset, display_offset. simpl. rewrite !as_i32_small by lia. lia.
Qed.

Lemma start_goto_match limit s s' :
  searching s → Actions.goto_match window clock rfuel limit s = Some s' → keeps_start s s'.
Proof.
  intros Hs E. unfold Actions.goto_match in E.
  destruct (SearchState.dfas _) as [dfas|]; [|injection E as <-; by apply keeps_start_refl].
  cbv zeta in E. destruct (Point.grid_clamp _ _ _) as [o|]; cbn [mbind option_bind] in E; [|done].
  destruct (SearchNext.search_next _ _ _ _ _ _ _) as [[found dfas']|]; cbn [mbind option_bind] in E; [|done].
  set (s1 := upd_search (SearchState.set_dfas _) s) in E.
  assert (keeps_start s s1) as Hk1.
  { apply start_search_state; [done|by intros []|]. by apply searching_index in Hs. }
  assert (SearchState.display_offset_delta (search_state s1)
          = SearchState.display_offset_delta (search_state s)) as Ed1 by done.
  clearbody s1. destruct Hk1 as [Hs1 Hrest1].
  eapply keeps_start_trans; [exact (conj Hs1 Hrest1)|]. clear Hs Hrest1 Ed1.
  match type of E with (?m ≫= _) = _ => destruct m as [s2|] eqn:E2; cbn [mbind option_bind] in E; [|done] end.
  injection E as <-. apply keeps_start_dirty. destruct found as [m|].
  - rewrite (v_vi _ Hs1) in E2.
    destruct (Actions.vi_goto_point _ s1) as [s3|] eqn:E3; cbn [mbind option_bind] in E2; [|done].
    set (s4 := upd_search (SearchState.set_focused_match (Some m)) s3) in E2.
    change (display_offset s4) with (display_offset s3) in E2.
    destruct (i32_sub _ _) as [moved|] eqn:Em; cbn [mbind option_bind] in E2; [|done].
    destruct (i32_add _ _) as [delta|] eqn:Ed; cbn [mbind option_bind] in E2; [|done].
    injection E2 as <-.
    assert (SearchState.display_offset_delta (search_state s4)
            = SearchState.display_offset_delta (search_state s1)) as Esame.
    { unfold Actions.vi_goto_point, upd_terminal in E3. destruct (Term.vi_goto_point _ _); [|done]. by injection E3 as <-. }
    rewrite Esame in Ed.
    pose proof (goto_match_found _ _ _ _ _ Hs1 (v_small _ Hs1) E3 Em Ed) as Hk.
    eapply keeps_start_trans; [exact Hk|]. destruct Hk as [Hk _].
    by apply keeps_start_unscheduled.
  - match type of E2 with context [match ?l with Some _ => _ | None => _ end] => destruct l as [n|] end.
    + injection E2 as <-.
      set (s3 := if Actions.scheduled window DelayedSearch s1 then _ else _).
      assert (keeps_start s1 s3) as Hk.
      { unfold s3. destruct (Actions.scheduled _ _ _); [by apply keeps_start_refl|].
        apply keeps_start_pure; [done|done|apply Hs1|done|done]. }
      clearbody s3. eapply keeps_start_trans; [exact Hk|]. destruct Hk as [Hs3 _].
      apply start_search_state; [done|by intros []|]. by apply searching_index in Hs3.
    + by destruct (search_reset_state_view _ _ Hs1 E2) as [Hk _].
Qed.

Lemma start_update_search s s' :
  searching s → Actions.update_search window clock config rfuel s = Some s' → keeps_start s s'.
Proof.
  intros Hs E. unfold Actions.update_search in E.
  destruct (SearchState.regex _) as [regex|]; [|injection E as <-; by apply keeps_start_refl].
  cbv zeta in E. set (s1 := if UiConfig.hide_when_typing config then _ else _) in E.
  assert (keeps_start s s1) as Hk.
  { unfold s1. destruct (UiConfig.hide_when_typing config); [|by apply keeps_start_refl].
    apply keeps_start_pure; [done|done|apply Hs|done|done]. }
  clearbody s1. eapply keeps_start_trans; [exact Hk|]. destruct Hk as [Hs1 _]. clear Hs.
  match type of E with (?m ≫= _) = _ => destruct m as [s2|] eqn:E2; cbn [mbind option_bind] in E; [|done] end.
  injection E as <-. apply keeps_start_dirty. destruct regex as [|ch regex].
  - destruct (Actions.search_reset_state window s1) as [s3|] eqn:E3; cbn [mbind option_bind] in E2; [|done].
    injection E2 as <-. apply search_reset_state_view in E3 as [Hk _]; [|done].
    eapply keeps_start_trans; [exact Hk|]. destruct Hk as [Hs3 _].
    apply start_search_state; [done|by intros []|]. by apply searching_index in Hs3.
  - set (s3 := upd_search _ s1) in E2. assert (keeps_start s1 s3) as Hk.
    { apply start_search_state; [done|by intros []|]. by apply searching_index in Hs1. }
    eapply keeps_start_trans; [exact Hk|]. destruct Hk as [Hs3 _]. by eapply start_goto_match.
Qed.

(** Changing the expression, and then searching for it. *)
Lemma start_edited s s' f :
  searching s →
  (∀ x, SearchState.display_offset_delta (f x) = SearchState.display_offset_delta x ∧
        SearchState.origin (f x) = SearchState.origin x) →
  is_Some (SearchState.history_index (f (search_state s))) →
  Actions.update_search window clock config rfuel (upd_search f s) = Some s' → keeps_start s s'.
Proof.
  intros Hs Hf Ha E. pose proof (start_search_state s f Hs Hf Ha) as Hk.
  eapply keeps_start_trans; [exact Hk|]. destruct Hk as [Hs1 _]. by apply start_update_search.
Qed.

Lemma start_search_input ch s s' :
  searching s → Actions.search_input window clock config rfuel ch s = Some s' → keeps_start s s'.
Proof.
  intros Hs E. unfold Actions.search_input in E.
  destruct (SearchState.history_index (search_state s)) as [index|] eqn:Ei;
    [|injection E as <-; by apply keeps_start_refl].
  cbv zeta in E.
  match type of E with (?m ≫= _) = _ => destruct m as [s1|] eqn:E1; cbn [mbind option_bind] in E; [|done] end.
  assert (keeps_start s s1) as Hk.
  { destruct index as [|index]; [injection E1 as <-; by apply keeps_start_refl|].
    destruct (_ !! _) as [regex|]; cbn [mbind option_bind] in E1; [|done].
    destruct (update_at _ _ _) as [l|]; cbn [mbind option_bind] in E1; [|done]. injection E1 as <-.
    apply start_search_state; [done|by intros []|]. simpl. by eexists. }
  eapply keeps_start_trans; [exact Hk|]. destruct Hk as [Hs1 _].
  destruct (_ !! 0%nat) as [regex|]; cbn [mbind option_bind] in E; [|done].
  destruct (Actions.edit_regex ch regex) as [regex'|]; [|injection E as <-; by apply keeps_start_refl].
  destruct (update_at _ _ _) as [l|]; cbn [mbind option_bind] in E; [|done].
  change (vi_mode (upd_search _ s1)) with (vi_mode s1) in E. rewrite (v_vi _ Hs1) in E.
  eapply (start_edited s1 _ (SearchState.set_history l)); [done| |exact (searching_index _ Hs1)|exact E]. by intros [].
Qed.

Lemma start_search_pop_word s s' :
  searching s → Actions.search_pop_word window clock config rfuel s = Some s' → keeps_start s s'.
Proof.
  intros Hs E. unfold Actions.search_pop_word in E.
  destruct (SearchState.history_index (search_state s)) as [index|] eqn:Ei;
    [|injection E as <-; by apply keeps_start_refl].
  destruct (SearchState.regex _) as [regex|]; [|injection E as <-; by apply keeps_start_refl].
  destruct (update_at _ _ _) as [l|]; cbn [mbind option_bind] in E; [|done].
  eapply (start_edited s _ (SearchState.set_history l)); [done| |exact (searching_index _ Hs)|exact E]. by intros [].
Qed.

Lemma start_history_previous s s' :
  searching s → Actions.search_history_previous window clock config rfuel s = Some s' → keeps_start s s'.
Proof.
  intros Hs E. unfold Actions.search_history_previous in E. cbv zeta in E.
  destruct (SearchState.history_index _) as [index|]; [|injection E as <-; by apply keeps_start_refl].
  destruct (_ <=? _)%nat; [injection E as <-; by apply keeps_start_refl|].
  eapply (start_edited s _ (SearchState.set_history_index (Some (index + 1)%nat))); [done| |by eexists|exact E]. by intros [].
Qed.

Lemma start_history_next s s' :
  searching s → Actions.search_history_next window clock config rfuel s = Some s' → keeps_start s s'.
Proof.
  intros Hs E. unfold Actions.search_history_next in E.
  destruct (SearchState.history_index _) as [[|index]|];
    [injection E as <-; by apply keeps_start_refl| |injection E as <-; by apply keeps_start_refl].
  eapply (start_edited s _ (SearchState.set_history_index (Some (S index - 1)%nat))); [done| |by eexists|exact E]. by intros [].
Qed.

(** ** Scrolling during a search *)

Lemma update_cursor_blinking_view s s' :
  Actions.update_cursor_blinking window clock config s = Some s' →
  terminal s' = terminal s ∧ search_state s' = search_state s.
Proof.
  unfold Actions.update_cursor_blinking. cbv zeta.
  set (s1 := Actions.unscheduled window BlinkTimeout (Actions.unscheduled window BlinkCursor s)).
  assert (terminal s1 = terminal s ∧ search_state s1 = search_state s) as [Et Es].
  { unfold s1. destruct (unscheduled_view BlinkTimeout (Actions.unscheduled window BlinkCursor s)) as [-> ->].
    apply unscheduled_view. }
  clearbody s1. destruct (_ && _).
  - unfold Actions.schedule_blinking_timeout.
    destruct (CursorConfig.blink_timeout _) as [n|]; cbn [mbind option_bind]; [|done].
    destruct (n =? 0)%N; by intros [= <-].
  - by intros [= <-].
Qed.

Lemma on_typing_start_view s s' :
  Actions.on_typing_start window clock config s = Some s' →
  terminal s' = terminal s ∧ search_state s' = search_state s.
Proof.
  intros E. unfold Actions.on_typing_start in E.
  pose proof (unscheduled_view BlinkCursor s) as [Et Es]. unfold Actions.unscheduled in Et, Es.
  destruct (Actions.unschedule window BlinkCursor s) as [timer s1]. cbn [snd] in Et, Es.
  match type of E with (?m ≫= _) = _ => destruct m as [s2|] eqn:E2; cbn [mbind option_bind] in E; [|done] end.
  assert (terminal s2 = terminal s ∧ search_state s2 = search_state s) as [Et2 Es2].
  { destruct timer as [timer|].
    - cbv zeta in E2. destruct (Display.cursor_hidden _); by injection E2 as <-.
    - destruct (cursor_blink_timed_out s1); [|by injection E2 as <-].
      apply update_cursor_blinking_view in E2 as [-> ->]. done. }
  destruct (_ && _); by injection E as <-.
Qed.

Lemma start_update_selection p side s :
  searching s → keeps_start s (Actions.update_selection p side s).
Proof.
  intros Hs. unfold Actions.update_selection.
  destruct (Term.selection (terminal s)) as [sel|]; [|by apply keeps_start_refl].
  cbv zeta. rewrite (v_active _ Hs), andb_false_r. apply keeps_start_dirty.
  apply keeps_start_intro; [done| |apply Hs|done|done].
  split; [|done]. exact (rescrolled_refl _ (proj2 (proj2 (v_small _ Hs)))).
Qed.

Lemma start_scroll sc s s' :
  searching s → Actions.scroll window clock config sc s = Some s' → keeps_start s s'.
Proof.
  intros Hs E. unfold Actions.scroll in E. cbv zeta in E. unfold upd_terminal in E.
  destruct (Term.scroll_display sc (terminal s)) as [t|] eqn:Et; cbn [mbind option_bind] in E; [|done].
  destruct (i32_sub _ _) as [moved|] eqn:Em; cbn [mbind option_bind] in E; [|done].
  change (Actions.search_active (set_terminal t s)) with (Actions.search_active s) in E.
  rewrite (v_active _ Hs) in E.
  destruct (i32_add _ _) as [delta|] eqn:Ed; cbn [mbind option_bind] in E; [|done].
  set (s1 := upd_search _ _) in E.
  assert (keeps_start s s1) as Hk.
  { apply scroll_display_view in Et as (Hsame & _); [|apply Hs].
    pose proof (small_view_rescrolled _ _ (v_small _ Hs) (proj1 Hsame)) as (Hb & _ & Ho).
    destruct (v_small _ Hs) as (Ha & _ & Ho').
    apply i32_chk_inv in Em as [-> _]. apply i32_chk_inv in Ed as [-> _].
    unfold display_offset, history_size in *. simpl in *.
    apply keeps_start_intro; [done|exact Hsame|exact (v_active _ Hs)| |done].
    unfold start_offset, display_offset. simpl. rewrite !as_i32_small by lia. lia. }
  clearbody s1. eapply keeps_start_trans; [exact Hk|]. destruct Hk as [Hs1 _]. clear Hs Em Ed Et.
  rewrite (v_vi _ Hs1) in E. cbn [andb] in E.
  match type of E with (?m ≫= _) = _ => destruct m as [s2|] eqn:E2; cbn [mbind option_bind] in E; [|done] end.
  assert (keeps_start s1 s2) as Hk.
  { destruct (negb _); [injection E2 as <-; by apply start_update_selection|].
    destruct (_ || _); [|injection E2 as <-; by apply keeps_start_refl].
    destruct (Actions.mouse_point s1) as [p|]; cbn [mbind option_bind] in E2; [|done].
    injection E2 as <-. by apply start_update_selection. }
  eapply keeps_start_trans; [exact Hk|]. destruct Hk as [Hs2 _].
  destruct (Actions.on_typing_start _ _ _ s2) as [s3|] eqn:E3; cbn [mbind option_bind] in E; [|done].
  injection E as <-. apply on_typing_start_view in E3 as [Et3 Es3].
  apply keeps_start_pure; [done|exact Et3|..]; unfold Actions.search_active; simpl; rewrite Es3;
    first [done|apply Hs2].
Qed.

(** ** A whole search *)

(** Where the cursor of the vi mode is once the search has its line: when the terminal's cursor is on
    the last line, the text moves up. *)
Definition search_start s : Point :=
  if line (Term.cursor_point (terminal s)) + 1 =? as_i32 (screen_lines (terminal s))
  then Pt (line (vi_point s) - 1) (column (vi_point s)) else vi_point s.

Lemma start_search_view d s s' :
  vi_mode s = true → Actions.start_search d s = Some s' →
  terminal s' = terminal s ∧ Actions.search_active s' = true ∧
  SearchState.display_offset_delta (search_state s') = 0 ∧
  SearchState.origin (search_state s') = search_start s.
Proof.
  intros Hv E. unfold Actions.start_search in E. cbv zeta in E.
  set (s1 := upd_search _ s) in E. unfold Actions.search_origin in E.
  change (vi_mode s1) with (vi_mode s) in E. change (terminal s1) with (terminal s) in E.
  rewrite Hv in E. cbv zeta in E.
  destruct (i32_add _ _) as [below|] eqn:Eb; cbn [mbind option_bind] in E; [|done].
  apply i32_chk_inv in Eb as [-> _].
  match type of E with (?m ≫= _) = _ => destruct m as [[o delta]|] eqn:Eo; cbn [mbind option_bind] in E; [|done] end.
  set (s2 := upd_search _ s1) in E. injection E as <-.
  assert (terminal (set_ime_inhibitor ImeInhibitor.VI false s2) = terminal s ∧
    search_state (set_ime_inhibitor ImeInhibitor.VI false s2) = search_state s2) as [Et Es]
    by (clear Eo; unfold set_ime_inhibitor; cbv zeta; by case_match).
  set (s3 := set_ime_inhibitor _ _ s2) in *. clearbody s3. unfold Actions.search_active. simpl.
  rewrite Et, Es. simpl. unfold search_start. destruct (_ =? _).
  - destruct (i32_sub _ _) as [l|] eqn:El; [|done]. apply i32_chk_inv in El as [-> _].
    by injection Eo as <- <-.
  - by injection Eo as <- <-.
Qed.

(** The display after a search has taken its line: the terminal may have been resized and the
    display scrolled, but the search has not begun to move. *)
Record resized s s' : Prop := {
  re_small : small_view (terminal s');
  re_mode : Term.mode (terminal s') = Term.mode (terminal s);
  re_active : Actions.search_active s' = Actions.search_active s;
  re_delta : SearchState.display_offset_delta (search_state s')
             = SearchState.display_offset_delta (search_state s);
  re_origin : SearchState.origin (search_state s') = SearchState.origin (search_state s);
}.

Lemma resized_refl s : small_view (terminal s) → resized s s.
Proof. by split. Qed.

Lemma start_resized d s s1 s1' :
  vi_mode s = true → Actions.start_search d s = Some s1 → resized s1 s1' →
  searching s1' ∧ start_offset s1' = Z.of_nat (display_offset s1') ∧
  SearchState.origin (search_state s1') = search_start s.
Proof.
  intros Hv E [Hs Hm Ha Hd Ho]. apply start_search_view in E as (Et & Ha1 & Hd1 & Ho1); [|done].
  rewrite Et in Hm. unfold start_offset. rewrite Hd, Hd1, Ho, Ho1. split; [|split; [lia|done]]. split.
  - done.
  - unfold vi_mode, has_mode in *. by rewrite Hm.
  - by rewrite Ha.
  - unfold start_offset. rewrite Hd, Hd1. unfold display_offset. destruct Hs as (_ & _ & Hof). lia.
Qed.

(** What can happen while an expression is typed. *)
Inductive SearchOp :=
  | TypeChar (ch : char) | DeleteWord | PreviousEntry | NextEntry | DelayedSearchFires
  | ScrollDisplay (sc : Scroll).

Definition search_op (o : SearchOp) s : option ctx :=
  match o with
  | TypeChar ch => Actions.search_input window clock config rfuel ch s
  | DeleteWord => Actions.search_pop_word window clock config rfuel s
  | PreviousEntry => Actions.search_history_previous window clock config rfuel s
  | NextEntry => Actions.search_history_next window clock config rfuel s
  | DelayedSearchFires => Actions.goto_match window clock rfuel None s
  | ScrollDisplay sc => Actions.scroll window clock config sc s
  end.

Lemma start_search_op o s s' : searching s → search_op o s = Some s' → keeps_start s s'.
Proof.
  intros Hs. destruct o; cbn [search_op];
    [by apply start_search_input|by apply start_search_pop_word|by apply start_history_previous
    |by apply start_history_next|by apply start_goto_match|by apply start_scroll].
Qed.

Lemma start_search_ops ops s s' : searching s → foldM search_op ops s = Some s' → keeps_start s s'.
Proof.
  revert s. induction ops as [|o ops IH]; intros s Hs; cbn [foldM].
  { intros [= <-]. by apply keeps_start_refl. }
  destruct (search_op o s) as [s1|] eqn:E; cbn [mbind option_bind]; [|done].
  apply start_search_op in E as Hk; [|done]. intros E'. eapply keeps_start_trans; [exact Hk|].
  destruct Hk as [Hs1 _]. by apply IH.
Qed.

(** C20.  Cancelling a search in vi mode brings everything back: after any sequence of characters
    that were typed, words that were deleted, entries of the history, delayed searches and scrolling,
    the text and the display offset are those from before the search began to move, that is, of the
    display once it was resized for the line the search takes; so is the cursor of the vi mode, which
    moved up with the text if the terminal's cursor was on the last line, unless it is not displayed.
    The search is over and the vi mode is not left. *)
Theorem search_cancel_restores d (ops : list SearchOp) s s1 s1' s2 s3 :
  vi_mode s = true → Actions.start_search d s = Some s1 → resized s1 s1' →
  foldM search_op ops s1' = Some s2 → Actions.cancel_search window config s2 = Some s3 →
  Term.grid (terminal s1) = Term.grid (terminal s) ∧
  Term.grid (terminal s3) = Term.grid (terminal s1') ∧
  (displayed (terminal s1') (search_start s) → vi_point s3 = search_start s) ∧
  vi_mode s3 = true ∧ Actions.search_active s3 = false ∧
  SearchState.focused_match (search_state s3) = None.
Proof.
  intros Hv E1 Hre E2 E3. pose proof (start_search_view _ _ _ Hv E1) as (Et1 & _).
  destruct (start_resized _ _ _ _ Hv E1 Hre) as (Hs1 & Eof1 & Eor1).
  apply start_search_ops in E2 as (Hs2 & Hsame2 & Eof2 & Eor2); [|done].
  unfold Actions.cancel_search in E3. rewrite (v_vi _ Hs2) in E3.
  destruct (Actions.search_reset_state window s2) as [s4|] eqn:E4; cbn [mbind option_bind] in E3; [|done].
  apply search_reset_state_view in E4 as ((Hs4 & [Hr4 _] & Eof4 & Eor4) & Ed & Hp); [|done].
  injection E3 as <-. unfold Actions.exit_search. cbv zeta.
  set (s5 := upd_search (SearchState.set_dfas None) s4).
  assert (terminal (set_ime_inhibitor ImeInhibitor.VI (vi_mode s5) s5) = terminal s4) as Et
    by (unfold set_ime_inhibitor; cbv zeta; by case_match).
  set (s6 := set_ime_inhibitor _ _ s5) in *. clearbody s6.
  assert (rescrolled (terminal s1') (terminal s4)) as Hr by (eapply rescrolled_trans; [apply Hsame2|done]).
  assert (display_offset s4 = display_offset s1') as Eo by (unfold start_offset in *; lia).
  assert (Term.grid (terminal s4) = Term.grid (terminal s1')) as Eg.
  { destruct Hr as [Eg _]. unfold display_offset in Eo. rewrite Eo in Eg. rewrite Eg.
    by destruct (Term.grid (terminal s1')). }
  split_and!; [by rewrite Et1|cbn; by rewrite Et| |unfold vi_mode, has_mode; cbn; rewrite Et; apply Hs4
    |done|done].
  intros Hd. unfold vi_point at 1. cbn. rewrite Et. change (vi_point s4 = search_start s).
  rewrite <- Eor1, <- Eor2. apply Hp. rewrite Eor2, Eor1. unfold displayed in *.
  rewrite Eg, (screen_rescrolled _ _ Hr). exact Hd.
Qed.
End Cancel.

(** * The update of the display for a search *)

Section Resized.
Context `{External} `{RegexCompiler} `{Fontique} {W : Type} `{EqDecision W}.
Import Context.
#[local] Abbreviation ctx := (Context.t W).
Implicit Types (c : ctx) (s : Screen.t).

Lemma resize_mode L C (t t' : Term.t) : Term.resize L C t = Some t' → Term.mode t' = Term.mode t.
Proof.
  intros E. unfold Term.resize in E. cbv zeta in E. destruct (_ && _); [by injection E as <-|].
  repeat match type of E with
    | (?m ≫= _) = _ => let x := fresh "x" in let Ex := fresh "Ex" in
        destruct m as [x|] eqn:Ex; cbn [mbind option_bind] in E; [|discriminate E]
    end.
  unfold Term.upd_grid in Ex3. apply bind_Some in Ex3 as (g & _ & [= <-]).
  injection E as <-. cbn [Term.mode Term.set_damage Term.set_scroll_region Term.set_vi_mode_cursor].
  destruct (negb _); [by injection Ex5 as <-|].
  destruct (Term.selection _); [|by injection Ex5 as <-].
  apply bind_Some in Ex5 as (rev & _ & Ex5). by apply bind_Some in Ex5 as (sel & _ & [= <-]).
Qed.

Lemma scroll_display_mode sc (t t' : Term.t) :
  Term.scroll_display sc t = Some t' → Term.mode t' = Term.mode t.
Proof.
  intros E. unfold Term.scroll_display, Term.upd_grid in E. cbv zeta in E.
  apply bind_Some in E as (t1 & Et1 & E). apply bind_Some in Et1 as (g & _ & [= <-]).
  apply bind_Some in E as (x & _ & [= <-]).
  match goal with |- Term.mode (if _ then Term.vi_mode_recompute_selection ?y else _) = _ =>
    pose proof (recompute_view y) as (_ & Em & _) end.
  by destruct (_ =? _)%nat.
Qed.

(** What an update of the display leaves of the search and the modes. *)
Definition kept c c' : Prop :=
  Term.mode (terminal c') = Term.mode (terminal c) ∧
  ∃ m, search_state c' = m (search_state c) ∧ (m = id ∨ m = SearchState.set_focused_match None).

Lemma handle_update_keeps_search dconfig c s c' s' :
  handle_update dconfig c s = Some (c', s') → kept c c'.
Proof.
  intros E. unfold handle_update in E. cbv zeta in E.
  set (c0 := upd_display _ c) in E.
  match type of E with (let '(_, _) := ?m in _) = _ => destruct m as [c1 s1] eqn:E1 end.
  assert (terminal c1 = terminal c ∧ search_state c1 = search_state c) as [Et Es]
    by (destruct (DisplayUpdate.font _); injection E1 as <- _; done).
  apply bind_Some in E as (size & _ & E). unfold change_size in E. cbv zeta in E.
  apply bind_Some in E as ([c2 s2] & E2 & E).
  assert (Term.mode (terminal c2) = Term.mode (terminal c1) ∧ search_state c2 = search_state c1) as [Em2 Es2].
  { unfold resize_cells in E2. destruct (_ && _); [by injection E2 as <- _|].
    unfold upd_terminal in E2. apply bind_Some in E2 as (c3 & E3 & E2).
    apply bind_Some in E3 as (t & Et3 & [= <-]). injection E2 as <- _. split; [|done].
    by apply resize_mode in Et3. }
  unfold kept. rewrite <- Et, <- Em2, <- Es, <- Es2.
  destruct (bool_decide _); injection E as <- _; (split; [done|]).
  - exists id. auto.
  - exists (SearchState.set_focused_match None). auto.
Qed.

(** The update of the display after a search was started, in which its line is reserved, leaves the
    search where it started. *)
Lemma update_resized dconfig searching_before c s c' s' :
  submit_display_update dconfig searching_before c s = Some (c', s') → small_view (terminal c') →
  resized c c'.
Proof.
  intros E Hs. assert (kept c c') as [Hm (m & Em & Hid)].
  { unfold submit_display_update in E. cbv zeta in E.
    apply bind_Some in E as (bottom & _ & E). apply bind_Some in E as (o & _ & E).
    apply bind_Some in E as ([c1 s1] & E1 & E). apply handle_update_keeps_search in E1 as [Hm1 Hk1].
    assert (∀ d, (c ← upd_terminal (Term.scroll_display (ScrollDelta d)) c1; Some (c, s1)) = Some (c', s') →
      kept c c') as Hscroll.
    { intros d Ed. apply bind_Some in Ed as (c2 & Ec2 & [= <- <-]).
      apply bind_Some in Ec2 as (t & Et & [= <-]). apply scroll_display_mode in Et.
      split; [by rewrite <- Hm1|done]. }
    repeat match type of E with (if ?b then _ else _) = _ => destruct b end;
      try (by apply Hscroll in E); injection E as <- _; by split. }
  split; [done|done|..]; unfold Actions.search_active; rewrite Em; destruct Hid as [-> | ->]; done.
Qed.
End Resized.
