(* ===== verification/PasteProps.v ===== *)
(** Properties of pasting: what is sent to the program in the terminal, and that a text that is
    pasted cannot end the paste by itself. *)
From S2P Require Import Prelude Index Cells TermData Grids Terms Handlers Searches ViModes Selections Keys Bindings Keyboards KeyProps Schedulers FrameDamages Hints Messages Mice Contexts Actions ContextProps SearchInputProps.
#[local] Open Scope nat_scope.
#[local] Set Default Proof Using "Type".

(** * Bytes *)

(** A byte below 128 is only in the encoding of its own character. *)
Lemma encode_utf8_ascii b ch : (b < 128)%N → b ∈ encode_utf8 ch → b = ch.
Proof.
  intros Hb.
  unfold encode_utf8. repeat case_match; rewrite ?elem_of_cons, elem_of_nil; intros Hin;
    repeat (destruct Hin as [Hin|Hin]); try done;
    match type of Hin with _ = (_ + ?x)%N => revert Hin; generalize x; intros; lia end.
Qed.

Lemma to_bytes_ascii_in b t : (b < 128)%N → b ∈ Actions.to_bytes t → b ∈ t.
Proof.
  intros Hb. unfold Actions.to_bytes. induction t as [|ch t IH]; [done|]. rewrite fmap_cons. cbn [concat].
  rewrite elem_of_app, elem_of_cons. intros [Hin|Hin]; [left; by apply encode_utf8_ascii|right; auto].
Qed.

(** The marker behind a paste cannot be found before the end. *)
Lemma end_marker_last (bytes : list N) k rest :
  27%N ∉ bytes →
  drop k (Actions.BRACKETED_PASTE_START ++ bytes ++ Actions.BRACKETED_PASTE_END)
  = Actions.BRACKETED_PASTE_END ++ rest →
  k = length (Actions.BRACKETED_PASTE_START ++ bytes).
Proof.
  intros Hb E. assert ((Actions.BRACKETED_PASTE_START ++ bytes ++ Actions.BRACKETED_PASTE_END) !! k = Some 27%N)
    as Ek by (rewrite <- (Nat.add_0_r k), <- lookup_drop, E; done).
  destruct (Nat.lt_ge_cases k 6) as [Hk|Hk].
  - do 6 (destruct k as [|k]; [discriminate|]). lia.
  - rewrite lookup_app_r in Ek by done. change (length Actions.BRACKETED_PASTE_START) with 6 in Ek.
    rewrite length_app. change (length Actions.BRACKETED_PASTE_START) with 6.
    destruct (Nat.lt_ge_cases (k - 6) (length bytes)) as [Hl|Hl].
    + rewrite lookup_app_l in Ek by done. by apply list_elem_of_lookup_2 in Ek.
    + rewrite lookup_app_r in Ek by done.
      destruct (k - 6 - length bytes) as [|[|[|[|[|[|?]]]]]] eqn:Ed; try discriminate. lia.
Qed.

(** A text with no line feed. *)
Lemma replaced_breaks t : 10%N ∉ Actions.paste_payload true t.
Proof.
  unfold Actions.paste_payload. intros (ch & E & _)%list_elem_of_fmap.
  destruct (N.eqb_spec ch 10); congruence.
Qed.

Lemma filtered_chars ch t : ch = 27%N ∨ ch = 3%N → ch ∉ Actions.paste_filtered t.
Proof. unfold Actions.paste_filtered. rewrite list_elem_of_filter. intros [-> | ->] [[H1 H2] _]; done. Qed.

(** * Pasting *)

Section Paste.
Context `{External} `{Winit} `{RegexCompiler} {W : Type} `{EqDecision W}.
Context (window : W) (clock : nat → N) (config : UiConfig.t) (rfuel : nat).
Import Context.
#[local] Abbreviation ctx := (Context.t W).
Implicit Types (s : ctx).

(** ** Before the text is sent *)

Lemma blinking_effects s s' :
  Actions.update_cursor_blinking window clock config s = Some s' → effects s' = effects s.
Proof.
  unfold Actions.update_cursor_blinking, Actions.unscheduled, Actions.unschedule. cbv zeta.
  destruct (Scheduler.unschedule _ _) as [x1 y1]. cbn [snd].
  destruct (Scheduler.unschedule _ _) as [x2 y2]. cbn [snd].
  destruct (_ && _); [|by intros [= <-]]. unfold Actions.schedule_blinking_timeout.
  destruct (CursorConfig.blink_timeout _) as [n|]; cbn [mbind option_bind]; [|done].
  destruct (n =? 0)%N; by intros [= <-].
Qed.

Lemma typing_keeps_terminal s s' :
  Actions.on_typing_start window clock config s = Some s' → terminal s' = terminal s.
Proof. intros E. by apply on_typing_start_view in E as [-> _]. Qed.

Lemma typing_effects s s' :
  Actions.on_typing_start window clock config s = Some s' → effects s' = effects s.
Proof.
  unfold Actions.on_typing_start, Actions.unschedule.
  destruct (Scheduler.unschedule _ _) as [[timer|] x]; intros E.
  - cbv zeta in E. destruct (Display.cursor_hidden _); cbn [mbind option_bind] in E;
      destruct (_ && _); by injection E as <-.
  - match type of E with (?m ≫= _) = _ => destruct m as [s2|] eqn:E2; cbn [mbind option_bind] in E; [|done] end.
    assert (effects s2 = effects s) as <-; [|destruct (_ && _); by injection E as <-].
    destruct (cursor_blink_timed_out _); [|by injection E2 as <-]. by apply blinking_effects in E2.
Qed.

Lemma update_selection_effects p side s : effects (Actions.update_selection p side s) = effects s.
Proof.
  unfold Actions.update_selection. destruct (Term.selection _); [|done]. cbv zeta.
  by destruct (_ && _).
Qed.

Lemma scroll_effects sc s s' : Actions.scroll window clock config sc s = Some s' → effects s' = effects s.
Proof.
  unfold Actions.scroll, upd_terminal. cbv zeta. intros E.
  destruct (Term.scroll_display _ _) as [t|]; cbn [mbind option_bind] in E; [|done].
  destruct (i32_sub _ _) as [moved|]; cbn [mbind option_bind] in E; [|done].
  match type of E with (?m ≫= _) = _ => destruct m as [s1|] eqn:E1; cbn [mbind option_bind] in E; [|done] end.
  assert (effects s1 = effects s) as Ee1.
  { destruct (Actions.search_active _); [|by injection E1 as <-].
    destruct (i32_add _ _); cbn [mbind option_bind] in E1; [|done]. by injection E1 as <-. }
  match type of E with (?m ≫= _) = _ => destruct m as [s2|] eqn:E2; cbn [mbind option_bind] in E; [|done] end.
  assert (effects s2 = effects s1) as Ee2.
  { destruct (_ && _); [injection E2 as <-; apply update_selection_effects|].
    destruct (_ || _); [|by injection E2 as <-].
    destruct (Actions.mouse_point _); cbn [mbind option_bind] in E2; [|done].
    injection E2 as <-. apply update_selection_effects. }
  match type of E with (?m ≫= _) = _ => destruct m as [s3|] eqn:E3; cbn [mbind option_bind] in E; [|done] end.
  injection E as <-. cbn. rewrite <- Ee1, <- Ee2.
  destruct (vi_mode _); [by apply typing_effects in E3|by injection E3 as <-].
Qed.

Lemma clear_selection_effects s : effects (Actions.clear_selection s) = effects s.
Proof. unfold Actions.clear_selection. cbv zeta. by destruct (Term.selection _). Qed.

Lemma input_start_effects s s' :
  Actions.on_terminal_input_start window clock config s = Some s' → effects s' = effects s.
Proof.
  unfold Actions.on_terminal_input_start. intros E.
  destruct (Actions.on_typing_start _ _ _ s) as [s1|] eqn:E1; cbn [mbind option_bind] in E; [|done].
  apply typing_effects in E1 as <-. rewrite <- (clear_selection_effects s1).
  cbv zeta in E. destruct (_ =? 0); [by injection E as <-|by apply scroll_effects in E].
Qed.

(** If nothing is scrolled, sending text only fails with the timeout of the cursor. *)
Lemma blinking_total s :
  is_Some (CursorConfig.blink_timeout (UiConfig.cursor config)) →
  is_Some (Actions.update_cursor_blinking window clock config s).
Proof.
  intros [n En]. unfold Actions.update_cursor_blinking. cbv zeta. destruct (_ && _); [|by eexists].
  unfold Actions.schedule_blinking_timeout. rewrite En. cbn [mbind option_bind]. by eexists.
Qed.

Lemma input_start_total s :
  is_Some (CursorConfig.blink_timeout (UiConfig.cursor config)) → display_offset s = 0 →
  is_Some (Actions.on_terminal_input_start window clock config s).
Proof.
  intros Hb Ho. unfold Actions.on_terminal_input_start.
  assert (∃ s1, Actions.on_typing_start window clock config s = Some s1) as [s1 E1].
  { unfold Actions.on_typing_start, Actions.unschedule.
    destruct (Scheduler.unschedule _ _) as [[timer|] x]; cbn [mbind option_bind]; [by eexists|].
    destruct (cursor_blink_timed_out _); [|by eexists].
    destruct (blinking_total (set_scheduler x s) Hb) as [s2 ->]. by eexists. }
  rewrite E1. cbn [mbind option_bind]. apply typing_keeps_terminal in E1. cbv zeta.
  assert (display_offset (Actions.clear_selection s1) = display_offset s) as ->.
  { unfold Actions.clear_selection. cbv zeta. unfold display_offset. rewrite <- E1.
    by destruct (Term.selection _). }
  rewrite Ho. simpl. by eexists.
Qed.

Lemma written_write bytes s : written (write_to_pty bytes s) = written s ++ bytes.
Proof.
  unfold written, write_to_pty. destruct bytes as [|b bytes]; [by rewrite app_nil_r|].
  cbn [effects emit set_effects]. rewrite fmap_app, concat_app. simpl. by rewrite app_nil_r.
Qed.

(** ** What is sent *)

(** C21.  A text that is pasted, outside of a search, is sent as it is when pasting is not bracketed
    on purpose.  Otherwise, when the program in the terminal asked for it, it is sent between the
    two markers without escape characters and ^C, which are all that is removed, so that the end of
    the paste cannot be found before its end; when it did not ask, without line feeds.  If nothing
    was scrolled, pasting does not panic, unless the timeout of the blinking cursor does. *)
Theorem paste_contained (t : text) (bracketed : bool) s :
  let marked := bracketed && has_mode TermMode.BRACKETED_PASTE s in
  let bytes :=
    Actions.to_bytes (if marked then Actions.paste_filtered t else Actions.paste_payload bracketed t) in
  Actions.search_active s = false →
  InlineSearchState.char_pending (inline_search_state s) = false →
  (is_Some (CursorConfig.blink_timeout (UiConfig.cursor config)) → display_offset s = 0 →
   is_Some (Actions.paste window clock config rfuel t bracketed s)) ∧
  ∀ s', Actions.paste window clock config rfuel t bracketed s = Some s' →
    written s' = written s ++
      (if marked then Actions.BRACKETED_PASTE_START ++ bytes ++ Actions.BRACKETED_PASTE_END else bytes)
    ∧ (marked = true → (27%N ∉ bytes) ∧ (3%N ∉ bytes) ∧
        (∀ k rest, drop k (Actions.BRACKETED_PASTE_START ++ bytes ++ Actions.BRACKETED_PASTE_END)
           = Actions.BRACKETED_PASTE_END ++ rest → k = length (Actions.BRACKETED_PASTE_START ++ bytes)))
    ∧ (marked = false → bracketed = true → 10%N ∉ bytes)
    ∧ (bracketed = false → bytes = Actions.to_bytes t).
Proof.
  cbv zeta. intros Hs Hc. unfold Actions.paste. rewrite Hs, Hc. split.
  - intros Hb Ho. apply input_start_total in Ho as [s1 ->]; [|done]. by destruct (_ && _).
  - intros s' E. set (marked := bracketed && _) in *.
    destruct (Actions.on_terminal_input_start _ _ _ s) as [s1|] eqn:E1; cbn [mbind option_bind] in E;
      [|by destruct marked].
    assert (written s1 = written s) as Ew by (unfold written; by rewrite (input_start_effects _ _ E1)).
    split_and!.
    + destruct marked; apply (inj Some) in E as <-; rewrite !written_write, Ew; [by rewrite <- !app_assoc|done].
    + intros ->. assert (27%N ∉ Actions.to_bytes (Actions.paste_filtered t)) as H27.
      { intros Hin%to_bytes_ascii_in; [|done]. revert Hin. apply filtered_chars. by left. }
      split_and!; [done| |intros k rest; by apply end_marker_last].
      intros Hin%to_bytes_ascii_in; [|done]. revert Hin. apply filtered_chars. by right.
    + intros -> ->. intros Hin%to_bytes_ascii_in; [|done]. revert Hin. apply replaced_breaks.
    + intros Eb. unfold marked. by rewrite Eb.
Qed.
End Paste.
