(* ===== verification/WindowProps.v ===== *)
(** The events of a window: whatever happens, the history of the search and the timers stay valid;
    the fingers that are tracked are on the screen; in vi mode no key sends anything to the program
    in the terminal. *)
From stdpp Require Import gmap.
From S2P Require Import Prelude Index Cells TermData Grids Terms Handlers TermProps Searches ViModes ViProps Selections Keys Bindings DefaultBindings BindingProps Keyboards KeyProps Schedulers FrameDamages Hints HintMatchProps Messages Mice Contexts Actions Inputs Touches WindowEvents ContextProps InputProps TouchProps SearchInputProps PasteProps.
#[local] Open Scope nat_scope.
#[local] Set Default Proof Using "Type".

Section Events.
Context `{External} `{Unicode} `{Winit} `{RegexCompiler} {W : Type} `{EqDecision W}.
Context (window : W) (clock : nat → N) (clipboard_load : list Effect → ClipboardType → text).
Context (config : UiConfig.t) (rfuel : nat).
Context (alt_option : OptionAsAlt) (bindings : list KeyBinding).
Context (enabled : list (Hint * option HintBinding)) (colors : list Rgb) (min_height step : Z).
Import Context.
#[local] Abbreviation ctx := (Context.t W).
#[local] Abbreviation keyboard :=
  (WindowEvents.window_context window clock clipboard_load config rfuel alt_option bindings enabled).
#[local] Existing Instance WindowEvents.window_context.
Implicit Types (s : ctx) (w : Kind).

(** * Keys *)

Lemma keeps_run_binding key logical mode mods b o s :
  keeps_snd Loud s (@Keyboard.run_binding _ keyboard key logical mode mods b (o, s)).
Proof.
  unfold Keyboard.run_binding. destruct (Binding.is_triggered_by _ _ _ _); [|keeps].
  apply (keeps_snd_bind Loud s (Inputs.execute window clock clipboard_load config rfuel (action b) s));
    [apply keeps_loud_execute|]. intros s'. keeps.
Qed.

Lemma keeps_process_key_bindings key s :
  keeps_snd Loud s (@Keyboard.process_key_bindings _ _ keyboard key s).
Proof.
  unfold Keyboard.process_key_bindings. cbv zeta. apply keeps_snd_bind_pair.
  - apply keeps_snd_foldM. intros. apply keeps_run_binding.
  - intros o s'. apply keeps_snd_bind_pair; [|intros; keeps].
    apply keeps_snd_foldM. intros. apply keeps_run_binding.
Qed.

(** Putting the timer of the search back. *)
Lemma keeps_reset_search_delay w s : keeps w s (@Keyboard.reset_search_delay _ keyboard s).
Proof.
  unfold Keyboard.reset_search_delay. destruct (@Keyboards.search_active _ keyboard s); [|keeps].
  cbn [unschedule_search WindowEvents.window_context mbind option_bind].
  pose proof (ok_unscheduled window w s s DelayedSearch (ok_refl w s) ltac:(discriminate)) as Hs.
  unfold Actions.unscheduled, Actions.unschedule in *.
  pose proof (unschedule_timers (scheduler s) (Actions.timer_id window DelayedSearch)) as Hu.
  pose proof (unschedule_spec (Actions.timer_id window DelayedSearch) (scheduler s)) as Hid.
  destruct (Scheduler.unschedule _ _) as [[timer|] x]; cbn [snd] in *; [|by apply keeps_some].
  destruct Hid as (l1 & l2 & _ & _ & Eid & _).
  apply keeps_some. intros Hi. destruct (Hu (inv_timers _ _ Hi)) as [_ Hf]. revert Hi.
  apply ok_set_scheduler; [done|..|apply schedule_frames; by rewrite Eid].
  intros Ht. apply schedule_timers; [rewrite Eid; by apply Hf|done].
Qed.

Lemma keeps_key_release key mode mods s :
  keeps Loud s (@Keyboard.key_release _ _ keyboard key mode mods s).
Proof.
  unfold Keyboard.key_release.
  assert (∀ (m : option (list N)), keeps Loud s (bytes ← m; @Keyboards.write_to_pty _ keyboard bytes s))
    as Hw by (intros; apply keeps_any; intros; apply keeps_some; ok_pure).
  repeat case_match; first [apply Hw|apply keeps_some, ok_refl].
Qed.

Lemma keeps_key_input key s : keeps Loud s (@Keyboard.key_input _ _ keyboard key s).
Proof.
  unfold Keyboard.key_input. destruct (@Keyboards.preedit _ keyboard s); [keeps|]. cbv zeta. case_decide.
  { apply keeps_bind; [|intros; apply keeps_key_release].
    destruct (@Keyboards.char_pending _ keyboard s); apply keeps_some; ok_pure. }
  destruct (@hint_active _ keyboard s); [apply keeps_foldM; intros; apply keeps_hint_input|].
  destruct (@Keyboards.char_pending _ keyboard s); [apply keeps_inline_search_input|].
  apply keeps_bind; [apply keeps_reset_search_delay|]. intros s1.
  apply keeps_bind_pair; [apply keeps_process_key_bindings|]. intros suppressed s2.
  destruct suppressed; [keeps|].
  destruct (@Keyboards.search_active _ keyboard s2); [apply keeps_foldM; intros; apply keeps_search_input|].
  destruct (TermMode.contains _ _); [keeps|]. apply keeps_any. intros bytes _.
  case_match; [keeps|]. apply keeps_bind; [|intros; apply keeps_some; ok_pure].
  destruct (is_modifier_key key); [keeps|apply keeps_on_terminal_input_start].
Qed.

(** * Events *)

Lemma ok_bell w s s1 : ok_step w s s1 → ok_step w s (WindowEvents.bell clock config s1).
Proof.
  intros Hs. unfold WindowEvents.bell. cbv zeta. set (s2 := emit (Window RingVisualBell) _).
  assert (ok_step w s s2) as Hs2 by (unfold s2; ok_pure). clearbody s2.
  destruct (UiConfig.bell_command config) as [command|]; [|done].
  assert (∀ s3, ok_step w s s3 →
    ok_step w s (let s := Actions.spawn_daemon (program_of command) (args_of command) s3 in
      let '(now, sch) := Scheduler.now clock (scheduler s) in
      set_prev_bell_cmd (Some now) (set_scheduler sch s))) as Hrun.
  { intros s3 Hs3. cbv zeta. set (s4 := Actions.spawn_daemon _ _ s3).
    destruct (Scheduler.now clock (scheduler s4)) as [now x] eqn:En. apply ok_set_prev_bell.
    apply (ok_now clock w s s4 now); [|done]. unfold s4, Actions.spawn_daemon. ok_pure. }
  destruct (prev_bell_cmd s2) as [i|]; [|by apply Hrun].
  destruct (Scheduler.now clock (scheduler s2)) as [now x] eqn:En.
  assert (ok_step w s (set_scheduler x s2)) as Hs3 by (by apply (ok_now clock w s s2 now)).
  destruct (_ <=? _)%N; [by apply Hrun|done].
Qed.

Lemma keeps_handle_terminal_event s b e :
  keeps Loud s (WindowEvents.handle_terminal_event window clock clipboard_load config colors b e s).
Proof.
  unfold WindowEvents.handle_terminal_event, WindowEvents.update_cursor_blinking.
  destruct e; first [apply keeps_reset_mouse_cursor|apply keeps_some, ok_bell, ok_refl|keeps].
Qed.

Lemma keeps_handle_user_event s b e :
  keeps Loud s (WindowEvents.handle_user_event window clock clipboard_load config rfuel colors b e s).
Proof.
  unfold WindowEvents.handle_user_event. destruct e; try solve [keeps].
  apply keeps_handle_terminal_event.
Qed.

Lemma keeps_blinking s : keeps Loud s (WindowEvents.update_cursor_blinking window clock config s).
Proof. unfold WindowEvents.update_cursor_blinking. keeps. Qed.
#[local] Hint Resolve keeps_blinking : ctx.

Lemma ok_show_mouse w s s1 : ok_step w s s1 → ok_step w s (WindowEvents.show_mouse s1).
Proof. intros Hs. unfold WindowEvents.show_mouse. ok_pure. Qed.

Lemma keeps_focused s b : keeps Loud s (WindowEvents.focused window clock config b s).
Proof.
  unfold WindowEvents.focused. cbv zeta. eapply keeps_from; [|apply keeps_bind; [apply keeps_blinking|]].
  - ok_pure.
  - intros s'. unfold Inputs.on_focus_change. keeps.
Qed.

Lemma keeps_set_preedit s p : keeps Loud s (WindowEvents.set_preedit window clock config p s).
Proof. unfold WindowEvents.set_preedit. keeps. Qed.

(** Touches and the wheel, which change the state of the gestures. *)
Definition is_gesture (e : WindowEvent) : bool :=
  match e with MouseWheel _ _ | Touch _ _ => true | _ => false end.

Lemma keeps_handle_other s e :
  is_gesture e = false →
  keeps Loud s (WindowEvents.handle_window_event window clock clipboard_load config rfuel alt_option
                  bindings enabled min_height step e s).
Proof.
  intros He. unfold WindowEvents.handle_window_event, WindowEvents.paste.
  destruct e; try discriminate;
    try solve [apply keeps_key_input|apply keeps_focused|apply keeps_set_preedit|keeps].
  all: first
    [ solve [unfold WindowEvents.set_ime_enabled; keeps]
    | eapply keeps_from; [|first [apply keeps_mouse_input|apply keeps_mouse_moved]];
        apply ok_show_mouse, ok_refl ].
Qed.

Lemma keeps_handle_window_event s e :
  keeps Free s (WindowEvents.handle_window_event window clock clipboard_load config rfuel alt_option
                  bindings enabled min_height step e s).
Proof.
  destruct (is_gesture e) eqn:He; [|apply keeps_louder; [done|by apply keeps_handle_other]].
  destruct e; try discriminate; cbn [WindowEvents.handle_window_event].
  - eapply keeps_from; [apply ok_show_mouse, ok_refl|apply keeps_mouse_wheel_input].
  - apply keeps_on_touch.
Qed.

(** ** Sequences of events *)

Inductive input := UserInput (preserve_title : bool) (e : EventType) | WindowInput (e : WindowEvent).

Definition handle (i : input) s : option ctx :=
  match i with
  | UserInput b e =>
      WindowEvents.handle_user_event window clock clipboard_load config rfuel colors b e s
  | WindowInput e =>
      WindowEvents.handle_window_event window clock clipboard_load config rfuel alt_option bindings
        enabled min_height step e s
  end.

(** C10.  Whatever events the window system, the terminal and the timers send, in whatever order: the
    history of the search has at most 255 entries, the entry that is shown exists, the timers are
    in the order of their deadlines, and there is at most one for each purpose besides the frames. *)
Theorem events_keep_context (inputs : list input) s s' :
  history_ok (search_state s) → timers_ok (scheduler s) → foldM handle inputs s = Some s' →
  history_ok (search_state s') ∧ timers_ok (scheduler s').
Proof.
  intros Hh Ht E. assert (keeps Free s (foldM handle inputs s)) as Hk.
  { apply keeps_foldM. intros [b e|e] s1; [|apply keeps_handle_window_event].
    apply keeps_louder; [done|]. apply keeps_handle_user_event. }
  destruct (keeps_elim _ _ _ Hk _ E) as [[Hh' Ht' _] _]; [|done]. split; [done|done|by left].
Qed.

(** * Fingers *)

Definition is_touch (i : input) : bool :=
  match i with WindowInput (Touch _ _) => true | _ => false end.

Lemma handle_touch i s s' :
  is_touch i = false → ctx_inv Loud s → handle i s = Some s' → ctx_inv Loud s' ∧ touch s' = touch s.
Proof.
  intros Hi Hs E. destruct i as [b e|e].
  { apply (loud_touch s); [done|]. eapply keeps_elim; [apply keeps_handle_user_event|exact E]. }
  destruct (is_gesture e) eqn:He.
  2: { apply (loud_touch s); [done|]. eapply keeps_elim; [by apply keeps_handle_other|exact E]. }
  destruct e as [| | | | |delta phase| | | | | | | | |]; try discriminate. simpl in E.
  assert (ctx_inv Loud (WindowEvents.show_mouse s) ∧ touch (WindowEvents.show_mouse s) = touch s)
    as [Hs0 <-] by (apply loud_touch; [done|apply ok_show_mouse, ok_refl]).
  revert E. generalize dependent (WindowEvents.show_mouse s). intros s0 Hs0. clear Hs.
  unfold Inputs.mouse_wheel_input. destruct delta as [columns lines|x y]; [by apply scroll_touch|].
  destruct phase; [|destruct (Inputs.is_horizontal x y); by apply scroll_touch|by intros [= <-]..].
  intros [= <-]. split; [by apply upd_mouse_inv|done].
Qed.

Lemma handle_gesture phase e s s' :
  ctx_inv Loud s → handle (WindowInput (Touch phase e)) s = Some s' →
  ctx_inv Loud s' ∧ touch s' = gesture phase e (touch s).
Proof. intros Hs E. eapply on_touch_gesture; [exact Hs|exact E]. Qed.

(** The contexts that are reached while the fingers [F] are on the screen: a finger is put on it,
    moves and is lifted, and other events are handled in between. *)
Inductive touching : gset N → ctx → Prop :=
  | touching_none s :
      touch s = TouchPurpose.NoPurpose → history_ok (search_state s) → timers_ok (scheduler s) →
      touching ∅ s
  | touching_started F e s s' :
      touching F s → touch_id e ∉ F → handle (WindowInput (Touch PhaseStarted e)) s = Some s' →
      touching ({[ touch_id e ]} ∪ F) s'
  | touching_moved F e s s' :
      touching F s → touch_id e ∈ F → handle (WindowInput (Touch PhaseMoved e)) s = Some s' →
      touching F s'
  | touching_ended F e phase s s' :
      touching F s → touch_id e ∈ F → phase = PhaseEnded ∨ phase = PhaseCancelled →
      handle (WindowInput (Touch phase e)) s = Some s' → touching (F ∖ {[ touch_id e ]}) s'
  | touching_other F i s s' :
      touching F s → is_touch i = false → handle i s = Some s' → touching F s'.

(** C22.  Whatever the fingers do, in whatever order, and whatever other events come in between: the
    fingers the touch input remembers are on the screen, two different ones while zooming, and once
    all fingers are lifted no gesture is left. *)
Theorem touches_tracked F s :
  touching F s →
  tracks F (touch s) ∧ (F = ∅ → touch s = TouchPurpose.NoPurpose).
Proof.
  intros Ht. assert (ctx_inv Loud s ∧ tracks F (touch s)) as [_ Hp].
  { induction Ht as [s E Hh Ht|F e s s' _ [Hs Hp] He E|F e s s' _ [Hs Hp] He E
                    |F e phase s s' _ [Hs Hp] He Hph E|F i s s' _ [Hs Hp] Hi E].
    - split; [split; [done|done|by left]|]. by rewrite E.
    - apply handle_gesture in E as [Hs' ->]; [|done]. split; [done|by apply tracks_start].
    - apply handle_gesture in E as [Hs' ->]; [|done]. split; [done|by apply tracks_moved].
    - apply handle_gesture in E as [Hs' ->]; [|done]. split; [done|].
      by destruct Hph as [-> | ->]; apply tracks_ended.
    - apply handle_touch in E as [Hs' ->]; done. }
  split; [done|]. intros ->. by apply tracks_none.
Qed.

(** * Vi mode *)

Lemma context_silent (bytes : list N) :
  @silent _ keyboard (λ s, ctx_inv Quiet s ∧ written s = bytes).
Proof.
  assert (∀ s m s', keeps Quiet s m → m = Some s' → ctx_inv Quiet s ∧ written s = bytes →
    ctx_inv Quiet s' ∧ written s' = bytes) as Hk.
  { intros s m s' Hm E [Hs Ew]. destruct (keeps_elim _ _ _ Hm _ E Hs) as (Hs' & Ew' & _).
    split; [done|]. by rewrite Ew'. }
  split.
  - intros a s s' Hw Hp Hs E. eapply Hk; [|exact E|done]. apply keeps_execute. by right.
  - intros ch s s' Hs E. eapply Hk; [|exact E|done]. apply keeps_hint_input.
  - intros t s s' Hs E. eapply Hk; [|exact E|done]. apply keeps_inline_search_input.
  - intros ch s s' Hs E. eapply Hk; [|exact E|done]. apply keeps_search_input.
  - intros b s s' Hs E. eapply Hk; [|exact E|done]. apply keeps_some. ok_pure.
Qed.

(** C18.  In vi mode, with the default bindings and hints that do not paste, no key sends anything
    to the program in the terminal, whether it is pressed or released, unless a search is active;
    whatever the other state of the window is: a hint that is being selected, a character the
    inline search waits for, text of the input method, or modifiers. *)
Theorem vi_mode_keys_silent (key : KeyEvent) s s' :
  bindings = default_key_bindings (UiConfig.platform config) →
  (∀ hint b, (hint, b) ∈ enabled → pastes_hint hint = false) → hints_quiet (display s) →
  history_ok (search_state s) → timers_ok (scheduler s) →
  vi_mode s = true → Actions.search_active s = false →
  handle (WindowInput (KeyboardInput key)) s = Some s' → written s' = written s.
Proof.
  intros Hb He Hq Hh Ht Hv Ha E.
  pose proof (@key_input_silent _ _ keyboard _ (context_silent (written s)) key s s') as Hk.
  destruct Hk as [_ Hw]; [done|done|done|done| |exact E|done].
  split; [|done]. split; [done|done|by right].
Qed.
End Events.

(** * A window *)

Section Samples.
#[local] Existing Instance Sample.external.
#[local] Existing Instance ascii_unicode.
#[local] Existing Instance sample_winit.
(** Every expression finds one character that is not a blank. *)
#[local] Existing Instance HintMatchProps.Single.
#[local] Existing Instance HintMatchProps.single_compiler.

Definition sample_clock (n : nat) : N := N.of_nat n * 1000000.
Definition sample_config : UiConfig.t :=
  UiConfig.mk _ Unix (CursorConfig.mk (ShapeStyle 0) None true 750 5) false true false true []
    (Some (Just [98%N])) [] 3.
Definition sample_size : SizeInfo.t := SizeInfo.mk 40 60 10 20 0 0 3 4.
Definition sample_display : Display.t :=
  Display.mk sample_size false (HintState.new [97; 98]%N) None None false (DamageTracker.new 3 4)
    None true 0 IconText false.
Definition sample_context (mode : TermMode) : Context.t unit :=
  Context.mk (Term.set_mode mode TermSample.term) (Mouse.default 0) TouchPurpose.NoPurpose ModifiersState.empty
    (false, false) sample_display [] false None Scheduler.new SearchState.default
    InlineSearchState.default false false [].
#[local] Abbreviation sample_handle :=
  (handle tt sample_clock (λ _ _, [97; 98]%N) sample_config 60 NoneAlt
    (default_key_bindings Unix) [] [] 5 2).

(** A bell, a search for "a", and a paste. *)
Definition sample_inputs : list input :=
  [UserInput false (TerminalEvent Bell);
   WindowInput (KeyboardInput (press (Character [47%N]) (Some [47%N])));
   WindowInput (KeyboardInput (press (Character [97%N]) (Some [97%N])));
   WindowInput (KeyboardInput (press (Named NamedKey.Escape) (Some [27%N])));
   WindowInput (ImeCommit [97; 98]%N)].

Lemma sample_context_ok mode :
  history_ok (Context.search_state (sample_context mode)) ∧
  timers_ok (Context.scheduler (sample_context mode)).
Proof. split; [split; [simpl; lia|done]|split; [constructor|constructor]]. Qed.

Definition context_after (inputs : list input) : Context.t unit :=
  default (sample_context TermMode.VI) (foldM sample_handle inputs (sample_context TermMode.VI)).

Lemma sample_runs inputs :
  bool_decide (is_Some (foldM sample_handle inputs (sample_context TermMode.VI))) = true →
  foldM sample_handle inputs (sample_context TermMode.VI) = Some (context_after inputs).
Proof.
  unfold context_after. destruct (foldM _ _ _) as [s|]; [done|intros E%bool_decide_eq_true; by destruct E].
Qed.

Lemma sample_runs_one i :
  bool_decide (is_Some (foldM sample_handle [i] (sample_context TermMode.VI))) = true →
  sample_handle i (sample_context TermMode.VI) = Some (context_after [i]).
Proof.
  intros E%sample_runs. cbn [foldM] in E. destruct (sample_handle i _) as [s|]; [|discriminate].
  exact E.
Qed.

Lemma events_keep_context_witness :
  history_ok (Context.search_state (context_after sample_inputs)) ∧
  timers_ok (Context.scheduler (context_after sample_inputs)).
Proof.
  destruct (sample_context_ok TermMode.VI) as [Hh Ht].
  apply (events_keep_context tt sample_clock (λ _ _, [97; 98]%N) sample_config 60 NoneAlt
    (default_key_bindings Unix) [] [] 5 2 sample_inputs (sample_context TermMode.VI)); [exact Hh|exact Ht|].
  apply sample_runs. vm_compute. reflexivity.
Defined.

(** The letter i leaves the vi mode, and is not sent. *)
Definition letter_i : KeyEvent := press (Character [105%N]) (Some [105%N]).
Lemma vi_mode_keys_silent_witness :
  written (context_after [WindowInput (KeyboardInput letter_i)]) = [] ∧
  Context.vi_mode (context_after [WindowInput (KeyboardInput letter_i)]) = false.
Proof.
  destruct (sample_context_ok TermMode.VI) as [Hh Ht]. split; [|by vm_compute].
  apply (vi_mode_keys_silent tt sample_clock (λ _ _, [97; 98]%N) sample_config 60 NoneAlt
    (default_key_bindings Unix) [] [] 5 2 letter_i (sample_context TermMode.VI)).
  - reflexivity.
  - intros hint b Hin%elem_of_nil. destruct Hin.
  - split; [intros h [=]|intros m [=]].
  - exact Hh.
  - exact Ht.
  - by vm_compute.
  - reflexivity.
  - apply sample_runs_one. vm_compute. reflexivity.
Defined.

(** Before the search is cancelled, its first entry is what was typed; the same inputs outside of vi
    mode are sent. *)
Example search_typed :
  SearchState.regex (Context.search_state (context_after (take 3 sample_inputs))) = Some [97%N].
Proof. vm_compute. reflexivity. Qed.

Example keys_sent :
  option_map written (foldM sample_handle sample_inputs (sample_context 0))
  = Some [47; 97; 27; 97; 98]%N.
Proof. vm_compute. reflexivity. Qed.

(** ** Fingers *)

Definition finger (n : N) (x y : Z) : TouchEvent := mkTouchEvent n (x, y).
Definition touched (phase : TouchPhase) (n : N) (x y : Z) : input :=
  WindowInput (Touch phase (finger n x y)).

(** A finger selects, a second one is put down, and both are lifted: the mouse button that the first
    one pressed is never released. *)
Example select_never_released :
  let s := context_after [touched PhaseStarted 1 5 5; touched PhaseMoved 1 35 5;
             touched PhaseStarted 2 5 30; touched PhaseEnded 1 35 5; touched PhaseEnded 2 5 30] in
  Context.touch s = TouchPurpose.NoPurpose ∧
  Mouse.left_button_state (Context.mouse s) = Pressed.
Proof. vm_compute. done. Qed.

(** A third finger is not remembered: the gesture is over as soon as the first two are lifted, and the
    finger that is still on the screen takes part in the next one. *)
Example third_finger_forgotten :
  let s := context_after [touched PhaseStarted 1 5 5; touched PhaseStarted 2 35 5;
             touched PhaseStarted 3 5 30; touched PhaseEnded 1 5 5; touched PhaseEnded 2 35 5] in
  Context.touch s = TouchPurpose.NoPurpose.
Proof. vm_compute. done. Qed.

Lemma touches_tracked_witness :
  tracks {[ 1%N ]} (Context.touch (context_after [touched PhaseStarted 1 5 5])) ∧
  ({[ 1%N ]} = (∅ : gset N) →
   Context.touch (context_after [touched PhaseStarted 1 5 5]) = TouchPurpose.NoPurpose).
Proof.
  apply (touches_tracked tt sample_clock (λ _ _, [97; 98]%N) sample_config 60 NoneAlt
    (default_key_bindings Unix) [] [] 5 2).
  rewrite <- (union_empty_r_L ({[ 1%N ]} : gset N)).
  apply (touching_started _ _ _ _ _ _ _ _ _ _ _ ∅ (finger 1 5 5) (sample_context TermMode.VI)).
  - destruct (sample_context_ok TermMode.VI) as [Hh Ht]. by apply touching_none.
  - apply not_elem_of_empty.
  - apply sample_runs_one. vm_compute. reflexivity.
Defined.

(** A wheel turned by one and a half cells of 20 pixels. *)
Lemma scroll_terminal_exact_witness :
  let s := sample_context 0 in
  ∃ columns lines rx ry s1,
    (signed (0 <? 0) columns * 10 + rx = 0)%Z ∧ (Z.abs rx < 10)%Z ∧
    (signed (0 <? 10) lines * 20 + ry = 30)%Z ∧ (Z.abs ry < 20)%Z ∧
    Inputs.scroll_cells tt sample_clock (λ _ _, [97; 98]%N) sample_config 60 lines columns true false
      (Context.upd_mouse (Mouse.set_accumulated_scroll (0, 30)%Z) s) = Some s1 ∧
    default s (Inputs.scroll_terminal tt sample_clock (λ _ _, [97; 98]%N) sample_config 60 0 10 3 s)
    = Context.upd_mouse (Mouse.set_accumulated_scroll (rx, ry)) s1.
Proof.
  intros s. destruct (sample_context_ok 0) as [Hh Ht].
  apply (scroll_terminal_exact tt sample_clock (λ _ _, [97; 98]%N) sample_config 60 0 10 3 s);
    [lia|simpl; lia|simpl; lia|exact Hh|exact Ht|].
  assert (bool_decide (is_Some (Inputs.scroll_terminal tt sample_clock (λ _ _, [97; 98]%N)
    sample_config 60 0 10 3 s)) = true) as E by (vm_compute; reflexivity).
  apply bool_decide_eq_true in E as [s' E]. rewrite E. reflexivity.
Defined.

(** ** A search *)

(** Vi mode at the start of a screen with a character in the middle; the terminal's cursor is on the
    last line. *)
Definition search_context : Context.t unit :=
  Context.set_terminal (Term.set_mode TermMode.VI (TermSample.typed [Goto 1 2; Input 97%N; Goto 2 0]))
    (sample_context TermMode.VI).
#[local] Abbreviation sample_op := (search_op tt sample_clock sample_config 60).
Definition searched (ops : list SearchOp) : Context.t unit :=
  default search_context (s ← Actions.start_search Right search_context; foldM sample_op ops s).

(** Typing an expression moves the cursor to the match. *)
Example search_moves :
  Context.vi_point (searched [TypeChar 97%N; DelayedSearchFires]) = Pt 1%Z 2.
Proof. vm_compute. reflexivity. Qed.

(** The last of the three lines is taken for the search, the first one moves into the history, and
    the display is scrolled so that it can still be seen. *)
Definition reserve_line (s : Context.t unit) : option (Context.t unit) :=
  s ← Context.upd_terminal (Term.resize 2 4) s;
  Context.upd_terminal (Term.scroll_display (ScrollDelta 1)) s.

(** The search moves, and the start is displayed. *)
Definition search_moved (s1 s1' s2 : Context.t unit) : Prop :=
  small_view (Context.terminal s1') ∧
  Term.mode (Context.terminal s1') = Term.mode (Context.terminal s1) ∧
  Actions.search_active s1' = Actions.search_active s1 ∧
  SearchState.display_offset_delta (Context.search_state s1')
  = SearchState.display_offset_delta (Context.search_state s1) ∧
  SearchState.origin (Context.search_state s1') = SearchState.origin (Context.search_state s1) ∧
  displayed (Context.terminal s1') (Pt (-1)%Z 0) ∧ Context.vi_point s2 ≠ Pt (-1)%Z 0.
#[local] Instance search_moved_dec s1 s1' s2 : Decision (search_moved s1 s1' s2).
Proof. unfold search_moved. apply _. Defined.

(** The four states of a search that is cancelled. *)
Definition search_run (s1 s1' s2 s3 : Context.t unit) : Prop :=
  Actions.start_search Right search_context = Some s1 ∧ reserve_line s1 = Some s1' ∧
  foldM sample_op [TypeChar 97%N] s1' = Some s2 ∧ Actions.cancel_search tt sample_config s2 = Some s3.

Lemma search_run_moves : ∃ s1 s1' s2 s3, search_run s1 s1' s2 s3 ∧ search_moved s1 s1' s2.
Proof.
  assert (match Actions.start_search Right search_context with Some s1 =>
    match reserve_line s1 with Some s1' =>
    match foldM sample_op [TypeChar 97%N] s1' with Some s2 =>
    match Actions.cancel_search tt sample_config s2 with
    | Some _ => bool_decide (search_moved s1 s1' s2)
    | None => false end | None => false end | None => false end | None => false end = true) as Hfacts
    by (vm_compute; reflexivity).
  unfold search_run.
  destruct (Actions.start_search Right search_context) as [s1|]; [|discriminate].
  destruct (reserve_line s1) as [s1'|] eqn:E1; [|discriminate].
  destruct (foldM sample_op [TypeChar 97%N] s1') as [s2|] eqn:E2; [|discriminate].
  destruct (Actions.cancel_search tt sample_config s2) as [s3|] eqn:E3; [|discriminate].
  exists s1, s1', s2, s3. split; [done|]. by apply bool_decide_eq_true in Hfacts.
Qed.

Lemma search_start_moves_up :
  Context.vi_mode search_context = true ∧ search_start search_context = Pt (-1)%Z 0.
Proof. split; vm_compute; reflexivity. Qed.

Lemma search_cancel_restores_witness :
  ∃ s1 s1' s2 s3, search_run s1 s1' s2 s3 ∧
  Term.grid (Context.terminal s3) = Term.grid (Context.terminal s1') ∧
  Context.vi_point s3 = Pt (-1)%Z 0 ∧ Context.vi_point s2 ≠ Pt (-1)%Z 0.
Proof.
  destruct search_run_moves
    as (s1 & s1' & s2 & s3 & (E1 & E1' & E2 & E3) & F1 & F2 & F3 & F4 & F5 & Hd & Hmoved).
  exists s1, s1', s2, s3. split; [exact (conj E1 (conj E1' (conj E2 E3)))|].
  destruct search_start_moves_up as [Hv Es].
  destruct (search_cancel_restores tt sample_clock sample_config 60 Right [TypeChar 97%N]
    search_context s1 s1' s2 s3 Hv E1 (Build_resized _ _ F1 F2 F3 F4 F5) E2 E3) as (_ & Eg & Ep & _).
  rewrite Es in Ep. exact (conj Eg (conj (Ep Hd) Hmoved)).
Defined.

(** ** A paste *)

(** A text that contains the marker for the end of a paste. *)
Definition evil_text : text := Actions.BRACKETED_PASTE_END ++ [108; 115; 10]%N.
Definition pasted : Context.t unit :=
  default (sample_context 0)
    (Actions.paste tt sample_clock sample_config 60 evil_text true
       (sample_context TermMode.BRACKETED_PASTE)).

Lemma paste_contained_witness :
  let bytes := Actions.to_bytes (Actions.paste_filtered evil_text) in
  written pasted = Actions.BRACKETED_PASTE_START ++ bytes ++ Actions.BRACKETED_PASTE_END ∧ (27%N ∉ bytes).
Proof.
  destruct (paste_contained tt sample_clock sample_config 60 evil_text true
    (sample_context TermMode.BRACKETED_PASTE) eq_refl eq_refl) as [Htotal Hall].
  destruct Htotal as [s' E]; [by eexists|reflexivity|].
  destruct (Hall s' E) as (Hw & Hm & _). unfold pasted. rewrite E. split; [exact Hw|].
  by destruct Hm as [Hn _].
Defined.

(** ** A seeded search *)

(** The text under the cursor is searched for as an expression: a parenthesis is escaped, a dot is
    not and stands for any character. *)
Example seeded_dot :
  option_map (λ s : Context.t unit, SearchState.history (Context.search_state s))
    (Actions.start_seeded_search tt sample_clock sample_config 60 Right [97; 46; 40]%N search_context)
  = Some [[97; 46; 92; 40]%N].
Proof. vm_compute. reflexivity. Qed.
End Samples.
