(* ===== verification/DisplayProps.v ===== *)
(** Properties of the display: an update leaves the terminal, the damage and the window with the same
    number of lines and columns, those that fit into the window ([size_for]), and frames are paced by the refresh interval. *)
From stdpp Require Import gmap.
From S2P Require Import Prelude Index Cells TermData Grids Terms TermSafety TermProps Searches Keys Bindings Schedulers.
From S2P Require Import FrameDamages FrameDamageProps Hints HintMatchProps Messages MessageProps Mice Contexts Contents Texts TextProps Rects RectProps Displays.
#[local] Open Scope Z_scope.
#[local] Set Default Proof Using "Type".

(** * Sizes *)

Section Sizes.
Context `{External} `{RegexCompiler} `{Fontique} {W : Type} `{EqDecision W}.
#[local] Abbreviation ctx := (Context.t W).
Implicit Types (c : ctx) (s : Screen.t).

(** Cells are at least one pixel wide and high. *)
Definition metrics_ok (m : TextSystem.TextMetrics) : Prop :=
  PIXEL <= TextSystem.cell_width m ∧ PIXEL <= TextSystem.cell_height m.

Lemma measure_ok coll stack loc font : metrics_ok (TextSystem.measure_metrics coll stack loc font).
Proof.
  unfold metrics_ok, TextSystem.measure_metrics. destruct (default _ _) as [[[? ?] ?] ?].
  cbn. lia.
Qed.

(** The window is not larger than [D] pixels in any direction. *)
Record window_ok (D : nat) (size : DisplaySize.t) : Prop := {
  wo_width : 0 <= DisplaySize.width size <= Z.of_nat D * PIXEL;
  wo_height : 0 <= DisplaySize.height size <= Z.of_nat D * PIXEL;
  wo_lines : (1 <= DisplaySize.screen_lines size <= Nat.max D 1)%nat;
  wo_columns : (2 <= DisplaySize.columns size <= Nat.max D 2)%nat;
}.

Lemma quotient_le a b D : PIXEL <= b → a <= Z.of_nat D * PIXEL → (quotient a b <= D)%nat.
Proof.
  intros Hb Ha. unfold quotient. destruct (Z.leb_spec 0 a).
  - rewrite Z.quot_div_nonneg by (unfold TextSystem.PIXEL in *; lia).
    assert (a / b <= Z.of_nat D); [|lia]. apply Z.div_le_upper_bound; unfold TextSystem.PIXEL in *; nia.
  - assert (Z.quot a b <= 0); [|lia]. rewrite <- (Z.opp_involutive a).
    rewrite Z.quot_opp_l by (unfold TextSystem.PIXEL in *; lia).
    assert (0 <= Z.quot (- a) b); [|lia]. apply Z.quot_pos; unfold TextSystem.PIXEL in *; lia.
Qed.

Lemma new_size_ok D width height cw ch px py dynamic :
  0 <= width <= Z.of_nat D * PIXEL → 0 <= height <= Z.of_nat D * PIXEL → PIXEL <= cw → PIXEL <= ch →
  0 <= px → 0 <= py → window_ok D (DisplaySize.new width height cw ch px py dynamic).
Proof.
  intros Hw Hh Hcw Hch Hpx Hpy.
  assert (∀ p, 0 <= p → 0 <= floor_pixel p) as Hfl by (intros p Hp; unfold floor_pixel, TextSystem.PIXEL;
    pose proof (Z.div_pos p 65536 Hp); lia).
  unfold DisplaySize.new.
  assert (∀ d e f, 0 <= d <= Z.of_nat D * PIXEL → 0 < e → 0 <= f →
    d - DisplaySize.dynamic_padding2 f d e <= Z.of_nat D * PIXEL) as Hrem.
  { intros d e f Hd He Hf. unfold DisplaySize.dynamic_padding2. pose proof (Z.quot_rem' (d - 2 * f) e) as Hqr.
    destruct (Z.leb_spec 0 (d - 2 * f)).
    - pose proof (Z.rem_bound_pos (d - 2 * f) e ltac:(lia) ltac:(lia)). lia.
    - assert (Z.quot (d - 2 * f) e <= 0); [|nia].
      rewrite <- (Z.opp_involutive (d - 2 * f)), Z.quot_opp_l by lia.
      pose proof (Z.quot_pos (- (d - 2 * f)) e ltac:(lia) ltac:(lia)). lia. }
  assert (∃ p2 q2, (if dynamic
    then (DisplaySize.dynamic_padding2 (floor_pixel px) width cw, DisplaySize.dynamic_padding2 (floor_pixel py) height ch)
    else (2 * px, 2 * py)) = (p2, q2) ∧ width - p2 <= Z.of_nat D * PIXEL ∧
    height - q2 <= Z.of_nat D * PIXEL) as (p2 & q2 & -> & Hp2 & Hq2).
  { pose proof (Hfl px Hpx). pose proof (Hfl py Hpy). unfold TextSystem.PIXEL in Hcw, Hch.
    destruct dynamic; eexists _, _; (split; [reflexivity|]); [|lia]. split; apply Hrem; done || lia. }
  pose proof (quotient_le (width - p2) cw D Hcw Hp2). pose proof (quotient_le (height - q2) ch D Hch Hq2).
  split; cbn; try done; unfold DisplaySize.MIN_COLUMNS, DisplaySize.MIN_SCREEN_LINES; lia.
Qed.

(** The cells in a dimension of the window between its paddings; dynamic padding starts from whole
    pixels. *)
Definition cells_in (dimension padding cell : Z) (dynamic : bool) : nat :=
  Z.to_nat ((dimension - 2 * (if dynamic then floor_pixel padding else padding)) / cell).

Lemma to_nat_quot a b : 0 < b → Z.to_nat (Z.quot a b) = Z.to_nat (a / b).
Proof.
  intros Hb. destruct (Z.leb_spec 0 a); [by rewrite Z.quot_div_nonneg by lia|].
  assert (a / b < 0) by (apply Z.div_lt_upper_bound; lia).
  assert (Z.quot a b <= 0); [|lia]. rewrite <- (Z.opp_involutive a), Z.quot_opp_l by lia.
  pose proof (Z.quot_pos (- a) b ltac:(lia) Hb). lia.
Qed.

(** Dynamic padding takes what the cells leave. *)
Lemma quotient_dynamic padding dimension cell :
  0 < cell → quotient (dimension - DisplaySize.dynamic_padding2 padding dimension cell) cell
             = Z.to_nat ((dimension - 2 * padding) / cell).
Proof.
  intros Hc. unfold quotient, DisplaySize.dynamic_padding2. set (x := dimension - 2 * padding).
  replace (dimension - (2 * padding + Z.rem x cell)) with (cell * Z.quot x cell)
    by (pose proof (Z.quot_rem' x cell); unfold x in *; lia).
  rewrite (Z.mul_comm cell), Z.quot_mul by lia. by apply to_nat_quot.
Qed.

Lemma new_size_cells width height cw ch px py dynamic :
  0 < cw → 0 < ch →
  let size := DisplaySize.new width height cw ch px py dynamic in
  DisplaySize.screen_lines size = Nat.max (cells_in height py ch dynamic) 1 ∧
  DisplaySize.columns size = Nat.max (cells_in width px cw dynamic) 2.
Proof.
  intros Hcw Hch. unfold DisplaySize.new, cells_in. destruct dynamic; cbn.
  - by rewrite !quotient_dynamic by done.
  - unfold quotient. by rewrite !to_nat_quot by done.
Qed.

Lemma reserve_ok D n size : window_ok D size → window_ok D (DisplaySize.reserve_lines n size).
Proof. intros [? ? ? ?]. split; try done. cbn. unfold DisplaySize.MIN_SCREEN_LINES. lia. Qed.
End Sizes.

(** * Updates *)

Section Updates.
Context `{External} `{RegexCompiler} `{Fontique} {W : Type} `{EqDecision W}.
#[local] Abbreviation ctx := (Context.t W).
Implicit Types (c : ctx) (s : Screen.t).

(** The terminal, the damage of the frames and the window have [L] lines and [C] columns, and the input
    sees the size of the window. *)
Record agree (D L C : nat) (b : Z) c s : Prop := {
  ag_term : term_ok L C b (Context.terminal c);
  ag_lines : DisplaySize.screen_lines (Screen.size s) = L;
  ag_columns : DisplaySize.columns (Screen.size s) = C;
  ag_shown : Display.size_info (Context.display c) = size_u32 (Screen.size s);
  ag_tracker : tracker_ok (Display.damage_tracker (Context.display c));
  ag_tracker_lines : DamageTracker.screen_lines (Display.damage_tracker (Context.display c)) = L;
  ag_tracker_columns : DamageTracker.columns (Display.damage_tracker (Context.display c)) = C;
  ag_window : window_ok D (Screen.size s);
  ag_metrics : metrics_ok (TextSystem.metrics (Screen.text_system s));
  ag_text : wf (Screen.text_system s);
  ag_surface : 0 <= Screen.max_surface_dimension s <= Z.of_nat D;
  ag_pending : from_option (λ d, 0 <= d.1 ∧ 0 <= d.2) True (DisplayUpdate.dimensions (Screen.pending s));
}.

(** The message, if there is one, can be shown. *)
Definition message_ok c : Prop :=
  ∀ m, MessageBuffer.message (Context.message_buffer c) = Some m →
    ascii_width ∧ Forall printable (Message.content m).

(** There is room for the lines of a window of [D] pixels. *)
Definition room_ok (D L : nat) c : Prop :=
  Z.of_nat (L + Grid.max_scroll_limit (Term.grid (Context.terminal c)) + Nat.max D 1) <= 268435455 ∧
  Z.of_nat (L + Grid.max_scroll_limit (Term.inactive_grid (Context.terminal c)) + Nat.max D 1) <= 268435455.

(** The size of a window of some pixels, for the cells of a font: as many columns and lines as fit between
    the paddings, without the lines of the message bar and that of the search. *)
Record size_for config (pixels : Z * Z) (m : TextSystem.TextMetrics) c (size : DisplaySize.t) : Prop := {
  sf_pixels : (DisplaySize.width size, DisplaySize.height size) = pixels;
  sf_cells : DisplaySize.cell_width size = TextSystem.cell_width m ∧
    DisplaySize.cell_height size = TextSystem.cell_height m;
  sf_columns : DisplaySize.columns size
    = Nat.max (cells_in pixels.1 (padding config).1 (TextSystem.cell_width m) (dynamic_padding config)) 2;
  sf_lines : ∃ bar,
    match MessageBuffer.message (Context.message_buffer c) with
    | Some msg => length <$> message_text msg size = Some bar
    | None => bar = 0%nat
    end ∧
    DisplaySize.screen_lines size
    = Nat.max (cells_in pixels.2 (padding config).2 (TextSystem.cell_height m) (dynamic_padding config)
               - bar - match SearchState.history_index (Context.search_state c) with Some _ => 1 | None => 0 end) 1;
}.

Lemma updated_size_for config dimensions c s size :
  metrics_ok (TextSystem.metrics (Screen.text_system s)) → updated_size config dimensions c s = Some size →
  size_for config (window_pixels dimensions s) (TextSystem.metrics (Screen.text_system s)) c size.
Proof.
  intros [Hcw Hch] E. unfold updated_size in E. apply bind_Some in E as (n & En & [= <-]).
  pose proof (new_size_cells (window_pixels dimensions s).1 (window_pixels dimensions s).2
    (TextSystem.cell_width (TextSystem.metrics (Screen.text_system s)))
    (TextSystem.cell_height (TextSystem.metrics (Screen.text_system s)))
    (padding config).1 (padding config).2 (dynamic_padding config)
    ltac:(unfold TextSystem.PIXEL in *; lia) ltac:(unfold TextSystem.PIXEL in *; lia)) as [El Ec].
  set (size := DisplaySize.new _ _ _ _ _ _ _) in *.
  assert (DisplaySize.width size = (window_pixels dimensions s).1 ∧
    DisplaySize.height size = (window_pixels dimensions s).2 ∧
    DisplaySize.cell_width size = TextSystem.cell_width (TextSystem.metrics (Screen.text_system s)) ∧
    DisplaySize.cell_height size = TextSystem.cell_height (TextSystem.metrics (Screen.text_system s)))
    as (Ew & Eh & Ecw & Ech) by (unfold size, DisplaySize.new; destruct (dynamic_padding config); by split_and!).
  split; cbn; [by destruct (window_pixels dimensions s); subst; f_equal|done|done|].
  exists n. split.
  - unfold message_bar_lines in En. destruct (MessageBuffer.message _); [exact En|by injection En].
  - rewrite El. unfold search_shown, DisplaySize.MIN_SCREEN_LINES.
    destruct (SearchState.history_index _); [rewrite bool_decide_true by eauto|
      rewrite bool_decide_false by (by intros [? ?])]; lia.
Qed.

Lemma updated_size_ok D L C b config dimensions c s :
  agree D L C b c s → message_ok c → 0 <= (padding config).1 → 0 <= (padding config).2 →
  from_option (λ d, 0 <= d.1 ∧ 0 <= d.2) True dimensions →
  ∃ size, updated_size config dimensions c s = Some size ∧ window_ok D size.
Proof.
  intros Ha Hm Hp1 Hp2 Hd. unfold updated_size.
  destruct (ag_window _ _ _ _ _ _ Ha) as [Hw Hh _ _]. pose proof (ag_surface _ _ _ _ _ _ Ha) as Hs.
  destruct (ag_metrics _ _ _ _ _ _ Ha) as [Hcw Hch].
  assert (0 <= (window_pixels dimensions s).1 <= Z.of_nat D * PIXEL ∧
    0 <= (window_pixels dimensions s).2 <= Z.of_nat D * PIXEL) as [Hw' Hh'].
  { unfold window_pixels. destruct dimensions as [[x y]|]; [|done].
    unfold TextSystem.PIXEL in *. cbn in *. nia. }
  pose proof (new_size_ok D _ _ _ _ _ _ (dynamic_padding config) Hw' Hh' Hcw Hch Hp1 Hp2) as Hnew.
  set (size := DisplaySize.new _ _ _ _ _ _ _) in *.
  assert (is_Some (message_bar_lines size c)) as [n ->].
  { unfold message_bar_lines. destruct (MessageBuffer.message _) as [m|] eqn:E; [|by eexists].
    destruct (Hm m E) as [Hwd Hpr]. unfold message_text.
    destruct (text_lines_total (DisplaySize.columns size) ltac:(destruct (wo_columns _ _ Hnew); lia) m
      (quotient (DisplaySize.height size - 2 * DisplaySize.padding_y size) (DisplaySize.cell_height size))
      Hwd Hpr) as (ls & -> & _). by eexists. }
  cbn [mbind option_bind]. eexists. split; [reflexivity|]. by apply reserve_ok.
Qed.

(** What of the display does not change before the new size is set. *)
Definition same_size c s c' s' : Prop :=
  Context.terminal c' = Context.terminal c ∧ Screen.size s' = Screen.size s ∧
  Screen.max_surface_dimension s' = Screen.max_surface_dimension s.

Lemma change_size_ok D L C b size c s :
  agree D L C b c s → window_ok D size → room_ok D L c → b <= 1073741823 →
  let L' := DisplaySize.screen_lines size in
  let C' := DisplaySize.columns size in
  ∃ c' s', change_size size c s = Some (c', s') ∧ Screen.size s' = size ∧
    Screen.text_system s' = Screen.text_system s ∧
    agree D L' C' (b + Z.of_nat (L + L')) c' s' ∧
    Screen.pending s' = Screen.pending s ∧
    Display.pending_dirty (Context.display c') = Display.pending_dirty (Context.display c) ∧
    (if decide (L' = L ∧ C' = C)
     then Context.terminal c' = Context.terminal c ∧ Screen.calls s' = Screen.calls s
     else Screen.calls s' = Screen.calls s ++ [pty_resize size]).
Proof.
  intros Ha Hw [Hr1 Hr2] Hb L' C'. unfold change_size.
  pose proof (wo_lines _ _ Hw) as HL. pose proof (wo_columns _ _ Hw) as HC. fold L' in HL. fold C' in HC.
  assert (∃ c1 s1, resize_cells size c s = Some (c1, s1) ∧
    term_ok L' C' (b + Z.of_nat (L + L')) (Context.terminal c1) ∧
    (tracker_ok (Display.damage_tracker (Context.display c1)) ∧
     DamageTracker.screen_lines (Display.damage_tracker (Context.display c1)) = L' ∧
     DamageTracker.columns (Display.damage_tracker (Context.display c1)) = C') ∧
    Display.pending_dirty (Context.display c1) = Display.pending_dirty (Context.display c) ∧
    Screen.pending s1 = Screen.pending s ∧ Screen.text_system s1 = Screen.text_system s ∧
    Screen.max_surface_dimension s1 = Screen.max_surface_dimension s ∧
    (if decide (L' = L ∧ C' = C)
     then Context.terminal c1 = Context.terminal c ∧ Screen.calls s1 = Screen.calls s
     else Screen.calls s1 = Screen.calls s ++ [pty_resize size]))
    as (c1 & s1 & -> & Ht & Htr & Hd & Hpe & Hts & Hms & Hcalls).
  { unfold resize_cells. rewrite (ag_lines _ _ _ _ _ _ Ha), (ag_columns _ _ _ _ _ _ Ha). fold L' C'.
    pose proof (ag_term _ _ _ _ _ _ Ha) as Ht. destruct (decide (L' = L ∧ C' = C)) as [[-> ->]|Hne].
    - rewrite !Nat.eqb_refl. cbn [andb]. exists c, s. split; [reflexivity|].
      split; [eapply term_ok_weaken; [|exact Ht]; lia|].
      split; [split; [apply Ha|split; apply Ha]|]. split_and!; reflexivity.
    - assert (((L =? L') && (C =? C'))%nat = false) as ->
        by (apply andb_false_iff; rewrite !Nat.eqb_neq; lia).
      unfold Context.upd_terminal. pose proof (resize_term_ok L C L' C' b (Context.terminal c) Ht
        ltac:(lia) ltac:(lia) ltac:(lia) ltac:(lia) Hb) as Hres.
      destruct (Term.resize L' C' (Context.terminal c)) as [t'|]; [|by destruct Hres].
      cbn [mbind option_bind]. eexists _, _. split; [reflexivity|]. split; [exact Hres|].
      split; [split; [apply resize_tracker_ok; lia|split; reflexivity]|]. split_and!; reflexivity. }
  cbn [mbind option_bind]. destruct Htr as (Htr1 & Htr2 & Htr3).
  destruct (bool_decide (size = Screen.size s)) eqn:E.
  - eexists _, _. split; [reflexivity|]. split; [reflexivity|].
    split; [exact Hts|]. split.
    { split; cbn; try done; try (by rewrite ?Hts, ?Hms, ?Hpe; apply Ha). }
    split; [exact Hpe|]. split; [exact Hd|]. exact Hcalls.
  - eexists _, _. split; [reflexivity|]. split; [reflexivity|].
    split; [exact Hts|]. split.
    { split; cbn; try done; try (by rewrite ?Hts, ?Hms, ?Hpe; apply Ha). }
    split; [exact Hpe|]. split; [exact Hd|]. exact Hcalls.
Qed.

Lemma agree_same D L C b c s c' s' :
  agree D L C b c s → Context.terminal c' = Context.terminal c → Screen.size s' = Screen.size s →
  Screen.max_surface_dimension s' = Screen.max_surface_dimension s →
  Display.size_info (Context.display c') = Display.size_info (Context.display c) →
  (tracker_ok (Display.damage_tracker (Context.display c')) ∧
   DamageTracker.screen_lines (Display.damage_tracker (Context.display c')) = L ∧
   DamageTracker.columns (Display.damage_tracker (Context.display c')) = C) →
  metrics_ok (TextSystem.metrics (Screen.text_system s')) → wf (Screen.text_system s') →
  from_option (λ d, 0 <= d.1 ∧ 0 <= d.2) True (DisplayUpdate.dimensions (Screen.pending s')) →
  agree D L C b c' s'.
Proof.
  intros Ha Et Es Em Ed (Htr1 & Htr2 & Htr3) Hm Hwf Hp.
  split; try done; rewrite ?Et, ?Es, ?Em, ?Ed; try apply Ha.
Qed.

(** Setting a new font keeps the sizes. *)
Lemma set_font_ok f (s : TextSystem.t) :
  wf (TextSystem.update_font f s) ∧ metrics_ok (TextSystem.metrics (TextSystem.update_font f s)).
Proof. split; [apply update_font_wf|apply measure_ok]. Qed.

(** The window has the pending font and the size for the pending number of pixels, or for those it
    had. *)
Definition sized config c s s' : Prop :=
  Screen.text_system s'
    = match DisplayUpdate.font (Screen.pending s) with
      | Some font => TextSystem.update_font font (Screen.text_system s)
      | None => Screen.text_system s
      end ∧
  size_for config
    match DisplayUpdate.dimensions (Screen.pending s) with
    | Some d => (Z.min d.1 (Screen.max_surface_dimension s) * PIXEL,
                 Z.min d.2 (Screen.max_surface_dimension s) * PIXEL)
    | None => (DisplaySize.width (Screen.size s), DisplaySize.height (Screen.size s))
    end (TextSystem.metrics (Screen.text_system s')) c (Screen.size s').

(** The increments of the size of the window are its cells, when the configuration asks for them. *)
Definition increments config (m : TextSystem.TextMetrics) : list DisplayCall :=
  if resize_increments config
  then [SetResizeIncrements (TextSystem.cell_width m, TextSystem.cell_height m)] else [].

Lemma handle_update_ok D L C b config c s :
  agree D L C b c s → message_ok c → room_ok D L c → b <= 1073741823 →
  0 <= (padding config).1 → 0 <= (padding config).2 →
  ∃ c' s', handle_update config c s = Some (c', s') ∧
    let L' := DisplaySize.screen_lines (Screen.size s') in
    let C' := DisplaySize.columns (Screen.size s') in
    agree D L' C' (b + Z.of_nat (L + L')) c' s' ∧ sized config c s s' ∧
    Screen.pending s' = DisplayUpdate.default ∧ Display.pending_dirty (Context.display c') = false ∧
    let calls := Screen.calls s ++ increments config (TextSystem.metrics (Screen.text_system s')) in
    if decide (L' = L ∧ C' = C)
    then Context.terminal c' = Context.terminal c ∧ Screen.calls s' = calls
    else Screen.calls s' = calls ++ [pty_resize (Screen.size s')].
Proof.
  intros Ha Hm Hr Hb Hp1 Hp2. unfold handle_update.
  set (c0 := Context.upd_display (Display.set_pending_dirty false) c).
  set (s0 := Screen.set_pending DisplayUpdate.default s).
  assert (∃ c1 s1, match DisplayUpdate.font (Screen.pending s) with
    | Some font => (Context.upd_display Display.mark_fully_damaged c0,
        Screen.set_text_system (TextSystem.update_font font (Screen.text_system s0)) s0)
    | None => (c0, s0) end = (c1, s1) ∧ agree D L C b c1 s1 ∧ message_ok c1 ∧ room_ok D L c1 ∧
    (Screen.text_system s1 = match DisplayUpdate.font (Screen.pending s) with
      | Some font => TextSystem.update_font font (Screen.text_system s)
      | None => Screen.text_system s end ∧
     Screen.size s1 = Screen.size s ∧ Screen.max_surface_dimension s1 = Screen.max_surface_dimension s ∧
     Context.message_buffer c1 = Context.message_buffer c ∧ Context.search_state c1 = Context.search_state c) ∧
    Screen.pending s1 = DisplayUpdate.default ∧ Display.pending_dirty (Context.display c1) = false ∧
    Context.terminal c1 = Context.terminal c ∧ Screen.calls s1 = Screen.calls s)
    as (c1 & s1 & -> & Ha1 & Hm1 & Hr1 & (Ets & Esz & Emx & Emb & Ess) & Ep1 & Ed1 & Et1 & Ec1).
  { destruct (DisplayUpdate.font _) as [f|]; eexists _, _; (split; [reflexivity|]).
    - split; [|by split_and!]. eapply agree_same; [exact Ha|reflexivity..| | | |exact I].
      + split; [|split; apply Ha]. apply (ag_tracker _ _ _ _ _ _ Ha).
      + apply set_font_ok.
      + apply set_font_ok.
    - split; [|by split_and!]. eapply agree_same; [exact Ha|reflexivity..| | | |exact I].
      + split; [|split; apply Ha]. apply (ag_tracker _ _ _ _ _ _ Ha).
      + apply Ha.
      + apply Ha. }
  destruct (updated_size_ok D L C b config (DisplayUpdate.dimensions (Screen.pending s)) c1 s1)
    as (size & Esize & Hw); [done..|apply Ha|]. rewrite Esize. cbn [mbind option_bind].
  apply updated_size_for in Esize as Hfor; [|apply Ha1].
  set (s2 := if resize_increments config then _ else _).
  assert (Screen.calls s2 = Screen.calls s ++ increments config (TextSystem.metrics (Screen.text_system s1)) ∧
    agree D L C b c1 s2 ∧
    Screen.pending s2 = DisplayUpdate.default ∧ Screen.text_system s2 = Screen.text_system s1)
    as (Ec2 & Ha2 & Ep2 & Ets2).
  { unfold s2, increments. destruct (resize_increments config).
    - split; [cbn; by rewrite Ec1|]. split; [|by split].
      eapply agree_same; [exact Ha1|reflexivity..| | | |]; [split; [|split]|..]; apply Ha1.
    - split; [by rewrite app_nil_r|done]. }
  destruct (change_size_ok D L C b size c1 s2 Ha2 Hw Hr1 Hb)
    as (c' & s' & -> & Es' & Ets' & Ha' & Ep' & Ed' & Hcalls).
  exists c', s'. split; [reflexivity|]. rewrite Es'. split; [exact Ha'|].
  split.
  { split; [congruence|]. rewrite Es', Ets', Ets2. unfold window_pixels in Hfor.
    destruct Hfor as [F1 F2 F3 F4]. rewrite Esz, Emx, Emb, Ess in *. by destruct (DisplayUpdate.dimensions _). }
  split; [by rewrite Ep'|]. split; [by rewrite Ed'|]. 
  rewrite Ets', Ets2. by rewrite Et1, Ec2 in Hcalls.
Qed.

Lemma scroll_agree D L C b delta c s :
  agree D L C b c s → -1000000000 <= delta <= 1000000000 →
  ∃ c', Context.upd_terminal (Term.scroll_display (ScrollDelta delta)) c = Some c' ∧ agree D L C b c' s ∧
    Context.display c' = Context.display c.
Proof.
  intros Ha Hd. unfold Context.upd_terminal.
  pose proof (scroll_display_stable (ScrollDelta delta) Hd b _ (ag_term _ _ _ _ _ _ Ha)) as Hs.
  destruct (Term.scroll_display _ _) as [t|]; [|by destruct Hs]. cbn [mbind option_bind].
  eexists. split; [reflexivity|]. split; [|reflexivity]. split; try apply Ha. exact Hs.
Qed.
End Updates.

Section UpdateTheorem.
Context `{External} `{RegexCompiler} `{Fontique} {W : Type} `{EqDecision W}.
#[local] Abbreviation ctx := (Context.t W).
Implicit Types (c : ctx) (s : Screen.t).

(** What an update calls: the increments when the configuration has them, and the pseudoterminal with
    the new size when it changes. *)
Definition told config L C s L' C' s' : Prop :=
  Screen.calls s' = Screen.calls s ++ increments config (TextSystem.metrics (Screen.text_system s')) ++
    (if decide (L' = L ∧ C' = C) then []
     else [PtyResize (Z.of_nat L') (Z.of_nat C')
             (saturate 65535 (DisplaySize.cell_width (Screen.size s')))
             (saturate 65535 (DisplaySize.cell_height (Screen.size s')))]).

(** An update to the new size [L'] and [C']. *)
Record updated (D L C L' C' : nat) b config c s c' s' : Prop := {
  up_agree : agree D L' C' b c' s';
  up_sized : sized config c s s';
  up_size : (1 <= L')%nat ∧ (2 <= C')%nat;
  up_done : Screen.pending s' = DisplayUpdate.default ∧ Display.pending_dirty (Context.display c') = false;
  up_told : told config L C s L' C' s';
}.

Lemma handle_update_updated D L C b config c s :
  agree D L C b c s → message_ok c → room_ok D L c → b <= 1073741823 → Z.of_nat D <= 65535 →
  0 <= (padding config).1 → 0 <= (padding config).2 →
  ∃ c' s' L' C', handle_update config c s = Some (c', s') ∧
    updated D L C L' C' (b + Z.of_nat (L + L')) config c s c' s'.
Proof.
  intros Ha Hm Hr Hb HD Hp1 Hp2.
  destruct (handle_update_ok D L C b config c s Ha Hm Hr Hb Hp1 Hp2)
    as (c1 & s1 & E & Ha1 & Hsized & Ep & Ed & Hcalls).
  pose proof (wo_lines _ _ (ag_window _ _ _ _ _ _ Ha1)) as HwL.
  pose proof (wo_columns _ _ (ag_window _ _ _ _ _ _ Ha1)) as HwC.
  eexists c1, s1, _, _. split; [exact E|]. split; [exact Ha1|exact Hsized|lia|done|].
  unfold told. destruct (decide _) as [_|_]; [destruct Hcalls as [_ ->]; by rewrite app_nil_r|].
  rewrite Hcalls. unfold pty_resize. rewrite !Z.mod_small by lia. by rewrite <- app_assoc.
Qed.

Lemma scroll_updated D L C L' C' b config delta c s c1 s1 :
  updated D L C L' C' b config c s c1 s1 → -1000000000 <= delta <= 1000000000 →
  ∃ c', (c ← Context.upd_terminal (Term.scroll_display (ScrollDelta delta)) c1; Some (c, s1)) = Some (c', s1) ∧
    updated D L C L' C' b config c s c' s1.
Proof.
  intros [Ha Hz Hs [Ep Ed] Ht] Hd. destruct (scroll_agree _ _ _ _ delta c1 s1 Ha Hd) as (c2 & -> & Ha2 & Ed2).
  cbn [mbind option_bind]. exists c2. split; [reflexivity|]. split; [exact Ha2|exact Hz|exact Hs|by rewrite Ed2|exact Ht].
Qed.

(** C34.  A display update does not panic, whatever size and font are pending, in a window of at most
    65535 pixels in each direction that agreed with the terminal, whose lines with the history stay
    below 2^28, as long as the message in the message bar has printable ASCII characters only.  The window gets as many columns and lines as the
    cells of the font have room for between the paddings of the pending or the old number of
    pixels, without the lines of the message and the line of the search, but at least one line
    and two columns.  The terminal and the damage of the frames have the same number of lines and columns
    afterwards, the pseudoterminal is told this size exactly when it changes, and nothing is
    pending any more. *)
Theorem update_keeps_agreement D L C b config (old_is_searching : bool) c s :
  agree D L C b c s → message_ok c → room_ok D L c → b <= 1073741823 → Z.of_nat D <= 65535 →
  0 <= (padding config).1 → 0 <= (padding config).2 →
  ∃ c' s' L' C', submit_display_update config old_is_searching c s = Some (c', s') ∧
    updated D L C L' C' (b + Z.of_nat (L + L')) config c s c' s'.
Proof.
  intros Ha Hm Hr Hb HD Hp1 Hp2. unfold submit_display_update.
  pose proof (term_facts _ _ _ _ (ag_term _ _ _ _ _ _ Ha)) as (EL & EC & EI & HL & HC & HS & Hl & Hc).
  rewrite i32_add_ok by lia. cbn [mbind option_bind].
  assert (∃ o, (if Context.vi_mode c
     then last ← i32_sub (Z.of_nat (screen_lines (Context.terminal c))) 1;
          Some (line (Context.vi_point c) =? last)
     else Some (bool_decide (SearchState.direction (Context.search_state c) = Left))) = Some o) as [o ->].
  { destruct (Context.vi_mode c); [|by eexists].
    rewrite i32_sub_ok by (change (Index.screen_lines (Context.terminal c)) with (screen_lines (Context.terminal c)); lia).
    by eexists. }
  cbn [mbind option_bind].
  destruct (handle_update_updated D L C b config c s Ha Hm Hr Hb HD Hp1 Hp2) as (c1 & s1 & L' & C' & -> & Hu).
  cbn [mbind option_bind]. destruct (negb old_is_searching && _); [|by exists c1, s1, L', C'].
  destruct (_ && _ && _); [|destruct (_ && _); [|by exists c1, s1, L', C']].
  - destruct (scroll_updated _ _ _ _ _ _ _ 1 _ _ _ _ Hu ltac:(lia)) as (c2 & E & Hu2). by exists c2, s1, L', C'.
  - destruct (scroll_updated _ _ _ _ _ _ _ (-1) _ _ _ _ Hu ltac:(lia)) as (c2 & E & Hu2). by exists c2, s1, L', C'.
Qed.
End UpdateTheorem.

(** * The pace of the frames *)

Section Pace.
Import FrameTimer.
#[local] Open Scope N_scope.

(** The interval is a positive number of microseconds, as for a monitor; frames are synchronised less
    than a microsecond after multiples of it. *)
Record paced (interval : N) (s : t) : Prop := {
  pa_interval : refresh_interval s = interval;
  pa_micros : (1000 | interval) ∧ 0 < interval;
  pa_base : base s <= last_synced_timestamp s;
  pa_aligned : (last_synced_timestamp s - base s) mod interval < 1000;
}.

Lemma late_aligned elapsed interval :
  (1000 | interval) → 0 < interval → elapsed / 1000 < 18446744073709551616 → interval / 1000 < 18446744073709551616 →
  let late := elapsed / 1000 mod 18446744073709551616 mod (interval / 1000 mod 18446744073709551616) * 1000 in
  interval / 1000 mod 18446744073709551616 ≠ 0 ∧ late <= elapsed ∧ elapsed < elapsed - late + interval ∧
  (elapsed - late) mod interval < 1000.
Proof.
  intros [R ->] Hpos He Hi. rewrite N.div_mul in * by lia.
  rewrite (N.mod_small (elapsed / 1000)), (N.mod_small R) by lia. cbv zeta.
  assert (R ≠ 0) as HR by lia. set (q := elapsed / 1000) in *.
  pose proof (N.div_mod elapsed 1000 ltac:(lia)) as Ee. fold q in Ee.
  pose proof (N.mod_lt elapsed 1000 ltac:(lia)) as Hr. set (r := elapsed mod 1000) in *.
  pose proof (N.div_mod q R HR) as Eq. pose proof (N.mod_lt q R HR) as Hq.
  set (m := q mod R) in *. set (k := q / R) in *.
  assert (elapsed = k * (R * 1000) + m * 1000 + r) as E by lia.
  split; [done|]. split; [lia|]. split; [nia|].
  replace (elapsed - m * 1000) with (r + k * (R * 1000)) by lia.
  rewrite N.Div0.mod_add, N.mod_small by lia. done.
Qed.

(** C35.  With a constant refresh interval of whole microseconds, the timeouts for the frames do not
    panic and keep the frames synchronised: a frame that is late is drawn at once, and otherwise the
    next frame is drawn less than a microsecond after a multiple of the interval since the base; when
    the last frame is not ahead of the clock, the timeout is at most one interval.  A second timeout
    that is asked for before that frame is for the frame after it, and so may be longer. *)
Theorem timeout_paced (interval now : N) (s : t) :
  paced interval s → base s <= now → (now - base s) / 1000 < 18446744073709551616 →
  interval / 1000 < 18446744073709551616 →
  ∃ timeout s', compute_timeout now interval s = Some (timeout, s') ∧ paced interval s' ∧
    base s' = base s ∧
    (if last_synced_timestamp s + interval <? now
     then timeout = 0 ∧ last_synced_timestamp s' <= now < last_synced_timestamp s' + interval
     else last_synced_timestamp s' = now + timeout) ∧
    (last_synced_timestamp s <= now → timeout <= interval).
Proof.
  intros [Ei [Hm Hpos] Hb Ha] Hnow He Hi. unfold compute_timeout. rewrite Ei, N.eqb_refl. cbn [negb].
  destruct (N.ltb_spec (last_synced_timestamp s + interval) now) as [Hlate|Hearly].
  - destruct (late_aligned (now - base s) interval Hm Hpos He Hi) as (Hr & Hle & Hlt & Hal).
    apply N.eqb_neq in Hr. rewrite Hr. cbn [negb ensure mbind option_bind].
    set (late := _ mod _ * 1000) in *. rewrite ensure_ok by (apply N.leb_le; lia). cbn [mbind option_bind].
    eexists _, _. split; [reflexivity|]. cbn [base last_synced_timestamp refresh_interval].
    split; [split; cbn; try done; [lia|]|split; [done|split; [lia|lia]]].
    by replace (now - late - base s) with (now - base s - late) by lia.
  - eexists _, _. split; [reflexivity|]. cbn [base last_synced_timestamp refresh_interval].
    split; [split; cbn; try done; [lia|]|split; [done|split; [lia|lia]]].
    replace (last_synced_timestamp s + interval - base s)
      with (last_synced_timestamp s - base s + 1 * interval) by lia.
    by rewrite N.Div0.mod_add.
Qed.

(** The first timeout for an interval is the interval, and the pace starts then. *)
Lemma first_timeout (interval now : N) (s : t) :
  (1000 | interval) → 0 < interval → refresh_interval s ≠ interval →
  ∃ s', compute_timeout now interval s = Some (interval, s') ∧ paced interval s'.
Proof.
  intros Hm Hpos Hne. unfold compute_timeout. rewrite (proj2 (N.eqb_neq _ _) Hne). cbn [negb].
  eexists. split; [reflexivity|]. split; cbn; [done|done|lia|]. rewrite N.sub_diag, N.Div0.mod_0_l. lia.
Qed.
End Pace.

(** Two timeouts in one interval: the second one is longer than the interval. *)
Example second_timeout_longer :
  let s := FrameTimer.mk 0 0 16666000 in
  ('(a, s) ← FrameTimer.compute_timeout 1000 16666000 s;
   '(b, _) ← FrameTimer.compute_timeout 2000 16666000 s; Some (a, b)) = Some (16665000, 33330000)%N.
Proof. vm_compute. reflexivity. Qed.

(** At 60 frames per second: a frame that is 100 microseconds late, and the one after it. *)
Lemma timeout_paced_witness :
  ∃ s1 s2 s3, FrameTimer.compute_timeout 5000 16666000 (FrameTimer.new 0) = Some (16666000, s1)%N ∧
    FrameTimer.compute_timeout 16771500 16666000 s1 = Some (0, s2)%N ∧
    FrameTimer.compute_timeout 16800000 16666000 s2 = Some (16537500, s3)%N.
Proof.
  destruct (first_timeout 16666000 5000 (FrameTimer.new 0)) as (s1 & E1 & Hp1); [by exists 16666%N|done|done|].
  exists s1. pose proof E1 as E1'. vm_compute in E1'. injection E1' as <-.
  destruct (timeout_paced 16666000 16771500 _ Hp1) as (t2 & s2 & E2 & Hp2 & _); [done..|].
  exists s2. pose proof E2 as E2'. vm_compute in E2'. injection E2' as <- <-.
  destruct (timeout_paced 16666000 16800000 _ Hp2) as (t3 & s3 & E3 & _); [done..|].
  exists s3. pose proof E3 as E3'. vm_compute in E3'. injection E3' as <- <-.
  split; [exact E1|]. split; [exact E2|exact E3].
Defined.

(** * A sample window *)

Module ScreenSample.
#[export] Existing Instances Sample.external FontSample.fonts HintMatchProps.Single HintMatchProps.single_compiler.

(** A window of 40 by 60 pixels, with four columns and three lines; it shall have 75 by 100 pixels. *)
Definition size : DisplaySize.t :=
  DisplaySize.new 2621440 3932160 655360 1310720 0 0 false.
Definition screen : Screen.t :=
  Screen.mk size FontSample.system (DisplayUpdate.mk (Some (75, 100)) None) None 0 0 None 1000 [].
Definition context (t : Term.t) : Context.t unit :=
  Context.mk t (Mouse.default 0) TouchPurpose.NoPurpose ModifiersState.empty (false, false)
    (Display.mk (size_u32 size) false (HintState.new [97; 98]%N) None None true (DamageTracker.new 3 4)
       None true 0 IconText false)
    [] false None Scheduler.new SearchState.default InlineSearchState.default false false [].

Lemma agrees b t : term_ok 3 4 b t → agree 1000 3 4 b (context t) screen.
Proof.
  intros Ht. split; try done.
  - by apply resize_tracker_ok; lia.
  - apply new_size_ok; unfold TextSystem.PIXEL; lia.
Qed.
End ScreenSample.

Lemma update_keeps_agreement_witness :
  wp (Term.new TermSample.config 3 4) (λ t, ∃ c' s' L' C',
    submit_display_update (mkDisplayConfig (0, 0) false false) false (ScreenSample.context t) ScreenSample.screen
      = Some (c', s') ∧ updated 1000 3 4 L' C' (268435455 + Z.of_nat (3 + L')) (mkDisplayConfig (0, 0) false false)
      (ScreenSample.context t) ScreenSample.screen c' s').
Proof.
  eapply wp_mono; [apply TermSample.new_is_ok|]. intros t (Ht & E1 & E2).
  apply (update_keeps_agreement 1000 3 4 268435455 (mkDisplayConfig (0, 0) false false) false
    (ScreenSample.context t) ScreenSample.screen).
  - by apply ScreenSample.agrees.
  - intros m. cbn. done.
  - split; cbn [Context.terminal ScreenSample.context]; rewrite ?E1, ?E2; lia.
  - lia.
  - lia.
  - done.
  - done.
Defined.
