(* ===== verification/Draws.v ===== *)
(** Drawing a frame ([Display::draw] of [cutty/src/display/mod.rs]): from the content of the terminal to
    the layers of a scene, with the damage of the frame.

    The scene is the list of what is painted, in order.  The intensity of the bell and the text of the
    render timer are numbers of the clock; the surface, the presentation of the frame and the position
    of the input method are left out. *)
From stdpp Require Import gmap.
From S2P Require Import Prelude Index Cells TermData Selections Grids Terms Handlers Searches Keys Bindings Schedulers.
From S2P Require Import FrameDamages Hints Messages Shorteners Mice Contexts ColorLists Contents Texts Rects Paints Displays.
#[local] Open Scope Z_scope.

(** [as i32] of a length in pixels saturates. *)
Definition to_i32 (z : Z) : Z := Z.max (-2147483648) (Z.min 2147483647 (Z.quot z PIXEL)).

(** The color and the opacity of damage that is highlighted: 0.5 as the bits of an [f32]. *)
Definition DAMAGE_RECT_COLOR `{External} `{!VteColors} : Rgb := rgb_new 255 0 255.
Definition ALPHA_HALF : N := 1056964608.

(** What is painted: a rectangle or a run of glyphs. *)
Inductive Layer `{External} := Fill (r : RenderRect) | Run (d : DrawGlyphs).

Record DrawConfig `{External} := mkDrawConfig {
  draw_content : ContentConfig;
  draw_colors : list Rgb;
  cursor_thickness : Z;
  bell_color : Rgb;
}.

(** The state of painting: the scene, the rectangles that are painted over it, the batch of glyphs, the
    text system and the damage. *)
Module Paint.
Section ops.
Context `{External} `{Fontique}.
Record t := mk {
  scene : list Layer;
  rects : list RenderRect;
  batch : GlyphBatch.t;
  text_system : TextSystem.t;
  tracker : DamageTracker.t;
}.
Implicit Types p : t.
Definition add_rects (rs : list RenderRect) p : t :=
  mk (scene p) (rects p ++ rs) (batch p) (text_system p) (tracker p).
Definition set_tracker (x : DamageTracker.t) p : t :=
  mk (scene p) (rects p) (batch p) (text_system p) x.
(** [paint_rects] of what was collected. *)
Definition flush_rects p : t :=
  mk (scene p ++ (Fill <$> rects p)) [] (batch p) (text_system p) (tracker p).

(** Damage of a line in this frame and in the next one. *)
Definition damage_line (damage : LineDamageBounds.t) p : option t :=
  f ← FrameDamage.damage_line damage (DamageTracker.frame (tracker p));
  n ← FrameDamage.damage_line damage (DamageTracker.next_frame (tracker p));
  Some (set_tracker (DamageTracker.set_next_frame n (DamageTracker.set_frame f (tracker p))) p).
End ops.
#[global] Arguments t {_ _}.
#[global] Arguments mk {_ _} _ _ _ _ _.
End Paint.

Section drawing.
Context `{External} `{!VteColors} `{!CursorShapes} `{RegexCompiler} `{GlyphRuns} {W : Type} `{EqDecision W}.
Import Context.
#[local] Abbreviation ctx := (Context.t W).
Implicit Types (c : ctx) (s : Screen.t) (p : Paint.t).
Context (config : DrawConfig).
#[local] Abbreviation colors := (colors_config (draw_content config)).

(** [paint_string_cells]. *)
Definition paint_string (size : DisplaySize.t) (point : GPoint nat) (fg bg : Rgb) (s : text) p :
    option Paint.t :=
  '(rs, (glyphs, batch, text_system)) ←
    paint_string_cells size point fg bg s ([], Paint.batch p, Paint.text_system p);
  Some (Paint.mk (Paint.scene p ++ (Fill <$> rs) ++ (Run <$> glyphs)) (Paint.rects p) batch text_system
          (Paint.tracker p)).

(** [draw_line_indicator]. *)
Definition draw_line_indicator (size : DisplaySize.t) (total_lines : nat) (obstructed_column : option nat)
    (line : nat) p : option Paint.t :=
  last_line ← usize_sub total_lines 1;
  let text := [91%N] ++ digits (N.of_nat line) ++ [47%N] ++ digits (N.of_nat last_line) ++ [93%N] in
  let column := (DisplaySize.columns size - length text)%nat in
  right ← usize_sub (DisplaySize.columns size) 1;
  p ← Paint.damage_line (LineDamageBounds.new 0 column right) p;
  let fg := default (primary_background (primary colors)) (line_indicator_foreground colors) in
  let bg := default (primary_foreground (primary colors)) (line_indicator_background colors) in
  if match obstructed_column with None => true | Some o => (o <? column)%nat end
  then paint_string size (Pt 0%nat column) fg bg text p
  else Some p.

(** [draw_search]. *)
Definition draw_search (size : DisplaySize.t) (s : text) p : option Paint.t :=
  paint_string size (Pt (DisplaySize.screen_lines size) 0%nat) (footer_bar_foreground colors)
    (footer_bar_background colors) (pad_right (DisplaySize.columns size) s) p.

(** The text of [draw_ime_preview], from the cursor on if what is after it does not fit. *)
Definition ime_text (num_cols : nat) (preedit : Preedit.t) : option text :=
  match Preedit.cursor_byte_offset preedit, Preedit.cursor_end_offset preedit with
  | Some byte_offset, Some end_offset =>
      if (num_cols <? end_offset.1)%nat then
        rest ← text_from byte_offset.1 (Preedit.text preedit);
        StrShortener.shorten rest num_cols ShortenRight (Some SHORTENER)
      else StrShortener.shorten (Preedit.text preedit) num_cols ShortenLeft (Some SHORTENER)
  | _, _ => StrShortener.shorten (Preedit.text preedit) num_cols ShortenLeft (Some SHORTENER)
  end.

(** The cursor of [draw_ime_preview]. *)
Definition ime_cursor (size : DisplaySize.t) (point : GPoint nat) (end_column : nat) (fg : Rgb)
    (end_offset : nat * nat) : option (list RenderRect) :=
  width ← usize_sub end_offset.1 end_offset.2;
  let '(shape, width) :=
    if (width =? 0)%nat then (shape_Beam, 1%nat) else (CursorShape_HollowBlock, width) in
  let column := Z.to_nat (Z.max (Z.of_nat end_column - Z.of_nat end_offset.1 + 1) 0) in
  Some (cursor_rects size (cursor_thickness config)
          (CursorCell.new (Pt (line point) column) shape fg width)).

(** [draw_ime_preview]; there is a text to preview only while the input method is enabled. *)
Definition draw_ime_preview (size : DisplaySize.t) (point : GPoint nat) (fg bg : Rgb)
    (preedit : option Preedit.t) p : option Paint.t :=
  match preedit with
  | None => Some p
  | Some preedit =>
      let num_cols := DisplaySize.columns size in
      visible_text ← ime_text num_cols preedit;
      let visible_len := text_cell_width visible_text in
      let end_ := Nat.min (column point + visible_len) num_cols in
      let start := (end_ - visible_len)%nat in
      last ← usize_sub end_ 1;
      p ← paint_string size (Pt (line point) start) fg bg visible_text p;
      p ← (if (line point <? DisplaySize.screen_lines size)%nat
           then Paint.damage_line (LineDamageBounds.new (line point) 0 num_cols) p else Some p);
      underline ← rects (TextSystem.metrics (Paint.text_system p)) size Flags.UNDERLINE
                    (mkRenderLine (Pt (line point) start) (Pt (line point) last) fg);
      cursor ← (match Preedit.cursor_end_offset preedit with
                | Some end_offset => ime_cursor size point last fg end_offset
                | None => Some []
                end);
      Some (Paint.add_rects (underline ++ cursor) p)
  end.

(** [draw_hyperlink_preview]. *)
Definition draw_hyperlink_preview (size : DisplaySize.t) (display_offset : nat)
    (hints : list HintMatch.t) (mouse_line cursor_line : option Z) p : option Paint.t :=
  let num_cols := DisplaySize.columns size in
  uris ← mapM (λ link, StrShortener.shorten (hl_uri link) num_cols ShortenRight (Some SHORTENER))
           (omap HintMatch.hyperlink hints);
  let lines := preview_lines (DisplaySize.screen_lines size) display_offset (length uris) mouse_line cursor_line in
  points ← mapM (λ l, point_to_viewport display_offset (Pt l 0%nat)) lines;
  foldM (λ '(uri, point) p,
    p ← Paint.damage_line (LineDamageBounds.new (line point) (column point) num_cols) p;
    paint_string size point (footer_bar_foreground colors) (footer_bar_background colors) uri p)
    (zip uris (omap id points)) p.

(** [draw_render_timer]: the text of the timer, if it is shown. *)
Definition draw_render_timer (size : DisplaySize.t) (timing : option text) p : option Paint.t :=
  match timing with
  | None => Some p
  | Some timing =>
      let line := (DisplaySize.screen_lines size - 2)%nat in
      p ← Paint.damage_line (LineDamageBounds.new line 0 (length timing)) p;
      paint_string size (Pt line 0%nat) (primary_background (primary colors)) (red (normal colors)) timing p
  end.

(** The message bar: its background, its lines and its damage, in whole pixels. *)
Definition draw_message (size : DisplaySize.t) (searching : bool) (m : Message.t) p : option Paint.t :=
  text ← message_text m size;
  let start_line := (DisplaySize.screen_lines size + (if searching then 1 else 0))%nat in
  let y := DisplaySize.cell_height size * Z.of_nat start_line + DisplaySize.padding_y size in
  let bg := match Message.ty m with
            | MessageError => red (normal colors) | MessageWarning => yellow (normal colors) end in
  let width := to_i32 (DisplaySize.width size) in
  let height := to_i32 (DisplaySize.height size - y) in
  let p := Paint.add_rects [RenderRect_new 0 y (width * PIXEL) (height * PIXEL) bg ALPHA_ONE] p in
  f ← FrameDamage.add_viewport_rect (to_i32 (DisplaySize.height size)) 0 (to_i32 y) width height
        (DamageTracker.frame (Paint.tracker p));
  let p := Paint.set_tracker (DamageTracker.set_frame f (Paint.tracker p)) p in
  foldM (λ '(i, line), paint_string size (Pt (start_line + i)%nat 0%nat) (primary_background (primary colors)) bg line)
    (imap pair text) (Paint.flush_rects p).

(** [highlight_damage]: the damage is painted when it is debugged. *)
Definition highlight_damage (size : DisplaySize.t) p : option Paint.t :=
  if negb (DamageTracker.debug (Paint.tracker p)) then Some p
  else
    damaged ← DamageTracker.shape_frame_damage (size_u32 size) (Paint.tracker p);
    rs ← mapM (λ r : DamageRect.t,
      y ← FrameDamage.damage_y_to_viewport_y (to_i32 (DisplaySize.height size)) r;
      Some (RenderRect_new (DamageRect.x r * PIXEL) (y * PIXEL) (DamageRect.width r * PIXEL)
              (DamageRect.height r * PIXEL) DAMAGE_RECT_COLOR ALPHA_HALF)) damaged;
    Some (Paint.mk (Paint.scene p ++ (Fill <$> rs)) (Paint.rects p) (Paint.batch p) (Paint.text_system p)
            (Paint.tracker p)).

(** ** The damage of the frame *)

(** The damage of the terminal, of highlights, of the cursor of the vi mode and of the selection. *)
Definition frame_damage (display_offset : nat) (selection : option SelectionRange.t) (bell : bool) c s :
    option (ctx * Screen.t) :=
  '(damage, term) ← Term.collect_damage (terminal c);
  tracker ← DamageTracker.add_terminal_damage damage (Display.damage_tracker (display c));
  let c := upd_display (Display.set_damage_tracker tracker) (set_terminal (Term.reset_damage term) c) in
  '(c, s) ← validate_hint_highlights display_offset c s;
  let tracker := Display.damage_tracker (display c) in
  let full := bell || HintState.active (Display.hint_state (display c))
              || bool_decide (is_Some (SearchState.regex (search_state c))) in
  let tracker :=
    if full then
      DamageTracker.set_next_frame (FrameDamage.mark_fully_damaged (DamageTracker.next_frame tracker))
        (DamageTracker.set_frame (FrameDamage.mark_fully_damaged (DamageTracker.frame tracker)) tracker)
    else tracker in
  vi_point ← (if vi_mode c then point_to_viewport display_offset (vi_point c) else Some None);
  tracker ← DamageTracker.damage_vi_cursor vi_point tracker;
  tracker ← DamageTracker.damage_selection selection display_offset tracker;
  Some (upd_display (Display.set_damage_tracker tracker) c, s).

(** The cells of highlighted hints are underlined and damaged, and the lines of the text are collected. *)
Definition highlight_cell (display_offset : nat) (hints : list HintMatch.t) (cell : RenderableCell.t)
    (st : list RenderableCell.t * RenderLines * DamageTracker.t) :
    option (list RenderableCell.t * RenderLines * DamageTracker.t) :=
  let '(cells, lines, tracker) := st in
  '(cell, tracker) ← (
    if Cell.is_nil hints then Some (cell, tracker)
    else
      point ← viewport_to_point display_offset (RenderableCell.point cell);
      let hyperlink := extra ← RenderableCell.extra cell; extra.2 in
      if existsb (λ hint, HintMatch.should_highlight hint point hyperlink) hints then
        f ← FrameDamage.damage_point (RenderableCell.point cell) (DamageTracker.frame tracker);
        Some (RenderableCell.mk (RenderableCell.character cell) (RenderableCell.point cell)
                (RenderableCell.fg cell) (RenderableCell.bg cell) (RenderableCell.bg_alpha cell)
                (RenderableCell.underline cell) (Flags.insert (RenderableCell.flags cell) Flags.UNDERLINE)
                (RenderableCell.extra cell), DamageTracker.set_frame f tracker)
      else Some (cell, tracker));
  lines ← update cell lines;
  Some (cells ++ [cell], lines, tracker).

(** ** Above the cells *)

(** The position of the input method: in the search bar or at the cursor. *)
Definition draw_bars (size : DisplaySize.t) (display_offset : nat) (cursor_point : Point)
    (vi_viewport_point : option (GPoint nat)) (fg bg : Rgb) c p : option Paint.t :=
  let preedit := Display.preedit (display c) in
  '(position, fg, bg, p) ← (
    match SearchState.regex (search_state c) with
    | Some regex =>
        search_text ← format_search regex (search_label (SearchState.direction (search_state c)))
                        (DisplaySize.columns size);
        p ← draw_search size search_text p;
        column ← usize_sub (length search_text) 1;
        let point := Pt (DisplaySize.screen_lines size) column in
        let fg := footer_bar_foreground colors in
        let p :=
          match preedit with
          | None => Paint.add_rects (cursor_rects size (cursor_thickness config)
                      (CursorCell.new point shape_Underline fg 1)) p
          | Some _ => p
          end in
        Some (Some point, fg, footer_bar_background colors, p)
    | None =>
        point ← (match vi_viewport_point with
                 | Some point => Some (Some point)
                 | None =>
                     point ← point_to_viewport display_offset cursor_point;
                     Some (point ← point;
                           if (line point <? DisplaySize.screen_lines size)%nat then Some point else None)
                 end);
        Some (point, fg, bg, p)
    end);
  match position with
  | Some point =>
      preedit ← (match preedit with
                 | Some (t, offset) => preedit ← Preedit.new t offset; Some (Some preedit)
                 | None => Some None
                 end);
      draw_ime_preview size point fg bg preedit p
  | None => Some p
  end.

(** The line indicator, in vi mode or while searching. *)
Definition draw_indicator (size : DisplaySize.t) (display_offset total_lines : nat) (vi_point : option Point) c p :
    option Paint.t :=
  match vi_point with
  | Some point =>
      bottom ← i32_sub (as_i32 (DisplaySize.screen_lines size)) 1;
      l ← i32_add (- line point) bottom;
      draw_line_indicator size total_lines
        (if line point =? - as_i32 display_offset then Some (column point) else None) (as_usize l) p
  | None =>
      match SearchState.regex (search_state c) with
      | Some _ => draw_line_indicator size total_lines None display_offset p
      | None => Some p
      end
  end.

(** [draw]: the layers of the scene, the color behind them, and the state after the frame. *)
Definition draw (fuel rfuel : nat) (bell_intensity : N) (timing : option text)
    (batch : GlyphBatch.t) c s : option (list Layer * Rgb * GlyphBatch.t * ctx * Screen.t) :=
  let term := terminal c in
  '(visible, dfas) ← (
    match SearchState.dfas (search_state c) with
    | Some dfas => '(ms, dfas) ← VisibleMatches.collect rfuel term dfas; Some (Some ms, Some dfas)
    | None => Some (None, None)
    end);
  hint_state ← (if HintState.active (Display.hint_state (display c))
                then HintState.update_matches rfuel term (Display.hint_state (display c))
                else Some (Display.hint_state (display c)));
  let overlay := if HintState.active (Display.hint_state (display c))
                 then Some (HintOverlay.from hint_state) else None in
  content ← Content.new (draw_content config) term (Display.cursor_hidden (display c))
              (bool_decide (is_Some (SearchState.regex (search_state c))))
              (bool_decide (is_Some (Display.preedit (display c)))) visible
              (SearchState.focused_match (search_state c)) overlay (draw_colors config)
              (DisplaySize.columns (Screen.size s));
  '(cells, content) ← Content.drain fuel fuel (Term.grid term) content;
  let selection := RenderableContent.selection (Content.terminal_content content) in
  fg ← Content.named Foreground content;
  bg ← Content.named Background content;
  let display_offset := RenderableContent.display_offset (Content.terminal_content content) in
  cursor ← Content.into_cursor fuel (Term.grid term) content;
  let c := upd_search (SearchState.set_dfas dfas) (upd_display (Display.set_hint_state hint_state) c) in
  let size := Screen.size s in
  let vi_point := if vi_mode c then Some (vi_point c) else None in
  '(c, s) ← frame_damage display_offset selection (negb (bell_intensity =? 0)%N) c s;
  vi_viewport_point ← (match vi_point with
                       | Some point => point_to_viewport display_offset point
                       | None => Some None
                       end);
  let hints := option_list (Display.highlighted_hint (display c))
               ++ option_list (Display.vi_highlighted_hint (display c)) in
  '(cells, lines, tracker) ←
    foldM (highlight_cell display_offset hints) cells ([], RenderLines_new, Display.damage_tracker (display c));
  '(glyphs, batch, text_system) ←
    paint_cell_texts size cells ([], batch, Screen.text_system s);
  line_rects ← all_rects (TextSystem.metrics (Screen.text_system s)) size lines;
  let p := Paint.mk ((Fill <$> paint_cell_backgrounds size cells) ++ (Run <$> glyphs)) line_rects batch
             text_system tracker in
  p ← draw_indicator size display_offset (total_lines term) vi_point c p;
  let p := Paint.add_rects (cursor_rects size (cursor_thickness config) cursor) p in
  let p := if (bell_intensity =? 0)%N then p
           else Paint.add_rects [RenderRect_new 0 0 (DisplaySize.width size) (DisplaySize.height size)
                  (bell_color config) bell_intensity] p in
  p ← draw_bars size display_offset (Term.cursor_point term) vi_viewport_point fg bg c p;
  p ← (match MessageBuffer.message (message_buffer c) with
       | Some m => draw_message size (bool_decide (is_Some (SearchState.regex (search_state c)))) m p
       | None => Some (Paint.flush_rects p)
       end);
  p ← draw_render_timer size timing p;
  p ← (if Cell.is_nil hints then Some p
       else draw_hyperlink_preview size display_offset hints (line <$> Screen.hint_mouse_point s)
              (Some (line (default (Term.cursor_point term) vi_point))) p);
  p ← highlight_damage size p;
  let c := upd_display (Display.set_damage_tracker (DamageTracker.swap_damage (Paint.tracker p))) c in
  Some (Paint.scene p, bg, Paint.batch p, c, Screen.set_text_system (Paint.text_system p) s).
End drawing.
