(* ===== verification/FontSizes.v ===== *)
(** Sizes of fonts ([cutty/src/config/font.rs], and the changes of the size in [cutty/src/event.rs]).

    The numbers are exact: an [f32] is a binary floating-point number with 24 bits of precision of
    the standard library's [SpecFloat], with the operations rounded to nearest, ties to even. *)
From Stdlib Require Import SpecFloat.
From S2P Require Import Prelude Cells Texts.
#[local] Open Scope Z_scope.

Abbreviation f32 := spec_float.

Module F32.
Definition PREC : Z := 24.
Definition EMAX : Z := 128.
Definition of_Z (z : Z) : f32 := binary_normalize PREC EMAX z 0 false.
Definition mul (x y : f32) : f32 := SFmul PREC EMAX x y.
Definition div (x y : f32) : f32 := SFdiv PREC EMAX x y.
Definition add (x y : f32) : f32 := SFadd PREC EMAX x y.

(** [round]: to the nearest integer, halves away from zero. *)
Definition round (x : f32) : f32 :=
  match x with
  | S754_finite s m e =>
      if 0 <=? e then x
      else
        let n := Z.shiftr (Z.pos m + Z.shiftl 1 (- e - 1)) (- e) in
        binary_normalize PREC EMAX (if s then - n else n) 0 s
  | x => x
  end.

(** [to_bits]; a number is not one in any of several ways, here in one. *)
Definition to_bits (x : f32) : N :=
  let sign (s : bool) := if s then 2147483648%N else 0%N in
  match x with
  | S754_zero s => sign s
  | S754_infinity s => (sign s + 2139095040)%N
  | S754_nan => 2143289344%N
  | S754_finite s m e =>
      let m := Z.pos m in
      let bits := if m <? 8388608 then m else Z.shiftl (e + 150) 23 + (m - 8388608) in
      (sign s + Z.to_N bits)%N
  end.

Definition eqb (x y : f32) : bool := SFeqb x y.
End F32.

(** [as f32] of an [f64]. *)
Definition f32_of_f64 (x : spec_float) : f32 :=
  match x with
  | S754_finite s m e => binary_normalize F32.PREC F32.EMAX (if s then - Z.pos m else Z.pos m) e s
  | x => x
  end.

Module FontSize.
Definition t : Type := f32.
Definition PT_TO_PX : f32 := F32.div (F32.of_Z 96) (F32.of_Z 72).
Definition from_px (size : f32) : t := F32.div size PT_TO_PX.
Definition as_px (s : t) : f32 := F32.mul s PT_TO_PX.
Definition scale (factor : f32) (s : t) : t := F32.mul s factor.
(** [Size::default]: 11.25 points. *)
Definition default : t := F32.div (F32.of_Z 45) (F32.of_Z 4).

(** The size that [change_font_size] sets. *)
Definition change (delta : f32) (s : t) : t := from_px (F32.add (F32.round (as_px s)) delta).
End FontSize.

(** [Font::with_size]; the text is shaped with the size in pixels. *)
Definition with_size (size : FontSize.t) (font : Font) : Font :=
  mkFont (normal_family font) (bold_family font) (italic_family font) (bold_italic_family font)
    (F32.to_bits (FontSize.as_px size)) (font_offset font) (glyph_offset font).

(** * Whole pixels *)

(** The tests of the source: 11.25 points are 15 pixels, and twice as many when scaled by two. *)
Example default_is_15_px : F32.to_bits (FontSize.as_px FontSize.default) = 1097859072%N.
Proof. vm_compute. reflexivity. Qed.
Example px_to_pt : FontSize.from_px (F32.of_Z 15) = FontSize.default.
Proof. vm_compute. reflexivity. Qed.
Example scaled_to_30_px :
  FontSize.as_px (FontSize.scale (F32.of_Z 2) FontSize.default) = F32.of_Z 30.
Proof. vm_compute. reflexivity. Qed.

(** The size of a whole number of pixels. *)
Definition whole (n : Z) : FontSize.t := FontSize.from_px (F32.of_Z n).

(** Decidable equality of what is computed. *)
Definition same (x y : f32) : bool :=
  match x, y with
  | S754_zero s, S754_zero s' | S754_infinity s, S754_infinity s' => Bool.eqb s s'
  | S754_nan, S754_nan => true
  | S754_finite s m e, S754_finite s' m' e' => Bool.eqb s s' && (m =? m')%positive && (e =? e')
  | _, _ => false
  end.
Lemma same_eq x y : same x y = true → x = y.
Proof.
  destruct x, y; simpl; try discriminate; [intros ->%eqb_prop|intros ->%eqb_prop| |]; try done.
  intros [[->%eqb_prop ->%Pos.eqb_eq]%andb_prop ->%Z.eqb_eq]%andb_prop. done.
Qed.

(** The largest size the lemmas cover, in pixels. *)
Definition MAX_PX : Z := 4096.

Definition steps_whole (n : Z) : bool :=
  same (FontSize.change (F32.of_Z 1) (whole n)) (whole (n + 1))
  && same (FontSize.change (F32.of_Z (-1)) (whole (n + 1))) (whole n).

Lemma all_steps_whole : forallb steps_whole (Z.of_nat <$> seq 1 (Z.to_nat MAX_PX)) = true.
Proof. vm_compute. reflexivity. Qed.

Lemma step_whole n : 1 <= n <= MAX_PX → steps_whole n = true.
Proof.
  intros Hn. pose proof all_steps_whole as Ha. rewrite forallb_forall in Ha. apply Ha.
  apply list_elem_of_In, list_elem_of_fmap. exists (Z.to_nat n).
  split; [lia|]. apply elem_of_seq. unfold MAX_PX in *. lia.
Qed.

(** Any sequence of steps of one pixel up and down. *)
Fixpoint change_all (deltas : list bool) (s : FontSize.t) : FontSize.t :=
  match deltas with
  | [] => s
  | up :: deltas => change_all deltas (FontSize.change (F32.of_Z (if up then 1 else -1)) s)
  end.
Fixpoint moved (deltas : list bool) (n : Z) : Z :=
  match deltas with [] => n | up :: deltas => moved deltas (n + if up then 1 else -1) end.
(** The size stays between one pixel and the largest size. *)
Fixpoint within (deltas : list bool) (n : Z) : bool :=
  (1 <=? n) && (n <=? MAX_PX) &&
  match deltas with [] => true | up :: deltas => within deltas (n + if up then 1 else -1) end.

(**  Increasing and decreasing the size of the font keeps it at whole pixels without any drift: after
    any sequence of steps it is the size of exactly the number of pixels that the steps lead to, as
    long as this is between 1 and 4096 on the way. *)
Theorem font_steps_exact deltas n :
  within deltas n = true → change_all deltas (whole n) = whole (moved deltas n).
Proof.
  revert n. induction deltas as [|up deltas IH]; intros n Hw; [done|].
  cbn [within change_all moved] in *. apply andb_prop in Hw as [Hn Hw].
  assert (1 <= n + (if up then 1 else -1) <= MAX_PX) as Hm.
  { destruct deltas; cbn [within] in Hw; lia. }
  rewrite <- IH by done. f_equal.
  destruct up; [apply same_eq; apply (andb_prop _ _ (step_whole n ltac:(lia)))|].
  pose proof (step_whole (n - 1) ltac:(lia)) as [_ Hs]%andb_prop.
  replace (n - 1 + 1) with n in Hs by lia. by apply same_eq in Hs.
Qed.

Lemma font_steps_exact_witness :
  change_all [true; true; false; true] (whole 15) = whole 17.
Proof. apply (font_steps_exact [true; true; false; true] 15). vm_compute. reflexivity. Defined.
