(* ===== verification/Windows.v ===== *)
(** The windows of the application ([cutty/src/window_context.rs], and the handler of the application
    in [cutty/src/event.rs]): the queue of the events of a window, its frames and redraws, and the
    events the application receives for its windows.

    A window has the context its events are handled with ([Contexts]), its display ([Displays]), and
    what is only used here.  The scheduler is shared: a window gets it with every call.  The creation
    of windows, the configuration and its changes are left out; all windows have the same
    configuration. *)
From Stdlib Require Import SpecFloat.
From stdpp Require Import gmap.
From S2P Require Import Prelude Index Cells TermData Selections Grids Terms Handlers Searches Keys Bindings Keyboards Schedulers.
From S2P Require Import FrameDamages Hints Messages Mice Contexts Actions Inputs Touches WindowEvents ColorLists Contents Texts Rects Paints Displays Draws FontSizes.
#[local] Open Scope nat_scope.

(** The events a window queues: those of the application and those of the window system. *)
Inductive QueuedEvent `{External} `{Winit} :=
  | UserEvent (e : EventType)
  | SystemEvent (e : WindowEvent)
  | Resized (width height : Z)
  | ScaleFactorChanged (scale_factor : spec_float).
#[global] Arguments UserEvent {_ _} e.
#[global] Arguments SystemEvent {_ _} e.
#[global] Arguments Resized {_ _} width height.
#[global] Arguments ScaleFactorChanged {_ _} scale_factor.

(** [winit::event::Event] as far as [WindowContext::handle_event] tells them apart. *)
Inductive WinitEvent `{External} `{Winit} := AboutToWait | RedrawRequested | Queued (e : QueuedEvent).
#[global] Arguments AboutToWait {_ _}.
#[global] Arguments RedrawRequested {_ _}.
#[global] Arguments Queued {_ _} e.

(** * [struct WindowContext] *)

Module WindowContext.
Section record.
Context `{External} `{Winit} `{Hybrid} `{Fontique} {W : Type} `{EqDecision W}.

Record t := mk {
  context : Context.t W;
  screen : Screen.t;
  event_queue : list QueuedEvent;
  visual_bell : VisualBell.t;
  frame_timer : FrameTimer.t;
  has_frame : bool;
  requested_redraw : bool;
  font_size : FontSize.t;
  scale_factor : spec_float;
  enabled_hints : list (Bindings.Hint * option LazyRegex.t);
  glyph_batch : GlyphBatch.t;
  surface : Z * Z;
  presented : list (list Layer * Rgb);
}.
Implicit Types s : t.

Definition set_context (x : Context.t W) s : t :=
  mk x (screen s) (event_queue s) (visual_bell s) (frame_timer s) (has_frame s) (requested_redraw s)
    (font_size s) (scale_factor s) (enabled_hints s) (glyph_batch s) (surface s) (presented s).
Definition set_screen (x : Screen.t) s : t :=
  mk (context s) x (event_queue s) (visual_bell s) (frame_timer s) (has_frame s) (requested_redraw s)
    (font_size s) (scale_factor s) (enabled_hints s) (glyph_batch s) (surface s) (presented s).
Definition set_event_queue (x : list QueuedEvent) s : t :=
  mk (context s) (screen s) x (visual_bell s) (frame_timer s) (has_frame s) (requested_redraw s)
    (font_size s) (scale_factor s) (enabled_hints s) (glyph_batch s) (surface s) (presented s).
Definition set_visual_bell (x : VisualBell.t) s : t :=
  mk (context s) (screen s) (event_queue s) x (frame_timer s) (has_frame s) (requested_redraw s)
    (font_size s) (scale_factor s) (enabled_hints s) (glyph_batch s) (surface s) (presented s).
Definition set_frame_timer (x : FrameTimer.t) s : t :=
  mk (context s) (screen s) (event_queue s) (visual_bell s) x (has_frame s) (requested_redraw s)
    (font_size s) (scale_factor s) (enabled_hints s) (glyph_batch s) (surface s) (presented s).
Definition set_has_frame (x : bool) s : t :=
  mk (context s) (screen s) (event_queue s) (visual_bell s) (frame_timer s) x (requested_redraw s)
    (font_size s) (scale_factor s) (enabled_hints s) (glyph_batch s) (surface s) (presented s).
Definition set_requested_redraw (x : bool) s : t :=
  mk (context s) (screen s) (event_queue s) (visual_bell s) (frame_timer s) (has_frame s) x
    (font_size s) (scale_factor s) (enabled_hints s) (glyph_batch s) (surface s) (presented s).
Definition set_font_size (x : FontSize.t) s : t :=
  mk (context s) (screen s) (event_queue s) (visual_bell s) (frame_timer s) (has_frame s)
    (requested_redraw s) x (scale_factor s) (enabled_hints s) (glyph_batch s) (surface s) (presented s).
Definition set_scale_factor (x : spec_float) s : t :=
  mk (context s) (screen s) (event_queue s) (visual_bell s) (frame_timer s) (has_frame s)
    (requested_redraw s) (font_size s) x (enabled_hints s) (glyph_batch s) (surface s) (presented s).
Definition set_enabled_hints (x : list (Bindings.Hint * option LazyRegex.t)) s : t :=
  mk (context s) (screen s) (event_queue s) (visual_bell s) (frame_timer s) (has_frame s)
    (requested_redraw s) (font_size s) (scale_factor s) x (glyph_batch s) (surface s) (presented s).
Definition set_surface (x : Z * Z) s : t :=
  mk (context s) (screen s) (event_queue s) (visual_bell s) (frame_timer s) (has_frame s)
    (requested_redraw s) (font_size s) (scale_factor s) (enabled_hints s) (glyph_batch s) x (presented s).

Definition upd_context (f : Context.t W → Context.t W) s : t := set_context (f (context s)) s.
Definition dirty s : bool := Context.dirty (context s).
Definition occluded s : bool := Context.occluded (context s).
Definition mark_dirty s : t := upd_context Context.mark_dirty s.

(** [Window::request_redraw]. *)
Definition request_redraw s : t := set_requested_redraw true s.

(** A frame is painted and shown. *)
Definition present (layers : list Layer) (background : Rgb) (batch : GlyphBatch.t) s : t :=
  mk (context s) (screen s) (event_queue s) (visual_bell s) (frame_timer s) (has_frame s)
    (requested_redraw s) (font_size s) (scale_factor s) (enabled_hints s) batch (surface s)
    (presented s ++ [(layers, background)]).

(** [Instant::now], by the clock of the scheduler. *)
Definition now (clock : nat → N) s : N * t :=
  let '(n, sch) := Scheduler.now clock (Context.scheduler (context s)) in
  (n, upd_context (Context.set_scheduler sch) s).
End record.
#[global] Arguments t {_ _ _ _} W.
End WindowContext.

Section windows.
Context `{External} `{Unicode} `{Winit} `{RegexCompiler} `{!VteColors} `{!CursorShapes} `{GlyphRuns}
  {W : Type} `{EqDecision W}.
Context (clock : nat → N) (clipboard_load : list Effect → ClipboardType → text) (rfuel : nat).
(** The configuration; the fonts have no size of their own. *)
Context (config : UiConfig.t) (alt_option : OptionAsAlt) (bindings : list KeyBinding)
  (enabled : list (Hint * option HintBinding)) (colors : list Rgb) (min_height step : Z)
  (display_config : DisplayConfig) (draw_config : DrawConfig) (config_font : Font)
  (config_font_size : FontSize.t) (preserve_title : bool).
(** The change of the size of the font by two fingers, the intensity of the bell at an instant, the
    text of the render timer, and the interval of the monitor. *)
Context (zoom_delta : TouchZoom.t → TouchZoom.t → f32) (intensity : VisualBell.t → N → N)
  (render_timer : option text) (vblank_interval : N).
Import WindowContext.
#[local] Abbreviation window_context := (WindowContext.t W).
Implicit Types s : window_context.

(** * Events *)

(** [DisplayUpdate::set_dimensions] and [DisplayUpdate::set_font]. *)
Definition set_dimensions (dimensions : Z * Z) s : window_context :=
  let pending := Screen.pending (screen s) in
  upd_context (Context.upd_display (Display.set_pending_dirty true))
    (set_screen (Screen.set_pending (DisplayUpdate.mk (Some dimensions) (DisplayUpdate.font pending)) (screen s)) s).
Definition set_font (size : FontSize.t) s : window_context :=
  let pending := Screen.pending (screen s) in
  upd_context (Context.upd_display (Display.set_pending_dirty true))
    (set_screen (Screen.set_pending
       (DisplayUpdate.mk (DisplayUpdate.dimensions pending) (Some (with_size size config_font))) (screen s))
       (set_font_size size s)).

(** What an event does to the display besides its context: the size of the font and the bell. *)
Definition apply_effect (e : Effect) s : window_context :=
  match e with
  | ChangeFontSize delta => set_font (FontSize.change (F32.of_Z delta) (font_size s)) s
  | ResetFontSizeEffect => set_font (FontSize.scale (f32_of_f64 (scale_factor s)) config_font_size) s
  | ZoomFontSize before after => set_font (FontSize.change (zoom_delta before after) (font_size s)) s
  | Window RingVisualBell =>
      let '(n, s) := now clock s in set_visual_bell (VisualBell.ring n (visual_bell s)) s
  | _ => s
  end.

Definition after (c : Context.t W) s : window_context :=
  let effects := drop (length (Context.effects (context s))) (Context.effects c) in
  foldl (λ s e, apply_effect e s) (set_context c s) effects.

(** [handle_event] of [input::Processor]. *)
Definition process (window : W) (e : QueuedEvent) s : option window_context :=
  match e with
  | UserEvent e =>
      c ← WindowEvents.handle_user_event window clock clipboard_load config rfuel colors preserve_title e
            (context s);
      Some (after c s)
  | SystemEvent e =>
      c ← WindowEvents.handle_window_event window clock clipboard_load config rfuel alt_option bindings
            enabled min_height step e (context s);
      Some (after c s)
  | Resized width height =>
      Some (if (width =? 0)%Z || (height =? 0)%Z then s else set_dimensions (width, height) s)
  | ScaleFactorChanged factor =>
      let font_scale := F32.div (f32_of_f64 factor) (f32_of_f64 (scale_factor s)) in
      let s := set_scale_factor factor s in
      Some (set_font (FontSize.scale font_scale (font_size s)) s)
  end.

Definition enqueue (e : QueuedEvent) s : window_context := set_event_queue (event_queue s ++ [e]) s.

(** The pending update of the display. *)
Definition update_display (old_is_searching : bool) s : option window_context :=
  if Display.pending_dirty (Context.display (context s)) then
    '(c, screen) ← submit_display_update display_config old_is_searching (context s) (screen s);
    Some (mark_dirty (set_screen screen (set_context c s)))
  else Some s.

(** The hint under the mouse and under the cursor of the vi mode. *)
Definition update_hints s : option window_context :=
  if dirty s || Mouse.hint_highlight_dirty (Context.mouse (context s)) then
    '(changed, enabled, c, screen) ← update_highlighted_hints rfuel (enabled_hints s) (context s) (screen s);
    let s := set_enabled_hints enabled (set_screen screen (set_context c s)) in
    let s := if changed : bool then mark_dirty s else s in
    Some (upd_context (Context.upd_mouse (Mouse.set_hint_highlight_dirty false)) s)
  else Some s.

(** [handle_event] with events in the queue. *)
Definition process_queue (window : W) (is_redraw : bool) s : option window_context :=
  let old_is_searching := search_shown (context s) in
  s ← foldM (process window) (event_queue s) s;
  s ← update_display old_is_searching (set_event_queue [] s);
  s ← update_hints s;
  Some (if dirty s && has_frame s && negb (occluded s) && negb is_redraw then request_redraw s else s).

(** [WindowContext::handle_event]. *)
Definition handle_event (window : W) (e : WinitEvent) s : option window_context :=
  match e with
  | Queued e => Some (enqueue e s)
  | AboutToWait | RedrawRequested =>
      match event_queue s with
      | [] => Some s
      | _ => process_queue window (match e with RedrawRequested => true | _ => false end) s
      end
  end.

(** * Drawing *)

(** [Display::request_frame]. *)
Definition request_frame (window : W) s : option window_context :=
  let s := set_has_frame false s in
  let '(n, s) := now clock s in
  '(swap_timeout, timer) ← FrameTimer.compute_timeout n vblank_interval (frame_timer s);
  Some (upd_context (Actions.schedule window clock FrameEvent swap_timeout false Frame)
          (set_frame_timer timer s)).

(** While the bell rings, every frame is followed by another one. *)
Definition keep_ringing s : window_context :=
  let '(n, s) := now clock s in
  let '(completed, bell) := VisualBell.completed n (visual_bell s) in
  let s := set_visual_bell bell s in
  if completed : bool then s else if has_frame s then request_redraw s else mark_dirty s.

(** [Display::draw] of the window; the fuel is enough for every cell of the screen. *)
Definition draw_frame (window : W) s : option window_context :=
  let term := Context.terminal (context s) in
  let '(n, s) := now clock s in
  '(layers, background, batch, c, screen) ←
    draw draw_config (S (screen_lines term * columns term)) rfuel (intensity (visual_bell s) n) render_timer
      (glyph_batch s) (context s) (screen s);
  request_frame window (present layers background batch (set_screen screen (set_context c s))).

(** [WindowContext::draw]. *)
Definition draw_window (window : W) s : option window_context :=
  let s := set_requested_redraw false s in
  if occluded s then Some s
  else
    let s := upd_context (Context.set_dirty false) s in
    let '(size, screen) := process_renderer_update (screen s) in
    let s := set_surface (default (surface s) size) (set_screen screen s) in
    draw_frame window (keep_ringing s).
End windows.
