(* ===== verification/Applications.v ===== *)
(** The application ([Processor] of [cutty/src/event.rs]): the events of all windows, the timers they
    share and the events that are sent to the application itself; and the steps of the program, with
    what the terminals and the window system can do between them.

    The events a terminal sends while a window handles an event arrive with those of the terminals'
    own threads.  Creating windows, reloading the configuration and the requests over the socket are
    left out, as is the clipboard. *)
From stdpp Require Import gmap.
From S2P Require Import Prelude Index Cells TermData Selections Grids Terms Handlers Searches Keys Bindings Keyboards Schedulers.
From S2P Require Import FrameDamages Hints Messages Mice Contexts Actions Inputs Touches WindowEvents ColorLists Contents Texts Rects Paints Displays Draws FontSizes Windows.
#[local] Open Scope nat_scope.

(** [struct Event]: what is sent to the application, for a window or for all of them. *)
Inductive AppEvent `{External} {W : Type} :=
  | Payload (payload : EventType) (window_id : option W)
  | Shutdown.
#[global] Arguments AppEvent {_} W.

(** * [struct Processor] *)

Module Processor.
Section record.
Context `{External} `{Winit} `{Hybrid} `{Fontique} {W : Type} `{Countable W}.

Record t := mk {
  windows : gmap W (WindowContext.t W);
  scheduler : Scheduler.t EventType W;
  (** The events that were sent and are not handled yet. *)
  proxy : list (AppEvent W);
  wait_until : option N;
  exiting : bool;
  daemon : bool;
}.
Implicit Types p : t.
Definition new (daemon : bool) : t := mk ∅ Scheduler.new [] None false daemon.
Definition set_windows (x : gmap W (WindowContext.t W)) p : t :=
  mk x (scheduler p) (proxy p) (wait_until p) (exiting p) (daemon p).
Definition set_scheduler (x : Scheduler.t EventType W) p : t :=
  mk (windows p) x (proxy p) (wait_until p) (exiting p) (daemon p).
Definition send (es : list (AppEvent W)) p : t :=
  mk (windows p) (scheduler p) (proxy p ++ es) (wait_until p) (exiting p) (daemon p).
Definition set_proxy (x : list (AppEvent W)) p : t :=
  mk (windows p) (scheduler p) x (wait_until p) (exiting p) (daemon p).
Definition set_wait_until (x : option N) p : t :=
  mk (windows p) (scheduler p) (proxy p) x (exiting p) (daemon p).
Definition exit p : t := mk (windows p) (scheduler p) (proxy p) (wait_until p) true (daemon p).
Definition alter_window (f : WindowContext.t W → WindowContext.t W) (id : W) p : t :=
  set_windows (alter f id (windows p)) p.
End record.
#[global] Arguments t {_ _ _ _} W {_ _}.
End Processor.

Section application.
Context `{External} `{Unicode} `{Winit} `{RegexCompiler} `{!VteColors} `{!CursorShapes} `{GlyphRuns}
  {W : Type} `{Countable W}.
Context (clock : nat → N) (clipboard_load : list Effect → ClipboardType → text) (rfuel : nat).
Context (config : UiConfig.t) (alt_option : OptionAsAlt) (bindings : list KeyBinding)
  (enabled : list (Hint * option HintBinding)) (colors : list Rgb) (min_height step : Z)
  (display_config : DisplayConfig) (draw_config : DrawConfig) (config_font : Font)
  (config_font_size : FontSize.t) (preserve_title : bool).
Context (zoom_delta : TouchZoom.t → TouchZoom.t → f32) (intensity : VisualBell.t → N → N)
  (render_timer : option text) (vblank_interval : N).
Import Processor.
#[local] Abbreviation window_context := (WindowContext.t W).
#[local] Abbreviation processor := (Processor.t W).
Implicit Types (p : processor) (s : window_context).

#[local] Abbreviation handle_event :=
  (Windows.handle_event clock clipboard_load rfuel config alt_option bindings enabled colors min_height step
     display_config config_font config_font_size preserve_title zoom_delta).
#[local] Abbreviation draw_window :=
  (Windows.draw_window clock rfuel draw_config intensity render_timer vblank_interval).

(** The events of a terminal that were sent after the first [n]. *)
Definition terminal_events (n : nat) (id : W) (t : Term.t) : list (AppEvent W) :=
  (λ e, Payload (TerminalEvent e) (Some id)) <$> drop n (Term.event_proxy t).

(** A call of a window, with the scheduler of the application. *)
Definition with_window (id : W) (f : window_context → option window_context) p : option processor :=
  match windows p !! id with
  | None => Some p
  | Some s =>
      s' ← f (WindowContext.upd_context (Context.set_scheduler (scheduler p)) s);
      let c := WindowContext.context s' in
      let sent := length (Term.event_proxy (Context.terminal (WindowContext.context s))) in
      Some (send (terminal_events sent id (Context.terminal c))
              (set_scheduler (Context.scheduler c) (set_windows (<[id := s']> (windows p)) p)))
  end.

(** [window_event]; the events that are skipped are not events of the model. *)
Definition window_event (id : W) (e : WinitEvent) p : option processor :=
  with_window id (λ s,
    s ← handle_event id e s;
    match e with RedrawRequested => draw_window id s | _ => Some s end) p.

(** The events of [user_event] for one window that are not queued. *)
Definition wakeup s : window_context :=
  let s := WindowContext.mark_dirty s in
  if WindowContext.has_frame s then WindowContext.request_redraw s else s.
Definition frame s : window_context :=
  let s := WindowContext.set_has_frame true s in
  if WindowContext.dirty s then WindowContext.request_redraw s else s.

(** The terminal of a window has exited. *)
Definition close_window (id : W) p : processor :=
  match windows p !! id with
  | None => p
  | Some s =>
      if Display.hold (Context.display (WindowContext.context s)) then p
      else
        let p := set_scheduler (Scheduler.unschedule_window id (scheduler p))
                   (set_windows (delete id (windows p)) p) in
        if bool_decide (windows p = ∅) && negb (daemon p) then exit p else p
  end.

(** [user_event]. *)
Definition user_event (e : AppEvent W) p : processor :=
  match e with
  | Shutdown => exit p
  | Payload payload None => set_windows (enqueue (UserEvent payload) <$> windows p) p
  | Payload (TerminalEvent Wakeup) (Some id) => alter_window wakeup id p
  | Payload (TerminalEvent Exit) (Some id) => close_window id p
  | Payload FrameEvent (Some id) => alter_window frame id p
  | Payload payload (Some id) => alter_window (enqueue (UserEvent payload)) id p
  end.

(** The events of timers are for the windows of the timers. *)
Definition tag (y : Timer.t EventType W) : Timer.t (EventType * W) W :=
  Timer.mk (Timer.deadline y) (Timer.event y, window_id (Timer.id y)) (Timer.id y) (Timer.interval y).
Definition untag (y : Timer.t (EventType * W) W) : Timer.t EventType W :=
  Timer.mk (Timer.deadline y) (Timer.event y).1 (Timer.id y) (Timer.interval y).

(** [self.scheduler.update()]: the events that are due are sent to the application. *)
Definition update_timers p : option processor :=
  let sch := scheduler p in
  '(deadline, updated) ← Scheduler.update clock (S (length (Scheduler.timers sch)))
                           (Scheduler.mk (tag <$> Scheduler.timers sch) (Scheduler.readings sch) []);
  let p := set_scheduler (Scheduler.mk (untag <$> Scheduler.timers updated) (Scheduler.readings updated)
                            (Scheduler.sent sch ++ (fst <$> Scheduler.sent updated))) p in
  Some (set_wait_until deadline
          (send ((λ e, Payload e.1 (Some e.2)) <$> Scheduler.sent updated) p)).

(** [about_to_wait]; the map yields the windows in any order. *)
Definition about_to_wait (order : list W) p : option processor :=
  p ← foldM (λ id, with_window id (handle_event id AboutToWait)) order p;
  update_timers p.

(** * Steps *)

(** What the thread of a terminal does to it, and the events it sends. *)
Definition terminal_runs (id : W) (t : Term.t) (events : list Event) p : processor :=
  send ((λ e, Payload (TerminalEvent e) (Some id)) <$> events)
    (alter_window (WindowContext.upd_context (Context.set_terminal t)) id p).

(** A window opens: nothing is shown or queued yet, and it may have a frame. *)
Definition opened s : Prop :=
  WindowContext.event_queue s = [] ∧ WindowContext.has_frame s = true ∧
  WindowContext.dirty s = false ∧
  Context.search_state (WindowContext.context s) = SearchState.default.

(** Windows are opened, the window system and the application's queue deliver events, the terminals run,
    and others send events. *)
Inductive app_step : processor → processor → Prop :=
  | app_open id s p :
      windows p !! id = None → opened s → app_step p (set_windows (<[id := s]> (windows p)) p)
  | app_window_event id e p p' : e ≠ AboutToWait → window_event id e p = Some p' → app_step p p'
  | app_user_event e rest p : proxy p = e :: rest → app_step p (user_event e (set_proxy rest p))
  | app_wait order p p' :
      order ≡ₚ (map_to_list (windows p)).*1 → about_to_wait order p = Some p' → app_step p p'
  | app_terminal id t events p : app_step p (terminal_runs id t events p)
  | app_send es p : app_step p (send es p).
End application.
