(* ===== verification/ApplicationProps.v ===== *)
(** Properties of the application: a window whose content has changed is redrawn, whatever events
    arrive in whatever order.

    The invariant has two parts for every window: between events, if it may draw and its content
    changed, a redraw is requested; and if it may not, a timer or an event that allows it is
    pending. *)
From stdpp Require Import gmap.
From S2P Require Import Prelude Index Cells TermData Selections Grids Terms Handlers Searches Keys Bindings Keyboards Schedulers.
From S2P Require Import FrameDamages Hints Messages Mice Contexts Actions Inputs Touches WindowEvents ContextProps InputProps TouchProps WindowProps ColorLists Contents Texts Rects Paints Displays Draws FontSizes Windows Applications.
From S2P Require Import BindingProps KeyProps HintMatchProps TermProps TextProps ColorProps ContentProps PaintProps DisplayProps.
#[local] Open Scope nat_scope.
#[local] Set Default Proof Using "Type".

(** * What a computation may return *)

Definition may {A} (m : option A) (Q : A → Prop) : Prop := ∀ x, m = Some x → Q x.
Lemma may_some {A} (x : A) Q : Q x → may (Some x) Q.
Proof. intros Hx y [= <-]. done. Qed.
Lemma may_none {A} (Q : A → Prop) : may None Q.
Proof. done. Qed.
Lemma may_bind {A B} (m : option A) (f : A → option B) Q :
  (∀ x, m = Some x → may (f x) Q) → may (m ≫= f) Q.
Proof. intros Hf y. destruct m as [x|]; cbn [mbind option_bind]; [|done]. by apply Hf. Qed.
Lemma may_and_bind {A B} (m : option A) (f : A → option B) P Q :
  may m P → (∀ x, P x → may (f x) Q) → may (m ≫= f) Q.
Proof. intros Hm Hf. apply may_bind. intros x E. apply Hf, Hm, E. Qed.

(** * What the display keeps of a context *)

Section Kept.
Context `{External} `{Winit} `{RegexCompiler} `{!VteColors} `{!CursorShapes} `{GlyphRuns}
  {W : Type} `{EqDecision W}.
Import Context.
#[local] Abbreviation ctx := (Context.t W).
Implicit Types (c : ctx) (s : Screen.t).

(** The timers and the history of the search. *)
Definition kept c c' : Prop :=
  scheduler c' = scheduler c ∧
  SearchState.history (search_state c') = SearchState.history (search_state c) ∧
  SearchState.history_index (search_state c') = SearchState.history_index (search_state c).

Lemma ctx_kept_refl c : kept c c.
Proof. exact (conj eq_refl (conj eq_refl eq_refl)). Qed.
Lemma ctx_kept_trans c1 c2 c3 : kept c1 c2 → kept c2 c3 → kept c1 c3.
Proof. intros (E1 & E2 & E3) (F1 & F2 & F3). split_and!; congruence. Qed.
Lemma kept_terminal c c1 x : kept c c1 → kept c (set_terminal x c1).
Proof. intros Hk. exact Hk. Qed.
Lemma kept_display c c1 f : kept c c1 → kept c (upd_display f c1).
Proof. intros Hk. exact Hk. Qed.

Lemma upd_terminal_kept f c c1 : kept c c1 → may (upd_terminal f c1) (kept c).
Proof. intros Hk. unfold upd_terminal. apply may_bind. intros t _. by apply may_some, kept_terminal. Qed.

Lemma change_size_kept size c c1 s : kept c c1 → may (change_size size c1 s) (λ r, kept c r.1).
Proof.
  intros Hk. unfold change_size, resize_cells. cbv zeta. apply (may_and_bind _ _ (λ r, kept c r.1)).
  - case_match; [by apply may_some|]. apply (may_and_bind _ _ (kept c)); [by apply upd_terminal_kept|].
    intros c2 H2'. by apply may_some, kept_display.
  - intros [c2 s2] H2'. cbn [fst] in H2'. destruct (bool_decide _); by apply may_some, kept_display.
Qed.

Lemma handle_update_kept config c s : may (handle_update config c s) (λ r, kept c r.1).
Proof.
  unfold handle_update. cbv zeta.
  destruct (match DisplayUpdate.font _ with Some _ => _ | None => _ end) as [c1 s1] eqn:E1.
  assert (kept c c1) as H1'.
  { revert E1. destruct (DisplayUpdate.font _); intros [= <- _]; repeat apply kept_display; apply ctx_kept_refl. }
  apply may_bind. intros size _. by apply change_size_kept.
Qed.

Lemma submit_kept config b c s : may (submit_display_update config b c s) (λ r, kept c r.1).
Proof.
  unfold submit_display_update. cbv zeta. apply may_bind. intros bottom _. apply may_bind. intros o _.
  apply (may_and_bind _ _ (λ r, kept c r.1)); [apply handle_update_kept|]. intros [c1 s1] H1'.
  cbn [fst] in H1'. assert (∀ f, may (c2 ← upd_terminal f c1; Some (c2, s1)) (λ r, kept c r.1)) as Hf.
  { intros f. apply (may_and_bind _ _ (kept c)); [by apply upd_terminal_kept|]. intros c2 H2'.
    by apply may_some. }
  cbv beta iota.
  destruct (_ && search_shown c1); [|by apply may_some]. destruct (_ && negb o); [apply Hf|].
  destruct (_ && o); [apply Hf|by apply may_some].
Qed.

Lemma update_hints_kept n enabled c s :
  may (update_highlighted_hints n enabled c s) (λ r, kept c r.1.2).
Proof.
  unfold update_highlighted_hints. cbv zeta. apply may_bind. intros [vi_hint en] _.
  set (c0 := if negb _ then _ else _).
  assert (kept c c0) as H0'.
  { unfold c0. destruct (negb _); repeat apply kept_display; apply ctx_kept_refl. }
  clearbody c0. destruct (_ || _).
  { destruct (Display.highlighted_hint (display c0)); apply may_some; [by repeat apply kept_display|done]. }
  apply may_bind. intros point _. apply may_bind. intros [hint en'] _.
  destruct (match hint with Some _ => _ | None => _ end) as [[d1 c1] s1] eqn:E.
  assert (kept c c1) as H1'.
  { apply (f_equal (λ r, r.1.2)) in E. cbn [fst snd] in E. rewrite <- E.
    destruct hint, (Display.highlighted_hint (display c0)); cbn [fst snd]; first [exact H0'|apply kept_display, H0']. }
  apply may_some. cbn [fst snd]. destruct (negb (same_match _ hint)); by repeat apply kept_display.
Qed.

Lemma frame_damage_kept offset selection bell c c0 s :
  kept c0 c → may (frame_damage offset selection bell c s) (λ r, kept c0 r.1).
Proof.
  intros Hk. unfold frame_damage. apply may_bind. intros [damage term] _. cbv zeta.
  apply may_bind. intros tracker _. unfold validate_hint_highlights. cbv zeta.
  apply (may_and_bind _ _ (λ r, kept c0 r.1)).
  { apply may_bind. intros [[[hint age] f] removed] _. apply may_bind. intros [[[hint' age'] f'] removed'] _.
    apply may_some. cbn [fst]. exact Hk. }
  intros [c1 s1] H1'. cbn [fst] in H1'. apply may_bind. intros point _. apply may_bind. intros tr _.
  apply may_bind. intros tr' _. by apply may_some, kept_display.
Qed.

Lemma draw_kept config fuel n bell timing batch c s :
  may (draw config fuel n bell timing batch c s) (λ r, kept c r.1.2).
Proof.
  unfold draw. apply may_bind. intros [visible dfas] _. apply may_bind. intros hs _. cbv zeta.
  apply may_bind. intros content _. apply may_bind. intros [cells content'] _.
  apply may_bind. intros fg _. apply may_bind. intros bg _. apply may_bind. intros cursor _.
  apply (may_and_bind _ _ (λ r, kept c r.1)); [apply frame_damage_kept; exact (conj eq_refl (conj eq_refl eq_refl))|].
  intros [c1 s1] H1'. cbn [fst] in H1'. apply may_bind. intros vp _.
  apply may_bind. intros [[cells' lines] tracker] _. apply may_bind. intros [[glyphs batch'] ts] _.
  do 7 (apply may_bind; intros ? _). apply may_some. cbn [fst snd]. by apply kept_display.
Qed.
End Kept.

(** * Timers that are due *)

Section Timers.
Context {E W : Type} `{EqDecision W} (clock : nat → N).
Import Scheduler.
Implicit Types (s : Scheduler.t E W) (y : Timer.t E W).

Lemma schedule_in s e iv rep id y :
  y ∈ timers (schedule clock e iv rep id s) ↔ y = scheduled_timer clock e iv rep id s ∨ y ∈ timers s.
Proof.
  unfold schedule, now. cbn [timers readings]. set (i := position _ _). rewrite elem_of_app, elem_of_cons.
  rewrite <- (take_drop i (timers s)) at 3. rewrite elem_of_app. unfold scheduled_timer. tauto.
Qed.

(** What is scheduled again has the same event, purpose and interval. *)
Lemma update_loop_events fuel n s s' (P : Timer.t E W → Prop) :
  (∀ y y', Timer.event y = Timer.event y' → Timer.id y = Timer.id y' → Timer.interval y = Timer.interval y' →
    P y → P y') →
  update_loop clock fuel n s = Some s' → Forall P (timers s) →
  Forall P (timers s') ∧ (∀ e, e ∈ sent s → e ∈ sent s') ∧
  (∀ y, y ∈ timers s → Timer.interval y = None → y ∈ timers s' ∨ Timer.event y ∈ sent s').
Proof.
  intros HP. revert s. induction fuel as [|fuel IH]; intros s; cbn [update_loop]; [done|].
  destruct (timers s) as [|x rest] eqn:Et.
  { intros [= <-] Hs. rewrite Et. split_and!; [done..|]. auto. }
  destruct (_ <=? _)%N; [|intros [= <-] Hs; rewrite Et; by split_and!; auto].
  set (s1 := match Timer.interval x with Some _ => _ | None => _ end).
  assert (∀ y, y ∈ timers s1 → y ∈ rest ∨
    Timer.event y = Timer.event x ∧ Timer.id y = Timer.id x ∧ Timer.interval y = Timer.interval x) as Hnew.
  { intros y. unfold s1. destruct (Timer.interval x) as [iv|] eqn:Ei; [|by left].
    intros [->|Hy]%schedule_in; [by right|by left]. }
  assert (∀ y, y ∈ rest → y ∈ timers s1) as Hold.
  { intros y Hy. unfold s1. destruct (Timer.interval x) as [iv|]; [|done].
    apply schedule_in. by right. }
  assert (sent s1 = sent s) as Es by (unfold s1; by destruct (Timer.interval x)).
  intros Eu [Hx Hr]%Forall_cons. apply IH in Eu as (H1 & H2 & H3); cbn [timers sent] in *.
  - split; [done|]. split; [intros e He; apply H2; rewrite Es; apply elem_of_app; by left|].
    intros y [->|Hy]%elem_of_cons Ei; [|apply H3; [by apply Hold|done]].
    right. apply H2. apply elem_of_app. right. by apply list_elem_of_singleton.
  - apply Forall_forall. intros y Hy. rewrite Forall_forall in Hr.
    destruct (Hnew y Hy) as [?|(F1 & F2 & F3)]; [by apply Hr|by eapply (HP x)].
Qed.
End Timers.

(** The events can be renamed. *)
Section Rename.
Context {E E' W : Type} `{EqDecision W} (clock : nat → N) (f : E → E').
Import Scheduler.

Definition rename_timer (y : Timer.t E W) : Timer.t E' W :=
  Timer.mk (Timer.deadline y) (f (Timer.event y)) (Timer.id y) (Timer.interval y).
Definition rename (s : Scheduler.t E W) : Scheduler.t E' W :=
  mk (rename_timer <$> timers s) (readings s) (f <$> sent s).

Lemma rename_position d (l : list (Timer.t E W)) : position d (rename_timer <$> l) = position d l.
Proof.
  unfold position. induction l as [|x l IH]; [done|]. rewrite fmap_cons. cbn [list_find Timer.deadline rename_timer].
  case_decide; [done|]. revert IH.
  destruct (list_find _ (rename_timer <$> l)) as [[i y]|], (list_find _ l) as [[j z]|];
    cbn [fmap option_fmap option_map prod_map fst snd length]; rewrite ?length_fmap; lia.
Qed.

Lemma rename_schedule e iv rep id s :
  rename (schedule clock e iv rep id s) = schedule clock (f e) iv rep id (rename s).
Proof.
  unfold schedule, rename, now. cbn [timers readings sent]. rewrite rename_position.
  by rewrite fmap_app, fmap_cons, fmap_take, fmap_drop.
Qed.

Lemma rename_update_loop fuel n s :
  update_loop clock fuel n (rename s) = rename <$> update_loop clock fuel n s.
Proof.
  revert s. induction fuel as [|fuel IH]; intros s; cbn [update_loop]; [done|].
  cbn [rename timers]. destruct (timers s) as [|x rest] eqn:Et; cbn [fmap list_fmap option_fmap option_map].
  { unfold rename. by rewrite Et. }
  cbn [rename_timer Timer.deadline Timer.interval Timer.event Timer.id readings sent].
  destruct (_ <=? _)%N; [|cbn; unfold rename; by rewrite Et].
  rewrite <- IH. f_equal.
  assert (∀ s : Scheduler.t E W, f <$> sent s ++ [Timer.event x] = (f <$> sent s) ++ [f (Timer.event x)]) as Ea
    by (intros; by rewrite fmap_app).
  destruct (Timer.interval x) as [iv|].
  - change (mk (rename_timer <$> rest) (readings (rename s)) (sent (rename s)))
      with (rename (mk rest (readings s) (sent s))).
    rewrite <- rename_schedule. unfold rename. cbn [timers readings sent]. by rewrite Ea.
  - unfold rename. cbn [timers readings sent]. by rewrite Ea.
Qed.
End Rename.

(** * What handling an event keeps *)

Section Window.
Context `{External} `{Unicode} `{Winit} `{RegexCompiler} `{!VteColors} `{!CursorShapes} `{GlyphRuns}
  {W : Type} `{EqDecision W}.
Context (clock : nat → N) (clipboard_load : list Effect → ClipboardType → text) (rfuel : nat).
Context (config : UiConfig.t) (alt_option : OptionAsAlt) (bindings : list KeyBinding)
  (enabled : list (Hint * option HintBinding)) (colors : list Rgb) (min_height step : Z)
  (display_config : DisplayConfig) (draw_config : DrawConfig) (config_font : Font)
  (config_font_size : FontSize.t) (preserve_title : bool).
Context (zoom_delta : TouchZoom.t → TouchZoom.t → f32) (intensity : VisualBell.t → N → N)
  (render_timer : option text) (vblank_interval : N).
Import WindowContext.
#[local] Abbreviation window_context := (WindowContext.t W).
Implicit Types (s : window_context) (sch : Scheduler.t EventType W).

#[local] Abbreviation handle_event :=
  (Windows.handle_event clock clipboard_load rfuel config alt_option bindings enabled colors min_height step
     display_config config_font config_font_size preserve_title zoom_delta).
#[local] Abbreviation draw_window :=
  (Windows.draw_window clock rfuel draw_config intensity render_timer vblank_interval).

Definition timers_of s : Scheduler.t EventType W := Context.scheduler (context s).
Definition search_of s : SearchState.t := Context.search_state (context s).

(** A timer that allows a frame is not repeated. *)
Definition frame_timer_ok (y : Timer.t EventType W) : Prop :=
  topic (Timer.id y) = Frame → Timer.event y = FrameEvent ∧ Timer.interval y = None.
Definition scheduler_ok sch : Prop := timers_ok sch ∧ Forall frame_timer_ok (Scheduler.timers sch).

Lemma frame_timers_frames sch :
  Forall frame_timer_ok (Scheduler.timers sch) ↔
  Forall (λ y, Timer.event y = FrameEvent ∧ Timer.interval y = None) (frames sch).
Proof.
  unfold frames. rewrite !Forall_forall. split.
  - intros Hf y [Hy Hin]%list_elem_of_filter. by apply Hf.
  - intros Hf y Hin Hy. apply Hf. by apply list_elem_of_filter.
Qed.

(** The part of the invariant that belongs to a window and its view of the timers. *)
Definition window_ok s : Prop := history_ok (search_of s) ∧ scheduler_ok (timers_of s).

(** Handling events keeps it, the timers for frames and whether there is a frame. *)
Definition handled s s' : Prop :=
  window_ok s → window_ok s' ∧ frames (timers_of s') = frames (timers_of s) ∧ has_frame s' = has_frame s.

Lemma handled_refl s : handled s s.
Proof. by intros Hs. Qed.
Lemma handled_trans s1 s2 s3 : handled s1 s2 → handled s2 s3 → handled s1 s3.
Proof.
  intros H12 H23 Hs1. destruct (H12 Hs1) as (Hs2 & E2 & F2). destruct (H23 Hs2) as (Hs3 & E3 & F3).
  split; [done|]. split; congruence.
Qed.

(** The timers and the history are the same. *)
Lemma handled_kept s s' :
  kept (context s) (context s') → has_frame s' = has_frame s → handled s s'.
Proof.
  intros (E1 & E2 & E3) Hf [Hh Ht]. unfold window_ok, history_ok, timers_of, search_of in *.
  by rewrite E1, E2, E3.
Qed.

(** ** Effects *)

Lemma now_handled s n s' : now clock s = (n, s') → handled s s'.
Proof.
  intros [= <- <-] [Hh Ht]. split; [split; [exact Hh|exact Ht]|]. done.
Qed.

Lemma apply_effect_handled e s : handled s (apply_effect clock config_font config_font_size zoom_delta e s).
Proof.
  assert (∀ size, handled s (set_font config_font size s)) as Hfont.
  { intros size. by apply handled_kept; [exact (conj eq_refl (conj eq_refl eq_refl))|]. }
  destruct e as [| | | |delta| |before after|call]; try apply handled_refl; [apply Hfont..|].
  destruct call; try apply handled_refl. unfold apply_effect. destruct (now clock s) as [n s1] eqn:En.
  eapply handled_trans; [by eapply now_handled|]. by apply handled_kept; [exact (conj eq_refl (conj eq_refl eq_refl))|].
Qed.

(** After a computation that keeps the context's invariant. *)
Lemma after_handled m s c :
  keeps Free (context s) m → m = Some c →
  handled s (after clock config_font config_font_size zoom_delta c s).
Proof.
  intros Hk E. unfold after. assert (handled s (set_context c s)) as Hc.
  { intros [Hh [Ht Hf]]. destruct (keeps_elim _ _ _ Hk _ E) as [[Hh' Ht' _] (_ & _ & Efr)]; [by split; [..|left]|].
    unfold window_ok, scheduler_ok, timers_of, search_of in *. cbn [context set_context has_frame].
    split; [|done]. split; [done|split; [done|]]. apply frame_timers_frames. rewrite Efr.
    by apply frame_timers_frames. }
  revert Hc. generalize (set_context c s). induction (drop _ _) as [|e l IH]; intros s1 Hs1; [done|].
  cbn [foldl]. apply IH. eapply handled_trans; [done|apply apply_effect_handled].
Qed.

#[local] Abbreviation process :=
  (Windows.process clock clipboard_load rfuel config alt_option bindings enabled colors min_height step
     config_font config_font_size preserve_title zoom_delta).

Lemma process_handled window e s : may (process window e s) (handled s).
Proof.
  destruct e as [e|e|width height|factor]; cbn [Windows.process].
  - apply may_bind. intros c E. apply may_some. eapply after_handled; [|exact E].
    apply keeps_louder; [done|apply keeps_handle_user_event].
  - apply may_bind. intros c E. apply may_some. eapply after_handled; [|exact E].
    apply keeps_handle_window_event.
  - apply may_some. destruct (_ || _); [apply handled_refl|].
    by apply handled_kept; [exact (conj eq_refl (conj eq_refl eq_refl))|].
  - apply may_some. by apply handled_kept; [exact (conj eq_refl (conj eq_refl eq_refl))|].
Qed.

Lemma fold_process_handled window l s : may (foldM (process window) l s) (handled s).
Proof.
  revert s. induction l as [|e l IH]; intros s; cbn [foldM]; [apply may_some, handled_refl|].
  apply (may_and_bind _ _ _ _ (process_handled window e s)). intros s1 H1' s2 E.
  eapply handled_trans; [exact H1'|by apply IH].
Qed.

Lemma update_display_handled b s : may (update_display display_config b s) (handled s).
Proof.
  unfold update_display. destruct (Display.pending_dirty _); [|apply may_some, handled_refl].
  apply (may_and_bind _ _ _ _ (submit_kept display_config b (context s) (screen s))).
  intros [c sc] Hc. apply may_some. by apply handled_kept.
Qed.

Lemma update_hints_handled s : may (update_hints rfuel s) (handled s).
Proof.
  unfold update_hints. destruct (_ || _); [|apply may_some, handled_refl].
  apply (may_and_bind _ _ _ _ (update_hints_kept rfuel (enabled_hints s) (context s) (screen s))).
  intros [[[changed en] c] sc] Hc. cbn [fst snd] in Hc. apply may_some. apply handled_kept; [|by destruct changed].
  destruct changed; exact Hc.
Qed.

Lemma handle_event_handled window e s : may (handle_event window e s) (handled s).
Proof.
  assert (∀ b, may (process_queue clock clipboard_load rfuel config alt_option bindings enabled colors min_height
    step display_config config_font config_font_size preserve_title zoom_delta window b s) (handled s)) as Hq.
  { intros b. unfold process_queue. cbv zeta.
    apply (may_and_bind _ _ _ _ (fold_process_handled window (event_queue s) s)). intros s1 H1'.
    apply (may_and_bind _ _ _ _ (update_display_handled _ _)). intros s2 H2'.
    apply (may_and_bind _ _ _ _ (update_hints_handled s2)). intros s3 H3'. apply may_some.
    eapply handled_trans; [exact H1'|]. eapply handled_trans; [exact H2'|]. eapply handled_trans; [exact H3'|].
    destruct (_ && _); [|apply handled_refl].
    by apply handled_kept; [exact (conj eq_refl (conj eq_refl eq_refl))|]. }
  destruct e as [| |e]; cbn [Windows.handle_event];
    [destruct (event_queue s); [apply may_some, handled_refl|apply Hq]..|].
  apply may_some. by apply handled_kept; [exact (conj eq_refl (conj eq_refl eq_refl))|].
Qed.

(** * Redraws *)

(** Between events, if the content of a visible window changed and it has a frame, a redraw is
    requested. *)
Definition redraws s : Prop :=
  event_queue s = [] → dirty s = true → has_frame s = true → occluded s = false → requested_redraw s = true.

Lemma process_queue_redraws window s :
  may (process_queue clock clipboard_load rfuel config alt_option bindings enabled colors min_height
    step display_config config_font config_font_size preserve_title zoom_delta window false s) redraws.
Proof.
  unfold process_queue. cbv zeta. do 3 (apply may_bind; intros ? _). apply may_some.
  match goal with |- redraws (if _ && _ then _ else ?x) => destruct (dirty x) eqn:E1, (has_frame x) eqn:E2,
    (occluded x) eqn:E3; cbn [andb negb]; intros _ F1 F2 F3 end; congruence || done.
Qed.

Lemma handle_event_redraws window e s :
  e ≠ RedrawRequested → redraws s → may (handle_event window e s) redraws.
Proof.
  intros He Hs. destruct e as [| |e]; cbn [Windows.handle_event]; [|done|].
  - destruct (event_queue s) eqn:Eq; [by apply may_some|]. apply process_queue_redraws.
  - apply may_some. intros Hq. by apply app_eq_nil in Hq as [_ [=]].
Qed.

(** ** Frames *)

Definition frame_pending (window : W) sch : Prop :=
  ∃ y, y ∈ Scheduler.timers sch ∧ Timer.id y = mkTimerId Frame window.

Lemma frame_pending_frames window sch sch' :
  frames sch' = frames sch → frame_pending window sch → frame_pending window sch'.
Proof.
  intros E (y & Hy & Ey). exists y. split; [|done].
  assert (y ∈ frames sch') as Hin; [rewrite E|]; [|by apply list_elem_of_filter in Hin as [_ ?]].
  apply list_elem_of_filter. by rewrite Ey.
Qed.

(** Requesting a frame. *)
Lemma request_frame_spec window s s' :
  window_ok s → request_frame clock vblank_interval window s = Some s' →
  window_ok s' ∧ (∀ y, y ∈ Scheduler.timers (timers_of s) → y ∈ Scheduler.timers (timers_of s')) ∧
  has_frame s' = false ∧ frame_pending window (timers_of s').
Proof using EqDecision0.
  intros [Hh [Ht Hf]]. unfold request_frame. cbv zeta.
  destruct (now clock (set_has_frame false s)) as [n s1] eqn:En.
  destruct (FrameTimer.compute_timeout n vblank_interval (frame_timer s1)) as [[timeout timer]|];
    cbn [mbind option_bind]; [|done]. intros [= <-].
  assert (search_of s1 = search_of s ∧ Scheduler.timers (timers_of s1) = Scheduler.timers (timers_of s)
    ∧ has_frame s1 = false) as (E1 & E2 & E3) by (by injection En as _ <-).
  clear En. set (s2 := upd_context _ _).
  assert (timers_of s2 = Scheduler.schedule clock FrameEvent timeout false (Actions.timer_id window Frame)
    (timers_of s1)) as E by done.
  assert (timers_ok (timers_of s1)) as Ht1 by (unfold timers_ok; by rewrite E2).
  split_and!.
  - split; [change (search_of s2) with (search_of s1); by rewrite E1|]. split.
    + rewrite E. apply schedule_timers_or; [by left|done].
    + apply Forall_forall. intros y. rewrite E, schedule_in. intros [->|Hy]; [by intros _|].
      rewrite E2 in Hy. rewrite Forall_forall in Hf. by apply Hf.
  - intros y Hy. rewrite E, schedule_in, E2. by right.
  - exact E3.
  - eexists. split; [rewrite E, schedule_in; by left|done].
Qed.

Lemma draw_frame_spec window s s' :
  window_ok s →
  draw_frame clock rfuel draw_config intensity render_timer vblank_interval window s = Some s' →
  window_ok s' ∧ (∀ y, y ∈ Scheduler.timers (timers_of s) → y ∈ Scheduler.timers (timers_of s')) ∧
  has_frame s' = false ∧ frame_pending window (timers_of s').
Proof using EqDecision0.
  intros Hs. unfold draw_frame. cbv zeta. destruct (now clock s) as [n s1] eqn:En.
  assert (window_ok s1 ∧ Scheduler.timers (timers_of s1) = Scheduler.timers (timers_of s)) as [Hs1 E1].
  { destruct (now_handled _ _ _ En Hs) as [Hs1 _]. split; [done|]. by injection En as _ <-. }
  destruct (draw _ _ _ _ _ _ _ _) as [[[[[layers bg] batch] c] sc]|] eqn:Ed; cbn [mbind option_bind]; [|done].
  apply draw_kept in Ed. cbn [fst snd] in Ed. destruct Ed as (F1 & F2 & F3). set (s2 := present _ _ _ _).
  assert (window_ok s2 ∧ timers_of s2 = timers_of s1) as [Hs2 E2].
  { unfold window_ok, history_ok, timers_of, search_of in *. unfold s2.
    cbn [context present set_screen set_context]. by rewrite F1, F2, F3. }
  intros Er. destruct (request_frame_spec window s2 s' Hs2 Er) as (Hs' & Hin & Hf). split; [done|].
  split; [|done]. intros y Hy. apply Hin. by rewrite E2, E1.
Qed.

(** Drawing: nothing happens while the window is occluded. *)
Lemma draw_window_spec window s s' :
  window_ok s → draw_window window s = Some s' →
  window_ok s' ∧ (∀ y, y ∈ Scheduler.timers (timers_of s) → y ∈ Scheduler.timers (timers_of s')) ∧
  (has_frame s' = false → has_frame s = false ∨ frame_pending window (timers_of s')) ∧ redraws s'.
Proof using EqDecision0.
  intros Hs. unfold draw_window. cbv zeta. change (occluded (set_requested_redraw false s)) with (occluded s).
  destruct (occluded s) eqn:Eo.
  { intros [= <-]. split; [exact Hs|]. split; [done|]. split; [by left|]. intros _ _ _ F.
    change (occluded s = false) in F. congruence. }
  destruct (process_renderer_update _) as [size sc]. set (s1 := set_surface _ _).
  assert (window_ok s1 ∧ timers_of s1 = timers_of s) as [Hs1 E1] by (by split).
  clearbody s1. unfold keep_ringing. destruct (now clock s1) as [n s2] eqn:En.
  destruct (VisualBell.completed n (visual_bell s2)) as [completed bell]. set (s3 := set_visual_bell bell s2).
  assert (window_ok s3 ∧ Scheduler.timers (timers_of s3) = Scheduler.timers (timers_of s1)) as [Hs3 E3].
  { destruct (now_handled _ _ _ En Hs1) as [Hs2 _]. split; [exact Hs2|]. by injection En as _ <-. }
  clearbody s3. set (s4 := if completed then _ else _).
  assert (window_ok s4 ∧ timers_of s4 = timers_of s3) as [Hs4 E4].
  { unfold s4. destruct completed; [by split|]. destruct (has_frame s3); by split. }
  clearbody s4. intros Ed. destruct (draw_frame_spec window s4 s' Hs4 Ed) as (Hs' & Hin & Hf & Hp).
  split; [done|]. split; [intros y Hy; apply Hin; by rewrite E4, E3, E1|].
  split; [by right|]. intros _ _ F. congruence.
Qed.
End Window.


(** * The application *)

Section Application.
Context `{External} `{Unicode} `{Winit} `{RegexCompiler} `{!VteColors} `{!CursorShapes} `{GlyphRuns}
  {W : Type} `{Countable W}.
Context (clock : nat → N) (clipboard_load : list Effect → ClipboardType → text) (rfuel : nat).
Context (config : UiConfig.t) (alt_option : OptionAsAlt) (bindings : list KeyBinding)
  (enabled : list (Hint * option HintBinding)) (colors : list Rgb) (min_height step : Z)
  (display_config : DisplayConfig) (draw_config : DrawConfig) (config_font : Font)
  (config_font_size : FontSize.t) (preserve_title : bool).
Context (zoom_delta : TouchZoom.t → TouchZoom.t → f32) (intensity : VisualBell.t → N → N)
  (render_timer : option text) (vblank_interval : N).
Import Processor.
#[local] Abbreviation window_context := (WindowContext.t W).
Implicit Types (p : Processor.t W) (s : window_context) (sch : Scheduler.t EventType W).

(** ** Timers *)

Lemma update_loop_timers fuel n sch sch' :
  Scheduler.update_loop clock fuel n sch = Some sch' → timers_ok sch → timers_ok sch'.
Proof using EqDecision0.
  revert sch. induction fuel as [|fuel IH]; intros sch; cbn [Scheduler.update_loop]; [done|].
  destruct (Scheduler.timers sch) as [|x rest] eqn:Et; [by intros [= <-]|].
  destruct (_ <=? _)%N; [|by intros [= <-]].
  set (s1 := Scheduler.mk rest (Scheduler.readings sch) (Scheduler.sent sch)).
  intros Eu [Ho Hn]. rewrite Et in Ho, Hn. apply IH in Eu; [done|].
  assert (timers_ok s1) as Hs1.
  { split; [by inv Ho|]. rewrite purposes_cons in Hn. by case_decide; [|apply NoDup_cons in Hn as [_ ?]]. }
  destruct (Timer.interval x) as [iv|]; [|exact Hs1].
  apply (schedule_timers_or clock s1 (Timer.event x) iv true (Timer.id x)); [|done].
  destruct (decide (topic (Timer.id x) = Frame)) as [?|Hf]; [by left|right].
  apply scheduled_elem. rewrite purposes_cons, decide_False in Hn by done.
  apply NoDup_cons in Hn as [Hn _]. rewrite elem_of_purposes in Hn. intros Hi. by apply Hn.
Qed.

Definition tagged sch : Scheduler.t (EventType * W) W :=
  Scheduler.mk (tag <$> Scheduler.timers sch) (Scheduler.readings sch) [].

Lemma rename_tag (l : list (Timer.t EventType W)) : rename_timer fst <$> (tag <$> l) = l.
Proof. induction l as [|[] l IH]; [done|]. rewrite !fmap_cons, IH. done. Qed.

Lemma update_timers_spec p p' :
  update_timers clock p = Some p' → scheduler_ok (scheduler p) →
  scheduler_ok (scheduler p') ∧ windows p' = windows p ∧ (∀ e, e ∈ proxy p → e ∈ proxy p') ∧
  ∀ id, frame_pending id (scheduler p) →
    frame_pending id (scheduler p') ∨ Payload FrameEvent (Some id) ∈ proxy p'.
Proof using EqDecision0.
  intros E [Ht Hf]. revert E. unfold update_timers, Scheduler.update, Scheduler.now. cbv zeta.
  change (Scheduler.mk (tag <$> Scheduler.timers (scheduler p)) (Scheduler.readings (scheduler p)) [])
    with (tagged (scheduler p)).
  set (n := clock _). cbn [Scheduler.timers Scheduler.readings Scheduler.sent tagged].
  set (s1 := Scheduler.mk (tag <$> _) _ _).
  destruct (Scheduler.update_loop clock _ n s1) as [s2|] eqn:Eu; cbn [mbind option_bind]; [|done].
  intros [= <-]. cbn [scheduler windows proxy send set_wait_until set_scheduler].
  pose proof (rename_update_loop clock fst (S (length (Scheduler.timers (scheduler p)))) n s1) as Er.
  rewrite Eu in Er. cbn [fmap option_fmap option_map] in Er.
  set (P := λ y : Timer.t (EventType * W) W,
    (Timer.event y).2 = window_id (Timer.id y) ∧
    (topic (Timer.id y) = Frame → (Timer.event y).1 = FrameEvent ∧ Timer.interval y = None)).
  destruct (update_loop_events clock (S (length (Scheduler.timers (scheduler p)))) n s1 s2 P) as (HP & _ & Hout); [|exact Eu| |].
  { intros [] [] ; cbn. unfold P; cbn. by intros -> -> ->. }
  { apply Forall_fmap, Forall_forall. intros y Hy. rewrite Forall_forall in Hf.
    split; [done|]. by apply Hf. }
  split; [split|split; [done|split]].
  - unfold timers_ok. cbn [Scheduler.timers]. apply (update_loop_timers _ _ _ _ Er).
    unfold timers_ok, rename. cbn [Scheduler.timers s1]. by rewrite rename_tag.
  - cbn [Scheduler.timers]. apply Forall_fmap, Forall_forall. intros y Hy Hy'.
    rewrite Forall_forall in HP. by apply HP.
  - intros e He. apply elem_of_app. by left.
  - intros id (y & Hy & Ey). rewrite Forall_forall in Hf.
    destruct (Hf y Hy) as [Ee Ei]; [by rewrite Ey|].
    destruct (Hout (tag y)) as [Hin|Hin]; [by apply list_elem_of_fmap_2|done| |].
    + left. exists (untag (tag y)). split; [by apply list_elem_of_fmap_2|done].
    + right. apply elem_of_app. right. apply list_elem_of_fmap. exists (FrameEvent, id). split; [done|].
      unfold tag in Hin. cbn [Timer.event] in Hin. by rewrite Ee, Ey in Hin.
Qed.

(** ** The invariant *)

Definition waits id p : Prop :=
  frame_pending id (scheduler p) ∨ Payload FrameEvent (Some id) ∈ proxy p.

Record shown id s p : Prop := {
  sh_history : history_ok (search_of s);
  sh_redraws : redraws s;
  sh_waits : WindowContext.has_frame s = false → waits id p;
}.

Record app_inv p : Prop := {
  ai_scheduler : scheduler_ok (scheduler p);
  ai_windows : ∀ id s, windows p !! id = Some s → shown id s p;
}.

(** What a window waits for does not get lost. *)
Definition still p p' : Prop := ∀ id, waits id p → waits id p'.

Lemma shown_still id s p p' : still p p' → shown id s p → shown id s p'.
Proof. intros Hp [? ? Hw]. split; auto. Qed.

Lemma app_inv_still p p' :
  scheduler_ok (scheduler p') → still p p' →
  (∀ id s, windows p' !! id = Some s → windows p !! id = Some s ∨ shown id s p') → app_inv p → app_inv p'.
Proof.
  intros Hs Hp Hw [_ Hi]. split; [done|]. intros id s Hid.
  destruct (Hw id s Hid) as [E|?]; [|done]. eapply shown_still; [done|by apply Hi].
Qed.

Lemma still_send es p p' :
  (∀ id, frame_pending id (scheduler p) → frame_pending id (scheduler p')) → proxy p' = proxy p ++ es → still p p'.
Proof. intros Hs E id [Hf|Hf]; [left; auto|right]. rewrite E. apply elem_of_app. by left. Qed.

(** One window changes, and the rest stays. *)
Lemma alter_inv id f p :
  (∀ s, windows p !! id = Some s → shown id s p → shown id (f s) p) → app_inv p → app_inv (alter_window f id p).
Proof.
  intros Hf Hi. pose proof Hi as [Hs Hw]. apply app_inv_still with p; [done|intros id' Hp; exact Hp|..|done].
  intros id' s. cbn [alter_window windows set_windows]. destruct (decide (id' = id)) as [->|Hne].
  - rewrite lookup_alter_eq. destruct (windows p !! id) as [s0|] eqn:E; [|done]. intros [= <-].
    right. destruct (Hf s0 eq_refl (Hw _ _ E)) as [? ? Hwait]. by split.
  - rewrite lookup_alter_ne by done. by left.
Qed.

(** What a call of a window has to ensure. *)
Definition call_ok id s s' : Prop :=
  window_ok s' ∧
  (∀ id', frame_pending id' (timers_of s) → frame_pending id' (timers_of s')) ∧
  (WindowContext.has_frame s' = false → WindowContext.has_frame s = false ∨ frame_pending id (timers_of s')) ∧
  redraws s'.

Lemma with_window_inv id f p p' :
  (∀ s, window_ok s → redraws s → may (f s) (call_ok id s)) →
  with_window id f p = Some p' → app_inv p → app_inv p'.
Proof.
  intros Hf. unfold with_window. destruct (windows p !! id) as [s|] eqn:E; [|by intros [= <-]].
  set (s0 := WindowContext.upd_context _ s). destruct (f s0) as [s'|] eqn:Ef; cbn [mbind option_bind]; [|done].
  intros [= <-] Hi. pose proof Hi as [Hsch Hw]. pose proof (Hw id s E) as [Hh Hr Hwait].
  assert (window_ok s0) as Hs0 by (split; [exact Hh|exact Hsch]).
  destruct (Hf s0 Hs0 Hr s' Ef) as ([Hh' Hsch'] & Hfr & Hhas & Hr').
  apply app_inv_still with p; [exact Hsch'|by eapply still_send|..|done].
  intros id' s1. cbn [windows send set_scheduler set_windows]. intros [[<- <-]|[Hne ?]]%lookup_insert_Some; [|by left].
  right. split; [done|done|]. intros Ehas. destruct (Hhas Ehas) as [E0|Hp]; [|by left].
  destruct (Hwait E0) as [Hp|Hp]; [left; by apply Hfr|right]. cbn [proxy send]. apply elem_of_app. by left.
Qed.

#[local] Abbreviation handle_event :=
  (Windows.handle_event clock clipboard_load rfuel config alt_option bindings enabled colors min_height step
     display_config config_font config_font_size preserve_title zoom_delta).

Lemma handled_call id s s' : window_ok s → handled s s' → redraws s' → call_ok id s s'.
Proof.
  intros Hs Hh Hr. destruct (Hh Hs) as (Hs' & Ef & Eh). split; [done|].
  split; [intros id'; by apply frame_pending_frames|]. split; [left; congruence|done].
Qed.

Lemma handle_event_call id e s :
  e ≠ RedrawRequested → window_ok s → redraws s → may (handle_event id e s) (call_ok id s).
Proof.
  intros He Hs Hr s' E. apply handled_call; [done|..].
  - eapply handle_event_handled, E.
  - eapply handle_event_redraws; [exact He|exact Hr|exact E].
Qed.

Lemma redraw_call id s :
  window_ok s → may (s ← handle_event id RedrawRequested s;
    Windows.draw_window clock rfuel draw_config intensity render_timer vblank_interval id s) (call_ok id s).
Proof using EqDecision0.
  intros Hs s'. destruct (handle_event id RedrawRequested s) as [s1|] eqn:E; cbn [mbind option_bind]; [|done].
  apply handle_event_handled in E. destruct (E Hs) as (Hs1 & Ef & Eh). intros Ed.
  eapply draw_window_spec in Ed as (Hs' & Hin & Hhas & Hr); [|exact Hs1].
  split; [done|]. split; [|split; [by rewrite <- Eh|done]].
  intros id' Hp. apply (frame_pending_frames _ _ (timers_of s1)) in Hp as (y & Hy & Ey); [|done].
  exists y. split; [by apply Hin|done].
Qed.

#[local] Abbreviation window_event :=
  (Applications.window_event clock clipboard_load rfuel config alt_option bindings enabled colors min_height step
     display_config draw_config config_font config_font_size preserve_title zoom_delta intensity render_timer
     vblank_interval).

Lemma window_event_inv id e p p' : window_event id e p = Some p' → app_inv p → app_inv p'.
Proof using EqDecision0.
  apply with_window_inv. intros s Hs Hr. destruct e as [| |e]; [|by apply redraw_call|].
  - intros s' E. destruct (handle_event id AboutToWait s) as [s1|] eqn:E1; cbn [mbind option_bind] in E; [|done].
    injection E as <-. by eapply (handle_event_call id AboutToWait).
  - intros s' E. destruct (handle_event id (Queued e) s) as [s1|] eqn:E1; cbn [mbind option_bind] in E; [|done].
    injection E as <-. by eapply (handle_event_call id (Queued e)).
Qed.

Lemma about_to_wait_inv order p p' :
  Applications.about_to_wait clock clipboard_load rfuel config alt_option bindings enabled colors min_height step
     display_config config_font config_font_size preserve_title zoom_delta order p = Some p' →
  app_inv p → app_inv p'.
Proof using EqDecision0.
  unfold Applications.about_to_wait. intros E Hi.
  assert (∀ p1, foldM (λ id, with_window id (handle_event id AboutToWait)) order p = Some p1 → app_inv p1) as Hfold.
  { clear E. revert p Hi. induction order as [|id order IH]; intros p Hi p1; cbn [foldM]; [by intros [= <-]|].
    destruct (with_window _ _ p) as [p2|] eqn:E2; cbn [mbind option_bind]; [|done].
    apply IH. eapply with_window_inv; [|exact E2|exact Hi]. intros s Hs Hr. by apply handle_event_call. }
  destruct (foldM _ order p) as [p1|]; cbn [mbind option_bind] in E; [|done].
  pose proof (Hfold p1 eq_refl) as Hi1. pose proof Hi1 as [Hs _].
  eapply update_timers_spec in E as (Hs' & Ew & Hin & Hf); [|exact Hs].
  apply app_inv_still with p1; [done|..|done].
  - intros id [Hp|Hp]; [by apply Hf|right; by apply Hin].
  - intros id s. rewrite Ew. by left.
Qed.

(** ** Events of the application *)

Lemma shown_enqueue e id s p : shown id s p → shown id (enqueue e s) p.
Proof. intros [Hh Hr Hw]. split; [done| |done]. intros Hq. by apply app_eq_nil in Hq as [_ [=]]. Qed.

Lemma shown_wakeup id s p : shown id s p → shown id (wakeup s) p.
Proof.
  intros [Hh Hr Hw]. unfold wakeup. change (WindowContext.has_frame (WindowContext.mark_dirty s)) with (WindowContext.has_frame s).
  destruct (WindowContext.has_frame s) eqn:E.
  { split; [exact Hh|by intros _ _ _ _|]. intros F. change (WindowContext.has_frame s = false) in F. congruence. }
  split; [done| |by intros _; apply Hw].
  intros _ _ F. change (WindowContext.has_frame s = true) in F. congruence.
Qed.

Lemma shown_frame id s p : shown id s p → shown id (frame s) p.
Proof.
  intros [Hh Hr Hw]. unfold frame. cbv zeta.
  change (WindowContext.dirty (WindowContext.set_has_frame true s)) with (WindowContext.dirty s).
  destruct (WindowContext.dirty s) eqn:E; [by split; [exact Hh|by intros _ _ _ _|]|]. split; [done| |done].
  intros _ F. change (WindowContext.dirty s = true) in F. congruence.
Qed.

Lemma purposes_sublist (l1 l2 : list (Timer.t EventType W)) :
  sublist l1 l2 → sublist (purposes l1) (purposes l2).
Proof. induction 1; rewrite ?purposes_cons; [done|..]; case_decide; by try constructor. Qed.

Lemma unschedule_window_ok id sch :
  scheduler_ok sch → scheduler_ok (Scheduler.unschedule_window id sch) ∧
  ∀ id', id' ≠ id → frame_pending id' sch → frame_pending id' (Scheduler.unschedule_window id sch).
Proof.
  intros [[Ho Hn] Hf]. split; [split; [split|]|].
  - by apply unschedule_window_in_order.
  - eapply sublist_NoDup; [exact Hn|]. apply purposes_sublist, sublist_filter.
  - apply Forall_forall. intros y [_ Hy]%list_elem_of_filter. rewrite Forall_forall in Hf. by apply Hf.
  - intros id' Hne (y & Hy & Ey). exists y. split; [|done]. apply list_elem_of_filter.
    split; [by rewrite Ey|done].
Qed.

Lemma exit_inv p : app_inv p → app_inv (exit p).
Proof.
  intros Hi. apply app_inv_still with p; [by destruct Hi|intros id' Hp; exact Hp|by left|exact Hi].
Qed.

Lemma close_window_inv id p : app_inv p → app_inv (close_window id p).
Proof.
  intros Hi. unfold close_window. destruct (windows p !! id) as [s|] eqn:E; [|done].
  destruct (Display.hold _); [done|]. cbv zeta. set (p1 := set_scheduler _ _).
  assert (app_inv p1) as Hi1.
  { pose proof Hi as [Hs Hw]. destruct (unschedule_window_ok id _ Hs) as [Hs' Hf]. split; [done|].
    intros id' s'. cbn [windows set_scheduler set_windows p1]. intros [Hne E']%lookup_delete_Some.
    destruct (Hw _ _ E') as [? ? Hwait]. split; [done|done|]. intros Hh.
    destruct (Hwait Hh) as [Hp|Hp]; [left; by apply Hf|right; exact Hp]. }
  destruct (_ && _); [by apply exit_inv|done].
Qed.

Lemma user_event_inv e p : app_inv p → app_inv (user_event e p).
Proof.
  intros Hi. destruct e as [payload [id|]|]; cbn [user_event]; [| |by apply exit_inv].
  - assert (∀ f, (∀ s, shown id s p → shown id (f s) p) → app_inv (alter_window f id p)) as Ha.
    { intros f Hf. apply alter_inv; [|done]. intros s _. apply Hf. }
    assert (app_inv (alter_window (enqueue (UserEvent payload)) id p)) as Hpush
      by (apply Ha; intros; by apply shown_enqueue).
    destruct payload as [e| | | | | |]; try exact Hpush.
    + destruct e; try exact Hpush.
      * apply Ha. intros. by apply shown_wakeup.
      * by apply close_window_inv.
    + apply Ha. intros. by apply shown_frame.
  - assert (user_event (Payload payload None) p = set_windows (enqueue (UserEvent payload) <$> windows p) p) as E0
      by (destruct payload as [e| | | | | |]; [destruct e|..]; reflexivity).
    change (app_inv (user_event (Payload payload None) p)). rewrite E0.
    pose proof Hi as [Hs Hw]. apply app_inv_still with p; [exact Hs|intros id Hp; exact Hp| |exact Hi].
    intros id s. cbn [windows set_windows]. rewrite lookup_fmap.
    destruct (windows p !! id) as [s0|] eqn:E; [|done]. intros [= <-]. right.
    pose proof (shown_enqueue (UserEvent payload) id s0 p (Hw _ _ E)) as [? ? ?]. split; assumption.
Qed.

#[local] Abbreviation app_step :=
  (Applications.app_step clock clipboard_load rfuel config alt_option bindings enabled colors min_height step
     display_config draw_config config_font config_font_size preserve_title zoom_delta intensity render_timer
     vblank_interval).

(** An event for the application is handled: nobody waits for it any more. *)
Lemma pop_inv e rest p : proxy p = e :: rest → app_inv p → app_inv (user_event e (set_proxy rest p)).
Proof.
  intros Ep Hi. pose proof Hi as [Hs Hw].
  assert (∀ id, e ≠ Payload FrameEvent (Some id) → waits id p → waits id (set_proxy rest p)) as Hpop.
  { intros id Hne [Hp|Hp]; [by left|right]. rewrite Ep in Hp. by apply elem_of_cons in Hp as [?|?]. }
  assert ((∃ id, e = Payload FrameEvent (Some id)) ∨ ∀ id, e ≠ Payload FrameEvent (Some id)) as [[id ->]|Hne].
  { destruct e as [payload [id|]|]; [|by right..]. destruct payload; try by right. left. by exists id. }
  - split; [exact Hs|]. intros id' s. cbn [user_event alter_window windows set_windows set_proxy].
    intros [[<- (s0 & E & ->)]|[Hne E]]%lookup_alter_Some.
    + pose proof (shown_frame id s0 p (Hw _ _ E)) as [? ? _]. split; [done|done|].
      unfold frame. cbv zeta. by destruct (WindowContext.dirty _).
    + destruct (Hw _ _ E) as [? ? Hwait]. split; [done|done|]. intros Hh. apply Hpop; [congruence|auto].
  - apply user_event_inv. apply app_inv_still with p; [done|intros id; by apply Hpop|by left|done].
Qed.

Lemma step_inv p p' : app_step p p' → app_inv p → app_inv p'.
Proof using EqDecision0.
  destruct 1 as [id s p Hid Ho|id e p p' _ E|e rest p Ep|order p p' _ E|id t events p|es p]; intros Hi.
  - destruct Ho as (_ & Hf & Hd & Es). pose proof Hi as [Hs _].
    apply app_inv_still with p; [done|intros id' Hp; exact Hp|..|done]. intros id' s'.
    cbn [windows set_windows]. intros [[<- <-]|[Hne ?]]%lookup_insert_Some; [right|by left].
    split; [|intros _ F; congruence|congruence]. unfold search_of. rewrite Es.
    split; [apply Nat.le_0_l|by intros i [=]].
  - by eapply window_event_inv.
  - by apply pop_inv.
  - by eapply about_to_wait_inv.
  - apply app_inv_still with (alter_window (WindowContext.upd_context (Context.set_terminal t)) id p).
    + by destruct Hi.
    + by eapply still_send.
    + by left.
    + apply alter_inv; [|done]. intros s _ [? ? ?]. by split.
  - apply app_inv_still with p; [by destruct Hi|by eapply still_send|by left|done].
Qed.

Lemma new_inv daemon : app_inv (Processor.new daemon).
Proof. split; [split; [split|]; constructor|]. intros id s E. cbn [windows Processor.new] in E. by rewrite lookup_empty in E. Qed.

(** C9.  Whatever the window system, the terminals, the timers and others do, in whatever order: when a
    window has handled its events, its content changed and it is visible, then a redraw of it is
    requested, or it waits for its next frame, for which a timer is scheduled or an event is sent. *)
Theorem changes_are_drawn daemon p id s :
  rtc app_step (Processor.new daemon) p → windows p !! id = Some s →
  WindowContext.event_queue s = [] → WindowContext.dirty s = true → WindowContext.occluded s = false →
  WindowContext.requested_redraw s = true ∨
  WindowContext.has_frame s = false ∧
    ((∃ y, y ∈ Scheduler.timers (scheduler p) ∧ Timer.id y = mkTimerId Frame id ∧ Timer.event y = FrameEvent)
     ∨ Payload FrameEvent (Some id) ∈ proxy p).
Proof using EqDecision0.
  intros Hr Hid Hq Hd Ho.
  assert (app_inv p) as [[_ Hf] Hw].
  { pose proof (new_inv daemon) as Hi. clear Hid. induction Hr as [p|p1 p2 p3 Hstep _ IH]; [done|].
    apply IH. by eapply step_inv. }
  destruct (Hw id s Hid) as [_ Hred Hwait].
  destruct (WindowContext.has_frame s) eqn:Eh; [left; by apply Hred|right]. split; [done|].
  destruct (Hwait eq_refl) as [(y & Hy & Ey)|?]; [left|by right]. exists y. split_and!; [done..|].
  rewrite Forall_forall in Hf. destruct (Hf y Hy) as [E _]; [by rewrite Ey|done].
Qed.
End Application.

(** * A sample *)

Module AppSample.
#[local] Existing Instances Sample.external ascii_unicode sample_winit HintMatchProps.Single
  HintMatchProps.single_compiler ColorSample.colors FontSample.fonts PaintSample.runs.
#[local] Instance shapes : CursorShapes := {| shape_Beam := 4%N; shape_Underline := 5%N |}.

Definition window : WindowContext.t unit :=
  WindowContext.mk
    (Context.set_mouse (Mouse.default 0) (ScreenSample.context FrameSample.term))
    ScreenSample.screen [] (VisualBell.mk 0 None) (FrameTimer.new 0) true false FontSize.default
    (F32.of_Z 1) [] PaintSample.batch (0, 0)%Z [].
Definition draws : DrawConfig :=
  mkDrawConfig _ FrameSample.config FrameSample.palette 65536 (0, 0, 0)%N.

#[local] Abbreviation sample_event :=
  (Applications.window_event sample_clock (λ _ _, []) 60 sample_config NoneAlt [] [] [] 5%Z 2%Z
    (mkDisplayConfig (0, 0)%Z false false) draws FontSample.font FontSize.default false
    (λ _ _, F32.of_Z 0) (λ _ _, 0%N) None 16666000%N).
#[local] Abbreviation sample_step :=
  (Applications.app_step sample_clock (λ _ _, []) 60 sample_config NoneAlt [] [] [] 5%Z 2%Z
    (mkDisplayConfig (0, 0)%Z false false) draws FontSample.font FontSize.default false
    (λ _ _, F32.of_Z 0) (λ _ _, 0%N) None 16666000%N).

(** The terminal wakes the application up. *)
Definition wake : AppEvent unit := Payload (TerminalEvent Wakeup) (Some tt).
Definition opened_app : Processor.t unit :=
  Processor.set_windows (<[tt := window]> ∅) (Processor.new false).
Definition changed (p : Processor.t unit) : Processor.t unit :=
  user_event wake (Processor.set_proxy [] (Processor.send [wake] p)).
(** The window is redrawn, and its content changes again. *)
Definition drawn : Processor.t unit :=
  default opened_app (sample_event tt RedrawRequested (changed opened_app)).

Definition waiting : Processor.t unit := changed drawn.
Definition waiting_window : WindowContext.t unit := default window (Processor.windows waiting !! tt).

Lemma redrawn : sample_event tt RedrawRequested (changed opened_app) = Some drawn.
Proof.
  assert (bool_decide (is_Some (sample_event tt RedrawRequested (changed opened_app))) = true) as E
    by (vm_compute; reflexivity).
  unfold drawn. destruct (sample_event tt RedrawRequested (changed opened_app)); [done|].
  apply bool_decide_eq_true in E. by destruct E.
Qed.

Lemma waiting_shown : Processor.windows waiting !! tt = Some waiting_window.
Proof.
  assert (bool_decide (is_Some (Processor.windows waiting !! tt)) = true) as E by (vm_compute; reflexivity).
  unfold waiting_window. destruct (Processor.windows waiting !! tt); [done|].
  apply bool_decide_eq_true in E. by destruct E.
Qed.

Lemma changed_steps p : Processor.proxy p = [] → rtc sample_step p (changed p).
Proof.
  intros Ep. eapply rtc_l; [apply app_send with (es := [wake])|].
  apply rtc_once. apply app_user_event. unfold Processor.send. cbn [Processor.proxy]. by rewrite Ep.
Qed.

Lemma waiting_reached : rtc sample_step (Processor.new false) waiting.
Proof.
  apply (rtc_l _ _ opened_app).
  { apply app_open; [reflexivity|]. by repeat split. }
  etrans; [by apply changed_steps|].
  eapply rtc_l; [by eapply (app_window_event), redrawn|].
  apply changed_steps. vm_compute. reflexivity.
Qed.

(** The letters are drawn once, as one run of glyphs. *)
Example one_frame :
  match Processor.windows drawn !! tt with
  | Some s => length ∘ fst <$> WindowContext.presented s
  | None => []
  end = [1].
Proof. vm_compute. reflexivity. Qed.
End AppSample.

#[local] Existing Instances Sample.external ascii_unicode sample_winit HintMatchProps.Single
  HintMatchProps.single_compiler ColorSample.colors FontSample.fonts PaintSample.runs.

Lemma changes_are_drawn_witness :
  WindowContext.dirty AppSample.waiting_window = true ∧
  (WindowContext.requested_redraw AppSample.waiting_window = true ∨
   WindowContext.has_frame AppSample.waiting_window = false ∧
   ((∃ y, y ∈ Scheduler.timers (Processor.scheduler AppSample.waiting) ∧
       Timer.id y = mkTimerId Frame tt ∧ Timer.event y = FrameEvent)
    ∨ Payload FrameEvent (Some tt) ∈ Processor.proxy AppSample.waiting)).
Proof.
  split; [vm_compute; reflexivity|].
  eapply changes_are_drawn; [exact AppSample.waiting_reached|exact AppSample.waiting_shown|..];
    vm_compute; reflexivity.
Defined.
