(* ===== verification/Configs.v ===== *)
(** The configuration before it is deserialised ([cutty/src/config/mod.rs],
    [cutty/src/config/serde_utils.rs], [cutty/src/config/monitor.rs], [cutty/src/cli.rs]): files are
    read with their imports, settings of older versions are moved, and options override the result.

    A table is the list of its entries in the order of the keys, as the map of the [toml] crate.  The
    file system and the parser are parameters; paths are those of Unix, as their components. *)
From stdpp Require Import sorting strings.
From S2P Require Import Prelude Cells TermData Keys.
#[local] Open Scope nat_scope.

(** * [toml::Table] *)

Module Table.
Definition t : Type := list (text * TomlValue).
Implicit Types l : t.

(** [Ord] of strings, which is that of their characters. *)
Fixpoint compare_keys (a b : text) : comparison :=
  match a, b with
  | [], [] => Eq
  | [], _ => Lt
  | _, [] => Gt
  | x :: a, y :: b => match (x ?= y)%N with Eq => compare_keys a b | c => c end
  end.

Definition get (k : text) l : option TomlValue :=
  match list_find (λ e, e.1 = k) l with Some (_, e) => Some e.2 | None => None end.
Definition remove (k : text) l : t := filter (λ e, e.1 ≠ k) l.
Fixpoint insert (k : text) (v : TomlValue) l : t :=
  match l with
  | [] => [(k, v)]
  | (k', v') :: l' =>
      match compare_keys k k' with
      | Lt => (k, v) :: l
      | Eq => (k, v) :: l'
      | Gt => (k', v') :: insert k v l'
      end
  end.
(** A change through [get_mut]. *)
Fixpoint alter (k : text) (f : TomlValue → TomlValue) l : t :=
  match l with
  | [] => []
  | (k', v) :: l => if decide (k' = k) then (k', f v) :: l else (k', v) :: alter k f l
  end.
(** [entry(k).or_insert(v)]. *)
Definition or_insert (k : text) (v : TomlValue) l : t :=
  match get k l with Some _ => l | None => insert k v l end.
End Table.

(** [Value::get] with a key. *)
Definition value_get (k : text) (v : TomlValue) : option TomlValue :=
  match v with VTable l => Table.get k l | _ => None end.

(** * [serde_utils::merge] *)

(** [merge_tables], for a way to merge values. *)
Definition merge_entry (merge : TomlValue → TomlValue → TomlValue) (base : Table.t) (e : text * TomlValue) :
    Table.t :=
  let value := match Table.get e.1 base with Some base_value => merge base_value e.2 | None => e.2 end in
  Table.insert e.1 value (Table.remove e.1 base).

Fixpoint merge (base replacement : TomlValue) {struct replacement} : TomlValue :=
  match base, replacement with
  | VArray base, VArray replacement => VArray (base ++ replacement)
  | VTable base, VTable replacement => VTable (fold_left (merge_entry merge) replacement base)
  | _, value => value
  end.
Definition merge_tables (base replacement : Table.t) : Table.t :=
  fold_left (merge_entry merge) replacement base.

(** * Settings of older versions *)

Fixpoint insert_if_missing (path : list text) (value : TomlValue) (table : Table.t) : Table.t :=
  match path with
  | [] => table
  | [segment] => Table.or_insert segment value table
  | segment :: rest =>
      Table.alter segment
        (λ entry, match entry with VTable next => VTable (insert_if_missing rest value next) | _ => entry end)
        (Table.or_insert segment (VTable []) table)
  end.

Definition move_legacy_value (origin : text) (target : list text) (table : Table.t) : Table.t :=
  match Table.get origin table with
  | Some value => insert_if_missing target value (Table.remove origin table)
  | None => table
  end.

(** A change of the table that [table_at_mut] finds. *)
Fixpoint at_table (path : list text) (f : Table.t → Table.t) (table : Table.t) : Table.t :=
  match path with
  | [] => f table
  | segment :: rest =>
      Table.alter segment (λ v, match v with VTable next => VTable (at_table rest f next) | _ => v end) table
  end.

Definition rename_nested_value (path : list text) (origin target : text) (table : Table.t) : Table.t :=
  at_table path (λ table,
    match Table.get origin table with
    | Some value => Table.or_insert target value (Table.remove origin table)
    | None => table
    end) table.

Definition legacy_moves : list (text * list text) :=
  [(str "draw_bold_text_with_bright_colors", [str "colors"; str "draw_bold_text_with_bright_colors"]);
   (str "key_bindings", [str "keyboard"; str "bindings"]);
   (str "mouse_bindings", [str "mouse"; str "bindings"]);
   (str "live_config_reload", [str "general"; str "live_config_reload"]);
   (str "working_directory", [str "general"; str "working_directory"]);
   (str "ipc_socket", [str "general"; str "ipc_socket"]);
   (str "import", [str "general"; str "import"]);
   (str "shell", [str "terminal"; str "shell"])].
Definition legacy_renames : list (list text * text * text) :=
  [([str "colors"; str "cursor"], str "text", str "foreground");
   ([str "colors"; str "cursor"], str "cursor", str "background");
   ([str "colors"; str "vi_mode_cursor"], str "text", str "foreground");
   ([str "colors"; str "vi_mode_cursor"], str "cursor", str "background");
   ([str "colors"; str "selection"], str "text", str "foreground");
   ([str "colors"; str "selection"], str "cursor", str "background")].

Definition normalize_table (table : Table.t) : Table.t :=
  foldl (λ table '(path, origin, target), rename_nested_value path origin target table)
    (foldl (λ table '(origin, target), move_legacy_value origin target table) table legacy_moves)
    legacy_renames.
Definition normalize_legacy_toml (config : TomlValue) : TomlValue :=
  match config with VTable table => VTable (normalize_table table) | _ => config end.

(** * Paths *)

(** Whether it is absolute, and its components without separators; a dot is kept at the beginning of a
    relative path only. *)
Record Path := mkPath { absolute : bool; components : list text }.
#[export] Instance Path_eq_dec : EqDecision Path.
Proof. solve_decision. Defined.

Definition SLASH : N := 47.
Fixpoint segments (s segment : text) : list text :=
  match s with
  | [] => [segment]
  | c :: s => if (c =? SLASH)%N then segment :: segments s [] else segments s (segment ++ [c])
  end.
Definition dot : text := [46%N].
Definition no_dots (l : list text) : list text := filter (λ s, s ≠ dot) l.
Definition path_of (s : text) : Path :=
  let parts := filter (λ s, s ≠ []) (segments s []) in
  match s with
  | 47%N :: _ => mkPath true (no_dots parts)
  | _ => mkPath false (match parts with
                       | first :: rest => first :: no_dots rest
                       | [] => []
                       end)
  end.
Definition is_relative (p : Path) : bool := negb (absolute p).
Definition parent (p : Path) : option Path :=
  match components p with [] => None | _ => Some (mkPath (absolute p) (removelast (components p))) end.
Definition join (p q : Path) : Path :=
  if absolute q then q
  else match p with
       | mkPath false [] => q
       | _ => mkPath (absolute p) (components p ++ no_dots (components q))
       end.
(** [strip_prefix("~/")]. *)
Definition strip_home (p : Path) : option Path :=
  match p with
  | mkPath false ([126%N] :: rest) => Some (mkPath false rest)
  | _ => None
  end.

(** * Reading files *)

(** The kinds of errors the source tells apart. *)
Inductive LoadError := NotFound | OtherIo | TomlError.

Section load.
Context (read_to_string : Path → result LoadError text) (from_str : text → result LoadError TomlValue).
Context (home_dir : option Path).

Definition IMPORT_RECURSION_LIMIT : nat := 5.
(** The byte order mark. *)
Definition BOM : N := 65279.

Definition deserialize_toml_config (contents : text) : result LoadError TomlValue :=
  match from_str contents with
  | Ok config => Ok (normalize_legacy_toml config)
  | Err e => Err e
  end.
Definition deserialize_config (path : Path) : result LoadError TomlValue :=
  match read_to_string path with
  | Ok contents =>
      deserialize_toml_config (match contents with
                               | c :: rest => if (c =? BOM)%N then rest else contents
                               | [] => []
                               end)
  | Err e => Err e
  end.

Definition normalize_import (base_config_path import_path : Path) : Path :=
  let import_path :=
    match strip_home import_path, home_dir with
    | Some stripped, Some home_dir => join home_dir stripped
    | _, _ => import_path
    end in
  if is_relative import_path then
    match parent base_config_path with
    | Some base_config_dir => join base_config_dir import_path
    | None => import_path
    end
  else import_path.

(** Errors of the list of imports as a whole. *)
Inductive ImportError := InvalidImportType | ExceededImportDepth.

(** [imports]: an element that is not a path is [None]. *)
Definition imports (config : TomlValue) (base_path : Path) (recursion_limit : nat) :
    result ImportError (list (option Path)) :=
  let imports :=
    match value_get (str "general") config ≫= value_get (str "import") with
    | Some imports => Some imports
    | None => value_get (str "import") config
    end in
  match imports with
  | Some (VArray imports) =>
      if negb (length imports =? 0) && (recursion_limit =? 0) then Err ExceededImportDepth
      else Ok ((λ import, match import with
                          | VString path => Some (normalize_import base_path (path_of path))
                          | _ => None
                          end) <$> imports)
  | Some _ => Err InvalidImportType
  | None => Ok []
  end.

(** The loop of [load_imports], for the configuration of an import; errors are logged. *)
Fixpoint merge_imports (parse : Path → list Path → option (result LoadError TomlValue * list Path))
    (import_paths : list (option Path)) (merged : TomlValue) (config_paths : list Path) :
    option (TomlValue * list Path) :=
  match import_paths with
  | [] => Some (merged, config_paths)
  | None :: rest => merge_imports parse rest merged config_paths
  | Some path :: rest =>
      '(parsed, config_paths) ← parse path config_paths;
      merge_imports parse rest (match parsed with Ok config => merge merged config | Err _ => merged end)
        config_paths
  end.

(** [parse_config] and [load_imports]; the depth may not become negative. *)
Fixpoint parse_config (recursion_limit : nat) (path : Path) (config_paths : list Path) :
    option (result LoadError TomlValue * list Path) :=
  let config_paths := config_paths ++ [path] in
  match deserialize_config path with
  | Err e => Some (Err e, config_paths)
  | Ok config =>
      '(imports, config_paths) ←
        (match imports config path recursion_limit with
         | Err _ => Some (VTable [], config_paths)
         | Ok import_paths =>
             merge_imports (match recursion_limit with
                            | O => λ _ _, None
                            | S recursion_limit => parse_config recursion_limit
                            end) import_paths (VTable []) config_paths
         end);
      Some (Ok (merge imports config), config_paths)
  end.
Definition read_value (path : Path) : option (result LoadError TomlValue * list Path) :=
  parse_config IMPORT_RECURSION_LIMIT path [].
End load.

(** * Options *)

(** [ParsedOptions]: what the user wrote and its value; an option that is refused may still change the
    configuration. *)
Section options.
Context {Config : Type} (replace : TomlValue → Config → bool * Config).
Definition ParsedOptions : Type := list (text * TomlValue).

(** [swap_remove]: the last element takes the place of the removed one. *)
Definition swap_remove {A} (i : nat) (l : list A) : option (list A) :=
  _ ← l !! i;
  final ← last l;
  Some (if i =? length l - 1 then removelast l else <[i := final]> (removelast l)).

(** The loop of [override_config]. *)
Fixpoint override_loop (fuel i : nat) (options : list (text * TomlValue)) (config : Config) :
    option (list (text * TomlValue) * Config) :=
  match fuel with
  | O => None
  | S fuel =>
      if i <? length options then
        option ← options !! i;
        let '(accepted, config) := replace option.2 config in
        if accepted : bool then override_loop fuel (S i) options config
        else
          options ← swap_remove i options;
          override_loop fuel i options config
      else Some (options, config)
  end.
Definition override_config (options : ParsedOptions) (config : Config) : option (ParsedOptions * Config) :=
  override_loop (S (length options)) 0 options config.
Definition from_options (from_str : text → result LoadError TomlValue) (options : list text) : ParsedOptions :=
  omap (λ option, match from_str option with Ok parsed => Some (option, parsed) | Err _ => None end) options.
End options.

(** * The monitor of the files *)

Module ConfigMonitor.
Definition MAX_PATHS : nat := 1024.
Section monitor.
(** The order of paths and the hash of a list of them. *)
Context (path_le : relation (option Path)) `{!RelDecision path_le} (hash : list (option Path) → N).
(** [hash_paths]: of the sorted paths, filled up to the limit. *)
Definition hash_paths (files : list Path) : option N :=
  if MAX_PATHS <? length files then None
  else Some (hash (merge_sort path_le ((Some <$> files) ++ replicate (MAX_PATHS - length files) None))).
Definition needs_restart (watched_hash : option N) (files : list Path) : bool :=
  match hash_paths files with
  | None => true
  | Some hash => bool_decide (Some hash = watched_hash)
  end.
End monitor.
End ConfigMonitor.
