(* ===== verification/ConfigProps.v ===== *)
(** The configuration before it is deserialised: which value a setting has after files are merged, that
    loading ends and keeps the settings of the file itself, that the settings of older versions are
    moved to where they are now, and what becomes of the options. *)
From stdpp Require Import sorting strings.
From S2P Require Import Prelude Cells TermData Keys Configs.
#[local] Open Scope nat_scope.
#[local] Set Default Proof Using "Type".

(** * Tables *)

Module TableFacts.
Import Table.
Implicit Types l : t.

Lemma compare_keys_eq a b : compare_keys a b = Eq ↔ a = b.
Proof.
  revert b. induction a as [|x a IH]; intros [|y b]; cbn; try (split; congruence).
  destruct (N.compare_spec x y) as [->|?|?].
  - rewrite IH. split; congruence.
  - split; [discriminate|]. intros [= -> _]. lia.
  - split; [discriminate|]. intros [= -> _]. lia.
Qed.
Lemma compare_keys_refl a : compare_keys a a = Eq.
Proof. by apply compare_keys_eq. Qed.

Lemma get_nil k : get k [] = None.
Proof. done. Qed.
Lemma get_cons k k' v l : get k ((k', v) :: l) = if decide (k' = k) then Some v else get k l.
Proof.
  unfold get. cbn. destruct (decide (k' = k)); [done|].
  by destruct (list_find _ l) as [[]|].
Qed.
Lemma get_None k l : get k l = None ↔ k ∉ l.*1.
Proof.
  induction l as [|[k' v] l IH]; [cbn; set_solver|].
  rewrite get_cons. cbn. destruct (decide (k' = k)); set_solver.
Qed.
Lemma get_Some_elem k l v : get k l = Some v → (k, v) ∈ l.
Proof.
  induction l as [|[k' v'] l IH]; [done|].
  rewrite get_cons. destruct (decide (k' = k)) as [->|]; [|set_solver].
  intros [= ->]. left.
Qed.

Lemma remove_cons k k' v l : remove k ((k', v) :: l) = if decide (k' = k) then remove k l else (k', v) :: remove k l.
Proof.
  unfold remove, filter. cbn. destruct (decide (k' = k)), (decide (k' ≠ k)); tauto || done.
Qed.
Lemma get_remove k k' l : get k (remove k' l) = if decide (k = k') then None else get k l.
Proof.
  induction l as [|[k1 v] l IH]; [by destruct (decide _)|].
  rewrite remove_cons, get_cons.
  destruct (decide (k1 = k')) as [->|]; [|rewrite get_cons]; rewrite IH;
    repeat destruct (decide _); congruence.
Qed.
Lemma remove_absent k l : get k l = None → remove k l = l.
Proof.
  intros H. induction l as [|[k' v] l IH]; [done|].
  rewrite get_cons in H. rewrite remove_cons. destruct (decide (k' = k)); [done|]. by rewrite IH.
Qed.
Lemma remove_keys k l x : x ∈ (remove k l).*1 ↔ x ∈ l.*1 ∧ x ≠ k.
Proof.
  induction l as [|[k' v] l IH]; [cbn; set_solver|].
  rewrite remove_cons. destruct (decide (k' = k)) as [->|]; cbn; set_solver.
Qed.

Lemma get_insert k k' v l : get k' l = None → get k (insert k' v l) = if decide (k = k') then Some v else get k l.
Proof.
  intros H. induction l as [|[k1 v1] l IH]; cbn [insert].
  - rewrite get_cons. repeat destruct (decide _); congruence.
  - rewrite get_cons in H. destruct (decide (k1 = k')) as [|Hne]; [done|].
    destruct (compare_keys k' k1) eqn:Hc.
    + apply compare_keys_eq in Hc. congruence.
    + rewrite get_cons. repeat destruct (decide _); congruence.
    + rewrite !get_cons, (IH H). repeat destruct (decide _); congruence.
Qed.
Lemma insert_perm k v l : get k l = None → insert k v l ≡ₚ (k, v) :: l.
Proof.
  intros H. induction l as [|[k1 v1] l IH]; cbn; [done|].
  rewrite get_cons in H. destruct (decide (k1 = k)); [done|].
  destruct (compare_keys k k1) eqn:Hc; [apply compare_keys_eq in Hc; congruence|done|].
  rewrite (IH H). by rewrite Permutation_swap.
Qed.
Lemma get_alter k k' f l : get k (alter k' f l) = if decide (k = k') then f <$> get k l else get k l.
Proof.
  induction l as [|[k1 v1] l IH]; [by destruct (decide _)|].
  cbn [alter]. destruct (decide (k1 = k')) as [->|].
  - rewrite !get_cons. repeat destruct (decide _); cbn; congruence.
  - rewrite !get_cons, IH. repeat destruct (decide _); cbn; congruence.
Qed.
Lemma alter_keys k f l : (alter k f l).*1 = l.*1.
Proof.
  induction l as [|[k1 v1] l IH]; [done|].
  cbn. destruct (decide (k1 = k)) as [->|]; cbn; congruence.
Qed.
Lemma alter_id k f l : (∀ v, get k l = Some v → f v = v) → alter k f l = l.
Proof.
  induction l as [|[k1 v1] l IH]; intros H; [done|].
  cbn [alter]. pose proof (H v1) as H1. rewrite get_cons in H1.
  destruct (decide (k1 = k)) as [->|]; [by rewrite H1|].
  rewrite IH; [done|]. intros v Hv. apply H. rewrite get_cons. by destruct (decide _).
Qed.
Lemma get_or_insert k k' v l :
  get k (or_insert k' v l) = if decide (k = k') then Some (default v (get k' l)) else get k l.
Proof.
  unfold or_insert. destruct (get k' l) as [v'|] eqn:H; cbn.
  - destruct (decide _); congruence.
  - by rewrite get_insert.
Qed.
End TableFacts.

(** * Settings by their paths *)

(** The value at a path. *)
Fixpoint find (p : list text) (v : TomlValue) : option TomlValue :=
  match p with [] => Some v | k :: p => value_get k v ≫= find p end.
(** Whether something that is not a table is on the way to a path. *)
Fixpoint blocked (p : list text) (v : TomlValue) : bool :=
  match p with
  | [] => false
  | k :: p => match v with
              | VTable l => match Table.get k l with Some v => blocked p v | None => false end
              | _ => true
              end
  end.
(** Neither of two paths leads through the other. *)
Fixpoint diverge (p q : list text) : bool :=
  match p, q with
  | a :: p, b :: q => if decide (a = b) then diverge p q else true
  | _, _ => false
  end.

Lemma diverge_sym p q : diverge p q = diverge q p.
Proof.
  revert q. induction p as [|a p IH]; intros [|b q]; try done. cbn.
  rewrite IH. repeat destruct (decide _); congruence.
Qed.
Lemma diverge_one q o : diverge q [o] → ∃ a q', q = a :: q' ∧ a ≠ o.
Proof.
  destruct q as [|a q]; [done|]. cbn. destruct (decide (a = o)); [by destruct q|]. eauto.
Qed.
Lemma find_app p q v : find (p ++ q) v = find p v ≫= find q.
Proof.
  revert v. induction p as [|k p IH]; intros v; [done|].
  cbn. destruct (value_get k v); cbn; [apply IH|done].
Qed.

(** A change of a table does not touch a path. *)
Definition untouched (q : list text) (t t' : Table.t) : Prop :=
  find q (VTable t') = find q (VTable t) ∧ blocked q (VTable t') = blocked q (VTable t).
Lemma untouched_trans q t1 t2 t3 : untouched q t1 t2 → untouched q t2 t3 → untouched q t1 t3.
Proof. unfold untouched. intros [-> ->]. done. Qed.
Lemma untouched_get a q t t' : Table.get a t' = Table.get a t → untouched (a :: q) t t'.
Proof. intros H. split; cbn; by rewrite H. Qed.
Lemma untouched_below a q t t' n n' :
  Table.get a t = Some (VTable n) → Table.get a t' = Some (VTable n') → untouched q n n' →
  untouched (a :: q) t t'.
Proof. intros H H' [Hf Hb]. split; cbn; by rewrite H, H'. Qed.
Lemma remove_untouched q o t : diverge q [o] → untouched q t (Table.remove o t).
Proof.
  intros (a & q' & -> & Ha)%diverge_one. apply untouched_get.
  rewrite TableFacts.get_remove. by destruct (decide _).
Qed.
Lemma or_insert_untouched q o v t : diverge q [o] → untouched q t (Table.or_insert o v t).
Proof.
  intros (a & q' & -> & Ha)%diverge_one. apply untouched_get.
  rewrite TableFacts.get_or_insert. by destruct (decide _).
Qed.

Lemma insert_untouched p q v t : diverge q p → untouched q t (insert_if_missing p v t).
Proof.
  revert q t. induction p as [|s p IH]; intros q t H; [by destruct q|].
  destruct p as [|s' p]; [by apply or_insert_untouched|].
  destruct q as [|a q]; [done|]. cbn in H.
  set (t' := insert_if_missing _ v t).
  assert (Ht : ∀ k, Table.get k t' =
      if decide (k = s) then
        (λ entry, match entry with
                  | VTable next => VTable (insert_if_missing (s' :: p) v next)
                  | _ => entry
                  end) <$> Some (default (VTable []) (Table.get s t))
      else Table.get k t).
  { intros k. subst t'. change (insert_if_missing (s :: s' :: p) v t) with
      (Table.alter s (λ entry, match entry with
                               | VTable next => VTable (insert_if_missing (s' :: p) v next)
                               | _ => entry
                               end) (Table.or_insert s (VTable []) t)).
    rewrite TableFacts.get_alter, TableFacts.get_or_insert. by destruct (decide (k = s)). }
  destruct (decide (a = s)) as [->|]; [|apply untouched_get; rewrite Ht; by destruct (decide _)].
  specialize (Ht s). destruct (decide (s = s)) as [_|]; [|done].
  destruct q as [|b q]; [done|].
  destruct (Table.get s t) as [w|] eqn:Hs; cbn [default from_option fmap option_fmap option_map id] in Ht.
  - destruct w; try (apply untouched_get; congruence).
    eapply untouched_below; [exact Hs|exact Ht|]. by apply IH.
  - destruct (IH (b :: q) [] H) as [Hf Hb].
    split; [change (Table.get s t' ≫= find (b :: q) = Table.get s t ≫= find (b :: q))
           |change (match Table.get s t' with Some v => blocked (b :: q) v | None => false end =
                    match Table.get s t with Some v => blocked (b :: q) v | None => false end)];
      rewrite Hs, Ht; [exact Hf|exact Hb].
Qed.
Lemma insert_present p v w t : find p (VTable t) = Some w → insert_if_missing p v t = t.
Proof.
  revert t. induction p as [|s p IH]; intros t H; [done|].
  cbn in H. destruct (Table.get s t) as [x|] eqn:Hs; [|done].
  destruct p as [|s' p]; cbn [insert_if_missing]; unfold Table.or_insert; rewrite Hs; [done|].
  apply TableFacts.alter_id. intros x' Hx. rewrite Hs in Hx. injection Hx as <-.
  destruct x; try done. f_equal. by apply IH.
Qed.
Lemma insert_absent p v t :
  p ≠ [] → find p (VTable t) = None → blocked p (VTable t) = false →
  find p (VTable (insert_if_missing p v t)) = Some v.
Proof.
  revert t. induction p as [|s p IH]; intros t Hp Hf Hb; [done|].
  cbn in Hf, Hb. destruct p as [|s' p]; cbn [insert_if_missing find value_get].
  - rewrite TableFacts.get_or_insert. destruct (decide _); [|done].
    by destruct (Table.get s t).
  - rewrite TableFacts.get_alter, TableFacts.get_or_insert. destruct (decide _); [|done].
    destruct (Table.get s t) as [x|] eqn:Hs; cbn [default from_option fmap option_fmap option_map id].
    + destruct x; cbn in Hb; try done. apply IH; done.
    + apply IH; done.
Qed.

(** A change of the table at a path. *)
Lemma find_at_table p q f t :
  find (p ++ q) (VTable (at_table p f t)) =
  match find p (VTable t) with Some (VTable n) => find q (VTable (f n)) | _ => find (p ++ q) (VTable t) end.
Proof.
  revert t. induction p as [|s p IH]; intros t; [done|].
  cbn [at_table app find value_get]. rewrite TableFacts.get_alter. destruct (decide _); [|done].
  destruct (Table.get s t) as [x|]; [|done]. cbn [fmap option_fmap option_map mbind option_bind].
  destruct x; solve [apply IH|by destruct p].
Qed.
Lemma at_table_untouched p q f t :
  (∀ q' n, q = p ++ q' → untouched q' n (f n)) → diverge q p ∨ (∃ q', q = p ++ q') →
  untouched q t (at_table p f t).
Proof.
  revert q t. induction p as [|s p IH]; intros q t Hf Hq.
  - destruct Hq as [H|[q' ->]]; [by destruct q|]. by apply Hf.
  - destruct q as [|a q]; [by destruct Hq as [|[]]|].
    pose proof (TableFacts.get_alter a s
      (λ v, match v with VTable next => VTable (at_table p f next) | _ => v end) t) as Ht.
    change (Table.alter s _ t) with (at_table (s :: p) f t) in Ht.
    destruct (decide (a = s)) as [->|]; [|by apply untouched_get].
    destruct (Table.get s t) as [x|] eqn:Hs; cbn [fmap option_fmap option_map] in Ht;
      [|apply untouched_get; congruence].
    destruct x as [| | | |n|]; try (apply untouched_get; congruence).
    eapply untouched_below; [exact Hs|exact Ht|]. apply IH.
    + intros q' m ->. by apply Hf.
    + destruct Hq as [H|[q' [= ->]]]; [left|eauto]. cbn in H. by destruct (decide _).
Qed.

(** * Settings of older versions *)

(** A step of the normalisation moves the value of one path to another. *)
Record step := mkStep { legacy : list text; target : list text; run : Table.t → Table.t }.
Definition move (e : text * list text) : step := mkStep [e.1] e.2 (move_legacy_value e.1 e.2).
Definition rename (e : list text * text * text) : step :=
  let '(path, origin, target) := e in
  mkStep (path ++ [origin]) (path ++ [target]) (rename_nested_value path origin target).
Definition steps : list step := (move <$> legacy_moves) ++ (rename <$> legacy_renames).

Record step_ok (x : step) : Prop := {
  step_frame q t : diverge q (legacy x) → diverge q (target x) → untouched q t (run x t);
  step_gone t : find (legacy x) (VTable (run x t)) = None;
  step_kept t v : find (target x) (VTable t) = Some v → find (target x) (VTable (run x t)) = Some v;
  step_moved t : find (target x) (VTable t) = None → blocked (target x) (VTable t) = false →
    find (target x) (VTable (run x t)) = find (legacy x) (VTable t);
  step_same t : find (legacy x) (VTable t) = None → run x t = t }.

Lemma find_one k t : find [k] (VTable t) = Table.get k t.
Proof. cbn. by destruct (Table.get k t). Qed.
Lemma find_one_removed k t : find [k] (VTable (Table.remove k t)) = None.
Proof. rewrite find_one, TableFacts.get_remove. by destruct (decide _). Qed.

Lemma move_ok o p : p ≠ [] → diverge p [o] → step_ok (move (o, p)).
Proof.
  intros Hp Hd. unfold move, move_legacy_value. constructor; cbn [fst snd legacy target run].
  - intros q t Ho Ht. destruct (Table.get o t); [|done].
    eapply untouched_trans; [by apply remove_untouched|by apply insert_untouched].
  - intros t. destruct (Table.get o t) eqn:Hg; [|by rewrite find_one].
    rewrite diverge_sym in Hd. rewrite (proj1 (insert_untouched p [o] _ _ Hd)). apply find_one_removed.
  - intros t v Hv. destruct (Table.get o t) eqn:Hg; [|done].
    rewrite <- (proj1 (remove_untouched p o t Hd)) in Hv. by rewrite (insert_present p _ v).
  - intros t Hf Hb. rewrite find_one. destruct (Table.get o t) eqn:Hg; [|done].
    destruct (remove_untouched p o t Hd) as [Hf' Hb']. apply insert_absent; congruence.
  - intros t H. rewrite find_one in H. by rewrite H.
Qed.

Lemma diverge_app p q r : diverge (p ++ q) (p ++ r) = diverge q r.
Proof. induction p as [|a p IH]; [done|]. cbn. by destruct (decide _). Qed.
(** A path that diverges from one below [p] diverges from [p] or goes below it. *)
Lemma diverge_below q p r : diverge q (p ++ r) → diverge q p ∨ ∃ q', q = p ++ q' ∧ diverge q' r.
Proof.
  revert q. induction p as [|a p IH]; intros q H; [eauto|].
  destruct q as [|b q]; [done|]. cbn in *. destruct (decide (b = a)) as [->|]; [|by left].
  destruct (IH _ H) as [?|(q' & -> & ?)]; eauto.
Qed.

Lemma rename_ok path o k : o ≠ k → step_ok (rename (path, o, k)).
Proof.
  intros Hne. unfold rename, rename_nested_value. constructor; cbn [legacy target run].
  - intros q t Ho Hk. apply at_table_untouched.
    + intros q' n ->. rewrite diverge_app in Ho, Hk. destruct (Table.get o n); [|done].
      eapply untouched_trans; [by apply remove_untouched|by apply or_insert_untouched].
    + apply diverge_below in Ho. destruct Ho as [?|(? & ? & ?)]; eauto.
  - intros t. rewrite find_at_table. destruct (find path (VTable t)) as [[| | | |n|]|] eqn:Hp;
      try (rewrite find_app, Hp; done).
    destruct (Table.get o n) eqn:Hg; [|by rewrite find_one].
    rewrite find_one, TableFacts.get_or_insert, !TableFacts.get_remove. repeat destruct (decide _); cbn; congruence.
  - intros t v Hv. rewrite find_at_table. pose proof Hv as Hv'. rewrite find_app in Hv'.
    destruct (find path (VTable t)) as [[| | | |n|]|]; try done.
    cbn [mbind option_bind] in Hv'. destruct (Table.get o n); [|done].
    rewrite find_one in *. rewrite TableFacts.get_or_insert, !TableFacts.get_remove, Hv'.
    repeat destruct (decide _); cbn; congruence.
  - intros t Hf _. rewrite find_at_table, (find_app path [o]). rewrite find_app in Hf.
    destruct (find path (VTable t)) as [[| | | |n|]|] eqn:Hp; try (rewrite find_app, Hp; done).
    cbn [mbind option_bind] in Hf |- *. rewrite find_one in Hf. rewrite (find_one o n).
    destruct (Table.get o n); rewrite find_one; [|done].
    rewrite TableFacts.get_or_insert, !TableFacts.get_remove, Hf. repeat destruct (decide _); cbn; congruence.
  - intros t H. revert t H. induction path as [|s path IH]; intros t H; cbn [at_table app] in *.
    + rewrite find_one in H. by rewrite H.
    + apply TableFacts.alter_id. intros v Hv. cbn in H. rewrite Hv in H. cbn in H.
      destruct v; try done. f_equal. by apply IH.
Qed.

Definition run_all (l : list step) (t : Table.t) : Table.t := fold_left (λ t x, run x t) l t.
Lemma normalize_steps t : normalize_table t = run_all steps t.
Proof. reflexivity. Qed.

Definition away (q : list text) (x : step) : Prop := diverge q (legacy x) ∧ diverge q (target x).
Definition apart (x y : step) : Prop :=
  (away (legacy x) y ∧ away (target x) y) ∧ away (legacy y) x ∧ away (target y) x.
Fixpoint all_apart (l : list step) : Prop :=
  match l with [] => True | x :: l => Forall (apart x) l ∧ all_apart l end.
Lemma steps_apart : all_apart steps.
Proof. unfold steps. cbn [fmap list_fmap app legacy_moves legacy_renames]. repeat constructor. Qed.
Lemma steps_ok : Forall step_ok steps.
Proof.
  apply Forall_app. split; [repeat (constructor; [by apply move_ok|])|
                            repeat (constructor; [by apply rename_ok|])]; constructor.
Qed.

Lemma run_all_untouched q l t : Forall step_ok l → Forall (away q) l → untouched q t (run_all l t).
Proof.
  intros Hok. revert t. induction Hok as [|x l Hx _ IH]; intros t Hq; [done|].
  inversion_clear Hq as [|? ? [? ?] ?]. cbn.
  eapply untouched_trans; [by apply (step_frame x)|by apply IH].
Qed.

(** What a step does, by what it does to the whole list. *)
Definition moved (x : step) (t t' : Table.t) : Prop :=
  find (legacy x) (VTable t') = None ∧
  (∀ v, find (target x) (VTable t) = Some v → find (target x) (VTable t') = Some v) ∧
  (find (target x) (VTable t) = None → blocked (target x) (VTable t) = false →
   find (target x) (VTable t') = find (legacy x) (VTable t)).
Lemma run_all_step x l t : Forall step_ok l → all_apart l → x ∈ l → moved x t (run_all l t).
Proof.
  intros Hok. revert t. induction Hok as [|y l Hy Hl IH]; intros t Ha Hx; [by apply not_elem_of_nil in Hx|].
  destruct Ha as [Hap Ha]. change (run_all (y :: l) t) with (run_all l (run y t)).
  apply elem_of_cons in Hx as [->|Hx].
  - assert (Forall (away (legacy y)) l) as Hq by (eapply Forall_impl; [exact Hap|]; intros z Hz; apply Hz).
    assert (Forall (away (target y)) l) as Hq' by (eapply Forall_impl; [exact Hap|]; intros z Hz; apply Hz).
    apply (run_all_untouched _ l (run y t) Hl) in Hq as [Hq _], Hq' as [Hq' _].
    unfold moved. rewrite Hq, Hq'.
    split; [by apply step_gone|]. split; [by apply step_kept|by apply step_moved].
  - destruct (IH (run y t) Ha Hx) as (H1 & H2 & H3).
    rewrite Forall_forall in Hap. destruct (Hap x Hx) as (_ & [Hl1 Hl2] & Ht1 & Ht2).
    destruct (step_frame y Hy _ t Hl1 Hl2) as [El _], (step_frame y Hy _ t Ht1 Ht2) as [Et Eb].
    unfold moved. rewrite <- El, <- Et, <- Eb. done.
Qed.
Lemma run_all_same l t :
  Forall step_ok l → Forall (λ x, find (legacy x) (VTable t) = None) l → run_all l t = t.
Proof.
  intros Hok. induction Hok as [|x l Hx _ IH]; intros Hn; [done|].
  inversion_clear Hn. cbn. rewrite (step_same x Hx); [by apply IH|done].
Qed.

(** Where a setting was and where it is. *)
Definition legacy_settings : list (list text * list text) :=
  ((λ e, ([e.1], e.2)) <$> legacy_moves) ++
  ((λ '(path, origin, target), (path ++ [origin], path ++ [target])) <$> legacy_renames).

(** C37. Settings of older versions: after the normalisation no setting is where it was; what was set where
    it belongs is kept, else the old value is there, unless something that is not a table is in the way;
    every other path keeps its value, and normalising again changes nothing. *)
Theorem legacy_settings_moved config :
  let config' := normalize_legacy_toml config in
  (∀ origin target, (origin, target) ∈ legacy_settings →
     find origin config' = None ∧
     (∀ v, find target config = Some v → find target config' = Some v) ∧
     (find target config = None → blocked target config = false → find target config' = find origin config)) ∧
  (∀ q, Forall (λ '(origin, target), diverge q origin ∧ diverge q target) legacy_settings →
     find q config' = find q config) ∧
  normalize_legacy_toml config' = config'.
Proof.
  cbv zeta.
  assert (Hs : legacy_settings = (λ x, (legacy x, target x)) <$> steps) by reflexivity.
  assert (Hn : Forall (λ e, e.1 ≠ [] ∧ e.2 ≠ []) legacy_settings) by (rewrite Hs; repeat constructor; done).
  rewrite Forall_forall in Hn.
  destruct config as [| | | |t|]; try
    (split; [|done]; intros o k Hx; apply Hn in Hx as [??]; destruct o, k; done).
  cbn [normalize_legacy_toml]. rewrite !normalize_steps, Hs.
  split; [|split].
  - intros o k (x & [= -> ->] & Hx)%list_elem_of_fmap. by apply run_all_step; [apply steps_ok|apply steps_apart|].
  - intros q Hq. apply run_all_untouched; [apply steps_ok|]. by rewrite Forall_fmap in Hq.
  - f_equal. rewrite normalize_steps. apply run_all_same; [apply steps_ok|]. apply Forall_forall. intros x Hx.
    by apply run_all_step; [apply steps_ok|apply steps_apart|].
Qed.

(** * Merging *)

(** The tables of a value have every key once. *)
Fixpoint unique (v : TomlValue) : Prop :=
  match v with
  | VTable l =>
      NoDup l.*1 ∧
      (fix all (l : Table.t) : Prop := match l with [] => True | e :: l => unique e.2 ∧ all l end) l
  | _ => True
  end.
Lemma unique_table l : unique (VTable l) ↔ NoDup l.*1 ∧ Forall (λ e, unique e.2) l.
Proof.
  assert (H : (fix all (l : Table.t) : Prop := match l with [] => True | e :: l => unique e.2 ∧ all l end) l ↔
              Forall (λ e, unique e.2) l).
  { induction l as [|e l IH]; [done|]. rewrite Forall_cons, <- IH. done. }
  cbn. by rewrite H.
Qed.
Lemma unique_get l k v : unique (VTable l) → Table.get k l = Some v → unique v.
Proof.
  intros [_ H]%unique_table Hg%TableFacts.get_Some_elem.
  rewrite Forall_forall in H. exact (H _ Hg).
Qed.

Lemma merge_table base l : merge (VTable base) (VTable l) = VTable (merge_tables base l).
Proof. reflexivity. Qed.
Lemma get_merge_entry k base e :
  Table.get k (merge_entry merge base e) =
  if decide (k = e.1) then Some (match Table.get k base with Some v => merge v e.2 | None => e.2 end)
  else Table.get k base.
Proof.
  unfold merge_entry. rewrite TableFacts.get_insert by (rewrite TableFacts.get_remove; by destruct (decide _)).
  rewrite TableFacts.get_remove. destruct (decide (k = e.1)) as [->|]; done.
Qed.
Lemma get_merge_tables k base l :
  NoDup l.*1 →
  Table.get k (merge_tables base l) =
  match Table.get k base, Table.get k l with
  | Some b, Some r => Some (merge b r)
  | b, None => b
  | None, r => r
  end.
Proof.
  unfold merge_tables. revert base. induction l as [|[k' v] l IH]; intros base Hd.
  - cbn. by destruct (Table.get k base).
  - cbn [fmap list_fmap] in Hd. apply NoDup_cons in Hd as [Hk Hd]. cbn [fold_left fst] in *.
    rewrite (IH _ Hd), get_merge_entry, TableFacts.get_cons. cbn [fst snd].
    destruct (decide (k = k')) as [->|], (decide _); try congruence.
    apply TableFacts.get_None in Hk. rewrite Hk. by destruct (Table.get k' base).
Qed.

(** The value at a path after a merge: that of the replacement merged over that of the base; where the
    replacement has none, that of the base, unless the replacement has something else in the way. *)
Lemma find_merge p base replacement :
  unique replacement →
  find p (merge base replacement) =
  match find p base, find p replacement with
  | Some b, Some r => Some (merge b r)
  | None, r => r
  | Some b, None => if blocked p replacement then None else Some b
  end.
Proof.
  revert base replacement. induction p as [|k p IH]; intros base r Hu; [done|].
  destruct r as [| | | |l|]; try (cbn; destruct base; cbn; try done; by destruct (_ ≫= _)).
  destruct base as [| | | |b|]; try done.
  rewrite merge_table. cbn [find value_get blocked].
  pose proof Hu as [Hd _]%unique_table. rewrite get_merge_tables by done.
  destruct (Table.get k b) as [vb|], (Table.get k l) as [vr|] eqn:Hr; cbn [mbind option_bind]; try done.
  - apply IH. by eapply unique_get.
  - by destruct (find p vb).
Qed.

(** ** Keys stay unique *)

Section toml_ind.
Context (P : TomlValue → Prop) (Htable : ∀ l, Forall (λ e, P e.2) l → P (VTable l))
  (Hother : ∀ v, match v with VTable _ => True | _ => P v end).
Fixpoint toml_ind (v : TomlValue) : P v :=
  match v with
  | VTable l =>
      Htable l ((fix all (l : Table.t) : Forall (λ e, P e.2) l :=
        match l with [] => Forall_nil_2 _ | e :: l => Forall_cons_2 _ _ _ (toml_ind e.2) (all l) end) l)
  | v => Hother v
  end.
End toml_ind.

Lemma unique_remove k l : unique (VTable l) → unique (VTable (Table.remove k l)).
Proof.
  rewrite !unique_table. intros [Hd Hf]. induction l as [|[k' v] l IH]; [done|].
  cbn [fmap list_fmap fst] in Hd. apply NoDup_cons in Hd as [Hk Hd]. apply Forall_cons in Hf as [Hv Hf].
  destruct (IH Hd Hf) as [Hd' Hf']. rewrite TableFacts.remove_cons. destruct (decide _); [done|].
  split; [|by constructor]. cbn [fmap list_fmap fst]. constructor; [|done].
  rewrite TableFacts.remove_keys. naive_solver.
Qed.
Lemma unique_insert k v l :
  Table.get k l = None → unique v → unique (VTable l) → unique (VTable (Table.insert k v l)).
Proof.
  intros Hk Hv Hl. rewrite unique_table in *. rewrite (TableFacts.insert_perm k v l Hk).
  cbn [fmap list_fmap fst]. rewrite NoDup_cons, Forall_cons, <- TableFacts.get_None. naive_solver.
Qed.
Lemma unique_alter k f l : (∀ v, unique v → unique (f v)) → unique (VTable l) → unique (VTable (Table.alter k f l)).
Proof.
  intros Hf. rewrite !unique_table, TableFacts.alter_keys. intros [Hd Hl]. split; [done|]. clear Hd.
  induction Hl as [|[k' v] l Hv Hl IH]; [constructor|]. cbn [Table.alter].
  destruct (decide _); constructor; try done. by apply Hf.
Qed.
Lemma unique_or_insert k v l : unique v → unique (VTable l) → unique (VTable (Table.or_insert k v l)).
Proof.
  intros Hv Hl. unfold Table.or_insert. destruct (Table.get k l) eqn:H; [done|]. by apply unique_insert.
Qed.
Lemma unique_empty : unique (VTable []).
Proof. apply unique_table. split; constructor. Qed.

Lemma unique_insert_if_missing p v l : unique v → unique (VTable l) → unique (VTable (insert_if_missing p v l)).
Proof.
  intros Hv. revert l. induction p as [|s p IH]; intros l Hl; [done|].
  destruct p as [|s' p]; [by apply unique_or_insert|].
  apply unique_alter; [|apply unique_or_insert; [apply unique_empty|done]].
  intros [| | | |n|]; try done. intros Hn. by apply (IH n).
Qed.
Lemma unique_move o p l : unique (VTable l) → unique (VTable (move_legacy_value o p l)).
Proof.
  intros Hl. unfold move_legacy_value. destruct (Table.get o l) eqn:H; [|done].
  apply unique_insert_if_missing; [by eapply unique_get|by apply unique_remove].
Qed.
Lemma unique_rename p o k l : unique (VTable l) → unique (VTable (rename_nested_value p o k l)).
Proof.
  unfold rename_nested_value. revert l. induction p as [|s p IH]; intros l Hl; cbn [at_table].
  - destruct (Table.get o l) eqn:H; [|done].
    apply unique_or_insert; [by eapply unique_get|by apply unique_remove].
  - apply unique_alter; [|done]. intros [| | | |n|]; try done. apply IH.
Qed.
Lemma foldl_keeps {A B} (P : A → Prop) (f : A → B → A) l a :
  P a → (∀ a b, P a → P (f a b)) → P (foldl f a l).
Proof. intros Ha Hf. revert a Ha. induction l as [|b l IH]; intros a Ha; [done|]. by apply IH, Hf. Qed.
Lemma unique_normalize v : unique v → unique (normalize_legacy_toml v).
Proof.
  destruct v as [| | | |l|]; try done. cbn [normalize_legacy_toml]. unfold normalize_table. intros Hl.
  apply (foldl_keeps (λ l, unique (VTable l))); [|intros ? [[]]; apply unique_rename].
  apply (foldl_keeps (λ l, unique (VTable l))); [done|intros ? []; apply unique_move].
Qed.

Lemma unique_merge base replacement : unique base → unique replacement → unique (merge base replacement).
Proof.
  revert base. apply (toml_ind (λ r, ∀ b, unique b → unique r → unique (merge b r))).
  - intros l Hl base Hb Hr. destruct base as [| | | |b|]; try done. rewrite merge_table.
    unfold merge_tables. apply unique_table in Hr as [_ Hr]. revert b Hb.
    induction Hl as [|[k v] l Hv Hl IH]; intros b Hb; [done|].
    apply Forall_cons in Hr as [Hv' Hr]. cbn [fold_left]. apply (IH Hr). unfold merge_entry. cbn [fst snd] in *.
    apply unique_insert; [rewrite TableFacts.get_remove; by destruct (decide _)| |by apply unique_remove].
    destruct (Table.get k b) eqn:Hg; [|done]. apply Hv; [by eapply unique_get|done].
  - intros [| | | | |]; try done; intros [| | | | |]; done.
Qed.

(** * Loading *)

(** A value that merging does not combine with another. *)
Definition plain (v : TomlValue) : Prop := match v with VArray _ | VTable _ => False | _ => True end.
Lemma merge_plain b r : plain (merge b r) → merge b r = r.
Proof. by destruct b, r. Qed.

Section load.
Context (read_to_string : Path → result LoadError text) (from_str : text → result LoadError TomlValue).
Context (home_dir : option Path).
(** A table of the [toml] crate is a map. *)
Hypothesis parsed_unique : ∀ s v, from_str s = Ok v → unique v.
#[local] Abbreviation load := (deserialize_config read_to_string from_str).
#[local] Abbreviation parse := (parse_config read_to_string from_str home_dir).

Lemma load_unique path v : load path = Ok v → unique v.
Proof using parsed_unique.
  unfold deserialize_config, deserialize_toml_config. intros H.
  destruct (read_to_string path) as [s|]; [|done].
  destruct (from_str _) as [c|] eqn:Hc; [|done]. injection H as <-.
  by eapply unique_normalize, parsed_unique.
Qed.

(** Every plain setting of a value is one of these files. *)
Definition comes_from (v : TomlValue) (paths : list Path) : Prop :=
  unique v ∧
  ∀ p w, plain w → find p v = Some w → ∃ path c, path ∈ paths ∧ load path = Ok c ∧ find p c = Some w.
Lemma comes_from_sub v l l' : l ⊆ l' → comes_from v l → comes_from v l'.
Proof. intros Hl [Hu H]. split; [done|]. intros p w Hw Hf. destruct (H p w Hw Hf) as (x & c & ? & ?). eauto. Qed.
Lemma comes_from_file path v : load path = Ok v → comes_from v [path].
Proof using parsed_unique.
  intros H. split; [by eapply load_unique|]. intros p w _ Hf. exists path, v. split; [set_solver|done].
Qed.
Lemma comes_from_empty : comes_from (VTable []) [].
Proof. split; [apply unique_empty|]. intros [|k p] w Hw H; [by injection H as <-|done]. Qed.
Lemma comes_from_merge a b l l' : comes_from a l → comes_from b l' → comes_from (merge a b) (l ++ l').
Proof.
  intros [Ha Ha'] [Hb Hb']. split; [by apply unique_merge|]. intros p w Hw Hf.
  rewrite find_merge in Hf by done.
  destruct (find p b) as [r|] eqn:Hr.
  - assert (r = w) as ->.
    { destruct (find p a); [|congruence]. injection Hf as <-. symmetry. by apply merge_plain. }
    destruct (Hb' p w Hw Hr) as (x & c & ? & ?). exists x, c. rewrite elem_of_app. auto.
  - assert (find p a = Some w) as Hp by (destruct (find p a); [by destruct (blocked p b)|done]).
    destruct (Ha' p w Hw Hp) as (x & c & ? & ?). exists x, c. rewrite elem_of_app. auto.
Qed.

(** What loading a file with its imports gives. *)
Definition loads (parse : Path → list Path → option (result LoadError TomlValue * list Path)) : Prop :=
  ∀ path paths, ∃ res loaded,
    parse path paths = Some (res, paths ++ path :: loaded) ∧
    match load path with
    | Err e => res = Err e ∧ loaded = []
    | Ok config => ∃ imports, res = Ok (merge imports config) ∧ comes_from imports loaded
    end.

Lemma merge_imports_loads p l merged seen paths :
  loads p → comes_from merged seen →
  ∃ v loaded, merge_imports p l merged paths = Some (v, paths ++ loaded) ∧ comes_from v (seen ++ loaded).
Proof using parsed_unique.
  intros Hp. revert merged seen paths. induction l as [|[path|] l IH]; intros merged seen paths Hm.
  - exists merged, []. by rewrite !app_nil_r.
  - cbn [merge_imports]. destruct (Hp path paths) as (res & loaded & -> & Hres). cbn [mbind option_bind].
    assert (comes_from (match res with Ok config => merge merged config | Err _ => merged end)
              (seen ++ path :: loaded)) as Hm'.
    { destruct (load path) as [config|e] eqn:Hl.
      - destruct Hres as (imports & -> & Hi). apply comes_from_merge; [done|].
        eapply comes_from_sub; [|apply (comes_from_merge _ _ _ _ Hi (comes_from_file _ _ Hl))]. set_solver.
      - destruct Hres as [-> ->]. eapply comes_from_sub; [|done]. set_solver. }
    destruct (IH _ _ (paths ++ path :: loaded) Hm') as (v & loaded' & Hv & Hc).
    exists v, ((path :: loaded) ++ loaded'). rewrite !app_assoc. split; [exact Hv|exact Hc].
  - by apply IH.
Qed.

Lemma parse_loads limit : loads (parse limit).
Proof using parsed_unique.
  induction limit as [|limit IH]; intros path paths; cbn [parse_config].
  all: destruct (load path) as [config|e] eqn:Hl; [|exists (Err e), []; done].
  all: destruct (imports home_dir config path _) as [import_paths|] eqn:Hi; cbn [mbind option_bind].
  all: try (exists (Ok (merge (VTable []) config)), []; split; [done|]; eexists; split; [done|];
            apply comes_from_empty).
  - assert (import_paths = []) as ->.
    { revert Hi. unfold imports. destruct (_ ≫= value_get _) as [v|]; [|destruct (value_get _ config) as [v|]].
      all: try (destruct v as [| | |l| |]; try done).
      all: try (destruct l; [|done]). all: by intros [= <-]. }
    exists (Ok (merge (VTable []) config)), []. split; [done|]. eexists. split; [done|]. apply comes_from_empty.
  - destruct (merge_imports_loads (parse limit) import_paths (VTable []) [] (paths ++ [path]) IH comes_from_empty)
      as (v & loaded & -> & Hv). cbn [mbind option_bind].
    exists (Ok (merge v config)), loaded. rewrite <- app_assoc. split; [done|]. by exists v.
Qed.

(** C36. Reading a configuration with its imports ends without a panic, also when files import each other.
    It fails exactly when the file itself does; the file is the first of those watched.  A plain setting of
    the file is that of the result, and every plain setting of the result is one of a file that was read. *)
Theorem read_value_correct path :
  ∃ res loaded,
    read_value read_to_string from_str home_dir path = Some (res, path :: loaded) ∧
    match load path with
    | Err e => res = Err e
    | Ok config => ∃ v, res = Ok v ∧ unique v ∧
        (∀ p w, plain w → find p config = Some w → find p v = Some w) ∧
        (∀ p w, plain w → find p v = Some w →
           ∃ file c, file ∈ path :: loaded ∧ load file = Ok c ∧ find p c = Some w)
    end.
Proof using parsed_unique.
  destruct (parse_loads IMPORT_RECURSION_LIMIT path []) as (res & loaded & Hp & Hres).
  exists res, loaded. split; [exact Hp|].
  destruct (load path) as [config|e] eqn:Hl; [|by destruct Hres].
  destruct Hres as (imports & -> & Hi). exists (merge imports config). split; [done|].
  destruct (comes_from_merge _ _ _ _ Hi (comes_from_file _ _ Hl)) as [Hu Hc]. split; [done|]. split.
  - intros p w Hw Hf. rewrite find_merge, Hf by (by eapply load_unique).
    destruct (find p imports) as [b|]; [|done]. f_equal. by destruct b, w.
  - intros p w Hw Hf. destruct (Hc p w Hw Hf) as (file & c & Hfile & ?). exists file, c. set_solver.
Qed.
End load.

(** * Options *)

Section options.
Context {Config : Type} (replace : TomlValue → Config → bool * Config).

Lemma swap_remove_perm {A} i (l : list A) x :
  l !! i = Some x → ∃ l', swap_remove i l = Some l' ∧ l ≡ₚ x :: l'.
Proof.
  intros Hi. unfold swap_remove. rewrite Hi. cbn [mbind option_bind].
  destruct l as [|y l _] using rev_ind; [done|].
  rewrite last_snoc, removelast_last, length_app. cbn [mbind option_bind length].
  destruct (Nat.eqb_spec i (length l + 1 - 1)) as [->|Hne].
  - exists l. split; [done|]. rewrite lookup_app_r in Hi by lia.
    replace (length l + 1 - 1 - length l) with 0 in Hi by lia. injection Hi as ->.
    by rewrite Permutation_app_comm.
  - apply lookup_lt_Some in Hi as Hlt. rewrite length_app in Hlt. cbn in Hlt.
    rewrite lookup_app_l in Hi by lia. exists (<[i:=y]> l). split; [done|].
    rewrite <- (take_drop_middle l i x Hi) at 1. rewrite insert_take_drop by lia.
    rewrite <- app_assoc. cbn [app]. rewrite <- Permutation_middle. apply Permutation_skip, Permutation_app_head.
    apply Permutation_app_comm.
Qed.

Lemma override_loop_ends fuel i (options : list (text * TomlValue)) config :
  length options < fuel + i → i ≤ length options →
  ∃ kept dropped config',
    override_loop replace fuel i options config = Some (kept, config') ∧ options ≡ₚ kept ++ dropped.
Proof.
  revert i options config. induction fuel as [|fuel IH]; intros i options config Hf Hi; [lia|].
  cbn [override_loop]. destruct (Nat.ltb_spec i (length options)) as [Hlt|].
  - destruct (lookup_lt_is_Some_2 options i Hlt) as [x Hx]. rewrite Hx. cbn [mbind option_bind].
    destruct (replace x.2 config) as [[] config1].
    + apply IH; lia.
    + destruct (swap_remove_perm i options x Hx) as (options1 & -> & Hp). cbn [mbind option_bind].
      pose proof (Permutation_length Hp) as Hlen. cbn in Hlen.
      destruct (IH i options1 config1) as (kept & dropped & config' & -> & Hk); [lia..|].
      exists kept, (x :: dropped), config'. split; [done|]. rewrite Hp, Hk. apply Permutation_middle.
  - exists options, [], config. by rewrite app_nil_r.
Qed.
(** Overriding by options ends; the options that are kept are some of those given. *)
Theorem override_config_ends options config :
  ∃ kept dropped config',
    override_config replace options config = Some (kept, config') ∧ options ≡ₚ kept ++ dropped.
Proof. apply override_loop_ends; lia. Qed.
(** Options that are all accepted are applied in their order. *)
Theorem override_config_in_order options config :
  (∀ option config, option ∈ options → (replace option.2 config).1 = true) →
  override_config replace options config =
  Some (options, fold_left (λ config option, (replace option.2 config).2) options config).
Proof.
  intros Ha. unfold override_config.
  assert (H : ∀ fuel prefix rest config, options = prefix ++ rest → length rest < fuel →
    override_loop replace fuel (length prefix) options config =
    Some (options, fold_left (λ config option, (replace option.2 config).2) rest config)).
  { intros fuel. induction fuel as [|fuel IH]; intros prefix rest c Ho Hf; [lia|]. cbn [override_loop].
    pose proof (f_equal length Ho) as Hlen. rewrite length_app in Hlen.
    destruct rest as [|x rest]; cbn [length] in *.
    - destruct (Nat.ltb_spec (length prefix) (length options)); [lia|done].
    - destruct (Nat.ltb_spec (length prefix) (length options)); [|lia].
      rewrite Ho at 1. rewrite (list_lookup_middle prefix rest x _ eq_refl). cbn [mbind option_bind fold_left].
      assert ((replace x.2 c).1 = true) as Hx by (apply Ha; rewrite Ho; set_solver).
      destruct (replace x.2 c) as [? c']. cbn in Hx. subst. specialize (IH (prefix ++ [x]) rest c').
      rewrite length_app, <- app_assoc, Nat.add_1_r in IH. apply IH; [done|lia]. }
  apply (H _ []); [done|lia].
Qed.
End options.

(** An option that is refused changes the order of the others: the one before the last wins. *)
Example refused_option_reorders :
  let replace v (config : Z) := match v with VInteger z => (true, z) | _ => (false, config) end in
  let one := (str "a = 1", VInteger 1) in
  let two := (str "a = 2", VInteger 2) in
  override_config replace [one; two] 0%Z = Some ([one; two], 2%Z) ∧
  override_config replace [(str "b = true", VBoolean true); one; two] 0%Z = Some ([two; one], 1%Z).
Proof. split; reflexivity. Qed.

(** * The monitor *)

Section monitor.
Context (path_le : relation (option Path)) `{!RelDecision path_le} (hash : list (option Path) → N).
Import ConfigMonitor.
(** A new monitor is asked for exactly when the paths are too many or hash as before. *)
Theorem needs_restart_iff watched files :
  needs_restart path_le hash watched files = true ↔
  MAX_PATHS < length files ∨ hash_paths path_le hash files = watched.
Proof.
  unfold needs_restart, hash_paths. destruct (Nat.ltb_spec MAX_PATHS (length files)) as [|Hle]; [tauto|].
  rewrite bool_decide_eq_true. split; [by right|]. intros [?|?]; [lia|done].
Qed.
(** The monitor of these very files is replaced. *)
Corollary unchanged_files_restart files :
  needs_restart path_le hash (hash_paths path_le hash files) files = true.
Proof.
  unfold needs_restart. destruct (hash_paths path_le hash files); [|done]. by apply bool_decide_eq_true.
Qed.
End monitor.

(** * Concrete configurations *)

Module ConfigSample.
(** Two files that import each other, and one that is not there. *)
Definition main := path_of (str "/c/main.toml").
Definition other := path_of (str "/c/./other.toml").
Definition home := Some (path_of (str "/home/u/")).
Definition main_value := VTable
  [(str "a", VInteger 1);
   (str "general", VTable [(str "import", VArray [VString (str "other.toml"); VInteger 3; VString (str "~/x.toml")])]);
   (str "l", VArray [VInteger 1]);
   (str "shell", VString (str "zsh"))].
Definition other_value := VTable
  [(str "a", VInteger 2); (str "b", VInteger 3); (str "import", VArray [VString (str "/c/main.toml")]);
   (str "l", VArray [VInteger 2])].
Definition files (p : Path) : result LoadError text :=
  if decide (p = main) then Ok (BOM :: str "main")
  else if decide (p = other) then Ok (str "other") else Err NotFound.
Definition parser (s : text) : result LoadError TomlValue :=
  if decide (s = str "main") then Ok main_value
  else if decide (s = str "other") then Ok other_value else Err TomlError.
Lemma parser_unique s v : parser s = Ok v → unique v.
Proof.
  unfold parser. repeat case_decide; intros [= <-]; apply (bool_decide_unpack _) || idtac;
    cbn; repeat split; try done; apply (bool_decide_unpack _); vm_compute; exact I.
Qed.

Example read_value_correct_witness :
  (∃ v, (fst <$> read_value files parser home main) = Some (Ok v) ∧
        find [str "a"] v = Some (VInteger 1) ∧ find [str "b"] v = Some (VInteger 3) ∧
        find [str "terminal"; str "shell"] v = Some (VString (str "zsh"))) ∧
  ∃ res loaded, read_value files parser home main = Some (res, main :: loaded) ∧
    match deserialize_config files parser main with
    | Err e => res = Err e
    | Ok config => ∃ v, res = Ok v ∧ unique v ∧
        (∀ p w, plain w → find p config = Some w → find p v = Some w) ∧
        (∀ p w, plain w → find p v = Some w →
           ∃ file c, file ∈ main :: loaded ∧ deserialize_config files parser file = Ok c ∧ find p c = Some w)
    end.
Proof.
  split.
  - eexists. split; [vm_compute; reflexivity|]. repeat split; vm_compute; reflexivity.
  - exact (read_value_correct files parser home parser_unique main).
Defined.

Example legacy_settings_moved_witness :
  find [str "terminal"; str "shell"] (normalize_legacy_toml main_value) = Some (VString (str "zsh")) ∧
  find [str "shell"] (normalize_legacy_toml main_value) = None ∧
  normalize_legacy_toml (normalize_legacy_toml main_value) = normalize_legacy_toml main_value.
Proof.
  destruct (legacy_settings_moved main_value) as (H & _ & Hn).
  destruct (H [str "shell"] [str "terminal"; str "shell"]) as (Hl & _ & Ht).
  { apply (bool_decide_unpack _). vm_compute. exact I. }
  split; [rewrite Ht by (vm_compute; reflexivity); vm_compute; reflexivity|]. split; [exact Hl|exact Hn].
Defined.
End ConfigSample.
