(* ===== verification/FairMutexes.v ===== *)
(** The lock of the terminal ([cutty_terminal/src/sync.rs]): who may hold it, who gets it next, and that
    threads do not block each other.

    The mutex of [parking_lot] is a parameter with what it documents: it has at most one owner, a thread
    gets it only while it is free, and can get it then.  A thread calls the operations in any order and
    drops what they gave it, except that it does not wait for a lock it holds itself. *)
From stdpp Require Import functions.
From S2P Require Import Prelude.

Class RawMutex := {
  mutex : Type;
  owner : mutex → option nat;
  unlocked : mutex;
  acquire : nat → mutex → mutex → Prop;
  release : mutex → mutex;
  owner_unlocked : owner unlocked = None;
  acquire_owner t m m' : acquire t m m' → owner m = None ∧ owner m' = Some t;
  acquire_free t m : owner m = None → ∃ m', acquire t m m';
  owner_release m : owner (release m) = None }.

(** * The lock and its users *)

Module FairMutex.
Section mutex.
Context `{RawMutex}.

Record t := mk { data : mutex; next : mutex }.
Definition new : t := mk unlocked unlocked.

(** Where a thread is: outside of the operations; in [lock] before it has [next], before it has [data],
    and before it drops [next]; in [lease]; in [lock_unfair]. *)
Inductive Pc := Outside | LockNext | LockData | LockReturn | LeaseNext | UnfairData.
(** With the guards the operations gave it. *)
Record Thread := thread { pc : Pc; leased : bool; guarded : bool }.

(** A step of thread [i]: whether it takes the data without [next]. *)
Inductive step (i : nat) : t → Thread → bool → t → Thread → Prop :=
  | lock_call m : step i m (thread Outside false false) false m (thread LockNext false false)
  | lock_next d n n' : acquire i n n' →
      step i (mk d n) (thread LockNext false false) false (mk d n') (thread LockData false false)
  | lock_data d d' n : acquire i d d' →
      step i (mk d n) (thread LockData false false) false (mk d' n) (thread LockReturn false false)
  | lock_return d n :
      step i (mk d n) (thread LockReturn false false) false (mk d (release n)) (thread Outside false true)
  | lease_call m : step i m (thread Outside false false) false m (thread LeaseNext false false)
  | lease_next d n n' : acquire i n n' →
      step i (mk d n) (thread LeaseNext false false) false (mk d n') (thread Outside true false)
  | lock_unfair_call m l : step i m (thread Outside l false) false m (thread UnfairData l false)
  | lock_unfair_data d d' n l : acquire i d d' →
      step i (mk d n) (thread UnfairData l false) (negb l) (mk d' n) (thread Outside l true)
  | try_lock_unfair_some d d' n l : acquire i d d' →
      step i (mk d n) (thread Outside l false) (negb l) (mk d' n) (thread Outside l true)
  | try_lock_unfair_none d n l : owner d ≠ None →
      step i (mk d n) (thread Outside l false) false (mk d n) (thread Outside l false)
  | drop_guard d n l :
      step i (mk d n) (thread Outside l true) false (mk (release d) n) (thread Outside l false)
  | drop_lease d n g :
      step i (mk d n) (thread Outside true g) false (mk d (release n)) (thread Outside false g).

(** All threads; any of them may go on. *)
Record System := system { lock : t; threads : nat → Thread }.
Definition start : System := system new (λ _, thread Outside false false).
Inductive run : System → nat → bool → System → Prop :=
  | run_thread m ts i unfair m' th' :
      step i m (ts i) unfair m' th' → run (system m ts) i unfair (system m' (<[i := th']> ts)).
Definition any_step s s' : Prop := ∃ i unfair, run s i unfair s'.
End mutex.
End FairMutex.
Import FairMutex.

Section props.
Context `{RawMutex}.
Implicit Types s : System.

Definition has_data (th : Thread) : bool :=
  guarded th || match pc th with LockReturn => true | _ => false end.
Definition has_next (th : Thread) : bool :=
  leased th || match pc th with LockData | LockReturn => true | _ => false end.
(** What a thread holds is consistent with where it is. *)
Definition thread_ok (th : Thread) : Prop :=
  match pc th with
  | Outside => True
  | UnfairData => guarded th = false
  | _ => guarded th = false ∧ leased th = false
  end.

(** The invariant: the owners of the two mutexes are the threads that have them. *)
Record system_ok s : Prop := {
  ok_threads i : thread_ok (threads s i);
  ok_data i : owner (data (lock s)) = Some i ↔ has_data (threads s i) = true;
  ok_next i : owner (next (lock s)) = Some i ↔ has_next (threads s i) = true }.

Lemma start_system_ok : system_ok start.
Proof. constructor; intros i; cbn; rewrite ?owner_unlocked; done. Qed.

(** What a step of one thread does to an owner, as the others see it. *)
Lemma owner_kept (x x' : option nat) (has has' : bool) (others : nat → bool) i :
  (∀ j, j ≠ i → x = Some j ↔ others j = true) → (x = Some i ↔ has = true) →
  (x' = x ∧ has' = has) ∨ (x = None ∧ x' = Some i ∧ has' = true) ∨ (has = true ∧ x' = None ∧ has' = false) →
  (∀ j, j ≠ i → x' = Some j ↔ others j = true) ∧ (x' = Some i ↔ has' = true).
Proof.
  intros Ho Hi [[-> ->]|[(-> & -> & ->)|(-> & -> & ->)]]; [done| |].
  - split; [|done]. intros j Hj. rewrite <- (Ho j Hj). split; congruence.
  - assert (x = Some i) as -> by by apply Hi.
    split; [|done]. intros j Hj. rewrite <- (Ho j Hj). split; congruence.
Qed.

(** A thread leaves an owner as it is, becomes it, or stops being it. *)
Definition transfer (i : nat) (x x' : option nat) (has has' : bool) : Prop :=
  (x' = x ∧ has' = has) ∨ (x = None ∧ x' = Some i ∧ has' = true) ∨ (has = true ∧ x' = None ∧ has' = false).
Lemma step_transfers i m th u m' th' :
  step i m th u m' th' → thread_ok th →
  thread_ok th' ∧
  transfer i (owner (data m)) (owner (data m')) (has_data th) (has_data th') ∧
  transfer i (owner (next m)) (owner (next m')) (has_next th) (has_next th').
Proof.
  unfold transfer. intros Hs.
  destruct Hs; cbn; intros Hok; rewrite ?owner_release;
    repeat match goal with
           | H : acquire _ _ _ |- _ => apply acquire_owner in H as [-> ->]
           | b : bool |- _ => destruct b
           end; cbn in *; intuition congruence.
Qed.

Lemma run_ok s i u s' : system_ok s → run s i u s' → system_ok s'.
Proof.
  intros [Ht Hd Hn] Hr. destruct Hr as [m ts i u m' th' Hs]. cbn in *.
  destruct (step_transfers _ _ _ _ _ _ Hs (Ht i)) as (Hok & Htd & Htn).
  destruct (owner_kept _ _ _ _ (λ j, has_data (ts j)) i (λ j _, Hd j) (Hd i) Htd) as [Hd' Hdi].
  destruct (owner_kept _ _ _ _ (λ j, has_next (ts j)) i (λ j _, Hn j) (Hn i) Htn) as [Hn' Hni].
  constructor; cbn; intros j.
  all: destruct (decide (j = i)) as [->|]; [rewrite fn_lookup_insert|rewrite fn_lookup_insert_ne by congruence].
  all: auto.
Qed.
Lemma runs_ok s : rtc any_step start s → system_ok s.
Proof.
  intros Hr. apply rtc_ind_r with (P := system_ok) in Hr; [done|apply start_system_ok|].
  intros x y _ (i & u & Hxy) Hx. by eapply run_ok.
Qed.

(** While thread [i] has [next], no other thread gets the data in a step that is not unfair. *)
Lemma next_reserves s j s' i :
  system_ok s → run s j false s' → j ≠ i → has_next (threads s i) = true →
  ∀ k, k ≠ i → has_data (threads s' k) = true → has_data (threads s k) = true.
Proof.
  intros [Ht Hd Hn] Hr Hj Hi k Hk. inversion Hr as [m ts ? ? m' th' Hs]; subst. cbn in *.
  destruct (decide (k = j)) as [->|]; [rewrite fn_lookup_insert|by rewrite fn_lookup_insert_ne by congruence].
  assert (has_next (ts j) = false) as Hnj.
  { destruct (has_next (ts j)) eqn:E; [|done]. apply Hn in E, Hi. congruence. }
  clear -Hs Hnj. revert Hs Hnj. generalize (ts j). intros th Hs.
  inversion Hs; subst; cbn; try done; repeat match goal with b : bool |- _ => destruct b end; done.
Qed.

(** ** Everything can be given back *)

(** How many steps a thread is from having nothing. *)
Definition work (th : Thread) : nat :=
  (match pc th with
   | Outside => 0
   | LockNext => 4
   | LockData => 3
   | LockReturn | LeaseNext | UnfairData => 2
   end + Nat.b2n (leased th) + Nat.b2n (guarded th))%nat.
Lemma work_zero th : work th = 0%nat → th = thread Outside false false.
Proof. by destruct th as [[] [] []]. Qed.

Definition can_finish s i : Prop := ∃ u s', run s i u s' ∧ (work (threads s' i) < work (threads s i))%nat.
Lemma finish_by s i u m' th' :
  step i (lock s) (threads s i) u m' th' → (work th' < work (threads s i))%nat → can_finish s i.
Proof.
  intros Hs Hw. destruct s as [m ts]. eexists u, _. split; [by constructor|]. cbn. by rewrite fn_lookup_insert.
Qed.

(** Some thread that has or wants something can go on. *)
Lemma some_finishes s k : system_ok s → (0 < work (threads s k))%nat → ∃ i, can_finish s i.
Proof.
  intros [Ht Hd Hn] Hk. destruct s as [[d n] ts]. cbn [lock threads data next] in *.
  destruct (owner d) as [i|] eqn:Ed; [|destruct (owner n) as [i|] eqn:En].
  - exists i. pose proof (proj1 (Hd i) eq_refl) as Hi. pose proof (Ht i) as Hok.
    destruct (ts i) as [p l g] eqn:Ei.
    destruct p, g, l; cbn in Hi, Hok; try done; try (by destruct Hok);
      (eapply finish_by; cbn [lock threads]; [rewrite Ei; constructor|rewrite Ei; cbn; lia]).
  - exists i. pose proof (proj1 (Hn i) eq_refl) as Hi. pose proof (Ht i) as Hok.
    destruct (acquire_free i d Ed) as [d' Hd'].
    destruct (ts i) as [p l g] eqn:Ei.
    assert (g = false ∧ p ≠ LockReturn) as [-> Hp].
    { pose proof (Hd i) as Hdi. rewrite Ei in Hdi. destruct g, p; cbn in Hdi; split; try done;
        destruct Hdi as [_ Hdi]; by specialize (Hdi eq_refl). }
    destruct p, l; cbn in Hi, Hok; try done; try (by destruct Hok);
      (eapply finish_by; cbn [lock threads]; [rewrite Ei; by econstructor|rewrite Ei; cbn; lia]).
  - exists k. pose proof (Ht k) as Hok. pose proof (Hd k) as Hdk. pose proof (Hn k) as Hnk.
    destruct (acquire_free k d Ed) as [d' Hd'], (acquire_free k n En) as [n' Hn'].
    destruct (ts k) as [p l g] eqn:Ek.
    assert (has_data (thread p l g) = false ∧ has_next (thread p l g) = false) as [Hd0 Hn0].
    { split; apply not_true_is_false; [intros X%Hdk|intros X%Hnk]; done. }
    destruct p, l, g; cbn in *; try done; try lia;
      (eapply finish_by; cbn [lock threads]; [rewrite Ek; by econstructor|rewrite Ek; cbn; lia]).
Qed.

Definition total (l : list nat) s : nat := sum_list_with (λ i, work (threads s i)) l.
Lemma total_insert l i th m m' ts :
  i ∈ l → NoDup l → (work th < work (ts i))%nat →
  (total l (system m' (<[i := th]> ts)) < total l (system m ts))%nat.
Proof.
  intros Hi Hl Hw. unfold total. induction Hl as [|j l Hj Hl IH]; [by apply not_elem_of_nil in Hi|].
  cbn in *. destruct (decide (j = i)) as [->|Hne].
  - rewrite fn_lookup_insert.
    assert (sum_list_with (λ k, work (<[i := th]> ts k)) l = sum_list_with (λ k, work (ts k)) l) as ->; [|lia].
    clear -Hj. induction l as [|k l IH]; [done|]. cbn. rewrite IH by set_solver.
    rewrite fn_lookup_insert_ne by set_solver. done.
  - rewrite fn_lookup_insert_ne by congruence.
    apply elem_of_cons in Hi as [->|Hi]; [done|]. pose proof (IH Hi). lia.
Qed.

(** Only finitely many threads have done anything. *)
Lemma runs_finite s : rtc any_step start s → ∃ l, NoDup l ∧ ∀ i, i ∉ l → work (threads s i) = 0%nat.
Proof.
  intros Hr. apply rtc_ind_r with
    (P := λ s, ∃ l, NoDup l ∧ ∀ i, i ∉ l → work (threads s i) = 0%nat) in Hr; [done| |].
  - exists []. split; [constructor|done].
  - intros x y _ (i & u & Hxy) (l & Hl & Hx). exists (remove_dups (i :: l)).
    split; [apply NoDup_remove_dups|]. intros k Hk. rewrite elem_of_remove_dups in Hk.
    inversion Hxy as [m ts ? ? m' th' Hs]; subst. cbn in *.
    rewrite fn_lookup_insert_ne by set_solver. apply Hx. set_solver.
Qed.

(** C16. The lock: at most one thread has the terminal.  While a thread waits for the terminal in [lock], or
    has a lease, no other gets it, however long the others run, except by the unfair operations.  From
    every state the threads can reach, all of them can get what they wait for and give it back: there
    is no deadlock. *)
Theorem fair_mutex_correct s :
  rtc any_step start s →
  (∀ i j, has_data (threads s i) = true → has_data (threads s j) = true → i = j) ∧
  (∀ i s', has_next (threads s i) = true →
     rtc (λ s s', ∃ j, j ≠ i ∧ run s j false s') s s' →
     ∀ k, k ≠ i → has_data (threads s' k) = true → has_data (threads s k) = true) ∧
  ∃ s', rtc any_step s s' ∧ ∀ i, threads s' i = thread Outside false false.
Proof.
  intros Hr. pose proof (runs_ok s Hr) as Hok. split; [|split].
  - intros i j Hi Hj. apply (ok_data s Hok) in Hi, Hj. congruence.
  - intros i s' Hi Hs. revert Hok Hi. induction Hs as [s|s s1 s' (j & Hj & Hrun) _ IH]; intros Hok Hi k Hk; [done|].
    intros Hd. assert (has_next (threads s1 i) = true) as Hi1.
    { inversion Hrun; subst. cbn. by rewrite fn_lookup_insert_ne. }
    eapply (next_reserves s j s1 i); [done..|]. apply IH; [|by eapply run_ok|done..].
    eapply rtc_r; [exact Hr|]. by exists j, false.
  - destruct (runs_finite s Hr) as (l & Hl & Hz).
    remember (total l s) as n eqn:En. revert s Hr Hok Hz En.
    induction n as [n IH] using lt_wf_ind. intros s Hr Hok Hz ->.
    destruct (decide (Exists (λ k, (0 < work (threads s k))%nat) l)) as [(k & _ & Hk)%Exists_exists|Hno].
    + destruct (some_finishes s k Hok Hk) as (i & u & s1 & Hrun & Hw).
      assert (i ∈ l) as Hi by (destruct (decide (i ∈ l)) as [|Hni]; [done|rewrite (Hz i Hni) in Hw; lia]).
      assert (any_step s s1) as Hstep by by exists i, u.
      destruct (IH (total l s1)) with (s := s1) as (s' & Hs' & Hidle).
      * inversion Hrun; subst. cbn in *. rewrite fn_lookup_insert in Hw. by apply total_insert.
      * by eapply rtc_r.
      * by eapply run_ok.
      * intros j Hj. inversion Hrun; subst. cbn in *. rewrite fn_lookup_insert_ne by congruence. by apply Hz.
      * done.
      * exists s'. split; [|done]. by eapply rtc_l.
    + exists s. split; [constructor|]. intros i. apply work_zero.
      destruct (decide (i ∈ l)) as [Hi|Hi]; [|by apply Hz].
      destruct (decide (0 < work (threads s i))%nat); [|lia].
      exfalso. apply Hno, Exists_exists. eauto.
Qed.
End props.

(** * A concrete mutex *)

Module FairMutexSample.
#[local] Instance sample : RawMutex :=
  {| mutex := option nat; owner := id; unlocked := None;
     acquire i m m' := m = None ∧ m' = Some i; release _ := None;
     owner_unlocked := eq_refl;
     acquire_owner i m m' H := H; acquire_free i m H := ex_intro _ (Some i) (conj H eq_refl);
     owner_release _ := eq_refl |}.

(** The first thread reads with a lease; the second waits in [lock]. *)
Definition waiting : System :=
  system (mk (Some 0%nat : @mutex sample) (Some 0%nat : @mutex sample))
    (<[1%nat := thread LockNext false false]> (<[0%nat := thread Outside true true]>
      (<[0%nat := thread Outside true false]> (<[0%nat := thread LeaseNext false false]>
        (λ _, thread Outside false false))))).
Lemma sample_reached : rtc any_step start waiting.
Proof.
  eapply rtc_l; [exists 0%nat, false; apply run_thread, lease_call|].
  eapply rtc_l; [exists 0%nat, false; apply run_thread; rewrite fn_lookup_insert; by apply (@lease_next sample 0 _ None (Some 0%nat))|].
  eapply rtc_l; [exists 0%nat, false; apply run_thread; rewrite fn_lookup_insert;
                 by apply (@try_lock_unfair_some sample 0 None (Some 0%nat) _ true)|].
  apply rtc_once. exists 1%nat, false. apply run_thread.
  rewrite !fn_lookup_insert_ne by done. apply lock_call.
Qed.
Example fair_mutex_correct_witness :
  (has_next (threads waiting 0%nat) = true ∧ has_data (threads waiting 1%nat) = false) ∧
  (∀ s', rtc (λ s s', ∃ j, j ≠ 0%nat ∧ run s j false s') waiting s' →
     has_data (threads s' 1%nat) = true → has_data (threads waiting 1%nat) = true) ∧
  ∃ s', rtc any_step waiting s' ∧ ∀ i, threads s' i = thread Outside false false.
Proof.
  destruct (fair_mutex_correct waiting sample_reached) as (_ & Hr & Hf).
  split; [split; reflexivity|]. split; [|exact Hf].
  intros s' Hs'. exact (Hr 0%nat s' eq_refl Hs' 1%nat ltac:(discriminate)).
Defined.
End FairMutexSample.
